(* ===== verification/_CoqProject ===== *)
-Q . S2P
Prelude.v
NodeHeap.v
Fifo.v
Stailq.v
Spsc.v
Lfq.v
CLib.v
Word.v
Bytes.v
Murmur.v
Ahtable.v
AhtableOk.v
AhtableIter.v
AhtableSpec.v
Csv.v
CsvOk.v
CsvSpec.v
Hattrie.v
HattrieIter.v
HattrieInv.v
HattrieOps.v
HattrieSplit.v
HattrieSpec.v
HattrieIterOk.v
Assoc.v
AssocHat.v
AssocDup.v
Hook.v
Server.v
Overlap.v
IoSocket.v
Http.v
SessMem.v
HttpSession.v
HttpRun.v
HttpServer.v
HttpSafe.v
HttpWire.v
Listen.v
ListenOk.v
Boot.v
BootSpec.v
StrTokens.v
StrTokensSpec.v
City.v
Conc.v
AtomicHash.v
FreeList.v
AtomicTable.v
AtomicOps.v
AtomicScan.v
AtomicHashOk.v
AtomicSpec.v
AtomicRace.v
Dll.v
Uthash.v
UthashOk.v
Lru.v
Lookupa.v
Perfect.v
PerfectOk.v
PerfectSpec.v
Gencode.v
PerfHex.v
Findhash.v
PerfMain.v
PerfHexOk.v
PerfHexFour.v
FindhashOk.v
FindhashSpec.v
PerfHexSpec.v
PerfMainSpec.v
