(* ===== verification/Prelude.v ===== *)
(** * ayubd-ng: a verification library

    ayubd-ng is an event-driven server: a main thread waits on [epoll], hands each socket
    with data to one of the worker threads through a queue without locks, and the worker
    runs the handler of a module loaded with [dlopen] (the HTTP module).  Sockets are
    represented by reference-counted hooks with a memory pool each; routes, configuration
    and module arguments are associative arrays over a HAT-trie.  This library models the
    part of the repository that the Makefile builds ([ayubd] and [mod_http.so] with the
    libraries linked into them), and the stand-alone components written in it or shipped
    with it: the CSV library, the string tokenizer, the first version of the queue, the
    lock-free hash table (atomic hash) with the hash it takes its keys through, the LRU caches on
    uthash, and the generator of perfect hashes (src/lib/perfect).

    ** How the code is embedded

    C functions are Rocq functions.  What can go wrong in C is a value: a function returns
    [result], which is [Ok] or one of the [fault]s below (a NULL or freed pointer, an access
    outside a buffer, a division by zero, a failed [assert], a shift by the width of a word or a variable
    without a value ([Undefined]), two threads in one table without a lock ([DataRace]), [exit]).  Code that works on
    shared objects is in the monad [st S] over the store it works on.  Addresses are explicit:
    two pointers to one object are one address, [free] removes the address, and [malloc]
    returns any address not in use (an argument of the operation that allocates).  Machine
    integers are [Z] with their wrap-around written out ([u32], [u64]); bytes are [Z]
    in [0, 256); buffers are lists of fixed length.  The kernel, the resolver, the allocator,
    PCRE, http-parser and the dynamic loader are arguments of the definitions that use
    them; the properties assume of them only what their documentation says (a match is
    inside the subject; the fields of a URL are inside it; a new descriptor is not in use; [recvmsg] may
    fill every buffer it is given; a block holds the bytes that were asked for, and may hold more).

    ** Files

    - [Prelude]: the result and state monads, with their lemmas and tactics.
    - [NodeHeap], [Fifo], [Stailq], [Lfq]: the linked structures.  [NodeHeap] is the store of
      nodes and its segment predicate; [Fifo] is the interface of a queue (a class with its
      laws); [Stailq] is [slist_*], [stailq_*] and [stailq_*_lf_spsc] of src/main.h over the
      macros of <sys/queue.h>; [Lfq] is src/lfq.c and src/stack.c.
    - [Spsc]: the [_lf_spsc] queue under interleaving, as steps of the producer (main thread)
      and the consumer (worker), each with at most one access to shared memory, and the
      semaphore between them.
    - [CLib], [Bytes]: strings, integers and buffers of C, and the library functions the code calls.
    - [Murmur], [Ahtable], [AhtableOk], [AhtableIter], [AhtableSpec]: the array hash table of
      src/lib/hat-trie/src/ahtable.c with its hash, its packed slots, growth, both iterators
      and the dump format.
    - [Hattrie], [HattrieIter], [HattrieInv], [HattrieOps], [HattrieSplit], [HattrieSpec],
      [HattrieIterOk]: the HAT-trie of src/lib/hat-trie/src/hat-trie.c over a store of nodes: lookup,
      insertion with its bucket splits, deletion, freeing, iteration.
    - [Assoc], [AssocHat], [AssocDup]: the [array_*] macros of src/assoc_array_impl_hattrie.h as operations on a
      finite map, and the class [AssocImpl] through which the HAT-trie implements them; copying an array.
    - [Hook]: [hook_t] of src/main.h: reference count, memory pool, user data.
    - [Server]: [ayubd_run] and [ayubd_worker] of src/main.c with [ioqueue_socket_on_connect] and
      [ioqueue_socket_on_data] as a transition system of the main thread and the workers, over any queue
      ([Fifo]) and any handler ([Handler]).
    - [Overlap]: the same system where a handler takes the time from its entry to its return, so that handlers of
      different workers can overlap; two of them inside at once is a data race on what the workers share.
    - [IoSocket], [Http]: reading and writing a session's socket (src/ioqueue_socket.c) and the
      HTTP module (src/modules/http/mod_http.c).
    - [SessMem], [HttpSession], [HttpRun], [HttpServer]: a small program logic for the memory of a session, what each
      function of the HTTP module does in it, and the server that runs the module.
    - [HttpSafe], [HttpWire]: which steps of that server fault when handlers overlap, with a run of two workers into each other; a
      client's reader of responses, and what it reads of what the module sends.
    - [Listen], [ListenOk]: resolving, binding and listening (src/utils.c, src/ioqueue.c, src/ioqueue_socket.c).
    - [Boot], [BootSpec]: configuration, module loading, [ayubd_init] and [main] of src/main.c,
      [module_start] of src/modules/http/mod_http.c.
    - [Csv], [CsvOk], [CsvSpec]: src/lib/libcsv/libcsv.c.
    - [StrTokens], [StrTokensSpec]: src/str_tokens.c.
    - [City]: CityHash of src/lib/atomic_hash/src/hash_city.c, with its 128-bit arithmetic.
    - [Conc]: programs of shared-memory accesses and their interleavings, which the next files use.
    - [AtomicHash]: src/lib/atomic_hash/src/atomic_hash.c, each function as such a program.
    - [FreeList]: the stack of free nodes of its memory pool, under interleaving.
    - [AtomicTable], [AtomicOps], [AtomicScan], [AtomicHashOk], [AtomicSpec]: the table of buckets and
      its invariant, a program logic for one thread, the scans of the buckets, what each
      operation does, and the refinement of a map whose entries expire.
    - [AtomicRace]: two deletions of one key interleaved.
    - [Dll], [Uthash], [UthashOk], [Lru]: chains and segments of doubly linked nodes; the macros of src/uthash.h
      that the repository uses; the LRU caches of src/lru-cache.c and src/modules/http/old_parser/lru.c over them.
    - [Word]: 32-bit words and the inverses of the operations of hash functions.
    - [Lookupa], [Perfect], [Gencode], [PerfHex], [Findhash], [PerfMain]: the perfect-hash generator, src/lib/perfect.
      [Lookupa] is lookupa.c; [Perfect] the table and the augmenting paths of perfect.c (from the pairs (a,b) on);
      [Gencode] the lines of C it prints, as syntax with a meaning; [PerfHex] is perfhex.c (integer keys); [Findhash] the
      initial hashes, the search for sizes and a salt, and phash.c; [PerfMain] options, input and phash.h.
    - [PerfectOk], [PerfectSpec], [PerfHexOk], [PerfHexFour], [PerfHexSpec], [FindhashOk], [FindhashSpec],
      [PerfMainSpec]: their properties.

    ** How the parts fit

    [AhtableSpec] shows the hash table to be a finite map; the trie's invariant ([HattrieInv.ht_inv])
    holds its buckets to that; [HattrieSpec] shows the trie to be a finite map; [AssocHat] lifts this
    to programs over the array macros, and the clients of arrays (hooks, HTTP routes, start-up)
    use the finite map.  [Stailq] gives the worker queue as an instance of [Fifo], and [Server] is
    proved for any instance.  [HttpServer] shows the HTTP module to keep the contract
    [Handler] of [Server] for events whose data fits the first of the two buffers, and to read past it
    for all others.  [Overlap] wraps the steps of [Server] and takes a handler apart; [HttpSafe]
    says exactly which steps of the wrapped system fault, and [BootSpec.ayubd_boot_outcomes] composes all of it,
    from [main] on.  The main thread and the workers interleave at the granularity of the operations on
    shared objects (the count of a hook, the queue, the semaphore), and of the entry and the return of a
    handler; [Spsc] justifies taking
    the queue operations as single steps by checking the queue itself at the granularity of
    memory accesses.  A handler has the session to itself ([Server.server_affinity]); what it shares is the
    route table, where [hattrie_get] writes without a lock.  Since C leaves what happens then undefined, [Overlap] stops
    at the entry of the second handler.  The atomic hash stands alone: the server uses it only behind a macro the build does
    not define.  There one definition of each function serves both readings, run alone
    ([Conc.run]) and interleaved with other threads ([Conc.schedule]).

    ** What the theorems show

    - Safety: the booted server faults in exactly the cases that are named (a second worker in the handler, more than 4096
      bytes at once, a block of descriptors that is too small, a [listen] that fails); under a handler that keeps
      its contract hooks are never used
      after they are freed, freed twice or leaked; one worker handles one descriptor; the
      worker queue neither faults, loses nor reorders; the CSV parser stays in its buffer; the free
      list of the atomic hash hands no node to two threads under any interleaving, as long as
      each thread gives back only nodes it holds.
    - Refinement: queues of FIFO lists, stacks of LIFO lists, hash table, trie and array programs
      of finite maps, the atomic hash (one thread) of a map of entries with a time of expiry, with the one case where it is none, the LRU caches
      of a list in the order of use.
    - Functional behaviour: the answer the HTTP module gives to each data event and the state of
      the session after it; that a client reads back what is sent; tokens and replacement; the perfect-hash generator: on words
      it ends, and what it writes is a perfect hash (run as code on the keys it was made for); three and four
      integers always get one, as the comments claim; its permutation and its mixes can be inverted.
    - Equivalence and round trips: parsing in pieces; parsing what was written; loading what was saved;
      the sorted and the unsorted iterator; the finalizer of the hash.
    - Boundaries and errors: what the code does wrong, stated as it behaves (a failed [listen]
      leaves a freed argument array in use; the array of descriptors is allocated in bytes; a
      request that cannot be parsed is answered as the one before; two workers add routes to one table at once; keys at the length limit; an empty match of
      a regular expression loops; deleting a key while another thread deletes it
      and adds it again puts a cycle in the free list of the atomic hash; its [atomic_hash_get]
      misses a live key after an entry before it in the collision array has expired; the LRU cache that is given its
      table by value loses the changes of the head; the generator of perfect hashes drops the last character of every word,
      and its hash of two integers is 0 when their lowest bits are equal).

    ** Fuel and bounds

    Loops that are not structural have fuel, and running out is the fault [NoFuel], which no
    property allows (in [Findhash.cover] it stands for a loop of the code that does not end).  Walks of linked nodes and of the trie take the size of the store plus one (a
    walk cannot visit a node twice); iteration of a hash table takes the total size of the slots plus one
    (an entry has at least a byte); a split of buckets takes 257 turns per character of the key
    (each split narrows a range of at most 256 characters or consumes one); the tokenizer takes its fuel as an
    argument and its properties say how much is enough; so do the retries of the atomic hash, where one turn is
    enough for a thread alone and no number is under interleaving.  The search of [findhash] tries at most 2048 salts and
    200 tables before each doubling of a size, and there are at most 62 of these: 2300 * 70 steps ([Findhash.find_fuel]) are
    enough; the loops over the bits of a word take 64, [mylog2] 32.  Keys of the trie are at most
    [MAX_KEY] bytes long (on a longer one the code exits); sizes are below 2^47 entries, which no
    address space exceeds.

    ** Not modelled

    The branches behind macros that the build does not define (AIO, kqueue, coroutines, Redis, Hyperscan,
    the session table on the atomic hash), logging, the statistics and the destruction of the atomic hash, a failing [epoll_ctl], and thread creation beyond its effect on the state.  Memory
    exhaustion is modelled where the code handles it (CSV, tokenizer, sockets); elsewhere allocation
    succeeds.  The count of a hook and of a semaphore does not overflow; a [realloc] of the CSV library succeeds or fails by the size asked for. In the tokenizer
    the token array may fail to be allocated or to grow, [strdup] and [flist_new] succeed. Memory accesses are sequentially consistent.  Not in the library because nothing
    the Makefile builds uses them: the Ragel parsers and the older
    copies of the HTTP module, libaco, the captcha image generator, the
    embedded interpreters and the unfinished files (config.c, common.c, resolver.c, tokenize.c, ...), several of
    which do not compile.

    Of the perfect-hash generator, the messages and the fixed text of the files it writes, its allocator
    of items (recycle.c) and its sample and test driver are left out.  Memory it allocates holds zeros in the model (all of it is written
    before it is read); the comparisons of sizes with fractions, in double precision in the code, are exact.

    ** Where it can grow

    The effect of [hattrie_free] as a theorem, and of iteration by prefix, whose functions
    are modelled; the perfect hash of five and more integers, whose definitions are there; a weak memory model for [Spsc]; [get], [add] and [del]
    of the atomic hash under interleaving when the clients keep to one writer per key. *)
From stdpp Require Export base tactics strings option relations gmap numbers list.

#[export] Set Default Goal Selector "!".

(** ** Faults and the result monad

    A C operation either returns or has a fault; [fault] names the ways the
    modelled code can go wrong.  [NoFuel] is never a behaviour of the code: it
    is what a fuelled loop returns when its bound was too small, and each fuelled
    loop has a theorem that its bound is enough. *)
Inductive fault : Type :=
  | NullDeref
  | UseAfterFree
  | OutOfBounds
  | DivByZero
  | AssertFailed
  | ExitCalled
  | Undefined
  | DataRace
  | NoFuel.

#[export] Instance fault_eq_dec : EqDecision fault.
Proof. solve_decision. Defined.

Inductive result (A : Type) : Type :=
  | Ok (a : A)
  | Fault (f : fault).
Arguments Ok {A} a.
Arguments Fault {A} f.

#[export] Instance result_eq_dec `{EqDecision A} : EqDecision (result A).
Proof. solve_decision. Defined.

#[export] Instance result_ret : MRet result := fun A a => Ok a.
#[export] Instance result_bind : MBind result :=
  fun A B f m => match m with Ok a => f a | Fault e => Fault e end.
#[export] Instance result_fmap : FMap result :=
  fun A B f m => match m with Ok a => Ok (f a) | Fault e => Fault e end.

Definition from_option_fault {A} (e : fault) (o : option A) : result A :=
  match o with Some a => Ok a | None => Fault e end.

Definition guard_fault (e : fault) (b : bool) : result unit :=
  if b then Ok tt else Fault e.

(** ** The state-and-fault monad

    Code that mutates a shared object is a function of the object: it returns
    the result and the object after the call. *)
Definition st (S A : Type) : Type := S -> result (A * S).

#[export] Instance st_ret {S} : MRet (st S) := fun A a s => Ok (a, s).
#[export] Instance st_bind {S} : MBind (st S) :=
  fun A B f m s => match m s with Ok (a, s') => f a s' | Fault e => Fault e end.
#[export] Instance st_fmap {S} : FMap (st S) :=
  fun A B f m s => match m s with Ok (a, s') => Ok (f a, s') | Fault e => Fault e end.

Definition getS {S} : st S S := fun s => Ok (s, s).
Definition putS {S} (s : S) : st S unit := fun _ => Ok (tt, s).
Definition getsS {S A} (f : S -> A) : st S A := fun s => Ok (f s, s).
Definition modifyS {S} (f : S -> S) : st S unit := fun s => Ok (tt, f s).
Definition raiseS {S A} (e : fault) : st S A := fun _ => Fault e.
Definition liftS {S A} (r : result A) : st S A :=
  fun s => match r with Ok a => Ok (a, s) | Fault e => Fault e end.

Definition when {M : Type -> Type} `{MRet M} (b : bool) (m : M unit) : M unit :=
  if b then m else mret tt.

(** ** Inversion of successful runs *)
Section result_lemmas.
Context {A B : Type}.

Lemma result_bind_Ok (m : result A) (f : A -> result B) (b : B) :
  m ≫= f = Ok b <-> exists a, m = Ok a /\ f a = Ok b.
Proof. destruct m; cbn; split; naive_solver. Qed.

Lemma st_bind_Ok {S} (m : st S A) (f : A -> st S B) s r :
  (m ≫= f) s = Ok r <-> exists a s', m s = Ok (a, s') /\ f a s' = Ok r.
Proof. unfold mbind, st_bind. destruct (m s) as [[a s']|e]; naive_solver. Qed.

Lemma st_bind_run {S} (m : st S A) (f : A -> st S B) s a s' :
  m s = Ok (a, s') -> (m ≫= f) s = f a s'.
Proof. unfold mbind, st_bind. by intros ->. Qed.

Lemma st_bind_fault {S} (m : st S A) (f : A -> st S B) s e :
  m s = Fault e -> (m ≫= f) s = Fault e.
Proof. unfold mbind, st_bind. by intros ->. Qed.

Lemma from_option_fault_Ok (e : fault) (o : option A) a :
  from_option_fault e o = Ok a <-> o = Some a.
Proof. destruct o; cbn; split; congruence. Qed.
End result_lemmas.

(** [run_step H] runs the next action of a bind with the equation [H];
    [inv_ok] turns a successful run of a sequence into its steps. *)
Ltac run_step H := rewrite (st_bind_run _ _ _ _ _ H); cbn beta.
Ltac inv_ok :=
  repeat match goal with
  | H : Ok _ = Ok _ |- _ => injection H as H; subst
  | H : Fault _ = Ok _ |- _ => discriminate H
  | H : Ok _ = Fault _ |- _ => discriminate H
  | H : None = Some _ |- _ => discriminate H
  | H : Some _ = None |- _ => discriminate H
  | H : Some _ = Some _ |- _ => injection H as H; subst
  | H : (_ ≫= _) = Ok _ |- _ => apply result_bind_Ok in H as (? & ? & H)
  | H : (_ ≫= _) _ = Ok _ |- _ => apply st_bind_Ok in H as (? & ? & ? & H)
  | H : (_, _) = (_, _) |- _ => injection H as H; subst
  end.

Lemma option_test {A} (o : option A) (f : A -> bool) :
  match o with Some a => f a | None => false end = true -> exists a, o = Some a /\ f a = true.
Proof. destruct o; [eauto|done]. Qed.

Lemma option_eq_test {A} (o : option A) (f : A -> bool) a :
  match o with Some a => f a | None => true end = true -> o = Some a -> f a = true.
Proof. by intros H ->. Qed.

(** ** Lists *)
Section list_lemmas.
Context {A : Type}.

Lemma NoDup_snoc (l : list A) x : NoDup (l ++ [x]) <-> x ∉ l /\ NoDup l.
Proof.
  rewrite NoDup_app. split.
  - intros (Hl & Hx & _). split; [|done]. intros Hin. specialize (Hx x Hin). set_solver.
  - intros [Hx Hl]. split; [done|]. split; [|apply NoDup_singleton]. set_solver.
Qed.

Lemma fmap_snoc {B} (f : A -> B) (l : list A) x : f <$> (l ++ [x]) = (f <$> l) ++ [f x].
Proof. by rewrite fmap_app. Qed.
End list_lemmas.

(** Changing one of several lists. *)
Lemma join_insert {A} (Os : list (list A)) i O O' : Os !! i = Some O ->
  exists R, mjoin Os ≡ₚ O ++ R /\ mjoin (<[i := O']> Os) ≡ₚ O' ++ R /\ forall j P x, j <> i -> Os !! j = Some P -> x ∈ P -> x ∈ R.
Proof.
  intros Hi. exists (mjoin (take i Os) ++ mjoin (drop (S i) Os)).
  assert (Hlt : (i < length Os)%nat) by (by eapply lookup_lt_Some). split; [|split].
  - rewrite <- (take_drop_middle _ _ _ Hi) at 1. rewrite join_app. cbn [mjoin list_join]. rewrite !app_assoc. apply Permutation_app_tail, Permutation_app_comm.
  - rewrite insert_take_drop by done. rewrite join_app. cbn [mjoin list_join]. rewrite !app_assoc. apply Permutation_app_tail, Permutation_app_comm.
  - intros j P x Hj HP Hx. apply elem_of_app.
    destruct (decide (j < i)%nat) as [Hlt'|Hge]; [left|right]; apply (proj2 (list_elem_of_join _ _)); exists P; (split; [done|]); apply list_elem_of_lookup.
    + exists j. by rewrite lookup_take_lt.
    + exists (j - S i)%nat. rewrite lookup_drop. by replace (S i + (j - S i))%nat with j by lia.
Qed.

Create HintDb ayub discriminated.
#[export] Hint Constants Opaque : ayub.
