(* ===== verification/NodeHeap.v ===== *)
(** * Heap-allocated singly linked nodes

    The linked structures of the server ([struct slist_node] and
    [struct stailq_node] of src/main.h, [struct lfq_node] of src/lfq.h and
    [struct node] of src/node.h) all have nodes of one shape: a [void *] and the
    pointer to the next node.  This file models the store they live in (a finite
    map from addresses to nodes, [malloc] and [free] included) and the linked
    segment predicate the structure files share. *)
From S2P Require Import Prelude.

Abbreviation loc := positive (only parsing).

(** A [void *] is its address, [0] for NULL; a node pointer is an
    [option loc], [None] for NULL. *)
Definition NULLV : Z := 0%Z.

Record node := Node { nd_val : Z; nd_next : option loc }.

#[export] Instance node_eq_dec : EqDecision node.
Proof. solve_decision. Defined.

Abbreviation heap := (gmap loc node) (only parsing).

(** Two addresses of a pointer variable: the head's own field, or the link field
    of a node ([&head->stqh_first] and [&elm->field.stqe_next]). *)
Inductive lref := RHead | RNext (l : loc).

#[export] Instance lref_eq_dec : EqDecision lref.
Proof. solve_decision. Defined.

(** ** Memory accesses

    The state is the node store with the structure's own pointers [X]. *)
Section accesses.
Context {X : Type}.

Definition h_malloc (junk : node) : st (heap * X) loc :=
  fun '(h, x) => let l := fresh (dom h) in Ok (l, (<[l := junk]> h, x)).

(** Access through a pointer: NULL and freed addresses are faults. *)
Definition h_load (p : option loc) : st (heap * X) node :=
  fun '(h, x) =>
    match p with
    | None => Fault NullDeref
    | Some l => match h !! l with
                | Some n => Ok (n, (h, x))
                | None => Fault UseAfterFree
                end
    end.

Definition h_store (p : option loc) (n : node) : st (heap * X) unit :=
  fun '(h, x) =>
    match p with
    | None => Fault NullDeref
    | Some l => match h !! l with
                | Some _ => Ok (tt, (<[l := n]> h, x))
                | None => Fault UseAfterFree
                end
    end.

Definition h_store_val (p : option loc) (v : Z) : st (heap * X) unit :=
  n ← h_load p; h_store p (Node v (nd_next n)).

Definition h_store_next (p : option loc) (q : option loc) : st (heap * X) unit :=
  n ← h_load p; h_store p (Node (nd_val n) q).

(** [free(NULL)] is a no-op; freeing an address twice is a fault. *)
Definition h_free (p : option loc) : st (heap * X) unit :=
  fun '(h, x) =>
    match p with
    | None => Ok (tt, (h, x))
    | Some l => match h !! l with
                | Some _ => Ok (tt, (delete l h, x))
                | None => Fault UseAfterFree
                end
    end.

Definition x_get : st (heap * X) X := fun '(h, x) => Ok (x, (h, x)).
Definition x_put (x : X) : st (heap * X) unit := fun '(h, _) => Ok (tt, (h, x)).
End accesses.

(** Run an operation on a structure that is part of a larger one. *)
Definition zoom {X D A} (m : st (heap * X) A) : st (heap * (X * D)) A :=
  fun '(h, (x, d)) =>
    match m (h, x) with
    | Ok (a, (h', x')) => Ok (a, (h', (x', d)))
    | Fault e => Fault e
    end.

(** ** Linked segments

    [chain h p ns e]: following links from [p] visits exactly the nodes
    [ns] (address and value, in order) and ends at the pointer [e]. *)
Fixpoint chain (h : heap) (p : option loc) (ns : list (loc * Z)) (e : option loc) : Prop :=
  match ns with
  | [] => p = e
  | (l, v) :: ns' => p = Some l /\ exists nx, h !! l = Some (Node v nx) /\ chain h nx ns' e
  end.

(** The store holds exactly the nodes of a duplicate-free chain. *)
Definition owns (h : heap) (ns : list (loc * Z)) : Prop :=
  NoDup ns.*1 /\ dom h = list_to_set ns.*1.

Section chain_lemmas.
Implicit Types (h : heap) (p e : option loc) (ns : list (loc * Z)).

Lemma chain_app h p ns1 ns2 e :
  chain h p (ns1 ++ ns2) e <-> exists m, chain h p ns1 m /\ chain h m ns2 e.
Proof.
  revert p. induction ns1 as [|[l v] ns1 IH]; intros p; cbn.
  - naive_solver.
  - setoid_rewrite IH. naive_solver.
Qed.

(** A chain only depends on its own nodes. *)
Lemma chain_frame h h' p ns e :
  (forall l, l ∈ ns.*1 -> h' !! l = h !! l) -> chain h p ns e -> chain h' p ns e.
Proof.
  revert p. induction ns as [|[l v] ns IH]; intros p Hh; cbn; [done|].
  intros (-> & nx & Hl & Hc). split; [done|]. exists nx. split.
  - rewrite Hh; [done|]. cbn. set_solver.
  - apply IH; [|done]. intros l' Hl'. apply Hh. cbn. set_solver.
Qed.

Lemma chain_insert_fresh h p ns e l n :
  l ∉ ns.*1 -> chain h p ns e -> chain (<[l:=n]> h) p ns e.
Proof.
  intros Hl. apply chain_frame. intros l' Hl'.
  rewrite lookup_insert_ne; [done|]. set_solver.
Qed.

Lemma chain_delete_fresh h p ns e l :
  l ∉ ns.*1 -> chain h p ns e -> chain (delete l h) p ns e.
Proof.
  intros Hl. apply chain_frame. intros l' Hl'.
  rewrite lookup_delete_ne; [done|]. set_solver.
Qed.

Lemma chain_elem h p ns e l v :
  chain h p ns e -> (l, v) ∈ ns -> exists nx, h !! l = Some (Node v nx).
Proof.
  revert p. induction ns as [|[l' v'] ns IH]; intros p; cbn; [set_solver|].
  intros (-> & nx & Hl & Hc) [[=-> ->]|Hin]%elem_of_cons; [eauto|].
  by eapply IH.
Qed.

Lemma chain_None h ns e : chain h None ns e -> ns = [] /\ e = None.
Proof. destruct ns as [|[l v] ns]; cbn; naive_solver. Qed.

Lemma chain_Some h l ns :
  chain h (Some l) ns None ->
  exists v nx ns', ns = (l, v) :: ns' /\ h !! l = Some (Node v nx) /\ chain h nx ns' None.
Proof. destruct ns as [|[l' v] ns]; cbn; naive_solver. Qed.

(** Changing the link field of the last node moves the end of the chain. *)
Lemma chain_snoc_relink h p ns l v q :
  NoDup (ns ++ [(l, v)]).*1 ->
  chain h p ns (Some l) -> chain (<[l := Node v q]> h) p (ns ++ [(l, v)]) q.
Proof.
  rewrite fmap_app. intros (_ & Hl & _)%NoDup_app Hc.
  apply chain_app. exists (Some l). split.
  - apply chain_insert_fresh; [|done]. set_solver.
  - cbn. split; [done|]. exists q. by rewrite lookup_insert_eq.
Qed.

Lemma owns_lookup_None h ns l : owns h ns -> h !! l = None <-> l ∉ ns.*1.
Proof.
  intros [_ Hd]. rewrite <- not_elem_of_dom, Hd, elem_of_list_to_set. done.
Qed.

Lemma owns_insert h ns1 ns2 l v n :
  l ∉ (ns1 ++ ns2).*1 -> owns h (ns1 ++ ns2) ->
  owns (<[l := n]> h) (ns1 ++ (l, v) :: ns2).
Proof.
  unfold owns. rewrite !fmap_app. cbn. intros Hl [Hnd Hd]. split.
  - apply NoDup_app in Hnd as (H1 & H2 & H3). apply NoDup_app.
    split; [done|]. split; [set_solver|]. apply NoDup_cons. set_solver.
  - rewrite dom_insert_L, Hd. rewrite !list_to_set_app_L. cbn. set_solver.
Qed.

Lemma owns_update h ns l n : l ∈ ns.*1 -> owns h ns -> owns (<[l := n]> h) ns.
Proof.
  intros Hl [Hnd Hd]. split; [done|]. rewrite dom_insert_L, Hd. set_solver.
Qed.

Lemma owns_delete h l v ns : owns h ((l, v) :: ns) -> owns (delete l h) ns.
Proof.
  unfold owns. cbn. intros [(Hl & Hnd)%NoDup_cons Hd]. split; [done|].
  rewrite dom_delete_L, Hd. set_solver.
Qed.

Lemma owns_nil h : owns h [] <-> h = ∅.
Proof.
  unfold owns. cbn. split.
  - intros [_ Hd]. apply dom_empty_inv_L. done.
  - intros ->. split; [constructor|]. by rewrite dom_empty_L.
Qed.

Lemma owns_fresh h ns : owns h ns -> fresh (dom h) ∉ ns.*1.
Proof.
  intros [_ Hd]. pose proof (is_fresh (dom h)) as Hf. set_solver.
Qed.
End chain_lemmas.

#[export] Hint Resolve chain_insert_fresh chain_delete_fresh owns_update owns_fresh : ayub.
