(* ===== verification/Fifo.v ===== *)
(** * The interface of a FIFO queue of pointers

    Three implementations in the program promise the same thing: [stailq_*] and
    [stailq_*_lf_spsc] of src/main.h and [lfq_*] of src/lfq.c.  [Fifo] states the
    promise; the clients (the worker queues of the server) are proved against it
    and each implementation discharges it. *)
From S2P Require Import Prelude.

Record fifo_ops (S : Type) := FifoOps {
  fq_in : Z -> st S unit;
  fq_out : st S Z
}.
Arguments FifoOps {S} _ _.
Arguments fq_in {S} _ _ _.
Arguments fq_out {S} _ _.

(** [rep s vs]: the structure [s] is well formed and holds [vs], oldest first. *)
Class Fifo {S : Type} (ops : fifo_ops S) (rep : S -> list Z -> Prop) : Prop := {
  fifo_in_law s vs v :
    rep s vs -> exists s', fq_in ops v s = Ok (tt, s') /\ rep s' (vs ++ [v]);
  fifo_out_law s v vs :
    rep s (v :: vs) -> exists s', fq_out ops s = Ok (v, s') /\ rep s' vs
}.

(** A queue that answers NULL when it is empty. *)
Class FifoNull {S : Type} (ops : fifo_ops S) (rep : S -> list Z -> Prop) : Prop := {
  fifo_null_fifo :: Fifo ops rep;
  fifo_null_law s :
    rep s [] -> exists s', fq_out ops s = Ok (0%Z, s') /\ rep s' []
}.

(** ** Sequences of operations *)
Inductive qop := QIn (v : Z) | QOut.

Fixpoint run_ops {S} (ops : fifo_ops S) (l : list qop) : st S (list Z) :=
  match l with
  | [] => mret []
  | QIn v :: l => _ ← fq_in ops v; run_ops ops l
  | QOut :: l => v ← fq_out ops; vs ← run_ops ops l; mret (v :: vs)
  end.

(** The same sequence on an abstract queue: the values taken out and the content
    left; [None] when it takes from an empty queue. *)
Fixpoint fifo_spec (l : list qop) (q : list Z) : option (list Z * list Z) :=
  match l with
  | [] => Some ([], q)
  | QIn v :: l => fifo_spec l (q ++ [v])
  | QOut :: l =>
      match q with
      | [] => None
      | v :: q' => '(outs, r) ← fifo_spec l q'; Some (v :: outs, r)
      end
  end.

(** The same, answering [0] when empty. *)
Fixpoint fifo_null_spec (l : list qop) (q : list Z) : list Z * list Z :=
  match l with
  | [] => ([], q)
  | QIn v :: l => fifo_null_spec l (q ++ [v])
  | QOut :: l => let '(outs, r) := fifo_null_spec l (tail q) in (hd 0%Z q :: outs, r)
  end.

Section runs.
Context {S : Type} (ops : fifo_ops S) (rep : S -> list Z -> Prop).

Lemma fifo_run `{!Fifo ops rep} l s q outs r :
  rep s q -> fifo_spec l q = Some (outs, r) ->
  exists s', run_ops ops l s = Ok (outs, s') /\ rep s' r.
Proof.
  revert s q outs. induction l as [|[v|] l IH]; cbn; intros s q outs Hrep Hspec.
  - simplify_eq. by exists s.
  - destruct (fifo_in_law s q v Hrep) as (s1 & Hin & Hrep1).
    run_step Hin. by eapply IH.
  - destruct q as [|v q]; [done|].
    apply bind_Some in Hspec as ([outs' r'] & Hspec & [= <- <-]).
    destruct (fifo_out_law s v q Hrep) as (s1 & Hout & Hrep1).
    destruct (IH _ _ _ Hrep1 Hspec) as (s2 & Hrun & Hrep2).
    run_step Hout. run_step Hrun. by exists s2.
Qed.

Lemma fifo_null_run `{!FifoNull ops rep} l s q :
  rep s q -> exists s', run_ops ops l s = Ok ((fifo_null_spec l q).1, s') /\
                        rep s' (fifo_null_spec l q).2.
Proof.
  revert s q. induction l as [|[v|] l IH]; cbn; intros s q Hrep.
  - by exists s.
  - destruct (fifo_in_law s q v Hrep) as (s1 & Hin & Hrep1).
    run_step Hin. by apply IH.
  - assert (exists s1, fq_out ops s = Ok (hd 0%Z q, s1) /\ rep s1 (tail q))
      as (s1 & Hout & Hrep1).
    { destruct q as [|v q]; [by apply fifo_null_law|by apply fifo_out_law]. }
    destruct (IH _ _ Hrep1) as (s2 & Hrun & Hrep2).
    run_step Hout. run_step Hrun.
    destruct (fifo_null_spec l (tail q)) as [outs r]. by exists s2.
Qed.

(** A run that never takes from an empty queue takes out a prefix of what was
    put in, in the same order. *)
Lemma fifo_spec_order l q outs r :
  fifo_spec l q = Some (outs, r) ->
  outs ++ r = q ++ omap (fun o => match o with QIn v => Some v | QOut => None end) l.
Proof.
  revert q outs. induction l as [|[v|] l IH]; cbn; intros q outs Hspec.
  - simplify_eq. by rewrite app_nil_r.
  - rewrite (IH _ _ Hspec). by rewrite <- app_assoc.
  - destruct q as [|v q]; [done|].
    apply bind_Some in Hspec as ([outs' r'] & Hspec & [= <- <-]).
    cbn. by rewrite (IH _ _ Hspec).
Qed.
End runs.
