(* ===== verification/Stailq.v ===== *)
(** * The queues and stacks of src/main.h

    [slist_*] (LIFO), [stailq_*] (FIFO) and the single-producer
    single-consumer queue [stailq_*_lf_spsc], over the <sys/queue.h> macros they
    expand to.  [void *] values are addresses ([0] is NULL).

    The theorems are about one caller at a time; Spsc.v models the interleaving
    of the producer and the consumer of the [_lf_spsc] queue. *)
From S2P Require Import Prelude NodeHeap Fifo.

(** struct stailq: [stqh_first] and [stqh_last] *)
Record stailq := Stailq { stqh_first : option loc; stqh_last : lref }.

(** struct slist *)
Record slist := Slist { slh_first : option loc }.

Section queue_h.
(** Contents of freshly allocated memory. *)
Variable junk : node.

(** ** <sys/queue.h> *)
Definition STAILQ_FIRST : st (heap * stailq) (option loc) :=
  q ← x_get; mret (stqh_first q).

Definition STAILQ_NEXT (p : option loc) : st (heap * stailq) (option loc) :=
  n ← h_load p; mret (nd_next n).

Definition STAILQ_INIT : st (heap * stailq) unit := x_put (Stailq None RHead).

(** read and write of [*(head)->stqh_last] *)
Definition load_last_ref : st (heap * stailq) (option loc) :=
  q ← x_get;
  match stqh_last q with
  | RHead => mret (stqh_first q)
  | RNext l => STAILQ_NEXT (Some l)
  end.

Definition store_last_ref (p : option loc) : st (heap * stailq) unit :=
  q ← x_get;
  match stqh_last q with
  | RHead => x_put (Stailq p (stqh_last q))
  | RNext l => h_store_next (Some l) p
  end.

Definition STAILQ_INSERT_TAIL (elm : loc) : st (heap * stailq) unit :=
  _ ← h_store_next (Some elm) None;
  _ ← store_last_ref (Some elm);
  q ← x_get;
  x_put (Stailq (stqh_first q) (RNext elm)).

Definition STAILQ_REMOVE_HEAD : st (heap * stailq) unit :=
  q ← x_get;
  nx ← STAILQ_NEXT (stqh_first q);
  x_put (Stailq nx (match nx with None => RHead | Some _ => stqh_last q end)).

Definition SLIST_FIRST : st (heap * slist) (option loc) :=
  q ← x_get; mret (slh_first q).

Definition SLIST_INSERT_HEAD (elm : loc) : st (heap * slist) unit :=
  q ← x_get;
  _ ← h_store_next (Some elm) (slh_first q);
  x_put (Slist (Some elm)).

Definition SLIST_REMOVE_HEAD : st (heap * slist) unit :=
  q ← x_get;
  n ← h_load (slh_first q);
  x_put (Slist (nd_next n)).

(** [SLIST_REMOVE]: the head, or the node after which [elm] comes *)
Fixpoint SLIST_REMOVE_AFTER (fuel : nat) (cur : option loc) (elm : loc)
  : st (heap * slist) unit :=
  match fuel with
  | O => raiseS NoFuel
  | S fuel =>
      n ← h_load cur;
      if decide (nd_next n = Some elm)
      then (e ← h_load (nd_next n); h_store_next cur (nd_next e))
      else SLIST_REMOVE_AFTER fuel (nd_next n) elm
  end.

Definition SLIST_REMOVE (elm : loc) : st (heap * slist) unit :=
  fun s =>
    if decide (slh_first s.2 = Some elm)
    then SLIST_REMOVE_HEAD s
    else SLIST_REMOVE_AFTER (size s.1) (slh_first s.2) elm s.

(** ** FIFO queue *)
Definition stailq_new (h : heap) : heap * stailq := (h, Stailq None RHead).

Definition stailq_in (v : Z) : st (heap * stailq) unit :=
  np ← h_malloc junk;
  _ ← h_store_val (Some np) v;
  STAILQ_INSERT_TAIL np.

Definition stailq_out : st (heap * stailq) Z :=
  np ← STAILQ_FIRST;
  match np with
  | None => mret NULLV
  | Some l =>
      n ← h_load (Some l);
      _ ← STAILQ_REMOVE_HEAD;
      _ ← h_free (Some l);
      mret (nd_val n)
  end.

(** The values freed ([vfree] set and not NULL) are the result, in order;
    the store after the loop and [DO_FREE((p))] is all that is left. *)
Fixpoint stailq_free_loop (fuel : nat) (vfree : bool) : st (heap * stailq) (list Z) :=
  match fuel with
  | O => raiseS NoFuel
  | S fuel =>
      np ← STAILQ_FIRST;
      match np with
      | None => mret []
      | Some l =>
          _ ← STAILQ_REMOVE_HEAD;
          n ← h_load (Some l);
          _ ← h_free (Some l);
          fs ← stailq_free_loop fuel vfree;
          mret (if vfree && bool_decide (nd_val n ≠ NULLV) then nd_val n :: fs else fs)
      end
  end.

Definition stailq_free (vfree : bool) : st (heap * stailq) (list Z) :=
  fun s => stailq_free_loop (S (size s.1)) vfree s.

(** ** LIFO stack *)
Definition slist_new (h : heap) : heap * slist := (h, Slist None).

Definition slist_in (v : Z) : st (heap * slist) unit :=
  np ← h_malloc junk;
  _ ← h_store_val (Some np) v;
  SLIST_INSERT_HEAD np.

Definition slist_out : st (heap * slist) Z :=
  np ← SLIST_FIRST;
  match np with
  | None => mret NULLV
  | Some l =>
      n ← h_load (Some l);
      _ ← SLIST_REMOVE_HEAD;
      _ ← h_free (Some l);
      mret (nd_val n)
  end.

Fixpoint slist_free_loop (fuel : nat) (vfree : bool) : st (heap * slist) (list Z) :=
  match fuel with
  | O => raiseS NoFuel
  | S fuel =>
      np ← SLIST_FIRST;
      match np with
      | None => mret []
      | Some l =>
          _ ← SLIST_REMOVE_HEAD;
          n ← h_load (Some l);
          _ ← h_free (Some l);
          fs ← slist_free_loop fuel vfree;
          mret (if vfree && bool_decide (nd_val n ≠ NULLV) then nd_val n :: fs else fs)
      end
  end.

Definition slist_free (vfree : bool) : st (heap * slist) (list Z) :=
  fun s => slist_free_loop (S (size s.1)) vfree s.

(** [SLIST_FOREACH] stops at the first node whose value is [v]; the result is
    the values freed. *)
Fixpoint slist_remove_loop (fuel : nat) (np : option loc) (v : Z) (vfree : bool)
  : st (heap * slist) (list Z) :=
  match fuel with
  | O => raiseS NoFuel
  | S fuel =>
      match np with
      | None => mret []
      | Some l =>
          n ← h_load np;
          if bool_decide (nd_val n = v)
          then (_ ← SLIST_REMOVE l;
                n' ← h_load np;
                _ ← h_free np;
                mret (if vfree then [nd_val n'] else []))
          else slist_remove_loop fuel (nd_next n) v vfree
      end
  end.

Definition slist_remove_val (v : Z) (vfree : bool) : st (heap * slist) (list Z) :=
  fun s => slist_remove_loop (S (size s.1)) (slh_first s.2) v vfree s.

(** ** Lock-free queue for one producer and one consumer

    The state is the queue and the divider [d], a node pointer the macros
    assign. *)
Abbreviation spsc := (stailq * option loc)%type.

Definition div_get : st (heap * spsc) (option loc) := s ← x_get; mret s.2.
Definition div_put (d : option loc) : st (heap * spsc) unit :=
  s ← x_get; x_put (s.1, d).

(** [*(p)->stqh_last] *)
Definition STAILQ_TAIL_REF : st (heap * spsc) (option loc) := zoom load_last_ref.

Definition stailq_new_lf_spsc : st (heap * spsc) unit :=
  _ ← zoom STAILQ_INIT;
  d ← h_malloc junk;
  _ ← div_put (Some d);
  zoom (STAILQ_INSERT_TAIL d).

Fixpoint stailq_trim_loop (fuel : nat) : st (heap * spsc) unit :=
  match fuel with
  | O => raiseS NoFuel
  | S fuel =>
      tnp ← zoom STAILQ_FIRST;
      d ← div_get;
      if decide (tnp = d) then mret tt
      else (_ ← zoom STAILQ_REMOVE_HEAD; _ ← h_free tnp; stailq_trim_loop fuel)
  end.

Definition stailq_trim_lf_spsc : st (heap * spsc) unit :=
  fun s => stailq_trim_loop (S (size s.1)) s.

Definition stailq_in_lf_spsc (v : Z) : st (heap * spsc) unit :=
  np ← h_malloc junk;
  _ ← h_store_val (Some np) v;
  _ ← zoom (STAILQ_INSERT_TAIL np);
  stailq_trim_lf_spsc.

Definition stailq_empty_lf_spsc : st (heap * spsc) bool :=
  d ← div_get;
  t ← STAILQ_TAIL_REF;
  mret (bool_decide (d = t)).

Definition stailq_out_lf_spsc : st (heap * spsc) Z :=
  e ← stailq_empty_lf_spsc;
  if negb e : bool
  then (d ← div_get;
        nx ← zoom (STAILQ_NEXT d);
        _ ← div_put nx;
        n ← h_load nx;
        mret (nd_val n))
  else mret NULLV.

Definition stailq_free_lf_spsc (vfree : bool) : st (heap * spsc) (list Z) :=
  zoom (stailq_free vfree).
End queue_h.

(** ** Representation predicates *)
Definition tail_ref (ns : list (loc * Z)) : lref :=
  match last ns with None => RHead | Some n => RNext n.1 end.

Definition qchain (h : heap) (q : stailq) (ns : list (loc * Z)) : Prop :=
  chain h (stqh_first q) ns None /\ NoDup ns.*1 /\ stqh_last q = tail_ref ns.

(** The queue holds [vs], oldest first, and the store nothing else. *)
Definition stailq_rep (s : heap * stailq) (vs : list Z) : Prop :=
  exists ns, qchain s.1 s.2 ns /\ dom s.1 = list_to_set ns.*1 /\ ns.*2 = vs.

Definition slist_rep (s : heap * slist) (vs : list Z) : Prop :=
  exists ns, chain s.1 (slh_first s.2) ns None /\ owns s.1 ns /\ ns.*2 = vs.

(** The producer-consumer queue: nodes before the divider are consumed, the
    divider is the last consumed node (or the dummy), the rest is the content. *)
Definition spsc_rep (s : heap * (stailq * option loc)) (vs : list Z) : Prop :=
  exists pre dl dv suf,
    qchain s.1 s.2.1 (pre ++ (dl, dv) :: suf) /\
    dom s.1 = list_to_set (pre ++ (dl, dv) :: suf).*1 /\
    s.2.2 = Some dl /\ suf.*2 = vs.

(** Symbolic execution of node accesses. *)
Ltac hx :=
  unfold STAILQ_TAIL_REF, zoom, div_get, div_put, STAILQ_INSERT_TAIL, STAILQ_REMOVE_HEAD,
    STAILQ_FIRST, STAILQ_INIT, store_last_ref, load_last_ref, STAILQ_NEXT,
    SLIST_FIRST, SLIST_INSERT_HEAD, SLIST_REMOVE_HEAD,
    h_store_next, h_store_val, h_malloc, h_load, h_store, h_free, x_get, x_put,
    mbind, st_bind, mret, st_ret;
  repeat (progress (cbn; simplify_map_eq)).

Lemma tail_ref_snoc ns n : tail_ref (ns ++ [n]) = RNext n.1.
Proof. unfold tail_ref. by rewrite last_snoc. Qed.

Lemma tail_ref_cons n m ns : tail_ref (n :: m :: ns) = tail_ref (m :: ns).
Proof. unfold tail_ref. by rewrite last_cons_cons. Qed.

Lemma insert_tail_spec h q ns l v nx :
  qchain h q ns -> l ∉ ns.*1 -> h !! l = Some (Node v nx) ->
  exists h' q', STAILQ_INSERT_TAIL l (h, q) = Ok (tt, (h', q')) /\
    qchain h' q' (ns ++ [(l, v)]) /\ dom h' = dom h.
Proof.
  destruct q as [f la]. intros (Hc & Hnd & Hla) Hl Hv; cbn in *; subst la.
  assert (Hnd' : NoDup (ns ++ [(l, v)]).*1).
  { rewrite fmap_snoc. by apply NoDup_snoc. }
  destruct ns as [|[l0 v0] ns _] using rev_ind.
  - hx. eexists _, _. split; [done|]. split; [|by rewrite dom_insert_lookup_L].
    unfold qchain; cbn. split; [|split; [done|done]].
    split; [done|]. exists None. by rewrite lookup_insert_eq.
  - apply chain_app in Hc as (m & Hc & -> & nx0 & Hl0 & ->).
    rewrite tail_ref_snoc. rewrite fmap_snoc in Hl.
    assert (l ≠ l0) by set_solver.
    hx. eexists _, _. split; [done|]. split.
    + split; [|split; [done|by rewrite tail_ref_snoc]]. cbn.
      rewrite <- app_assoc. apply chain_app. exists (Some l0). split.
      * rewrite fmap_snoc in Hnd. apply NoDup_snoc in Hnd as [? _].
        apply chain_insert_fresh; [done|]. apply chain_insert_fresh; [set_solver|done].
      * cbn. split; [done|]. exists (Some l). rewrite lookup_insert_eq.
        split; [done|]. split; [done|]. exists None.
        rewrite lookup_insert_ne, lookup_insert_eq by done. done.
    + rewrite !dom_insert_lookup_L; simplify_map_eq; eauto.
Qed.

Lemma remove_head_spec h q l v ns :
  qchain h q ((l, v) :: ns) ->
  exists nx, h !! l = Some (Node v nx) /\
    STAILQ_REMOVE_HEAD (h, q) =
      Ok (tt, (h, Stailq nx (match nx with None => RHead | _ => stqh_last q end))) /\
    qchain h (Stailq nx (match nx with None => RHead | _ => stqh_last q end)) ns.
Proof.
  destruct q as [f la]. intros ((Hf & nx & Hl & Hc) & Hnd & Hla); cbn in *; subst.
  exists nx. split; [done|]. split; [by hx|].
  apply NoDup_cons in Hnd as [_ Hnd].
  destruct ns as [|n ns]; [by cbn in Hc; subst|].
  assert (exists l', nx = Some l') as [l' ->].
  { destruct n as [l' v']. destruct Hc as (-> & _). eauto. }
  split; [done|]. split; [done|]. cbn. by rewrite tail_ref_cons.
Qed.

Lemma qchain_delete h q l ns : l ∉ ns.*1 -> qchain h q ns -> qchain (delete l h) q ns.
Proof. intros Hl (Hc & Hnd & Hla). split; auto with ayub. Qed.

Lemma qchain_insert h q l n ns : l ∉ ns.*1 -> qchain h q ns -> qchain (<[l := n]> h) q ns.
Proof. intros Hl (Hc & Hnd & Hla). split; auto with ayub. Qed.

(** ** The FIFO queue *)
Section stailq_ok.
Variable junk : node.

Definition stailq_ops : fifo_ops (heap * stailq) := FifoOps (stailq_in junk) stailq_out.

Lemma stailq_new_ok : stailq_rep (stailq_new ∅) [].
Proof. exists []. cbn. split; [|done]. split; [done|]. split; [constructor|done]. Qed.

Lemma stailq_in_ok s vs v :
  stailq_rep s vs -> exists s', stailq_in junk v s = Ok (tt, s') /\ stailq_rep s' (vs ++ [v]).
Proof.
  destruct s as [h q]. intros (ns & Hq & Hd & <-). cbn in *.
  pose proof (is_fresh (dom h)) as Hf. set (l := fresh (dom h)) in *.
  assert (Hl : l ∉ ns.*1) by (rewrite Hd in Hf; set_solver).
  destruct (insert_tail_spec (<[l := Node v (nd_next junk)]> h) q ns l v (nd_next junk))
    as (h' & q' & Hrun & Hq' & Hd'); [by apply qchain_insert|done|by rewrite lookup_insert_eq|].
  exists (h', q'). split.
  - unfold stailq_in. erewrite st_bind_run; [|done]. fold l.
    erewrite st_bind_run; [|by hx]. by rewrite insert_insert_eq.
  - exists (ns ++ [(l, v)]). cbn. split; [done|]. rewrite !fmap_snoc. split; [|done].
    rewrite Hd', dom_insert_L, Hd, list_to_set_app_L. cbn. set_solver.
Qed.

Lemma stailq_out_ok s v vs :
  stailq_rep s (v :: vs) -> exists s', stailq_out s = Ok (v, s') /\ stailq_rep s' vs.
Proof.
  destruct s as [h q]. intros ([|[l v'] ns] & Hq & Hd & Hvs); [done|].
  cbn in *. simplify_eq.
  destruct (remove_head_spec _ _ _ _ _ Hq) as (nx & Hl & Hrun & Hq').
  destruct Hq as ((Hf & _) & Hnd & _). cbn in Hnd. apply NoDup_cons in Hnd as [Hln Hnd].
  eexists (delete l h, _). split.
  - unfold stailq_out. erewrite st_bind_run; [|by hx]. rewrite Hf.
    erewrite st_bind_run; [|by hx].
    run_step Hrun. by hx.
  - exists ns. cbn. split; [by apply qchain_delete|]. split; [|done].
    rewrite dom_delete_L, Hd. set_solver.
Qed.

Lemma stailq_out_empty_ok s :
  stailq_rep s [] -> exists s', stailq_out s = Ok (0%Z, s') /\ stailq_rep s' [].
Proof.
  destruct s as [h [f la]]. intros (ns & (Hc & Hr) & Hd & Hvs%fmap_nil_inv); subst ns.
  cbn in Hc. subst f. eexists. split; [by hx|]. by exists [].
Qed.

#[export] Instance stailq_fifo : FifoNull stailq_ops stailq_rep.
Proof.
  split; [split|].
  - apply stailq_in_ok.
  - apply stailq_out_ok.
  - apply stailq_out_empty_ok.
Qed.
End stailq_ok.

(** [stailq_free] releases every node, and the values when [vfree] is set. *)
Definition freed_values (vfree : bool) (vs : list Z) : list Z :=
  if vfree then filter (fun v => v ≠ NULLV) vs else [].

Lemma freed_values_cons vfree v vs :
  (if vfree && bool_decide (v ≠ NULLV) then v :: freed_values vfree vs else freed_values vfree vs)
  = freed_values vfree (v :: vs).
Proof.
  destruct vfree; [|done]. unfold freed_values. rewrite filter_cons.
  case_bool_decide; case_decide; done.
Qed.

Lemma stailq_free_loop_ok vfree fuel h q ns :
  qchain h q ns -> dom h = list_to_set ns.*1 -> length ns < fuel ->
  exists q', stailq_free_loop fuel vfree (h, q) = Ok (freed_values vfree ns.*2, (∅, q')).
Proof.
  revert h q ns. induction fuel as [|fuel IH]; intros h q ns Hq Hd Hlen; [lia|].
  destruct ns as [|[l v] ns].
  - destruct Hq as (Hc & _). cbn in Hc, Hd. apply dom_empty_inv_L in Hd as ->.
    destruct q as [f la]; cbn in Hc; subst f. eexists. cbn [stailq_free_loop]. hx.
    by destruct vfree.
  - destruct (remove_head_spec _ _ _ _ _ Hq) as (nx & Hl & Hrun & Hq').
    destruct Hq as ((Hf & _) & Hnd & _). cbn in Hnd, Hd. apply NoDup_cons in Hnd as [Hln Hnd].
    destruct (IH (delete l h) _ _ (qchain_delete _ _ _ _ Hln Hq')) as (q' & IH').
    { rewrite dom_delete_L, Hd. set_solver. }
    { cbn in Hlen. lia. }
    exists q'. cbn [stailq_free_loop]. erewrite st_bind_run; [|by hx]. rewrite Hf.
    run_step Hrun. erewrite st_bind_run; [|by hx]. erewrite st_bind_run; [|by hx].
    run_step IH'. cbn. by rewrite <- freed_values_cons.
Qed.

Lemma qchain_length h q ns :
  qchain h q ns -> dom h = list_to_set ns.*1 -> length ns = size h.
Proof.
  intros (_ & Hnd & _) Hd. rewrite <- size_dom, Hd, size_list_to_set by done.
  by rewrite length_fmap.
Qed.

Lemma stailq_free_ok vfree s vs :
  stailq_rep s vs -> exists q', stailq_free vfree s = Ok (freed_values vfree vs, (∅, q')).
Proof.
  destruct s as [h q]. intros (ns & Hq & Hd & <-). cbn [fst snd] in *.
  unfold stailq_free. eapply stailq_free_loop_ok; [done..|].
  cbn [fst]. rewrite (qchain_length _ _ _ Hq Hd). lia.
Qed.

(** ** The producer-consumer queue, one caller at a time *)
Section spsc_ok.
Variable junk : node.

Definition spsc_ops : fifo_ops (heap * (stailq * option loc)) :=
  FifoOps (stailq_in_lf_spsc junk) stailq_out_lf_spsc.

Lemma zoom_run {X D A} (m : st (heap * X) A) h x (d : D) a h' x' :
  m (h, x) = Ok (a, (h', x')) -> zoom m (h, (x, d)) = Ok (a, (h', (x', d))).
Proof. intros H. unfold zoom. by rewrite H. Qed.

Lemma stailq_new_lf_spsc_ok h x :
  h = ∅ -> exists s, stailq_new_lf_spsc junk (h, x) = Ok (tt, s) /\ spsc_rep s [].
Proof.
  intros ->. destruct x as [q d]. unfold stailq_new_lf_spsc.
  erewrite st_bind_run; [|by hx]. erewrite st_bind_run; [|by hx].
  erewrite st_bind_run; [|by hx].
  set (l := fresh (dom ∅)).
  destruct (insert_tail_spec (<[l := junk]> ∅) (Stailq None RHead) [] l (nd_val junk) (nd_next junk))
    as (h' & q' & Hrun & Hq & Hd).
  { split; [done|]. split; [constructor|done]. }
  { cbn. set_solver. }
  { rewrite lookup_insert_eq. by destruct junk. }
  erewrite zoom_run; [|exact Hrun]. eexists. split; [done|].
  exists [], l, (nd_val junk), []. cbn. split; [done|]. split; [|done].
  rewrite Hd. rewrite dom_insert_L, dom_empty_L. set_solver.
Qed.

(** The trim loop frees exactly the nodes before the divider. *)
Lemma stailq_trim_loop_ok fuel h q pre dl dv suf :
  qchain h q (pre ++ (dl, dv) :: suf) ->
  dom h = list_to_set (pre ++ (dl, dv) :: suf).*1 -> length pre < fuel ->
  exists h' q', stailq_trim_loop fuel (h, (q, Some dl)) = Ok (tt, (h', (q', Some dl))) /\
    qchain h' q' ((dl, dv) :: suf) /\ dom h' = list_to_set ((dl, dv) :: suf).*1.
Proof.
  revert h q pre. induction fuel as [|fuel IH]; intros h q pre Hq Hd Hlen; [lia|].
  cbn [stailq_trim_loop]. destruct pre as [|[l v] pre].
  - exists h, q. split; [|done]. destruct Hq as ((Hf & _) & _).
    erewrite st_bind_run; [|by hx]. erewrite st_bind_run; [|by hx].
    by rewrite Hf, decide_True.
  - destruct (remove_head_spec _ _ _ _ _ Hq) as (nx & Hl & Hrun & Hq').
    destruct Hq as ((Hf & _) & Hnd & _). cbn in Hnd, Hd.
    apply NoDup_cons in Hnd as [Hln Hnd].
    assert (l ≠ dl) by (rewrite fmap_app in Hln; set_solver).
    destruct (IH (delete l h) _ _ (qchain_delete _ _ _ _ Hln Hq')) as (h' & q' & IH' & Hrest).
    { rewrite dom_delete_L, Hd. set_solver. }
    { cbn in Hlen. lia. }
    exists h', q'. split; [|done].
    erewrite st_bind_run; [|by hx]. erewrite st_bind_run; [|by hx].
    rewrite Hf, decide_False by congruence.
    erewrite st_bind_run; [|by apply zoom_run].
    erewrite st_bind_run; [|by hx]. done.
Qed.

Lemma stailq_in_lf_spsc_ok s vs v :
  spsc_rep s vs ->
  exists s', stailq_in_lf_spsc junk v s = Ok (tt, s') /\ spsc_rep s' (vs ++ [v]).
Proof.
  destruct s as [h [q d]]. intros (pre & dl & dv & suf & Hq & Hd & Hdiv & <-).
  cbn in *; subst d.
  pose proof (is_fresh (dom h)) as Hf. set (l := fresh (dom h)) in *.
  set (ns := pre ++ (dl, dv) :: suf) in *.
  assert (Hl : l ∉ ns.*1) by (rewrite Hd in Hf; set_solver).
  destruct (insert_tail_spec (<[l := Node v (nd_next junk)]> h) q ns l v (nd_next junk))
    as (h1 & q1 & Hins & Hq1 & Hd1); [by apply qchain_insert|done|by rewrite lookup_insert_eq|].
  assert (Hns : ns ++ [(l, v)] = pre ++ (dl, dv) :: suf ++ [(l, v)])
    by (unfold ns; by rewrite <- app_assoc).
  assert (Hdom1 : dom h1 = list_to_set (ns ++ [(l, v)]).*1).
  { rewrite Hd1, dom_insert_L, Hd, fmap_snoc, list_to_set_app_L. cbn. set_solver. }
  assert (Hlen : length pre < S (size h1)).
  { rewrite <- (qchain_length _ _ _ Hq1 Hdom1), Hns, length_app. lia. }
  rewrite Hns in Hq1, Hdom1.
  destruct (stailq_trim_loop_ok (S (size h1)) h1 q1 pre dl dv _ Hq1 Hdom1 Hlen)
    as (h2 & q2 & Htrim & Hq2 & Hd2).
  exists (h2, (q2, Some dl)). split.
  - unfold stailq_in_lf_spsc. erewrite st_bind_run; [|done]. fold l.
    erewrite st_bind_run; [|by hx]. rewrite insert_insert_eq.
    erewrite st_bind_run; [|by apply zoom_run]. exact Htrim.
  - exists [], dl, dv, (suf ++ [(l, v)]). do 3 (split; [done|]). by rewrite fmap_snoc.
Qed.

(** [*(p)->stqh_last] is the link field of the last node, which is NULL. *)
Lemma tail_ref_is_null h q d ns :
  qchain h q ns -> STAILQ_TAIL_REF (h, (q, d)) = Ok (None, (h, (q, d))).
Proof.
  destruct q as [f la]. intros (Hc & _ & Hla). cbn in Hla, Hc. subst la.
  destruct ns as [|[l v] ns _] using rev_ind.
  - cbn in Hc. subst f. by hx.
  - rewrite tail_ref_snoc. apply chain_app in Hc as (m & _ & _ & nx & Hl & ->). by hx.
Qed.

Lemma stailq_out_lf_spsc_ok s v vs :
  spsc_rep s (v :: vs) ->
  exists s', stailq_out_lf_spsc s = Ok (v, s') /\ spsc_rep s' vs.
Proof.
  destruct s as [h [q d]].
  intros (pre & dl & dv & [|[l v'] suf] & Hq & Hd & Hdiv & Hvs); [done|].
  cbn in *. simplify_eq. pose proof Hq as (Hc & _).
  apply chain_app in Hc as (m & _ & -> & nx & Hdl & -> & nx' & Hl & _).
  exists (h, (q, Some l)). split.
  - unfold stailq_out_lf_spsc, stailq_empty_lf_spsc.
    erewrite st_bind_run.
    2: { erewrite st_bind_run; [|by hx].
         erewrite st_bind_run; [|exact (tail_ref_is_null _ _ _ _ Hq)]. reflexivity. }
    by hx.
  - exists (pre ++ [(dl, dv)]), l, v, suf. cbn. rewrite <- app_assoc. done.
Qed.

#[export] Instance spsc_fifo : Fifo spsc_ops spsc_rep.
Proof. split; [apply stailq_in_lf_spsc_ok|apply stailq_out_lf_spsc_ok]. Qed.
End spsc_ok.

(** ** The LIFO stack *)
Section slist_ok.
Variable junk : node.

Lemma slist_new_ok : slist_rep (slist_new ∅) [].
Proof. exists []. cbn. split; [done|]. split; [by apply owns_nil|done]. Qed.

Lemma slist_in_ok s vs v :
  slist_rep s vs -> exists s', slist_in junk v s = Ok (tt, s') /\ slist_rep s' (v :: vs).
Proof.
  destruct s as [h [f]]. intros (ns & Hc & Ho & <-). cbn in *.
  pose proof (owns_fresh _ _ Ho) as Hl. set (l := fresh (dom h)) in *.
  exists (<[l := Node v f]> h, Slist (Some l)). split.
  - unfold slist_in. erewrite st_bind_run; [|done]. fold l.
    erewrite st_bind_run; [|by hx]. hx. by rewrite !insert_insert_eq.
  - exists ((l, v) :: ns). cbn. split.
    + split; [done|]. exists f. rewrite lookup_insert_eq. auto with ayub.
    + split; [|done]. by apply (owns_insert h [] ns).
Qed.

Lemma slist_out_ok s vs :
  slist_rep s vs -> exists s', slist_out s = Ok (hd 0%Z vs, s') /\ slist_rep s' (tail vs).
Proof.
  destruct s as [h [f]]. intros ([|[l v] ns] & Hc & Ho & <-); cbn in *.
  - subst f. eexists. split; [by hx|]. by exists [].
  - destruct Hc as (-> & nx & Hl & Hc). destruct Ho as [Hnd Hd].
    apply NoDup_cons in Hnd as [Hln Hnd].
    exists (delete l h, Slist nx). split; [unfold slist_out; by hx|].
    exists ns. cbn. split; [auto with ayub|]. split; [|done].
    apply (owns_delete h l v). split; [|done]. by apply NoDup_cons.
Qed.

Lemma slist_free_loop_ok vfree fuel h f ns :
  chain h f ns None -> owns h ns -> length ns < fuel ->
  slist_free_loop fuel vfree (h, Slist f) = Ok (freed_values vfree ns.*2, (∅, Slist None)).
Proof.
  revert h f ns. induction fuel as [|fuel IH]; intros h f ns Hc Ho Hlen; [lia|].
  destruct ns as [|[l v] ns]; cbn [slist_free_loop].
  - cbn in Hc. subst f. apply owns_nil in Ho as ->. hx. by destruct vfree.
  - destruct Hc as (-> & nx & Hl & Hc). pose proof Ho as [Hnd _].
    apply NoDup_cons in Hnd as [Hln Hnd]. cbn in Hlen.
    erewrite st_bind_run; [|by hx]. cbn [slh_first].
    do 3 (erewrite st_bind_run; [|by hx]).
    erewrite st_bind_run; [|apply IH; [by apply chain_delete_fresh|by eapply owns_delete|lia]].
    cbn. by rewrite <- freed_values_cons.
Qed.

Lemma slist_free_ok vfree s vs :
  slist_rep s vs -> slist_free vfree s = Ok (freed_values vfree vs, (∅, Slist None)).
Proof.
  destruct s as [h [f]]. intros (ns & Hc & Ho & <-). cbn [fst snd] in *.
  unfold slist_free. apply slist_free_loop_ok; [done..|]. cbn.
  destruct Ho as [Hnd Hd]. rewrite <- size_dom, Hd, size_list_to_set, length_fmap by done. lia.
Qed.

(** [SLIST_REMOVE] of a node after the first one changes one link. *)
Lemma slist_remove_after_ok fuel h q c vc ns1 l v ns2 :
  chain h (Some c) ((c, vc) :: ns1 ++ (l, v) :: ns2) None ->
  NoDup ((c, vc) :: ns1 ++ (l, v) :: ns2).*1 -> length ns1 < fuel ->
  exists p n, p ∈ ((c, vc) :: ns1).*1 /\ p ∈ dom h /\
    SLIST_REMOVE_AFTER fuel (Some c) l (h, q) = Ok (tt, (<[p := n]> h, q)) /\
    chain (<[p := n]> h) (Some c) ((c, vc) :: ns1 ++ ns2) None.
Proof.
  revert c vc ns1. induction fuel as [|fuel IH]; intros c vc ns1 Hc Hnd Hlen; [lia|].
  destruct Hc as (_ & nx & Hcl & Hc). rewrite fmap_cons, fmap_app in Hnd.
  apply NoDup_cons in Hnd as [Hcn Hnd]. cbn [SLIST_REMOVE_AFTER].
  destruct ns1 as [|[c1 v1] ns1].
  - destruct Hc as (-> & nx' & Hl & Hc). cbn in Hcn, Hnd.
    assert (c ≠ l) by set_solver.
    exists c, (Node vc nx'). split; [cbn; set_solver|].
    split; [by apply elem_of_dom_2 in Hcl|]. split.
    { erewrite st_bind_run; [|by hx]. cbn. rewrite decide_True by done. by hx. }
    cbn. split; [done|]. exists nx'. rewrite lookup_insert_eq. split; [done|].
    apply chain_insert_fresh; [set_solver|done].
  - pose proof Hc as (-> & _). cbn in Hlen.
    assert (c1 ≠ l).
    { apply NoDup_app in Hnd as (_ & Hdisj & _). intros ->. specialize (Hdisj l). set_solver. }
    destruct (IH c1 v1 ns1 Hc) as (p & n & Hp & Hpd & Hrun & Hc').
    { by rewrite fmap_cons, fmap_app. }
    { lia. }
    exists p, n. split; [cbn in *; set_solver|]. split; [done|]. split.
    + erewrite st_bind_run; [|by hx]. cbn. rewrite decide_False by congruence. done.
    + cbn. split; [done|]. exists (Some c1). split; [|done].
      rewrite lookup_insert_ne; [done|]. intros ->. cbn in *. set_solver.
Qed.

Lemma slist_remove_ok h f ns1 l v ns2 :
  chain h f (ns1 ++ (l, v) :: ns2) None -> owns h (ns1 ++ (l, v) :: ns2) ->
  exists h' f', SLIST_REMOVE l (h, Slist f) = Ok (tt, (h', Slist f')) /\
    chain h' f' (ns1 ++ ns2) None /\ dom h' = dom h /\ h' !! l = h !! l.
Proof.
  intros Hc Ho. pose proof Ho as [Hnd Hd]. unfold SLIST_REMOVE. cbn [fst snd slh_first].
  destruct ns1 as [|[c vc] ns1].
  - destruct Hc as (-> & nx & Hl & Hc). rewrite decide_True by done.
    exists h, nx. split; [by hx|]. done.
  - pose proof Hc as (-> & _). rewrite decide_False.
    2: { intros [= ->]. rewrite fmap_app in Hnd. cbn in Hnd.
         apply NoDup_cons in Hnd. set_solver. }
    destruct (slist_remove_after_ok (size h) h (Slist (Some c)) c vc ns1 l v ns2)
      as (p & n & Hp & Hpd & Hrun & Hc'); [done|done| |].
    { rewrite <- size_dom, Hd, size_list_to_set, length_fmap by done.
      cbn. rewrite length_app. cbn. lia. }
    exists (<[p := n]> h), (Some c). split; [done|]. split; [done|]. split.
    { apply dom_insert_lookup_L. by apply elem_of_dom. }
    rewrite lookup_insert_ne; [done|]. intros ->.
    rewrite fmap_app in Hnd. apply NoDup_app in Hnd as (_ & Hdisj & _).
    apply (Hdisj l Hp). cbn. set_solver.
Qed.

Fixpoint remove_first (v : Z) (vs : list Z) : list Z :=
  match vs with
  | [] => []
  | w :: vs => if decide (w = v) then vs else w :: remove_first v vs
  end.

(** The loop of [slist_remove_val] past the nodes [ns1] it has skipped. *)
Lemma slist_remove_loop_ok vfree v fuel h f ns1 p ns2 :
  chain h f ns1 p -> chain h p ns2 None -> owns h (ns1 ++ ns2) -> length ns2 < fuel ->
  exists s', slist_remove_loop fuel p v vfree (h, Slist f) =
      Ok (if vfree && bool_decide (v ∈ ns2.*2) then [v] else [], s') /\
    slist_rep s' (ns1.*2 ++ remove_first v ns2.*2).
Proof.
  revert p ns1 ns2. induction fuel as [|fuel IH]; intros p ns1 ns2 Hc1 Hc2 Ho Hlen; [lia|].
  cbn [slist_remove_loop]. destruct ns2 as [|[l w] ns2].
  - cbn in Hc2. subst p. exists (h, Slist f). rewrite app_nil_r in Ho. cbn.
    rewrite bool_decide_false, andb_false_r, app_nil_r by set_solver.
    split; [done|]. by exists ns1.
  - destruct Hc2 as (-> & nx & Hl & Hc2). erewrite st_bind_run; [|by hx]. cbn [nd_val nd_next].
    destruct (decide (w = v)) as [->|Hne].
    + rewrite bool_decide_true by done.
      destruct (slist_remove_ok h f ns1 l v ns2) as (h' & f' & Hrun & Hc' & Hd' & Hl'); [|done|].
      { apply chain_app. exists (Some l). split; [done|]. cbn. eauto. }
      assert (Hrep : slist_rep (delete l h', Slist f') (ns1.*2 ++ ns2.*2)).
      { destruct Ho as [Hnd Hd]. rewrite fmap_app in Hnd. cbn in Hnd.
        apply NoDup_app in Hnd as (Hnd1 & Hdisj & (Hln & Hnd2)%NoDup_cons).
        assert (l ∉ (ns1 ++ ns2).*1).
        { rewrite fmap_app. intros [Hin|Hin]%elem_of_app; [|done].
          apply (Hdisj l Hin). set_solver. }
        exists (ns1 ++ ns2). cbn. split; [by apply chain_delete_fresh|].
        split; [|by rewrite fmap_app]. split.
        - rewrite fmap_app. apply NoDup_app. split; [done|]. split; [set_solver|done].
        - rewrite dom_delete_L, Hd', Hd, !fmap_app, !list_to_set_app_L. cbn.
          rewrite fmap_app in *. set_solver. }
      exists (delete l h', Slist f'). rewrite <- Hl' in Hl. split.
      * run_step Hrun. erewrite st_bind_run; [|by hx]. erewrite st_bind_run; [|by hx].
        cbn. rewrite bool_decide_true by set_solver. by destruct vfree.
      * cbn [fmap list_fmap snd remove_first]. by rewrite decide_True.
    + rewrite bool_decide_false by done. cbn in Hlen.
      destruct (IH nx (ns1 ++ [(l, w)]) ns2) as (s' & Hrun & Hrep).
      { apply chain_app. exists (Some l). split; [done|]. cbn. eauto. }
      { done. }
      { by rewrite <- app_assoc. }
      { lia. }
      exists s'. rewrite Hrun. cbn [fmap list_fmap snd remove_first]. rewrite decide_False by done.
      split; [|by rewrite fmap_snoc, <- app_assoc in Hrep].
      by rewrite (bool_decide_ext (v ∈ w :: ns2.*2) (v ∈ ns2.*2)) by set_solver.
Qed.

Lemma slist_remove_val_ok vfree v s vs :
  slist_rep s vs ->
  exists s', slist_remove_val v vfree s =
      Ok (if vfree && bool_decide (v ∈ vs) then [v] else [], s') /\
    slist_rep s' (remove_first v vs).
Proof.
  destruct s as [h [f]]. intros (ns & Hc & Ho & <-). unfold slist_remove_val. cbn in Hc, Ho.
  apply (slist_remove_loop_ok vfree v _ h f [] f ns); [done|done|done|].
  destruct Ho as [Hnd Hd]. cbn [fst].
  rewrite <- size_dom, Hd, size_list_to_set, length_fmap by done. lia.
Qed.
End slist_ok.

(** ** Properties *)
Section empty_queue.
(** [stailq_empty_lf_spsc] never answers 1 on a well-formed queue, the empty
    one included. *)
Lemma empty_lf_spsc_false s vs :
  spsc_rep s vs -> stailq_empty_lf_spsc s = Ok (false, s).
Proof.
  destruct s as [h [q d]]. intros (pre & dl & dv & suf & Hq & Hd & Hdiv & _).
  cbn in Hdiv; subst d. unfold stailq_empty_lf_spsc.
  erewrite st_bind_run; [|by hx].
  erewrite st_bind_run; [|exact (tail_ref_is_null _ _ _ _ Hq)]. by cbn.
Qed.
End empty_queue.

(** C39: Every sequence of [stailq_in] and [stailq_out] on a new queue answers what an
    abstract FIFO queue answers, NULL from the empty one, with no memory fault;
    [stailq_free] afterwards releases every node and exactly the values left. *)
Theorem stailq_refines_fifo (junk : node) (l : list qop) :
  exists s q', run_ops (stailq_ops junk) l (stailq_new ∅) = Ok ((fifo_null_spec l []).1, s) /\
    stailq_free true s = Ok (filter (fun v => v ≠ NULLV) (fifo_null_spec l []).2, (∅, q')).
Proof.
  destruct (fifo_null_run (stailq_ops junk) stailq_rep l _ [] stailq_new_ok) as (s & Hrun & Hrep).
  destruct (stailq_free_ok true s _ Hrep) as (q' & Hfree). by exists s, q'.
Qed.

(** C38: A sequence of [stailq_in_lf_spsc] and [stailq_out_lf_spsc] on a new queue that
    never takes from the empty queue has no memory fault and takes out the values
    put in, in order; the trim in [stailq_in_lf_spsc] leaves the node store with
    the divider and the content only. *)
Theorem spsc_refines_fifo (junk : node) x (l : list qop) outs r
    (Hl : fifo_spec l [] = Some (outs, r)) :
  exists s0 s, stailq_new_lf_spsc junk (∅, x) = Ok (tt, s0) /\
    run_ops (spsc_ops junk) l s0 = Ok (outs, s) /\ spsc_rep s r /\
    outs ++ r = omap (fun o => match o with QIn v => Some v | QOut => None end) l.
Proof.
  destruct (stailq_new_lf_spsc_ok junk ∅ x eq_refl) as (s0 & Hnew & Hrep).
  destruct (fifo_run (spsc_ops junk) spsc_rep l s0 [] outs r Hrep Hl) as (s & Hrun & Hrep').
  exists s0, s. split; [done|]. split; [done|]. split; [done|].
  exact (fifo_spec_order l [] outs r Hl).
Qed.

Lemma spsc_refines_fifo_witness :
  exists s0 s,
    stailq_new_lf_spsc (Node 7 None) (∅, (Stailq None RHead, None)) = Ok (tt, s0) /\
    run_ops (spsc_ops (Node 7 None)) [QIn 5; QIn 6; QOut; QIn 8; QOut]%Z s0 = Ok ([5; 6]%Z, s) /\
    spsc_rep s [8]%Z /\ [5; 6]%Z ++ [8]%Z = [5; 6; 8]%Z.
Proof.
  exact (spsc_refines_fifo (Node 7 None) (Stailq None RHead, None)
           [QIn 5; QIn 6; QOut; QIn 8; QOut]%Z [5; 6]%Z [8]%Z eq_refl).
Defined.

(** The empty test of the producer-consumer queue reads the link field of the
    last node, which is NULL: it answers 0 on every well-formed queue, so taking
    from an empty queue dereferences NULL instead of answering NULL. *)
Theorem spsc_out_empty_faults s vs (Hs : spsc_rep s vs) :
  stailq_empty_lf_spsc s = Ok (false, s) /\
  (vs = [] -> stailq_out_lf_spsc s = Fault NullDeref).
Proof.
  pose proof (empty_lf_spsc_false s vs Hs) as He. split; [done|]. intros ->.
  unfold stailq_out_lf_spsc. run_step He. cbn [negb].
  destruct s as [h [q d]]. destruct Hs as (pre & dl & dv & suf & (Hc & _) & _ & Hdiv & Hsuf).
  apply fmap_nil_inv in Hsuf as ->. cbn in Hdiv, Hc; subst d.
  apply chain_app in Hc as (m & _ & -> & nx & Hdl & ->). by hx.
Qed.

Lemma spsc_out_empty_faults_witness :
  exists s, stailq_new_lf_spsc (Node 7 None) (∅, (Stailq None RHead, None)) = Ok (tt, s) /\
    stailq_empty_lf_spsc s = Ok (false, s) /\
    (@nil Z = [] -> stailq_out_lf_spsc s = Fault NullDeref).
Proof.
  destruct (stailq_new_lf_spsc_ok (Node 7 None) ∅ (Stailq None RHead, None) eq_refl)
    as (s & Hnew & Hrep).
  exists s. split; [exact Hnew|]. exact (spsc_out_empty_faults s [] Hrep).
Defined.

(** The stack: what [slist_in] put in last comes out first, [slist_remove_val]
    unlinks and frees the first node holding the value and leaves the others in
    place, [slist_free] releases every node and every value that is not NULL. *)
Theorem slist_correct (junk : node) s vs v vfree (Hs : slist_rep s vs) :
  (exists s', slist_in junk v s = Ok (tt, s') /\ slist_rep s' (v :: vs)) /\
  (exists s', slist_out s = Ok (hd 0%Z vs, s') /\ slist_rep s' (tail vs)) /\
  (exists s', slist_remove_val v vfree s =
      Ok (if vfree && bool_decide (v ∈ vs) then [v] else [], s') /\
    slist_rep s' (remove_first v vs)) /\
  slist_free vfree s = Ok (freed_values vfree vs, (∅, Slist None)).
Proof.
  split; [by apply slist_in_ok|]. split; [by apply slist_out_ok|].
  split; [by apply slist_remove_val_ok|by apply slist_free_ok].
Qed.

Lemma slist_correct_witness :
  exists s, slist_rep s [3; 4]%Z /\
    (exists s', slist_in (Node 7 None) 4 s = Ok (tt, s') /\ slist_rep s' [4; 3; 4]%Z) /\
    (exists s', slist_out s = Ok (3%Z, s') /\ slist_rep s' [4]%Z) /\
    (exists s', slist_remove_val 4 true s = Ok ([4]%Z, s') /\ slist_rep s' [3]%Z) /\
    slist_free true s = Ok ([3; 4]%Z, (∅, Slist None)).
Proof.
  destruct (slist_in_ok (Node 7 None) _ [] 4 slist_new_ok) as (s1 & _ & H1).
  destruct (slist_in_ok (Node 7 None) s1 _ 3 H1) as (s2 & _ & H2).
  exists s2. split; [exact H2|]. exact (slist_correct (Node 7 None) s2 _ 4 true H2).
Defined.
