(* ===== verification/Spsc.v ===== *)
(** * The worker queue under interleaving

    [stailq_in_lf_spsc] runs in the main thread ([ayubd_run], src/main.c) and
    [stailq_out_lf_spsc] in a worker ([ayubd_worker]), with no lock; a semaphore
    counts the posted items.  This file models both as a step relation in which
    each step makes at most one access to memory the other thread touches
    (sequentially consistent accesses), with [malloc] free to return any address
    not in use and any contents. *)
From S2P Require Import Prelude NodeHeap Stailq.

(** Control points of the producer, in the order of the macro's statements. *)
Inductive prod_pc :=
  | PIdle                                       (* between two calls *)
  | PVal (np : loc) (v : Z)                     (* np->val = (v) *)
  | PNext (np : loc)                            (* STAILQ_NEXT(np) = NULL *)
  | PLink (np : loc)                            (* *(p)->stqh_last = np *)
  | PLast (np : loc)                            (* (p)->stqh_last = &STAILQ_NEXT(np) *)
  | PTrim                                       (* (tnp = STAILQ_FIRST(p)) != (d) *)
  | PTrimRm (tnp : option loc)                  (* STAILQ_FIRST = STAILQ_NEXT(STAILQ_FIRST) *)
  | PTrimReset (tnp : option loc)               (* == NULL: stqh_last = &stqh_first *)
  | PTrimFree (tnp : option loc)                (* DO_FREE(tnp) *)
  | PPost.                                      (* sem_post *)

(** Control points of the consumer. *)
Inductive cons_pc :=
  | CWait                                       (* sem_wait *)
  | CTest                                       (* reads (p)->stqh_last *)
  | CDeref (r : lref)                           (* reads *(p)->stqh_last, compares with (d) *)
  | CNext                                       (* reads STAILQ_NEXT(d) *)
  | CSetD (p : option loc)                      (* (d) = STAILQ_NEXT(d) *)
  | CVal                                        (* (v) = (d)->val *)
  | CEmpty.                                     (* (v) = NULL: the worker reports an empty queue *)

Record spsc_st := SpscSt {
  sp_heap : heap;
  sp_first : option loc;
  sp_last : lref;
  sp_div : option loc;
  sp_sem : nat;
  sp_prod : prod_pc;
  sp_todo : list Z;        (* values the producer has still to put in *)
  sp_cons : cons_pc;
  sp_out : list Z          (* values the consumer has taken out *)
}.

Definition ld (h : heap) (p : option loc) : result node :=
  match p with
  | None => Fault NullDeref
  | Some l => from_option_fault UseAfterFree (h !! l)
  end.

(** One producer step; [l] and [junk] are the address and the contents
    [malloc] returns.  [Ok None]: nothing left to do. *)
Definition prod_step (l : loc) (junk : node) (s : spsc_st) : result (option spsc_st) :=
  let '(SpscSt h f la d sem p todo c out) := s in
  match p with
  | PIdle =>
      match todo with
      | [] => Ok None
      | v :: todo => Ok (Some (SpscSt (<[l := junk]> h) f la d sem (PVal l v) todo c out))
      end
  | PVal np v =>
      n ← ld h (Some np);
      Ok (Some (SpscSt (<[np := Node v (nd_next n)]> h) f la d sem (PNext np) todo c out))
  | PNext np =>
      n ← ld h (Some np);
      Ok (Some (SpscSt (<[np := Node (nd_val n) None]> h) f la d sem (PLink np) todo c out))
  | PLink np =>
      match la with
      | RHead => Ok (Some (SpscSt h (Some np) la d sem (PLast np) todo c out))
      | RNext k =>
          n ← ld h (Some k);
          Ok (Some (SpscSt (<[k := Node (nd_val n) (Some np)]> h) f la d sem (PLast np) todo c out))
      end
  | PLast np => Ok (Some (SpscSt h f (RNext np) d sem PTrim todo c out))
  | PTrim =>
      Ok (Some (SpscSt h f la d sem (if decide (f = d) then PPost else PTrimRm f) todo c out))
  | PTrimRm tnp =>
      n ← ld h f;
      Ok (Some (SpscSt h (nd_next n) la d sem
        (match nd_next n with None => PTrimReset tnp | Some _ => PTrimFree tnp end) todo c out))
  | PTrimReset tnp => Ok (Some (SpscSt h f RHead d sem (PTrimFree tnp) todo c out))
  | PTrimFree tnp =>
      match tnp with
      | None => Ok (Some (SpscSt h f la d sem PTrim todo c out))
      | Some k =>
          _ ← ld h tnp;
          Ok (Some (SpscSt (delete k h) f la d sem PTrim todo c out))
      end
  | PPost => Ok (Some (SpscSt h f la d (S sem) PIdle todo c out))
  end.

(** One consumer step.  [Ok None]: blocked in [sem_wait]. *)
Definition cons_step (s : spsc_st) : result (option spsc_st) :=
  let '(SpscSt h f la d sem p todo c out) := s in
  match c with
  | CWait =>
      match sem with
      | O => Ok None
      | S sem => Ok (Some (SpscSt h f la d sem p todo CTest out))
      end
  | CTest => Ok (Some (SpscSt h f la d sem p todo (CDeref la) out))
  | CDeref r =>
      t ← match r with RHead => Ok f | RNext k => n ← ld h (Some k); Ok (nd_next n) end;
      Ok (Some (SpscSt h f la d sem p todo (if decide (d = t) then CEmpty else CNext) out))
  | CNext => n ← ld h d; Ok (Some (SpscSt h f la d sem p todo (CSetD (nd_next n)) out))
  | CSetD q => Ok (Some (SpscSt h f la q sem p todo CVal out))
  | CVal => n ← ld h d; Ok (Some (SpscSt h f la d sem p todo CWait (out ++ [nd_val n])))
  | CEmpty => Ok (Some (SpscSt h f la d sem p todo CWait out))
  end.

Inductive spsc_step : spsc_st -> spsc_st -> Prop :=
  | step_prod l junk s s' :
      sp_heap s !! l = None -> prod_step l junk s = Ok (Some s') -> spsc_step s s'
  | step_cons s s' : cons_step s = Ok (Some s') -> spsc_step s s'.

(** Some step of some thread is a memory fault. *)
Definition spsc_faulty (s : spsc_st) : Prop :=
  (exists l junk e, sp_heap s !! l = None /\ prod_step l junk s = Fault e) \/
  (exists e, cons_step s = Fault e).

(** After [stailq_new_lf_spsc]: a dummy node at [l]. *)
Definition spsc_init (l : loc) (dummy : Z) (input : list Z) : spsc_st :=
  SpscSt {[l := Node dummy None]} (Some l) (RNext l) (Some l) 0 PIdle input CWait [].

(** ** The invariant *)

(** Nodes allocated and not (or no longer) linked. *)
Definition unlinked (p : prod_pc) : list loc :=
  match p with
  | PVal np _ | PNext np | PLink np => [np]
  | PTrimReset (Some k) | PTrimFree (Some k) => [k]
  | _ => []
  end.

(** Items linked and not yet posted; posts taken and not yet matched by an
    advance of the divider. *)
Definition unposted (p : prod_pc) : nat :=
  match p with
  | PLast _ | PTrim | PTrimRm _ | PTrimReset _ | PTrimFree _ | PPost => 1
  | _ => 0
  end.

Definition token (c : cons_pc) : nat :=
  match c with CTest | CDeref _ | CNext | CSetD _ => 1 | _ => 0 end.

(** Where the producer is: the pointer to the last link, the value on its way in,
    and what its local variable points to. *)
Definition prod_ok (s : spsc_st) (pre suf : list (loc * Z)) (dn : loc * Z) (infl : list Z) : Prop :=
  let ns := pre ++ dn :: suf in
  match sp_prod s with
  | PLast np =>
      infl = [] /\
      exists suf0 w, suf = suf0 ++ [(np, w)] /\ sp_last s = tail_ref (pre ++ dn :: suf0)
  | p =>
      sp_last s = tail_ref ns /\
      match p with
      | PVal _ v => infl = [v]
      | PNext np => exists v nx, infl = [v] /\ sp_heap s !! np = Some (Node v nx)
      | PLink np => exists v, infl = [v] /\ sp_heap s !! np = Some (Node v None)
      | PTrimRm _ => infl = [] /\ pre ≠ [] /\ p = PTrimRm (sp_first s)
      | PTrimReset _ => False
      | PTrimFree t => infl = [] /\ t ≠ None
      | _ => infl = []
      end
  end.

Definition cons_ok (c : cons_pc) (dn : loc * Z) (suf : list (loc * Z)) : Prop :=
  match c with
  | CDeref r => exists k, r = RNext k /\ k ∈ (dn :: suf).*1
  | CSetD q => q = fst <$> head suf
  | CEmpty => False
  | _ => True
  end.

(** The value the consumer has reached and not yet read. *)
Definition reading (c : cons_pc) (dv : Z) : list Z :=
  match c with CVal => [dv] | _ => [] end.

Record spsc_inv (input : list Z) (pre : list (loc * Z)) (dl : loc) (dv : Z)
    (suf : list (loc * Z)) (infl : list Z) (s : spsc_st) : Prop := {
  inv_chain : chain (sp_heap s) (sp_first s) (pre ++ (dl, dv) :: suf) None;
  inv_nodup : NoDup (unlinked (sp_prod s) ++ (pre ++ (dl, dv) :: suf).*1);
  inv_dom : dom (sp_heap s) = list_to_set (unlinked (sp_prod s) ++ (pre ++ (dl, dv) :: suf).*1);
  inv_div : sp_div s = Some dl;
  inv_prod : prod_ok s pre suf (dl, dv) infl;
  inv_cons : cons_ok (sp_cons s) (dl, dv) suf;
  inv_count : length suf = sp_sem s + token (sp_cons s) + unposted (sp_prod s);
  inv_values :
    input = sp_out s ++ reading (sp_cons s) dv ++ suf.*2 ++ infl ++ sp_todo s
}.

Definition spsc_good (input : list Z) (s : spsc_st) : Prop :=
  exists pre dl dv suf infl, spsc_inv input pre dl dv suf infl s.

Lemma spsc_init_good l dummy input : spsc_good input (spsc_init l dummy input).
Proof.
  exists [], l, dummy, [], []. split; cbn; try done.
  - split; [done|]. exists None. by rewrite lookup_singleton_eq.
  - apply NoDup_singleton.
  - rewrite dom_singleton_L. set_solver.
Qed.

(** The last-link pointer refers to a node at or after the divider. *)
Lemma tail_ref_app pre n suf : tail_ref (pre ++ n :: suf) = tail_ref (n :: suf).
Proof.
  unfold tail_ref. rewrite last_app. by destruct (last (n :: suf)) eqn:E; [|rewrite last_None in E].
Qed.

Lemma tail_ref_elem n suf : exists k, tail_ref (n :: suf) = RNext k /\ k ∈ (n :: suf).*1.
Proof.
  unfold tail_ref. destruct (last (n :: suf)) as [m|] eqn:E; [|by rewrite last_None in E].
  exists m.1. split; [done|]. apply list_elem_of_fmap_2. by apply last_Some_elem_of in E.
Qed.

Lemma inv_last input pre dl dv suf infl s :
  spsc_inv input pre dl dv suf infl s ->
  exists k, sp_last s = RNext k /\ k ∈ ((dl, dv) :: suf).*1.
Proof.
  intros [_ _ _ _ Hp _ _ _]. unfold prod_ok in Hp.
  assert (sp_last s = tail_ref (pre ++ (dl, dv) :: suf) ->
          exists k, sp_last s = RNext k /\ k ∈ ((dl, dv) :: suf).*1) as Hgen.
  { intros ->. rewrite tail_ref_app. apply tail_ref_elem. }
  destruct (sp_prod s); try (by apply Hgen, Hp).
  destruct Hp as (_ & suf0 & w & -> & ->). rewrite tail_ref_app.
  destruct (tail_ref_elem (dl, dv) suf0) as (k & -> & Hk).
  exists k. split; [done|]. cbn in *. rewrite fmap_app. set_solver.
Qed.

(** The link of a node of a chain points to a later node. *)
Lemma chain_next h p ns l v q :
  chain h p ns None -> l ∈ ns.*1 -> h !! l = Some (Node v q) ->
  match q with None => True | Some k => k ∈ (tail ns).*1 end.
Proof.
  revert p. induction ns as [|[l' v'] ns IH]; intros p Hc Hl Hv; [set_solver|].
  destruct Hc as (-> & nx & Hl' & Hc). cbn in Hl |- *.
  apply elem_of_cons in Hl as [->|Hl].
  - rewrite Hv in Hl'. simplify_eq. destruct nx as [k|]; [|done].
    apply chain_Some in Hc as (? & ? & ? & -> & _). cbn. set_solver.
  - specialize (IH nx Hc Hl Hv). destruct q as [k|]; [|done].
    destruct ns; [done|]. cbn in *. set_solver.
Qed.

(** A node of the store can be read. *)
Lemma inv_node input pre dl dv suf infl s l w :
  spsc_inv input pre dl dv suf infl s -> (l, w) ∈ (dl, dv) :: suf ->
  exists nx, sp_heap s !! l = Some (Node w nx).
Proof.
  intros Hi Hin. eapply chain_elem; [apply Hi|]. set_solver.
Qed.

Lemma inv_div_next input pre dl dv suf infl s :
  spsc_inv input pre dl dv suf infl s ->
  sp_heap s !! dl = Some (Node dv (fst <$> head suf)).
Proof.
  intros [Hc _ _ _ _ _ _ _]. apply chain_app in Hc as (m & _ & -> & nx & Hl & Hc).
  rewrite Hl. destruct suf as [|[l w] suf]; cbn in *; [by subst|]. by destruct Hc as (-> & _).
Qed.

Lemma inv_nodup_div input pre dl dv suf infl s :
  spsc_inv input pre dl dv suf infl s -> dl ∉ suf.*1.
Proof.
  intros [_ Hnd _ _ _ _ _ _]. apply NoDup_app in Hnd as (_ & _ & Hnd).
  rewrite fmap_app in Hnd. apply NoDup_app in Hnd as (_ & _ & Hnd).
  by apply NoDup_cons in Hnd as [? _].
Qed.

(** What the consumer's read of the last link gives is not the divider. *)
Lemma inv_deref input pre dl dv suf infl s k :
  spsc_inv input pre dl dv suf infl s -> k ∈ ((dl, dv) :: suf).*1 ->
  exists n, sp_heap s !! k = Some n /\ nd_next n ≠ Some dl.
Proof.
  intros Hi Hk. apply list_elem_of_fmap in Hk as ([k' w] & -> & Hin). cbn.
  destruct (inv_node _ _ _ _ _ _ _ _ _ Hi Hin) as (nx & Hl).
  exists (Node w nx). split; [done|]. cbn. intros ->.
  pose proof (inv_chain _ _ _ _ _ _ _ Hi) as Hc. apply chain_app in Hc as (m & _ & Hc).
  apply (chain_next _ _ _ k' w (Some dl)) in Hc; [|by apply (list_elem_of_fmap_2 fst) in Hin|done].
  by apply (inv_nodup_div _ _ _ _ _ _ _ Hi).
Qed.

(** The divider moving to the next node does not disturb the producer. *)
Lemma prod_ok_advance s d pre dn n suf infl c out :
  prod_ok s pre (n :: suf) dn infl -> unposted (sp_prod s) <= length suf ->
  prod_ok (SpscSt (sp_heap s) (sp_first s) (sp_last s) d (sp_sem s) (sp_prod s) (sp_todo s) c out)
    (pre ++ [dn]) suf n infl.
Proof.
  unfold prod_ok. cbn. rewrite <- !app_assoc. cbn. intros Hp Hle.
  destruct (sp_prod s); try done.
  - destruct Hp as (-> & suf0 & w & Hsuf & Hla). split; [done|].
    destruct suf0 as [|x suf0]; injection Hsuf as -> ->; cbn in Hle; [lia|].
    exists suf0, w. by rewrite <- app_assoc.
  - destruct Hp as (? & ? & ? & ?). split; [done|]. split; [done|].
    split; [|done]. by destruct pre.
Qed.

(** Every consumer step is free of faults and keeps the invariant. *)
Lemma cons_step_good input s :
  spsc_good input s ->
  exists o, cons_step s = Ok o /\ (forall s', o = Some s' -> spsc_good input s').
Proof.
  intros (pre & dl & dv & suf & infl & Hi).
  pose proof (inv_last _ _ _ _ _ _ _ Hi) as (k & Hla & Hk).
  pose proof (inv_div_next _ _ _ _ _ _ _ Hi) as Hdl.
  assert (Hder : forall k, k ∈ ((dl, dv) :: suf).*1 ->
            exists n, sp_heap s !! k = Some n /\ nd_next n ≠ Some dl).
  { intros k'. by apply (inv_deref _ _ _ _ _ _ _ _ Hi). }
  destruct s as [h f la d sem p todo c out].
  destruct Hi as [Hc Hnd Hd Hdiv Hp Hco Hct Hv]. cbn in *; subst.
  destruct c as [| |r| |q| |]; cbn in *.
  - destruct sem as [|sem]; (eexists; split; [done|]); intros s' [=]; subst.
    exists pre, dl, dv, suf, infl. split; try done. cbn in *. lia.
  - eexists. split; [done|]. intros s' [= <-].
    exists pre, dl, dv, suf, infl. split; try done. by exists k.
  - destruct Hco as (k' & -> & Hk'). destruct (Hder k' Hk') as (n & Hn & Hne).
    rewrite Hn. cbn. rewrite decide_False by congruence.
    eexists. split; [done|]. intros s' [= <-].
    exists pre, dl, dv, suf, infl. by split.
  - rewrite Hdl. eexists. split; [done|]. intros s' [= <-].
    exists pre, dl, dv, suf, infl. by split.
  - destruct suf as [|[l w] suf]; cbn in Hct, Hk; [lia|].
    eexists. split; [done|]. intros s' [= <-]. cbn.
    exists (pre ++ [(dl, dv)]), l, w, suf, infl.
    assert (Hns : (pre ++ [(dl, dv)]) ++ (l, w) :: suf = pre ++ (dl, dv) :: (l, w) :: suf)
      by (by rewrite <- app_assoc).
    split; cbn; rewrite ?Hns; try done.
    + eapply prod_ok_advance in Hp; [exact Hp|]. cbn. lia.
    + lia.
  - rewrite Hdl. eexists. split; [done|]. intros s' [= <-].
    exists pre, dl, dv, suf, infl. split; try done. cbn in *. by rewrite <- app_assoc.
  - done.
Qed.

(** Writing to a node that is not linked. *)
Lemma inv_write_unlinked h f pre dl dv suf np n :
  chain h f (pre ++ (dl, dv) :: suf) None ->
  NoDup ([np] ++ (pre ++ (dl, dv) :: suf).*1) ->
  chain (<[np := n]> h) f (pre ++ (dl, dv) :: suf) None.
Proof. intros Hc Hnd. apply NoDup_cons in Hnd as [Hnp _]. by apply chain_insert_fresh. Qed.

(** Linking a node after the last one. *)
Lemma inv_link h f ns np v k m :
  chain h f ns None -> NoDup ([np] ++ ns.*1) -> h !! np = Some (Node v None) ->
  tail_ref ns = RNext k -> h !! k = Some m ->
  chain (<[k := Node (nd_val m) (Some np)]> h) f (ns ++ [(np, v)]) None.
Proof.
  destruct ns as [|[k' w] ns _] using rev_ind; [done|].
  rewrite tail_ref_snoc. intros Hc Hnd Hnp [= <-] Hm. cbn in Hm.
  apply NoDup_cons in Hnd as [Hnpn Hnd]. rewrite fmap_app in Hnpn. cbn in Hnpn.
  assert (np ≠ k') by set_solver.
  apply chain_app. exists (Some np). split.
  - apply chain_app in Hc as (q & Hc & -> & nx & Hk & ->). rewrite Hm in Hk. simplify_eq.
    apply chain_snoc_relink; done.
  - cbn. split; [done|]. exists None. by rewrite lookup_insert_ne.
Qed.

(** Every producer step is free of faults and keeps the invariant. *)
Lemma prod_step_good input l junk s :
  spsc_good input s -> sp_heap s !! l = None ->
  exists o, prod_step l junk s = Ok o /\ (forall s', o = Some s' -> spsc_good input s').
Proof.
  intros (pre & dl & dv & suf & infl & Hi) Hfresh.
  pose proof (inv_last _ _ _ _ _ _ _ Hi) as (k & Hla & Hk).
  destruct s as [h f la d sem p todo c out].
  destruct Hi as [Hc Hnd Hd Hdiv Hp Hco Hct Hv]. unfold prod_ok in Hp. cbn in *. subst la d input.
  set (ns := pre ++ (dl, dv) :: suf) in *.
  assert (Hkns : k ∈ ns.*1).
  { unfold ns. rewrite fmap_app. set_solver. }
  assert (Hkin : exists m, h !! k = Some m).
  { apply elem_of_dom. rewrite Hd. set_solver. }
  destruct Hkin as [m Hm].
  destruct p as [|np v|np|np|np| |t|t|t|]; cbn in *.
  - destruct Hp as [Hp ->].
    destruct todo as [|v todo]; (eexists; split; [done|]); intros s' [=]; subst.
    exists pre, dl, dv, suf, [v].
    assert (l ∉ ns.*1).
    { apply not_elem_of_dom in Hfresh. rewrite Hd in Hfresh. by rewrite elem_of_list_to_set in Hfresh. }
    split; cbn; try done.
    + by apply chain_insert_fresh.
    + by apply NoDup_cons.
    + rewrite dom_insert_L, Hd. set_solver.
  - destruct Hp as [Hp ->].
    assert (is_Some (h !! np)) as [n Hn] by (apply elem_of_dom; rewrite Hd; set_solver).
    rewrite Hn. eexists. split; [done|]. intros s' [= <-].
    exists pre, dl, dv, suf, [v]. split; cbn; try done.
    + by apply inv_write_unlinked.
    + by rewrite dom_insert_lookup_L.
    + split; [done|]. exists v, (nd_next n). by rewrite lookup_insert_eq.
  - destruct Hp as (Hp & v & nx & -> & Hnp). rewrite Hnp.
    eexists. split; [done|]. intros s' [= <-].
    exists pre, dl, dv, suf, [v]. split; cbn; try done.
    + by apply inv_write_unlinked.
    + by rewrite dom_insert_lookup_L.
    + split; [done|]. exists v. by rewrite lookup_insert_eq.
  - destruct Hp as (Hp & v & -> & Hnp). rewrite Hm.
    eexists. split; [done|]. intros s' [= <-].
    exists pre, dl, dv, (suf ++ [(np, v)]), [].
    assert (Hns : pre ++ (dl, dv) :: suf ++ [(np, v)] = ns ++ [(np, v)])
      by (unfold ns; by rewrite <- app_assoc).
    split; cbn; rewrite ?Hns; try done.
    + eapply inv_link; done.
    + rewrite fmap_app. cbn. by rewrite <- Permutation_cons_append.
    + rewrite dom_insert_lookup_L by done. rewrite Hd, fmap_app, list_to_set_app_L. cbn. clearbody ns. clear. set_solver.
    + split; [done|]. eauto.
    + destruct c; cbn in *; try done.
      * destruct Hco as (k' & -> & Hk'). exists k'. split; [done|]. rewrite fmap_app. set_solver.
      * subst p. destruct suf; [cbn in Hct; lia|done].
    + rewrite length_app. cbn. lia.
    + rewrite fmap_app. cbn. by rewrite <- !app_assoc.
  - destruct Hp as (-> & suf0 & w & -> & Hp).
    eexists. split; [done|]. intros s' [= <-].
    exists pre, dl, dv, (suf0 ++ [(np, w)]), []. split; cbn; try done.
    split; [|done]. fold ns. unfold ns.
    rewrite app_comm_cons, app_assoc. by rewrite tail_ref_snoc.
  - destruct Hp as [Hp ->].
    eexists. split; [done|]. intros s' [= <-].
    exists pre, dl, dv, suf, []. split; cbn; try done.
    all: try (case_decide; cbn; done).
    unfold prod_ok. cbn. case_decide as Hf; cbn; [done|].
    split; [done|]. split; [done|]. split; [|done].
    intros ->. cbn in Hc. apply Hf. by destruct Hc.
  - destruct Hp as (Hp & -> & Hpre & [= ->]).
    destruct pre as [|[l0 v0] pre]; [done|]. clear Hpre.
    assert (Hc' := Hc). destruct Hc' as (-> & nx & Hl0 & Hc'). cbn. rewrite Hl0. cbn.
    eexists. split; [done|]. intros s' [= <-].
    assert (exists l1, nx = Some l1) as [l1 ->].
    { destruct pre as [|[l1 v1] pre]; cbn in Hc'; destruct Hc' as (-> & _); eauto. }
    exists pre, dl, dv, suf, []. split; cbn; try done.
    split; [|done]. rewrite Hp. unfold ns. cbn.
    destruct pre; cbn; by rewrite tail_ref_cons.
  - by destruct Hp.
  - destruct Hp as (Hp & -> & Ht). destruct t as [t|]; [|done]. clear Ht.
    assert (is_Some (h !! t)) as [n Hn] by (apply elem_of_dom; rewrite Hd; cbn; set_solver).
    cbn. rewrite Hn. eexists. split; [done|]. intros s' [= <-].
    cbn in Hnd. apply NoDup_cons in Hnd as [Htn Hnd].
    exists pre, dl, dv, suf, []. split; cbn; try done.
    + by apply chain_delete_fresh.
    + rewrite dom_delete_L, Hd. cbn. fold ns. clearbody ns. set_solver.
  - destruct Hp as [Hp ->]. eexists. split; [done|]. intros s' [= <-].
    exists pre, dl, dv, suf, []. split; cbn; try done. lia.
Qed.

Lemma spsc_step_good input s s' : spsc_good input s -> spsc_step s s' -> spsc_good input s'.
Proof.
  intros Hg Hst. inversion Hst as [l junk s0 s1 Hl Hs|s0 s1 Hs]; subst s0 s1.
  - destruct (prod_step_good input l junk s Hg Hl) as (o & Ho & Hnext).
    apply Hnext. congruence.
  - destruct (cons_step_good input s Hg) as (o & Ho & Hnext).
    apply Hnext. congruence.
Qed.

Lemma spsc_reachable_good input l dummy s :
  rtc spsc_step (spsc_init l dummy input) s -> spsc_good input s.
Proof.
  intros Hr. cut (forall s0, spsc_good input s0 -> rtc spsc_step s0 s -> spsc_good input s).
  { intros H. eapply H; [|exact Hr]. apply spsc_init_good. }
  clear. intros s0 Hg Hr. induction Hr; [done|]. by eauto using spsc_step_good.
Qed.

Lemma spsc_good_no_fault input s : spsc_good input s -> ~ spsc_faulty s.
Proof.
  intros Hg [(l & junk & e & Hl & He)|(e & He)].
  - destruct (prod_step_good input l junk s Hg Hl) as (o & Ho & _). congruence.
  - destruct (cons_step_good input s Hg) as (o & Ho & _). congruence.
Qed.

(** ** Termination and delivery *)

(** Every step makes this smaller. *)
Definition prod_rank (p : prod_pc) : nat :=
  match p with
  | PIdle => 0 | PVal _ _ => 15 | PNext _ => 14 | PLink _ => 13 | PLast _ => 12
  | PTrim => 11 | PTrimRm _ => 10 | PTrimReset _ => 9 | PTrimFree _ => 8 | PPost => 7
  end.

Definition cons_rank (c : cons_pc) : nat :=
  match c with
  | CWait => 0 | CTest => 5 | CDeref _ => 4 | CNext => 3 | CSetD _ => 2 | CVal => 1 | CEmpty => 1
  end.

Definition spsc_measure (s : spsc_st) : nat :=
  20 * length (sp_todo s) + prod_rank (sp_prod s) + 4 * size (sp_heap s) +
  6 * sp_sem s + cons_rank (sp_cons s).

Lemma cons_step_measure s s' : cons_step s = Ok (Some s') -> spsc_measure s' < spsc_measure s.
Proof.
  destruct s as [h f la d sem p todo c out]. unfold spsc_measure.
  destruct c as [| |r| |q| |]; cbn -[Nat.mul]; intros Hs; inv_ok; cbn -[Nat.mul]; try lia.
  - destruct sem; inv_ok; cbn -[Nat.mul]; lia.
  - case_decide; cbn -[Nat.mul]; lia.
Qed.

Lemma prod_step_measure l junk s s' :
  sp_heap s !! l = None -> sp_prod s ≠ PTrimFree None ->
  prod_step l junk s = Ok (Some s') -> spsc_measure s' < spsc_measure s.
Proof.
  destruct s as [h f la d sem p todo c out]. unfold spsc_measure. cbn [sp_heap sp_prod].
  intros Hl Hp Hs.
  assert (Hins : forall k n m, h !! k = Some n -> size (<[k := m]> h) = size h).
  { intros k n m Hk. rewrite map_size_insert_Some; eauto. }
  destruct p as [|np v|np|np|np| |t|t|[t|]|]; cbn -[Nat.mul] in Hs; inv_ok; cbn -[Nat.mul]; try lia.
  - destruct todo; inv_ok. cbn -[Nat.mul]. rewrite map_size_insert_None by done. lia.
  - apply from_option_fault_Ok in H. erewrite Hins by done. lia.
  - apply from_option_fault_Ok in H. erewrite Hins by done. lia.
  - destruct la; inv_ok; cbn -[Nat.mul]; [lia|].
    apply from_option_fault_Ok in H. erewrite Hins by done. lia.
  - case_decide; cbn -[Nat.mul]; lia.
  - destruct (nd_next _); cbn -[Nat.mul]; lia.
  - apply from_option_fault_Ok in H. rewrite map_size_delete, H. cbn.
    assert (size h ≠ 0) by (apply map_size_ne_0_lookup; eauto). lia.
  - done.
Qed.

Lemma spsc_step_measure input s s' :
  spsc_good input s -> spsc_step s s' -> spsc_measure s' < spsc_measure s.
Proof.
  intros Hg Hst. inversion Hst as [l junk s0 s1 Hl Hs|s0 s1 Hs]; subst s0 s1.
  - eapply prod_step_measure; [done| |done].
    destruct Hg as (pre & dl & dv & suf & infl & [_ _ _ _ Hp _ _ _]).
    intros Heq. unfold prod_ok in Hp. rewrite Heq in Hp. by destruct Hp as (_ & _ & ?).
  - by apply cons_step_measure.
Qed.

(** Nothing can run only when every value has been delivered. *)
Lemma spsc_stuck_delivered input s :
  spsc_good input s -> ~ (exists s', spsc_step s s') ->
  sp_out s = input /\ sp_todo s = [] /\ sp_sem s = 0 /\ sp_prod s = PIdle /\ sp_cons s = CWait.
Proof.
  intros Hg Hstuck.
  destruct (prod_step_good input (fresh (dom (sp_heap s))) (Node 0 None) s Hg) as ([s'|] & Hp & _).
  { apply not_elem_of_dom, is_fresh. }
  { destruct Hstuck. exists s'. eapply step_prod; [|done]. apply not_elem_of_dom, is_fresh. }
  destruct (cons_step_good input s Hg) as ([s'|] & Hc & _).
  { destruct Hstuck. exists s'. by apply step_cons. }
  destruct Hg as (pre & dl & dv & suf & infl & [_ _ _ _ Hpo _ Hct Hv]).
  destruct s as [h f la d sem p todo c out].
  destruct c, sem; cbn in Hc; inv_ok. clear Hc.
  destruct p as [|np v|np|np|np| |t|t|t|]; cbn -[ld] in Hp; inv_ok; try done.
  - destruct todo; [|done]. cbn in *. destruct Hpo as [_ ->].
    destruct suf; [|cbn in Hct; lia]. cbn in Hv. by rewrite !app_nil_r in Hv.
  - destruct la; inv_ok; done.
  - destruct t; inv_ok; done.
Qed.

(** A schedule: which thread runs, and the address [malloc] returns. *)
Inductive turn := TProd (l : loc) | TCons.

Fixpoint run_sched (ts : list turn) (s : spsc_st) : option spsc_st :=
  match ts with
  | [] => Some s
  | TProd l :: ts =>
      match sp_heap s !! l, prod_step l (Node 99 (Some l)) s with
      | None, Ok (Some s') => run_sched ts s'
      | _, _ => None
      end
  | TCons :: ts =>
      match cons_step s with Ok (Some s') => run_sched ts s' | _ => None end
  end.

Lemma run_sched_rtc ts s s' : run_sched ts s = Some s' -> rtc spsc_step s s'.
Proof.
  revert s. induction ts as [|[l|] ts IH]; cbn; intros s Hs.
  - simplify_eq. done.
  - destruct (sp_heap s !! l) eqn:Hl; [done|].
    destruct (prod_step l (Node 99 (Some l)) s) as [[s1|]|] eqn:Hp; try done.
    eapply rtc_l; [by eapply step_prod|]. by apply IH.
  - destruct (cons_step s) as [[s1|]|] eqn:Hc; try done.
    eapply rtc_l; [by apply step_cons|]. by apply IH.
Qed.

(** ** Properties *)

(** C17: Under every interleaving of the main thread and a worker, with any addresses
    and any contents returned by [malloc]: no step dereferences NULL or freed
    memory or frees twice; the worker never takes the branch that reports an empty
    queue; what it has taken out is a prefix of what was put in, in order; and the
    node store holds exactly the linked nodes and the one node in the producer's
    hands, so no node is leaked. *)
Theorem spsc_concurrent_safe l dummy input s
    (Hs : rtc spsc_step (spsc_init l dummy input) s) :
  ~ spsc_faulty s /\ sp_cons s ≠ CEmpty /\ sp_out s `prefix_of` input /\
  exists ns, chain (sp_heap s) (sp_first s) ns None /\
    dom (sp_heap s) = list_to_set (unlinked (sp_prod s) ++ ns.*1).
Proof.
  apply spsc_reachable_good in Hs. split; [by eapply spsc_good_no_fault|].
  destruct Hs as (pre & dl & dv & suf & infl & [Hc _ Hd _ _ Hco _ Hv]).
  split; [by intros Heq; rewrite Heq in Hco|].
  split; [rewrite Hv; by apply prefix_app_r|]. eauto.
Qed.

(** Two values; the consumer overtakes the producer's trim loop. *)
Definition demo_sched : list turn :=
  TProd 2 :: replicate 6 (TProd 9) ++ replicate 6 TCons ++ TProd 3 :: replicate 5 (TProd 9).

Lemma spsc_concurrent_safe_witness :
  exists s, run_sched demo_sched (spsc_init 1 0 [5; 6]%Z) = Some s /\ sp_out s = [5]%Z /\
    ~ spsc_faulty s.
Proof.
  eexists. split; [vm_compute; reflexivity|]. split; [reflexivity|].
  refine (proj1 (spsc_concurrent_safe 1 0 [5; 6]%Z _ _)).
  apply (run_sched_rtc demo_sched). vm_compute. reflexivity.
Defined.

(** C29: No execution is infinite, and one that can go no further has delivered every
    value: the worker has taken out exactly what was put in and both threads are
    between two calls. *)
Theorem spsc_concurrent_delivers l dummy input s
    (Hs : rtc spsc_step (spsc_init l dummy input) s) :
  (forall k s', nsteps spsc_step k s s' -> k <= spsc_measure s) /\
  (~ (exists s', spsc_step s s') ->
   sp_out s = input /\ sp_sem s = 0 /\ sp_prod s = PIdle /\ sp_cons s = CWait).
Proof.
  apply spsc_reachable_good in Hs. split.
  - intros k. revert s Hs. induction k as [|k IH]; intros s Hs s' Hk; [lia|].
    inversion Hk as [|? ? s1 ? Hst Hk']; subst.
    pose proof (spsc_step_measure _ _ _ Hs Hst).
    specialize (IH s1 (spsc_step_good _ _ _ Hs Hst) s' Hk'). lia.
  - intros Hstuck. destruct (spsc_stuck_delivered input s Hs Hstuck) as (? & _ & ?). done.
Qed.

Lemma spsc_concurrent_delivers_witness :
  exists s, run_sched (demo_sched ++ replicate 4 (TProd 9) ++ replicate 6 TCons)
              (spsc_init 1 0 [5; 6]%Z) = Some s /\
    (~ (exists s', spsc_step s s') ->
     sp_out s = [5; 6]%Z /\ sp_sem s = 0 /\ sp_prod s = PIdle /\ sp_cons s = CWait).
Proof.
  eexists. split; [vm_compute; reflexivity|].
  refine (proj2 (spsc_concurrent_delivers 1 0 [5; 6]%Z _ _)).
  apply (run_sched_rtc (demo_sched ++ replicate 4 (TProd 9) ++ replicate 6 TCons)).
  vm_compute. reflexivity.
Defined.
