(* ===== verification/Lfq.v ===== *)
(** * The queue of src/lfq.c and the stack of src/stack.c

    [lfq_*] is the first version of the worker queue: a linked list with a
    dummy node, where taking out only advances [divider] and putting in trims the
    nodes before it.  [stack_*] is a linked stack. *)
From S2P Require Import Prelude NodeHeap Fifo.

(** ** struct lfq *)
Record lfq := Lfq { lq_first : option loc; lq_divider : option loc; lq_last : option loc }.

Section lfq_c.
Variable junk : node.

Definition lfq_node_new {X} (value : Z) : st (heap * X) loc :=
  l ← h_malloc junk;
  _ ← h_store_val (Some l) value;
  _ ← h_store_next (Some l) None;
  mret l.

Definition lfq_node_delete {X} (n : option loc) : st (heap * X) unit := h_free n.

Definition lfq_new : st (heap * lfq) unit :=
  l ← lfq_node_new NULLV;
  x_put (Lfq (Some l) (Some l) (Some l)).

(** [DO_FREE(q)] is the end of the structure: what is left is the store. *)
Fixpoint lfq_delete_loop (fuel : nat) : st (heap * lfq) unit :=
  match fuel with
  | O => raiseS NoFuel
  | S fuel =>
      q ← x_get;
      match lq_first q with
      | None => mret tt
      | Some tmp =>
          n ← h_load (Some tmp);
          _ ← x_put (Lfq (nd_next n) (lq_divider q) (lq_last q));
          _ ← h_free (Some tmp);
          lfq_delete_loop fuel
      end
  end.

Definition lfq_delete : st (heap * lfq) unit := fun s => lfq_delete_loop (S (size s.1)) s.

Fixpoint lfq_trim_loop (fuel : nat) : st (heap * lfq) unit :=
  match fuel with
  | O => raiseS NoFuel
  | S fuel =>
      q ← x_get;
      if decide (lq_first q = lq_divider q) then mret tt
      else (n ← h_load (lq_first q);
            _ ← x_put (Lfq (nd_next n) (lq_divider q) (lq_last q));
            _ ← h_free (lq_first q);
            lfq_trim_loop fuel)
  end.

Definition lfq_trim : st (heap * lfq) unit := fun s => lfq_trim_loop (S (size s.1)) s.

Definition lfq_in (value : Z) : st (heap * lfq) unit :=
  l ← lfq_node_new value;
  q ← x_get;
  _ ← h_store_next (lq_last q) (Some l);
  n ← h_load (lq_last q);
  _ ← x_put (Lfq (lq_first q) (lq_divider q) (nd_next n));
  lfq_trim.

Definition lfq_out : st (heap * lfq) Z :=
  q ← x_get;
  if decide (lq_divider q = lq_last q) then mret NULLV
  else (d ← h_load (lq_divider q);
        n ← h_load (nd_next d);
        _ ← x_put (Lfq (lq_first q) (nd_next d) (lq_last q));
        mret (nd_val n)).

Definition lfq_is_empty : st (heap * lfq) bool :=
  q ← x_get; mret (bool_decide (lq_divider q = lq_last q)).
End lfq_c.

(** Consumed nodes, the divider, the content; [last] is the last node. *)
Definition lfq_rep (s : heap * lfq) (vs : list Z) : Prop :=
  exists pre dl dv suf,
    chain s.1 (lq_first s.2) (pre ++ (dl, dv) :: suf) None /\
    owns s.1 (pre ++ (dl, dv) :: suf) /\
    lq_divider s.2 = Some dl /\
    lq_last s.2 = fst <$> last ((dl, dv) :: suf) /\ suf.*2 = vs.

Ltac lx :=
  unfold h_store_next, h_store_val, h_malloc, h_load, h_store, h_free, x_get, x_put,
    mbind, st_bind, mret, st_ret;
  repeat (progress (cbn; simplify_map_eq)).

Section lfq_ok.
Variable junk : node.

Definition lfq_ops : fifo_ops (heap * lfq) := FifoOps (lfq_in junk) lfq_out.

Lemma lfq_node_new_ok {X} v h (x : X) :
  lfq_node_new junk v (h, x) =
    Ok (fresh (dom h), (<[fresh (dom h) := Node v None]> h, x)).
Proof. unfold lfq_node_new. lx. by rewrite !insert_insert_eq. Qed.

Lemma lfq_new_ok x : exists s, lfq_new junk (∅, x) = Ok (tt, s) /\ lfq_rep s [].
Proof.
  unfold lfq_new. erewrite st_bind_run; [|apply lfq_node_new_ok]. set (l := fresh _).
  eexists. split; [by lx|]. exists [], l, NULLV, []. cbn. split.
  - split; [done|]. exists None. by rewrite lookup_insert_eq.
  - split; [|done]. apply (owns_insert ∅ [] []); [set_solver|by apply owns_nil].
Qed.

(** The divider is the last node exactly when the queue is empty. *)
Lemma divider_last dl dv (suf : list (loc * Z)) :
  NoDup ((dl, dv) :: suf).*1 ->
  Some dl = fst <$> last ((dl, dv) :: suf) <-> suf = [].
Proof.
  intros [Hdl _]%NoDup_cons. split; [|by intros ->].
  destruct suf as [|n suf]; [done|]. rewrite last_cons_cons.
  destruct (last (n :: suf)) as [m|] eqn:Hm; [|by rewrite last_None in Hm].
  intros [= ->]. destruct Hdl. apply last_Some_elem_of in Hm.
  exact (list_elem_of_fmap_2 fst _ _ Hm).
Qed.

Lemma lfq_trim_ok fuel h f la pre dl dv suf :
  chain h f (pre ++ (dl, dv) :: suf) None -> owns h (pre ++ (dl, dv) :: suf) ->
  length pre < fuel ->
  exists h', lfq_trim_loop fuel (h, Lfq f (Some dl) la) = Ok (tt, (h', Lfq (Some dl) (Some dl) la)) /\
    chain h' (Some dl) ((dl, dv) :: suf) None /\ owns h' ((dl, dv) :: suf).
Proof.
  revert h f pre. induction fuel as [|fuel IH]; intros h f pre Hc Ho Hlen; [lia|].
  cbn [lfq_trim_loop]. destruct pre as [|[l v] pre].
  - exists h. pose proof Hc as (-> & _). split; [|done].
    erewrite st_bind_run; [|by lx]. cbn. by rewrite decide_True.
  - destruct Hc as (-> & nx & Hl & Hc). pose proof Ho as [Hnd _].
    cbn in Hnd. apply NoDup_cons in Hnd as [Hln Hnd].
    assert (l ≠ dl) by (intros ->; apply Hln; rewrite fmap_app; set_solver).
    destruct (IH (delete l h) nx pre) as (h' & IH' & Hrest).
    { by apply chain_delete_fresh. }
    { by eapply owns_delete. }
    { cbn in Hlen. lia. }
    exists h'. split; [|done]. erewrite st_bind_run; [|by lx]. cbn.
    rewrite decide_False by congruence. do 3 (erewrite st_bind_run; [|by lx]). exact IH'.
Qed.

Lemma lfq_in_ok s vs v :
  lfq_rep s vs -> exists s', lfq_in junk v s = Ok (tt, s') /\ lfq_rep s' (vs ++ [v]).
Proof.
  destruct s as [h [f d la]]. intros (pre & dl & dv & suf & Hc & Ho & Hd & Hla & <-).
  cbn [fst snd lq_first lq_divider lq_last] in *. subst d la.
  pose proof (owns_fresh _ _ Ho) as Hf. set (l := fresh (dom h)) in *.
  destruct (exists_last (l := (dl, dv) :: suf)) as (ns & [k w] & Hns); [done|].
  rewrite Hns, last_snoc. cbn [fmap option_fmap option_map fst].
  rewrite Hns in Hc, Ho, Hf. rewrite app_assoc in Hc, Ho, Hf.
  apply chain_app in Hc as (m & Hc & -> & nx & Hk & ->).
  assert (l ≠ k) by (rewrite fmap_app in Hf; set_solver).
  set (h1 := <[k := Node w (Some l)]> (<[l := Node v None]> h)).
  assert (Hc1 : chain h1 f (pre ++ (dl, dv) :: suf ++ [(l, v)]) None).
  { rewrite app_comm_cons, Hns, !app_assoc. apply chain_app. exists (Some l). split.
    - apply chain_snoc_relink; [apply Ho|]. apply chain_insert_fresh; [|done].
      rewrite fmap_app in Hf. set_solver.
    - cbn. split; [done|]. exists None. unfold h1. by simplify_map_eq. }
  assert (Ho1 : owns h1 (pre ++ (dl, dv) :: suf ++ [(l, v)])).
  { rewrite app_comm_cons, Hns, !app_assoc. apply owns_update.
    - rewrite !fmap_app. set_solver.
    - apply owns_insert; by rewrite app_nil_r. }
  destruct (lfq_trim_ok (S (size h1)) h1 f (Some l) pre dl dv _ Hc1 Ho1) as (h2 & Htrim & Hc2 & Ho2).
  { destruct Ho1 as [Hnd Hdom]. rewrite <- size_dom, Hdom, size_list_to_set, length_fmap, length_app
      by done. lia. }
  exists (h2, Lfq (Some dl) (Some dl) (Some l)). split.
  - unfold lfq_in. erewrite st_bind_run; [|apply lfq_node_new_ok]. fold l.
    do 4 (erewrite st_bind_run; [|by lx]). exact Htrim.
  - exists [], dl, dv, (suf ++ [(l, v)]). do 3 (split; [done|]). cbn [snd lq_last].
    rewrite app_comm_cons, last_snoc, fmap_snoc. done.
Qed.

Lemma lfq_out_ok s vs :
  lfq_rep s vs -> exists s', lfq_out s = Ok (hd 0%Z vs, s') /\ lfq_rep s' (tail vs).
Proof.
  destruct s as [h [f d la]]. intros (pre & dl & dv & suf & Hc & Ho & Hd & Hla & <-).
  cbn [fst snd lq_first lq_divider lq_last] in *. subst d la.
  assert (Hnd : NoDup ((dl, dv) :: suf).*1).
  { destruct Ho as [Hnd _]. rewrite fmap_app in Hnd. by apply NoDup_app in Hnd as (_ & _ & ?). }
  pose proof Hc as (m & _ & -> & nx & Hdl & Hs)%chain_app.
  destruct suf as [|[l v] suf].
  - exists (h, Lfq f (Some dl) (Some dl)). split; [|by exists pre, dl, dv, []].
    unfold lfq_out. erewrite st_bind_run; [|by lx]. cbn. by rewrite decide_True.
  - destruct Hs as (-> & nx' & Hl & _).
    assert (Hne : Some dl ≠ fst <$> last ((dl, dv) :: (l, v) :: suf))
      by (by rewrite divider_last).
    eexists. split.
    + unfold lfq_out. erewrite st_bind_run; [|by lx]. cbn [lq_divider lq_last].
      rewrite decide_False by exact Hne. by lx.
    + exists (pre ++ [(dl, dv)]), l, v, suf. cbn. rewrite <- app_assoc. done.
Qed.

#[export] Instance lfq_fifo : FifoNull lfq_ops lfq_rep.
Proof.
  split; [split|].
  - apply lfq_in_ok.
  - intros s v vs. apply lfq_out_ok.
  - intros s. apply lfq_out_ok.
Qed.
End lfq_ok.

Section lfq_delete_ok.
Lemma lfq_delete_loop_ok fuel h q ns :
  chain h (lq_first q) ns None -> owns h ns -> length ns < fuel ->
  exists q', lfq_delete_loop fuel (h, q) = Ok (tt, (∅, q')).
Proof.
  revert h q ns. induction fuel as [|fuel IH]; intros h q ns Hc Ho Hlen; [lia|].
  destruct q as [f d la]. destruct ns as [|[l v] ns]; cbn [lfq_delete_loop lq_first] in *.
  - cbn in Hc. subst f. apply owns_nil in Ho as ->. eexists. by lx.
  - destruct Hc as (-> & nx & Hl & Hc). pose proof Ho as [Hnd _].
    cbn in Hnd, Hlen. apply NoDup_cons in Hnd as [Hln _].
    destruct (IH (delete l h) (Lfq nx d la) ns) as (q' & Hrun).
    { by apply chain_delete_fresh. }
    { by eapply owns_delete. }
    { lia. }
    exists q'. erewrite st_bind_run; [|by lx]. cbn [lq_first].
    do 3 (erewrite st_bind_run; [|by lx]). exact Hrun.
Qed.

Lemma lfq_delete_ok s vs : lfq_rep s vs -> exists q', lfq_delete s = Ok (tt, (∅, q')).
Proof.
  destruct s as [h q]. intros (pre & dl & dv & suf & Hc & [Hnd Hd] & _).
  unfold lfq_delete. eapply lfq_delete_loop_ok; [exact Hc|done|].
  cbn [fst] in *. rewrite <- (size_dom h), Hd, size_list_to_set, length_fmap by done. lia.
Qed.

Lemma lfq_is_empty_ok s vs :
  lfq_rep s vs -> lfq_is_empty s = Ok (bool_decide (vs = []), s).
Proof.
  destruct s as [h [f d la]]. intros (pre & dl & dv & suf & Hc & [Hnd _] & Hd & Hla & <-).
  cbn [fst snd lq_divider lq_last] in *. subst d la.
  rewrite fmap_app in Hnd. apply NoDup_app in Hnd as (_ & _ & Hnd).
  unfold lfq_is_empty. erewrite st_bind_run; [|by lx]. cbn [lq_divider lq_last].
  rewrite (bool_decide_ext _ (suf.*2 = [])); [done|].
  rewrite (divider_last dl dv suf Hnd). split; [by intros ->|apply fmap_nil_inv].
Qed.
End lfq_delete_ok.

(** C40: Every sequence of [lfq_in] and [lfq_out] on a new queue answers what an
    abstract FIFO queue answers, NULL from the empty one, without a memory fault;
    [lfq_is_empty] then tells whether the abstract queue is empty and
    [lfq_delete] frees every node. *)
Theorem lfq_refines_fifo (junk : node) x (l : list qop) :
  exists s0 s q', lfq_new junk (∅, x) = Ok (tt, s0) /\
    run_ops (lfq_ops junk) l s0 = Ok ((fifo_null_spec l []).1, s) /\
    lfq_is_empty s = Ok (bool_decide ((fifo_null_spec l []).2 = []), s) /\
    lfq_delete s = Ok (tt, (∅, q')).
Proof.
  destruct (lfq_new_ok junk x) as (s0 & Hnew & Hrep).
  destruct (fifo_null_run (lfq_ops junk) lfq_rep l s0 [] Hrep) as (s & Hrun & Hrep').
  destruct (lfq_delete_ok s _ Hrep') as (q' & Hdel).
  exists s0, s, q'. auto using lfq_is_empty_ok.
Qed.

(** ** stack_t *)
Record stack := Stack { st_top : option loc }.

Section stack_c.
Variable junk : node.

Definition stack_new (h : heap) : heap * stack := (h, Stack None).

Definition stack_in (val : Z) : st (heap * stack) unit :=
  tmp ← h_malloc junk;
  _ ← h_store_val (Some tmp) val;
  s ← x_get;
  _ ← h_store_next (Some tmp) (st_top s);
  x_put (Stack (Some tmp)).

Definition stack_out : st (heap * stack) Z :=
  s ← x_get;
  match st_top s with
  | None => mret NULLV
  | Some tmp =>
      n ← h_load (Some tmp);
      _ ← x_put (Stack (nd_next n));
      n' ← h_load (Some tmp);
      _ ← h_free (Some tmp);
      mret (nd_val n')
  end.

Fixpoint stack_delete_loop (fuel : nat) : st (heap * stack) unit :=
  match fuel with
  | O => raiseS NoFuel
  | S fuel =>
      s ← x_get;
      match st_top s with
      | None => mret tt
      | Some tmp =>
          n ← h_load (Some tmp);
          _ ← x_put (Stack (nd_next n));
          _ ← h_free (Some tmp);
          stack_delete_loop fuel
      end
  end.

Definition stack_delete : st (heap * stack) unit := fun s => stack_delete_loop (S (size s.1)) s.
End stack_c.

Definition stack_rep (s : heap * stack) (vs : list Z) : Prop :=
  exists ns, chain s.1 (st_top s.2) ns None /\ owns s.1 ns /\ ns.*2 = vs.

Section stack_ok.
Variable junk : node.

Lemma stack_in_ok s vs v :
  stack_rep s vs -> exists s', stack_in junk v s = Ok (tt, s') /\ stack_rep s' (v :: vs).
Proof.
  destruct s as [h [f]]. intros (ns & Hc & Ho & <-). cbn in *.
  pose proof (owns_fresh _ _ Ho) as Hl. set (l := fresh (dom h)) in *.
  exists (<[l := Node v f]> h, Stack (Some l)). split.
  - unfold stack_in. erewrite st_bind_run; [|done]. fold l. lx. by rewrite !insert_insert_eq.
  - exists ((l, v) :: ns). cbn. split.
    + split; [done|]. exists f. rewrite lookup_insert_eq. auto with ayub.
    + split; [|done]. by apply (owns_insert h [] ns).
Qed.

Lemma stack_out_ok s vs :
  stack_rep s vs -> exists s', stack_out s = Ok (hd 0%Z vs, s') /\ stack_rep s' (tail vs).
Proof.
  destruct s as [h [f]]. intros ([|[l v] ns] & Hc & Ho & <-); cbn in *.
  - subst f. eexists. split; [by lx|]. by exists [].
  - destruct Hc as (-> & nx & Hl & Hc). pose proof Ho as [Hnd _].
    cbn in Hnd. apply NoDup_cons in Hnd as [Hln _].
    exists (delete l h, Stack nx). split; [unfold stack_out; by lx|].
    exists ns. cbn. split; [auto with ayub|]. split; [by eapply owns_delete|done].
Qed.

Lemma stack_delete_loop_ok fuel h f ns :
  chain h f ns None -> owns h ns -> length ns < fuel ->
  stack_delete_loop fuel (h, Stack f) = Ok (tt, (∅, Stack None)).
Proof.
  revert h f ns. induction fuel as [|fuel IH]; intros h f ns Hc Ho Hlen; [lia|].
  destruct ns as [|[l v] ns]; cbn [stack_delete_loop].
  - cbn in Hc. subst f. apply owns_nil in Ho as ->. by lx.
  - destruct Hc as (-> & nx & Hl & Hc). pose proof Ho as [Hnd _].
    cbn in Hnd, Hlen. apply NoDup_cons in Hnd as [Hln _].
    erewrite st_bind_run; [|by lx]. cbn [st_top]. do 3 (erewrite st_bind_run; [|by lx]).
    apply (IH _ _ ns); [by apply chain_delete_fresh|by eapply owns_delete|lia].
Qed.
End stack_ok.

(** A stack that holds [vs], newest first: [stack_in] pushes, [stack_out] pops
    (NULL from the empty stack), [stack_delete] frees every node. *)
Theorem stack_correct (junk : node) s vs v (Hs : stack_rep s vs) :
  (exists s', stack_in junk v s = Ok (tt, s') /\ stack_rep s' (v :: vs)) /\
  (exists s', stack_out s = Ok (hd 0%Z vs, s') /\ stack_rep s' (tail vs)) /\
  stack_delete s = Ok (tt, (∅, Stack None)).
Proof.
  split; [by apply stack_in_ok|]. split; [by apply stack_out_ok|].
  destruct s as [h [f]]. destruct Hs as (ns & Hc & Ho & _). cbn [fst snd] in *.
  unfold stack_delete. eapply stack_delete_loop_ok; [exact Hc|done|].
  destruct Ho as [Hnd Hd]. cbn [fst].
  rewrite <- size_dom, Hd, size_list_to_set, length_fmap by done. lia.
Qed.

Lemma stack_correct_witness :
  (exists s', stack_in (Node 7 None) 3 (stack_new ∅) = Ok (tt, s') /\ stack_rep s' [3]%Z) /\
  (exists s', stack_out (stack_new ∅) = Ok (0%Z, s') /\ stack_rep s' []) /\
  stack_delete (stack_new ∅) = Ok (tt, (∅, Stack None)).
Proof.
  apply (stack_correct (Node 7 None) (stack_new ∅) [] 3).
  exists []. split; [reflexivity|]. split; [by apply owns_nil|reflexivity].
Defined.
