(* ===== verification/CLib.v ===== *)
(** * C data

    Bytes, NUL-terminated strings and machine integers, and the library
    functions of C the program calls on them. A [char] is a [Z] in [0, 256); a
    buffer is a [list Z] of fixed length and a store outside it is a fault. *)
From S2P Require Import Prelude.

Abbreviation bytes := (list Z) (only parsing).

#[local] Open Scope Z_scope.

(** The bytes of a string literal, without its NUL. *)
Fixpoint str (s : string) : bytes :=
  match s with
  | EmptyString => []
  | String a s => Z.of_N (Ascii.N_of_ascii a) :: str s
  end.

(** [strlen]: the bytes before the first NUL; [None] if there is none. *)
Fixpoint strlen (l : bytes) : option nat :=
  match l with
  | [] => None
  | b :: l => if decide (b = 0) then Some O else S <$> strlen l
  end.

(** The string a buffer holds. *)
Fixpoint cstring (l : bytes) : bytes :=
  match l with
  | [] => []
  | b :: l => if decide (b = 0) then [] else b :: cstring l
  end.

(** [memcpy(buf + off, src, length src)] into a buffer. *)
Definition buf_write (buf : bytes) (off : nat) (src : bytes) : result bytes :=
  if decide (off + length src <= length buf)%nat
  then Ok (take off buf ++ src ++ drop (off + length src) buf)
  else Fault OutOfBounds.

(** [buf[off .. off+n)] *)
Definition buf_read (buf : bytes) (off n : nat) : result bytes :=
  if decide (off + n <= length buf)%nat then Ok (take n (drop off buf)) else Fault OutOfBounds.

(** ** Machine integers *)
Definition u32 (z : Z) : Z := z mod 2 ^ 32.
Definition u64 (z : Z) : Z := z mod 2 ^ 64.
Definition i32 (z : Z) : Z := (z + 2 ^ 31) mod 2 ^ 32 - 2 ^ 31.

Lemma i32_small z : - 2 ^ 31 <= z < 2 ^ 31 -> i32 z = z.
Proof. intros Hz. unfold i32. rewrite Z.mod_small by lia. lia. Qed.

Lemma u64_small z : 0 <= z < 2 ^ 64 -> u64 z = z.
Proof. intros Hz. unfold u64. by rewrite Z.mod_small. Qed.

Lemma u32_small z : 0 <= z < 2 ^ 32 -> u32 z = z.
Proof. intros Hz. unfold u32. by rewrite Z.mod_small. Qed.

(** Decimal digits, as printf writes [%d] and [%ld]. *)
Fixpoint digits (fuel : nat) (z : Z) (acc : bytes) : bytes :=
  match fuel with
  | O => acc
  | S fuel =>
      let acc := 48 + z mod 10 :: acc in
      if decide (z < 10) then acc else digits fuel (z / 10) acc
  end.

Definition print_dec (z : Z) : bytes :=
  if decide (z < 0) then 45 :: digits 20 (- z) [] else digits 20 z [].

(** ** Lemmas *)
Lemma buf_write_length buf off src buf' :
  buf_write buf off src = Ok buf' -> length buf' = length buf.
Proof.
  unfold buf_write. case_decide as Hlen; intros [= <-].
  rewrite !length_app, length_take, length_drop. lia.
Qed.

Lemma buf_write_ok buf off src :
  (off + length src <= length buf)%nat ->
  buf_write buf off src = Ok (take off buf ++ src ++ drop (off + length src) buf).
Proof. intros H. unfold buf_write. by rewrite decide_True. Qed.

Lemma buf_read_ok buf off n :
  (off + n <= length buf)%nat -> buf_read buf off n = Ok (take n (drop off buf)).
Proof. intros H. unfold buf_read. by rewrite decide_True. Qed.

Lemma cstring_app_nul s l : 0 ∉ s -> cstring (s ++ 0 :: l) = s.
Proof.
  induction s as [|b s IH]; cbn; intros Hs.
  - by rewrite decide_True.
  - rewrite decide_False by set_solver. by rewrite IH by set_solver.
Qed.

Lemma cstring_no_nul l : 0 ∉ cstring l.
Proof.
  induction l as [|b l IH]; cbn; [set_solver|]. case_decide; set_solver.
Qed.

Lemma cstring_length l : (length (cstring l) <= length l)%nat.
Proof. induction l as [|b l IH]; cbn; [lia|]. case_decide; cbn; lia. Qed.

Lemma strlen_cstring l n : strlen l = Some n -> cstring l = take n l /\ n = length (cstring l).
Proof.
  revert n. induction l as [|b l IH]; intros n; cbn; [done|].
  case_decide as Hb; [by intros [= <-]|].
  intros Hm. apply fmap_Some in Hm as (m & Hm & Hn). subst n.
  destruct (IH m Hm) as [Ht Hl]. split; cbn; congruence.
Qed.

Lemma digits_length fuel z acc :
  (length acc <= length (digits fuel z acc) <= length acc + fuel)%nat.
Proof.
  revert z acc. induction fuel as [|fuel IH]; intros z acc; cbn; [lia|].
  case_decide; cbn; [lia|]. specialize (IH (z / 10) (48 + z mod 10 :: acc)). cbn in IH. lia.
Qed.

Lemma print_dec_length z : (length (print_dec z) <= 21)%nat.
Proof.
  unfold print_dec. case_decide; cbn [length].
  - pose proof (digits_length 20 (- z) []). cbn [length] in *. lia.
  - pose proof (digits_length 20 z []). cbn [length] in *. lia.
Qed.
