(* ===== verification/Word.v ===== *)
(** * 32-bit words

    The operations of C on [unsigned] and [ub4] stay in the range of a word. *)
From S2P Require Import Prelude CLib.
From Stdlib Require Import Znumtheory Zpow_facts.

#[local] Open Scope Z_scope.

Definition word32 (z : Z) : Prop := 0 <= z < 2 ^ 32.
Definition sub32 (a b : Z) : Z := u32 (a - b).
Definition add32 (a b : Z) : Z := u32 (a + b).
Definition mul32 (a b : Z) : Z := u32 (a * b).
Definition shl32 (a n : Z) : Z := u32 (Z.shiftl a n).

Lemma u32_word z : word32 (u32 z).
Proof. apply Z.mod_pos_bound. lia. Qed.

(** A power of two bounds the exclusive or. *)
Lemma lxor_bound n a b : 0 <= n -> 0 <= a < 2 ^ n -> 0 <= b < 2 ^ n -> 0 <= Z.lxor a b < 2 ^ n.
Proof.
  intros Hn [Ha Ha'] [Hb Hb']. split; [by apply Z.lxor_nonneg|]. destruct (decide (Z.lxor a b = 0)) as [->|Hne]; [apply Z.pow_pos_nonneg; lia|].
  pose proof (proj2 (Z.lxor_nonneg a b)). apply Z.log2_lt_pow2; [lia|].
  assert (Hl : forall z, 0 <= z < 2 ^ n -> z = 0 \/ Z.log2 z < n).
  { intros z Hz. destruct (decide (z = 0)) as [->|]; [by left|]. right. apply Z.log2_lt_pow2; lia. }
  assert (Hz : n = 0 -> Z.lxor a b = 0) by (intros ->; replace a with 0 by lia; replace b with 0 by lia; done).
  pose proof (Z.log2_lxor a b Ha Hb). destruct (Hl a) as [->|?], (Hl b) as [->|?]; try lia; change (Z.log2 0) with 0 in *; lia.
Qed.

Lemma lxor_word a b : word32 a -> word32 b -> word32 (Z.lxor a b).
Proof. by apply lxor_bound. Qed.

Lemma shiftr_bound n a k : 0 <= a < n -> 0 <= k -> 0 <= Z.shiftr a k < n.
Proof.
  intros Ha Hk. rewrite Z.shiftr_div_pow2 by lia. assert (0 < 2 ^ k) by (apply Z.pow_pos_nonneg; lia). split; [apply Z.div_pos; lia|].
  apply Z.div_lt_upper_bound; nia.
Qed.

Lemma shiftr_word a n : word32 a -> 0 <= n -> word32 (Z.shiftr a n).
Proof. apply shiftr_bound. Qed.

(** Shifting and adding, or shifting and exclusive or, lose nothing. *)
Lemma lxor_shiftr_inj x y k : 0 <= x -> 0 <= y -> 0 < k -> Z.lxor x (Z.shiftr x k) = Z.lxor y (Z.shiftr y k) -> x = y.
Proof.
  intros Hx Hy Hk Heq. apply Z.lxor_eq. set (d := Z.lxor x y).
  assert (Hd : d = Z.shiftr d k).
  { unfold d. rewrite Z.shiftr_lxor. rewrite <- (Z.lxor_0_r (Z.lxor (Z.shiftr x k) _)), <- (Z.lxor_nilpotent (Z.lxor x (Z.shiftr x k))).
    rewrite Heq at 2. apply Z.bits_inj'. intros i Hi. rewrite !Z.lxor_spec.
    destruct (Z.testbit x i), (Z.testbit y i), (Z.testbit (Z.shiftr x k) i), (Z.testbit (Z.shiftr y k) i); done. }
  assert (Hd0 : 0 <= d) by by apply Z.lxor_nonneg.
  rewrite Z.shiftr_div_pow2 in Hd by lia. pose proof (Z.pow_gt_1 2 k). destruct (decide (d = 0)); [done|].
  pose proof (Z.div_lt d (2 ^ k)). lia.
Qed.

Lemma add_shiftl_inj n x y k : 0 <= n -> 0 < k -> 0 <= x < 2 ^ n -> 0 <= y < 2 ^ n -> (x + Z.shiftl x k) mod 2 ^ n = (y + Z.shiftl y k) mod 2 ^ n -> x = y.
Proof.
  intros Hn Hk Hx Hy Heq. assert (Hpos : 0 < 2 ^ n) by (apply Z.pow_pos_nonneg; lia).
  rewrite !Z.shiftl_mul_pow2 in Heq by lia.
  assert (Hdiv : (2 ^ n | (1 + 2 ^ k) * (x - y))).
  { exists ((x + x * 2 ^ k) / 2 ^ n - (y + y * 2 ^ k) / 2 ^ n).
    pose proof (Z.div_mod (x + x * 2 ^ k) (2 ^ n)). pose proof (Z.div_mod (y + y * 2 ^ k) (2 ^ n)). nia. }
  apply Z.gauss in Hdiv as [q Hq]; [assert (q = 0) as -> by nia; lia|].
  apply Zgcd_1_rel_prime, rel_prime_sym, rel_prime_Zpower_r; [lia|]. apply Zgcd_1_rel_prime.
  replace (1 + 2 ^ k) with (1 + 2 ^ (k - 1) * 2) by (replace k with (Z.succ (k - 1)) at 2 by lia; rewrite Z.pow_succ_r by lia; lia).
  rewrite Z.gcd_comm, Z.gcd_add_mult_diag_r. done.
Qed.

(** The [x] highest bits. *)
Lemma shiftr_top h x : word32 h -> 0 <= x <= 32 -> 0 <= Z.shiftr h (32 - x) < 2 ^ x.
Proof.
  intros [H0 Hh] Hx. rewrite Z.shiftr_div_pow2 by lia. assert (0 < 2 ^ (32 - x)) by (apply Z.pow_pos_nonneg; lia). split; [by apply Z.div_pos|].
  apply Z.div_lt_upper_bound; [lia|]. rewrite <- Z.pow_add_r by lia. by replace (32 - x + x) with 32 by lia.
Qed.
