(* ===== verification/Bytes.v ===== *)
(** * Integers in memory

    Little- and big-endian integers as bytes, and reads and writes of a buffer at
    the boundary of its parts. *)
From S2P Require Import Prelude CLib.

#[local] Open Scope Z_scope.

Definition is_byte (b : Z) : Prop := 0 <= b < 256.

(** [n] bytes of [z], least significant first. *)
Fixpoint le_enc (n : nat) (z : Z) : bytes :=
  match n with
  | O => []
  | S n => z mod 256 :: le_enc n (z / 256)
  end.

Fixpoint le_get (l : bytes) : Z :=
  match l with
  | [] => 0
  | b :: l => b + 256 * le_get l
  end.

(** [htobe64], [htobe32] as they are written to a file. *)
Definition be_enc (n : nat) (z : Z) : bytes := reverse (le_enc n z).
Definition be_get (l : bytes) : Z := le_get (reverse l).

(** [*s] of a [char *] *)
Definition byte_at (buf : bytes) (s : nat) : result Z := from_option_fault OutOfBounds (buf !! s).

Lemma le_enc_length n z : length (le_enc n z) = n.
Proof. revert z. induction n as [|n IH]; intros z; cbn; [done|]. by rewrite IH. Qed.

Lemma le_enc_bytes n z : Forall is_byte (le_enc n z).
Proof.
  revert z. induction n as [|n IH]; intros z; cbn; constructor; [|apply IH].
  apply Z.mod_pos_bound. lia.
Qed.

Lemma le_get_enc n z : le_get (le_enc n z) = z mod 256 ^ Z.of_nat n.
Proof.
  revert z. induction n as [|n IH]; intros z.
  - cbn. by rewrite Z.mod_1_r.
  - cbn [le_enc le_get]. rewrite IH, Nat2Z.inj_succ, Z.pow_succ_r by lia.
    rewrite Z.rem_mul_r by lia. done.
Qed.

Lemma le_get_enc_small n z : 0 <= z < 256 ^ Z.of_nat n -> le_get (le_enc n z) = z.
Proof. intros Hz. rewrite le_get_enc. by apply Z.mod_small. Qed.

Lemma le_get_bound l : Forall is_byte l -> 0 <= le_get l < 256 ^ Z.of_nat (length l).
Proof.
  intros Hl. induction Hl as [|b l Hb _ IH]; [done|]. cbn [le_get length].
  rewrite Nat2Z.inj_succ, Z.pow_succ_r by lia. unfold is_byte in Hb. lia.
Qed.

Lemma be_enc_length n z : length (be_enc n z) = n.
Proof. unfold be_enc. by rewrite length_reverse, le_enc_length. Qed.

Lemma be_get_enc_small n z : 0 <= z < 256 ^ Z.of_nat n -> be_get (be_enc n z) = z.
Proof. intros Hz. unfold be_get, be_enc. rewrite reverse_involutive. by apply le_get_enc_small. Qed.

(** ** A buffer in parts *)
Lemma buf_read_mid pre x post o n :
  o = length pre -> n = length x -> buf_read (pre ++ x ++ post) o n = Ok x.
Proof.
  intros -> ->. rewrite buf_read_ok by (rewrite !length_app; lia).
  by rewrite drop_app_length, take_app_length.
Qed.

Lemma buf_write_mid pre x y post o :
  o = length pre -> length y = length x -> buf_write (pre ++ x ++ post) o y = Ok (pre ++ y ++ post).
Proof.
  intros -> Hlen. rewrite buf_write_ok by (rewrite !length_app; lia).
  rewrite take_app_length. f_equal. f_equal. f_equal.
  rewrite drop_app_ge by lia. replace (length pre + length y - length pre)%nat with (length x) by lia.
  by rewrite drop_app_length.
Qed.

Lemma byte_at_mid pre b post o : o = length pre -> byte_at (pre ++ b :: post) o = Ok b.
Proof. intros ->. unfold byte_at. by rewrite list_lookup_middle. Qed.
