(* ===== verification/Murmur.v ===== *)
(** * MurmurHash3

    src/lib/hat-trie/src/murmurhash3.c, the hash of the array hash table, on a
    little-endian machine. *)
From S2P Require Import Prelude CLib Word Bytes.

#[local] Open Scope Z_scope.

(** Rotation of a [uint32_t]. *)
Definition rotl32 (x r : Z) : Z := Z.lor (u32 (Z.shiftl x r)) (Z.shiftr x (32 - r)).

Definition fmix (h : Z) : Z :=
  let h := Z.lxor h (Z.shiftr h 16) in
  let h := mul32 h 0x85ebca6b in
  let h := Z.lxor h (Z.shiftr h 13) in
  let h := mul32 h 0xc2b2ae35 in
  Z.lxor h (Z.shiftr h 16).

Definition c1 : Z := 0xcc9e2d51.
Definition c2 : Z := 0x1b873593.

Definition mix_k (k1 : Z) : Z := mul32 (rotl32 (mul32 k1 c1) 15) c2.

(** The body of the loop on the blocks. *)
Definition mix_block (h1 k1 : Z) : Z :=
  let h1 := Z.lxor h1 (mix_k k1) in
  let h1 := rotl32 h1 13 in
  add32 (mul32 h1 5) 0xe6546b64.

(** [blocks[i]] for [i] from [-nblocks] to -1, [blocks] at the end of the blocks. *)
Fixpoint mix_blocks (nblocks : nat) (data : bytes) (h1 : Z) : Z :=
  match nblocks with
  | O => h1
  | S n => mix_blocks n (drop 4 data) (mix_block h1 (le_get (take 4 data)))
  end.

(** The switch on [len & 3], falling through. *)
Definition mix_tail (h1 : Z) (tail : bytes) : Z :=
  match tail with
  | [] => h1
  | [a] => Z.lxor h1 (mix_k a)
  | [a; b] => Z.lxor h1 (mix_k (Z.lxor (Z.shiftl b 8) a))
  | a :: b :: c :: _ => Z.lxor h1 (mix_k (Z.lxor (Z.lxor (Z.shiftl c 16) (Z.shiftl b 8)) a))
  end.

(** [hash(data, len)]: [len] is an [int]. *)
Definition hash (data : bytes) : Z :=
  let nblocks := (length data / 4)%nat in
  let h1 := mix_blocks nblocks data 0xc062fb4a in
  let h1 := mix_tail h1 (drop (nblocks * 4) data) in
  let h1 := Z.lxor h1 (Z.of_nat (length data)) in
  fmix h1.

(** ** Lemmas *)
Lemma u32_range z : 0 <= u32 z < 2 ^ 32.
Proof. apply Z.mod_pos_bound. lia. Qed.

Lemma u32_idemp z : u32 (u32 z) = u32 z.
Proof. unfold u32. apply Z.mod_mod. lia. Qed.

(** A number below [2^n] has no bit from [n] on, and conversely. *)
Lemma bits_range n z : 0 <= n -> 0 <= z -> (forall i, n <= i -> Z.testbit z i = false) -> z < 2 ^ n.
Proof.
  intros Hn Hz Hb. destruct (decide (z < 2 ^ n)) as [|Hge]; [done|].
  assert (Hpos : 0 < z) by (pose proof (Z.pow_pos_nonneg 2 n); lia).
  pose proof (Z.bit_log2 z Hpos) as Hlog. rewrite Hb in Hlog; [done|].
  apply Z.log2_le_pow2; lia.
Qed.

Lemma range_bits n z i : 0 <= z < 2 ^ n -> n <= i -> Z.testbit z i = false.
Proof.
  intros Hz Hi. destruct (decide (z = 0)) as [->|Hz0]; [apply Z.testbit_0_l|].
  apply Z.bits_above_log2; [lia|]. apply Z.lt_le_trans with n; [|done].
  apply Z.log2_lt_pow2; lia.
Qed.

Lemma lxor_range n a b : 0 <= n -> 0 <= a < 2 ^ n -> 0 <= b < 2 ^ n -> 0 <= Z.lxor a b < 2 ^ n.
Proof.
  intros Hn Ha Hb. assert (H0 : 0 <= Z.lxor a b) by (apply Z.lxor_nonneg; lia).
  split; [done|]. apply bits_range; [done|done|]. intros i Hi.
  by rewrite Z.lxor_spec, (range_bits n a), (range_bits n b).
Qed.

Lemma shiftr_range n a k : 0 <= k -> 0 <= a < 2 ^ n -> 0 <= Z.shiftr a k < 2 ^ n.
Proof.
  intros Hk Ha. rewrite Z.shiftr_div_pow2 by done. pose proof (Z.pow_pos_nonneg 2 k).
  split; [apply Z.div_pos; lia|]. apply Z.le_lt_trans with a; [|lia]. apply Z.div_le_upper_bound; nia.
Qed.

Lemma fmix_range h : 0 <= h < 2 ^ 32 -> 0 <= fmix h < 2 ^ 32.
Proof.
  intros Hh. unfold fmix, mul32. cbv zeta.
  apply lxor_range; [lia|apply u32_range|]. apply shiftr_range; [lia|apply u32_range].
Qed.

Lemma rotl32_range x r : 0 <= r <= 32 -> 0 <= x < 2 ^ 32 -> 0 <= rotl32 x r < 2 ^ 32.
Proof.
  intros Hr Hx. unfold rotl32. pose proof (u32_range (Z.shiftl x r)).
  pose proof (shiftr_range 32 x (32 - r) ltac:(lia) Hx).
  assert (Hpos : 0 <= Z.lor (u32 (Z.shiftl x r)) (Z.shiftr x (32 - r))) by (apply Z.lor_nonneg; lia).
  split; [done|]. apply bits_range; [lia|done|]. intros i Hi.
  by rewrite Z.lor_spec, (range_bits 32), (range_bits 32).
Qed.

Lemma mix_k_range k : 0 <= mix_k k < 2 ^ 32.
Proof. apply u32_range. Qed.

Lemma mix_blocks_range n data h1 : 0 <= h1 < 2 ^ 32 -> 0 <= mix_blocks n data h1 < 2 ^ 32.
Proof.
  revert data h1. induction n as [|n IH]; intros data h1 Hh; cbn; [done|].
  apply IH. apply u32_range.
Qed.

(** The hash is a [uint32_t]. *)
Lemma hash_range data : Z.of_nat (length data) < 2 ^ 31 -> 0 <= hash data < 2 ^ 32.
Proof.
  intros Hlen. unfold hash. cbv zeta. apply fmix_range, lxor_range; [lia| |lia].
  pose proof (mix_blocks_range (length data / 4) data 0xc062fb4a ltac:(lia)) as Hb.
  unfold mix_tail.
  destruct (drop _ data) as [|a [|b [|c l]]]; [done|..]; apply lxor_range; try done; try lia; apply mix_k_range.
Qed.

(** ** The finaliser loses nothing *)
Definition fmix_inv (h : Z) : Z :=
  let h := Z.lxor h (Z.shiftr h 16) in
  let h := mul32 h 2127672349 in
  let h := Z.lxor h (Z.lxor (Z.shiftr h 13) (Z.shiftr h 26)) in
  let h := mul32 h 2781581891 in
  Z.lxor h (Z.shiftr h 16).

Lemma xorshift16_inv h : 0 <= h < 2 ^ 32 -> 
  let g := Z.lxor h (Z.shiftr h 16) in Z.lxor g (Z.shiftr g 16) = h.
Proof.
  intros Hh. cbv zeta. apply Z.bits_inj'. intros i Hi.
  rewrite !Z.lxor_spec, !Z.shiftr_spec, !Z.lxor_spec, !Z.shiftr_spec by lia.
  rewrite (range_bits 32 h (i + 16 + 16)) by lia.
  destruct (Z.testbit h i), (Z.testbit h (i + 16)); done.
Qed.

Lemma xorshift13_inv h : 0 <= h < 2 ^ 32 ->
  let g := Z.lxor h (Z.shiftr h 13) in Z.lxor g (Z.lxor (Z.shiftr g 13) (Z.shiftr g 26)) = h.
Proof.
  intros Hh. cbv zeta. apply Z.bits_inj'. intros i Hi.
  rewrite !Z.lxor_spec, !Z.shiftr_spec, !Z.lxor_spec, !Z.shiftr_spec by lia.
  rewrite (range_bits 32 h (i + 26 + 13)) by lia. replace (i + 13 + 13) with (i + 26) by lia.
  destruct (Z.testbit h i), (Z.testbit h (i + 13)), (Z.testbit h (i + 26)); done.
Qed.

Lemma mul32_inv a b h : u32 (a * b) = 1 -> 0 <= h < 2 ^ 32 -> mul32 (mul32 h a) b = h.
Proof.
  intros Hab Hh. unfold mul32. unfold u32 in *. rewrite Z.mul_mod_idemp_l, <- Z.mul_assoc by lia.
  rewrite <- Z.mul_mod_idemp_r, Hab, Z.mul_1_r by lia. by apply Z.mod_small.
Qed.

(** The finalisation step is injective on 32-bit values: [fmix_inv] undoes it. *)
Theorem fmix_roundtrip h (Hh : 0 <= h < 2 ^ 32) : fmix_inv (fmix h) = h.
Proof.
  unfold fmix, fmix_inv. cbv zeta.
  set (h1 := Z.lxor h (Z.shiftr h 16)).
  assert (H1 : 0 <= h1 < 2 ^ 32) by (apply lxor_range; [lia|done|by apply shiftr_range]).
  set (h2 := mul32 h1 0x85ebca6b). assert (H2 : 0 <= h2 < 2 ^ 32) by apply u32_range.
  set (h3 := Z.lxor h2 (Z.shiftr h2 13)).
  assert (H3 : 0 <= h3 < 2 ^ 32) by (apply lxor_range; [lia|done|by apply shiftr_range]).
  set (h4 := mul32 h3 0xc2b2ae35). assert (H4 : 0 <= h4 < 2 ^ 32) by apply u32_range.
  rewrite (xorshift16_inv h4 H4). unfold h4. rewrite (mul32_inv _ _ h3) by done.
  unfold h3. rewrite (xorshift13_inv h2 H2). unfold h2. rewrite (mul32_inv _ _ h1) by done.
  unfold h1. by apply xorshift16_inv.
Qed.

Lemma fmix_roundtrip_witness : 0 <= 3735928559 < 2 ^ 32 /\ fmix_inv (fmix 3735928559) = 3735928559.
Proof. split; [lia|]. apply (fmix_roundtrip 3735928559). lia. Defined.

(** The values the C code computes, on short keys and on one with a tail. *)
Example hash_values :
  hash [] = 4229146481 /\ hash (str "a") = 442628046 /\ hash (str "ab") = 3156637563 /\
  hash (str "abc") = 1291836645 /\ hash (str "hello world" ++ [255]) = 361592772.
Proof. by vm_compute. Qed.
