(* ===== verification/Ahtable.v ===== *)
(** * The array hash table: operations

    src/lib/hat-trie/src/ahtable.c on a little-endian 64-bit machine.  A slot is one
    buffer of entries, each a length of one or two bytes, the key and an 8-byte
    value; the buffer may be longer than [slot_sizes] says.  A [value_t *] into the
    table is a slot number and an offset. *)
From S2P Require Import Prelude CLib Bytes Murmur.
From stdpp Require Import sorting.

#[local] Open Scope Z_scope.

Definition VALSZ : nat := 8.
Definition ahtable_max_load_factor : Z := 100000.
Definition ahtable_initial_size : nat := 4096.
Definition MAX_KEY : nat := Z.to_nat 32767.

Record slot := Slot { sl_buf : bytes; sl_size : nat }.

(** [n] is the number of slots: the code changes it only together with the arrays. *)
Record ahtable := AHTable {
  ah_flag : Z; ah_c0 : Z; ah_c1 : Z;
  ah_m : Z; ah_max_m : Z; ah_slots : list slot
}.
Definition ah_n (t : ahtable) : Z := Z.of_nat (length (ah_slots t)).

Definition with_slots (t : ahtable) (m : Z) (sl : list slot) : ahtable :=
  AHTable (ah_flag t) (ah_c0 t) (ah_c1 t) m (ah_max_m t) sl.

Definition empty_slot : slot := Slot [] 0.

Definition ahtable_create_n (n : nat) : ahtable :=
  AHTable 0 0 0 0 (ahtable_max_load_factor * Z.of_nat n) (replicate n empty_slot).
Definition ahtable_create : ahtable := ahtable_create_n ahtable_initial_size.

Definition ahtable_size (t : ahtable) : Z := ah_m t.

(** [sizeof(ahtable_t)] is 56, a [size_t] and a pointer are 8 bytes. *)
Definition ahtable_sizeof (t : ahtable) : Z :=
  56 + ah_n t * (8 + 8) + Z.of_nat (sum_list (sl_size <$> ah_slots t)).

Definition ahtable_clear (t : ahtable) : ahtable :=
  with_slots t (ah_m t) (replicate ahtable_initial_size empty_slot).

(** ** Keys in a slot *)
Definition keylen (buf : bytes) (s : nat) : result nat :=
  b ← byte_at buf s;
  if Z.odd b
  then (w ← buf_read buf s 2; Ok (Z.to_nat (Z.shiftr (le_get w) 1)))
  else Ok (Z.to_nat (Z.shiftr b 1)).

(** [k < 128 ? 1 : 2] *)
Definition len_bytes (k : nat) : nat := if decide (k < 128)%nat then 1%nat else 2%nat.

(** The buffer, the offset of the value, the offset after the entry. *)
Definition ins_key (buf : bytes) (s : nat) (key : bytes) : result (bytes * nat * nat) :=
  let len := length key in
  buf ← buf_write buf s
          (if decide (len < 128)%nat then [Z.shiftl (Z.of_nat len) 1]
           else le_enc 2 (Z.lor (Z.shiftl (Z.of_nat len mod 2 ^ 16) 1) 1));
  let s := (s + len_bytes len)%nat in
  buf ← buf_write buf s key;
  let s := (s + len)%nat in
  buf ← buf_write buf s (le_enc VALSZ 0);
  Ok (buf, s, (s + VALSZ)%nat).

(** The loop of [get_key] and of [ahtable_del]: the offset of the key's bytes. *)
Fixpoint slot_find (fuel : nat) (buf : bytes) (size : nat) (key : bytes) (s : nat) : result (option nat) :=
  match fuel with
  | O => Fault NoFuel
  | S fuel =>
      if decide (s < size)%nat then
        k ← keylen buf s;
        let s := (s + len_bytes k)%nat in
        if decide (k <> length key) then slot_find fuel buf size key (s + k + VALSZ)%nat
        else
          x ← buf_read buf s (length key);
          if decide (x = key) then Ok (Some s)
          else slot_find fuel buf size key (s + k + VALSZ)%nat
      else Ok None
  end.

Definition find_in (sl : slot) (key : bytes) : result (option nat) :=
  slot_find (S (sl_size sl)) (sl_buf sl) (sl_size sl) key 0%nat.

(** [hash(key, len) % table->n] *)
Definition slot_index (n : nat) (key : bytes) : result nat :=
  if decide (n = 0%nat) then Fault DivByZero
  else Ok (Z.to_nat (u32 (hash key mod Z.of_nat n))).

Definition slot_at (t : ahtable) (i : nat) : result slot :=
  from_option_fault OutOfBounds (ah_slots t !! i).

(** [realloc_or_die(ptr, n)] of a slot. *)
Definition realloc (buf : bytes) (n : nat) : bytes := take n buf ++ replicate (n - length buf) 0.

(** ** Values through pointers *)
Definition val_load (t : ahtable) (p : nat * nat) : result Z :=
  sl ← slot_at t p.1;
  w ← buf_read (sl_buf sl) p.2 VALSZ;
  Ok (le_get w).

Definition val_store (t : ahtable) (p : nat * nat) (v : Z) : result ahtable :=
  sl ← slot_at t p.1;
  buf ← buf_write (sl_buf sl) p.2 (le_enc VALSZ v);
  Ok (with_slots t (ah_m t) (<[p.1 := Slot buf (sl_size sl)]> (ah_slots t))).

(** ** The unsorted iterator *)
Record uiter := Iter { it_i : nat; it_s : nat }.

(** The first slot from [i] on whose size is not 0; [slots] are the slots from [i]. *)
Fixpoint skip_empty (slots : list slot) (i : nat) : nat :=
  match slots with
  | [] => i
  | x :: slots => if decide (sl_size x = 0%nat) then skip_empty slots (S i) else i
  end.

Definition ahtable_unsorted_iter_begin (t : ahtable) : uiter := Iter (skip_empty (ah_slots t) 0) 0.

Definition ahtable_unsorted_iter_finished (t : ahtable) (it : uiter) : bool :=
  bool_decide (length (ah_slots t) <= it_i it)%nat.

Definition ahtable_unsorted_iter_next (t : ahtable) (it : uiter) : result uiter :=
  if ahtable_unsorted_iter_finished t it then Ok it
  else
    sl ← slot_at t (it_i it);
    k ← keylen (sl_buf sl) (it_s it);
    let s := (it_s it + len_bytes k + (k + VALSZ))%nat in
    if decide (sl_size sl <= s)%nat
    then Ok (Iter (skip_empty (drop (S (it_i it)) (ah_slots t)) (S (it_i it))) 0)
    else Ok (Iter (it_i it) s).

(** The length of the key at [s] and the offset of its bytes. *)
Definition key_head (buf : bytes) (s : nat) : result (nat * nat) :=
  b ← byte_at buf s;
  if Z.odd b
  then (w ← buf_read buf s 2; Ok (Z.to_nat (Z.shiftr (le_get w) 1), (s + 2)%nat))
  else Ok (Z.to_nat (Z.shiftr b 1), (s + 1)%nat).

Definition ahtable_unsorted_iter_key (t : ahtable) (it : uiter) : result (option bytes) :=
  if ahtable_unsorted_iter_finished t it then Ok None
  else
    sl ← slot_at t (it_i it);
    ks ← key_head (sl_buf sl) (it_s it);
    x ← buf_read (sl_buf sl) ks.2 ks.1;
    Ok (Some x).

Definition ahtable_unsorted_iter_val (t : ahtable) (it : uiter) : result (option (nat * nat)) :=
  if ahtable_unsorted_iter_finished t it then Ok None
  else
    sl ← slot_at t (it_i it);
    ks ← key_head (sl_buf sl) (it_s it);
    Ok (Some (it_i it, (ks.2 + ks.1)%nat)).

(** [while (!finished(i)) { f(key, val); ++m; next(i); }] *)
Fixpoint iter_fold {A} (fuel : nat) (t : ahtable) (it : uiter)
    (f : A -> bytes -> nat * nat -> result A) (a : A) (m : Z) : result (A * Z) :=
  match fuel with
  | O => Fault NoFuel
  | S fuel =>
      if ahtable_unsorted_iter_finished t it then Ok (a, m)
      else
        key ← ahtable_unsorted_iter_key t it;
        key ← from_option_fault NullDeref key;
        val ← ahtable_unsorted_iter_val t it;
        val ← from_option_fault NullDeref val;
        a ← f a key val;
        it ← ahtable_unsorted_iter_next t it;
        iter_fold fuel t it f a (m + 1)
  end.

Definition iter_fuel (t : ahtable) : nat := S (sum_list (sl_size <$> ah_slots t)).

(** ** Expansion *)
Definition entry_size (len : nat) : nat := (len + VALSZ + (if decide (128 <= len) then 2 else 1))%nat.

(** First pass: the sizes of the new slots. *)
Definition count_size (new_n : nat) (sizes : list nat) (key : bytes) (_ : nat * nat) : result (list nat) :=
  h ← slot_index new_n key;
  z ← from_option_fault OutOfBounds (sizes !! h);
  Ok (<[h := (z + entry_size (length key))%nat]> sizes).

(** Second pass: append to the slot and advance [slots_next]. *)
Definition move_entry (t : ahtable) (new_n : nat) (st : list bytes * list nat) (key : bytes) (p : nat * nat)
  : result (list bytes * list nat) :=
  h ← slot_index new_n key;
  buf ← from_option_fault OutOfBounds (st.1 !! h);
  s ← from_option_fault OutOfBounds (st.2 !! h);
  r ← ins_key buf s key;
  v ← val_load t p;
  buf ← buf_write r.1.1 r.1.2 (le_enc VALSZ v);
  Ok (<[h := buf]> st.1, <[h := r.2]> st.2).

Definition ahtable_expand (t : ahtable) : result ahtable :=
  _ ← guard_fault AssertFailed (bool_decide (0 < ah_n t));
  let new_n := (2 * length (ah_slots t))%nat in
  r ← iter_fold (iter_fuel t) t (ahtable_unsorted_iter_begin t) (count_size new_n) (replicate new_n 0%nat) 0;
  _ ← guard_fault AssertFailed (bool_decide (r.2 = ah_m t));
  let sizes := r.1 in
  let bufs := (fun z => replicate z 0) <$> sizes in
  r ← iter_fold (iter_fuel t) t (ahtable_unsorted_iter_begin t) (move_entry t new_n)
        (bufs, replicate new_n 0%nat) 0;
  _ ← guard_fault AssertFailed (bool_decide (r.2 = ah_m t));
  Ok (AHTable (ah_flag t) (ah_c0 t) (ah_c1 t) (ah_m t) (ahtable_max_load_factor * Z.of_nat new_n)
        (zip_with Slot r.1.1 sizes)).

(** ** Lookup, insertion, removal *)
Definition get_key (t : ahtable) (key : bytes) (insert_missing : bool)
  : result (option (nat * nat) * ahtable) :=
  t ← (if insert_missing && bool_decide (ah_max_m t <= ah_m t) then ahtable_expand t else Ok t);
  i ← slot_index (length (ah_slots t)) key;
  sl ← slot_at t i;
  r ← find_in sl key;
  match r with
  | Some s => Ok (Some (i, (s + length key)%nat), t)
  | None =>
      if insert_missing then
        let new_size := (sl_size sl + (1 + (if decide (128 <= length key)%nat then 1 else 0)) + length key + VALSZ)%nat in
        let buf := realloc (sl_buf sl) new_size in
        r ← ins_key buf (sl_size sl) key;
        Ok (Some (i, r.1.2), with_slots t (ah_m t + 1) (<[i := Slot r.1.1 new_size]> (ah_slots t)))
      else Ok (None, t)
  end.

Definition ahtable_get (t : ahtable) (key : bytes) : result (option (nat * nat) * ahtable) :=
  if decide (MAX_KEY < length key)%nat then Fault ExitCalled else get_key t key true.

Definition ahtable_tryget (t : ahtable) (key : bytes) : result (option (nat * nat)) :=
  r ← get_key t key false; Ok r.1.

(** 0 when the key was there, -1 when not. *)
Definition ahtable_del (t : ahtable) (key : bytes) : result (Z * ahtable) :=
  i ← slot_index (length (ah_slots t)) key;
  sl ← slot_at t i;
  r ← find_in sl key;
  match r with
  | Some s =>
      let t0 := (s + length key + VALSZ)%nat in
      let s := (s - len_bytes (length key))%nat in
      rest ← buf_read (sl_buf sl) t0 (sl_size sl - t0);
      buf ← buf_write (sl_buf sl) s rest;
      Ok (0, with_slots t (ah_m t - 1) (<[i := Slot buf (sl_size sl - (t0 - s))]> (ah_slots t)))
  | None => Ok (-1, t)
  end.

(** ** The sorted iterator *)
Fixpoint memcmp (a b : bytes) : Z :=
  match a, b with
  | x :: a, y :: b => if decide (x = y) then memcmp a b else x - y
  | _, _ => 0
  end.

(** [cmpkey] on the keys two pointers lead to. *)
Definition cmpkey (a b : bytes) : Z :=
  let n := Nat.min (length a) (length b) in
  let c := memcmp (take n a) (take n b) in
  if decide (c = 0) then Z.of_nat (length a) - Z.of_nat (length b) else c.

(** The offsets of the entries of a slot. *)
Fixpoint slot_offsets (fuel : nat) (sl : slot) (s : nat) : result (list nat) :=
  match fuel with
  | O => Fault NoFuel
  | S fuel =>
      if decide (s < sl_size sl)%nat then
        k ← keylen (sl_buf sl) s;
        r ← slot_offsets fuel sl (s + len_bytes k + (k + VALSZ))%nat;
        Ok (s :: r)
      else Ok []
  end.

Fixpoint all_offsets (slots : list slot) (i : nat) : result (list (nat * nat)) :=
  match slots with
  | [] => Ok []
  | sl :: slots =>
      r ← slot_offsets (S (sl_size sl)) sl 0%nat;
      rs ← all_offsets slots (S i);
      Ok (((fun s => (i, s)) <$> r) ++ rs)
  end.

(** The key a pointer leads to. *)
Definition key_of (t : ahtable) (p : nat * nat) : result bytes :=
  sl ← slot_at t p.1;
  k ← keylen (sl_buf sl) p.2;
  buf_read (sl_buf sl) (p.2 + len_bytes k) k.

Definition keyed (t : ahtable) (p : nat * nat) : result (bytes * (nat * nat)) :=
  k ← key_of t p; Ok (k, p).

Definition key_le (a b : bytes * (nat * nat)) : Prop := cmpkey a.1 b.1 <= 0.
#[export] Instance key_le_dec : RelDecision key_le.
Proof. intros a b. unfold key_le. apply _. Defined.

Record sorted_iter := SortedIter { si_xs : list (nat * nat); si_i : nat }.

(** [xs] has room for [table->m] pointers and [qsort] sorts that many: it is a fault
    when the slots do not hold as many entries. *)
Definition ahtable_sorted_iter_begin (t : ahtable) : result sorted_iter :=
  xs ← all_offsets (ah_slots t) 0%nat;
  _ ← guard_fault OutOfBounds (bool_decide (Z.of_nat (length xs) = ah_m t));
  ks ← mapM (keyed t) xs;
  Ok (SortedIter (snd <$> merge_sort key_le ks) 0).

Definition ahtable_sorted_iter_finished (t : ahtable) (it : sorted_iter) : bool :=
  bool_decide (ah_m t <= Z.of_nat (si_i it)).

Definition ahtable_sorted_iter_next (t : ahtable) (it : sorted_iter) : sorted_iter :=
  if ahtable_sorted_iter_finished t it then it else SortedIter (si_xs it) (S (si_i it)).

Definition ahtable_sorted_iter_key (t : ahtable) (it : sorted_iter) : result (option bytes) :=
  if ahtable_sorted_iter_finished t it then Ok None
  else
    p ← from_option_fault OutOfBounds (si_xs it !! si_i it);
    k ← key_of t p; Ok (Some k).

Definition ahtable_sorted_iter_val (t : ahtable) (it : sorted_iter) : result (option (nat * nat)) :=
  if ahtable_sorted_iter_finished t it then Ok None
  else
    p ← from_option_fault OutOfBounds (si_xs it !! si_i it);
    sl ← slot_at t p.1;
    k ← keylen (sl_buf sl) p.2;
    Ok (Some (p.1, (p.2 + len_bytes k + k)%nat)).

(** [while (!finished(i)) { key(i); val(i); next(i); }] of the sorted iterator. *)
Fixpoint sorted_iter_list (fuel : nat) (t : ahtable) (it : sorted_iter) : result (list (bytes * Z)) :=
  match fuel with
  | O => Fault NoFuel
  | S fuel =>
      if ahtable_sorted_iter_finished t it then Ok []
      else
        k ← ahtable_sorted_iter_key t it;
        k ← from_option_fault NullDeref k;
        p ← ahtable_sorted_iter_val t it;
        p ← from_option_fault NullDeref p;
        v ← val_load t p;
        r ← sorted_iter_list fuel t (ahtable_sorted_iter_next t it);
        Ok ((k, v) :: r)
  end.

(** ** The iterator, of either kind *)
Inductive ahtable_iter := AUnsorted (it : uiter) | ASorted (it : sorted_iter).

Definition ahtable_iter_begin (t : ahtable) (sorted : bool) : result ahtable_iter :=
  if sorted then (it ← ahtable_sorted_iter_begin t; Ok (ASorted it))
  else Ok (AUnsorted (ahtable_unsorted_iter_begin t)).

Definition ahtable_iter_next (t : ahtable) (i : ahtable_iter) : result ahtable_iter :=
  match i with
  | ASorted it => Ok (ASorted (ahtable_sorted_iter_next t it))
  | AUnsorted it => it ← ahtable_unsorted_iter_next t it; Ok (AUnsorted it)
  end.

Definition ahtable_iter_finished (t : ahtable) (i : ahtable_iter) : bool :=
  match i with
  | ASorted it => ahtable_sorted_iter_finished t it
  | AUnsorted it => ahtable_unsorted_iter_finished t it
  end.

Definition ahtable_iter_key (t : ahtable) (i : ahtable_iter) : result (option bytes) :=
  match i with
  | ASorted it => ahtable_sorted_iter_key t it
  | AUnsorted it => ahtable_unsorted_iter_key t it
  end.

Definition ahtable_iter_val (t : ahtable) (i : ahtable_iter) : result (option (nat * nat)) :=
  match i with
  | ASorted it => ahtable_sorted_iter_val t it
  | AUnsorted it => ahtable_unsorted_iter_val t it
  end.

(** ** Saving and loading *)
Definition save_slot (sl : slot) : result bytes :=
  x ← buf_read (sl_buf sl) 0 (sl_size sl);
  Ok (be_enc 4 (Z.of_nat (sl_size sl)) ++ x).

Definition ahtable_save (t : ahtable) : result bytes :=
  xs ← mapM save_slot (ah_slots t);
  Ok (be_enc 8 (ah_n t) ++ be_enc 8 (ah_m t) ++ be_enc 8 (ah_max_m t) ++
      [ah_flag t; ah_c0 t; ah_c1 t] ++ mjoin xs).

(** [fread] of [n] bytes: [None] when the file is shorter. *)
Definition fread (n : nat) (f : bytes) : option (bytes * bytes) :=
  if decide (n <= length f)%nat then Some (take n f, drop n f) else None.

Definition read_u64 (f : bytes) : option (Z * bytes) :=
  '(x, f) ← fread 8 f; Some (be_get x, f).

Definition load_slot (f : bytes) : option (slot * bytes) :=
  '(x, f) ← fread 4 f;
  let size := Z.to_nat (be_get x) in
  '(x, f) ← fread size f;
  Some (Slot x size, f).

Fixpoint load_slots (n : nat) (f : bytes) : option (list slot * bytes) :=
  match n with
  | O => Some ([], f)
  | S n =>
      '(sl, f) ← load_slot f;
      '(sls, f) ← load_slots n f;
      Some (sl :: sls, f)
  end.

(** [None]: the file was too short; what was allocated is freed. *)
Definition ahtable_load (f : bytes) : option (ahtable * bytes) :=
  '(n, f) ← read_u64 f;
  '(m, f) ← read_u64 f;
  '(max_m, f) ← read_u64 f;
  '(flag, f) ← fread 1 f;
  '(c0, f) ← fread 1 f;
  '(c1, f) ← fread 1 f;
  '(sls, f) ← load_slots (Z.to_nat n) f;
  Some (AHTable (le_get flag) (le_get c0) (le_get c1) m max_m sls, f).
