(* ===== verification/AhtableOk.v ===== *)
(** * The array hash table: entries and lookups

    The abstract contents of a slot and of a table, and what the loops of
    Ahtable.v do on them. *)
From S2P Require Import Prelude CLib Bytes Murmur Ahtable.

#[local] Open Scope Z_scope.

(** ** Entries *)
Abbreviation entry := (bytes * Z)%type (only parsing).

Definition entry_ok (e : bytes * Z) : Prop := (length e.1 <= MAX_KEY)%nat /\ 0 <= e.2 < 2 ^ 64.

Definition enc_len (n : nat) : bytes :=
  if decide (n < 128)%nat then [2 * Z.of_nat n] else le_enc 2 (2 * Z.of_nat n + 1).

Definition enc (e : bytes * Z) : bytes := enc_len (length e.1) ++ e.1 ++ le_enc VALSZ e.2.
Definition enc_slot (es : list (bytes * Z)) : bytes := mjoin (enc <$> es).

#[global] Arguments MAX_KEY : simpl never.
#[global] Arguments enc : simpl never.
#[global] Arguments enc_len : simpl never.

Lemma enc_len_length n : length (enc_len n) = len_bytes n.
Proof. unfold enc_len, len_bytes. by case_decide. Qed.

Lemma enc_length e : length (enc e) = (len_bytes (length e.1) + length e.1 + VALSZ)%nat.
Proof. unfold enc. rewrite !length_app, enc_len_length, le_enc_length. lia. Qed.

Lemma enc_slot_app a b : enc_slot (a ++ b) = enc_slot a ++ enc_slot b.
Proof. unfold enc_slot. by rewrite fmap_app, join_app. Qed.

Lemma enc_slot_cons e es : enc_slot (e :: es) = enc e ++ enc_slot es.
Proof. done. Qed.

Lemma enc_slot_singleton e : enc_slot [e] = enc e.
Proof. unfold enc_slot. cbn. apply app_nil_r. Qed.

Lemma odd_2n n : Z.odd (2 * n) = false.
Proof. by rewrite Z.odd_mul. Qed.

Lemma half_even n : 2 * n / 2 ^ 1 = n.
Proof. change (2 ^ 1) with 2. rewrite Z.mul_comm. by apply Z.div_mul. Qed.

Lemma half_odd n : (2 * n + 1) / 2 ^ 1 = n.
Proof. change (2 ^ 1) with 2. rewrite Z.mul_comm, Z.div_add_l by done. change (1 / 2) with 0. lia. Qed.

Lemma enc_len_head n : (n <= MAX_KEY)%nat ->
  exists b l, enc_len n = b :: l /\ Z.odd b = bool_decide (128 <= n)%nat /\
    (n < 128 -> Z.shiftr b 1 = Z.of_nat n)%nat /\
    (128 <= n -> length l = 1%nat /\ Z.shiftr (le_get (b :: l)) 1 = Z.of_nat n)%nat.
Proof.
  intros Hn. unfold MAX_KEY in Hn. unfold enc_len. case_decide as Hlt.
  - exists (2 * Z.of_nat n), []. rewrite odd_2n, bool_decide_eq_false_2 by lia.
    do 2 (split; [done|]). split; [|intros; lia]. intros _. rewrite Z.shiftr_div_pow2 by lia.
    apply half_even.
  - assert (Hs : 0 <= 2 * Z.of_nat n + 1 < 256 ^ Z.of_nat 2) by (change (256 ^ Z.of_nat 2) with 65536; lia).
    pose proof (le_get_enc_small 2 _ Hs) as Hv.
    change (le_enc 2 (2 * Z.of_nat n + 1)) with ((2 * Z.of_nat n + 1) mod 256 :: le_enc 1 ((2 * Z.of_nat n + 1) / 256)) in *.
    eexists _, _. split; [done|]. rewrite bool_decide_eq_true_2 by lia. split; [|split; [intros; lia|]].
    + rewrite <- Z.bit0_odd. change 256 with (2 ^ 8). rewrite Z.mod_pow2_bits_low by lia.
      by rewrite Z.bit0_odd, Z.odd_add, odd_2n.
    + intros _. split; [done|]. rewrite Hv, Z.shiftr_div_pow2 by lia. apply half_odd.
Qed.

(** The head of an entry, read where it starts. *)
Lemma keylen_enc pre e post s :
  (length e.1 <= MAX_KEY)%nat -> s = length pre -> keylen (pre ++ enc e ++ post) s = Ok (length e.1).
Proof.
  intros Hn ->. destruct (enc_len_head (length e.1) Hn) as (b & l & Hl & Hodd & H1 & H2).
  unfold keylen, enc. rewrite Hl, <- !app_assoc. cbn [app].
  rewrite byte_at_mid by done. cbn [mbind result_bind]. rewrite Hodd. case_bool_decide as Hc.
  - destruct (H2 Hc) as [Hl1 Hv].
    rewrite (app_comm_cons l _ b), (buf_read_mid pre (b :: l)) by (cbn; lia).
    cbn [mbind result_bind]. by rewrite Hv, Nat2Z.id.
  - rewrite H1, Nat2Z.id by lia. done.
Qed.

Lemma key_head_enc pre e post s :
  (length e.1 <= MAX_KEY)%nat -> s = length pre ->
  key_head (pre ++ enc e ++ post) s = Ok (length e.1, (s + len_bytes (length e.1))%nat).
Proof.
  intros Hn ->. destruct (enc_len_head (length e.1) Hn) as (b & l & Hl & Hodd & H1 & H2).
  unfold key_head, enc, len_bytes. rewrite Hl, <- !app_assoc. cbn [app].
  rewrite byte_at_mid by done. cbn [mbind result_bind]. rewrite Hodd. case_bool_decide as Hc.
  - destruct (H2 Hc) as [Hl1 Hv].
    rewrite (app_comm_cons l _ b), (buf_read_mid pre (b :: l)) by (cbn; lia).
    cbn [mbind result_bind]. by rewrite Hv, Nat2Z.id, decide_False by lia.
  - rewrite H1, Nat2Z.id, decide_True by lia. done.
Qed.

Lemma key_enc pre e post s n :
  s = (length pre + len_bytes (length e.1))%nat -> n = length e.1 ->
  buf_read (pre ++ enc e ++ post) s n = Ok e.1.
Proof.
  intros -> ->. unfold enc. rewrite <- !app_assoc, (app_assoc pre).
  apply buf_read_mid; [|done]. by rewrite length_app, enc_len_length.
Qed.

(** Where the value of an entry starting at [s] is. *)
Definition val_off (s : nat) (k : bytes) : nat := (s + len_bytes (length k) + length k)%nat.

Lemma val_enc pre e post s :
  s = length pre -> buf_read (pre ++ enc e ++ post) (val_off s e.1) VALSZ = Ok (le_enc VALSZ e.2).
Proof.
  intros ->. unfold enc. rewrite <- !app_assoc.
  replace (pre ++ enc_len (length e.1) ++ e.1 ++ le_enc VALSZ e.2 ++ post)
    with ((pre ++ enc_len (length e.1) ++ e.1) ++ le_enc VALSZ e.2 ++ post) by (by rewrite <- !app_assoc).
  apply buf_read_mid; [|by rewrite le_enc_length].
  rewrite !length_app, enc_len_length. unfold val_off. lia.
Qed.

Lemma val_write pre k v w post s :
  s = length pre ->
  buf_write (pre ++ enc (k, v) ++ post) (val_off s k) (le_enc VALSZ w) = Ok (pre ++ enc (k, w) ++ post).
Proof.
  intros ->. unfold enc. cbn [fst snd]. rewrite <- !app_assoc.
  set (h := enc_len (length k)).
  replace (pre ++ h ++ k ++ le_enc VALSZ v ++ post)
    with ((pre ++ h ++ k) ++ le_enc VALSZ v ++ post) by (by rewrite <- !app_assoc).
  rewrite buf_write_mid.
  - by rewrite <- !app_assoc.
  - rewrite !length_app. unfold h. rewrite enc_len_length. unfold val_off. lia.
  - by rewrite !le_enc_length.
Qed.

(** [ins_key] writes an entry with value 0. *)
Lemma ins_key_ok pre x post k s :
  (length k <= MAX_KEY)%nat -> s = length pre -> length x = length (enc (k, 0%Z)) ->
  ins_key (pre ++ x ++ post) s k =
    Ok (pre ++ enc (k, 0) ++ post, val_off s k, (s + length (enc (k, 0%Z)))%nat).
Proof.
  intros Hk -> Hx. rewrite enc_length in Hx. cbn [fst] in Hx.
  assert (Hhd : (if decide (length k < 128)%nat then [Z.shiftl (Z.of_nat (length k)) 1]
    else le_enc 2 (Z.lor (Z.shiftl (Z.of_nat (length k) mod 2 ^ 16) 1) 1)) = enc_len (length k)).
  { unfold enc_len, MAX_KEY in *. case_decide.
    - done.
    - f_equal. rewrite Z.mod_small by (change (2 ^ 16) with 65536; lia).
      rewrite Z.shiftl_mul_pow2, Z.mul_comm by lia. change (2 ^ 1) with 2.
      destruct (Z.of_nat (length k)) as [|q|q] eqn:Hq; [done|done|lia]. }
  unfold ins_key. cbv zeta. rewrite Hhd.
  rewrite <- (take_drop (len_bytes (length k)) x), <- (take_drop (length k) (drop (len_bytes (length k)) x)).
  set (x1 := take (len_bytes (length k)) x). set (x2 := take (length k) _). set (x3 := drop (length k) _).
  assert (H1 : length x1 = len_bytes (length k)) by (unfold x1; rewrite length_take; lia).
  assert (H2 : length x2 = length k) by (unfold x2; rewrite length_take, length_drop; lia).
  assert (H3 : length x3 = VALSZ) by (unfold x3; rewrite !length_drop; lia).
  rewrite <- !app_assoc.
  rewrite (buf_write_mid pre x1) by (rewrite ?enc_len_length; lia). cbn [mbind result_bind].
  rewrite app_assoc, (buf_write_mid _ x2) by (rewrite ?length_app, ?enc_len_length; lia).
  cbn [mbind result_bind].
  rewrite (app_assoc _ k), (buf_write_mid _ x3) by (rewrite ?length_app, ?enc_len_length, ?le_enc_length; lia).
  cbn [mbind result_bind]. f_equal. f_equal; [f_equal|].
  - unfold enc. cbn [fst snd]. by rewrite <- !app_assoc.
  - rewrite enc_length. cbn [fst]. lia.
Qed.

(** ** Slots *)
Record slot_rep (sl : slot) (es : list (bytes * Z)) : Prop := {
  sr_size : sl_size sl = length (enc_slot es);
  sr_buf : exists rest, sl_buf sl = enc_slot es ++ rest;
  sr_ok : Forall entry_ok es;
  sr_nodup : NoDup es.*1
}.

Lemma enc_slot_length_cons e es :
  length (enc_slot (e :: es)) = (len_bytes (length e.1) + length e.1 + VALSZ + length (enc_slot es))%nat.
Proof. by rewrite enc_slot_cons, length_app, enc_length. Qed.

Lemma enc_slot_length es : (length es <= length (enc_slot es))%nat.
Proof.
  induction es as [|e es IH]; [done|]. rewrite enc_slot_length_cons. cbn [length]. unfold VALSZ. lia.
Qed.

(** A step of the search past an entry with another key. *)
Lemma slot_find_step fuel pre e post size k s :
  (length e.1 <= MAX_KEY)%nat -> s = length pre -> (s < size)%nat -> e.1 <> k ->
  slot_find (S fuel) (pre ++ enc e ++ post) size k s =
    slot_find fuel (pre ++ enc e ++ post) size k (s + length (enc e)).
Proof.
  intros Hn -> Hlt Hne. cbn [slot_find]. rewrite decide_True by done.
  rewrite keylen_enc by done. cbn [mbind result_bind].
  rewrite enc_length, !Nat.add_assoc. case_decide as Hk; [done|].
  rewrite key_enc by done. cbn [mbind result_bind]. by rewrite decide_False.
Qed.

Lemma slot_find_hit fuel pre e post size s :
  (length e.1 <= MAX_KEY)%nat -> s = length pre -> (s < size)%nat ->
  slot_find (S fuel) (pre ++ enc e ++ post) size e.1 s = Ok (Some (s + len_bytes (length e.1))%nat).
Proof.
  intros Hn -> Hlt. cbn [slot_find]. rewrite decide_True by done.
  rewrite keylen_enc by done. cbn [mbind result_bind]. rewrite decide_False by (intros H; by apply H).
  rewrite key_enc by done. cbn [mbind result_bind]. by rewrite decide_True.
Qed.

(** The search from an entry on: past the entries [a], then found or at the end. *)
Lemma slot_find_skip fuel pre a b rest size k :
  Forall entry_ok a -> k ∉ a.*1 -> size = length (pre ++ enc_slot (a ++ b)) ->
  slot_find (length a + fuel) (pre ++ enc_slot (a ++ b) ++ rest) size k (length pre) =
    slot_find fuel (pre ++ enc_slot (a ++ b) ++ rest) size k (length (pre ++ enc_slot a)).
Proof.
  intros Ha Hk Hsize. revert pre Hsize. induction a as [|e a IH]; intros pre Hsize.
  - cbn. by rewrite app_nil_r.
  - apply Forall_cons in Ha as [[Hlen _] Ha']. cbn in Hk. apply not_elem_of_cons in Hk as [Hne Hk].
    cbn [length Nat.add app]. rewrite enc_slot_cons, <- !app_assoc.
    rewrite slot_find_step; [|done|done| |done].
    2: { rewrite Hsize. cbn [app]. rewrite enc_slot_cons, !length_app, enc_length. unfold VALSZ. lia. }
    specialize (IH Ha' Hk (pre ++ enc e)).
    rewrite <- !app_assoc in IH. rewrite <- (length_app pre).
    rewrite IH by done. done.
Qed.

Lemma find_in_None sl es k : slot_rep sl es -> k ∉ es.*1 -> find_in sl k = Ok None.
Proof.
  intros [Hs (rest & Hb) Hok Hnd] Hk. unfold find_in. rewrite Hb.
  pose proof (slot_find_skip (S (sl_size sl) - length es) [] es [] rest (sl_size sl) k Hok Hk) as Hf.
  rewrite app_nil_r in Hf. specialize (Hf Hs). pose proof (enc_slot_length es).
  replace (length es + (S (sl_size sl) - length es))%nat with (S (sl_size sl)) in Hf by lia.
  cbn [app] in Hf. change (length []) with 0%nat in Hf. rewrite Hf.
  destruct (S (sl_size sl) - length es)%nat as [|f] eqn:Hfu; [lia|].
  cbn [slot_find]. rewrite decide_False by lia. done.
Qed.

Lemma find_in_Some sl a b k v :
  slot_rep sl (a ++ (k, v) :: b) ->
  find_in sl k = Ok (Some (length (enc_slot a) + len_bytes (length k))%nat).
Proof.
  intros [Hs (rest & Hb) Hok Hnd]. unfold find_in. rewrite Hb.
  apply Forall_app in Hok as [Ha Hb']. inversion Hb' as [|? ? [Hlen _] _]; subst.
  assert (Hk : k ∉ a.*1).
  { rewrite fmap_app in Hnd. apply NoDup_app in Hnd as (_ & Hd & _). intros Hin.
    apply (Hd k Hin). cbn. set_solver. }
  pose proof (enc_slot_length a) as Hla. rewrite enc_slot_app, length_app in Hs.
  pose proof (slot_find_skip (S (sl_size sl) - length a) [] a ((k, v) :: b) rest (sl_size sl) k Ha Hk) as Hf.
  cbn [app] in Hf. rewrite enc_slot_app, length_app in Hf. specialize (Hf Hs).
  replace (length a + (S (sl_size sl) - length a))%nat with (S (sl_size sl)) in Hf by lia.
  change (length []) with 0%nat in Hf. rewrite enc_slot_app, Hf.
  destruct (S (sl_size sl) - length a)%nat as [|f] eqn:Hfu; [lia|].
  rewrite enc_slot_cons, <- !app_assoc. rewrite (slot_find_hit f (enc_slot a) (k, v)); [done|done|done|].
  rewrite Hs, enc_slot_length_cons. unfold VALSZ. lia.
Qed.

(** ** Tables *)
Record table_rep (t : ahtable) (ess : list (list (bytes * Z))) : Prop := {
  tr_slots : Forall2 slot_rep (ah_slots t) ess;
  tr_pos : (0 < length ess)%nat;
  tr_hash i es e : ess !! i = Some es -> e ∈ es -> slot_index (length ess) e.1 = Ok i;
  tr_m : ah_m t = Z.of_nat (length (mjoin ess))
}.

Lemma tr_length t ess : table_rep t ess -> length (ah_slots t) = length ess.
Proof. intros [H _ _ _]. by eapply Forall2_length. Qed.

Lemma slot_index_ok n k : (0 < n)%nat -> Z.of_nat n < 2 ^ 32 -> exists i, slot_index n k = Ok i /\ (i < n)%nat.
Proof.
  intros Hn Hn32. unfold slot_index. rewrite decide_False by lia.
  pose proof (Z.mod_pos_bound (hash k) (Z.of_nat n) ltac:(lia)) as Hm.
  rewrite u32_small by lia. eexists. split; [done|]. lia.
Qed.

Lemma tr_nodup_at t ess i es : table_rep t ess -> ess !! i = Some es -> NoDup es.*1.
Proof.
  intros Ht Hes. destruct (Forall2_lookup_r _ _ _ _ _ (tr_slots _ _ Ht) Hes) as (sl & _ & Hsl).
  apply (sr_nodup _ _ Hsl).
Qed.

Lemma elem_of_join_at {A} (ls : list (list A)) x : x ∈ mjoin ls -> exists i l, ls !! i = Some l /\ x ∈ l.
Proof.
  intros (l & Hx & Hl)%list_elem_of_join. apply list_elem_of_lookup_1 in Hl as [i Hi]. eauto.
Qed.

Lemma elem_of_join_intro {A} (ls : list (list A)) i l x : ls !! i = Some l -> x ∈ l -> x ∈ mjoin ls.
Proof. intros Hi Hx. apply list_elem_of_join. exists l. split; [done|]. by eapply list_elem_of_lookup_2. Qed.

(** Keys of distinct slots are distinct: the whole table has each key once. *)
Lemma buckets_nodup (f : bytes -> result nat) (ess : list (list (bytes * Z))) off :
  (forall i es e, ess !! i = Some es -> e ∈ es -> f e.1 = Ok (off + i)%nat) ->
  Forall (fun es => NoDup es.*1) ess -> NoDup (mjoin ess).*1.
Proof.
  intros Hf Hnd. revert off Hf. induction Hnd as [|es ess Hes _ IH]; intros off Hf; cbn; [constructor|].
  rewrite fmap_app. apply NoDup_app. split; [done|]. split.
  - intros k (e & -> & He)%list_elem_of_fmap (e' & Heq & (i & es' & Hi & He')%elem_of_join_at)%list_elem_of_fmap.
    pose proof (Hf 0%nat es e eq_refl He) as H1. pose proof (Hf (S i) es' e' Hi He') as H2.
    rewrite Heq in H1. assert (off + 0 = off + S i)%nat by congruence. lia.
  - apply (IH (S off)). intros i es' e Hi He. rewrite (Hf (S i) es' e Hi He). f_equal. lia.
Qed.

Lemma tr_nodup t ess : table_rep t ess -> NoDup (mjoin ess).*1.
Proof.
  intros Ht. apply (buckets_nodup (slot_index (length ess)) ess 0).
  - intros i es e Hi He. by eapply (tr_hash _ _ Ht).
  - apply Forall_lookup. intros i es Hi. by apply (tr_nodup_at t ess i).
Qed.

(** The map a table holds. *)
Definition ah_map (ess : list (list (bytes * Z))) : gmap bytes Z := list_to_map (mjoin ess).

Lemma ah_map_Some t ess i es k v :
  table_rep t ess -> ess !! i = Some es -> (k, v) ∈ es -> ah_map ess !! k = Some v.
Proof.
  intros Ht Hi He. apply elem_of_list_to_map_1; [by eapply tr_nodup|]. by eapply elem_of_join_intro.
Qed.

Lemma ah_map_None t ess i es k :
  table_rep t ess -> slot_index (length ess) k = Ok i -> ess !! i = Some es -> k ∉ es.*1 ->
  ah_map ess !! k = None.
Proof.
  intros Ht Hk Hi Hn. apply not_elem_of_list_to_map_1.
  intros (e & -> & (j & es' & Hj & He)%elem_of_join_at)%list_elem_of_fmap.
  pose proof (tr_hash _ _ Ht j es' e Hj He). assert (i = j) as -> by congruence.
  assert (es = es') as -> by congruence. apply Hn. by apply (list_elem_of_fmap_2 fst).
Qed.

(** A key's value is decided by its own slot. *)
Lemma ah_map_lookup t ess i es k :
  table_rep t ess -> slot_index (length ess) k = Ok i -> ess !! i = Some es ->
  ah_map ess !! k = (list_to_map es : gmap bytes Z) !! k.
Proof.
  intros Ht Hk Hi. destruct ((list_to_map es : gmap bytes Z) !! k) as [v|] eqn:Hv.
  - apply elem_of_list_to_map_2 in Hv. by eapply ah_map_Some.
  - apply not_elem_of_list_to_map_2 in Hv. by eapply ah_map_None.
Qed.

Lemma join_insert_length {A} (ls : list (list A)) i x y :
  ls !! i = Some x ->
  Z.of_nat (length (mjoin (<[i := y]> ls))) =
    Z.of_nat (length (mjoin ls)) - Z.of_nat (length x) + Z.of_nat (length y).
Proof.
  intros Hi. rewrite insert_take_drop by (by eapply lookup_lt_Some).
  rewrite <- (take_drop_middle ls i x) at 3 by done.
  rewrite !join_app. change (mjoin (?a :: ?l)) with (a ++ mjoin l).
  rewrite !length_app. lia.
Qed.

(** Replacing the contents of a slot. *)
Lemma table_rep_update t ess i es es' sl' m' :
  table_rep t ess -> ess !! i = Some es -> slot_rep sl' es' ->
  (forall e, e ∈ es' -> slot_index (length ess) e.1 = Ok i) ->
  m' = ah_m t - Z.of_nat (length es) + Z.of_nat (length es') ->
  table_rep (with_slots t m' (<[i := sl']> (ah_slots t))) (<[i := es']> ess).
Proof.
  intros [Hs Hpos Hh Hm] Hi Hsl He ->. split; cbn [with_slots ah_slots ah_m].
  - by apply Forall2_insert.
  - by rewrite length_insert.
  - intros j es0 e Hj Hin. rewrite length_insert.
    apply list_lookup_insert_Some in Hj as [(<- & <- & _)|[_ Hj]]; [by apply He|by eapply Hh].
  - rewrite Hm, (join_insert_length ess i es es') by done. lia.
Qed.

Lemma ah_map_update (t : ahtable) (ess : list (list (bytes * Z))) (i : nat) (es es' : list (bytes * Z)) (t' : ahtable) (f : gmap bytes Z) :
  table_rep t ess -> ess !! i = Some es -> table_rep t' (<[i := es']> ess) ->
  (forall k, slot_index (length ess) k = Ok i -> (list_to_map es' : gmap bytes Z) !! k = f !! k) ->
  (forall k, slot_index (length ess) k <> Ok i -> ah_map ess !! k = f !! k) ->
  Z.of_nat (length ess) < 2 ^ 32 ->
  ah_map (<[i := es']> ess) = f.
Proof.
  intros Ht Hi Ht' Hin Hout Hn. apply map_eq. intros k.
  destruct (slot_index_ok (length ess) k (tr_pos _ _ Ht) Hn) as (j & Hj & Hlt).
  destruct (decide (j = i)) as [->|Hne].
  - rewrite <- Hin by done. eapply ah_map_lookup; [exact Ht'|by rewrite length_insert|].
    by apply list_lookup_insert_eq.
  - rewrite <- Hout by congruence. destruct (lookup_lt_is_Some_2 ess j Hlt) as [es0 Hes0].
    rewrite (ah_map_lookup t ess j es0) by done.
    eapply ah_map_lookup; [exact Ht'|by rewrite length_insert|by rewrite list_lookup_insert_ne].
Qed.

(** A pointer to the value of [k]. *)
Definition at_ptr (ess : list (list (bytes * Z))) (p : nat * nat) (k : bytes) (v : Z) : Prop :=
  exists i a b, ess !! i = Some (a ++ (k, v) :: b) /\ p = (i, val_off (length (enc_slot a)) k).

Lemma slot_at_rep t ess i es :
  table_rep t ess -> ess !! i = Some es -> exists sl, slot_at t i = Ok sl /\ ah_slots t !! i = Some sl /\ slot_rep sl es.
Proof.
  intros Ht Hi. destruct (Forall2_lookup_r _ _ _ _ _ (tr_slots _ _ Ht) Hi) as (sl & Hsl & Hr).
  exists sl. unfold slot_at. by rewrite Hsl.
Qed.

Lemma buf_at_entry sl a e b : slot_rep sl (a ++ e :: b) ->
  exists rest, sl_buf sl = enc_slot a ++ enc e ++ (enc_slot b ++ rest).
Proof.
  intros [_ (rest & ->) _ _]. exists rest. by rewrite enc_slot_app, enc_slot_cons, <- !app_assoc.
Qed.

Lemma at_ptr_map t ess p k v : table_rep t ess -> at_ptr ess p k v -> ah_map ess !! k = Some v.
Proof. intros Ht (i & a & b & Hi & _). eapply ah_map_Some; [done|done|set_solver]. Qed.

Lemma entry_at_ok sl a e b : slot_rep sl (a ++ e :: b) -> entry_ok e.
Proof. intros [_ _ Hok _]. apply Forall_app in Hok as [_ Hok]. by inversion Hok. Qed.

Lemma val_load_ok t ess p k v : table_rep t ess -> at_ptr ess p k v -> val_load t p = Ok v.
Proof.
  intros Ht (i & a & b & Hi & ->). destruct (slot_at_rep _ _ _ _ Ht Hi) as (sl & Hsl & _ & Hr).
  destruct (buf_at_entry _ _ _ _ Hr) as (rest & Hb). destruct (entry_at_ok _ _ _ _ Hr) as [_ Hv].
  unfold val_load. cbn [fst snd]. rewrite Hsl. cbn [mbind result_bind].
  rewrite Hb, (val_enc (enc_slot a) (k, v)) by done. cbn [mbind result_bind snd].
  by rewrite le_get_enc_small.
Qed.

Lemma NoDup_keys_middle (a b : list (bytes * Z)) k v w :
  NoDup (a ++ (k, v) :: b).*1 -> NoDup (a ++ (k, w) :: b).*1.
Proof. by rewrite !fmap_app. Qed.

Lemma list_to_map_middle (a b : list (bytes * Z)) k v :
  NoDup (a ++ (k, v) :: b).*1 ->
  (list_to_map (a ++ (k, v) :: b) : gmap bytes Z) = <[k := v]> (list_to_map (a ++ b)).
Proof.
  intros Hnd. rewrite <- list_to_map_cons. apply list_to_map_proper; [done|].
  symmetry. apply Permutation_middle.
Qed.

Lemma slot_rep_set sl a b k v w rest :
  slot_rep sl (a ++ (k, v) :: b) -> 0 <= w < 2 ^ 64 ->
  slot_rep (Slot (enc_slot a ++ enc (k, w) ++ enc_slot b ++ rest) (sl_size sl)) (a ++ (k, w) :: b).
Proof.
  intros Hr Hw. pose proof (entry_at_ok _ _ _ _ Hr) as [Hk _]. destruct Hr as [Hs _ Hok Hnd]. split; cbn.
  - rewrite Hs, !enc_slot_app, !enc_slot_cons, !length_app, !enc_length. done.
  - exists rest. by rewrite enc_slot_app, enc_slot_cons, <- !app_assoc.
  - apply Forall_app in Hok as [Ha Hb]. inversion Hb; subst. apply Forall_app. split; [done|]. by constructor.
  - by eapply NoDup_keys_middle.
Qed.

Lemma val_store_ok t ess p k v w :
  table_rep t ess -> at_ptr ess p k v -> 0 <= w < 2 ^ 64 -> Z.of_nat (length ess) < 2 ^ 32 ->
  exists t' ess', val_store t p w = Ok t' /\ table_rep t' ess' /\ length ess' = length ess /\
    ah_map ess' = <[k := w]> (ah_map ess) /\ ah_max_m t' = ah_max_m t /\ ah_m t' = ah_m t.
Proof.
  intros Ht (i & a & b & Hi & ->) Hw Hn. destruct (slot_at_rep _ _ _ _ Ht Hi) as (sl & Hsl & _ & Hr).
  destruct (buf_at_entry _ _ _ _ Hr) as (rest & Hb).
  pose proof (slot_rep_set sl a b k v w rest Hr Hw) as Hr'.
  set (sl' := Slot _ _) in Hr'.
  assert (Hk : slot_index (length ess) k = Ok i) by (eapply (tr_hash _ _ Ht i _ (k, v)); [done|set_solver]).
  assert (Ht' : table_rep (with_slots t (ah_m t) (<[i := sl']> (ah_slots t))) (<[i := a ++ (k, w) :: b]> ess)).
  { eapply table_rep_update; [exact Ht|exact Hi|exact Hr'| |].
    - intros e He. apply elem_of_app in He. rewrite elem_of_cons in He.
      destruct He as [He|[->|He]]; [|done|]; (eapply (tr_hash _ _ Ht); [exact Hi|set_solver]).
    - rewrite !length_app. cbn. lia. }
  eexists _, _. split; [|split; [exact Ht'|]].
  - unfold val_store. cbn [fst snd]. rewrite Hsl. cbn [mbind result_bind].
    by rewrite Hb, val_write.
  - split; [by rewrite length_insert|]. split; [|done].
    eapply (ah_map_update t ess i); [exact Ht|exact Hi|exact Ht'| | |done].
    + intros k' Hk'. rewrite list_to_map_middle by apply Hr'.
      destruct (decide (k = k')) as [<-|Hne].
      * by rewrite !lookup_insert_eq.
      * rewrite !lookup_insert_ne by done. rewrite (ah_map_lookup t ess i _ k' Ht Hk' Hi).
        rewrite list_to_map_middle by apply Hr. by rewrite lookup_insert_ne.
    + intros k' Hk'. rewrite lookup_insert_ne; [done|]. intros <-. by apply Hk'.
Qed.

(** A lookup either finds the entry of the key or its slot does not have it. *)
Lemma find_cases (t : ahtable) (ess : list (list (bytes * Z))) (k : bytes) :
  table_rep t ess -> Z.of_nat (length ess) < 2 ^ 32 ->
  exists i sl es, slot_index (length ess) k = Ok i /\ ess !! i = Some es /\ slot_at t i = Ok sl /\
    slot_rep sl es /\
    ((exists a b v, es = a ++ (k, v) :: b /\ ah_map ess !! k = Some v /\
        find_in sl k = Ok (Some (length (enc_slot a) + len_bytes (length k))%nat)) \/
     (k ∉ es.*1 /\ ah_map ess !! k = None /\ find_in sl k = Ok None)).
Proof.
  intros Ht Hn. destruct (slot_index_ok (length ess) k (tr_pos _ _ Ht) Hn) as (i & Hi & Hlt).
  destruct (lookup_lt_is_Some_2 ess i Hlt) as [es Hes].
  destruct (slot_at_rep _ _ _ _ Ht Hes) as (sl & Hsl & _ & Hr).
  exists i, sl, es. do 4 (split; [done|]).
  destruct (decide (k ∈ es.*1)) as [Hin|Hnin].
  - left. apply list_elem_of_fmap in Hin as ([k' v] & Hk & Hin). cbn in Hk. subst k'.
    apply list_elem_of_split in Hin as (a & b & ->). exists a, b, v. split; [done|].
    split; [eapply ah_map_Some; [done|done|set_solver]|]. by eapply find_in_Some.
  - right. split; [done|]. split; [by eapply ah_map_None|]. by eapply find_in_None.
Qed.

Lemma get_key_find t ess k ins :
  table_rep t ess -> Z.of_nat (length ess) < 2 ^ 32 -> (ins = true -> ah_m t < ah_max_m t) ->
  forall v, ah_map ess !! k = Some v -> exists p, get_key t k ins = Ok (Some p, t) /\ at_ptr ess p k v.
Proof.
  intros Ht Hn Hm v Hv.
  destruct (find_cases t ess k Ht Hn) as (i & sl & es & Hi & Hes & Hsl & Hr & [(a & b & v' & -> & Hv' & Hf)|(_ & Hnone & _)]);
    [|congruence].
  assert (v' = v) as -> by congruence.
  exists (i, (length (enc_slot a) + len_bytes (length k) + length k)%nat). split; [|by exists i, a, b].
  unfold get_key.
  assert (Hexp : ins && bool_decide (ah_max_m t <= ah_m t) = false).
  { destruct ins; [|done]. cbn. apply bool_decide_eq_false_2. specialize (Hm eq_refl). lia. }
  rewrite Hexp. cbn [mbind result_bind]. rewrite (tr_length _ _ Ht), Hi. cbn [mbind result_bind]. rewrite Hsl. cbn [mbind result_bind].
  by rewrite Hf.
Qed.

Lemma get_key_missing t ess k :
  table_rep t ess -> Z.of_nat (length ess) < 2 ^ 32 -> ah_map ess !! k = None -> get_key t k false = Ok (None, t).
Proof.
  intros Ht Hn Hv.
  destruct (find_cases t ess k Ht Hn) as (i & sl & es & Hi & Hes & Hsl & Hr & [(a & b & v' & -> & Hv' & Hf)|(_ & Hnone & Hf)]);
    [congruence|].
  unfold get_key. cbn [andb mbind result_bind]. rewrite (tr_length _ _ Ht), Hi.
  cbn [mbind result_bind]. rewrite Hsl. cbn [mbind result_bind]. by rewrite Hf.
Qed.

(** [realloc] keeps the entries and leaves room after them. *)
Lemma realloc_room (x rest : bytes) n : exists y, realloc (x ++ rest) (length x + n) = x ++ y /\ length y = n.
Proof.
  exists (take n rest ++ replicate (n - length rest) 0). split.
  - unfold realloc. rewrite take_app_ge by lia. rewrite <- app_assoc. f_equal.
    replace (length x + n - length x)%nat with n by lia. f_equal. f_equal. rewrite length_app. lia.
  - rewrite length_app, length_take, length_replicate. lia.
Qed.

Lemma slot_rep_snoc sl es k v rest :
  slot_rep sl es -> entry_ok (k, v) -> k ∉ es.*1 ->
  slot_rep (Slot (enc_slot es ++ enc (k, v) ++ rest) (sl_size sl + length (enc (k, v)))) (es ++ [(k, v)]).
Proof.
  intros [Hs _ Hok Hnd] Hk Hn. split; cbn.
  - by rewrite Hs, enc_slot_app, enc_slot_singleton, length_app.
  - exists rest. by rewrite enc_slot_app, enc_slot_singleton, <- app_assoc.
  - apply Forall_app. split; [done|]. by constructor.
  - rewrite fmap_app. cbn. by apply NoDup_snoc.
Qed.

Lemma get_key_insert t ess k :
  table_rep t ess -> Z.of_nat (length ess) < 2 ^ 32 -> ah_m t < ah_max_m t -> (length k <= MAX_KEY)%nat ->
  ah_map ess !! k = None ->
  exists p t' ess', get_key t k true = Ok (Some p, t') /\ table_rep t' ess' /\ length ess' = length ess /\
    at_ptr ess' p k 0 /\ ah_map ess' = <[k := 0]> (ah_map ess) /\
    ah_max_m t' = ah_max_m t /\ ah_m t' = ah_m t + 1.
Proof.
  intros Ht Hn Hm Hk Hv.
  destruct (find_cases t ess k Ht Hn) as (i & sl & es & Hi & Hes & Hsl & Hr & [(a & b & v' & -> & Hv' & Hf)|(Hnin & _ & Hf)]);
    [congruence|].
  pose proof Hr as [Hsz (rest & Hb) _ _].
  set (d := (1 + (if decide (128 <= length k)%nat then 1 else 0) + length k + VALSZ)%nat).
  assert (Hd : d = length (enc (k, 0))).
  { unfold d. rewrite enc_length. cbn [fst]. unfold len_bytes. repeat case_decide; lia. }
  destruct (realloc_room (enc_slot es) rest d) as (y & Hy & Hyl). rewrite <- Hb, <- Hsz in Hy.
  pose proof (slot_rep_snoc sl es k 0 [] Hr (conj Hk (conj (Z.le_refl 0) eq_refl)) Hnin) as Hr'.
  rewrite app_nil_r, <- Hd in Hr'. set (sl' := Slot _ _) in Hr'.
  set (t' := with_slots t (ah_m t + 1) (<[i := sl']> (ah_slots t))).
  assert (Ht' : table_rep t' (<[i := es ++ [(k, 0)]]> ess)).
  { eapply table_rep_update; [exact Ht|exact Hes|exact Hr'| |].
    - intros e [He|He%list_elem_of_singleton]%elem_of_app; [by eapply (tr_hash _ _ Ht)|by subst e].
    - rewrite length_app. cbn. lia. }
  exists (i, val_off (length (enc_slot es)) k), t', (<[i := es ++ [(k, 0)]]> ess).
  split; [|split; [exact Ht'|split; [by rewrite length_insert|split; [|split; [|done]]]]].
  - unfold get_key. cbn [andb]. rewrite bool_decide_eq_false_2 by lia. cbn [mbind result_bind].
    rewrite (tr_length _ _ Ht), Hi. cbn [mbind result_bind]. rewrite Hsl. cbn [mbind result_bind]. rewrite Hf.
    cbv zeta. replace (sl_size sl + (1 + _) + length k + VALSZ)%nat with (sl_size sl + d)%nat by (unfold d; lia).
    rewrite Hy. rewrite <- (app_nil_r y), (ins_key_ok (enc_slot es) y []) by (try done; congruence).
    cbn [mbind result_bind fst snd]. rewrite app_nil_r. unfold t', sl'. by rewrite <- Hsz.
  - exists i, es, []. split; [|done]. apply list_lookup_insert_eq. by eapply lookup_lt_Some.
  - eapply (ah_map_update t ess i); [exact Ht|exact Hes|exact Ht'| | |done].
    + intros k' Hk'. rewrite list_to_map_middle by apply Hr'. rewrite app_nil_r.
      destruct (decide (k = k')) as [<-|Hne]; [by rewrite !lookup_insert_eq|].
      rewrite !lookup_insert_ne by done. by rewrite (ah_map_lookup t ess i es k').
    + intros k' Hk'. rewrite lookup_insert_ne; [done|]. intros <-. by apply Hk'.
Qed.

(** Removal moves what follows the entry over it. *)
Lemma del_ok t ess k :
  table_rep t ess -> Z.of_nat (length ess) < 2 ^ 32 ->
  match ah_map ess !! k with
  | None => ahtable_del t k = Ok (-1, t)
  | Some _ => exists t' ess', ahtable_del t k = Ok (0, t') /\ table_rep t' ess' /\ length ess' = length ess /\
      ah_map ess' = delete k (ah_map ess) /\ ah_max_m t' = ah_max_m t /\ ah_m t' = ah_m t - 1
  end.
Proof.
  intros Ht Hn.
  destruct (find_cases t ess k Ht Hn) as (i & sl & es & Hi & Hes & Hsl & Hr & [(a & b & v & -> & -> & Hf)|(Hnin & -> & Hf)]).
  2: { unfold ahtable_del. rewrite (tr_length _ _ Ht), Hi. cbn [mbind result_bind].
       rewrite Hsl. cbn [mbind result_bind]. by rewrite Hf. }
  pose proof Hr as [Hsz _ Hok Hnd]. destruct (buf_at_entry _ _ _ _ Hr) as (rest & Hb).
  set (buf' := enc_slot a ++ enc_slot b ++ drop (length (enc_slot b)) (enc (k, v) ++ enc_slot b ++ rest)).
  assert (Hr' : slot_rep (Slot buf' (length (enc_slot (a ++ b)))) (a ++ b)).
  { split; cbn; [done| | |].
    - eexists. unfold buf'. by rewrite enc_slot_app, <- app_assoc.
    - apply Forall_app in Hok as [Ha Hb']. inversion Hb'; subst. by apply Forall_app.
    - rewrite fmap_app in Hnd |- *. cbn in Hnd. apply NoDup_app in Hnd as (H1 & H2 & H3).
      apply NoDup_cons in H3 as [H3 H4]. apply NoDup_app. split; [done|]. split; [set_solver|done]. }
  set (t' := with_slots t (ah_m t - 1) (<[i := Slot buf' (length (enc_slot (a ++ b)))]> (ah_slots t))).
  assert (Ht' : table_rep t' (<[i := a ++ b]> ess)).
  { eapply table_rep_update; [exact Ht|exact Hes|exact Hr'| |].
    - intros e He. eapply (tr_hash _ _ Ht); [exact Hes|set_solver].
    - rewrite !length_app. cbn. lia. }
  exists t', (<[i := a ++ b]> ess). split; [|split; [exact Ht'|split; [by rewrite length_insert|split; [|done]]]].
  - unfold ahtable_del. rewrite (tr_length _ _ Ht), Hi. cbn [mbind result_bind].
    rewrite Hsl. cbn [mbind result_bind]. rewrite Hf. cbv zeta.
    rewrite enc_slot_app, enc_slot_cons, !length_app, enc_length in Hsz. cbn [fst] in Hsz.
    set (t0 := (length (enc_slot a) + len_bytes (length k) + length k + VALSZ)%nat).
    assert (Hread : buf_read (sl_buf sl) t0 (sl_size sl - t0) = Ok (enc_slot b)).
    { rewrite Hb, app_assoc. unfold t0.
      apply buf_read_mid; rewrite ?length_app, ?enc_length; cbn [fst]; lia. }
    cbn [mbind result_bind]. fold t0. rewrite Hread, Hb. cbn [mbind result_bind]. unfold t0.
    rewrite buf_write_ok by (rewrite !length_app, enc_length; cbn [fst]; lia).
    cbn [mbind result_bind]. f_equal. f_equal. unfold t'. f_equal. f_equal. f_equal.
    + replace (length (enc_slot a) + len_bytes (length k) - len_bytes (length k))%nat with (length (enc_slot a)) by lia.
      rewrite take_app_length. unfold buf'. f_equal. f_equal. rewrite drop_app_ge by lia. f_equal. lia.
    + rewrite enc_slot_app, length_app. lia.
  - eapply (ah_map_update t ess i); [exact Ht|exact Hes|exact Ht'| | |done].
    + intros k' Hk'. destruct (decide (k = k')) as [<-|Hne].
      * rewrite lookup_delete_eq. apply not_elem_of_list_to_map_1.
        rewrite fmap_app in Hnd |- *. cbn in Hnd. apply NoDup_app in Hnd as (_ & H2 & H3).
        apply NoDup_cons in H3 as [H3 _]. intros [Hin|Hin]%elem_of_app; [|done]. apply (H2 k Hin). set_solver.
      * rewrite lookup_delete_ne by done. rewrite (ah_map_lookup t ess i _ k' Ht Hk' Hes).
        rewrite list_to_map_middle by done. by rewrite lookup_insert_ne.
    + intros k' Hk'. rewrite lookup_delete_ne; [done|]. intros <-. by apply Hk'.
Qed.
