(* ===== verification/AhtableIter.v ===== *)
(** * The array hash table: iteration and expansion

    The unsorted iterator visits every entry once, [ahtable_expand] keeps the map,
    the sorted iterator gives the keys in order, and a saved table loads back. *)
From S2P Require Import Prelude CLib Bytes Murmur Ahtable AhtableOk.
From stdpp Require Import sorting.

#[local] Open Scope Z_scope.

(** ** Visiting the entries *)

(** The keys of a slot from offset [s] on, each with the pointer to its value. *)
Fixpoint slot_ptrs (i s : nat) (es : list (bytes * Z)) : list (bytes * (nat * nat)) :=
  match es with
  | [] => []
  | e :: es => (e.1, (i, val_off s e.1)) :: slot_ptrs i (s + length (enc e)) es
  end.

Fixpoint all_ptrs (i : nat) (ess : list (list (bytes * Z))) : list (bytes * (nat * nat)) :=
  match ess with
  | [] => []
  | es :: ess => slot_ptrs i 0 es ++ all_ptrs (S i) ess
  end.

Fixpoint foldR {A B} (f : A -> B -> result A) (a : A) (l : list B) : result A :=
  match l with
  | [] => Ok a
  | b :: l => a ← f a b; foldR f a l
  end.

Lemma slot_rep_empty sl es : slot_rep sl es -> sl_size sl = 0%nat -> es = [].
Proof.
  intros [Hs _ _ _] H0. destruct es as [|e es]; [done|].
  rewrite Hs, enc_slot_length_cons in H0. unfold VALSZ in H0. lia.
Qed.

Lemma slot_rep_nonempty sl e es : slot_rep sl (e :: es) -> sl_size sl <> 0%nat.
Proof. intros Hr H0. by apply slot_rep_empty in Hr. Qed.

(** The first entry at or after slot [i]. *)
Lemma skip_empty_ptrs sls ess i :
  Forall2 slot_rep sls ess ->
  let j := skip_empty sls i in
  (i <= j <= i + length sls)%nat /\
  all_ptrs i ess = all_ptrs j (drop (j - i) ess) /\
  (j < i + length sls -> exists e es rest, drop (j - i) ess = (e :: es) :: rest)%nat.
Proof.
  intros Hr. revert i. induction Hr as [|sl es sls ess Hsl Hr IH]; intros i; cbn [skip_empty].
  - cbn. rewrite Nat.sub_diag. split; [lia|]. split; [done|lia].
  - case_decide as H0.
    + destruct (IH (S i)) as (Hle & Hp & Hne). pose proof (slot_rep_empty _ _ Hsl H0) as ->.
      cbn [length]. split; [lia|]. cbn [all_ptrs slot_ptrs app].
      set (j := skip_empty sls (S i)) in *.
      replace (j - i)%nat with (S (j - S i)) by lia. cbn [drop]. split; [done|]. intros Hlt. apply Hne. lia.
    + rewrite Nat.sub_diag. cbn [length]. split; [lia|]. split; [done|]. intros _.
      destruct es as [|e es]; [|by eauto]. destruct Hsl as [Hs _ _ _]. by rewrite Hs in H0.
Qed.

(** The iterator's place: entry [e] after the entries [a] of slot [i]. *)
Definition it_at (t : ahtable) (ess : list (list (bytes * Z))) (it : uiter) (l : list (bytes * (nat * nat))) : Prop :=
  match l with
  | [] => (length ess <= it_i it)%nat
  | _ => exists a e b, ess !! it_i it = Some (a ++ e :: b) /\ it_s it = length (enc_slot a) /\
           l = slot_ptrs (it_i it) (it_s it) (e :: b) ++ all_ptrs (S (it_i it)) (drop (S (it_i it)) ess)
  end.

Lemma it_at_skip t ess i :
  table_rep t ess -> (i <= length ess)%nat ->
  it_at t ess (Iter (skip_empty (drop i (ah_slots t)) i) 0) (all_ptrs i (drop i ess)).
Proof.
  intros Ht Hi. pose proof (tr_length _ _ Ht) as Hlen.
  destruct (skip_empty_ptrs (drop i (ah_slots t)) (drop i ess) i) as (Hle & Hp & Hne).
  { apply Forall2_drop, Ht. }
  set (j := skip_empty _ i) in *. rewrite Hp, drop_drop. rewrite length_drop in Hle, Hne.
  replace (i + (j - i))%nat with j by lia. rewrite drop_drop in Hne.
  replace (i + (j - i))%nat with j in Hne by lia.
  destruct (decide (j < length ess)%nat) as [Hlt|Hge].
  - destruct Hne as (e & es & rest & Hd); [lia|]. rewrite Hd. cbn [all_ptrs slot_ptrs app it_at].
    assert (Hj : ess !! j = Some (e :: es)).
    { rewrite <- (Nat.add_0_r j), <- lookup_drop, Hd. done. }
    assert (Hr : drop (S j) ess = rest).
    { pose proof (drop_S _ _ _ Hj) as Hds. rewrite Hd in Hds. by injection Hds as <-. }
    exists [], e, es. cbn [it_i it_s app]. by rewrite Hr.
  - rewrite drop_ge by lia. cbn. lia.
Qed.

Lemma it_at_begin t ess : table_rep t ess -> it_at t ess (ahtable_unsorted_iter_begin t) (all_ptrs 0 ess).
Proof. intros Ht. apply (it_at_skip t ess 0); [done|lia]. Qed.

Lemma it_at_finished t ess it l :
  table_rep t ess -> it_at t ess it l -> ahtable_unsorted_iter_finished t it = bool_decide (l = []).
Proof.
  intros Ht Hat. unfold ahtable_unsorted_iter_finished. rewrite (tr_length _ _ Ht).
  apply bool_decide_ext. destruct l as [|x l]; [done|]. split; [|done].
  destruct Hat as (a & e & b & Hi & _). apply lookup_lt_Some in Hi. lia.
Qed.

Lemma it_at_step t ess it k p l :
  table_rep t ess -> it_at t ess it ((k, p) :: l) ->
  ahtable_unsorted_iter_key t it = Ok (Some k) /\ ahtable_unsorted_iter_val t it = Ok (Some p) /\
  (exists v, at_ptr ess p k v) /\
  exists it', ahtable_unsorted_iter_next t it = Ok it' /\ it_at t ess it' l.
Proof.
  intros Ht Hat. pose proof (it_at_finished _ _ _ _ Ht Hat) as Hfin. rewrite bool_decide_eq_false_2 in Hfin by done.
  destruct Hat as (a & e & b & Hi & Hs & Hl). cbn [slot_ptrs app] in Hl. injection Hl as -> -> Hl.
  destruct (slot_at_rep _ _ _ _ Ht Hi) as (sl & Hsl & _ & Hr).
  destruct (buf_at_entry _ _ _ _ Hr) as (rest & Hb). destruct (entry_at_ok _ _ _ _ Hr) as [Hk _].
  unfold ahtable_unsorted_iter_key, ahtable_unsorted_iter_val, ahtable_unsorted_iter_next.
  rewrite Hfin, Hsl. cbn [mbind result_bind]. rewrite Hb, key_head_enc, keylen_enc by done.
  cbn [mbind result_bind fst snd]. split; [|split; [|split]].
  - rewrite key_enc by (try done; congruence). done.
  - done.
  - exists e.2, (it_i it), a, b. destruct e. by rewrite Hs.
  - set (s' := (it_s it + len_bytes (length e.1) + (length e.1 + VALSZ))%nat).
    assert (Hs' : s' = length (enc_slot (a ++ [e]))).
    { rewrite enc_slot_app, enc_slot_singleton, length_app, enc_length. unfold s'. lia. }
    pose proof (sr_size _ _ Hr) as Hsz.
    replace (a ++ e :: b) with ((a ++ [e]) ++ b) in Hsz, Hi by (by rewrite <- app_assoc).
    rewrite enc_slot_app, length_app, <- Hs' in Hsz.
    replace (it_s it + length (enc e))%nat with s' in Hl by (rewrite enc_length; unfold s'; lia).
    case_decide as Hend.
    + assert (b = []) as ->.
      { destruct b as [|e' b]; [done|]. rewrite enc_slot_length_cons in Hsz. unfold VALSZ in Hsz. lia. }
      eexists. split; [done|]. rewrite Hl. cbn [slot_ptrs app].
      apply it_at_skip; [done|]. apply lookup_lt_Some in Hi. lia.
    + destruct b as [|e' b]; [cbn in Hsz; lia|].
      eexists. split; [done|]. rewrite Hl. cbn [slot_ptrs app it_at].
      exists (a ++ [e]), e', b. done.
Qed.

(** The loop over the iterator is a fold over the entries. *)
Lemma iter_fold_ok {A} fuel t ess it (f : A -> bytes -> nat * nat -> result A) a m l :
  table_rep t ess -> it_at t ess it l -> (length l < fuel)%nat ->
  iter_fold fuel t it f a m =
    (r ← foldR (fun a kp => f a kp.1 kp.2) a l; Ok (r, m + Z.of_nat (length l))).
Proof.
  intros Ht. revert it a m l. induction fuel as [|fuel IH]; intros it a m l Hat Hf; [lia|].
  cbn [iter_fold]. rewrite (it_at_finished _ _ _ _ Ht Hat). destruct l as [|[k p] l].
  - rewrite bool_decide_eq_true_2 by done. cbn. do 2 f_equal. lia.
  - rewrite bool_decide_eq_false_2 by done.
    destruct (it_at_step _ _ _ _ _ _ Ht Hat) as (-> & -> & _ & it' & Hnext & Hat').
    cbn [mbind result_bind from_option_fault foldR fst snd]. destruct (f a k p) as [a'|]; [|done].
    cbn [mbind result_bind]. rewrite Hnext. cbn [mbind result_bind]. rewrite (IH it' a' (m + 1) l Hat') by (cbn in Hf; lia).
    cbn [length]. destruct (foldR _ a' l); cbn; [|done]. do 2 f_equal. lia.
Qed.

(** The entries visited. *)
Lemma slot_ptrs_keys i s es : (slot_ptrs i s es).*1 = es.*1.
Proof. revert s. induction es as [|e es IH]; intros s; cbn; [done|]. by rewrite IH. Qed.

Lemma all_ptrs_keys i ess : (all_ptrs i ess).*1 = (mjoin ess).*1.
Proof.
  revert i. induction ess as [|es ess IH]; intros i; cbn; [done|].
  by rewrite !fmap_app, slot_ptrs_keys, IH.
Qed.

Lemma all_ptrs_length i ess : length (all_ptrs i ess) = length (mjoin ess).
Proof. rewrite <- (length_fmap fst), all_ptrs_keys. apply length_fmap. Qed.

Lemma slot_ptrs_at ess i a es kp :
  ess !! i = Some (a ++ es) -> kp ∈ slot_ptrs i (length (enc_slot a)) es -> exists v, at_ptr ess kp.2 kp.1 v.
Proof.
  revert a. induction es as [|e es IH]; intros a Hi; cbn [slot_ptrs]; [by intros ?%not_elem_of_nil|].
  intros [->|Hin]%elem_of_cons.
  - exists e.2, i, a, es. destruct e. done.
  - apply (IH (a ++ [e])).
    + by rewrite <- app_assoc.
    + by rewrite enc_slot_app, enc_slot_singleton, length_app.
Qed.

Lemma all_ptrs_at ess kp : kp ∈ all_ptrs 0 ess -> exists v, at_ptr ess kp.2 kp.1 v.
Proof.
  assert (H : forall ess2 i, (forall j es, ess2 !! j = Some es -> ess !! (i + j)%nat = Some es) ->
    kp ∈ all_ptrs i ess2 -> exists v, at_ptr ess kp.2 kp.1 v).
  { induction ess2 as [|es ess2 IH]; intros i Hsub; cbn [all_ptrs]; [by intros ?%not_elem_of_nil|].
    intros [Hin|Hin]%elem_of_app.
    - apply (slot_ptrs_at ess i [] es); [|done]. pose proof (Hsub 0%nat es eq_refl) as H0. by rewrite Nat.add_0_r in H0.
    - apply (IH (S i)); [|done]. intros j es' Hj. rewrite <- (Hsub (S j) es' Hj). f_equal. lia. }
  apply (H ess 0%nat). done.
Qed.

Lemma iter_fuel_enough t ess : table_rep t ess -> (length (all_ptrs 0 ess) < iter_fuel t)%nat.
Proof.
  intros [Hs _ _ _]. unfold iter_fuel. rewrite all_ptrs_length.
  induction Hs as [|sl es sls ess Hsl _ IH]; cbn; [lia|].
  pose proof (enc_slot_length es). destruct Hsl as [Hsz _ _ _]. rewrite length_app.
  change (mjoin (M:=list) ess) with (mjoin ess) in *. cbn in IH. rewrite Hsz. unfold sum_list in *. lia.
Qed.

(** ** Expansion *)
Section expand.
Context (t : ahtable) (ess : list (list (bytes * Z))) (N : nat).
Context (Ht : table_rep t ess) (HN : (0 < N)%nat) (HN32 : Z.of_nat N < 2 ^ 32).

Let L := mjoin ess.

(** The entries that go to slot [j]. *)
Definition bucket (j : nat) (l : list (bytes * Z)) : list (bytes * Z) :=
  filter (fun e => slot_index N e.1 = Ok j) l.

Definition sizes_of (d : list (bytes * Z)) : list nat :=
  (fun j => length (enc_slot (bucket j d))) <$> seq 0 N.

Definition bufs_of (d r : list (bytes * Z)) : list bytes :=
  (fun j => enc_slot (bucket j d) ++ replicate (length (enc_slot (bucket j r))) 0) <$> seq 0 N.

Lemma bucket_app j a b : bucket j (a ++ b) = bucket j a ++ bucket j b.
Proof. apply filter_app. Qed.

Lemma bucket_one j e h : slot_index N e.1 = Ok h -> bucket j [e] = if decide (h = j) then [e] else [].
Proof.
  intros Hh. unfold bucket. case_decide as Hhj.
  - rewrite filter_cons_True; [done|by subst].
  - rewrite filter_cons_False; [done|congruence].
Qed.

Lemma seq_map_lookup {A} (f : nat -> A) j : (j < N)%nat -> (f <$> seq 0 N) !! j = Some (f j).
Proof. intros Hj. rewrite list_lookup_fmap, lookup_seq_lt by done. done. Qed.

(** Changing the value at [h] only. *)
Lemma seq_map_insert {A} (f g : nat -> A) h x : (h < N)%nat -> x = g h ->
  (forall j, j <> h -> f j = g j) -> <[h := x]> (f <$> seq 0 N) = g <$> seq 0 N.
Proof.
  intros Hh -> Hfg. apply list_eq. intros j. destruct (decide (j = h)) as [->|Hne].
  - rewrite list_lookup_insert_eq by (by rewrite length_fmap, length_seq). by rewrite seq_map_lookup.
  - rewrite list_lookup_insert_ne by done. rewrite !list_lookup_fmap.
    destruct (decide (j < N)%nat); [|by rewrite !lookup_seq_ge by lia].
    rewrite !lookup_seq_lt by done. cbn. by rewrite Hfg.
Qed.

Lemma entry_size_enc k v : entry_size (length k) = length (enc (k, v)).
Proof. rewrite enc_length. cbn [fst]. unfold entry_size, len_bytes. repeat case_decide; lia. Qed.

Lemma bucket_snoc_len j d e h : slot_index N e.1 = Ok h ->
  length (enc_slot (bucket j (d ++ [e]))) =
    (length (enc_slot (bucket j d)) + if decide (h = j) then length (enc e) else 0)%nat.
Proof.
  intros Hh. rewrite bucket_app, enc_slot_app, length_app, (bucket_one j e h Hh).
  case_decide; [by rewrite enc_slot_singleton|done].
Qed.

(** A pointer with the entry it leads to. *)
Definition leads (kp : bytes * (nat * nat)) (e : bytes * Z) : Prop :=
  kp.1 = e.1 /\ val_load t kp.2 = Ok e.2 /\ entry_ok e.

Lemma sizes_step d e h x : slot_index N e.1 = Ok h -> (h < N)%nat ->
  x = (length (enc_slot (bucket h d)) + length (enc e))%nat ->
  <[h := x]> (sizes_of d) = sizes_of (d ++ [e]).
Proof.
  intros Hh Hlt ->. apply seq_map_insert; [done| |].
  - by rewrite (bucket_snoc_len h d e h Hh), decide_True.
  - intros j Hj. rewrite (bucket_snoc_len j d e h Hh), decide_False by congruence. lia.
Qed.

Lemma sizes_lookup d h : (h < N)%nat -> sizes_of d !! h = Some (length (enc_slot (bucket h d))).
Proof. intros Hh. unfold sizes_of. by rewrite seq_map_lookup. Qed.

Lemma bufs_lookup d r h : (h < N)%nat ->
  bufs_of d r !! h = Some (enc_slot (bucket h d) ++ replicate (length (enc_slot (bucket h r))) 0).
Proof. intros Hh. unfold bufs_of. by rewrite seq_map_lookup. Qed.

Lemma count_size_step d e p : count_size N (sizes_of d) e.1 p = Ok (sizes_of (d ++ [e])).
Proof.
  destruct (slot_index_ok N e.1 HN HN32) as (h & Hh & Hlt).
  unfold count_size. rewrite Hh. cbn [mbind result_bind].
  rewrite sizes_lookup by done. cbn [from_option_fault mbind result_bind].
  f_equal. eapply sizes_step; [done|done|]. destruct e as [k v]. cbn [fst]. by rewrite (entry_size_enc k v).
Qed.

Lemma count_size_ok ptrs l d :
  Forall2 leads ptrs l ->
  foldR (fun a kp => count_size N a kp.1 kp.2) (sizes_of d) ptrs = Ok (sizes_of (d ++ l)).
Proof.
  intros Hl. revert d. induction Hl as [|[k p] e ptrs l [Hk _] _ IH]; intros d; cbn [foldR fst snd].
  - by rewrite app_nil_r.
  - cbn in Hk. subst k. rewrite count_size_step. cbn [mbind result_bind].
    rewrite IH. by rewrite <- app_assoc.
Qed.

Lemma move_entry_step d e p l :
  val_load t p = Ok e.2 -> entry_ok e ->
  move_entry t N (bufs_of d (e :: l), sizes_of d) e.1 p =
    Ok (bufs_of (d ++ [e]) l, sizes_of (d ++ [e])).
Proof.
  intros Hv [Hlen _]. destruct (slot_index_ok N e.1 HN HN32) as (h & Hh & Hlt).
  unfold move_entry. rewrite Hh. cbn [mbind result_bind fst snd].
  rewrite bufs_lookup, sizes_lookup by done. cbn [from_option_fault mbind result_bind].
  set (r0 := replicate (length (enc_slot (bucket h l))) 0).
  assert (Hbuf : enc_slot (bucket h d) ++ replicate (length (enc_slot (bucket h (e :: l)))) 0 =
    enc_slot (bucket h d) ++ replicate (length (enc (e.1, 0))) 0 ++ r0).
  { f_equal. unfold r0. rewrite <- replicate_add. f_equal.
    change (e :: l) with ([e] ++ l). rewrite bucket_app, (bucket_one h e h Hh), decide_True by done.
    rewrite enc_slot_app, length_app, enc_slot_singleton, !enc_length. done. }
  rewrite Hbuf, ins_key_ok by (rewrite ?length_replicate; done).
  cbn [mbind result_bind fst snd]. rewrite Hv. cbn [mbind result_bind].
  rewrite val_write by done. cbn [mbind result_bind]. f_equal. f_equal.
  - apply seq_map_insert; [done| |].
    + rewrite bucket_app, (bucket_one h e h Hh), decide_True by done.
      rewrite enc_slot_app, enc_slot_singleton, <- app_assoc. by destruct e.
    + intros j Hj. change (e :: l) with ([e] ++ l). rewrite !bucket_app, (bucket_one j e h Hh).
      rewrite decide_False by congruence. by rewrite app_nil_r.
  - eapply sizes_step; [done|done|]. by rewrite !enc_length.
Qed.

Lemma move_entry_ok ptrs l d :
  Forall2 leads ptrs l ->
  foldR (fun a kp => move_entry t N a kp.1 kp.2) (bufs_of d l, sizes_of d) ptrs =
    Ok (bufs_of (d ++ l) [], sizes_of (d ++ l)).
Proof.
  intros Hl. revert d. induction Hl as [|[k p] e ptrs l [Hk [Hv He]] _ IH]; intros d; cbn [foldR fst snd].
  - by rewrite app_nil_r.
  - cbn in Hk, Hv. subst k. rewrite move_entry_step by done. cbn [mbind result_bind].
    rewrite IH. by rewrite <- app_assoc.
Qed.

(** The iterator leads to the entries in order. *)
Lemma slot_ptrs_lead i a es :
  ess !! i = Some (a ++ es) -> Forall2 leads (slot_ptrs i (length (enc_slot a)) es) es.
Proof.
  revert a. induction es as [|e es IH]; intros a Hi; cbn [slot_ptrs]; constructor.
  - split; [done|]. split.
    + apply (val_load_ok t ess _ e.1 e.2 Ht). exists i, a, es. destruct e. by split.
    + destruct (slot_at_rep _ _ _ _ Ht Hi) as (sl & _ & _ & Hr). by eapply entry_at_ok.
  - rewrite <- length_app, <- enc_slot_singleton, <- enc_slot_app. apply IH. by rewrite <- app_assoc.
Qed.

Lemma all_ptrs_lead : Forall2 leads (all_ptrs 0 ess) L.
Proof.
  assert (H : forall ess2 i, (forall j es, ess2 !! j = Some es -> ess !! (i + j)%nat = Some es) ->
    Forall2 leads (all_ptrs i ess2) (mjoin ess2)).
  { induction ess2 as [|es ess2 IH]; intros i Hsub; cbn [all_ptrs]; [constructor|].
    change (mjoin (es :: ess2)) with (es ++ mjoin ess2). apply Forall2_app.
    - apply (slot_ptrs_lead i []). pose proof (Hsub 0%nat es eq_refl) as H0. by rewrite Nat.add_0_r in H0.
    - apply IH. intros j es' Hj. rewrite <- (Hsub (S j) es' Hj). f_equal. lia. }
  apply (H ess 0%nat). done.
Qed.

(** The table after the expansion. *)
Definition buckets : list (list (bytes * Z)) := (fun j => bucket j L) <$> seq 0 N.

Lemma bucket_elem j e : e ∈ bucket j L <-> slot_index N e.1 = Ok j /\ e ∈ L.
Proof. unfold bucket. by rewrite list_elem_of_filter. Qed.

Lemma buckets_at j es : buckets !! j = Some es -> es = bucket j L /\ (j < N)%nat.
Proof.
  unfold buckets. intros Hj. assert (j < N)%nat as Hlt.
  { apply lookup_lt_Some in Hj. by rewrite length_fmap, length_seq in Hj. }
  rewrite seq_map_lookup in Hj by done. by injection Hj as <-.
Qed.

Lemma NoDup_keys_filter (P : bytes * Z -> Prop) `{!forall e, Decision (P e)} (l : list (bytes * Z)) :
  NoDup l.*1 -> NoDup (filter P l).*1.
Proof.
  induction l as [|e l IH]; [done|]. intros Hnd. rewrite filter_cons. cbn in Hnd.
  apply NoDup_cons in Hnd as [Hn Hl]. case_decide; [|by apply IH]. cbn. apply NoDup_cons. split; [|by apply IH].
  intros (e' & He & He')%list_elem_of_fmap. apply Hn. rewrite He. apply list_elem_of_filter in He' as [_ He'].
  by apply (list_elem_of_fmap_2 fst).
Qed.

Lemma buckets_map : ah_map buckets = ah_map ess /\ length (mjoin buckets) = length L.
Proof.
  pose proof (tr_nodup _ _ Ht) as Hnd. fold L in Hnd.
  assert (Hnb : NoDup (mjoin buckets).*1).
  { apply (buckets_nodup (slot_index N) buckets 0).
    - intros i es e Hi He. apply buckets_at in Hi as [-> _]. by apply bucket_elem in He as [He _].
    - apply Forall_lookup. intros i es Hi. apply buckets_at in Hi as [-> _]. by apply NoDup_keys_filter. }
  assert (Hel : forall e, e ∈ mjoin buckets <-> e ∈ L).
  { intros e. split.
    - intros (i & es & Hi & He)%elem_of_join_at. apply buckets_at in Hi as [-> _]. by apply bucket_elem in He as [_ He].
    - intros He. destruct (slot_index_ok N e.1 HN HN32) as (h & Hh & Hlt).
      apply (elem_of_join_intro _ h (bucket h L)); [unfold buckets; by rewrite seq_map_lookup|by apply bucket_elem]. }
  assert (Hmap : ah_map buckets = ah_map ess).
  { apply map_eq. intros k. apply option_eq. intros v. unfold ah_map. fold L.
    rewrite <- !elem_of_list_to_map by done. apply Hel. }
  split; [done|].
  rewrite <- (length_fmap fst (mjoin buckets)), <- (length_fmap fst L).
  apply Permutation_length. apply NoDup_Permutation; [done|done|]. intros k.
  rewrite !list_elem_of_fmap. by setoid_rewrite Hel.
Qed.

Lemma zip_seq {A B C} (f : A -> B -> C) (g : nat -> A) (h : nat -> B) l :
  zip_with f (g <$> l) (h <$> l) = (fun j => f (g j) (h j)) <$> l.
Proof. induction l as [|x l IH]; cbn; [done|]. by rewrite IH. Qed.

Lemma buckets_rep t' :
  ah_slots t' = zip_with Slot (bufs_of L []) (sizes_of L) -> ah_m t' = ah_m t -> table_rep t' buckets.
Proof.
  intros Hs Hm. split.
  - rewrite Hs. unfold bufs_of, sizes_of, buckets. rewrite zip_seq.
    apply Forall2_fmap, Forall_Forall2_diag, Forall_forall. intros j _. split; cbn.
    + done.
    + by eexists.
    + apply Forall_forall. intros e [_ He]%bucket_elem.
      apply elem_of_join_at in He as (i & es & Hi & He).
      destruct (slot_at_rep _ _ _ _ Ht Hi) as (sl & _ & _ & Hr). pose proof (sr_ok _ _ Hr) as Hok.
      rewrite Forall_forall in Hok. by apply Hok.
    + apply NoDup_keys_filter. by apply (tr_nodup _ _ Ht).
  - unfold buckets. by rewrite length_fmap, length_seq.
  - intros i es e Hi He. unfold buckets at 1. rewrite length_fmap, length_seq.
    apply buckets_at in Hi as [-> _]. by apply bucket_elem in He as [He _].
  - rewrite Hm, (tr_m _ _ Ht). f_equal. symmetry. apply buckets_map.
Qed.
End expand.

(** ** The table as a map *)
Lemma fmap_const_len {A B} (x : B) (l : list A) : (fun _ => x) <$> l = replicate (length l) x.
Proof. induction l as [|y l IH]; cbn; [done|]. by rewrite IH. Qed.

Lemma expand_ok t ess :
  table_rep t ess -> Z.of_nat (2 * length ess) < 2 ^ 32 ->
  exists t' ess', ahtable_expand t = Ok t' /\ table_rep t' ess' /\ ah_map ess' = ah_map ess /\
    length ess' = (2 * length ess)%nat /\ ah_m t' = ah_m t /\
    ah_max_m t' = ahtable_max_load_factor * Z.of_nat (2 * length ess).
Proof.
  intros Ht HN32. pose proof (tr_pos _ _ Ht) as Hpos. set (N := (2 * length ess)%nat) in *.
  assert (HN : (0 < N)%nat) by lia.
  pose proof (all_ptrs_lead t ess N Ht HN) as Hlead. pose proof (it_at_begin t ess Ht) as Hat.
  pose proof (iter_fuel_enough t ess Ht) as Hfuel. pose proof (tr_m _ _ Ht) as Hm.
  assert (Hcount : forall z, z = 0 + Z.of_nat (length (all_ptrs 0 ess)) -> bool_decide (z = ah_m t) = true).
  { intros z ->. apply bool_decide_eq_true_2. rewrite Hm, all_ptrs_length. lia. }
  set (t' := AHTable (ah_flag t) (ah_c0 t) (ah_c1 t) (ah_m t) (ahtable_max_load_factor * Z.of_nat N)
               (zip_with Slot (bufs_of N (mjoin ess) []) (sizes_of N (mjoin ess)))).
  exists t', (buckets ess N). split; [|split; [|split; [|split; [|done]]]].
  - unfold ahtable_expand. rewrite bool_decide_eq_true_2 by (unfold ah_n; rewrite (tr_length _ _ Ht); lia).
    cbn [guard_fault mbind result_bind]. rewrite (tr_length _ _ Ht). fold N.
    rewrite (iter_fold_ok _ t ess _ _ _ _ _ Ht Hat Hfuel).
    assert (Hz : replicate N 0%nat = sizes_of N []).
    { change (replicate N 0%nat = (fun _ => 0%nat) <$> seq 0 N).
      by rewrite fmap_const_len, length_seq. }
    rewrite Hz, (count_size_ok t N HN HN32 _ (mjoin ess) [] Hlead).
    cbn [mbind result_bind fst snd]. rewrite Hcount by done. cbn [guard_fault mbind result_bind].
    rewrite (iter_fold_ok _ t ess _ _ _ _ _ Ht Hat Hfuel).
    assert (Hb : (fun z => replicate z 0) <$> sizes_of N ([] ++ mjoin ess) = bufs_of N [] (mjoin ess)).
    { unfold sizes_of, bufs_of. by rewrite <- list_fmap_compose. }
    rewrite Hb, (move_entry_ok t N HN HN32 _ (mjoin ess) [] Hlead).
    cbn [mbind result_bind fst snd]. rewrite Hcount by done. done.
  - by apply (buckets_rep t ess N Ht HN HN32).
  - by apply (buckets_map t ess N Ht HN HN32).
  - unfold buckets. by rewrite length_fmap, length_seq.
Qed.

(** [ah_rep t m]: the table [t] holds the map [m]. *)
Record ah_inv (t : ahtable) (ess : list (list (bytes * Z))) : Prop := {
  ahi_rep : table_rep t ess;
  ahi_n : Z.of_nat (length ess) < 2 ^ 32;
  ahi_max : ah_max_m t = ahtable_max_load_factor * Z.of_nat (length ess);
  ahi_m : ah_m t <= ah_max_m t
}.

Definition ah_rep (t : ahtable) (m : gmap bytes Z) : Prop := exists ess, ah_inv t ess /\ ah_map ess = m.

Lemma ah_map_size t ess : table_rep t ess -> Z.of_nat (size (ah_map ess)) = ah_m t.
Proof.
  intros Ht. rewrite (tr_m _ _ Ht). f_equal. unfold ah_map. rewrite map_size_list_to_map; [done|].
  by apply (tr_nodup _ _ Ht).
Qed.

(** Before an insertion the table has room. *)
Lemma get_key_room t ess k :
  ah_inv t ess -> Z.of_nat (size (ah_map ess)) < 2 ^ 47 ->
  exists t1 ess1, get_key t k true = get_key t1 k true /\ ah_inv t1 ess1 /\ ah_map ess1 = ah_map ess /\
    ah_m t1 < ah_max_m t1.
Proof.
  intros [Ht Hn Hmax Hm] Hsize. destruct (decide (ah_max_m t <= ah_m t)) as [Hfull|Hroom].
  2: { exists t, ess. split; [done|]. split; [done|]. split; [done|lia]. }
  pose proof (ah_map_size _ _ Ht) as Hsz. pose proof (tr_pos _ _ Ht) as Hpos.
  unfold ahtable_max_load_factor in *.
  destruct (expand_ok t ess Ht) as (t' & ess' & Hex & Ht' & Hmap & Hlen & Hm' & Hmax'); [lia|].
  unfold ahtable_max_load_factor in *.
  assert (Hroom : ah_m t' < ah_max_m t') by lia.
  exists t', ess'. split; [|split; [|done]].
  - unfold get_key. cbn [andb]. rewrite bool_decide_eq_true_2 by done. rewrite Hex.
    rewrite (bool_decide_eq_false_2 (ah_max_m t' <= ah_m t')) by lia. done.
  - split; [done|lia| |lia]. unfold ahtable_max_load_factor. by rewrite Hlen.
Qed.

Lemma create_rep n : (0 < n)%nat -> Z.of_nat n < 2 ^ 32 -> ah_rep (ahtable_create_n n) ∅.
Proof.
  intros Hn Hn32. exists (replicate n []).
  assert (Hj : forall k, mjoin (replicate k (@nil (bytes * Z))) = []) by (by induction k).
  split; [split|].
  - split; cbn [ahtable_create_n ah_slots ah_m].
    + apply Forall2_replicate. split; cbn; [done|by exists []|constructor|constructor].
    + by rewrite length_replicate.
    + intros i es e Hi He. apply lookup_replicate in Hi as [-> _]. by apply not_elem_of_nil in He.
    + by rewrite Hj.
  - by rewrite length_replicate.
  - by rewrite length_replicate.
  - unfold ahtable_create_n, ahtable_max_load_factor. cbn. lia.
  - unfold ah_map. by rewrite Hj.
Qed.

Lemma get_rep t m k :
  ah_rep t m -> (length k <= MAX_KEY)%nat -> Z.of_nat (size m) < 2 ^ 47 ->
  exists p t' ess', ahtable_get t k = Ok (Some p, t') /\ ah_inv t' ess' /\
    at_ptr ess' p k (default 0 (m !! k)) /\ ah_map ess' = <[k := default 0 (m !! k)]> m.
Proof.
  intros (ess & Hinv & <-) Hk Hsize.
  destruct (get_key_room t ess k Hinv Hsize) as (t1 & ess1 & Heq & [Ht1 Hn1 Hmax1 Hm1] & Hmap & Hroom).
  unfold ahtable_get. rewrite decide_False by lia. rewrite Heq, <- Hmap.
  destruct (ah_map ess1 !! k) as [v|] eqn:Hv.
  - destruct (get_key_find t1 ess1 k true Ht1 Hn1 (fun _ => Hroom) v Hv) as (p & Hg & Hp).
    exists p, t1, ess1. split; [done|]. split; [by split|]. split; [done|]. cbn. by rewrite insert_id.
  - destruct (get_key_insert t1 ess1 k Ht1 Hn1 Hroom Hk Hv) as (p & t' & ess' & Hg & Ht' & Hl & Hp & Hmap' & Hmx & Hmm).
    exists p, t', ess'. split; [done|]. split; [split; [done|lia|lia|lia]|]. done.
Qed.

Lemma store_rep t ess p k v w :
  ah_inv t ess -> at_ptr ess p k v -> 0 <= w < 2 ^ 64 ->
  exists t', val_store t p w = Ok t' /\ ah_rep t' (<[k := w]> (ah_map ess)).
Proof.
  intros [Ht Hn Hmax Hm] Hp Hw.
  destruct (val_store_ok t ess p k v w Ht Hp Hw Hn) as (t' & ess' & Hs & Ht' & Hl & Hmap & Hmx & Hmm).
  exists t'. split; [done|]. exists ess'. split; [split; [done|lia|lia|lia]|done].
Qed.

(** A loop over the entries of a table that holds [m]: a fold over pointers to its
    keys, each once. *)
Lemma iter_rep t m : ah_rep t m ->
  exists ptrs, ptrs.*1 ≡ₚ (map_to_list m).*1 /\
    (forall kp, kp ∈ ptrs -> exists v, m !! kp.1 = Some v /\ val_load t kp.2 = Ok v /\
       (length kp.1 <= MAX_KEY)%nat /\ 0 <= v < 2 ^ 64) /\
    forall A (f : A -> bytes -> nat * nat -> result A) a,
      iter_fold (iter_fuel t) t (ahtable_unsorted_iter_begin t) f a 0 =
        (r ← foldR (fun a kp => f a kp.1 kp.2) a ptrs; Ok (r, Z.of_nat (size m))).
Proof.
  intros (ess & [Ht Hn Hmax Hm] & <-). pose proof (tr_nodup _ _ Ht) as Hnd.
  assert (Hml : map_to_list (ah_map ess) ≡ₚ mjoin ess) by (by apply map_to_list_to_map).
  assert (Hsz : size (ah_map ess) = length (mjoin ess)).
  { apply Nat2Z.inj. rewrite (ah_map_size t ess Ht). apply Ht. }
  exists (all_ptrs 0 ess). split; [by rewrite all_ptrs_keys, Hml|]. split.
  - intros kp Hkp. destruct (all_ptrs_at ess kp Hkp) as (v & Hv). exists v.
    split; [by eapply at_ptr_map|]. split; [by eapply val_load_ok|].
    destruct Hv as (i & a & b & Hi & _).
    destruct (Forall2_lookup_r _ _ _ _ _ (tr_slots _ _ Ht) Hi) as (sl & _ & Hsl).
    exact (entry_at_ok _ _ _ _ Hsl).
  - intros A f a. rewrite (iter_fold_ok _ t ess _ _ _ _ (all_ptrs 0 ess)); [|done|by apply it_at_begin|by apply iter_fuel_enough].
    by rewrite all_ptrs_length, Hsz.
Qed.
