(* ===== verification/AhtableSpec.v ===== *)
(** * The array hash table: what it promises

    The order of the sorted iterator, saving and loading, and the properties of the
    table as a finite map. *)
From S2P Require Import Prelude CLib Bytes Murmur Ahtable AhtableOk AhtableIter.
From stdpp Require Import sorting.

#[local] Open Scope Z_scope.

(** ** The order of keys *)
Lemma cmpkey_nil_r a : cmpkey a [] = Z.of_nat (length a).
Proof. unfold cmpkey. rewrite Nat.min_0_r. cbn [take memcmp length]. rewrite decide_True by done. lia. Qed.

Lemma cmpkey_nil_l b : cmpkey [] b = - Z.of_nat (length b).
Proof. unfold cmpkey. cbn [length Nat.min take memcmp]. rewrite decide_True by done. lia. Qed.

Lemma cmpkey_cons x a y b : cmpkey (x :: a) (y :: b) = if decide (x = y) then cmpkey a b else x - y.
Proof.
  unfold cmpkey. cbn [length Nat.min take memcmp]. destruct (decide (x = y)) as [->|Hne].
  - case_decide; [lia|done].
  - rewrite decide_False by lia. done.
Qed.

Lemma cmpkey_antisym a b : cmpkey b a = - cmpkey a b.
Proof.
  revert b. induction a as [|x a IH]; intros [|y b]; rewrite ?cmpkey_nil_l, ?cmpkey_nil_r, ?cmpkey_cons; try (cbn; lia).
  rewrite IH. repeat case_decide; subst; try done; lia.
Qed.

Lemma cmpkey_0 a b : cmpkey a b = 0 -> a = b.
Proof.
  revert b. induction a as [|x a IH]; intros [|y b];
    rewrite ?cmpkey_nil_l, ?cmpkey_nil_r, ?cmpkey_cons; cbn [length]; try done; try lia.
  case_decide as Hxy; [|lia]. intros H. subst. f_equal. by apply IH.
Qed.

Lemma cmpkey_trans a b c : cmpkey a b <= 0 -> cmpkey b c <= 0 -> cmpkey a c <= 0.
Proof.
  revert b c. induction a as [|x a IH]; intros b c.
  - rewrite !cmpkey_nil_l. lia.
  - destruct b as [|y b]; [rewrite cmpkey_nil_r; cbn; lia|].
    destruct c as [|z c]; [rewrite (cmpkey_nil_r (y :: b)); cbn; lia|].
    rewrite !cmpkey_cons. repeat case_decide; subst; try lia. apply IH.
Qed.

#[export] Instance key_le_total : Total key_le.
Proof. intros a b. unfold key_le. rewrite (cmpkey_antisym a.1 b.1). lia. Qed.

#[export] Instance key_le_trans : Transitive key_le.
Proof. intros a b c. unfold key_le. apply cmpkey_trans. Qed.

(** ** The sorted iterator *)
Fixpoint slot_starts (i s : nat) (es : list (bytes * Z)) : list (nat * nat) :=
  match es with
  | [] => []
  | e :: es => (i, s) :: slot_starts i (s + length (enc e)) es
  end.

Fixpoint all_starts (i : nat) (ess : list (list (bytes * Z))) : list (nat * nat) :=
  match ess with
  | [] => []
  | es :: ess => slot_starts i 0 es ++ all_starts (S i) ess
  end.

Lemma slot_offsets_ok fuel sl a es i :
  slot_rep sl (a ++ es) -> (length es < fuel)%nat ->
  exists l, slot_offsets fuel sl (length (enc_slot a)) = Ok l /\
    ((fun s => (i, s)) <$> l) = slot_starts i (length (enc_slot a)) es.
Proof.
  intros Hr. revert a Hr fuel. induction es as [|e es IH]; intros a Hr fuel Hf.
  all: destruct fuel as [|fuel]; [lia|]; cbn [slot_offsets slot_starts].
  - exists []. rewrite app_nil_r in Hr. rewrite (sr_size _ _ Hr), decide_False by lia. done.
  - destruct (buf_at_entry _ _ _ _ Hr) as (rest & Hb). destruct (entry_at_ok _ _ _ _ Hr) as [Hk _].
    pose proof (sr_size _ _ Hr) as Hsz. rewrite enc_slot_app, enc_slot_cons, !length_app, enc_length in Hsz.
    rewrite decide_True by (unfold VALSZ in Hsz; lia). rewrite Hb, keylen_enc by done. cbn [mbind result_bind].
    destruct (IH (a ++ [e])) with (fuel := fuel) as (l & Hl & Hm); [by rewrite <- app_assoc|cbn in Hf; lia|].
    rewrite enc_slot_app, enc_slot_singleton, length_app in Hl, Hm.
    replace (length (enc_slot a) + len_bytes (length e.1) + (length e.1 + VALSZ))%nat
      with (length (enc_slot a) + length (enc e))%nat by (rewrite enc_length; lia).
    rewrite Hl. cbn [mbind result_bind]. exists (length (enc_slot a) :: l). split; [done|]. cbn. by rewrite Hm.
Qed.

Lemma all_offsets_ok sls ess i :
  Forall2 slot_rep sls ess -> all_offsets sls i = Ok (all_starts i ess).
Proof.
  intros Hr. revert i. induction Hr as [|sl es sls ess Hsl _ IH]; intros i; cbn [all_offsets all_starts]; [done|].
  destruct (slot_offsets_ok (S (sl_size sl)) sl [] es i) as (l & Hl & Hm); [done| |].
  { rewrite (sr_size _ _ Hsl). pose proof (enc_slot_length es). lia. }
  change (length (enc_slot [])) with 0%nat in Hl, Hm. rewrite Hl. cbn [mbind result_bind].
  rewrite IH. cbn [mbind result_bind]. by rewrite Hm.
Qed.

Section sorted.
Context (t : ahtable) (ess : list (list (bytes * Z))) (Ht : table_rep t ess).

(** A pointer to the start of the entry [e]. *)
Definition starts (p : nat * nat) (e : bytes * Z) : Prop :=
  exists i a b, ess !! i = Some (a ++ e :: b) /\ p = (i, length (enc_slot a)).

Lemma slot_starts_ok i a es :
  ess !! i = Some (a ++ es) -> Forall2 starts (slot_starts i (length (enc_slot a)) es) es.
Proof.
  revert a. induction es as [|e es IH]; intros a Hi; cbn [slot_starts]; constructor.
  - by exists i, a, es.
  - rewrite <- length_app, <- enc_slot_singleton, <- enc_slot_app. apply IH. by rewrite <- app_assoc.
Qed.

Lemma all_starts_ok : Forall2 starts (all_starts 0 ess) (mjoin ess).
Proof.
  assert (H : forall ess2 i, (forall j es, ess2 !! j = Some es -> ess !! (i + j)%nat = Some es) ->
    Forall2 starts (all_starts i ess2) (mjoin ess2)).
  { induction ess2 as [|es ess2 IH]; intros i Hsub; cbn [all_starts]; [constructor|].
    change (mjoin (es :: ess2)) with (es ++ mjoin ess2). apply Forall2_app.
    - apply (slot_starts_ok i []). pose proof (Hsub 0%nat es eq_refl) as H0. by rewrite Nat.add_0_r in H0.
    - apply IH. intros j es' Hj. rewrite <- (Hsub (S j) es' Hj). f_equal. lia. }
  apply (H ess 0%nat). done.
Qed.

Lemma starts_read p e : starts p e ->
  key_of t p = Ok e.1 /\
  exists sl, slot_at t p.1 = Ok sl /\ keylen (sl_buf sl) p.2 = Ok (length e.1) /\
    val_load t (p.1, (p.2 + len_bytes (length e.1) + length e.1)%nat) = Ok e.2.
Proof.
  intros (i & a & b & Hi & ->). destruct (slot_at_rep _ _ _ _ Ht Hi) as (sl & Hsl & _ & Hr).
  destruct (buf_at_entry _ _ _ _ Hr) as (rest & Hb). destruct (entry_at_ok _ _ _ _ Hr) as [Hk _].
  cbn [fst snd]. split.
  - unfold key_of. cbn [fst snd]. rewrite Hsl. cbn [mbind result_bind]. rewrite Hb, keylen_enc by done.
    cbn [mbind result_bind]. by apply key_enc.
  - exists sl. split; [done|]. split; [by rewrite Hb, keylen_enc|].
    apply (val_load_ok t ess _ e.1 e.2 Ht). exists i, a, b. destruct e. by split.
Qed.

Lemma keyed_all ps l : Forall2 starts ps l -> mapM (keyed t) ps = Ok (zip l.*1 ps).
Proof.
  intros Hl. induction Hl as [|p e ps l Hp _ IH]; [done|]. cbn [mapM].
  destruct (starts_read _ _ Hp) as [Hk _].
  assert (Hkp : keyed t p = Ok (e.1, p)) by (unfold keyed; by rewrite Hk).
  rewrite Hkp. cbn [mbind result_bind]. by rewrite IH.
Qed.

(** What the iterator gives from position [j]: the pointers lead to [l]. *)
Lemma sorted_iter_list_ok fuel xs l j :
  Forall2 starts xs l -> ah_m t = Z.of_nat (length xs) -> (length xs - j < fuel)%nat ->
  sorted_iter_list fuel t (SortedIter xs j) = Ok (drop j l).
Proof.
  intros Hl Hm. revert j. induction fuel as [|fuel IH]; intros j Hf; [lia|]. cbn [sorted_iter_list].
  assert (Hfin : ahtable_sorted_iter_finished t (SortedIter xs j) = bool_decide (length xs <= j)%nat).
  { unfold ahtable_sorted_iter_finished. cbn [si_i]. rewrite Hm. apply bool_decide_ext. lia. }
  pose proof (Forall2_length _ _ _ Hl) as Hlen.
  unfold ahtable_sorted_iter_key, ahtable_sorted_iter_val, ahtable_sorted_iter_next. rewrite Hfin.
  case_bool_decide as Hj.
  - by rewrite drop_ge by lia.
  - destruct (lookup_lt_is_Some_2 xs j) as [p Hp]; [lia|].
    destruct (Forall2_lookup_l _ _ _ _ _ Hl Hp) as (e & He & Hst).
    destruct (starts_read _ _ Hst) as (Hk & sl & Hsl & Hkl & Hv).
    cbn [si_xs si_i]. rewrite Hp. cbn [from_option_fault mbind result_bind].
    rewrite Hk. cbn [from_option_fault mbind result_bind]. rewrite Hsl. cbn [mbind result_bind].
    rewrite Hkl. cbn [from_option_fault mbind result_bind]. rewrite Hv. cbn [mbind result_bind].
    rewrite IH by lia. cbn [mbind result_bind]. rewrite (drop_S l e j) by done. by destruct e.
Qed.
End sorted.

(** Sorted without repetition is strictly sorted. *)
Lemma sorted_strict (ks : list (bytes * (nat * nat))) :
  StronglySorted key_le ks -> NoDup ks.*1 -> StronglySorted (fun a b => cmpkey a b < 0) ks.*1.
Proof.
  intros Hs. induction Hs as [|k ks _ IH Hk]; cbn; [constructor|]. intros [Hn Hnd]%NoDup_cons.
  constructor; [by apply IH|]. apply Forall_forall. intros b (kb & -> & Hb)%list_elem_of_fmap.
  rewrite Forall_forall in Hk. specialize (Hk kb Hb). unfold key_le in Hk.
  destruct (decide (cmpkey k.1 kb.1 = 0)) as [H0|]; [|lia].
  apply cmpkey_0 in H0. destruct Hn. rewrite H0. by apply (list_elem_of_fmap_2 fst).
Qed.

Lemma sorted_begin_starts t ess :
  table_rep t ess ->
  exists xs l, ahtable_sorted_iter_begin t = Ok (SortedIter xs 0) /\ l ≡ₚ mjoin ess /\
    StronglySorted (fun a b => cmpkey a b < 0) l.*1 /\ Forall2 (starts ess) xs l.
Proof.
  intros Ht. set (ps := all_starts 0 ess). set (L := mjoin ess).
  pose proof (all_starts_ok ess) as Hst. fold ps L in Hst. pose proof (Forall2_length _ _ _ Hst) as Hlen.
  set (R := fun (kp : bytes * (nat * nat)) e => starts ess kp.2 e /\ kp.1 = e.1).
  assert (HR : Forall2 R (zip L.*1 ps) L).
  { clear Hlen. induction Hst as [|p e ps' l' Hp _ IH]; cbn; constructor; [by split|done]. }
  destruct (Permutation_Forall2 (symmetry (merge_sort_Permutation key_le (zip L.*1 ps))) HR)
    as (l & Hl & HRl).
  set (ks := merge_sort key_le (zip L.*1 ps)) in *.
  assert (Hkeys : ks.*1 = l.*1).
  { clearbody ks. clear -HRl. induction HRl as [|kp e ks' l' [_ He] _ IH]; cbn; [done|]. by rewrite He, IH. }
  assert (Hxs : Forall2 (starts ess) (snd <$> ks) l).
  { clearbody ks. clear -HRl. induction HRl as [|kp e ks' l' [He _] _ IH]; cbn; by constructor. }
  exists (snd <$> ks), l. split; [|split; [by symmetry|split; [|done]]].
  - unfold ahtable_sorted_iter_begin. rewrite (all_offsets_ok _ _ 0 (tr_slots _ _ Ht)). cbn [mbind result_bind].
    fold ps. rewrite bool_decide_eq_true_2 by (rewrite (tr_m _ _ Ht), Hlen; done).
    cbn [guard_fault mbind result_bind]. rewrite (keyed_all t ess Ht ps L Hst). done.
  - rewrite <- Hkeys. apply sorted_strict.
    + apply (StronglySorted_merge_sort key_le).
    + rewrite Hkeys, <- Hl. by apply (tr_nodup _ _ Ht).
Qed.

Lemma starts_m t ess xs l :
  table_rep t ess -> l ≡ₚ mjoin ess -> Forall2 (starts ess) xs l -> ah_m t = Z.of_nat (length xs).
Proof. intros Ht Hl Hxs. by rewrite (tr_m _ _ Ht), (Forall2_length _ _ _ Hxs), Hl. Qed.

Lemma sorted_begin_ok t ess :
  table_rep t ess ->
  exists it l, ahtable_sorted_iter_begin t = Ok it /\ l ≡ₚ mjoin ess /\
    StronglySorted (fun a b => cmpkey a b < 0) l.*1 /\
    forall fuel, (length l < fuel)%nat -> sorted_iter_list fuel t it = Ok l.
Proof.
  intros Ht. destruct (sorted_begin_starts t ess Ht) as (xs & l & Hb & Hl & Hs & Hxs).
  exists (SortedIter xs 0), l. do 3 (split; [done|]). intros fuel Hf.
  rewrite (sorted_iter_list_ok t ess Ht fuel xs l 0 Hxs (starts_m t ess xs l Ht Hl Hxs)); [done|].
  rewrite (Forall2_length _ _ _ Hxs). lia.
Qed.

(** ** The iterator a client sees

    [iter_over t x l]: from [x] on the iterator gives the entries [l], in order. *)
Fixpoint iter_over (t : ahtable) (x : ahtable_iter) (l : list (bytes * Z)) : Prop :=
  ahtable_iter_finished t x = bool_decide (l = []) /\
  match l with
  | [] => True
  | (k, v) :: l =>
      ahtable_iter_key t x = Ok (Some k) /\ (exists p, ahtable_iter_val t x = Ok (Some p) /\ val_load t p = Ok v) /\
      exists x', ahtable_iter_next t x = Ok x' /\ iter_over t x' l
  end.

Lemma unsorted_over t ess it l :
  table_rep t ess -> it_at t ess it l ->
  exists es, es.*1 = l.*1 /\ (forall e, e ∈ es -> ah_map ess !! e.1 = Some e.2) /\ iter_over t (AUnsorted it) es.
Proof.
  intros Ht. revert it. induction l as [|[k p] l IH]; intros it Hat; pose proof (it_at_finished _ _ _ _ Ht Hat) as Hfin.
  - exists []. split; [done|]. split; [by intros e ?%elem_of_nil|]. by split.
  - destruct (it_at_step _ _ _ _ _ _ Ht Hat) as (Hk & Hv & (v & Hp) & it' & Hn & Hat').
    destruct (IH it' Hat') as (es & Hes & Hm & Ho). exists ((k, v) :: es). split; [cbn; by rewrite Hes|]. split.
    + intros e [->|He]%elem_of_cons; [by eapply at_ptr_map|by apply Hm].
    + split; [done|]. split; [done|]. split; [exists p; split; [done|by eapply val_load_ok]|].
      exists (AUnsorted it'). split; [cbn; by rewrite Hn|done].
Qed.

Lemma sorted_over t ess xs l j :
  table_rep t ess -> Forall2 (starts ess) xs l -> ah_m t = Z.of_nat (length xs) ->
  iter_over t (ASorted (SortedIter xs j)) (drop j l).
Proof.
  intros Ht Hl Hm. pose proof (Forall2_length _ _ _ Hl) as Hlen.
  remember (length xs - j)%nat as n eqn:Hn. revert j Hn. induction n as [|n IH]; intros j Hn.
  - rewrite drop_ge by lia. split; [|done]. cbn. unfold ahtable_sorted_iter_finished. cbn [si_i]. rewrite Hm.
    apply bool_decide_eq_true_2. lia.
  - destruct (lookup_lt_is_Some_2 xs j) as [p Hp]; [lia|].
    destruct (Forall2_lookup_l _ _ _ _ _ Hl Hp) as (e & He & Hst).
    destruct (starts_read t ess Ht _ _ Hst) as (Hk & sl & Hsl & Hkl & Hv).
    assert (Hfin : ahtable_sorted_iter_finished t (SortedIter xs j) = false).
    { unfold ahtable_sorted_iter_finished. cbn [si_i]. rewrite Hm. apply bool_decide_eq_false_2. lia. }
    rewrite (drop_S l e j) by done. destruct e as [k v]. cbn [iter_over]. split; [cbn; by rewrite Hfin|].
    unfold ahtable_iter_key, ahtable_iter_val, ahtable_sorted_iter_key, ahtable_sorted_iter_val. rewrite Hfin. cbn [si_xs si_i].
    rewrite Hp. cbn [from_option_fault mbind result_bind]. rewrite Hk, Hsl. cbn [mbind result_bind]. rewrite Hkl.
    split; [done|]. split; [eexists; split; [done|exact Hv]|].
    eexists. split; [done|]. unfold ahtable_sorted_iter_next. rewrite Hfin. cbn [si_xs si_i]. apply IH. lia.
Qed.

Lemma iter_over_begin t m sorted :
  ah_rep t m -> exists x l, ahtable_iter_begin t sorted = Ok x /\ iter_over t x l /\ l ≡ₚ map_to_list m.
Proof.
  intros (ess & [Ht Hn Hmax Hm] & <-). pose proof (tr_nodup _ _ Ht) as Hnd.
  assert (Hml : map_to_list (ah_map ess) ≡ₚ mjoin ess) by (by apply map_to_list_to_map).
  destruct sorted.
  - destruct (sorted_begin_starts t ess Ht) as (xs & l & Hb & Hl & _ & Hxs). exists (ASorted (SortedIter xs 0)), l.
    split; [unfold ahtable_iter_begin; by rewrite Hb|]. split; [|by rewrite Hl, Hml].
    apply (sorted_over t ess xs l 0 Ht Hxs). by eapply starts_m.
  - destruct (unsorted_over t ess _ _ Ht (it_at_begin t ess Ht)) as (es & Hes & Hin & Ho).
    exists (AUnsorted (ahtable_unsorted_iter_begin t)), es. split; [done|]. split; [done|].
    assert (Hk : es.*1 ≡ₚ (map_to_list (ah_map ess)).*1) by (by rewrite Hes, all_ptrs_keys, Hml).
    assert (Hnd2 : NoDup es.*1) by (rewrite Hk; apply NoDup_fst_map_to_list).
    apply NoDup_Permutation; [by eapply NoDup_fmap_1|apply NoDup_map_to_list|]. intros [k v]. rewrite elem_of_map_to_list. split.
    + intros He. by apply (Hin (k, v)).
    + intros Hkv. assert (Hke : k ∈ es.*1) by (rewrite Hk; by apply (list_elem_of_fmap_2 fst _ (k, v)), elem_of_map_to_list).
      apply list_elem_of_fmap in Hke as ([k' v'] & -> & He). pose proof (Hin _ He) as Hv. cbn [fst snd] in *. congruence.
Qed.

(** ** Saving and loading *)
Definition trim (t : ahtable) : ahtable :=
  with_slots t (ah_m t) ((fun sl => Slot (take (sl_size sl) (sl_buf sl)) (sl_size sl)) <$> ah_slots t).

(** The fields fit what the file has room for. *)
Record saveable (t : ahtable) : Prop := {
  sv_flag : is_byte (ah_flag t) /\ is_byte (ah_c0 t) /\ is_byte (ah_c1 t);
  sv_m : 0 <= ah_m t < 2 ^ 64;
  sv_max : 0 <= ah_max_m t < 2 ^ 64;
  sv_n : ah_n t < 2 ^ 64;
  sv_slots : Forall (fun sl => (sl_size sl <= length (sl_buf sl))%nat /\ Z.of_nat (sl_size sl) < 2 ^ 32) (ah_slots t)
}.

Lemma fread_app a b n : n = length a -> fread n (a ++ b) = Some (a, b).
Proof.
  intros ->. unfold fread. rewrite decide_True by (rewrite length_app; lia).
  by rewrite take_app_length, drop_app_length.
Qed.

Lemma read_u64_app z f : 0 <= z < 2 ^ 64 -> read_u64 (be_enc 8 z ++ f) = Some (z, f).
Proof.
  intros Hz. unfold read_u64. rewrite fread_app by (by rewrite be_enc_length). cbn [mbind option_bind].
  by rewrite be_get_enc_small.
Qed.

Lemma save_load_slots sls :
  Forall (fun sl => (sl_size sl <= length (sl_buf sl))%nat /\ Z.of_nat (sl_size sl) < 2 ^ 32) sls ->
  exists xs, mapM save_slot sls = Ok xs /\
    forall f, load_slots (length sls) (mjoin xs ++ f) =
      Some ((fun sl => Slot (take (sl_size sl) (sl_buf sl)) (sl_size sl)) <$> sls, f).
Proof.
  intros Hs. induction Hs as [|sl sls [Hsz H32] _ (xs & Hxs & Hload)]; [by exists []|].
  set (x := be_enc 4 (Z.of_nat (sl_size sl)) ++ take (sl_size sl) (sl_buf sl)).
  exists (x :: xs). split.
  - cbn [mapM]. assert (Hx : save_slot sl = Ok x).
    { unfold save_slot. rewrite buf_read_ok by lia. by rewrite drop_0. }
    rewrite Hx. cbn [mbind result_bind]. by rewrite Hxs.
  - intros f. cbn [length load_slots]. change (mjoin (x :: xs)) with (x ++ mjoin xs). unfold x.
    unfold load_slot. rewrite <- !app_assoc. rewrite fread_app by (by rewrite be_enc_length). cbn [mbind option_bind].
    rewrite be_get_enc_small, Nat2Z.id by (change (256 ^ Z.of_nat 4) with (2 ^ 32); lia).
    rewrite fread_app by (rewrite length_take; lia). cbn [mbind option_bind].
    rewrite Hload. done.
Qed.

Lemma ah_inv_saveable t ess : ah_inv t ess -> Forall (fun sl => Z.of_nat (sl_size sl) < 2 ^ 32) (ah_slots t) ->
  is_byte (ah_flag t) -> is_byte (ah_c0 t) -> is_byte (ah_c1 t) -> saveable t.
Proof.
  intros [Ht Hn Hmax Hm] Hs Hf H0 H1. pose proof (tr_m _ _ Ht). unfold ahtable_max_load_factor in *.
  split; [done|lia|lia|unfold ah_n; rewrite (tr_length _ _ Ht); lia|].
  apply Forall_lookup. intros i sl Hi. rewrite Forall_lookup in Hs. split; [|by eapply Hs].
  destruct (Forall2_lookup_l _ _ _ _ _ (tr_slots _ _ Ht) Hi) as (es & _ & [Hsz (rest & Hb) _ _]).
  rewrite Hsz, Hb, length_app. lia.
Qed.

Lemma trim_rep t ess : ah_inv t ess -> ah_inv (trim t) ess.
Proof.
  intros [[Hs Hpos Hh Htm] Hn Hmax Hm]. split; [split|..]; try done. cbn.
  apply Forall2_fmap_l. eapply Forall2_impl; [exact Hs|]. intros sl es [Hsz (rest & Hb) Hok Hnd]. split; cbn; try done.
  exists []. by rewrite Hb, Hsz, take_app_length, app_nil_r.
Qed.

(** ** Properties *)

(** C14: The table behaves as the finite map it represents: [ahtable_tryget] finds exactly
    the keys that are there, [ahtable_get] gives a pointer to the value of a key,
    inserting it with value 0 when it is missing (expanding a full table first), a
    store through that pointer updates the map at the key and nowhere else,
    [ahtable_del] answers 0 and removes a key that is there and answers -1 and changes
    nothing otherwise, and [ahtable_size] counts the keys. *)
Theorem ahtable_refines_map t m k
    (Hr : ah_rep t m) (Hk : (length k <= MAX_KEY)%nat) (Hsize : Z.of_nat (size m) < 2 ^ 47) :
  ahtable_size t = Z.of_nat (size m) /\
  match m !! k with
  | Some v => exists p, ahtable_tryget t k = Ok (Some p) /\ val_load t p = Ok v
  | None => ahtable_tryget t k = Ok None
  end /\
  (exists p t', ahtable_get t k = Ok (Some p, t') /\ val_load t' p = Ok (default 0 (m !! k)) /\
    ah_rep t' (<[k := default 0 (m !! k)]> m) /\
    forall v, 0 <= v < 2 ^ 64 -> exists t'', val_store t' p v = Ok t'' /\ ah_rep t'' (<[k := v]> m)) /\
  match m !! k with
  | Some _ => exists t', ahtable_del t k = Ok (0, t') /\ ah_rep t' (delete k m)
  | None => ahtable_del t k = Ok (-1, t)
  end.
Proof.
  destruct (get_rep t m k Hr Hk Hsize) as (p & t' & ess' & Hg & Hinv' & Hp & Hmap').
  destruct Hr as (ess & Hinv & <-). pose proof Hinv as [Ht Hn Hmax Hm].
  split; [|split; [|split]].
  - unfold ahtable_size. by rewrite (ah_map_size t ess).
  - unfold ahtable_tryget. destruct (ah_map ess !! k) as [v|] eqn:Hv.
    + destruct (get_key_find t ess k false Ht Hn (fun H => ltac:(done)) v Hv) as (q & -> & Hq).
      exists q. split; [done|]. by eapply val_load_ok.
    + by rewrite (get_key_missing t ess k Ht Hn Hv).
  - exists p, t'. split; [done|]. split; [eapply val_load_ok; [apply Hinv'|done]|].
    split; [by exists ess'|]. intros v Hv.
    destruct (store_rep t' ess' p k _ v Hinv' Hp Hv) as (t'' & Hs & Hr''). exists t''. split; [done|].
    rewrite Hmap' in Hr''. by rewrite insert_insert_eq in Hr''.
  - pose proof (del_ok t ess k Ht Hn) as Hd. destruct (ah_map ess !! k) as [v|] eqn:Hv; [|done].
    destruct Hd as (t1 & ess1 & Hdel & Ht1 & Hl1 & Hmap1 & Hmx & Hmm). exists t1. split; [done|].
    exists ess1. split; [split; [done|lia|lia|lia]|done].
Qed.

Lemma ahtable_refines_map_witness :
  exists p t', ahtable_get (ahtable_create_n 3) (str "hello") = Ok (Some p, t') /\
    val_load t' p = Ok 0 /\ ah_rep t' {[str "hello" := 0]}.
Proof.
  assert (Hr : ah_rep (ahtable_create_n 3) ∅) by (apply create_rep; lia).
  destruct (ahtable_refines_map (ahtable_create_n 3) ∅ (str "hello") Hr) as (_ & _ & (p & t' & Hg & Hv & Hr' & _) & _).
  - apply Nat.leb_le. by vm_compute.
  - done.
  - exists p, t'. split; [exact Hg|]. split; [exact Hv|exact Hr'].
Defined.

(** A key longer than 32767 bytes, whose length does not fit 15 bits, ends the process
    in [ahtable_get], so no entry is ever stored under a cut length; looking such a key
    up or deleting it answers that it is not there and changes nothing. *)
Theorem ahtable_get_too_long t m k (Hr : ah_rep t m) (Hk : (MAX_KEY < length k)%nat) :
  ahtable_get t k = Fault ExitCalled /\
  ahtable_tryget t k = Ok None /\ ahtable_del t k = Ok (-1, t).
Proof.
  destruct Hr as (ess & [Ht Hn _ _] & <-).
  assert (Hnone : ah_map ess !! k = None).
  { destruct (ah_map ess !! k) as [v|] eqn:Hv; [|done].
    destruct (get_key_find t ess k false Ht Hn (fun H => ltac:(done)) v Hv) as (p & _ & i & a & b & Hi & _).
    destruct (Forall2_lookup_r _ _ _ _ _ (tr_slots _ _ Ht) Hi) as (sl & _ & Hsl).
    destruct (entry_at_ok _ _ _ _ Hsl) as [Hlen _]. cbn in Hlen. lia. }
  split; [unfold ahtable_get; by rewrite decide_True|]. split.
  - unfold ahtable_tryget. by rewrite (get_key_missing t ess k Ht Hn Hnone).
  - pose proof (del_ok t ess k Ht Hn) as Hd. by rewrite Hnone in Hd.
Qed.

Lemma ahtable_get_too_long_witness :
  ahtable_tryget (ahtable_create_n 3) (replicate (Z.to_nat 32768) 65) = Ok None.
Proof.
  refine (proj1 (proj2 (ahtable_get_too_long (ahtable_create_n 3) ∅ _ _ _))).
  - apply create_rep; lia.
  - rewrite length_replicate. unfold MAX_KEY. lia.
Defined.

(** C28: Iterating: the unsorted iterator calls the body once for every key of the map,
    with a pointer to its value; the sorted one yields every key once with its value,
    in the order of [memcmp] with shorter keys first. *)
Theorem ahtable_iterators t m (Hr : ah_rep t m) :
  (exists ptrs, ptrs.*1 ≡ₚ (map_to_list m).*1 /\
    (forall kp, kp ∈ ptrs -> exists v, m !! kp.1 = Some v /\ val_load t kp.2 = Ok v) /\
    forall A (f : A -> bytes -> nat * nat -> result A) a,
      iter_fold (iter_fuel t) t (ahtable_unsorted_iter_begin t) f a 0 =
        (r ← foldR (fun a kp => f a kp.1 kp.2) a ptrs; Ok (r, Z.of_nat (size m)))) /\
  (exists it l, ahtable_sorted_iter_begin t = Ok it /\ sorted_iter_list (S (size m)) t it = Ok l /\
    l ≡ₚ map_to_list m /\ StronglySorted (fun a b => cmpkey a b < 0) l.*1).
Proof.
  split.
  - destruct (iter_rep t m Hr) as (ptrs & Hp & Hv & Hf). exists ptrs. split; [done|]. split; [|done].
    intros kp Hkp. destruct (Hv kp Hkp) as (v & H1 & H2 & _). eauto.
  - destruct Hr as (ess & [Ht Hn Hmax Hm] & <-). pose proof (tr_nodup _ _ Ht) as Hnd.
    assert (Hml : map_to_list (ah_map ess) ≡ₚ mjoin ess) by (by apply map_to_list_to_map).
    destruct (sorted_begin_ok t ess Ht) as (it & l & Hb & Hl & Hs & Hi). exists it, l.
    split; [done|]. split; [|split; [by rewrite Hl, Hml|done]]. apply Hi. rewrite Hl, <- Hml, length_map_to_list. lia.
Qed.

Lemma ahtable_iterators_witness :
  exists it l, ahtable_sorted_iter_begin (ahtable_create_n 3) = Ok it /\
    sorted_iter_list 1 (ahtable_create_n 3) it = Ok l /\ l ≡ₚ [].
Proof.
  assert (Hr : ah_rep (ahtable_create_n 3) ∅) by (apply create_rep; lia).
  destruct (ahtable_iterators (ahtable_create_n 3) ∅ Hr) as (_ & it & l & Hb & Hi & Hl & _).
  exists it, l. split; [exact Hb|]. split; [exact Hi|exact Hl].
Defined.

(** C27: Saving and loading: what [ahtable_save] writes, [ahtable_load] reads back, with
    slot buffers cut to their used part, and leaves the rest of the file; the loaded
    table holds the same map. *)
Theorem ahtable_save_load t m f
    (Hr : ah_rep t m) (Hs : Forall (fun sl => Z.of_nat (sl_size sl) < 2 ^ 32) (ah_slots t))
    (Hb : is_byte (ah_flag t) /\ is_byte (ah_c0 t) /\ is_byte (ah_c1 t)) :
  exists file, ahtable_save t = Ok file /\ ahtable_load (file ++ f) = Some (trim t, f) /\ ah_rep (trim t) m.
Proof.
  destruct Hr as (ess & Hinv & <-). destruct Hb as (Hfl & H0 & H1).
  pose proof (ah_inv_saveable t ess Hinv Hs Hfl H0 H1) as [_ Hm Hmax Hn Hsl].
  destruct (save_load_slots (ah_slots t) Hsl) as (xs & Hxs & Hload).
  eexists. split; [unfold ahtable_save; by rewrite Hxs|]. split; [|exists ess; split; [by apply trim_rep|done]].
  unfold ahtable_load. rewrite <- !app_assoc.
  rewrite read_u64_app by (unfold ah_n in *; lia). cbn [mbind option_bind].
  rewrite read_u64_app by done. cbn [mbind option_bind].
  rewrite read_u64_app by done. cbn [mbind option_bind].
  change ([ah_flag t; ah_c0 t; ah_c1 t] ++ mjoin xs ++ f)
    with ([ah_flag t] ++ [ah_c0 t] ++ [ah_c1 t] ++ mjoin xs ++ f).
  do 3 (rewrite fread_app by done; cbn [mbind option_bind]).
  unfold ah_n. rewrite Nat2Z.id, Hload. cbn [mbind option_bind le_get].
  unfold trim, with_slots. do 2 f_equal. f_equal; lia.
Qed.

Lemma ahtable_save_load_witness :
  exists file, ahtable_save (ahtable_create_n 2) = Ok file /\
    ahtable_load (file ++ [1; 2]) = Some (trim (ahtable_create_n 2), [1; 2]).
Proof.
  assert (Hr : ah_rep (ahtable_create_n 2) ∅) by (apply create_rep; lia).
  destruct (ahtable_save_load (ahtable_create_n 2) ∅ [1; 2] Hr) as (file & Hs & Hl & _).
  - cbn. by repeat constructor.
  - cbn. unfold is_byte. lia.
  - exists file. split; [exact Hs|exact Hl].
Defined.

(** [ahtable_clear] empties the slots but not the count: after clearing a table that
    held something, [ahtable_size] still answers the old count and the sorted iterator
    sorts pointers that were never written. *)
Theorem ahtable_clear_keeps_count t m (Hr : ah_rep t m) (Hm : m <> ∅) :
  ahtable_size (ahtable_clear t) = Z.of_nat (size m) /\ 0 < ahtable_size (ahtable_clear t) /\
  (forall k, ahtable_tryget (ahtable_clear t) k = Ok None) /\
  ahtable_sorted_iter_begin (ahtable_clear t) = Fault OutOfBounds.
Proof.
  destruct Hr as (ess & [Ht Hn Hmax Hmm] & <-).
  pose proof (ah_map_size t ess Ht) as Hsz.
  assert (Hpos : (0 < size (ah_map ess))%nat).
  { destruct (size (ah_map ess)) eqn:H0; [|lia]. by apply map_size_empty_iff in H0. }
  unfold ahtable_clear. set (t' := with_slots t (ah_m t) (replicate ahtable_initial_size empty_slot)).
  assert (Hrep : table_rep (with_slots t 0 (replicate ahtable_initial_size empty_slot))
                   (replicate ahtable_initial_size [])).
  { destruct (create_rep ahtable_initial_size) as (ess0 & [Ht0 _ _ _] & _); [unfold ahtable_initial_size; lia..|].
    split; cbn [with_slots ah_slots ah_m].
    - apply Forall2_replicate. split; cbn; [done|by exists []|constructor|constructor].
    - rewrite length_replicate. unfold ahtable_initial_size. lia.
    - intros i es e Hi He. apply lookup_replicate in Hi as [-> _]. by apply not_elem_of_nil in He.
    - clear. by induction ahtable_initial_size. }
  unfold ahtable_size. cbn [t' with_slots ah_m]. split; [done|]. split; [lia|]. split.
  - intros k. assert (Hk : get_key (with_slots t 0 (replicate ahtable_initial_size empty_slot)) k false =
      Ok (None, with_slots t 0 (replicate ahtable_initial_size empty_slot))).
    { eapply get_key_missing; [exact Hrep|rewrite length_replicate; unfold ahtable_initial_size; lia|].
      unfold ah_map. clear. induction ahtable_initial_size as [|n IH]; [done|exact IH]. }
    unfold ahtable_tryget. revert Hk. unfold get_key. cbn [andb mbind result_bind with_slots ah_slots ah_m].
    unfold t'. cbn [with_slots ah_slots]. destruct (slot_index _ k) as [i|]; [|done]. cbn [mbind result_bind].
    unfold slot_at. cbn [with_slots ah_slots]. destruct (from_option_fault _ _) as [sl|]; [|done]. cbn [mbind result_bind].
    destruct (find_in sl k) as [[q|]|]; [|done|done]. intros [=].
  - unfold ahtable_sorted_iter_begin. cbn [t' with_slots ah_slots ah_m].
    pose proof (all_offsets_ok _ _ 0 (tr_slots _ _ Hrep)) as Hoff. cbn [with_slots ah_slots] in Hoff.
    rewrite Hoff. cbn [mbind result_bind]. rewrite bool_decide_eq_false_2; [done|].
    assert (Hnil : forall n i, all_starts i (replicate n (@nil (bytes * Z))) = []).
    { induction n as [|n IH]; intros i; [done|apply IH]. }
    rewrite Hnil. cbn. lia.
Qed.

Lemma ahtable_clear_keeps_count_witness :
  exists t', 0 < ahtable_size (ahtable_clear t') /\ ahtable_tryget (ahtable_clear t') (str "a") = Ok None.
Proof.
  assert (Hr : ah_rep (ahtable_create_n 3) ∅) by (apply create_rep; lia).
  destruct (get_rep (ahtable_create_n 3) ∅ (str "a") Hr) as (p & t' & ess' & _ & Hinv & _ & Hm).
  - apply Nat.leb_le. by vm_compute.
  - done.
  - exists t'. destruct (ahtable_clear_keeps_count t' (ah_map ess')) as (_ & Hp & Hg & _).
    + by exists ess'.
    + rewrite Hm. apply insert_non_empty.
    + split; [exact Hp|exact (Hg (str "a"))].
Defined.
