(* ===== verification/Csv.v ===== *)
(** * The CSV parser and writer: operations

    src/lib/libcsv/libcsv.c.  The parser is a state machine on bytes that keeps a buffer
    for the current field; what it hands to its callbacks is a list of events.  The
    function set with [csv_set_realloc_func] is modelled by the sizes it can provide. *)
From S2P Require Import Prelude CLib Bytes Ahtable.

#[local] Open Scope Z_scope.

Definition CSV_EPARSE : Z := 1.
Definition CSV_ENOMEM : Z := 2.
Definition CSV_ETOOBIG : Z := 3.
Definition CSV_EINVALID : Z := 4.

Definition CSV_STRICT : Z := 1.
Definition CSV_REPALL_NL : Z := 2.
Definition CSV_STRICT_FINI : Z := 4.
Definition CSV_APPEND_NULL : Z := 8.
Definition CSV_EMPTY_IS_NULL : Z := 16.

Definition CSV_TAB : Z := 9.
Definition CSV_SPACE : Z := 32.
Definition CSV_CR : Z := 13.
Definition CSV_LF : Z := 10.
Definition CSV_COMMA : Z := 44.
Definition CSV_QUOTE : Z := 34.

Definition MEM_BLK_SIZE : Z := 128.
Definition SIZE_MAX : Z := 2 ^ 64 - 1.

Inductive csv_state := ROW_NOT_BEGUN | FIELD_NOT_BEGUN | FIELD_BEGUN | FIELD_MIGHT_HAVE_ENDED.
#[export] Instance csv_state_eq_dec : EqDecision csv_state.
Proof. solve_decision. Defined.

(** The buffer is [entry_size] bytes long; [None] is a NULL pointer. *)
Record csv_parser := CsvParser {
  pstate : csv_state; quoted : bool; spaces : Z;
  entry_buf : option bytes; entry_pos : Z; entry_size : Z;
  status : Z; options : Z; quote_char : Z; delim_char : Z;
  is_space : option (Z -> bool); is_term : option (Z -> bool);
  blk_size : Z; realloc_func : Z -> bool
}.

(** [cb1(field, len, data)], with a NULL field as [None], and [cb2(c, data)]. *)
Inductive csv_event := EField (f : option bytes) | ERow (c : Z).

Definition opt (p : csv_parser) (o : Z) : bool := negb (Z.land (options p) o =? 0).

(** ** Setting fields *)
Definition set_state (p : csv_parser) (s : csv_state) (q : bool) (sp pos : Z) : csv_parser :=
  CsvParser s q sp (entry_buf p) pos (entry_size p) (status p) (options p) (quote_char p) (delim_char p)
    (is_space p) (is_term p) (blk_size p) (realloc_func p).
Definition set_buf (p : csv_parser) (b : option bytes) (size : Z) : csv_parser :=
  CsvParser (pstate p) (quoted p) (spaces p) b (entry_pos p) size (status p) (options p) (quote_char p) (delim_char p)
    (is_space p) (is_term p) (blk_size p) (realloc_func p).
Definition set_status (p : csv_parser) (s : Z) : csv_parser :=
  CsvParser (pstate p) (quoted p) (spaces p) (entry_buf p) (entry_pos p) (entry_size p) s (options p) (quote_char p)
    (delim_char p) (is_space p) (is_term p) (blk_size p) (realloc_func p).
Definition set_conf (p : csv_parser) (o quote delim : Z) (sf tf : option (Z -> bool)) (blk : Z) (rf : Z -> bool) : csv_parser :=
  CsvParser (pstate p) (quoted p) (spaces p) (entry_buf p) (entry_pos p) (entry_size p) (status p) o quote delim sf tf blk rf.

Definition csv_error (p : csv_parser) : Z := status p.

Definition csv_errors : list string :=
  ["success"; "error parsing data while strict checking enabled"; "memory exhausted while increasing buffer size";
   "data size too large"; "invalid status code"].

Definition csv_strerror (status : Z) : option string :=
  if decide (CSV_EINVALID <= status \/ status < 0) then csv_errors !! Z.to_nat CSV_EINVALID
  else csv_errors !! Z.to_nat status.

(** A parser argument may be NULL. *)
Definition csv_get_opts (p : option csv_parser) : Z := match p with None => -1 | Some p => options p end.
Definition csv_set_opts (p : option csv_parser) (o : Z) : Z * option csv_parser :=
  match p with
  | None => (-1, None)
  | Some p => (0, Some (set_conf p o (quote_char p) (delim_char p) (is_space p) (is_term p) (blk_size p) (realloc_func p)))
  end.

(** [malloc_ok] says which sizes the C library can provide. *)
Definition csv_init (malloc_ok : Z -> bool) (o : Z) : csv_parser :=
  CsvParser ROW_NOT_BEGUN false 0 None 0 0 0 o CSV_QUOTE CSV_COMMA None None MEM_BLK_SIZE malloc_ok.

Definition csv_free (p : csv_parser) : csv_parser := set_buf p None 0.

Definition csv_set_delim (p : csv_parser) (c : Z) : csv_parser :=
  set_conf p (options p) (quote_char p) c (is_space p) (is_term p) (blk_size p) (realloc_func p).
Definition csv_set_quote (p : csv_parser) (c : Z) : csv_parser :=
  set_conf p (options p) c (delim_char p) (is_space p) (is_term p) (blk_size p) (realloc_func p).
Definition csv_get_delim (p : csv_parser) : Z := delim_char p.
Definition csv_get_quote (p : csv_parser) : Z := quote_char p.
Definition csv_set_space_func (p : csv_parser) (f : option (Z -> bool)) : csv_parser :=
  set_conf p (options p) (quote_char p) (delim_char p) f (is_term p) (blk_size p) (realloc_func p).
Definition csv_set_term_func (p : csv_parser) (f : option (Z -> bool)) : csv_parser :=
  set_conf p (options p) (quote_char p) (delim_char p) (is_space p) f (blk_size p) (realloc_func p).
Definition csv_set_realloc_func (p : csv_parser) (f : option (Z -> bool)) : csv_parser :=
  match f with
  | None => p
  | Some f => set_conf p (options p) (quote_char p) (delim_char p) (is_space p) (is_term p) (blk_size p) f
  end.
Definition csv_set_blk_size (p : csv_parser) (size : Z) : csv_parser :=
  set_conf p (options p) (quote_char p) (delim_char p) (is_space p) (is_term p) size (realloc_func p).
Definition csv_get_buffer_size (p : option csv_parser) : Z := match p with None => 0 | Some p => entry_size p end.

(** ** The buffer *)

(** [while ((vp = realloc(...)) == NULL) { to_add /= 2; if (!to_add) ... }] *)
Fixpoint grow_loop (fuel : nat) (p : csv_parser) (to_add : Z) : result (bool * csv_parser) :=
  match fuel with
  | O => Fault NoFuel
  | S fuel =>
      if realloc_func p (entry_size p + to_add)
      then Ok (true, set_buf p (Some (realloc (default [] (entry_buf p)) (Z.to_nat (entry_size p + to_add))))
                       (entry_size p + to_add))
      else
        let to_add := to_add / 2 in
        if decide (to_add = 0) then Ok (false, set_status p CSV_ENOMEM) else grow_loop fuel p to_add
  end.

(** [true] is the return value 0. *)
Definition csv_increase_buffer (p : csv_parser) : result (bool * csv_parser) :=
  let to_add := blk_size p in
  let to_add := if decide (SIZE_MAX - to_add <= entry_size p) then SIZE_MAX - entry_size p else to_add in
  if decide (to_add = 0) then Ok (false, set_status p CSV_ETOOBIG)
  else grow_loop 65 p to_add.

(** [entry_buf[i] = c] *)
Definition buf_store (p : csv_parser) (i c : Z) : result csv_parser :=
  b ← from_option_fault NullDeref (entry_buf p);
  if decide (0 <= i < Z.of_nat (length b)) then Ok (set_buf p (Some (<[Z.to_nat i := c]> b)) (entry_size p))
  else Fault OutOfBounds.

Definition SUBMIT_CHAR (p : csv_parser) (c : Z) : result csv_parser :=
  p ← buf_store p (entry_pos p) c;
  Ok (set_state p (pstate p) (quoted p) (spaces p) (u64 (entry_pos p + 1))).

(** The field a callback is given: the first [pos] bytes of the buffer. *)
Definition field_at (p : csv_parser) (pos : Z) : result bytes :=
  if decide (pos <= Z.of_nat (length (default [] (entry_buf p))))
  then Ok (take (Z.to_nat pos) (default [] (entry_buf p))) else Fault OutOfBounds.

Definition SUBMIT_FIELD (cb1 : bool) (p : csv_parser) : result (csv_parser * list csv_event) :=
  let pos := if quoted p then entry_pos p else u64 (entry_pos p - spaces p) in
  p ← (if opt p CSV_APPEND_NULL then buf_store p pos 0 else Ok p);
  evs ← (if cb1 && opt p CSV_EMPTY_IS_NULL && negb (quoted p) && bool_decide (pos = 0) then Ok [EField None]
         else if cb1 then (f ← field_at p pos; Ok [EField (Some f)])
         else Ok []);
  Ok (set_state p FIELD_NOT_BEGUN false 0 0, evs).

Definition SUBMIT_ROW (cb2 : bool) (p : csv_parser) (c : Z) : csv_parser * list csv_event :=
  (set_state p ROW_NOT_BEGUN false 0 0, if cb2 then [ERow c] else []).

Definition SUBMIT_FIELD_ROW (cb1 cb2 : bool) (p : csv_parser) (c : Z) : result (csv_parser * list csv_event) :=
  r ← SUBMIT_FIELD cb1 p;
  let r2 := SUBMIT_ROW cb2 r.1 c in
  Ok (r2.1, r.2 ++ r2.2).

(** ** The state machine *)
Definition space (p : csv_parser) (c : Z) : bool :=
  match is_space p with Some f => f c | None => bool_decide (c = CSV_SPACE) || bool_decide (c = CSV_TAB) end.
Definition term (p : csv_parser) (c : Z) : bool :=
  match is_term p with Some f => f c | None => bool_decide (c = CSV_CR) || bool_decide (c = CSV_LF) end.

(** One character: the parser, the events, and whether parsing goes on (it does not
    after an error of the strict mode). *)
Abbreviation outcome := (csv_parser * list csv_event * bool)%type.
Definition go (r : result (csv_parser * list csv_event)) : result outcome := x ← r; Ok (x, true).
Definition char_only (r : result csv_parser) : result outcome := p ← r; Ok (p, [], true).
Definition strict_error (p : csv_parser) : result outcome := Ok (set_status p CSV_EPARSE, [], false).

Definition step_not_begun (cb1 cb2 : bool) (p : csv_parser) (c : Z) : result outcome :=
  if space p c && bool_decide (c <> delim_char p) then Ok (p, [], true)
  else if term p c then
    (if decide (pstate p = FIELD_NOT_BEGUN) then go (SUBMIT_FIELD_ROW cb1 cb2 p c)
     else if opt p CSV_REPALL_NL then go (Ok (SUBMIT_ROW cb2 p c)) else Ok (p, [], true))
  else if decide (c = delim_char p) then go (SUBMIT_FIELD cb1 p)
  else if decide (c = quote_char p) then Ok (set_state p FIELD_BEGUN true (spaces p) (entry_pos p), [], true)
  else char_only (SUBMIT_CHAR (set_state p FIELD_BEGUN false (spaces p) (entry_pos p)) c).

Definition with_spaces (p : csv_parser) (sp : Z) : csv_parser := set_state p (pstate p) (quoted p) sp (entry_pos p).
Definition with_pstate (p : csv_parser) (s : csv_state) : csv_parser := set_state p s (quoted p) (spaces p) (entry_pos p).

Definition step_begun (cb1 cb2 : bool) (p : csv_parser) (c : Z) : result outcome :=
  if decide (c = quote_char p) then
    (if quoted p then char_only (p ← SUBMIT_CHAR p c; Ok (with_pstate p FIELD_MIGHT_HAVE_ENDED))
     else if opt p CSV_STRICT then strict_error p
     else char_only (p ← SUBMIT_CHAR p c; Ok (with_spaces p 0)))
  else if decide (c = delim_char p) then
    (if quoted p then char_only (SUBMIT_CHAR p c) else go (SUBMIT_FIELD cb1 p))
  else if term p c then
    (if quoted p then char_only (SUBMIT_CHAR p c) else go (SUBMIT_FIELD_ROW cb1 cb2 p c))
  else if negb (quoted p) && space p c then char_only (p ← SUBMIT_CHAR p c; Ok (with_spaces p (u64 (spaces p + 1))))
  else char_only (p ← SUBMIT_CHAR p c; Ok (with_spaces p 0)).

(** [entry_pos -= spaces + 1;] *)
Definition drop_quote (p : csv_parser) : csv_parser :=
  set_state p (pstate p) (quoted p) (spaces p) (u64 (entry_pos p - (spaces p + 1))).

Definition step_might_have_ended (cb1 cb2 : bool) (p : csv_parser) (c : Z) : result outcome :=
  if decide (c = delim_char p) then go (SUBMIT_FIELD cb1 (drop_quote p))
  else if term p c then go (SUBMIT_FIELD_ROW cb1 cb2 (drop_quote p) c)
  else if space p c then char_only (p ← SUBMIT_CHAR p c; Ok (with_spaces p (u64 (spaces p + 1))))
  else if decide (c = quote_char p) then
    (if decide (spaces p <> 0) then
       (if opt p CSV_STRICT then strict_error p else char_only (SUBMIT_CHAR (with_spaces p 0) c))
     else Ok (with_pstate p FIELD_BEGUN, [], true))
  else if opt p CSV_STRICT then strict_error p
  else char_only (SUBMIT_CHAR (set_state p FIELD_BEGUN (quoted p) 0 (entry_pos p)) c).

Definition csv_step (cb1 cb2 : bool) (p : csv_parser) (c : Z) : result outcome :=
  match pstate p with
  | ROW_NOT_BEGUN | FIELD_NOT_BEGUN => step_not_begun cb1 cb2 p c
  | FIELD_BEGUN => step_begun cb1 cb2 p c
  | FIELD_MIGHT_HAVE_ENDED => step_might_have_ended cb1 cb2 p c
  end.

(** [if (entry_pos == ...) csv_increase_buffer(p)] *)
Definition ensure_room (p : csv_parser) : result (bool * csv_parser) :=
  if decide (entry_pos p = if opt p CSV_APPEND_NULL then u64 (entry_size p - 1) else entry_size p)
  then csv_increase_buffer p else Ok (true, p).

(** The parser, the events and how many characters were processed. *)
Fixpoint csv_loop (cb1 cb2 : bool) (p : csv_parser) (s : bytes) : result (csv_parser * list csv_event * nat) :=
  match s with
  | [] => Ok (p, [], 0%nat)
  | c :: s =>
      r ← ensure_room p;
      if r.1 : bool then
        o ← csv_step cb1 cb2 r.2 c;
        if o.2 : bool then
          r2 ← csv_loop cb1 cb2 o.1.1 s;
          Ok (r2.1.1, o.1.2 ++ r2.1.2, S r2.2)
        else Ok (o.1.1, o.1.2, 0%nat)
      else Ok (r.2, [], 0%nat)
  end.

Definition csv_parse (cb1 cb2 : bool) (p : csv_parser) (s : bytes) : result (csv_parser * list csv_event * nat) :=
  r ← (if bool_decide (entry_buf p = None) && bool_decide (s <> []) then csv_increase_buffer p else Ok (true, p));
  if r.1 : bool then csv_loop cb1 cb2 r.2 s else Ok (r.2, [], 0%nat).

(** 0 or -1 *)
Definition csv_fini (cb1 cb2 : bool) (p : csv_parser) : result (Z * csv_parser * list csv_event) :=
  if bool_decide (pstate p = FIELD_BEGUN) && quoted p && opt p CSV_STRICT && opt p CSV_STRICT_FINI
  then Ok (-1, set_status p CSV_EPARSE, [])
  else
    r ← match pstate p with
        | ROW_NOT_BEGUN => Ok (p, [])
        | FIELD_MIGHT_HAVE_ENDED => SUBMIT_FIELD_ROW cb1 cb2 (drop_quote p) (-1)
        | FIELD_NOT_BEGUN | FIELD_BEGUN => SUBMIT_FIELD_ROW cb1 cb2 p (-1)
        end;
    Ok (0, set_status (set_state r.1 ROW_NOT_BEGUN false 0 0) 0, r.2).

(** ** Writing *)

(** The loop of [csv_write2]: the bytes stored so far and the count. *)
Fixpoint write_loop (quote dest_size : Z) (src : bytes) (out : bytes) (chars : Z) : bytes * Z :=
  let put (c : Z) (o : bytes * Z) : bytes * Z :=
    (if decide (o.2 < dest_size) then o.1 ++ [c] else o.1, if decide (o.2 < SIZE_MAX) then o.2 + 1 else o.2) in
  match src with
  | [] => put quote (out, chars)
  | c :: src =>
      let o := if decide (c = quote) then put quote (out, chars) else (out, chars) in
      let o := put c o in
      write_loop quote dest_size src o.1 o.2
  end.

(** The count returned and what is stored at [dest]; a NULL [dest] has size 0, a NULL
    [src] writes nothing. *)
Definition csv_write2 (dest_size : Z) (src : option bytes) (quote : Z) : Z * bytes :=
  match src with
  | None => (0, [])
  | Some src =>
      let o := write_loop quote dest_size src (if decide (0 < dest_size) then [quote] else []) 1 in
      (o.2, o.1)
  end.

Definition csv_write (dest_size : Z) (src : option bytes) : Z * bytes := csv_write2 dest_size src CSV_QUOTE.

(** A file that takes [room] more bytes: [fputc] answers EOF when there is none left. *)
Record file := File { f_data : bytes; f_room : nat }.

Definition fputc (c : Z) (f : file) : option file :=
  match f_room f with O => None | S n => Some (File (f_data f ++ [c]) n) end.

(** [None]: EOF *)
Fixpoint fwrite_loop (quote : Z) (src : bytes) (f : file) : option file :=
  match src with
  | [] => fputc quote f
  | c :: src =>
      f ← (if decide (c = quote) then fputc quote f else Some f);
      f ← fputc c f;
      fwrite_loop quote src f
  end.

Definition csv_fwrite2 (f : file) (src : option bytes) (quote : Z) : option file :=
  match src with
  | None => Some f
  | Some src => f ← fputc quote f; fwrite_loop quote src f
  end.

Definition csv_fwrite (f : file) (src : option bytes) : option file := csv_fwrite2 f src CSV_QUOTE.
