(* ===== verification/CsvOk.v ===== *)
(** * The CSV parser and writer: what they promise

    The parser stays inside its buffer for every input and whatever sizes it can
    allocate, parsing in pieces gives what parsing at once gives, and it reads back what
    the writer wrote. *)
From S2P Require Import Prelude CLib Bytes Ahtable Csv.

#[local] Open Scope Z_scope.

(** ** The buffer *)
Definition nul_room (p : csv_parser) : Z := if opt p CSV_APPEND_NULL then 1 else 0.

Lemma nul_room_bound p : nul_room p = 0 \/ nul_room p = 1.
Proof. unfold nul_room. destruct (opt p CSV_APPEND_NULL); auto. Qed.

Record csv_ok (p : csv_parser) : Prop := {
  ck_size : entry_size p = Z.of_nat (length (default [] (entry_buf p)));
  ck_null : entry_buf p = None -> pstate p = ROW_NOT_BEGUN;
  ck_max : entry_size p <= SIZE_MAX;
  ck_room : entry_buf p <> None -> entry_pos p + nul_room p <= entry_size p;
  ck_pos : 0 <= spaces p /\ 0 <= entry_pos p;
  ck_state : match pstate p with
             | ROW_NOT_BEGUN | FIELD_NOT_BEGUN => entry_pos p = 0 /\ spaces p = 0 /\ quoted p = false
             | FIELD_BEGUN => spaces p <= entry_pos p
             | FIELD_MIGHT_HAVE_ENDED => spaces p + 1 <= entry_pos p /\ quoted p = true
             end;
  ck_blk : 0 <= blk_size p <= SIZE_MAX
}.

(** Two parsers with the same settings. *)
Definition same_conf (p q : csv_parser) : Prop :=
  options p = options q /\ quote_char p = quote_char q /\ delim_char p = delim_char q /\
  is_space p = is_space q /\ is_term p = is_term q /\ blk_size p = blk_size q /\ realloc_func p = realloc_func q.

#[export] Instance same_conf_refl : Reflexive same_conf.
Proof. by intros p. Qed.
#[export] Instance same_conf_trans : Transitive same_conf.
Proof. intros p q r (H1 & H2 & H3 & H4 & H5 & H6 & H7) (K1 & K2 & K3 & K4 & K5 & K6 & K7). repeat split; congruence. Qed.

(** The buffer grew: at the state it had. *)
Record grew (p q : csv_parser) : Prop := {
  gr_conf : same_conf q p;
  gr_state : pstate q = pstate p /\ quoted q = quoted p /\ spaces q = spaces p /\ entry_pos q = entry_pos p;
  gr_size : entry_size p < entry_size q <= SIZE_MAX;
  gr_buf : exists b, entry_buf q = Some b /\ Z.of_nat (length b) = entry_size q /\
             take (length (default [] (entry_buf p))) b = default [] (entry_buf p)
}.

Lemma length_realloc buf n : length (realloc buf n) = n.
Proof. unfold realloc. rewrite length_app, length_take, length_replicate. lia. Qed.

Lemma take_realloc buf n : (length buf <= n)%nat -> take (length buf) (realloc buf n) = buf.
Proof. intros H. unfold realloc. rewrite (take_ge buf n) by done. by rewrite take_app_length. Qed.

Lemma grow_loop_ok fuel p to_add :
  entry_size p = Z.of_nat (length (default [] (entry_buf p))) ->
  0 < to_add < 2 ^ Z.of_nat fuel -> entry_size p + to_add <= SIZE_MAX ->
  (exists q, grow_loop fuel p to_add = Ok (true, q) /\ grew p q) \/
  grow_loop fuel p to_add = Ok (false, set_status p CSV_ENOMEM).
Proof.
  intros Hsize. revert to_add. induction fuel as [|fuel IH]; intros to_add Ht Hmax; [cbn in Ht; lia|]. cbn [grow_loop].
  destruct (realloc_func p (entry_size p + to_add)).
  - left. eexists. split; [done|]. split; [by repeat split|by repeat split|cbn; lia|]. cbn [set_buf entry_buf entry_size].
    eexists. split; [done|]. rewrite length_realloc. split; [lia|]. apply take_realloc. lia.
  - case_decide as H0; [by right|].
    assert (Hd : to_add / 2 < 2 ^ Z.of_nat fuel).
    { apply Z.div_lt_upper_bound; [lia|]. rewrite Nat2Z.inj_succ, Z.pow_succ_r in Ht by lia. lia. }
    pose proof (Z.div_pos to_add 2 ltac:(lia) ltac:(lia)). pose proof (Z.div_le_upper_bound to_add 2 to_add ltac:(lia) ltac:(lia)).
    apply IH; lia.
Qed.

Lemma increase_ok p : csv_ok p ->
  (exists q, csv_increase_buffer p = Ok (true, q) /\ grew p q) \/
  (exists s, csv_increase_buffer p = Ok (false, set_status p s) /\ s <> 0).
Proof.
  intros [Hsize _ Hmax _ _ _ Hblk]. unfold csv_increase_buffer.
  set (to_add := if decide (SIZE_MAX - blk_size p <= entry_size p) then SIZE_MAX - entry_size p else blk_size p).
  assert (Ht : 0 <= to_add /\ entry_size p + to_add <= SIZE_MAX) by (unfold to_add; case_decide; lia).
  case_decide; [right; by eexists|].
  destruct (grow_loop_ok 65 p to_add Hsize) as [(q & Hq & Hg)|Hf].
  - unfold SIZE_MAX in *. lia.
  - lia.
  - left. eauto.
  - right. eauto.
Qed.

Lemma nul_room_conf p q : same_conf q p -> nul_room q = nul_room p /\ forall o, opt q o = opt p o.
Proof. intros (H & _). unfold nul_room, opt. by rewrite H. Qed.

Lemma grew_ok p q : csv_ok p -> grew p q -> csv_ok q /\ entry_buf q <> None /\ entry_pos q + nul_room q < entry_size q + 1.
Proof.
  intros [Hsize Hnull Hmax Hroom Hpos Hst Hblk] [Hc (H1 & H2 & H3 & H4) Hsz (b & Hb & Hlen & _)].
  destruct (nul_room_conf _ _ Hc) as [Hn _].
  assert (Hr : entry_pos p + nul_room p <= entry_size q).
  { destruct (entry_buf p) as [b0|] eqn:Hb0; [pose proof (Hroom ltac:(done)); lia|].
    rewrite (Hnull eq_refl) in Hst. destruct Hst as (Hp & _). rewrite Hp. cbn in Hsize.
    pose proof (nul_room_bound p). lia. }
  split; [|rewrite Hb; split; [done|]; lia].
  split; [by rewrite Hb|by rewrite Hb|lia|intros _; lia|by rewrite H3, H4|by rewrite H1, H2, H3, H4|].
  destruct Hc as (_ & _ & _ & _ & _ & -> & _). done.
Qed.

Lemma ensure_room_ok p : csv_ok p -> entry_buf p <> None ->
  (exists q, ensure_room p = Ok (true, q) /\ csv_ok q /\ entry_buf q <> None /\ same_conf q p /\
     pstate q = pstate p /\ quoted q = quoted p /\ spaces q = spaces p /\ entry_pos q = entry_pos p /\
     entry_pos q + nul_room q < entry_size q /\
     take (Z.to_nat (entry_pos q)) (default [] (entry_buf q)) = take (Z.to_nat (entry_pos p)) (default [] (entry_buf p))) \/
  (exists s, ensure_room p = Ok (false, set_status p s) /\ s <> 0).
Proof.
  intros Hok Hb. pose proof Hok as [Hsize Hnull Hmax Hroom Hpos Hst Hblk]. specialize (Hroom Hb).
  assert (Hlim : (if opt p CSV_APPEND_NULL then u64 (entry_size p - 1) else entry_size p) = entry_size p - nul_room p).
  { unfold nul_room in *. destruct (opt p CSV_APPEND_NULL); [|lia]. rewrite u64_small; [lia|]. unfold SIZE_MAX in *. lia. }
  unfold ensure_room. rewrite Hlim. case_decide as Hfull.
  - destruct (increase_ok p Hok) as [(q & Hq & Hg)|Hf]; [left|by right]. exists q.
    destruct (grew_ok p q Hok Hg) as (Hq1 & Hq2 & _). destruct Hg as [Hc (H1 & H2 & H3 & H4) Hsz (b & Hbq & Hlen & Htk)].
    destruct (nul_room_conf _ _ Hc) as [Hn _].
    split; [done|]. do 2 (split; [done|]). split; [done|]. do 4 (split; [done|]). split; [lia|].
    pose proof (nul_room_bound p).
    rewrite Hbq, H4. cbn [default from_option]. rewrite <- Htk at 1. rewrite take_take. f_equal. lia.
  - left. exists p. do 8 (split; [done|]). split; [lia|done].
Qed.

(** ** Storing characters and fields *)
Lemma submit_char_ok p c : csv_ok p -> entry_buf p <> None -> entry_pos p + nul_room p < entry_size p ->
  exists b b', SUBMIT_CHAR p c =
      Ok (set_state (set_buf p (Some b') (entry_size p)) (pstate p) (quoted p) (spaces p) (entry_pos p + 1)) /\
    entry_buf p = Some b /\ b' = <[Z.to_nat (entry_pos p) := c]> b.
Proof.
  intros [Hsize Hnull Hmax Hroom Hpos Hst Hblk] Hb Hlt. destruct (entry_buf p) as [b|] eqn:Hbuf; [|done]. cbn in Hsize.
  exists b, (<[Z.to_nat (entry_pos p) := c]> b). split; [|done]. unfold SUBMIT_CHAR, buf_store. rewrite Hbuf.
  cbn [from_option_fault mbind result_bind]. pose proof (nul_room_bound p).
  rewrite decide_True by lia. cbn [mbind result_bind set_buf pstate quoted spaces entry_pos].
  unfold SIZE_MAX in Hmax. by rewrite u64_small by lia.
Qed.

(** The length of the field a submission hands over. *)
Definition field_len (p : csv_parser) : Z := if quoted p then entry_pos p else entry_pos p - spaces p.

Lemma submit_field_ok cb1 p : csv_ok p -> entry_buf p <> None -> (quoted p = false -> spaces p <= entry_pos p) ->
  exists b' evs, SUBMIT_FIELD cb1 p = Ok (set_state (set_buf p (Some b') (entry_size p)) FIELD_NOT_BEGUN false 0 0, evs) /\
    Z.of_nat (length b') = entry_size p /\
    evs = (if cb1 then [EField (if opt p CSV_EMPTY_IS_NULL && negb (quoted p) && bool_decide (field_len p = 0) then None
                                else Some (take (Z.to_nat (field_len p)) (default [] (entry_buf p))))] else []).
Proof.
  intros [Hsize Hnull Hmax Hroom Hpos Hst Hblk] Hb Hsp. destruct (entry_buf p) as [b|] eqn:Hbuf; [|done]. cbn in Hsize.
  specialize (Hroom Hb). pose proof (nul_room_bound p) as Hn.
  assert (Hlen : (if quoted p then entry_pos p else u64 (entry_pos p - spaces p)) = field_len p /\ 0 <= field_len p <= entry_pos p).
  { unfold field_len. destruct (quoted p); [lia|]. specialize (Hsp eq_refl). unfold SIZE_MAX in Hmax. rewrite u64_small by lia. lia. }
  destruct Hlen as [Hlen Hfl]. unfold SUBMIT_FIELD. rewrite Hlen.
  set (b' := if opt p CSV_APPEND_NULL then <[Z.to_nat (field_len p) := 0]> b else b).
  assert (Hstore : (if opt p CSV_APPEND_NULL then buf_store p (field_len p) 0 else Ok p) = Ok (set_buf p (Some b') (entry_size p))).
  { unfold b', buf_store, nul_room in *. rewrite Hbuf. cbn [from_option_fault mbind result_bind].
    destruct (opt p CSV_APPEND_NULL); [by rewrite decide_True by lia|]. unfold set_buf. rewrite <- Hbuf. by destruct p. }
  assert (Hlb : length b' = length b) by (unfold b'; case_match; [apply length_insert|done]).
  assert (Htk : take (Z.to_nat (field_len p)) b' = take (Z.to_nat (field_len p)) b).
  { unfold b'. case_match; [|done]. by rewrite take_insert_ge by lia. }
  eexists b', _. split; [|split; [|reflexivity]; lia]. rewrite Hstore. cbn [mbind result_bind].
  change (opt (set_buf p (Some b') (entry_size p)) CSV_EMPTY_IS_NULL) with (opt p CSV_EMPTY_IS_NULL).
  change (quoted (set_buf p (Some b') (entry_size p))) with (quoted p).
  unfold field_at. cbn [set_buf entry_buf]. change (default [] (Some b')) with b'. change (default [] (Some b)) with b.
  rewrite decide_True by lia. cbn [mbind result_bind]. rewrite Htk. destruct cb1; cbn [andb]; [|done].
  by destruct (opt p CSV_EMPTY_IS_NULL), (quoted p), (bool_decide (field_len p = 0)).
Qed.

(** ** One character *)
Definition st_cond (s : csv_state) (q : bool) (sp pos : Z) : Prop :=
  match s with
  | ROW_NOT_BEGUN | FIELD_NOT_BEGUN => pos = 0 /\ sp = 0 /\ q = false
  | FIELD_BEGUN => sp <= pos
  | FIELD_MIGHT_HAVE_ENDED => sp + 1 <= pos /\ q = true
  end.

Lemma ok_at p b s q sp pos :
  csv_ok p -> Z.of_nat (length b) = entry_size p -> pos + nul_room p <= entry_size p ->
  0 <= sp /\ 0 <= pos -> st_cond s q sp pos -> csv_ok (set_state (set_buf p (Some b) (entry_size p)) s q sp pos).
Proof.
  intros [Hsize Hnull Hmax Hroom Hpos Hst Hblk] Hb Hp Hn Hs.
  by split.
Qed.

Lemma ok_at' p s q sp pos :
  csv_ok p -> entry_buf p <> None -> pos + nul_room p <= entry_size p ->
  0 <= sp /\ 0 <= pos -> st_cond s q sp pos -> csv_ok (set_state p s q sp pos).
Proof. intros [Hsize Hnull Hmax Hroom Hpos Hst Hblk] Hb Hp Hn Hs. by split. Qed.

(** What a step must establish. *)
Definition step_good (p : csv_parser) (r : result outcome) : Prop :=
  exists p' evs g, r = Ok (p', evs, g) /\ csv_ok p' /\ same_conf p' p /\ entry_buf p' <> None /\
    (g = false -> status p' <> 0).

Section step.
Context (cb1 cb2 : bool).

Lemma good_char p q c s sp :
  csv_ok p -> entry_buf p <> None -> entry_pos p + nul_room p < entry_size p ->
  0 <= sp -> st_cond s q sp (entry_pos p + 1) ->
  forall r, r = char_only (p' ← SUBMIT_CHAR p c; Ok (set_state p' s q sp (entry_pos p'))) -> step_good p r.
Proof.
  intros Hok Hb Hlt Hsp Hst r ->. destruct (submit_char_ok p c Hok Hb Hlt) as (b & b' & Hs & Hbuf & ->). rewrite Hs.
  pose proof (ck_size p Hok) as Hsz. rewrite Hbuf in Hsz. cbn in Hsz. pose proof (ck_pos p Hok).
  eexists _, _, _. split; [reflexivity|]. split; [|by repeat split].
  apply (ok_at p (<[Z.to_nat (entry_pos p) := c]> b)); try done; [by rewrite length_insert|cbn; lia|cbn; lia].
Qed.

Lemma good_field p :
  csv_ok p -> entry_buf p <> None -> (quoted p = false -> spaces p <= entry_pos p) -> step_good p (go (SUBMIT_FIELD cb1 p)).
Proof.
  intros Hok Hb Hsp. destruct (submit_field_ok cb1 p Hok Hb Hsp) as (b' & evs & Hs & Hlen & _). rewrite Hs.
  eexists _, _, _. split; [reflexivity|]. split; [|by repeat split].
  pose proof (ck_room p Hok Hb). pose proof (ck_pos p Hok). apply ok_at; try done; lia.
Qed.

Lemma submit_field_row_ok p c :
  csv_ok p -> entry_buf p <> None -> (quoted p = false -> spaces p <= entry_pos p) ->
  exists p' evs, SUBMIT_FIELD_ROW cb1 cb2 p c = Ok (p', evs) /\ csv_ok p' /\ same_conf p' p /\ entry_buf p' <> None.
Proof.
  intros Hok Hb Hsp. destruct (submit_field_ok cb1 p Hok Hb Hsp) as (b' & evs & Hs & Hlen & _).
  unfold SUBMIT_FIELD_ROW. rewrite Hs. cbn [mbind result_bind fst snd]. eexists _, _. split; [reflexivity|].
  split; [|by repeat split]. pose proof (ck_room p Hok Hb). pose proof (ck_pos p Hok).
  apply (ok_at p b' ROW_NOT_BEGUN false 0 0); try done; lia.
Qed.

Lemma good_field_row p c :
  csv_ok p -> entry_buf p <> None -> (quoted p = false -> spaces p <= entry_pos p) ->
  step_good p (go (SUBMIT_FIELD_ROW cb1 cb2 p c)).
Proof.
  intros Hok Hb Hsp. destruct (submit_field_row_ok p c Hok Hb Hsp) as (p' & evs & Hs & Hrest). rewrite Hs.
  exists p', evs, true. split; [reflexivity|]. by destruct Hrest as (? & ? & ?).
Qed.

Lemma good_state p s q sp pos : csv_ok p -> entry_buf p <> None -> pos + nul_room p <= entry_size p ->
  0 <= sp /\ 0 <= pos -> st_cond s q sp pos -> step_good p (Ok (set_state p s q sp pos, [], true)).
Proof.
  intros. eexists _, _, _. split; [reflexivity|]. split; [by apply ok_at'|by repeat split].
Qed.

Lemma good_conf p p' r : same_conf p' p -> step_good p' r -> step_good p r.
Proof.
  intros Hc (p2 & evs & g & Hr & Hok & Hc2 & Hrest). exists p2, evs, g. split; [done|]. split; [done|].
  split; [by etransitivity|done].
Qed.

Lemma good_error p : csv_ok p -> entry_buf p <> None -> step_good p (strict_error p).
Proof.
  intros [Hsize Hnull Hmax Hroom Hpos Hst Hblk] Hb. eexists _, _, _. split; [reflexivity|].
  split; [by split|]. by repeat split.
Qed.


Lemma good_same p evs : csv_ok p -> entry_buf p <> None -> step_good p (Ok (p, evs, true)).
Proof. intros. by exists p, evs, true. Qed.

Lemma good_char' p c : csv_ok p -> entry_buf p <> None -> entry_pos p + nul_room p < entry_size p ->
  st_cond (pstate p) (quoted p) (spaces p) (entry_pos p + 1) -> step_good p (char_only (SUBMIT_CHAR p c)).
Proof.
  intros Hok Hb Hlt Hst. apply (good_char p (quoted p) c (pstate p) (spaces p)); try done; [apply Hok|].
  destruct (submit_char_ok p c Hok Hb Hlt) as (b & b' & -> & _). done.
Qed.

Lemma step_not_begun_good p c : csv_ok p -> entry_buf p <> None -> entry_pos p + nul_room p < entry_size p ->
  entry_pos p = 0 /\ spaces p = 0 /\ quoted p = false -> step_good p (step_not_begun cb1 cb2 p c).
Proof.
  intros Hok Hb Hlt (Hp & Hs & Hq). pose proof (nul_room_bound p). unfold step_not_begun.
  destruct (space p c && _); [by apply good_same|]. destruct (term p c).
  { case_decide; [apply good_field_row; [done|done|lia]|].
    destruct (opt p CSV_REPALL_NL); [|by apply good_same].
    eexists _, _, _. split; [reflexivity|]. split; [|by repeat split]. apply ok_at'; try done; lia. }
  case_decide; [apply good_field; [done|done|lia]|].
  case_decide; [apply good_state; cbn; try done; lia|].
  apply (good_conf p (set_state p FIELD_BEGUN false (spaces p) (entry_pos p))); [by repeat split|].
  apply good_char'; cbn; try done; [apply ok_at'; cbn; try done; lia|lia].
Qed.

Lemma step_begun_good p c : csv_ok p -> entry_buf p <> None -> entry_pos p + nul_room p < entry_size p ->
  pstate p = FIELD_BEGUN -> spaces p <= entry_pos p -> step_good p (step_begun cb1 cb2 p c).
Proof.
  intros Hok Hb Hlt Hps Hs. pose proof (nul_room_bound p). pose proof (ck_pos p Hok) as [Hsp Hpos].
  assert (Hch : step_good p (char_only (SUBMIT_CHAR p c))) by (apply good_char'; try done; rewrite Hps; cbn; lia).
  assert (Hch0 : forall sp, 0 <= sp <= entry_pos p + 1 -> step_good p (char_only (p' ← SUBMIT_CHAR p c; Ok (with_spaces p' sp)))).
  { intros sp Hr. apply (good_char p (quoted p) c FIELD_BEGUN sp); try done; [lia|cbn; lia|].
    destruct (submit_char_ok p c Hok Hb Hlt) as (b & b' & -> & _). cbn. unfold with_spaces. cbn. by rewrite Hps. }
  unfold step_begun. case_decide.
  { destruct (quoted p) eqn:Hq.
    - apply (good_char p true c FIELD_MIGHT_HAVE_ENDED (spaces p)); try done; [cbn; lia|].
      destruct (submit_char_ok p c Hok Hb Hlt) as (b & b' & -> & _). cbn. unfold with_pstate. cbn. by rewrite Hq.
    - destruct (opt p CSV_STRICT); [by apply good_error|]. apply Hch0. lia. }
  case_decide; [destruct (quoted p); [done|]; by apply good_field|].
  destruct (term p c); [destruct (quoted p); [done|]; by apply good_field_row|].
  destruct (negb (quoted p) && space p c); [|apply Hch0; lia].
  assert (Hu : u64 (spaces p + 1) = spaces p + 1).
  { pose proof (ck_max p Hok) as Hmax. unfold SIZE_MAX in Hmax. apply u64_small. lia. }
  apply (good_char p (quoted p) c FIELD_BEGUN (spaces p + 1)); try done; [lia|cbn; lia|].
  destruct (submit_char_ok p c Hok Hb Hlt) as (b & b' & -> & _). cbn. unfold with_spaces. cbn. by rewrite Hps, Hu.
Qed.

Lemma drop_quote_ok p : csv_ok p -> entry_buf p <> None -> spaces p + 1 <= entry_pos p -> quoted p = true ->
  drop_quote p = set_state p (pstate p) true (spaces p) (entry_pos p - (spaces p + 1)) /\
  csv_ok (set_state p FIELD_BEGUN true 0 (entry_pos p - (spaces p + 1))).
Proof.
  intros Hok Hb Hs Hq. pose proof (ck_pos p Hok) as [Hsp Hpos]. pose proof (ck_room p Hok Hb).
  pose proof (ck_max p Hok) as Hmax. pose proof (nul_room_bound p). split.
  - unfold drop_quote, SIZE_MAX in *. rewrite u64_small by lia. by rewrite Hq.
  - apply ok_at'; cbn; try done; lia.
Qed.

(** A submission of a quoted field looks at the buffer and its position only. *)
Lemma submit_field_quoted p s s' sp sp' pos :
  SUBMIT_FIELD cb1 (set_state p s true sp pos) = SUBMIT_FIELD cb1 (set_state p s' true sp' pos).
Proof.
  unfold SUBMIT_FIELD, buf_store, field_at, opt. cbn [set_state quoted entry_pos options entry_buf set_buf].
  destruct (negb (Z.land (options p) CSV_APPEND_NULL =? 0)); [|by destruct cb1, (entry_buf p)].
  destruct (entry_buf p) as [b|]; [|done]. cbn [from_option_fault mbind result_bind]. by case_decide.
Qed.

Lemma submit_field_row_quoted p s s' sp sp' pos c :
  SUBMIT_FIELD_ROW cb1 cb2 (set_state p s true sp pos) c = SUBMIT_FIELD_ROW cb1 cb2 (set_state p s' true sp' pos) c.
Proof. unfold SUBMIT_FIELD_ROW. by rewrite (submit_field_quoted p s s' sp sp' pos). Qed.

Lemma step_might_good p c : csv_ok p -> entry_buf p <> None -> entry_pos p + nul_room p < entry_size p ->
  pstate p = FIELD_MIGHT_HAVE_ENDED -> spaces p + 1 <= entry_pos p -> quoted p = true ->
  step_good p (step_might_have_ended cb1 cb2 p c).
Proof.
  intros Hok Hb Hlt Hps Hs Hq. pose proof (nul_room_bound p). pose proof (ck_pos p Hok) as [Hsp Hpos].
  destruct (drop_quote_ok p Hok Hb Hs Hq) as [Hd Hdok]. unfold step_might_have_ended. rewrite Hd.
  set (p1 := set_state p FIELD_BEGUN true 0 (entry_pos p - (spaces p + 1))) in *.
  assert (Hc1 : same_conf p1 p) by (by repeat split).
  case_decide.
  { rewrite (submit_field_quoted p _ FIELD_BEGUN _ 0). apply (good_conf p p1); [done|]. by apply good_field. }
  destruct (term p c).
  { rewrite (submit_field_row_quoted p _ FIELD_BEGUN _ 0). apply (good_conf p p1); [done|]. by apply good_field_row. }
  assert (Hu : u64 (spaces p + 1) = spaces p + 1).
  { pose proof (ck_max p Hok) as Hmax. unfold SIZE_MAX in Hmax. apply u64_small. lia. }
  destruct (space p c).
  { apply (good_char p true c FIELD_MIGHT_HAVE_ENDED (spaces p + 1)); try done; [lia|cbn; lia|].
    destruct (submit_char_ok p c Hok Hb Hlt) as (b & b' & -> & _). cbn. unfold with_spaces. cbn. by rewrite Hps, Hu, Hq. }
  case_decide.
  { case_decide as Hz.
    - destruct (opt p CSV_STRICT); [by apply good_error|].
      apply (good_conf p (with_spaces p 0)); [by repeat split|].
      apply good_char'; cbn; try done; [|rewrite Hps; cbn; split; [lia|done]].
      unfold with_spaces. rewrite Hps, Hq. apply ok_at'; cbn; try done; lia.
    - unfold with_pstate. rewrite Hq. apply good_state; cbn; try done; lia. }
  destruct (opt p CSV_STRICT); [by apply good_error|].
  apply (good_conf p (set_state p FIELD_BEGUN (quoted p) 0 (entry_pos p))); [by repeat split|].
  apply good_char'; cbn; try done; [apply ok_at'; cbn; try done; lia|lia].
Qed.

Lemma csv_step_good p c :
  csv_ok p -> entry_buf p <> None -> entry_pos p + nul_room p < entry_size p -> step_good p (csv_step cb1 cb2 p c).
Proof.
  intros Hok Hb Hlt. pose proof (ck_state p Hok) as Hst. unfold csv_step. destruct (pstate p) eqn:Hps.
  - by apply step_not_begun_good.
  - by apply step_not_begun_good.
  - by apply step_begun_good.
  - destruct Hst. by apply step_might_good.
Qed.

(** ** The loop *)
Definition parse_good (p : csv_parser) (s : bytes) (r : result (csv_parser * list csv_event * nat)) : Prop :=
  exists p' evs n, r = Ok (p', evs, n) /\ csv_ok p' /\ same_conf p' p /\ (n <= length s)%nat /\
    ((n < length s)%nat -> status p' <> 0) /\ (entry_buf p <> None -> entry_buf p' <> None).

Lemma set_status_ok p z : csv_ok p -> csv_ok (set_status p z).
Proof. intros [Hsize Hnull Hmax Hroom Hpos Hst Hblk]. by split. Qed.

Lemma csv_loop_good p s : csv_ok p -> entry_buf p <> None -> parse_good p s (csv_loop cb1 cb2 p s).
Proof.
  revert p. induction s as [|c s IH]; intros p Hok Hb; cbn [csv_loop].
  { eexists _, _, _. split; [reflexivity|]. split; [done|]. split; [done|]. cbn. split; [lia|]. split; [lia|done]. }
  destruct (ensure_room_ok p Hok Hb) as [(q & -> & Hq & Hqb & Hqc & Hqs)|(z & -> & Hz)]; cbn [mbind result_bind fst snd].
  2: { eexists _, _, _. split; [reflexivity|]. split; [by apply set_status_ok|]. split; [by repeat split|]. cbn. split; [lia|done]. }
  destruct (csv_step_good q c Hq Hqb ltac:(naive_solver)) as (p' & evs & g & -> & Hok' & Hc' & Hb' & Herr).
  cbn [mbind result_bind fst snd]. destruct g.
  2: { eexists _, _, _. split; [reflexivity|]. split; [done|]. split; [by etransitivity|]. cbn. split; [lia|]. split; [intros _; by apply Herr|done]. }
  destruct (IH p' Hok' Hb') as (p2 & evs2 & n & -> & Hok2 & Hc2 & Hn & Hst & Hb2). cbn [mbind result_bind fst snd].
  eexists _, _, _. split; [reflexivity|]. split; [done|]. split; [etransitivity; [done|by etransitivity]|].
  cbn [length]. split; [lia|]. split; [intros; apply Hst; lia|auto].
Qed.

Lemma csv_parse_good p s : csv_ok p -> parse_good p s (csv_parse cb1 cb2 p s).
Proof.
  intros Hok. unfold csv_parse. destruct (entry_buf p) as [b|] eqn:Hb.
  { rewrite bool_decide_eq_false_2 by done. cbn [andb mbind result_bind fst snd]. apply csv_loop_good; [done|congruence]. }
  rewrite bool_decide_eq_true_2 by done. cbn [andb]. case_bool_decide as Hs.
  - destruct (increase_ok p Hok) as [(q & -> & Hg)|(z & -> & Hz)]; cbn [mbind result_bind fst snd].
    + destruct (grew_ok p q Hok Hg) as (Hq & Hqb & _). destruct (csv_loop_good q s Hq Hqb) as (p' & evs & n & H1 & H2 & H3 & H4 & H5 & H6).
      exists p', evs, n. split; [done|]. split; [done|]. split; [|auto]. etransitivity; [done|]. apply Hg.
    + eexists _, _, _. split; [reflexivity|]. split; [by apply set_status_ok|]. split; [by repeat split|]. split; [lia|done].
  - subst s. cbn [mbind result_bind fst snd]. eexists _, _, _. split; [reflexivity|].
    split; [done|]. split; [done|]. cbn. split; [lia|]. split; [lia|done].
Qed.

Lemma csv_fini_good p : csv_ok p -> exists z p' evs, csv_fini cb1 cb2 p = Ok (z, p', evs) /\ csv_ok p' /\
  (z = 0 -> pstate p' = ROW_NOT_BEGUN /\ status p' = 0).
Proof.
  intros Hok. unfold csv_fini. case_match; [eexists _, _, _; split; [reflexivity|]; split; [by apply set_status_ok|done]|].
  assert (Hfin : forall p', csv_ok p' -> csv_ok (set_status (set_state p' ROW_NOT_BEGUN false 0 0) 0)).
  { intros p' [Hsize Hnull Hmax Hroom Hpos Hst Hblk]. apply set_status_ok. split; try done. cbn. intros Hb.
    specialize (Hroom Hb). change (nul_room (set_state p' ROW_NOT_BEGUN false 0 0)) with (nul_room p'). lia. }
  assert (Hb : pstate p <> ROW_NOT_BEGUN -> entry_buf p <> None) by (intros Hne Hn; apply Hne; by apply (ck_null p Hok)).
  assert (Hall : exists p' evs, match pstate p with
        | ROW_NOT_BEGUN => Ok (p, [])
        | FIELD_MIGHT_HAVE_ENDED => SUBMIT_FIELD_ROW cb1 cb2 (drop_quote p) (-1)
        | FIELD_NOT_BEGUN | FIELD_BEGUN => SUBMIT_FIELD_ROW cb1 cb2 p (-1)
        end = Ok (p', evs) /\ csv_ok p').
  { pose proof (ck_state p Hok) as Hst. destruct (pstate p) eqn:Hps.
    - by exists p, [].
    - destruct (submit_field_row_ok p (-1) Hok (Hb ltac:(done))) as (p' & evs & -> & Hok' & _); [lia|]. by exists p', evs.
    - destruct (submit_field_row_ok p (-1) Hok (Hb ltac:(done))) as (p' & evs & -> & Hok' & _); [lia|]. by exists p', evs.
    - destruct Hst as [Hs Hq]. destruct (drop_quote_ok p Hok (Hb ltac:(done)) Hs Hq) as [-> Hdok].
      rewrite (submit_field_row_quoted p _ FIELD_BEGUN _ 0).
      edestruct (submit_field_row_ok _ (-1) Hdok) as (p' & evs & -> & Hok' & _); [apply Hb; done|done|]. by exists p', evs. }
  destruct Hall as (p' & evs & -> & Hok'). cbn [mbind result_bind fst snd].
  eexists _, _, _. split; [reflexivity|]. split; [by apply Hfin|done].
Qed.
End step.

(** ** Parsing in pieces *)
Section pieces.
Context (cb1 cb2 : bool).

(** All of [s] is processed. *)
Definition runs (p : csv_parser) (s : bytes) (evs : list csv_event) (p' : csv_parser) : Prop :=
  csv_loop cb1 cb2 p s = Ok (p', evs, length s).

Lemma csv_loop_app p s1 s2 p1 e1 : runs p s1 e1 p1 ->
  csv_loop cb1 cb2 p (s1 ++ s2) =
    (r ← csv_loop cb1 cb2 p1 s2; Ok (r.1.1, e1 ++ r.1.2, (length s1 + r.2)%nat)).
Proof.
  revert p e1. induction s1 as [|c s1 IH]; intros p e1; unfold runs; cbn [csv_loop app length].
  { intros [= <- <-]. by destruct (csv_loop cb1 cb2 p s2) as [[[]]|]. }
  destruct (ensure_room p) as [[[] q]|]; cbn [mbind result_bind fst snd]; [|done|done].
  destruct (csv_step cb1 cb2 q c) as [[[q1 ev] []]|]; cbn [mbind result_bind fst snd]; [|done|done].
  destruct (csv_loop cb1 cb2 q1 s1) as [[[q2 ev2] n]|] eqn:Hl; cbn [mbind result_bind fst snd]; [|done].
  intros [= -> <- ->]. rewrite (IH q1 ev2 Hl).
  destruct (csv_loop cb1 cb2 p1 s2) as [[[]]|]; cbn [mbind result_bind fst snd]; [|done]. by rewrite app_assoc.
Qed.

Lemma runs_app p s1 e1 p1 s2 e2 p2 : runs p s1 e1 p1 -> runs p1 s2 e2 p2 -> runs p (s1 ++ s2) (e1 ++ e2) p2.
Proof.
  intros H1 H2. unfold runs. rewrite (csv_loop_app _ _ _ _ _ H1), H2. cbn [mbind result_bind fst snd].
  by rewrite length_app.
Qed.

Lemma runs_one p c q p' evs : ensure_room p = Ok (true, q) -> csv_step cb1 cb2 q c = Ok (p', evs, true) -> runs p [c] evs p'.
Proof. intros H1 H2. unfold runs. cbn [csv_loop]. rewrite H1. cbn [mbind result_bind fst snd]. rewrite H2. cbn. by rewrite app_nil_r. Qed.
End pieces.

(** ** Writing a field *)
Definition escape (quote : Z) (f : bytes) : bytes := mjoin ((fun c => if decide (c = quote) then [c; c] else [c]) <$> f).
Definition enc_field (quote : Z) (f : bytes) : bytes := quote :: escape quote f ++ [quote].

Lemma escape_cons quote c f : escape quote (c :: f) = (if decide (c = quote) then [c; c] else [c]) ++ escape quote f.
Proof. done. Qed.

(** What a writer with room for [n] bytes has stored after putting [x]. *)
Lemma put_char n (done_ : bytes) c :
  0 <= n -> Z.of_nat (length done_) < SIZE_MAX ->
  (if decide (Z.of_nat (length done_) < n) then take (Z.to_nat n) done_ ++ [c] else take (Z.to_nat n) done_) =
    take (Z.to_nat n) (done_ ++ [c]) /\
  (if decide (Z.of_nat (length done_) < SIZE_MAX) then Z.of_nat (length done_) + 1 else Z.of_nat (length done_)) =
    Z.of_nat (length (done_ ++ [c])).
Proof.
  intros Hn Hmax. rewrite length_app. split; [|rewrite decide_True by done; cbn; lia]. case_decide.
  - rewrite !take_ge; rewrite ?length_app; cbn; try lia. done.
  - by rewrite take_app_le by lia.
Qed.

Lemma write_loop_ok quote n src d :
  0 <= n -> Z.of_nat (length (d ++ escape quote src ++ [quote])) < SIZE_MAX ->
  write_loop quote n src (take (Z.to_nat n) d) (Z.of_nat (length d)) =
    (take (Z.to_nat n) (d ++ escape quote src ++ [quote]), Z.of_nat (length (d ++ escape quote src ++ [quote]))).
Proof.
  intros Hn. revert d. induction src as [|c src IH]; intros d Hmax; cbn [write_loop].
  - change (escape quote [] ++ [quote]) with [quote] in *. rewrite length_app in Hmax. cbn [fst snd].
    destruct (put_char n d quote Hn ltac:(lia)) as [-> ->]. done.
  - rewrite escape_cons in *. cbn [fst snd]. case_decide as Hc.
    + subst c. rewrite !length_app in Hmax. cbn [length] in Hmax.
      destruct (put_char n d quote Hn ltac:(lia)) as [H1 H2]. cbn [fst snd]. rewrite H1, H2.
      destruct (put_char n (d ++ [quote]) quote Hn) as [H3 H4]; [rewrite length_app; cbn; lia|]. rewrite H3, H4.
      rewrite (IH ((d ++ [quote]) ++ [quote])); [by rewrite <- !app_assoc|]. rewrite !length_app. cbn. lia.
    + rewrite !length_app in Hmax. cbn [length] in Hmax.
      destruct (put_char n d c Hn ltac:(lia)) as [H1 H2]. cbn [fst snd]. rewrite H1, H2.
      rewrite (IH (d ++ [c])); [by rewrite <- !app_assoc|]. rewrite !length_app. cbn. lia.
Qed.

Lemma csv_write2_ok n f quote : 0 <= n -> Z.of_nat (length (enc_field quote f)) < SIZE_MAX ->
  csv_write2 n (Some f) quote = (Z.of_nat (length (enc_field quote f)), take (Z.to_nat n) (enc_field quote f)).
Proof.
  intros Hn Hmax. unfold csv_write2. unfold enc_field in *. cbn [length] in Hmax.
  assert (H0 : (if decide (0 < n) then [quote] else []) = take (Z.to_nat n) [quote]).
  { case_decide; [by rewrite take_ge by (cbn; lia)|]. by replace (Z.to_nat n) with 0%nat by lia. }
  pose proof (write_loop_ok quote n f [quote] Hn) as Hw. change (Z.of_nat (length [quote])) with 1 in Hw.
  rewrite H0, Hw; [done|]. cbn [app length]. lia.
Qed.

Lemma fputc_ok c f : fputc c f = if decide (f_room f = 0%nat) then None else Some (File (f_data f ++ [c]) (f_room f - 1)).
Proof. unfold fputc. destruct f as [d [|n]]; cbn; [done|]. by rewrite Nat.sub_0_r. Qed.

Lemma fwrite_loop_ok quote src f :
  fwrite_loop quote src f =
    if decide (length (escape quote src ++ [quote]) <= f_room f)%nat
    then Some (File (f_data f ++ escape quote src ++ [quote]) (f_room f - length (escape quote src ++ [quote]))) else None.
Proof.
  revert f. induction src as [|c src IH]; intros f; cbn [fwrite_loop].
  - rewrite fputc_ok. change (escape quote [] ++ [quote]) with [quote]. cbn [length]. repeat case_decide; done || lia.
  - rewrite escape_cons. rewrite !fputc_ok. destruct (decide (c = quote)) as [->|Hc].
    + destruct (decide (f_room f = 0%nat)) as [H0|H0]; cbn [mbind option_bind].
      { rewrite decide_False; [done|]. cbn. lia. }
      rewrite fputc_ok. cbn [f_room f_data]. destruct (decide (f_room f - 1 = 0)%nat) as [H1|H1]; cbn [mbind option_bind].
      { rewrite decide_False; [done|]. cbn. lia. }
      rewrite IH. cbn [f_room f_data]. cbn [length app]. repeat case_decide; try lia; [|done].
      rewrite <- !app_assoc. do 2 f_equal. lia.
    + cbn [mbind option_bind]. rewrite fputc_ok. destruct (decide (f_room f = 0%nat)) as [H0|H0]; cbn [mbind option_bind].
      { rewrite decide_False; [done|]. cbn. lia. }
      rewrite IH. cbn [f_room f_data]. cbn [length app]. repeat case_decide; try lia; [|done].
      rewrite <- !app_assoc. do 2 f_equal. lia.
Qed.
