(* ===== verification/CsvSpec.v ===== *)
(** * The CSV parser and writer: reading back what was written *)
From S2P Require Import Prelude CLib Bytes Ahtable Csv CsvOk.

#[local] Open Scope Z_scope.

(** A parser that can grow its buffer and splits fields unambiguously. *)
Record reader (p : csv_parser) : Prop := {
  rd_alloc n : realloc_func p n = true;
  rd_blk : 0 < blk_size p;
  rd_space : is_space p = None;
  rd_term : is_term p = None;
  rd_quote : quote_char p ∉ [CSV_SPACE; CSV_TAB; CSV_CR; CSV_LF];
  rd_delim : delim_char p <> quote_char p /\ delim_char p <> CSV_LF
}.

Lemma reader_conf p q : same_conf q p -> reader p -> reader q.
Proof.
  intros (H1 & H2 & H3 & H4 & H5 & H6 & H7) [R1 R2 R3 R4 R5 R6]. split; rewrite ?H2, ?H3, ?H4, ?H5, ?H6, ?H7; done.
Qed.

Section read.
Context (cb1 cb2 : bool) (p0 : csv_parser) (Hrd : reader p0).

(** The start of a field ([s]: of a row, or after a delimiter). *)
Record at_start (s : csv_state) (p : csv_parser) : Prop := {
  as_ok : csv_ok p;
  as_buf : entry_buf p <> None;
  as_conf : same_conf p p0;
  as_state : pstate p = s /\ (s = ROW_NOT_BEGUN \/ s = FIELD_NOT_BEGUN)
}.

(** Inside a quoted field, [f] read so far; after a quote in it when [s] says so. *)
Record in_field (s : csv_state) (f : bytes) (p : csv_parser) : Prop := {
  if_ok : csv_ok p;
  if_buf : entry_buf p <> None;
  if_conf : same_conf p p0;
  if_state : pstate p = s /\ quoted p = true /\ spaces p = 0;
  if_pos : entry_pos p = Z.of_nat (length f);
  if_take : take (length f) (default [] (entry_buf p)) = f
}.

Lemma room p : csv_ok p -> entry_buf p <> None -> same_conf p p0 -> entry_pos p + 1 < SIZE_MAX ->
  exists q, ensure_room p = Ok (true, q) /\ csv_ok q /\ entry_buf q <> None /\ same_conf q p0 /\
     pstate q = pstate p /\ quoted q = quoted p /\ spaces q = spaces p /\ entry_pos q = entry_pos p /\
     entry_pos q + nul_room q < entry_size q /\
     take (Z.to_nat (entry_pos q)) (default [] (entry_buf q)) = take (Z.to_nat (entry_pos p)) (default [] (entry_buf p)).
Proof.
  intros Hok Hb Hc Hlt. destruct (reader_conf _ _ Hc Hrd) as [R1 R2 _ _ _ _].
  destruct (ensure_room_ok p Hok Hb) as [(q & H1 & H2 & H3 & H4 & Hrest)|(z & Hf & _)].
  - exists q. split; [done|]. split; [done|]. split; [done|]. split; [by etransitivity|done].
  - exfalso. unfold ensure_room in Hf. case_decide as Hfull; [|done].
    assert (Hlim : entry_size p < SIZE_MAX).
    { pose proof (ck_max p Hok). pose proof (ck_size p Hok). unfold u64, SIZE_MAX in *. revert Hfull.
      destruct (opt p CSV_APPEND_NULL); intros Hfull; [|lia].
      destruct (decide (entry_size p = 0)); [lia|]. rewrite Z.mod_small in Hfull by lia. lia. }
    unfold csv_increase_buffer in Hf.
    set (to_add := if decide (SIZE_MAX - blk_size p <= entry_size p) then SIZE_MAX - entry_size p else blk_size p) in *.
    assert (to_add <> 0) by (unfold to_add; destruct (decide (SIZE_MAX - blk_size p <= entry_size p)); lia). rewrite decide_False in Hf by done.
    cbn [grow_loop] in Hf. by rewrite R1 in Hf.
Qed.

Lemma plain_quote p : reader p ->
  space p (quote_char p) = false /\ term p (quote_char p) = false.
Proof.
  intros [_ _ Hs Ht Hq _]. unfold space, term. rewrite Hs, Ht.
  split; rewrite !bool_decide_eq_false_2; try done; intros Heq; apply Hq; rewrite Heq; set_solver.
Qed.

(** Storing a character of a field. *)
Lemma field_char s f p c :
  in_field s f p -> s = FIELD_BEGUN \/ s = FIELD_MIGHT_HAVE_ENDED -> entry_pos p + nul_room p < entry_size p ->
  exists p1, SUBMIT_CHAR p c = Ok p1 /\ with_pstate p1 s = p1 /\ with_spaces p1 0 = p1 /\
    forall s', s' = FIELD_BEGUN \/ s' = FIELD_MIGHT_HAVE_ENDED -> in_field s' (f ++ [c]) (with_pstate p1 s').
Proof.
  intros [Hok Hb Hc (Hps & Hq & Hsp) Hpos Htk] Hs Hlt.
  destruct (submit_char_ok p c Hok Hb Hlt) as (b & b' & Hsub & Hbuf & ->). rewrite Hsub, Hps, Hq, Hsp.
  pose proof (ck_size p Hok) as Hsz. rewrite Hbuf in Hsz, Htk. change (default [] (Some b)) with b in *.
  pose proof (nul_room_bound p).
  eexists. split; [reflexivity|]. split; [done|]. split; [done|]. intros s' Hs'. split; try done.
  - apply (ok_at p); [done|by rewrite length_insert|cbn; lia|cbn; lia|].
    destruct Hs' as [-> | ->]; cbn; [lia|split; [lia|done]].
  - cbn. rewrite length_app, Hpos. cbn. lia.
  - change (take (length (f ++ [c])) (<[Z.to_nat (entry_pos p) := c]> b) = f ++ [c]).
    rewrite length_app, Hpos, Nat2Z.id. cbn [length]. rewrite Nat.add_1_r.
    rewrite (take_S_r _ _ c) by (apply list_lookup_insert_eq; lia). by rewrite take_insert_ge by lia; rewrite Htk.
Qed.

Lemma in_field_room s f p : in_field s f p -> Z.of_nat (length f) + 1 < SIZE_MAX ->
  exists q, ensure_room p = Ok (true, q) /\ in_field s f q /\ entry_pos q + nul_room q < entry_size q.
Proof.
  intros [Hok Hb Hc (Hps & Hq & Hsp) Hpos Htk] Hmax.
  destruct (room p Hok Hb Hc) as (q & Hr & Hqok & Hqb & Hqc & H1 & H2 & H3 & H4 & H5 & H6); [lia|].
  exists q. split; [done|]. split; [|done]. split; try done; [by rewrite H1, H2, H3|by rewrite H4|].
  rewrite H4, Hpos, Nat2Z.id in H6. by rewrite H6.
Qed.

Lemma conf_reader p : same_conf p p0 -> reader p /\ quote_char p = quote_char p0 /\ delim_char p = delim_char p0.
Proof. intros Hc. split; [by eapply reader_conf|]. by destruct Hc as (_ & ? & ? & _). Qed.

Lemma read_plain f p c : in_field FIELD_BEGUN f p -> c <> quote_char p0 -> Z.of_nat (length f) + 1 < SIZE_MAX ->
  exists p', runs cb1 cb2 p [c] [] p' /\ in_field FIELD_BEGUN (f ++ [c]) p'.
Proof.
  intros Hf Hc Hmax. destruct (in_field_room _ _ _ Hf Hmax) as (q & Hr & Hq & Hlt).
  destruct (field_char _ _ _ c Hq ltac:(by left) Hlt) as (p1 & Hs & Hp1 & Hp2 & Hin).
  specialize (Hin FIELD_BEGUN ltac:(by left)). rewrite Hp1 in Hin. exists p1. split; [|done].
  apply (runs_one _ _ _ _ q); [done|]. destruct Hq as [_ _ Hconf (Hps & Hqu & _) _ _].
  destruct (conf_reader q Hconf) as (_ & Hqq & Hqd). unfold csv_step, step_begun. rewrite Hps, Hqq, Hqu, decide_False by done.
  rewrite Hs. cbn [char_only mbind result_bind negb andb]. rewrite Hp2. by repeat case_decide; repeat case_match.
Qed.

Lemma read_close f p : in_field FIELD_BEGUN f p -> Z.of_nat (length f) + 1 < SIZE_MAX ->
  exists p', runs cb1 cb2 p [quote_char p0] [] p' /\ in_field FIELD_MIGHT_HAVE_ENDED (f ++ [quote_char p0]) p'.
Proof.
  intros Hf Hmax. destruct (in_field_room _ _ _ Hf Hmax) as (q & Hr & Hq & Hlt).
  destruct (field_char _ _ _ (quote_char p0) Hq ltac:(by left) Hlt) as (p1 & Hs & _ & _ & Hin).
  exists (with_pstate p1 FIELD_MIGHT_HAVE_ENDED). split; [|apply Hin; by right].
  apply (runs_one _ _ _ _ q); [done|]. destruct Hq as [_ _ Hconf (Hps & Hqu & _) _ _].
  destruct (conf_reader q Hconf) as (_ & Hqq & Hqd). unfold csv_step, step_begun. rewrite Hps, Hqq, Hqu, decide_True by done.
  by rewrite Hs.
Qed.

Lemma read_reopen f p : in_field FIELD_MIGHT_HAVE_ENDED f p -> Z.of_nat (length f) + 1 < SIZE_MAX ->
  exists p', runs cb1 cb2 p [quote_char p0] [] p' /\ in_field FIELD_BEGUN f p'.
Proof.
  intros Hf Hmax. destruct (in_field_room _ _ _ Hf Hmax) as (q & Hr & Hq & Hlt).
  pose proof Hq as [Hok Hb Hconf (Hps & Hqu & Hsp) Hpos Htk].
  destruct (conf_reader q Hconf) as (Hrq & Hqq & Hqd). destruct (plain_quote q Hrq) as [Hnsp Hnt].
  exists (with_pstate q FIELD_BEGUN). split.
  - apply (runs_one _ _ _ _ q); [done|]. unfold csv_step, step_might_have_ended. rewrite Hps.
    rewrite decide_False by (rewrite <- Hqq; intros Heq; by apply (proj1 (rd_delim q Hrq))).
    rewrite <- Hqq, Hnt, Hnsp, decide_True by done. by rewrite decide_False by lia.
  - split; try done.
    unfold with_pstate. rewrite Hqu, Hsp. pose proof (ck_room q Hok Hb). pose proof (ck_pos q Hok). apply ok_at'; try done; cbn; lia.
Qed.

Lemma read_body f p g : in_field FIELD_BEGUN g p -> Z.of_nat (length (g ++ f)) + 2 < SIZE_MAX ->
  exists p', runs cb1 cb2 p (escape (quote_char p0) f) [] p' /\ in_field FIELD_BEGUN (g ++ f) p'.
Proof.
  revert p g. induction f as [|c f IH]; intros p g Hg Hmax.
  { exists p. split; [done|]. by rewrite app_nil_r. }
  rewrite escape_cons. rewrite length_app in Hmax. cbn [length] in Hmax.
  assert (Hstep : exists p1, runs cb1 cb2 p (if decide (c = quote_char p0) then [c; c] else [c]) [] p1 /\
    in_field FIELD_BEGUN (g ++ [c]) p1).
  { case_decide as Hc; [subst c|by apply read_plain; [done|done|lia]].
    destruct (read_close g p Hg ltac:(lia)) as (p1 & H1 & H2).
    destruct (read_reopen _ p1 H2) as (p2 & H3 & H4); [rewrite length_app; cbn; lia|].
    exists p2. split; [|done]. exact (runs_app _ _ _ _ _ _ _ _ _ H1 H3). }
  destruct Hstep as (p1 & H1 & H2). destruct (IH p1 (g ++ [c]) H2) as (p2 & H3 & H4); [rewrite !length_app; cbn; lia|].
  exists p2. rewrite (app_assoc g [c] f : g ++ c :: f = _). split; [|done]. exact (runs_app _ _ _ _ _ _ _ _ _ H1 H3).
Qed.

Lemma read_open s p : at_start s p -> exists p', runs cb1 cb2 p [quote_char p0] [] p' /\ in_field FIELD_BEGUN [] p'.
Proof.
  intros [Hok Hb Hc [Hps Hs]]. pose proof (ck_state p Hok) as Hst.
  assert (Hz : entry_pos p = 0 /\ spaces p = 0 /\ quoted p = false) by (destruct Hs as [-> | ->]; rewrite Hps in Hst; exact Hst).
  destruct Hz as (Hp & Hsp & Hq).
  destruct (room p Hok Hb Hc) as (q & Hr & Hqok & Hqb & Hqc & H1 & H2 & H3 & H4 & H5 & _); [unfold SIZE_MAX; lia|].
  destruct (conf_reader q Hqc) as (Hrq & Hqq & Hqd). destruct (plain_quote q Hrq) as [Hnsp Hnt].
  exists (set_state q FIELD_BEGUN true 0 0). split.
  - apply (runs_one _ _ _ _ q); [done|].
    assert (Hstep : step_not_begun cb1 cb2 q (quote_char p0) = Ok (set_state q FIELD_BEGUN true 0 0, [], true)).
    { unfold step_not_begun. rewrite <- Hqq, Hnsp, Hnt. cbn [andb].
      rewrite decide_False by (intros Heq; by apply (proj1 (rd_delim q Hrq))). by rewrite decide_True, H3, H4, Hsp, Hp by done. }
    unfold csv_step. rewrite H1, Hps. by destruct Hs as [-> | ->].
  - split; try done. pose proof (nul_room_bound q). apply ok_at'; try done; cbn; lia.
Qed.

Lemma read_field s f p : at_start s p -> Z.of_nat (length f) + 2 < SIZE_MAX ->
  exists p', runs cb1 cb2 p (enc_field (quote_char p0) f) [] p' /\ in_field FIELD_MIGHT_HAVE_ENDED (f ++ [quote_char p0]) p'.
Proof.
  intros Hs Hmax. destruct (read_open s p Hs) as (p1 & H1 & H2). destruct (read_body f p1 [] H2) as (p2 & H3 & H4); [done|].
  destruct (read_close f p2 H4) as (p3 & H5 & H6); [lia|]. exists p3. split; [|done].
  exact (runs_app _ _ _ _ _ _ _ _ _ H1 (runs_app _ _ _ _ _ _ _ _ _ H3 H5)).
Qed.

Definition field_event (f : bytes) : list csv_event := if cb1 then [EField (Some f)] else [].
Definition row_event (c : Z) : list csv_event := if cb2 then [ERow c] else [].

Lemma field_end f q : in_field FIELD_MIGHT_HAVE_ENDED (f ++ [quote_char p0]) q ->
  exists p', SUBMIT_FIELD cb1 (drop_quote q) = Ok (p', field_event f) /\ at_start FIELD_NOT_BEGUN p' /\
    at_start ROW_NOT_BEGUN (set_state p' ROW_NOT_BEGUN false 0 0).
Proof.
  intros [Hok Hb Hc (Hps & Hq & Hsp) Hpos Htk]. rewrite length_app in Hpos, Htk. cbn [length] in Hpos, Htk.
  destruct (drop_quote_ok q Hok Hb) as [Hd Hdok]; [lia|done|].
  rewrite Hd, (submit_field_quoted cb1 q _ FIELD_BEGUN _ 0).
  destruct (submit_field_ok cb1 _ Hdok) as (b' & evs & Hs & Hlen & Hev); [done|done|].
  eexists. split; [rewrite Hs; do 2 f_equal|].
  - rewrite Hev. unfold field_event. destruct cb1; [|done]. cbn [set_state quoted negb andb]. rewrite andb_false_r. cbn [andb].
    unfold field_len. cbn [set_state quoted entry_pos entry_buf]. do 3 f_equal.
    replace (Z.to_nat (entry_pos q - (spaces q + 1))) with (length f) by lia.
    apply (f_equal (take (length f))) in Htk. rewrite take_take, take_app_length in Htk.
    by rewrite Nat.min_l in Htk by lia.
  - pose proof (ck_room q Hok Hb). pose proof (ck_pos q Hok). cbn in Hlen.
    split; split; try done; [|by split; [done|right]| |by split; [done|left]].
    + apply (ok_at q); try done; cbn; lia.
    + apply (ok_at q b' ROW_NOT_BEGUN false 0 0); try done; cbn; lia.
Qed.

Lemma read_delim f p : in_field FIELD_MIGHT_HAVE_ENDED (f ++ [quote_char p0]) p -> Z.of_nat (length f) + 2 < SIZE_MAX ->
  exists p', runs cb1 cb2 p [delim_char p0] (field_event f) p' /\ at_start FIELD_NOT_BEGUN p'.
Proof.
  intros Hf Hmax. destruct (in_field_room _ _ _ Hf) as (q & Hr & Hq & _); [rewrite length_app; cbn; lia|].
  destruct (field_end f q Hq) as (p' & He & Hst & _). exists p'. split; [|done]. apply (runs_one _ _ _ _ q); [done|].
  destruct Hq as [_ _ Hconf (Hps & _) _ _]. destruct (conf_reader q Hconf) as (_ & _ & Hqd).
  unfold csv_step, step_might_have_ended. rewrite Hps, Hqd, decide_True by done. by rewrite He.
Qed.

Lemma read_lf f p : in_field FIELD_MIGHT_HAVE_ENDED (f ++ [quote_char p0]) p -> Z.of_nat (length f) + 2 < SIZE_MAX ->
  exists p', runs cb1 cb2 p [CSV_LF] (field_event f ++ row_event CSV_LF) p' /\ at_start ROW_NOT_BEGUN p'.
Proof.
  intros Hf Hmax. destruct (in_field_room _ _ _ Hf) as (q & Hr & Hq & _); [rewrite length_app; cbn; lia|].
  destruct (field_end f q Hq) as (p' & He & _ & Hst). eexists. split; [|exact Hst]. apply (runs_one _ _ _ _ q); [done|].
  destruct Hq as [_ _ Hconf (Hps & _) _ _]. destruct (conf_reader q Hconf) as (Hrq & _ & Hqd).
  unfold csv_step, step_might_have_ended. rewrite Hps, Hqd.
  rewrite decide_False by (intros Heq; apply (proj2 (rd_delim q Hrq)); congruence).
  assert (Ht : term q CSV_LF = true) by (unfold term; by rewrite (rd_term q Hrq)). rewrite Ht.
  unfold SUBMIT_FIELD_ROW. by rewrite He.
Qed.

(** ** Rows *)
Fixpoint row_text (fs : list bytes) : bytes :=
  match fs with
  | [] => []
  | [f] => enc_field (quote_char p0) f ++ [CSV_LF]
  | f :: fs => (enc_field (quote_char p0) f ++ [delim_char p0]) ++ row_text fs
  end.

Definition row_events (fs : list bytes) : list csv_event := mjoin (field_event <$> fs) ++ row_event CSV_LF.

Lemma read_row fs s p : at_start s p -> fs <> [] -> Forall (fun f => Z.of_nat (length f) + 2 < SIZE_MAX) fs ->
  exists p', runs cb1 cb2 p (row_text fs) (row_events fs) p' /\ at_start ROW_NOT_BEGUN p'.
Proof.
  intros Hs Hne Hf. revert s p Hs Hne. induction Hf as [|f fs Hf _ IH]; intros s p Hs Hne; [done|].
  destruct (read_field s f p Hs Hf) as (p1 & H1 & H2). destruct fs as [|f2 fs].
  - destruct (read_lf f p1 H2 Hf) as (p2 & H3 & H4). exists p2. split; [|done]. cbn [row_text].
    unfold row_events. cbn. rewrite app_nil_r. exact (runs_app _ _ _ _ _ _ _ _ _ H1 H3).
  - destruct (read_delim f p1 H2 Hf) as (p2 & H3 & H4). destruct (IH FIELD_NOT_BEGUN p2 H4 ltac:(done)) as (p3 & H5 & H6).
    exists p3. split; [|done]. change (row_text (f :: f2 :: fs)) with ((enc_field (quote_char p0) f ++ [delim_char p0]) ++ row_text (f2 :: fs)).
    assert (He : row_events (f :: f2 :: fs) = field_event f ++ row_events (f2 :: fs)).
    { unfold row_events. cbn [fmap list_fmap]. change (mjoin (field_event f :: ?x)) with (field_event f ++ mjoin x). by rewrite app_assoc. }
    rewrite He. exact (runs_app _ _ _ _ _ _ _ _ _ (runs_app _ _ _ _ _ _ _ _ _ H1 H3) H5).
Qed.

Lemma read_rows rows p : at_start ROW_NOT_BEGUN p -> Forall (fun fs => fs <> []) rows ->
  Forall (Forall (fun f => Z.of_nat (length f) + 2 < SIZE_MAX)) rows ->
  exists p', runs cb1 cb2 p (mjoin (row_text <$> rows)) (mjoin (row_events <$> rows)) p' /\ at_start ROW_NOT_BEGUN p'.
Proof.
  intros Hp Hne Hf. revert p Hp Hne. induction Hf as [|fs rows Hf _ IH]; intros p Hp Hne; [by exists p|].
  apply Forall_cons in Hne as [Hne Hrest]. destruct (read_row fs _ p Hp Hne Hf) as (p1 & H1 & H2).
  destruct (IH p1 H2 Hrest) as (p2 & H3 & H4). exists p2. split; [|done]. exact (runs_app _ _ _ _ _ _ _ _ _ H1 H3).
Qed.
End read.

(** ** Properties *)

(** A parser with the default functions, made with [csv_init], [csv_set_quote] and
    [csv_set_delim]. *)
Definition new_parser (malloc_ok : Z -> bool) (o quote delim : Z) : csv_parser :=
  csv_set_quote (csv_set_delim (csv_init malloc_ok o) delim) quote.

Lemma new_parser_ok malloc_ok o quote delim : csv_ok (new_parser malloc_ok o quote delim).
Proof. split; cbn; try done; unfold SIZE_MAX, MEM_BLK_SIZE; lia. Qed.

(** A field as [csv_write2] writes it, and the text of a row. *)
Definition written (quote : Z) (f : bytes) : bytes := (csv_write2 (2 * Z.of_nat (length f) + 2) (Some f) quote).2.

Fixpoint written_row (quote delim : Z) (fs : list bytes) : bytes :=
  match fs with
  | [] => []
  | [f] => written quote f ++ [CSV_LF]
  | f :: fs => (written quote f ++ [delim]) ++ written_row quote delim fs
  end.

Lemma escape_length quote f : (length (escape quote f) <= 2 * length f)%nat.
Proof.
  induction f as [|c f IH]; [done|]. rewrite escape_cons, length_app. cbn [length]. case_decide; cbn; lia.
Qed.

Lemma written_ok quote f : 2 * Z.of_nat (length f) + 3 < SIZE_MAX -> written quote f = enc_field quote f.
Proof.
  intros Hmax. pose proof (escape_length quote f). unfold written.
  assert (Hl : (length (enc_field quote f) <= 2 * length f + 2)%nat) by (unfold enc_field; cbn; rewrite length_app; cbn; lia).
  rewrite csv_write2_ok by lia. cbn [snd]. apply take_ge. lia.
Qed.

(** C24: What the parser reads is what was written: parsing rows of fields written with
    [csv_write2], separated by the delimiter and ended by a newline, hands over exactly
    those fields, whatever bytes they hold, and one row event per row, and leaves
    nothing for [csv_fini]. *)
Theorem csv_write_read o quote delim rows
    (Hquote : quote ∉ [CSV_SPACE; CSV_TAB; CSV_CR; CSV_LF]) (Hdelim : delim <> quote /\ delim <> CSV_LF)
    (Hrows : Forall (fun fs => fs <> []) rows)
    (Hlen : Forall (Forall (fun f => 2 * Z.of_nat (length f) + 3 < SIZE_MAX)) rows) :
  let text := mjoin (written_row quote delim <$> rows) in
  exists p' p'', csv_parse true true (new_parser (fun _ => true) o quote delim) text =
      Ok (p', mjoin ((fun fs => (EField ∘ Some <$> fs) ++ [ERow CSV_LF]) <$> rows), length text) /\
    csv_fini true true p' = Ok (0, p'', []).
Proof.
  set (p := new_parser (fun _ => true) o quote delim).
  assert (Hrd : reader p) by (by split).
  assert (Htext : mjoin (written_row quote delim <$> rows) = mjoin (row_text p <$> rows)).
  { f_equal. apply list_fmap_ext. intros i fs Hi. rewrite Forall_lookup in Hlen. specialize (Hlen i fs Hi).
    clear -Hlen. induction Hlen as [|f fs Hf Hfs IH]; [done|]. cbn [written_row row_text]. rewrite IH, (written_ok _ _ Hf).
    by destruct fs. }
  assert (Hevs : mjoin ((fun fs => (EField ∘ Some <$> fs) ++ [ERow CSV_LF]) <$> rows) = mjoin (row_events true true <$> rows)).
  { f_equal. apply list_fmap_ext. intros i fs _. unfold row_events. f_equal. induction fs as [|f fs IH]; [done|]. cbn. by f_equal. }
  assert (Hlen2 : Forall (Forall (fun f => Z.of_nat (length f) + 2 < SIZE_MAX)) rows).
  { eapply Forall_impl; [exact Hlen|]. intros fs Hfs. eapply Forall_impl; [exact Hfs|]. cbn. lia. }
  cbn zeta. rewrite Htext, Hevs. clear Htext Hevs Hlen.
  assert (Hfini : forall q, pstate q = ROW_NOT_BEGUN -> exists q', csv_fini true true q = Ok (0, q', [])).
  { intros q Hq. unfold csv_fini. rewrite Hq, bool_decide_eq_false_2 by done. cbn. eauto. }
  destruct rows as [|fs rows]; [destruct (Hfini p eq_refl) as [q' Hq']; exists p, q'; by split|].
  assert (Hne : mjoin (row_text p <$> fs :: rows) <> []).
  { apply Forall_cons in Hrows as [Hfs _]. destruct fs as [|f [|f2 fs]]; done. }
  destruct (increase_ok p (new_parser_ok _ _ _ _)) as [(q & Hq & Hg)|(z & Hf & _)]; [|by vm_compute in Hf].
  destruct (grew_ok p q (new_parser_ok _ _ _ _) Hg) as (Hqok & Hqb & _).
  assert (Hst : at_start p ROW_NOT_BEGUN q).
  { split; [done|done|apply Hg|]. split; [by rewrite (proj1 (gr_state _ _ Hg))|by left]. }
  destruct (read_rows true true p Hrd (fs :: rows) q Hst Hrows Hlen2) as (p' & Hrun & Hst').
  destruct Hst' as [_ _ _ [Hps _]]. destruct (Hfini p' Hps) as [p'' Hp'']. exists p', p''. split; [|done].
  unfold csv_parse. rewrite bool_decide_eq_true_2 by done. rewrite bool_decide_eq_true_2 by done. cbn [andb].
  rewrite Hq. cbn [mbind result_bind fst snd]. exact Hrun.
Qed.

Lemma csv_write_read_witness :
  exists p' p'', csv_parse true true (new_parser (fun _ => true) 0 CSV_QUOTE CSV_COMMA)
      (mjoin (written_row CSV_QUOTE CSV_COMMA <$> [[str "a,b"; [34]]; [[]]])) =
      Ok (p', [EField (Some (str "a,b")); EField (Some [34]); ERow 10; EField (Some []); ERow 10],
          length (mjoin (written_row CSV_QUOTE CSV_COMMA <$> [[str "a,b"; [34]]; [[]]]))) /\
    csv_fini true true p' = Ok (0, p'', []).
Proof.
  apply (csv_write_read 0 CSV_QUOTE CSV_COMMA [[str "a,b"; [34]]; [[]]]).
  - apply (bool_decide_eq_true_1 _). by vm_compute.
  - done.
  - by repeat constructor.
  - repeat constructor.
Defined.

(** C25: The parser never stores or reads outside its buffer, whatever it is given, in
    however many calls, with whatever options and whatever memory it gets; when it stops
    before the end its status says why, and [csv_fini] leaves it ready for new input. *)
Theorem csv_parse_safe cb1 cb2 p s (Hok : csv_ok p) :
  exists p' evs n, csv_parse cb1 cb2 p s = Ok (p', evs, n) /\ csv_ok p' /\
    (n <= length s)%nat /\ ((n < length s)%nat -> csv_error p' <> 0) /\
    exists z p'' evs', csv_fini cb1 cb2 p' = Ok (z, p'', evs') /\ csv_ok p'' /\
      (z = 0 -> pstate p'' = ROW_NOT_BEGUN /\ csv_error p'' = 0).
Proof.
  destruct (csv_parse_good cb1 cb2 p s Hok) as (p' & evs & n & H1 & H2 & _ & H3 & H4 & _).
  exists p', evs, n. do 4 (split; [done|]). by apply csv_fini_good.
Qed.

Lemma csv_parse_safe_witness :
  exists p' evs n, csv_parse true true (csv_init (fun n => n <? 100) CSV_APPEND_NULL) [97; 34; 98] = Ok (p', evs, n) /\ csv_ok p'.
Proof.
  destruct (csv_parse_safe true true (csv_init (fun n => n <? 100) CSV_APPEND_NULL) [97; 34; 98]) as (p' & evs & n & H1 & H2 & _).
  - apply (new_parser_ok (fun n => n <? 100) CSV_APPEND_NULL CSV_QUOTE CSV_COMMA).
  - exists p', evs, n. split; [exact H1|exact H2].
Defined.

(** C35: Parsing a text in two pieces gives the same events and leaves the same parser as
    parsing it at once. *)
Theorem csv_parse_pieces cb1 cb2 p s1 s2 p1 e1
    (Hok : csv_ok p) (H1 : csv_parse cb1 cb2 p s1 = Ok (p1, e1, length s1)) :
  csv_parse cb1 cb2 p (s1 ++ s2) =
    (r ← csv_parse cb1 cb2 p1 s2; Ok (r.1.1, e1 ++ r.1.2, (length s1 + r.2)%nat)).
Proof.
  destruct s1 as [|c s1].
  { assert (p1 = p /\ e1 = []) as [-> ->].
    { unfold csv_parse in H1. rewrite (bool_decide_eq_false_2 ([] <> [])) in H1 by (intros H; by apply H). rewrite andb_false_r in H1.
      cbn in H1. by injection H1 as <- <-. }
    cbn [app length]. by destruct (csv_parse cb1 cb2 p s2) as [[[]]|]. }
  revert H1. unfold csv_parse at 1 2. rewrite !(bool_decide_eq_true_2 (_ :: _ <> [])) by done. rewrite !andb_true_r.
  destruct (if bool_decide (entry_buf p = None) then csv_increase_buffer p else Ok (true, p)) as [[ok q]|] eqn:Hinc; [|done].
  cbn [mbind result_bind fst snd]. destruct ok; [|done]. intros H1. cbn [app].
  pose proof (csv_loop_app cb1 cb2 q (c :: s1) s2 p1 e1 H1) as Happ. cbn [app] in Happ. rewrite Happ.
  assert (Hq : csv_ok q /\ entry_buf q <> None).
  { case_bool_decide as Hb; [|injection Hinc as <-; done].
    destruct (increase_ok p Hok) as [(q' & Hq' & Hg)|(z & Hf & _)]; [|congruence].
    rewrite Hq' in Hinc. injection Hinc as <-. by destruct (grew_ok p q' Hok Hg) as (? & ? & _). }
  destruct (csv_loop_good cb1 cb2 q (c :: s1) (proj1 Hq) (proj2 Hq)) as (p2 & e2 & n & Hl & _ & _ & _ & _ & Hb).
  rewrite H1 in Hl. injection Hl as <- <- <-. specialize (Hb (proj2 Hq)).
  unfold csv_parse. rewrite (bool_decide_eq_false_2 (entry_buf p1 = None)) by done. done.
Qed.

Lemma csv_parse_pieces_witness :
  exists p1, csv_parse true true (csv_init (fun _ => true) 0) (str "a,b" ++ str "c,") =
    (r ← csv_parse true true p1 (str "c,"); Ok (r.1.1, [EField (Some (str "a"))] ++ r.1.2, (3 + r.2)%nat)).
Proof.
  eexists. apply (csv_parse_pieces true true (csv_init (fun _ => true) 0) (str "a,b") (str "c,")).
  - apply (new_parser_ok (fun _ => true) 0 CSV_QUOTE CSV_COMMA).
  - vm_compute. reflexivity.
Defined.

(** [csv_write2] returns the size the whole field needs, whatever room there is, and
    stores as much of the field as fits; [csv_fwrite2] writes the same bytes or answers
    EOF. *)
Theorem csv_write_count n f quote file
    (Hn : 0 <= n) (Hmax : Z.of_nat (length (enc_field quote f)) < SIZE_MAX) :
  csv_write2 n (Some f) quote = (Z.of_nat (length (enc_field quote f)), take (Z.to_nat n) (enc_field quote f)) /\
  csv_fwrite2 file (Some f) quote =
    if decide (length (enc_field quote f) <= f_room file)%nat
    then Some (File (f_data file ++ enc_field quote f) (f_room file - length (enc_field quote f))) else None.
Proof.
  split; [by apply csv_write2_ok|]. unfold csv_fwrite2, enc_field. rewrite fputc_ok. cbn [length].
  destruct (decide (f_room file = 0%nat)) as [H0|H0]; cbn [mbind option_bind]; [by rewrite decide_False by lia|].
  rewrite fwrite_loop_ok. cbn [f_room f_data]. repeat case_decide; try lia; [|done].
  rewrite <- app_assoc. do 2 f_equal. lia.
Qed.

Lemma csv_write_count_witness : csv_write2 3 (Some [97; 34]) CSV_QUOTE = (5, [34; 97; 34]).
Proof. apply (csv_write_count 3 [97; 34] CSV_QUOTE (File [] 0)); [lia|by vm_compute]. Defined.

(** Changing the options between two calls can make the room test miss its limit: a full
    buffer without [CSV_APPEND_NULL] is past the limit with it. *)
Example csv_set_opts_overflow :
  (r ← csv_parse true true (csv_set_blk_size (csv_init (fun _ => true) 0) 2) (str "ab");
   match (csv_set_opts (Some r.1.1) CSV_APPEND_NULL).2 with
   | Some p => csv_parse true true p (str "c")
   | None => Ok r
   end) = Fault OutOfBounds.
Proof. by vm_compute. Qed.
