(* ===== verification/Hattrie.v ===== *)
(** * The HAT-trie: operations

    src/lib/hat-trie/src/hat-trie.c over a store of nodes.  A child pointer is an
    address of the store, so a bucket that serves a range of characters is one node
    with several pointers to it, as in the code.  A key is a pointer to bytes and a
    length: the buffer may go on after the key, and reading past the buffer is a
    fault. *)
From S2P Require Import Prelude NodeHeap CLib Bytes Murmur Ahtable.

#[local] Open Scope Z_scope.

Definition MAX_BUCKET_SIZE : Z := 16384.
Definition NODE_MAXCHAR : nat := 255.
Definition NODE_CHILDS : nat := S NODE_MAXCHAR.

Definition NODE_TYPE_TRIE : Z := 1.
Definition NODE_TYPE_PURE_BUCKET : Z := 2.
Definition NODE_TYPE_HYBRID_BUCKET : Z := 4.
Definition NODE_HAS_VAL : Z := 8.

(** A [trie_node_t] or an [ahtable_t]; the first byte of either is its flag. *)
Inductive hnode :=
  | NTrie (flag val : Z) (xs : list loc)
  | NBucket (b : ahtable).

Record hattrie := HT { ht_nodes : gmap loc hnode; ht_root : loc; ht_m : Z }.

Definition hattrie_size (T : hattrie) : Z := ht_m T.

(** [flag & bit] *)
Definition has (flag bit : Z) : bool := negb (Z.land flag bit =? 0).

Definition node_load (l : loc) : st hattrie hnode :=
  fun T => match ht_nodes T !! l with Some n => Ok (n, T) | None => Fault UseAfterFree end.

Definition node_store (l : loc) (n : hnode) : st hattrie unit :=
  fun T => match ht_nodes T !! l with
           | Some _ => Ok (tt, HT (<[l := n]> (ht_nodes T)) (ht_root T) (ht_m T))
           | None => Fault UseAfterFree
           end.

(** [malloc]: an address no node has. *)
Definition node_alloc (n : hnode) : st hattrie loc :=
  fun T => let l := fresh (dom (ht_nodes T)) in
           Ok (l, HT (<[l := n]> (ht_nodes T)) (ht_root T) (ht_m T)).

Definition node_free (l : loc) : st hattrie unit :=
  fun T => match ht_nodes T !! l with
           | Some _ => Ok (tt, HT (delete l (ht_nodes T)) (ht_root T) (ht_m T))
           | None => Fault UseAfterFree
           end.

(** [m] is a [size_t]. *)
Definition add_m (d : Z) : st hattrie unit :=
  modifyS (fun T => HT (ht_nodes T) (ht_root T) (u64 (ht_m T + d))).

Definition flag_of (n : hnode) : Z := match n with NTrie f _ _ => f | NBucket b => ah_flag b end.
Definition node_flag (l : loc) : st hattrie Z := n ← node_load l; mret (flag_of n).

(** Access through the wrong member of the union is a fault. *)
Definition trie_load (l : loc) : st hattrie (Z * Z * list loc) :=
  n ← node_load l; match n with NTrie f v xs => mret (f, v, xs) | NBucket _ => raiseS OutOfBounds end.
Definition bucket_load (l : loc) : st hattrie ahtable :=
  n ← node_load l; match n with NBucket b => mret b | NTrie _ _ _ => raiseS OutOfBounds end.

Definition set_kind (b : ahtable) (flag c0 c1 : Z) : ahtable :=
  AHTable flag c0 c1 (ah_m b) (ah_max_m b) (ah_slots b).

Definition child (l : loc) (c : Z) : st hattrie loc :=
  t ← trie_load l; liftS (from_option_fault OutOfBounds (t.2 !! Z.to_nat c)).

Definition set_children (l : loc) (f : list loc -> list loc) : st hattrie unit :=
  t ← trie_load l; node_store l (NTrie t.1.1 t.1.2 (f t.2)).

(** [p->xs[c0 .. c1] = x] *)
Definition set_range (c0 c1 : nat) (x : loc) (xs : list loc) : list loc :=
  imap (fun i y => if decide (c0 <= i <= c1)%nat then x else y) xs.

Definition alloc_trie_node (x : loc) : st hattrie loc :=
  node_alloc (NTrie NODE_TYPE_TRIE 0 (replicate NODE_CHILDS x)).

(** A key: the bytes from the pointer on. *)
Definition key_byte (key : bytes) (k : nat) : st hattrie Z := liftS (byte_at key k).

Definition key_sub (key : bytes) (k l : nat) : st hattrie bytes := liftS (buf_read key k l).

(** ** Walking down *)

(** -> (parent, key position, remaining length, node) *)
Fixpoint consume_loop (fuel : nat) (p node : loc) (key : bytes) (k l brk : nat)
  : st hattrie (loc * nat * nat * loc) :=
  match fuel with
  | O => raiseS NoFuel
  | S fuel =>
      f ← node_flag node;
      if has f NODE_TYPE_TRIE && bool_decide (brk < l)%nat then
        c ← key_byte key (S k);
        node' ← child node c;
        consume_loop fuel node node' key (S k) (l - 1) brk
      else mret (p, k, l, node)
  end.

Definition hattrie_consume (p : loc) (key : bytes) (k l brk : nat) : st hattrie (loc * nat * nat * loc) :=
  c ← key_byte key k;
  node ← child p c;
  r ← consume_loop (S l) p node key k l brk;
  f ← node_flag r.1.1.1;
  _ ← liftS (guard_fault AssertFailed (has f NODE_TYPE_TRIE));
  mret r.

(** A [value_t *]: the value of a trie node or of an entry of a bucket. *)
Inductive vptr := VNode (l : loc) | VEntry (l : loc) (p : nat * nat).

Definition hattrie_useval (n : loc) : st hattrie vptr :=
  t ← trie_load n;
  _ ← (if has t.1.1 NODE_HAS_VAL then mret tt
       else (_ ← node_store n (NTrie (Z.lor t.1.1 NODE_HAS_VAL) t.1.2 t.2); add_m 1));
  mret (VNode n).

Definition hattrie_clrval (n : loc) : st hattrie Z :=
  t ← trie_load n;
  if has t.1.1 NODE_HAS_VAL
  then (_ ← node_store n (NTrie (Z.ldiff t.1.1 NODE_HAS_VAL) 0 t.2); _ ← add_m (-1); mret 0)
  else mret (-1).

(** The node for a key and what is left of the key; no node when a trie node has no
    value. *)
Definition hattrie_find (key : bytes) (len : nat) : st hattrie (option loc * nat * nat) :=
  parent ← getsS ht_root;
  f ← node_flag parent;
  _ ← liftS (guard_fault AssertFailed (has f NODE_TYPE_TRIE));
  if decide (len = 0%nat) then mret (Some parent, 0%nat, 0%nat)
  else
    r ← hattrie_consume parent key 0 len 1;
    let '(_, k, l, node) := r in
    f ← node_flag node;
    if has f NODE_TYPE_TRIE then mret (if has f NODE_HAS_VAL then Some node else None, k, l)
    else if has f NODE_TYPE_PURE_BUCKET then mret (Some node, S k, (l - 1)%nat)
    else mret (Some node, k, l).

(** ** Creation *)
Definition new_root : st hattrie unit :=
  b ← node_alloc (NBucket (set_kind ahtable_create NODE_TYPE_HYBRID_BUCKET 0 (Z.of_nat NODE_MAXCHAR)));
  r ← alloc_trie_node b;
  modifyS (fun T => HT (ht_nodes T) r (ht_m T)).

Definition hattrie_create : result hattrie :=
  r ← new_root (HT ∅ 1%positive 0); Ok r.2.

(** The children of a trie node, a shared bucket once. *)
Fixpoint distinct_runs (prev : option loc) (xs : list loc) : list loc :=
  match xs with
  | [] => []
  | x :: xs => if decide (prev = Some x) then distinct_runs (Some x) xs else x :: distinct_runs (Some x) xs
  end.

Definition iterS {S A} (f : A -> st S unit) : list A -> st S unit :=
  fix go l := match l with [] => mret tt | a :: l => _ ← f a; go l end.

Fixpoint hattrie_free_node (fuel : nat) (node : loc) : st hattrie unit :=
  match fuel with
  | O => raiseS NoFuel
  | S fuel =>
      f ← node_flag node;
      if has f NODE_TYPE_TRIE then
        t ← trie_load node;
        _ ← iterS (hattrie_free_node fuel) (distinct_runs None t.2);
        node_free node
      else (_ ← bucket_load node; node_free node)
  end.

(** The trie is as deep as it has nodes, at most. *)
Definition node_fuel : st hattrie nat := getsS (fun T => S (size (ht_nodes T))).

Definition hattrie_free : st hattrie unit :=
  fuel ← node_fuel; root ← getsS ht_root; hattrie_free_node fuel root.

Definition hattrie_clear : st hattrie unit := _ ← hattrie_free; new_root.

Fixpoint node_sizeof (fuel : nat) (node : loc) : st hattrie Z :=
  match fuel with
  | O => raiseS NoFuel
  | S fuel =>
      f ← node_flag node;
      if has f NODE_TYPE_TRIE then
        t ← trie_load node;
        (fix go (l : list loc) (acc : Z) : st hattrie Z :=
           match l with [] => mret acc | x :: l => z ← node_sizeof fuel x; go l (acc + z) end)
          (distinct_runs None t.2) 2064
      else (b ← bucket_load node; mret (ahtable_sizeof b))
  end.

Definition hattrie_sizeof : st hattrie Z :=
  fuel ← node_fuel; root ← getsS ht_root; z ← node_sizeof fuel root; mret (16 + z).

(** ** Splitting a full bucket *)

(** [assert(len > 0); cs[(unsigned char) key[0]] += 1;] *)
Definition count_head (cs : list Z) (key : bytes) (_ : nat * nat) : result (list Z) :=
  _ ← guard_fault AssertFailed (bool_decide (0 < length key)%nat);
  c ← byte_at key 0;
  n ← from_option_fault OutOfBounds (cs !! Z.to_nat c);
  Ok (<[Z.to_nat c := u32 (n + 1)]> cs).

(** The loop that moves the split point [j]; [left_m] and [right_m] are unsigned and
    compared as ints. *)
Fixpoint split_point (fuel : nat) (cs : list Z) (c1 all_m j left_m right_m : Z) : result (Z * Z * Z) :=
  match fuel with
  | O => Fault NoFuel
  | S fuel =>
      if decide (j + 1 < c1) then
        x ← from_option_fault OutOfBounds (cs !! Z.to_nat (j + 1));
        let d := Z.abs (i32 (u32 (left_m + x)) - i32 (u32 (right_m - x))) in
        if decide (d <= i32 (u32 (left_m - right_m)) /\ u32 (left_m + x) < all_m)
        then split_point fuel cs c1 all_m (j + 1) (u32 (left_m + x)) (u32 (right_m - x))
        else Ok (j, left_m, right_m)
      else Ok (j, left_m, right_m)
  end.

(** The slots of a table for [m] keys: doubled while the load is too high. *)
Fixpoint num_slots (fuel : nat) (m n : Z) : result Z :=
  match fuel with
  | O => Fault NoFuel
  | S fuel => if decide (ahtable_max_load_factor * n < m) then num_slots fuel m (n * 2) else Ok n
  end.

(** A bucket that is pure holds the keys without their first character. *)
Definition bucket_get (b : ahtable) (key : bytes) : result (option (nat * nat) * ahtable) :=
  if has (ah_flag b) NODE_TYPE_PURE_BUCKET then ahtable_get b (drop 1 key) else ahtable_get b key.

Definition put_key (b : ahtable) (key : bytes) (u : nat * nat) (node : ahtable) : result ahtable :=
  r ← bucket_get b key;
  v ← from_option_fault NullDeref r.1;
  x ← val_load node u;
  val_store r.2 v x.

(** [assert(len > 0)], then the key goes left or right. *)
Definition move_key (node : ahtable) (j : Z) (lr : ahtable * ahtable) (key : bytes) (u : nat * nat)
  : result (ahtable * ahtable) :=
  _ ← guard_fault AssertFailed (bool_decide (0 < length key)%nat);
  c ← byte_at key 0;
  if decide (c <= j)
  then (b ← put_key lr.1 key u node; Ok (b, lr.2))
  else (b ← put_key lr.2 key u node; Ok (lr.1, b)).

Definition bucket_kind (c0 c1 : Z) : Z :=
  if decide (c0 = c1) then NODE_TYPE_PURE_BUCKET else NODE_TYPE_HYBRID_BUCKET.

Definition split_half (m c0 c1 : Z) : result ahtable :=
  n ← num_slots 8 m (Z.of_nat ahtable_initial_size);
  Ok (set_kind (ahtable_create_n (Z.to_nat n)) (bucket_kind c0 c1) c0 c1).

(** Where the bucket is cut, and how many keys go to either side. *)
Definition choose_split (b : ahtable) : result (Z * Z * Z) :=
  cs ← iter_fold (iter_fuel b) b (ahtable_unsorted_iter_begin b) count_head (replicate NODE_CHILDS 0) 0;
  let j := ah_c0 b in
  let all_m := u32 (ahtable_size b) in
  left_m ← from_option_fault OutOfBounds (cs.1 !! Z.to_nat j);
  split_point (S NODE_CHILDS) cs.1 (ah_c1 b) all_m j left_m (u32 (all_m - left_m)).

Definition split_hybrid (parent node : loc) : st hattrie unit :=
  b ← bucket_load node;
  r ← liftS (choose_split b);
  let '(j, left_m, right_m) := r in
  left ← liftS (split_half left_m (ah_c0 b) j);
  right ← liftS (split_half right_m (j + 1) (ah_c1 b));
  ll ← node_alloc (NBucket left);
  rl ← node_alloc (NBucket right);
  _ ← set_children parent (fun xs =>
        set_range (Z.to_nat (j + 1)) (Z.to_nat (ah_c1 b)) rl (set_range (Z.to_nat (ah_c0 b)) (Z.to_nat j) ll xs));
  lr ← liftS (iter_fold (iter_fuel b) b (ahtable_unsorted_iter_begin b) (move_key b j) (left, right) 0);
  _ ← node_store ll (NBucket lr.1.1);
  _ ← node_store rl (NBucket lr.1.2);
  node_free node.

(** A pure bucket becomes a hybrid bucket below a new trie node, which takes the value
    of the empty key. *)
Definition split_pure (parent node : loc) : st hattrie unit :=
  b ← bucket_load node;
  t ← alloc_trie_node node;
  _ ← set_children parent (<[Z.to_nat (ah_c0 b) := t]>);
  val ← liftS (ahtable_tryget b []);
  b ← match val with
      | Some p =>
          v ← liftS (val_load b p);
          n ← trie_load t;
          _ ← node_store t (NTrie (Z.lor n.1.1 NODE_HAS_VAL) v n.2);
          b ← liftS (val_store b p 0);
          r ← liftS (ahtable_del b []);
          mret r.2
      | None => mret b
      end;
  node_store node (NBucket (set_kind b NODE_TYPE_HYBRID_BUCKET 0 (Z.of_nat NODE_MAXCHAR))).

Definition hattrie_split (parent node : loc) : st hattrie unit :=
  f ← node_flag node;
  _ ← liftS (guard_fault AssertFailed (has f NODE_TYPE_PURE_BUCKET || has f NODE_TYPE_HYBRID_BUCKET));
  pf ← node_flag parent;
  _ ← liftS (guard_fault AssertFailed (has pf NODE_TYPE_TRIE));
  if has f NODE_TYPE_PURE_BUCKET then split_pure parent node else split_hybrid parent node.

(** ** Lookup, insertion, removal *)

(** The value when the key was consumed on a trie node. *)
Definition use_consumed (parent node : loc) (l : nat) : st hattrie (option vptr) :=
  if decide (l = 0%nat) then
    f ← node_flag node;
    if has f NODE_TYPE_TRIE then (v ← hattrie_useval node; mret (Some v))
    else if has f NODE_TYPE_HYBRID_BUCKET then (v ← hattrie_useval parent; mret (Some v))
    else mret None
  else mret None.

(** [while (ahtable_size(node.b) >= MAX_BUCKET_SIZE)]: an early return or the bucket
    and the key in it. *)
Fixpoint split_loop (fuel : nat) (key : bytes) (parent : loc) (k l : nat) (node : loc)
  : st hattrie (vptr + nat * nat * loc) :=
  match fuel with
  | O => raiseS NoFuel
  | S fuel =>
      b ← bucket_load node;
      if decide (MAX_BUCKET_SIZE <= ahtable_size b) then
        _ ← hattrie_split parent node;
        r ← hattrie_consume parent key k l 0;
        let '(parent, k, l, node) := r in
        e ← use_consumed parent node l;
        match e with
        | Some v => mret (inl v)
        | None => split_loop fuel key parent k l node
        end
      else mret (inr (k, l, node))
  end.

(** Every turn shortens the rest of the key or the range of a bucket. *)
Definition split_fuel (len : nat) : nat := (257 * S len)%nat.

Definition hattrie_get (key : bytes) (len : nat) : st hattrie vptr :=
  parent ← getsS ht_root;
  pf ← node_flag parent;
  _ ← liftS (guard_fault AssertFailed (has pf NODE_TYPE_TRIE));
  if decide (len = 0%nat) then
    t ← trie_load parent;
    _ ← node_store parent (NTrie (Z.lor t.1.1 NODE_HAS_VAL) t.1.2 t.2);
    mret (VNode parent)
  else
    r ← hattrie_consume parent key 0 len 0;
    let '(parent, k, l, node) := r in
    e ← use_consumed parent node l;
    match e with
    | Some v => mret v
    | None =>
        r ← split_loop (split_fuel len) key parent k l node;
        match r with
        | inl v => mret v
        | inr (k, l, node) =>
            f ← node_flag node;
            _ ← liftS (guard_fault AssertFailed (has f NODE_TYPE_PURE_BUCKET || has f NODE_TYPE_HYBRID_BUCKET));
            _ ← liftS (guard_fault AssertFailed (bool_decide (0 < l)%nat));
            b ← bucket_load node;
            x ← key_sub key k l;
            r ← liftS (bucket_get b x);
            p ← liftS (from_option_fault NullDeref r.1);
            _ ← node_store node (NBucket r.2);
            _ ← add_m (ah_m r.2 - ah_m b);
            mret (VEntry node p)
        end
    end.

Definition hattrie_tryget (key : bytes) (len : nat) : st hattrie (option vptr) :=
  r ← hattrie_find key len;
  let '(node, k, l) := r in
  match node with
  | None => mret None
  | Some node =>
      f ← node_flag node;
      if has f NODE_TYPE_TRIE then mret (Some (VNode node))
      else
        b ← bucket_load node;
        x ← key_sub key k l;
        p ← liftS (ahtable_tryget b x);
        mret (VEntry node <$> p)
  end.

Definition hattrie_del (key : bytes) (len : nat) : st hattrie Z :=
  parent ← getsS ht_root;
  pf ← node_flag parent;
  _ ← liftS (guard_fault AssertFailed (has pf NODE_TYPE_TRIE));
  r ← hattrie_find key len;
  let '(node, k, l) := r in
  match node with
  | None => mret (-1)
  | Some node =>
      f ← node_flag node;
      if has f NODE_TYPE_TRIE then hattrie_clrval node
      else
        b ← bucket_load node;
        x ← key_sub key k l;
        r ← liftS (ahtable_del b x);
        _ ← node_store node (NBucket r.2);
        _ ← add_m (- (ah_m b - ah_m r.2));
        mret r.1
  end.

(** [*v] and [*v = x] *)
Definition hat_load (v : vptr) : st hattrie Z :=
  match v with
  | VNode l => t ← trie_load l; mret t.1.2
  | VEntry l p => b ← bucket_load l; liftS (val_load b p)
  end.

Definition hat_store (v : vptr) (x : Z) : st hattrie unit :=
  match v with
  | VNode l => t ← trie_load l; node_store l (NTrie t.1.1 x t.2)
  | VEntry l p => b ← bucket_load l; b ← liftS (val_store b p x); node_store l (NBucket b)
  end.
