(* ===== verification/HattrieIter.v ===== *)
(** * The HAT-trie: iteration

    The iterator of src/lib/hat-trie/src/hat-trie.c. *)
From S2P Require Import Prelude NodeHeap CLib Bytes Murmur Ahtable Hattrie.

#[local] Open Scope Z_scope.

(** An iterator reads the trie it was made for, which is an argument of its
    operations.  The stack holds a character, the length of the path and a node; the
    key buffer is as long as [keysize].  A level is a [size_t]. *)
Record hattrie_iter := HIter {
  hi_key : bytes; hi_level : Z; hi_prefix : bytes;
  hi_nil : bool; hi_nil_val : Z; hi_sorted : bool;
  hi_i : option (loc * ahtable_iter); hi_stack : list (Z * Z * option loc)
}.

Definition with_key (i : hattrie_iter) (key : bytes) (level : Z) : hattrie_iter :=
  HIter key level (hi_prefix i) (hi_nil i) (hi_nil_val i) (hi_sorted i) (hi_i i) (hi_stack i).
Definition with_nil (i : hattrie_iter) (nil : bool) (v : Z) : hattrie_iter :=
  HIter (hi_key i) (hi_level i) (hi_prefix i) nil v (hi_sorted i) (hi_i i) (hi_stack i).
Definition with_i (i : hattrie_iter) (x : option (loc * ahtable_iter)) : hattrie_iter :=
  HIter (hi_key i) (hi_level i) (hi_prefix i) (hi_nil i) (hi_nil_val i) (hi_sorted i) x (hi_stack i).
Definition with_stack (i : hattrie_iter) (st : list (Z * Z * option loc)) : hattrie_iter :=
  HIter (hi_key i) (hi_level i) (hi_prefix i) (hi_nil i) (hi_nil_val i) (hi_sorted i) (hi_i i) st.

Definition node_at (T : hattrie) (l : option loc) : result hnode :=
  l ← from_option_fault NullDeref l; from_option_fault UseAfterFree (ht_nodes T !! l).
Definition table_at (T : hattrie) (l : loc) : result ahtable :=
  n ← node_at T (Some l); match n with NBucket b => Ok b | NTrie _ _ _ => Fault OutOfBounds end.

(** A store or a read of the key buffer at a [size_t] offset. *)
Definition key_write (key : bytes) (off : Z) (src : bytes) : result bytes :=
  if decide (off + Z.of_nat (length src) <= Z.of_nat (length key))
  then buf_write key (Z.to_nat off) src else Fault OutOfBounds.

Definition hattrie_iter_pushchar (i : hattrie_iter) (level c : Z) : result hattrie_iter :=
  let key := if decide (Z.of_nat (length (hi_key i)) < level)
             then realloc (hi_key i) (2 * length (hi_key i)) else hi_key i in
  key ← (if decide (0 < level) then key_write key (level - 1) [c] else Ok key);
  Ok (with_key i key level).

(** The children from the last to the first, a shared bucket once, at its last
    character; [next] is the child after. *)
Fixpoint push_children (level : Z) (rev_xs : list (Z * loc)) (next : option loc)
    (stack : list (Z * Z * option loc)) : list (Z * Z * option loc) :=
  match rev_xs with
  | [] => stack
  | (j, x) :: rev_xs =>
      push_children level rev_xs (Some x)
        (if decide (next = Some x) then stack else (j, level + 1, Some x) :: stack)
  end.

Definition rev_children (xs : list loc) : list (Z * loc) :=
  reverse (imap (fun j x => (Z.of_nat j, x)) xs).

Definition hattrie_iter_nextnode (T : hattrie) (i : hattrie_iter) : result hattrie_iter :=
  match hi_stack i with
  | [] => Ok i
  | (c, level, node) :: next =>
      let i := with_stack i next in
      n ← node_at T node;
      if has (flag_of n) NODE_TYPE_TRIE then
        match n with
        | NTrie f v xs =>
            i ← hattrie_iter_pushchar i level c;
            let i := if has f NODE_HAS_VAL then with_nil i true v else i in
            Ok (with_stack i (push_children level (rev_children xs) None (hi_stack i)))
        | NBucket _ => Fault OutOfBounds
        end
      else
        i ← (if has (flag_of n) NODE_TYPE_PURE_BUCKET then hattrie_iter_pushchar i level c
             else Ok (with_key i (hi_key i) (u64 (level - 1))));
        l ← from_option_fault NullDeref node;
        b ← table_at T l;
        x ← ahtable_iter_begin b (hi_sorted i);
        Ok (with_i i (Some (l, x)))
  end.

Definition hattrie_iter_finished (i : hattrie_iter) : bool :=
  bool_decide (hi_stack i = []) && (match hi_i i with None => true | Some _ => false end) && negb (hi_nil i).

(** [memcmp(a, b, n) == 0] *)
Definition same_bytes (a b : bytes) (n : nat) : result bool :=
  x ← buf_read a 0 n; y ← buf_read b 0 n; Ok (bool_decide (memcmp x y = 0)).

Definition hattrie_iter_prefix_satisfied (T : hattrie) (i : hattrie_iter) : result bool :=
  let size := length (hi_prefix i) in
  _ ← guard_fault AssertFailed (bool_decide (0 < size)%nat);
  if decide (Z.of_nat size <= hi_level i) then same_bytes (hi_key i) (hi_prefix i) size
  else if hi_nil i then Ok false
  else
    let level := Z.to_nat (hi_level i) in
    same ← same_bytes (hi_key i) (hi_prefix i) level;
    if negb same then Ok false
    else
      li ← from_option_fault NullDeref (hi_i i);
      b ← table_at T li.1;
      key ← ahtable_iter_key b li.2;
      key ← from_option_fault NullDeref key;
      if decide (level + length key < size)%nat then Ok false
      else same_bytes key (drop level (hi_prefix i)) (size - level).

Definition hattrie_iter_satisfied (T : hattrie) (i : hattrie_iter) : result bool :=
  if hattrie_iter_finished i || bool_decide (hi_prefix i = []) then Ok true
  else hattrie_iter_prefix_satisfied T i.

Definition hattrie_ahtable_iter_finished (T : hattrie) (x : option (loc * ahtable_iter)) : result bool :=
  match x with
  | None => Ok true
  | Some (l, x) => b ← table_at T l; Ok (ahtable_iter_finished b x)
  end.

Fixpoint continue_loop (fuel : nat) (T : hattrie) (i : hattrie_iter) : result hattrie_iter :=
  match fuel with
  | O => Fault NoFuel
  | S fuel =>
      fin ← hattrie_ahtable_iter_finished T (hi_i i);
      if fin && negb (hi_nil i) && negb (bool_decide (hi_stack i = []))
      then (i ← hattrie_iter_nextnode T (with_i i None); continue_loop fuel T i)
      else Ok i
  end.

(** Every node is popped at most once, and a trie node pushes at most 256. *)
Definition pops (T : hattrie) : nat := (2 + 256 * size (ht_nodes T))%nat.

Definition hattrie_iter_continue (T : hattrie) (i : hattrie_iter) : result hattrie_iter :=
  i ← continue_loop (pops T) T i;
  fin ← hattrie_ahtable_iter_finished T (hi_i i);
  Ok (if (fin : bool) then with_i i None else i).

(** One turn of [hattrie_iter_next]. *)
Definition iter_step (T : hattrie) (i : hattrie_iter) : result hattrie_iter :=
  fin ← hattrie_ahtable_iter_finished T (hi_i i);
  i ← match hi_i i with
      | Some (l, x) =>
          if (fin : bool) then (if hi_nil i then hattrie_iter_nextnode T (with_nil i false 0) else Ok i)
          else (b ← table_at T l; x ← ahtable_iter_next b x; Ok (with_i i (Some (l, x))))
      | None => if hi_nil i then hattrie_iter_nextnode T (with_nil i false 0) else Ok i
      end;
  hattrie_iter_continue T i.

Fixpoint next_loop (fuel : nat) (T : hattrie) (i : hattrie_iter) : result hattrie_iter :=
  match fuel with
  | O => Fault NoFuel
  | S fuel =>
      if hattrie_iter_finished i then Ok i
      else
        i ← iter_step T i;
        sat ← hattrie_iter_satisfied T i;
        if (sat : bool) then Ok i else next_loop fuel T i
  end.

(** A turn visits an entry or a node. *)
Definition turns (T : hattrie) : nat :=
  S (map_fold (fun _ n a => (a + match n with NTrie _ _ _ => 1 | NBucket b => Z.to_nat (ah_m b) end)%nat) 0%nat (ht_nodes T)).

Definition hattrie_iter_next (T : hattrie) (i : hattrie_iter) : result hattrie_iter := next_loop (turns T) T i.

Definition hattrie_iter_begin_with_prefix (T : hattrie) (sorted : bool) (prefix : bytes) (prefixsize : nat)
  : result hattrie_iter :=
  let key := replicate (if decide (8 < prefixsize)%nat then prefixsize * 2 else 16)%nat 0 in
  sp ← (if decide (0 < prefixsize)%nat then
          r ← hattrie_find prefix prefixsize T;
          let '(start, k, l) := r.1 in
          if decide (0 < l)%nat then
            p ← buf_read prefix k l;
            Ok (if decide (l = prefixsize) then Some (ht_root T) else start, p)
          else Ok (start, [])
        else Ok (Some (ht_root T), []));
  i ← hattrie_iter_continue T (HIter key 0 sp.2 false 0 sorted None [(0, 0, sp.1)]);
  if bool_decide (sp.2 <> []) then
    sat ← hattrie_iter_prefix_satisfied T i;
    if (sat : bool) then Ok i else hattrie_iter_next T i
  else Ok i.

Definition hattrie_iter_begin (T : hattrie) (sorted : bool) : result hattrie_iter :=
  hattrie_iter_begin_with_prefix T sorted [] 0.

(** [while (i->keysize < desired) i->keysize *= 2;] *)
Fixpoint grow_key (fuel : nat) (size desired : Z) : result Z :=
  match fuel with
  | O => Fault NoFuel
  | S fuel => if decide (size < desired) then grow_key fuel (size * 2) desired else Ok size
  end.

(** The key, at [i->key + i->prefixsize] with the length left for it, and the
    iterator with its buffer; a length that would wrap is a fault. *)
Definition hattrie_iter_key (T : hattrie) (i : hattrie_iter) : result (option bytes * hattrie_iter) :=
  if hattrie_iter_finished i then Ok (None, i)
  else
    subkey ← (if hi_nil i then Ok []
              else (li ← from_option_fault NullDeref (hi_i i);
                    b ← table_at T li.1;
                    k ← ahtable_iter_key b li.2;
                    from_option_fault NullDeref k));
    let sublen := Z.of_nat (length subkey) in
    let size := Z.of_nat (length (hi_key i)) in
    size' ← grow_key 65 size (u64 (hi_level i + sublen + 1));
    let key := if decide (size' = size) then hi_key i else realloc (hi_key i) (Z.to_nat size') in
    key ← key_write key (hi_level i) subkey;
    key ← key_write key (hi_level i + sublen) [0];
    let p := length (hi_prefix i) in
    _ ← guard_fault OutOfBounds (bool_decide (Z.of_nat p <= hi_level i + sublen));
    k ← buf_read key p (Z.to_nat (hi_level i + sublen) - p);
    Ok (Some k, with_key i key (hi_level i)).

(** The value of a trie node is a copy in the iterator. *)
Definition hattrie_iter_val (T : hattrie) (i : hattrie_iter) : result (option (Z + vptr)) :=
  if hi_nil i then Ok (Some (inl (hi_nil_val i)))
  else if hattrie_iter_finished i then Ok None
  else
    li ← from_option_fault NullDeref (hi_i i);
    b ← table_at T li.1;
    p ← ahtable_iter_val b li.2;
    Ok (match p with Some p => Some (inr (VEntry li.1 p)) | None => None end).

(** [while (!finished(i)) { key(i); *val(i); next(i); }] *)
Fixpoint iter_entries (fuel : nat) (T : hattrie) (i : hattrie_iter) : result (list (bytes * Z)) :=
  match fuel with
  | O => Fault NoFuel
  | S fuel =>
      if hattrie_iter_finished i then Ok []
      else
        ki ← hattrie_iter_key T i;
        k ← from_option_fault NullDeref ki.1;
        p ← hattrie_iter_val T ki.2;
        p ← from_option_fault NullDeref p;
        v ← match p with inl v => Ok v | inr p => fst <$> hat_load p T end;
        i ← hattrie_iter_next T ki.2;
        r ← iter_entries fuel T i;
        Ok ((k, v) :: r)
  end.
