(* ===== verification/HattrieInv.v ===== *)
(** * The HAT-trie: the map it represents

    The invariant of the store of nodes.  Ghost maps give each trie node its path from
    the root and each bucket its owner and its range of characters; the invariant is
    local to a node and its neighbours, so an update is checked where it happens. *)
From S2P Require Import Prelude NodeHeap CLib Bytes Murmur Ahtable AhtableOk AhtableIter Hattrie.

#[local] Open Scope Z_scope.

(** The keys of the program are C strings with their NUL. *)
Definition cstr_key (k : bytes) : Prop := exists s, k = s ++ [0] /\ Forall (fun b => 0 < b < 256) s.

(** A key of a bucket, from the character the bucket's owner decides on. *)
Definition bkey (c0 c1 : Z) (s : bytes) : bytes := if decide (c0 = c1) then c0 :: s else s.

Definition in_range (c0 c1 : Z) (k : bytes) : Prop :=
  match k with [] => False | c :: _ => c0 <= c <= c1 end.
#[export] Instance in_range_dec c0 c1 k : Decision (in_range c0 c1 k).
Proof. destruct k; apply _. Defined.

Abbreviation TNode xs := (NTrie NODE_TYPE_TRIE 0 xs) (only parsing).

(** The bucket [b] of the trie node [l], whose path is [p], for the characters [c0] to
    [c1]. *)
Record bucket_ok (nodes : gmap loc hnode) (m : gmap bytes Z) (b l : loc) (p : bytes) (c0 c1 : Z)
    (t : ahtable) (mb : gmap bytes Z) : Prop := {
  bo_range : 0 <= c0 <= c1 /\ c1 < 256;
  bo_links xs c : nodes !! l = Some (TNode xs) -> c0 <= c <= c1 -> xs !! Z.to_nat c = Some b;
  bo_node : nodes !! b = Some (NBucket t);
  bo_kind : ah_flag t = bucket_kind c0 c1 /\ ah_c0 t = c0 /\ ah_c1 t = c1;
  bo_rep : ah_rep t mb;
  bo_map s : mb !! s = if decide (in_range c0 c1 (bkey c0 c1 s)) then m !! (p ++ bkey c0 c1 s) else None
}.

Record ht_inv (T : hattrie) (P : gmap loc bytes) (B : gmap loc (loc * Z * Z)) (m : gmap bytes Z) : Prop := {
  hti_root l : P !! l = Some [] <-> l = ht_root T;
  hti_trie l p : P !! l = Some p -> 0 ∉ p /\ exists xs, ht_nodes T !! l = Some (TNode xs) /\ length xs = NODE_CHILDS;
  hti_child l p xs c x : P !! l = Some p -> ht_nodes T !! l = Some (TNode xs) -> xs !! Z.to_nat c = Some x -> 0 <= c ->
    P !! x = Some (p ++ [c]) \/ exists c0 c1, B !! x = Some (l, c0, c1) /\ c0 <= c <= c1;
  hti_parent l p c : P !! l = Some (p ++ [c]) ->
    exists lp xs, P !! lp = Some p /\ ht_nodes T !! lp = Some (TNode xs) /\ xs !! Z.to_nat c = Some l /\ 0 <= c;
  hti_bucket b l c0 c1 : B !! b = Some (l, c0, c1) ->
    exists p t mb, P !! l = Some p /\ bucket_ok (ht_nodes T) m b l p c0 c1 t mb;
  hti_keys k : is_Some (m !! k) -> cstr_key k /\ (length k <= MAX_KEY)%nat;
  hti_m : ht_m T = Z.of_nat (size m)
}.

Definition ht_rep (T : hattrie) (m : gmap bytes Z) : Prop := exists P B, ht_inv T P B m.

(** ** Keys *)
Lemma cstr_key_split p k : cstr_key (p ++ k) -> 0 ∉ p -> exists c s, k = c :: s /\ 0 <= c < 256 /\ (c = 0 <-> s = []).
Proof.
  intros (s & Hs & Hb) Hp. destruct k as [|c k].
  { rewrite app_nil_r in Hs. subst p. set_solver. }
  exists c, k. split; [done|]. revert s Hs Hb. induction p as [|x p IH]; intros s Hs Hb; cbn in Hs.
  - destruct s as [|y s]; injection Hs as -> Hk; [subst; split; [lia|done]|].
    apply Forall_cons in Hb as [Hy Hb]. split; [lia|]. split; [lia|].
    intros ->. by destruct s.
  - destruct s as [|y s]; injection Hs as -> Hk; [destruct Hp; set_solver|].
    apply Forall_cons in Hb as [_ Hb]. apply (IH ltac:(set_solver) s Hk Hb).
Qed.

Lemma cstr_key_nonempty k : cstr_key k -> (0 < length k)%nat.
Proof. intros (s & -> & _). rewrite length_app. cbn. lia. Qed.

Lemma bkey_inj c0 c1 s s' : bkey c0 c1 s = bkey c0 c1 s' -> s = s'.
Proof. unfold bkey. case_decide; congruence. Qed.

Lemma in_range_cons c0 c1 c k : in_range c0 c1 (c :: k) <-> c0 <= c <= c1.
Proof. done. Qed.

(** The rest of a key below the trie node that is seen by the bucket of its character. *)
Definition strip (c0 c1 : Z) (k : bytes) : bytes := if decide (c0 = c1) then drop 1 k else k.

Lemma bkey_strip c0 c1 k : in_range c0 c1 k -> bkey c0 c1 (strip c0 c1 k) = k.
Proof.
  unfold bkey, strip, in_range. destruct k as [|c k]; [done|]. intros H. case_decide; [cbn; f_equal; lia|done].
Qed.

Lemma has_kind c0 c1 : has (bucket_kind c0 c1) NODE_TYPE_TRIE = false /\
  has (bucket_kind c0 c1) NODE_TYPE_PURE_BUCKET = bool_decide (c0 = c1) /\
  has (bucket_kind c0 c1) NODE_TYPE_HYBRID_BUCKET = bool_decide (c0 <> c1).
Proof. unfold bucket_kind. repeat case_bool_decide; rewrite ?decide_True, ?decide_False by done; done. Qed.

(** ** Reading the store *)
Section inv.
Context {T : hattrie} {P : gmap loc bytes} {B : gmap loc (loc * Z * Z)} {m : gmap bytes Z}.
Context (Hinv : ht_inv T P B m).

Lemma path_inj l l' p : P !! l = Some p -> P !! l' = Some p -> l = l'.
Proof.
  revert l l'. induction p as [|c p IH] using rev_ind; intros l l' H H'.
  - apply (hti_root _ _ _ _ Hinv) in H, H'. congruence.
  - destruct (hti_parent _ _ _ _ Hinv _ _ _ H) as (q & xs & Hq & Hn & Hx & _).
    destruct (hti_parent _ _ _ _ Hinv _ _ _ H') as (q' & xs' & Hq' & Hn' & Hx' & _).
    rewrite (IH q q' Hq Hq') in *. congruence.
Qed.

(** The nodes on the way to a node. *)
Lemma ancestor l p q : P !! l = Some (p ++ q) -> exists l', P !! l' = Some p.
Proof.
  revert l. induction q as [|c q IH] using rev_ind; intros l H.
  - rewrite app_nil_r in H. eauto.
  - rewrite app_assoc in H. destruct (hti_parent _ _ _ _ Hinv _ _ _ H) as (lp & _ & Hlp & _). eauto.
Qed.

Lemma trie_not_bucket l p o : P !! l = Some p -> B !! l = Some o -> False.
Proof.
  intros HP HB. destruct o as [[lo c0] c1]. destruct (hti_trie _ _ _ _ Hinv _ _ HP) as (_ & xs & Hn & _).
  destruct (hti_bucket _ _ _ _ Hinv _ _ _ _ HB) as (q & t & mb & _ & Hb).
  pose proof (bo_node _ _ _ _ _ _ _ _ _ Hb). congruence.
Qed.

(** A key is in the range of one bucket. *)
Lemma bucket_unique b l c0 c1 p k b' l' c0' c1' p' k' :
  B !! b = Some (l, c0, c1) -> P !! l = Some p -> in_range c0 c1 k ->
  B !! b' = Some (l', c0', c1') -> P !! l' = Some p' -> in_range c0' c1' k' ->
  p ++ k = p' ++ k' -> b = b'.
Proof.
  assert (Hlt : forall b l c0 c1 p k b' l' c0' c1' p' k', B !! b = Some (l, c0, c1) -> P !! l = Some p -> in_range c0 c1 k ->
    B !! b' = Some (l', c0', c1') -> P !! l' = Some p' -> in_range c0' c1' k' ->
    p ++ k = p' ++ k' -> (exists q, p' = p ++ q) -> b = b').
  { clear b l c0 c1 p k b' l' c0' c1' p' k'. intros b l c0 c1 p k b' l' c0' c1' p' k' HB HP Hk HB' HP' Hk' Heq [r ->].
    destruct k as [|c k], k' as [|c' k']; cbn in Hk, Hk'; try done.
    destruct (hti_bucket _ _ _ _ Hinv _ _ _ _ HB) as (q & t & mb & Hq & Hb). rewrite HP in Hq. injection Hq as <-.
    destruct (hti_bucket _ _ _ _ Hinv _ _ _ _ HB') as (q' & t' & mb' & Hq' & Hb'). rewrite HP' in Hq'. injection Hq' as <-.
    destruct (hti_trie _ _ _ _ Hinv _ _ HP) as (_ & xs & Hn & _).
    pose proof (bo_links _ _ _ _ _ _ _ _ _ Hb _ _ Hn Hk) as Hx.
    rewrite <- app_assoc in Heq. apply app_inv_head in Heq.
    destruct r as [|x r].
    - rewrite app_nil_r in HP'. assert (l' = l) as -> by (by eapply path_inj).
      injection Heq as -> _. pose proof (bo_links _ _ _ _ _ _ _ _ _ Hb' _ _ Hn Hk'). congruence.
    - injection Heq as <- _. rewrite (app_assoc p [c] r : p ++ c :: r = _) in HP'.
      destruct (ancestor _ _ _ HP') as [la Hla]. destruct (hti_parent _ _ _ _ Hinv _ _ _ Hla) as (lq & xs' & Hlq & Hn' & Hx' & _).
      assert (lq = l) as -> by (by eapply path_inj). rewrite Hn in Hn'. injection Hn' as <-.
      exfalso. assert (la = b) as -> by congruence. exact (trie_not_bucket _ _ _ Hla HB). }
  intros HB HP Hk HB' HP' Hk' Heq. destruct (app_eq_inv _ _ _ _ Heq) as [(q & -> & _)|(q & -> & _)].
  - symmetry. eapply (Hlt b' l' c0' c1' p' k'); eauto.
  - eapply (Hlt b l c0 c1 p k); eauto.
Qed.
End inv.

(** ** Walking down *)
Section walk.
Context {T : hattrie} {P : gmap loc bytes} {B : gmap loc (loc * Z * Z)} {m : gmap bytes Z}.
Context (Hinv : ht_inv T P B m).

Lemma trie_node l p : P !! l = Some p ->
  exists xs, node_load l T = Ok (TNode xs, T) /\ ht_nodes T !! l = Some (TNode xs) /\ length xs = NODE_CHILDS.
Proof.
  intros HP. destruct (hti_trie _ _ _ _ Hinv _ _ HP) as (_ & xs & Hn & Hlen).
  exists xs. split; [unfold node_load; by rewrite Hn|done].
Qed.

Lemma trie_flag l p : P !! l = Some p -> node_flag l T = Ok (NODE_TYPE_TRIE, T).
Proof.
  intros HP. destruct (trie_node _ _ HP) as (xs & Hl & _). unfold node_flag. by run_step Hl.
Qed.

Lemma bucket_node b l c0 c1 : B !! b = Some (l, c0, c1) ->
  exists p t mb, P !! l = Some p /\ bucket_ok (ht_nodes T) m b l p c0 c1 t mb /\
    bucket_load b T = Ok (t, T) /\ node_flag b T = Ok (bucket_kind c0 c1, T).
Proof.
  intros HB. destruct (hti_bucket _ _ _ _ Hinv _ _ _ _ HB) as (p & t & mb & HP & Hb).
  exists p, t, mb. split; [done|]. split; [done|].
  pose proof (bo_node _ _ _ _ _ _ _ _ _ Hb) as Hn.
  assert (Hl : node_load b T = Ok (NBucket t, T)) by (unfold node_load; by rewrite Hn).
  split; [unfold bucket_load; by run_step Hl|]. unfold node_flag. run_step Hl.
  destruct (bo_kind _ _ _ _ _ _ _ _ _ Hb) as [<- _]. done.
Qed.

(** The child of the node [lp] with path [p] for [c]. *)
Definition child_at (lp : loc) (p : bytes) (c : Z) (x : loc) : Prop :=
  P !! x = Some (p ++ [c]) \/ exists c0 c1, B !! x = Some (lp, c0, c1) /\ c0 <= c <= c1.

Lemma child_run lp p c : P !! lp = Some p -> 0 <= c < 256 ->
  exists x, child lp c T = Ok (x, T) /\ child_at lp p c x.
Proof.
  intros HP Hc. destruct (trie_node _ _ HP) as (xs & Hl & Hn & Hlen).
  destruct (lookup_lt_is_Some_2 xs (Z.to_nat c)) as [x Hx]; [rewrite Hlen; unfold NODE_CHILDS, NODE_MAXCHAR; lia|].
  exists x. split.
  - unfold child, trie_load. rewrite st_bind_run with (a := (NODE_TYPE_TRIE, 0, xs)) (s' := T) by (by run_step Hl).
    unfold liftS. cbn [snd]. by rewrite Hx.
  - eapply hti_child; eauto. lia.
Qed.

(** The bucket a key leads to: the part of the key before its owner decides and from there. *)
Record found (key : bytes) (lp : loc) (p : bytes) (c : Z) (s : bytes) (nd : loc) (c0 c1 : Z) : Prop := {
  fd_key : key = p ++ c :: s;
  fd_owner : P !! lp = Some p;
  fd_bucket : B !! nd = Some (lp, c0, c1);
  fd_range : c0 <= c <= c1
}.

Lemma key_byte_mid p c s rest : key_byte ((p ++ c :: s) ++ rest) (length p) T = Ok (c, T).
Proof. unfold key_byte, liftS. by rewrite <- app_assoc, <- app_comm_cons, byte_at_mid. Qed.

Context (key rest : bytes) (Hkey : cstr_key key).

Lemma consume_loop_ok s p lp c node fuel brk :
  P !! lp = Some p -> child_at lp p c node -> key = p ++ c :: s -> (brk <= 1)%nat -> (length s < fuel)%nat ->
  exists lp' p' c' s' nd c0 c1,
    consume_loop fuel lp node (key ++ rest) (length p) (S (length s)) brk T = Ok ((lp', length p', S (length s'), nd), T) /\
    found key lp' p' c' s' nd c0 c1.
Proof.
  revert p lp c node fuel. induction s as [|c2 s IH]; intros p lp c node fuel HP Hch Hk Hbrk Hf.
  all: destruct fuel as [|fuel]; [lia|]; cbn [consume_loop].
  all: destruct Hch as [HPn|(c0 & c1 & HB & Hr)].
  2,4: destruct (bucket_node _ _ _ _ HB) as (q & t & mb & _ & Hb & _ & Hfl); run_step Hfl;
    rewrite (proj1 (has_kind c0 c1)); cbn [andb]; eexists lp, p, c, _, node, c0, c1; split; [done|]; by split.
  all: run_step (trie_flag _ _ HPn); destruct (hti_trie _ _ _ _ Hinv _ _ HPn) as [Hz _];
    pose proof Hk as Hk2; rewrite (app_assoc p [c] _ : p ++ c :: _ = _) in Hk2;
    pose proof Hkey as Hkey2; rewrite Hk2 in Hkey2; destruct (cstr_key_split _ _ Hkey2 Hz) as (c2' & s2 & Hs & Hc2 & _); try done.
  injection Hs as <- <-. change (has NODE_TYPE_TRIE NODE_TYPE_TRIE) with true.
  rewrite bool_decide_eq_true_2 by (cbn; lia). cbn [andb].
  assert (Hl : S (length p) = length (p ++ [c])) by (rewrite length_app; cbn; lia).
  rewrite Hl.
  assert (Hkb : key_byte (key ++ rest) (length (p ++ [c])) T = Ok (c2, T)) by (rewrite Hk2; apply key_byte_mid).
  run_step Hkb.
  destruct (child_run _ _ _ HPn Hc2) as (x & Hx & Hch). run_step Hx.
  replace (S (length (c2 :: s)) - 1)%nat with (S (length s)) by (cbn; lia).
  apply (IH (p ++ [c]) node c2 x fuel HPn Hch Hk2 Hbrk). cbn in Hf. lia.
Qed.

Lemma consume_ok p q lp brk :
  P !! lp = Some p -> key = p ++ q -> (brk <= 1)%nat ->
  exists lp' p' c s nd c0 c1,
    hattrie_consume lp (key ++ rest) (length p) (length q) brk T = Ok ((lp', length p', S (length s), nd), T) /\
    found key lp' p' c s nd c0 c1.
Proof.
  intros HP Hk Hbrk. destruct (hti_trie _ _ _ _ Hinv _ _ HP) as [Hz _].
  pose proof Hkey as Hkey2. rewrite Hk in Hkey2. destruct (cstr_key_split _ _ Hkey2 Hz) as (c & s & -> & Hc & _).
  assert (Hkb : key_byte (key ++ rest) (length p) T = Ok (c, T)) by (rewrite Hk; apply key_byte_mid).
  unfold hattrie_consume. run_step Hkb.
  destruct (child_run _ _ _ HP Hc) as (x & Hx & Hch). run_step Hx.
  destruct (consume_loop_ok s p lp c x (S (length (c :: s))) brk HP Hch Hk Hbrk) as (lp' & p' & c' & s' & nd & c0 & c1 & Hrun & Hfd);
    [cbn; lia|].
  exists lp', p', c', s', nd, c0, c1. split; [|done]. run_step Hrun. cbn [fst].
  run_step (trie_flag _ _ (fd_owner _ _ _ _ _ _ _ _ Hfd)). done.
Qed.
End walk.

(** ** Operations of a bucket *)
Definition kind_of (t : ahtable) : Z * Z * Z := (ah_flag t, ah_c0 t, ah_c1 t).

Lemma expand_kind t t' : ahtable_expand t = Ok t' -> kind_of t' = kind_of t.
Proof. unfold ahtable_expand. intros H. inv_ok. reflexivity. Qed.

Lemma get_key_kind t k ins r t' : get_key t k ins = Ok (r, t') -> kind_of t' = kind_of t.
Proof.
  unfold get_key. intros H. inv_ok. rename x into t1.
  assert (Hk : kind_of t1 = kind_of t) by (destruct (ins && _); [by apply expand_kind|by simplify_eq]).
  rewrite <- Hk. repeat case_match; inv_ok; reflexivity.
Qed.

Lemma ahtable_get_kind t k r t' : ahtable_get t k = Ok (r, t') -> kind_of t' = kind_of t.
Proof. unfold ahtable_get. case_match; [done|]. apply get_key_kind. Qed.

Lemma ahtable_del_kind t k r t' : ahtable_del t k = Ok (r, t') -> kind_of t' = kind_of t.
Proof. unfold ahtable_del. intros H. inv_ok. case_match; inv_ok; reflexivity. Qed.

Lemma val_store_kind t p v t' : val_store t p v = Ok t' -> kind_of t' = kind_of t.
Proof. unfold val_store. intros H. inv_ok. reflexivity. Qed.

Lemma set_kind_rep t m f a b : ah_rep t m -> ah_rep (set_kind t f a b) m.
Proof.
  intros (ess & [[Hs Hpos Hh Hm] Hn Hmax Hle] & Hmap). exists ess. split; [|done]. by split; [split|..].
Qed.

Lemma size_kmap (f : bytes -> bytes) `{!Inj (=) (=) f} (m : gmap bytes Z) :
  size (kmap f m : gmap bytes Z) = size m.
Proof.
  unfold kmap. rewrite map_size_list_to_map, length_fmap; [by rewrite length_map_to_list|].
  rewrite <- list_fmap_compose. rewrite (list_fmap_ext _ (f ∘ fst)) by done.
  rewrite list_fmap_compose. apply NoDup_fmap_2; [done|]. apply NoDup_fst_map_to_list.
Qed.

Lemma bucket_size nodes m b l p c0 c1 t mb :
  bucket_ok nodes m b l p c0 c1 t mb -> (size mb <= size m)%nat.
Proof.
  intros Hb. set (f := fun s => p ++ bkey c0 c1 s).
  assert (Hf : Inj (=) (=) f) by (intros s s' H; apply app_inv_head in H; by eapply bkey_inj).
  rewrite <- (size_kmap f mb). apply map_subseteq_size, map_subseteq_spec.
  intros k v (s & -> & Hs)%(lookup_kmap_Some f). rewrite (bo_map _ _ _ _ _ _ _ _ _ Hb) in Hs.
  by case_decide.
Qed.

(** An update of a bucket at one key is an update of the trie. *)
Lemma bucket_update T P B m b l c0 c1 p t mb t' s o :
  ht_inv T P B m -> B !! b = Some (l, c0, c1) -> P !! l = Some p ->
  bucket_ok (ht_nodes T) m b l p c0 c1 t mb ->
  kind_of t' = kind_of t -> ah_rep t' (partial_alter (fun _ => o) s mb) -> in_range c0 c1 (bkey c0 c1 s) ->
  (is_Some o -> cstr_key (p ++ bkey c0 c1 s) /\ (length (p ++ bkey c0 c1 s) <= MAX_KEY)%nat) ->
  let m' := partial_alter (fun _ => o) (p ++ bkey c0 c1 s) m in
  ht_inv (HT (<[b := NBucket t']> (ht_nodes T)) (ht_root T) (Z.of_nat (size m'))) P B m'.
Proof.
  intros Hinv HB HP Hb Hkind Hrep Hr Hok m'. pose proof (bo_node _ _ _ _ _ _ _ _ _ Hb) as Hn.
  assert (Htn : forall x xs, <[b := NBucket t']> (ht_nodes T) !! x = Some (TNode xs) <-> ht_nodes T !! x = Some (TNode xs)).
  { intros x xs. destruct (decide (x = b)) as [->|Hne]; [|by rewrite lookup_insert_ne].
    rewrite lookup_insert_eq, Hn. done. }
  destruct Hinv as [Hroot Htrie Hchild Hparent Hbucket Hkeys Hm] eqn:E. clear E.
  split; cbn [ht_nodes ht_root ht_m]; try done.
  - intros x q Hx. destruct (Htrie x q Hx) as [Hz (xs & Hxs & Hlen)]. split; [done|]. exists xs. by rewrite Htn.
  - intros x q xs c y Hx Hxs. rewrite Htn in Hxs. by apply (Hchild x q xs).
  - intros x q c Hx. destruct (Hparent x q c Hx) as (lp & xs & H1 & H2 & H3). exists lp, xs. by rewrite Htn.
  - intros b' l' c0' c1' HB'. destruct (decide (b' = b)) as [->|Hne].
    + rewrite HB in HB'. injection HB' as <- <- <-. exists p, t', (partial_alter (fun _ => o) s mb). split; [done|].
      destruct Hb as [H1 H2 H3 H4 H5 H6]. split; try done.
      * intros xs c Hxs. rewrite Htn in Hxs. by apply H2.
      * by rewrite lookup_insert_eq.
      * unfold kind_of in Hkind. injection Hkind as -> -> ->. done.
      * intros s'. destruct (decide (s' = s)) as [->|Hs].
        -- rewrite lookup_partial_alter_eq, decide_True by done. unfold m'. by rewrite lookup_partial_alter_eq.
        -- rewrite lookup_partial_alter_ne by done. rewrite H6. case_decide; [|done].
           unfold m'. rewrite lookup_partial_alter_ne; [done|]. intros Heq%app_inv_head%bkey_inj. congruence.
    + destruct (Hbucket _ _ _ _ HB') as (p' & t2 & mb2 & HP' & Hb'). exists p', t2, mb2. split; [done|].
      destruct Hb' as [H1 H2 H3 H4 H5 H6]. split; try done.
      * intros xs c Hxs. rewrite Htn in Hxs. by apply H2.
      * by rewrite lookup_insert_ne.
      * intros s'. rewrite H6. case_decide as Hr'; [|done]. unfold m'.
        rewrite lookup_partial_alter_ne; [done|]. intros Heq. apply Hne. symmetry.
        eapply (bucket_unique (T := T) (P := P) (B := B) (m := m)); [by split|exact HB|exact HP|exact Hr|exact HB'|exact HP'|exact Hr'|done].
  - intros k. destruct (decide (k = p ++ bkey c0 c1 s)) as [->|Hne].
    + unfold m'. rewrite lookup_partial_alter_eq. exact Hok.
    + unfold m'. rewrite lookup_partial_alter_ne by done. apply Hkeys.
Qed.
