(* ===== verification/HattrieOps.v ===== *)
(** * The HAT-trie: lookup and removal

    A key is found in the bucket its characters lead to; removal and assignment through
    a pointer update that bucket. *)
From S2P Require Import Prelude NodeHeap CLib Bytes Murmur Ahtable AhtableOk AhtableIter Hattrie HattrieInv.

#[local] Open Scope Z_scope.

(** ** Pointers into a table *)
Definition ah_ptr (t : ahtable) (m : gmap bytes Z) (p : nat * nat) (k : bytes) : Prop :=
  exists ess v, ah_inv t ess /\ ah_map ess = m /\ at_ptr ess p k v.

Lemma tryget_rep t m k : ah_rep t m ->
  match m !! k with
  | Some _ => exists p, ahtable_tryget t k = Ok (Some p) /\ ah_ptr t m p k
  | None => ahtable_tryget t k = Ok None
  end.
Proof.
  intros (ess & Hinv & <-). pose proof Hinv as [Ht Hn _ _]. unfold ahtable_tryget.
  destruct (ah_map ess !! k) as [v|] eqn:Hv.
  - destruct (get_key_find t ess k false Ht Hn (fun H => ltac:(done)) v Hv) as (q & -> & Hq).
    exists q. split; [done|]. by exists ess, v.
  - by rewrite (get_key_missing t ess k Ht Hn Hv).
Qed.

Lemma get_rep_ptr t m k : ah_rep t m -> (length k <= MAX_KEY)%nat -> Z.of_nat (size m) < 2 ^ 47 ->
  exists p t', ahtable_get t k = Ok (Some p, t') /\ ah_ptr t' (<[k := default 0 (m !! k)]> m) p k.
Proof.
  intros Hr Hk Hs. destruct (get_rep t m k Hr Hk Hs) as (p & t' & ess' & Hg & Hinv' & Hp & Hmap).
  exists p, t'. split; [done|]. by exists ess', (default 0 (m !! k)).
Qed.

Lemma del_rep t m k : ah_rep t m ->
  exists r t', ahtable_del t k = Ok (r, t') /\ r = (if decide (is_Some (m !! k)) then 0 else -1) /\
    ah_rep t' (delete k m) /\ ah_m t - ah_m t' = Z.of_nat (size m) - Z.of_nat (size (delete k m)).
Proof.
  intros (ess & [Ht Hn Hmax Hm] & <-). pose proof (del_ok t ess k Ht Hn) as Hd.
  destruct (ah_map ess !! k) as [v|] eqn:Hv.
  - destruct Hd as (t' & ess' & Hd & Ht' & Hl & Hmap & Hmx & Hmm). exists 0, t'. split; [done|].
    rewrite decide_True by eauto. split; [done|]. split; [exists ess'; split; [split; [done|lia|lia|lia]|done]|].
    rewrite <- Hmap.
    rewrite (ah_map_size _ _ Ht), (ah_map_size _ _ Ht'). lia.
  - exists (-1), t. split; [done|]. rewrite decide_False by (intros [? [=]]). split; [done|].
    rewrite delete_id by done. split; [exists ess; split; [by split|done]|lia].
Qed.

Lemma ah_ptr_rep t m p k : ah_ptr t m p k -> ah_rep t m.
Proof. intros (ess & v & Hinv & Hmap & _). by exists ess. Qed.

Lemma ah_ptr_load t m p k : ah_ptr t m p k -> exists v, m !! k = Some v /\ val_load t p = Ok v.
Proof.
  intros (ess & v & [Ht _ _ _] & <- & Hp). exists v. split; [by eapply at_ptr_map|by eapply val_load_ok].
Qed.

Lemma ah_ptr_store t m p k w : ah_ptr t m p k -> 0 <= w < 2 ^ 64 ->
  exists t', val_store t p w = Ok t' /\ ah_rep t' (<[k := w]> m).
Proof. intros (ess & v & Hinv & <- & Hp) Hw. by eapply store_rep. Qed.

Lemma ah_rep_m t m : ah_rep t m -> ah_m t = Z.of_nat (size m).
Proof. intros (ess & [Ht _ _ _] & <-). symmetry. by apply ah_map_size. Qed.

(** ** The bucket of a key *)
Section ops.
Context {T : hattrie} {P : gmap loc bytes} {B : gmap loc (loc * Z * Z)} {m : gmap bytes Z}.
Context (Hinv : ht_inv T P B m).

Lemma root_path : P !! ht_root T = Some [].
Proof. by apply (hti_root _ _ _ _ Hinv). Qed.

Definition off (c0 c1 : Z) : nat := if decide (c0 = c1) then 1%nat else 0%nat.

Lemma found_bucket key lp p c s nd c0 c1 : found (P := P) (B := B) key lp p c s nd c0 c1 ->
  exists t mb, bucket_ok (ht_nodes T) m nd lp p c0 c1 t mb /\ bucket_load nd T = Ok (t, T) /\
    node_flag nd T = Ok (bucket_kind c0 c1, T) /\ in_range c0 c1 (bkey c0 c1 (strip c0 c1 (c :: s))) /\
    p ++ bkey c0 c1 (strip c0 c1 (c :: s)) = key /\ mb !! strip c0 c1 (c :: s) = m !! key.
Proof.
  intros [Hk HP HB Hr]. destruct (bucket_node Hinv _ _ _ _ HB) as (q & t & mb & Hq & Hb & Hl & Hf).
  rewrite HP in Hq. injection Hq as <-. exists t, mb. split; [done|]. split; [done|]. split; [done|].
  assert (Hbk : bkey c0 c1 (strip c0 c1 (c :: s)) = c :: s) by (by apply bkey_strip).
  rewrite Hbk. split; [done|]. split; [done|].
  rewrite (bo_map _ _ _ _ _ _ _ _ _ Hb), Hbk, decide_True by done. by rewrite <- Hk.
Qed.

Lemma key_sub_strip p c s rest c0 c1 :
  key_sub ((p ++ c :: s) ++ rest) (length p + off c0 c1) (S (length s) - off c0 c1) T = Ok (strip c0 c1 (c :: s), T).
Proof.
  unfold key_sub, liftS, off, strip. case_decide.
  - replace ((p ++ c :: s) ++ rest) with ((p ++ [c]) ++ s ++ rest) by (by rewrite <- !app_assoc).
    rewrite buf_read_mid; [done|rewrite length_app; done|lia].
  - rewrite <- app_assoc, buf_read_mid; [done|lia|cbn; lia].
Qed.

Lemma find_ok key rest : cstr_key key ->
  exists lp p c s nd c0 c1, found (P := P) (B := B) key lp p c s nd c0 c1 /\
    hattrie_find (key ++ rest) (length key) T =
      Ok ((Some nd, (length p + off c0 c1)%nat, (S (length s) - off c0 c1)%nat), T).
Proof.
  intros Hk. destruct (consume_ok Hinv key rest Hk [] key (ht_root T) 1 root_path eq_refl (le_n 1))
    as (lp & p & c & s & nd & c0 & c1 & Hc & Hf).
  exists lp, p, c, s, nd, c0, c1. split; [done|]. unfold hattrie_find.
  rewrite (st_bind_run (getsS ht_root) _ T (ht_root T) T) by done.
  run_step (trie_flag Hinv _ _ root_path). rewrite (st_bind_run _ _ T tt T) by done.
  pose proof (cstr_key_nonempty _ Hk). rewrite decide_False by lia.
  cbn [length] in Hc. run_step Hc.
  destruct (found_bucket _ _ _ _ _ _ _ _ Hf) as (t & mb & _ & _ & Hfl & _). run_step Hfl.
  destruct (has_kind c0 c1) as (-> & -> & _). unfold off. case_bool_decide as Hp; [rewrite decide_True by done|rewrite decide_False by done].
  - by rewrite Nat.add_1_r.
  - by rewrite Nat.add_0_r, Nat.sub_0_r.
Qed.
End ops.

(** ** Pointers to values *)
Record hat_ptr (T : hattrie) (m : gmap bytes Z) (q : vptr) (key : bytes) : Prop := HatPtr {
  hp_P : gmap loc bytes; hp_B : gmap loc (loc * Z * Z);
  hp_lp : loc; hp_p : bytes; hp_c : Z; hp_s : bytes; hp_nd : loc; hp_c0 : Z; hp_c1 : Z;
  hp_t : ahtable; hp_mb : gmap bytes Z; hp_i : nat * nat;
  hp_inv : ht_inv T hp_P hp_B m;
  hp_found : found (P := hp_P) (B := hp_B) key hp_lp hp_p hp_c hp_s hp_nd hp_c0 hp_c1;
  hp_ok : bucket_ok (ht_nodes T) m hp_nd hp_lp hp_p hp_c0 hp_c1 hp_t hp_mb;
  hp_ptr : ah_ptr hp_t hp_mb hp_i (strip hp_c0 hp_c1 (hp_c :: hp_s));
  hp_q : q = VEntry hp_nd hp_i
}.

Lemma bucket_load_ok (T : hattrie) (m : gmap bytes Z) b l p c0 c1 t mb :
  bucket_ok (ht_nodes T) m b l p c0 c1 t mb -> bucket_load b T = Ok (t, T).
Proof.
  intros Hb. assert (Hl : node_load b T = Ok (NBucket t, T))
    by (unfold node_load; by rewrite (bo_node _ _ _ _ _ _ _ _ _ Hb)).
  unfold bucket_load. by run_step Hl.
Qed.

Lemma node_store_ok T m b l p c0 c1 t mb n :
  bucket_ok (ht_nodes T) m b l p c0 c1 t mb ->
  node_store b n T = Ok (tt, HT (<[b := n]> (ht_nodes T)) (ht_root T) (ht_m T)).
Proof. intros Hb. unfold node_store. by rewrite (bo_node _ _ _ _ _ _ _ _ _ Hb). Qed.

Lemma liftS_ok {S A} (r : result A) (s : S) a : r = Ok a -> liftS r s = Ok (a, s).
Proof. by intros ->. Qed.

Lemma hat_ptr_load T m q key : hat_ptr T m q key -> exists v, m !! key = Some v /\ hat_load q T = Ok (v, T).
Proof.
  intros [P B lp p c s nd c0 c1 t mb i Hinv Hf Hb Hp ->]. destruct (ah_ptr_load _ _ _ _ Hp) as (v & Hv & Hl).
  exists v. split.
  - destruct Hf as [-> _ _ Hr]. rewrite (bo_map _ _ _ _ _ _ _ _ _ Hb), bkey_strip in Hv by done.
    by rewrite decide_True in Hv.
  - unfold hat_load. run_step (bucket_load_ok _ _ _ _ _ _ _ _ _ Hb). by apply liftS_ok.
Qed.

Lemma hat_ptr_store T m q key w : hat_ptr T m q key -> 0 <= w < 2 ^ 64 ->
  exists T', hat_store q w T = Ok (tt, T') /\ ht_rep T' (<[key := w]> m).
Proof.
  intros Hq Hw. destruct (hat_ptr_load _ _ _ _ Hq) as (v & Hv & _).
  destruct Hq as [P B lp p c s nd c0 c1 t mb i Hinv [Hk HP HB Hr] Hb Hp ->].
  destruct (ah_ptr_store _ _ _ _ w Hp Hw) as (t' & Hs & Hrep).
  eexists. split.
  - unfold hat_store. run_step (bucket_load_ok _ _ _ _ _ _ _ _ _ Hb). run_step (liftS_ok _ T _ Hs).
    by apply (node_store_ok _ _ _ _ _ _ _ _ _ _ Hb).
  - exists P, B. rewrite (hti_m _ _ _ _ Hinv).
    replace (size m) with (size (<[key := w]> m)) by (by eapply map_size_insert_Some).
    rewrite Hk. pose proof (bucket_update T P B m nd lp c0 c1 p t mb t' (strip c0 c1 (c :: s)) (Some w)) as Hu.
    rewrite bkey_strip in Hu by done. apply Hu; try done; [by eapply val_store_kind|].
    intros _. rewrite <- Hk. apply (hti_keys _ _ _ _ Hinv). eauto.
Qed.

(** ** Lookup and removal *)
Lemma size_delete_Z (m : gmap bytes Z) (k : bytes) :
  Z.of_nat (size m) - Z.of_nat (size (delete k m)) = if decide (is_Some (m !! k)) then 1 else 0.
Proof.
  rewrite map_size_delete. destruct (m !! k) as [v|] eqn:Hk.
  - rewrite decide_True by eauto. assert (size m <> 0%nat) by (intros ->%map_size_empty_iff; done). destruct (size m) as [|n]; [done|]. change (Nat.pred (S n)) with n. lia.
  - rewrite decide_False by (intros [? [=]]). apply Z.sub_diag.
Qed.

Lemma hat_tryget_ok (T : hattrie) (P : gmap loc bytes) (B : gmap loc (loc * Z * Z)) (m : gmap bytes Z) (key rest : bytes) : ht_inv T P B m -> cstr_key key ->
  match m !! key with
  | Some _ => exists q, hattrie_tryget (key ++ rest) (length key) T = Ok (Some q, T) /\ hat_ptr T m q key
  | None => hattrie_tryget (key ++ rest) (length key) T = Ok (None, T)
  end.
Proof.
  intros Hinv Hk. destruct (find_ok Hinv key rest Hk) as (lp & p & c & s & nd & c0 & c1 & Hf & Hrun).
  destruct (found_bucket Hinv _ _ _ _ _ _ _ _ Hf) as (t & mb & Hb & Hl & Hfl & _ & _ & Hv).
  pose proof (tryget_rep t mb (strip c0 c1 (c :: s)) (bo_rep _ _ _ _ _ _ _ _ _ Hb)) as Htg. rewrite Hv in Htg.
  assert (Hx : forall r, ahtable_tryget t (strip c0 c1 (c :: s)) = Ok r ->
    hattrie_tryget (key ++ rest) (length key) T = Ok (VEntry nd <$> r, T)).
  { intros r Hr. unfold hattrie_tryget. run_step Hrun. run_step Hfl. rewrite (proj1 (has_kind c0 c1)). run_step Hl.
    rewrite (fd_key _ _ _ _ _ _ _ _ Hf). run_step (key_sub_strip (T := T) p c s rest c0 c1).
    by run_step (liftS_ok _ T _ Hr). }
  destruct (m !! key) as [v|].
  - destruct Htg as (i & Hi & Hp). exists (VEntry nd i). split; [by apply (Hx (Some i))|].
    by apply (HatPtr T m (VEntry nd i) key P B lp p c s nd c0 c1 t mb i).
  - by apply (Hx None).
Qed.

Lemma hat_del_ok (T : hattrie) (P : gmap loc bytes) (B : gmap loc (loc * Z * Z)) (m : gmap bytes Z) (key rest : bytes) : ht_inv T P B m -> cstr_key key -> Z.of_nat (size m) < 2 ^ 64 ->
  exists T', hattrie_del (key ++ rest) (length key) T = Ok (if decide (is_Some (m !! key)) then 0 else -1, T') /\
    ht_rep T' (delete key m).
Proof.
  intros Hinv Hk H64. destruct (find_ok Hinv key rest Hk) as (lp & p & c & s & nd & c0 & c1 & Hf & Hrun).
  destruct (found_bucket Hinv _ _ _ _ _ _ _ _ Hf) as (t & mb & Hb & Hl & Hfl & Hir & Hpk & Hv).
  destruct (del_rep t mb (strip c0 c1 (c :: s)) (bo_rep _ _ _ _ _ _ _ _ _ Hb)) as (r & t' & Hd & Hr & Hrep & Hm).
  rewrite Hv in Hr. eexists. split.
  - unfold hattrie_del. rewrite (st_bind_run (getsS ht_root) _ T (ht_root T) T) by done.
    run_step (trie_flag Hinv _ _ (root_path Hinv)). rewrite (st_bind_run _ _ T tt T) by done.
    run_step Hrun. run_step Hfl. rewrite (proj1 (has_kind c0 c1)). run_step Hl.
    rewrite (fd_key _ _ _ _ _ _ _ _ Hf) at 1. run_step (key_sub_strip (T := T) p c s rest c0 c1).
    run_step (liftS_ok _ T _ Hd). cbn [fst snd].
    run_step (node_store_ok _ _ _ _ _ _ _ _ _ (NBucket t') Hb). rewrite <- Hr. done.
  - exists P, B. cbn [ht_nodes ht_root ht_m].
    pose proof (bucket_update T P B m nd lp c0 c1 p t mb t' (strip c0 c1 (c :: s)) None Hinv) as Hu.
    rewrite Hpk in Hu.
    replace (u64 (ht_m T + - (ah_m t - ah_m t'))) with (Z.of_nat (size (delete key m))).
    + destruct Hf. apply Hu; try done; by eapply ahtable_del_kind.
    + pose proof (size_delete_Z m key). pose proof (size_delete_Z mb (strip c0 c1 (c :: s))) as Hmb.
      rewrite Hv in Hmb. assert (Heq : ht_m T + - (ah_m t - ah_m t') = Z.of_nat (size (delete key m))).
      { rewrite (hti_m _ _ _ _ Hinv). lia. }
      rewrite Heq. destruct (decide (is_Some (m !! key))); rewrite u64_small by lia; done.
Qed.
