(* ===== verification/HattrieSplit.v ===== *)
(** * The HAT-trie: splitting a full bucket

    A split replaces a hybrid bucket by two buckets of its parent, for the characters
    up to a split point and after it, and hangs a pure bucket below a new trie node.
    The map of the trie does not change, and the bucket a key leads to afterwards has a
    shorter rest of the key or fewer characters. *)
From S2P Require Import Prelude NodeHeap CLib Bytes Murmur Ahtable AhtableOk AhtableIter Hattrie HattrieInv HattrieOps.

#[local] Open Scope Z_scope.

Lemma foldR_cons {A B} (f : A -> B -> result A) a b l a' : f a b = Ok a' -> foldR f a (b :: l) = foldR f a' l.
Proof. cbn [foldR]. by intros ->. Qed.

(** ** The split point *)
Definition is_u32 (z : Z) : Prop := 0 <= z < 2 ^ 32.

Lemma u32_is z : is_u32 (u32 z).
Proof. apply Z.mod_pos_bound. lia. Qed.

Definition byte_key (k : bytes) : Prop := in_range 0 255 k.

Lemma count_ok ptrs cs : length cs = NODE_CHILDS -> Forall is_u32 cs ->
  Forall (fun kp : bytes * (nat * nat) => byte_key kp.1) ptrs ->
  exists cs', foldR (fun a kp => count_head a kp.1 kp.2) cs ptrs = Ok cs' /\
    length cs' = NODE_CHILDS /\ Forall is_u32 cs'.
Proof.
  intros Hlen Hcs Hp. revert cs Hlen Hcs. induction Hp as [|[k p] ptrs Hk _ IH]; intros cs Hlen Hcs; [by exists cs|].
  destruct k as [|c k]; [done|]. cbn in Hk.
  destruct (lookup_lt_is_Some_2 cs (Z.to_nat c)) as [x Hx]; [rewrite Hlen; unfold NODE_CHILDS, NODE_MAXCHAR; lia|].
  erewrite foldR_cons.
  2: { cbn [fst snd]. unfold count_head, byte_at. cbn [length bool_decide guard_fault mbind result_bind].
       rewrite bool_decide_eq_true_2 by lia. cbn [guard_fault mbind result_bind lookup list_lookup from_option_fault].
       rewrite Hx. cbn [from_option_fault mbind result_bind]. done. }
  apply IH; [by rewrite length_insert|]. apply Forall_insert; [done|apply u32_is].
Qed.

Lemma split_point_ok fuel cs c1 all_m j l r :
  length cs = NODE_CHILDS -> 0 <= j < c1 -> c1 < 256 -> is_u32 l -> is_u32 r -> (Z.to_nat (c1 - j) < fuel)%nat ->
  exists j' l' r', split_point fuel cs c1 all_m j l r = Ok (j', l', r') /\ j <= j' < c1 /\ is_u32 l' /\ is_u32 r'.
Proof.
  intros Hlen. revert j l r. induction fuel as [|fuel IH]; intros j l r Hj Hc Hl Hr Hf; [lia|]. cbn [split_point].
  case_decide; [|exists j, l, r; split; [done|]; split; [lia|done]].
  destruct (lookup_lt_is_Some_2 cs (Z.to_nat (j + 1))) as [x Hx]; [rewrite Hlen; unfold NODE_CHILDS, NODE_MAXCHAR; lia|].
  rewrite Hx. cbn [from_option_fault mbind result_bind].
  case_decide; [|exists j, l, r; split; [done|]; split; [lia|done]].
  destruct (IH (j + 1) (u32 (l + x)) (u32 (r - x))) as (j' & l' & r' & -> & Hj' & Hlr); [lia|done|apply u32_is|apply u32_is|lia|].
  exists j', l', r'. split; [done|]. split; [lia|done].
Qed.

Lemma num_slots_ok m : is_u32 m ->
  exists n, num_slots 8 m (Z.of_nat ahtable_initial_size) = Ok n /\ 4096 <= n < 2 ^ 32.
Proof.
  unfold is_u32. intros Hm. change (Z.of_nat ahtable_initial_size) with 4096. unfold ahtable_max_load_factor in *.
  cbn [num_slots]. unfold ahtable_max_load_factor. repeat case_decide; first [eexists; split; [done|]; lia|lia].
Qed.

Lemma split_half_ok m c0 c1 : is_u32 m ->
  exists b, split_half m c0 c1 = Ok b /\ ah_rep b ∅ /\ kind_of b = (bucket_kind c0 c1, c0, c1).
Proof.
  intros Hm. destruct (num_slots_ok m Hm) as (n & Hn & Hr). eexists. split; [unfold split_half; by rewrite Hn|].
  split; [|done]. apply set_kind_rep, create_rep; lia.
Qed.

(** ** Distributing the keys *)

(** [ml] is the part of [mb] for the characters [c0] to [c1], as far as the keys [d] go. *)
Definition part (c0 c1 : Z) (mb : gmap bytes Z) (d : list bytes) (ml : gmap bytes Z) : Prop :=
  forall s, ml !! s =
    if decide (in_range c0 c1 (bkey c0 c1 s) /\ bkey c0 c1 s ∈ d) then mb !! bkey c0 c1 s else None.

Lemma part_nil c0 c1 mb : part c0 c1 mb [] ∅.
Proof. intros s. rewrite decide_False; [done|]. intros [_ H]. by apply not_elem_of_nil in H. Qed.

Lemma part_insert c0 c1 mb d ml k v : part c0 c1 mb d ml -> in_range c0 c1 k -> mb !! k = Some v ->
  part c0 c1 mb (d ++ [k]) (<[strip c0 c1 k := v]> ml).
Proof.
  intros Hp Hk Hv s. destruct (decide (s = strip c0 c1 k)) as [->|Hne].
  - rewrite lookup_insert_eq, bkey_strip by done. rewrite decide_True; [done|].
    split; [done|]. apply elem_of_app. right. by apply list_elem_of_singleton.
  - rewrite lookup_insert_ne by done. rewrite (Hp s). apply decide_ext.
    rewrite elem_of_app, list_elem_of_singleton. split; [naive_solver|]. intros [H1 [H2|H2]]; [done|].
    destruct Hne. rewrite <- H2. apply (bkey_inj c0 c1). symmetry. apply bkey_strip. by rewrite H2.
Qed.

Lemma part_skip c0 c1 mb d ml k : part c0 c1 mb d ml -> ~ in_range c0 c1 k -> part c0 c1 mb (d ++ [k]) ml.
Proof.
  intros Hp Hk s. rewrite (Hp s). apply decide_ext. rewrite elem_of_app, list_elem_of_singleton.
  split; [naive_solver|]. intros [H1 [H2|H2]]; [done|]. congruence.
Qed.

Lemma size_insert_le (m : gmap bytes Z) k v : (size (<[k := v]> m) <= S (size m))%nat.
Proof. rewrite map_size_insert. destruct (m !! k); cbn; lia. Qed.

(** A half-filled side. *)
Record side (c0 c1 : Z) (mb : gmap bytes Z) (d : list bytes) (b : ahtable) (ml : gmap bytes Z) : Prop := {
  sd_rep : ah_rep b ml;
  sd_kind : kind_of b = (bucket_kind c0 c1, c0, c1);
  sd_part : part c0 c1 mb d ml;
  sd_size : (size ml <= length d)%nat
}.

Lemma put_key_ok c0 c1 mb d b ml k u nd v :
  side c0 c1 mb d b ml -> in_range c0 c1 k -> mb !! k = Some v -> val_load nd u = Ok v ->
  (length k <= MAX_KEY)%nat -> 0 <= v < 2 ^ 64 -> Z.of_nat (length d) < 2 ^ 47 ->
  exists b' ml', put_key b k u nd = Ok b' /\ side c0 c1 mb (d ++ [k]) b' ml'.
Proof.
  intros [Hrep Hkind Hpart Hsize] Hk Hv Hl Hlen Hvr Hd.
  assert (Hsl : (length (strip c0 c1 k) <= MAX_KEY)%nat).
  { unfold strip. case_decide; [rewrite length_drop|]; lia. }
  assert (Hget : bucket_get b k = ahtable_get b (strip c0 c1 k)).
  { unfold bucket_get, strip. injection Hkind as -> _ _. destruct (has_kind c0 c1) as (_ & -> & _).
    case_bool_decide; [by rewrite decide_True|by rewrite decide_False]. }
  destruct (get_rep_ptr b ml (strip c0 c1 k) Hrep Hsl) as (p & b1 & Hg & Hp); [lia|].
  destruct (ah_ptr_store _ _ _ _ v Hp Hvr) as (b2 & Hs & Hrep2). rewrite insert_insert_eq in Hrep2.
  exists b2, (<[strip c0 c1 k := v]> ml). split.
  - unfold put_key. rewrite Hget, Hg. cbn [mbind result_bind fst from_option_fault]. rewrite Hl. done.
  - split; [done| |by apply part_insert|].
    + rewrite <- Hkind, <- (ahtable_get_kind _ _ _ _ Hg). by eapply val_store_kind.
    + rewrite length_app. cbn. pose proof (size_insert_le ml (strip c0 c1 k) v). lia.
Qed.

Lemma side_skip c0 c1 mb d b ml k : side c0 c1 mb d b ml -> ~ in_range c0 c1 k -> side c0 c1 mb (d ++ [k]) b ml.
Proof.
  intros [Hrep Hkind Hpart Hsize] Hk. split; [done|done|by apply part_skip|]. rewrite length_app. cbn. lia.
Qed.

Lemma move_keys_ok c0 j c1 mb nd ptrs d L R ml mr :
  side c0 j mb d L ml -> side (j + 1) c1 mb d R mr -> c0 <= j < c1 ->
  Forall (fun kp => in_range c0 c1 kp.1 /\ exists v, mb !! kp.1 = Some v /\ val_load nd kp.2 = Ok v /\
    (length kp.1 <= MAX_KEY)%nat /\ 0 <= v < 2 ^ 64) ptrs ->
  Z.of_nat (length d + length ptrs) < 2 ^ 47 ->
  exists L' R' ml' mr', foldR (fun a kp => move_key nd j a kp.1 kp.2) (L, R) ptrs = Ok (L', R') /\
    side c0 j mb (d ++ ptrs.*1) L' ml' /\ side (j + 1) c1 mb (d ++ ptrs.*1) R' mr'.
Proof.
  intros HL HR Hj Hp. revert d L R ml mr HL HR.
  induction Hp as [|[k u] ptrs [Hk (v & Hv & Hload & Hlen & Hvr)] _ IH]; intros d L R ml mr HL HR Hd.
  { exists L, R, ml, mr. rewrite app_nil_r. done. }
  cbn [fst snd] in *. cbn [length] in Hd. destruct k as [|c k]; [done|]. cbn in Hk.
  assert (Hstep : exists L1 R1 ml1 mr1, move_key nd j (L, R) (c :: k) u = Ok (L1, R1) /\
    side c0 j mb (d ++ [c :: k]) L1 ml1 /\ side (j + 1) c1 mb (d ++ [c :: k]) R1 mr1).
  { unfold move_key, byte_at. cbn [length]. rewrite bool_decide_eq_true_2 by lia.
    cbn [guard_fault mbind result_bind lookup list_lookup from_option_fault fst snd].
    case_decide as Hc.
    - destruct (put_key_ok c0 j mb d L ml (c :: k) u nd v HL) as (L1 & ml1 & Hput & HL1); try done; [cbn; lia|lia|].
      rewrite Hput. exists L1, R, ml1, mr. split; [done|]. split; [done|]. apply side_skip; [done|]. cbn. lia.
    - destruct (put_key_ok (j + 1) c1 mb d R mr (c :: k) u nd v HR) as (R1 & mr1 & Hput & HR1); try done; [cbn; lia|lia|].
      rewrite Hput. exists L, R1, ml, mr1. split; [done|]. split; [|done]. apply side_skip; [done|]. cbn. lia. }
  destruct Hstep as (L1 & R1 & ml1 & mr1 & Hm & HL1 & HR1).
  destruct (IH (d ++ [c :: k]) L1 R1 ml1 mr1 HL1 HR1) as (L' & R' & ml' & mr' & Hf & HL' & HR');
    [rewrite length_app; cbn; lia|].
  exists L', R', ml', mr'. rewrite (foldR_cons _ _ _ _ (L1, R1)) by done.
  cbn [fmap list_fmap fst]. rewrite (app_assoc d [c :: k] _ : d ++ (c :: k) :: ptrs.*1 = _). done.
Qed.

(** The two halves of a hybrid bucket. *)
Lemma halves_ok t mb c0 c1 :
  ah_rep t mb -> ah_c0 t = c0 -> ah_c1 t = c1 -> 0 <= c0 < c1 -> c1 < 256 -> Z.of_nat (size mb) < 2 ^ 47 ->
  (forall k, is_Some (mb !! k) -> in_range c0 c1 k) ->
  exists j l r lm rm L R ml mr n, choose_split t = Ok (j, lm, rm) /\ c0 <= j < c1 /\
    split_half lm c0 j = Ok l /\ split_half rm (j + 1) c1 = Ok r /\
    iter_fold (iter_fuel t) t (ahtable_unsorted_iter_begin t) (move_key t j) (l, r) 0 = Ok (L, R, n) /\
    ah_rep L ml /\ kind_of L = (bucket_kind c0 j, c0, j) /\
    ah_rep R mr /\ kind_of R = (bucket_kind (j + 1) c1, j + 1, c1) /\
    (forall s, ml !! s = if decide (in_range c0 j (bkey c0 j s)) then mb !! bkey c0 j s else None) /\
    (forall s, mr !! s = if decide (in_range (j + 1) c1 (bkey (j + 1) c1 s)) then mb !! bkey (j + 1) c1 s else None).
Proof.
  intros Hrep H0 H1 Hc Hc1 Hsize Hkeys. destruct (iter_rep t mb Hrep) as (ptrs & Hperm & Hptrs & Hfold).
  assert (Hall : forall k, is_Some (mb !! k) -> k ∈ ptrs.*1).
  { intros k [v Hv]. rewrite Hperm. apply list_elem_of_fmap. exists (k, v). split; [done|]. by apply elem_of_map_to_list. }
  destruct (count_ok ptrs (replicate NODE_CHILDS 0)) as (cs & Hcount & Hlen & Hcs).
  { apply length_replicate. } { by apply Forall_replicate. }
  { apply Forall_forall. intros kp Hkp. destruct (Hptrs kp Hkp) as (v & Hv & _). unfold byte_key.
    pose proof (Hkeys kp.1 (ex_intro _ v Hv)). destruct kp.1; [done|]. cbn in *. lia. }
  destruct (lookup_lt_is_Some_2 cs (Z.to_nat c0)) as [x Hx]; [rewrite Hlen; unfold NODE_CHILDS, NODE_MAXCHAR; lia|].
  destruct (split_point_ok (S NODE_CHILDS) cs c1 (u32 (ahtable_size t)) c0 x (u32 (u32 (ahtable_size t) - x)))
    as (j & lm & rm & Hsp & Hj & Hlm & Hrm); [done|lia|lia| |apply u32_is|unfold NODE_CHILDS, NODE_MAXCHAR; lia|].
  { rewrite Forall_forall in Hcs. apply Hcs. by eapply list_elem_of_lookup_2. }
  destruct (split_half_ok lm c0 j Hlm) as (l & Hl & Hlrep & Hlk).
  destruct (split_half_ok rm (j + 1) c1 Hrm) as (r & Hr & Hrrep & Hrk).
  assert (Hlp : length ptrs = size mb).
  { rewrite <- (length_fmap fst), Hperm, length_fmap. apply length_map_to_list. }
  destruct (move_keys_ok c0 j c1 mb t ptrs [] l r ∅ ∅) as (L & R & ml & mr & Hmv & HL & HR).
  { split; [done|done|apply part_nil|]. by rewrite map_size_empty. }
  { split; [done|done|apply part_nil|]. by rewrite map_size_empty. }
  { done. }
  { apply Forall_forall. intros kp Hkp. destruct (Hptrs kp Hkp) as (v & Hv & Hrest). split; [by apply Hkeys|]. eauto. }
  { cbn. rewrite Hlp. done. }
  exists j, l, r, lm, rm, L, R, ml, mr, (Z.of_nat (size mb)).
  assert (Hch : choose_split t = Ok (j, lm, rm)).
  { unfold choose_split. rewrite Hfold, Hcount. cbn [mbind result_bind fst]. rewrite H0, H1, Hx. done. }
  split; [done|]. split; [done|]. split; [done|]. split; [done|].
  split; [by rewrite Hfold, Hmv|].
  assert (Hpart : forall a b mx s, part a b mb ptrs.*1 mx ->
    mx !! s = if decide (in_range a b (bkey a b s)) then mb !! bkey a b s else None).
  { intros a b mx s ->. destruct (decide (in_range a b (bkey a b s))) as [Hin|Hout].
    - destruct (mb !! bkey a b s) as [v|] eqn:Hv; [|by case_decide]. rewrite decide_True; [done|].
      split; [done|]. apply Hall. eauto.
    - rewrite decide_False by (by intros [? _]). done. }
  destruct HL as [HL1 HL2 HL3 _], HR as [HR1 HR2 HR3 _]. cbn [app] in *.
  repeat (split; [done|]). split; intros s; by apply Hpart.
Qed.

(** ** The trie after a split *)
Section split.
Context {T : hattrie} {P : gmap loc bytes} {B : gmap loc (loc * Z * Z)} {m : gmap bytes Z}.
Context (Hinv : ht_inv T P B m).
Context (lp nd : loc) (p : bytes) (c0 c1 : Z) (t : ahtable) (mb : gmap bytes Z) (xs : list loc).
Context (HP : P !! lp = Some p) (HB : B !! nd = Some (lp, c0, c1)).
Context (Hb : bucket_ok (ht_nodes T) m nd lp p c0 c1 t mb).
Context (Hxs : ht_nodes T !! lp = Some (TNode xs)) (Hlen : length xs = NODE_CHILDS).

(** Another bucket of the store, untouched. *)
Lemma other_bucket nodes' b l a z :
  B !! b = Some (l, a, z) -> b <> nd ->
  (forall x q, P !! x = Some q -> x <> lp -> nodes' !! x = ht_nodes T !! x) ->
  (forall y c, nodes' !! lp = Some (TNode y) -> 0 <= c -> ~ (c0 <= c <= c1) -> y !! Z.to_nat c = xs !! Z.to_nat c) ->
  nodes' !! b = ht_nodes T !! b ->
  exists q t' mb', P !! l = Some q /\ bucket_ok nodes' m b l q a z t' mb'.
Proof.
  intros HB' Hne Hother Hlp Hbn. destruct (hti_bucket _ _ _ _ Hinv _ _ _ _ HB') as (q & t' & mb' & Hq & [H1 H2 H3 H4 H5 H6]).
  exists q, t', mb'. split; [done|]. split; try done; [|by rewrite Hbn].
  intros y c Hy Hc. destruct (decide (l = lp)) as [->|Hl].
  - rewrite (Hlp y c Hy); [by apply H2|lia|]. intros Hin.
    pose proof (H2 xs c Hxs Hc) as Hx1. pose proof (bo_links _ _ _ _ _ _ _ _ _ Hb xs c Hxs Hin). congruence.
  - apply H2; [|done]. by rewrite <- (Hother l q Hq Hl).
Qed.

Section hybrid.
Context (j : Z) (ll rl : loc) (L R : ahtable) (ml mr : gmap bytes Z) (xs' : list loc) (nodes' : gmap loc hnode).
Context (Hj : c0 <= j < c1).
Context (HLrep : ah_rep L ml) (HLk : kind_of L = (bucket_kind c0 j, c0, j)).
Context (HRrep : ah_rep R mr) (HRk : kind_of R = (bucket_kind (j + 1) c1, j + 1, c1)).
Context (Hml : forall s, ml !! s = if decide (in_range c0 j (bkey c0 j s)) then mb !! bkey c0 j s else None).
Context (Hmr : forall s, mr !! s =
  if decide (in_range (j + 1) c1 (bkey (j + 1) c1 s)) then mb !! bkey (j + 1) c1 s else None).
Context (Hll : ht_nodes T !! ll = None) (Hrl : ht_nodes T !! rl = None) (Hlr : ll <> rl).
Context (Hnlp : nodes' !! lp = Some (TNode xs')) (Hlen' : length xs' = NODE_CHILDS).
Context (Hxs' : forall c, 0 <= c < 256 -> xs' !! Z.to_nat c =
  if decide (c0 <= c <= j) then Some ll else if decide (j + 1 <= c <= c1) then Some rl else xs !! Z.to_nat c).
Context (Hnll : nodes' !! ll = Some (NBucket L)) (Hnrl : nodes' !! rl = Some (NBucket R)) (Hnnd : nodes' !! nd = None).
Context (Hn : forall x, x <> lp -> x <> ll -> x <> rl -> x <> nd -> nodes' !! x = ht_nodes T !! x).

Definition split_owners : gmap loc (loc * Z * Z) := <[ll := (lp, c0, j)]> (<[rl := (lp, j + 1, c1)]> (delete nd B)).

Lemma fresh_owner x : ht_nodes T !! x = None -> B !! x = None /\ P !! x = None.
Proof.
  intros Hx. split.
  - destruct (B !! x) as [[[l a] z]|] eqn:HBx; [|done].
    destruct (hti_bucket _ _ _ _ Hinv _ _ _ _ HBx) as (q & t' & mb' & _ & Hb').
    pose proof (bo_node _ _ _ _ _ _ _ _ _ Hb'). congruence.
  - destruct (P !! x) as [q|] eqn:HPx; [|done].
    destruct (hti_trie _ _ _ _ Hinv _ _ HPx) as (_ & y & Hy & _). congruence.
Qed.

Lemma nd_facts : lp <> nd /\ lp <> ll /\ lp <> rl /\ nd <> ll /\ nd <> rl.
Proof.
  pose proof (bo_node _ _ _ _ _ _ _ _ _ Hb) as Hnd. repeat split; intros ->; congruence.
Qed.

Lemma tnode_old x y : x <> lp -> nodes' !! x = Some (TNode y) -> ht_nodes T !! x = Some (TNode y).
Proof.
  intros Hne Hx. rewrite Hn in Hx; [done|done| | |]; intros ->; congruence.
Qed.

Lemma tnode_new x q y : P !! x = Some q -> x <> lp -> ht_nodes T !! x = Some (TNode y) -> nodes' !! x = Some (TNode y).
Proof.
  intros Hx Hne Hy. rewrite Hn; [done|done| | |]; intros ->; try congruence.
  exact (trie_not_bucket Hinv _ _ _ Hx HB).
Qed.

Lemma owners_cases b o : split_owners !! b = Some o ->
  (b = ll /\ o = (lp, c0, j)) \/ (b = rl /\ o = (lp, j + 1, c1)) \/ (b <> ll /\ b <> rl /\ b <> nd /\ B !! b = Some o).
Proof.
  unfold split_owners. destruct (decide (b = ll)) as [->|H1]; [rewrite lookup_insert_eq; intros [= <-]; by left|].
  rewrite lookup_insert_ne by done.
  destruct (decide (b = rl)) as [->|H2]; [rewrite lookup_insert_eq; intros [= <-]; right; by left|].
  rewrite lookup_insert_ne by done. intros [H3 H4]%lookup_delete_Some. right. right. done.
Qed.

Lemma half_map (a z : Z) (mx : gmap bytes Z) (s : bytes) : c0 <> c1 -> c0 <= a -> z <= c1 ->
  (mx !! s = if decide (in_range a z (bkey a z s)) then mb !! bkey a z s else None) ->
  mx !! s = if decide (in_range a z (bkey a z s)) then m !! (p ++ bkey a z s) else (None : option Z).
Proof.
  intros Hc Ha Hz ->. case_decide as Hr; [|done].
  pose proof (bo_map _ _ _ _ _ _ _ _ _ Hb (bkey a z s)) as Hm.
  assert (Hbk : bkey c0 c1 (bkey a z s) = bkey a z s) by (unfold bkey at 1; by rewrite decide_False).
  rewrite Hbk in Hm. rewrite Hm. rewrite decide_True; [done|].
  destruct (bkey a z s); [done|]. cbn in *. lia.
Qed.

Lemma inv_hybrid : ht_inv (HT nodes' (ht_root T) (ht_m T)) P split_owners m.
Proof.
  pose proof (bo_range _ _ _ _ _ _ _ _ _ Hb) as Hr. destruct nd_facts as (Hf1 & Hf2 & Hf3 & Hf4 & Hf5).
  destruct (fresh_owner _ Hll) as [HBll HPll]. destruct (fresh_owner _ Hrl) as [HBrl HPrl].
  split; cbn [ht_nodes ht_root ht_m].
  - apply (hti_root _ _ _ _ Hinv).
  - intros x q Hx. destruct (hti_trie _ _ _ _ Hinv _ _ Hx) as (Hz & y & Hy & Hly). split; [done|].
    destruct (decide (x = lp)) as [->|Hne]; [by exists xs'|]. exists y. split; [by eapply tnode_new|done].
  - intros x q y c z Hx Hy Hz Hc. destruct (decide (x = lp)) as [->|Hne].
    + rewrite Hnlp in Hy. injection Hy as <-. assert (Hc2 : c < 256).
      { apply lookup_lt_Some in Hz. rewrite Hlen' in Hz. unfold NODE_CHILDS, NODE_MAXCHAR in Hz. lia. }
      rewrite Hxs' in Hz by lia. unfold split_owners. repeat case_decide; simplify_eq.
      * right. exists c0, j. by rewrite lookup_insert_eq.
      * right. exists (j + 1), c1. rewrite lookup_insert_ne by done. by rewrite lookup_insert_eq.
      * destruct (hti_child _ _ _ _ Hinv _ _ _ _ _ HP Hxs Hz Hc) as [Ht|(a & b & HBz & Hab)]; [by left|].
        right. exists a, b. split; [|done].
        rewrite !lookup_insert_ne by congruence. rewrite lookup_delete_ne; [done|].
        intros ->. rewrite HB in HBz. injection HBz as <- <-. lia.
    + apply tnode_old in Hy; [|done].
      destruct (hti_child _ _ _ _ Hinv _ _ _ _ _ Hx Hy Hz Hc) as [Ht|(a & b & HBz & Hab)]; [by left|].
      right. exists a, b. split; [|done]. unfold split_owners.
      rewrite !lookup_insert_ne by congruence. rewrite lookup_delete_ne; [done|congruence].
  - intros x q c Hx. destruct (hti_parent _ _ _ _ Hinv _ _ _ Hx) as (l & y & Hl & Hy & Hyx & Hc).
    destruct (decide (l = lp)) as [->|Hne].
    + exists lp, xs'. split; [done|]. split; [done|]. split; [|done]. rewrite Hxs in Hy. injection Hy as <-.
      assert (Hc2 : c < 256).
      { apply lookup_lt_Some in Hyx. rewrite Hlen in Hyx. unfold NODE_CHILDS, NODE_MAXCHAR in Hyx. lia. }
      rewrite Hxs' by lia. assert (Hcr : ~ (c0 <= c <= c1)).
      { intros Hin. rewrite (bo_links _ _ _ _ _ _ _ _ _ Hb xs c Hxs Hin) in Hyx. injection Hyx as <-.
        exact (trie_not_bucket Hinv _ _ _ Hx HB). }
      rewrite !decide_False by lia. done.
    + exists l, y. split; [done|]. split; [by eapply tnode_new|done].
  - intros b l a z [[-> [= -> -> ->]]|[[-> [= -> -> ->]]|(Hb1 & Hb2 & Hb3 & HBb)]]%owners_cases.
    + exists p, L, ml. split; [done|]. injection HLk as HLk1 HLk2 HLk3. split; try done; [lia| |].
      * intros y c Hy Hc. rewrite Hnlp in Hy. injection Hy as <-. rewrite Hxs' by lia. by rewrite decide_True.
      * intros s. apply half_map; try lia. apply Hml.
    + exists p, R, mr. split; [done|]. injection HRk as HRk1 HRk2 HRk3. split; try done; [lia| |].
      * intros y c Hy Hc. rewrite Hnlp in Hy. injection Hy as <-. rewrite Hxs' by lia.
        rewrite decide_False by lia. by rewrite decide_True.
      * intros s. apply half_map; try lia. apply Hmr.
    + eapply other_bucket; [done|done| | |].
      * intros x q Hx Hne. apply Hn; [done| | |]; intros ->; try congruence. exact (trie_not_bucket Hinv _ _ _ Hx HB).
      * intros y c Hy Hc Hnc. rewrite Hnlp in Hy. injection Hy as <-.
        destruct (decide (c < 256)) as [Hc2|Hc2].
        -- rewrite Hxs' by lia. rewrite !decide_False by lia. done.
        -- rewrite !lookup_ge_None_2; [done|rewrite Hlen|rewrite Hlen']; unfold NODE_CHILDS, NODE_MAXCHAR; lia.
      * apply Hn; [|done..]. intros ->. exact (trie_not_bucket Hinv _ _ _ HP HBb).
  - apply (hti_keys _ _ _ _ Hinv).
  - apply (hti_m _ _ _ _ Hinv).
Qed.
End hybrid.

Section pure.
Context (tn : loc) (nodes' : gmap loc hnode).
Context (Hc01 : c0 = c1) (Hc0 : c0 <> 0).
Context (Htn : ht_nodes T !! tn = None).
Context (Hnlp : nodes' !! lp = Some (TNode (<[Z.to_nat c0 := tn]> xs))).
Context (Hntn : nodes' !! tn = Some (TNode (replicate NODE_CHILDS nd))).
Context (Hnnd : nodes' !! nd = Some (NBucket (set_kind t NODE_TYPE_HYBRID_BUCKET 0 (Z.of_nat NODE_MAXCHAR)))).
Context (Hn : forall x, x <> lp -> x <> tn -> x <> nd -> nodes' !! x = ht_nodes T !! x).

Definition pure_paths : gmap loc bytes := <[tn := p ++ [c0]]> P.
Definition pure_owners : gmap loc (loc * Z * Z) := <[nd := (tn, 0, 255)]> B.

Lemma pure_path : 0 ∉ p ++ [c0].
Proof using Hinv HP Hc0.
  destruct (hti_trie _ _ _ _ Hinv _ _ HP) as [Hz _]. rewrite elem_of_app, list_elem_of_singleton.
  intros [H|H]; [by apply Hz|by apply Hc0].
Qed.

Lemma pure_keys s : mb !! s = m !! ((p ++ [c0]) ++ s) /\ (is_Some (mb !! s) -> in_range 0 255 s).
Proof using Hinv HP Hb Hc01 Hc0.
  clear -Hinv HP Hb Hc01 Hc0.
  pose proof (bo_map _ _ _ _ _ _ _ _ _ Hb s) as Hm.
  assert (Hbk : bkey c0 c1 s = c0 :: s) by (unfold bkey; by rewrite decide_True). rewrite Hbk in Hm.
  rewrite decide_True in Hm by (cbn; lia). rewrite <- app_assoc. split; [done|].
  rewrite Hm. intros Hs. destruct (hti_keys _ _ _ _ Hinv _ Hs) as [Hk _].
  rewrite (app_assoc p [c0] s : p ++ c0 :: s = _) in Hk.
  destruct (cstr_key_split _ _ Hk pure_path) as (c & s' & -> & Hc & _). cbn. lia.
Qed.

Lemma pure_nil : mb !! [] = None.
Proof using Hinv HP Hb Hc01 Hc0.
  destruct (mb !! []) as [v|] eqn:Hv; [|done]. destruct (pure_keys []) as [_ H]. by destruct H; eauto.
Qed.

Lemma pure_facts : lp <> nd /\ lp <> tn /\ nd <> tn.
Proof.
  pose proof (bo_node _ _ _ _ _ _ _ _ _ Hb) as Hnd. repeat split; intros ->; congruence.
Qed.

Lemma pure_tnode x y : x <> lp -> x <> tn -> nodes' !! x = Some (TNode y) <-> ht_nodes T !! x = Some (TNode y).
Proof.
  intros H1 H2. destruct (decide (x = nd)) as [->|H3]; [|by rewrite Hn].
  rewrite Hnnd, (bo_node _ _ _ _ _ _ _ _ _ Hb). done.
Qed.

Lemma inv_pure : ht_inv (HT nodes' (ht_root T) (ht_m T)) pure_paths pure_owners m.
Proof.
  pose proof (bo_range _ _ _ _ _ _ _ _ _ Hb) as Hr. destruct pure_facts as (Hf1 & Hf2 & Hf3).
  destruct (fresh_owner _ Htn) as [HBtn HPtn].
  assert (HPne : forall x q, P !! x = Some q -> x <> tn /\ x <> nd).
  { intros x q Hx. split; intros ->; [congruence|]. exact (trie_not_bucket Hinv _ _ _ Hx HB). }
  assert (HPn : forall x q, P !! x = Some q -> pure_paths !! x = Some q).
  { intros x q Hx. destruct (HPne x q Hx) as [H1 _]. unfold pure_paths. by rewrite lookup_insert_ne. }
  assert (Hcb : forall c z q, P !! z = Some q \/ (exists a b, B !! z = Some (lp, a, b) /\ a <= c <= b) -> z <> tn).
  { intros c z q [H|(a & b & H & _)] ->; congruence. }
  split; cbn [ht_nodes ht_root ht_m].
  - intros x. unfold pure_paths. destruct (decide (x = tn)) as [->|Hne].
    + rewrite lookup_insert_eq. split; [intros [= H]; by destruct p|].
      intros ->. pose proof (root_path Hinv). congruence.
    + rewrite lookup_insert_ne by done. apply (hti_root _ _ _ _ Hinv).
  - intros x q. unfold pure_paths. destruct (decide (x = tn)) as [->|Hne].
    + rewrite lookup_insert_eq. intros [= <-]. split; [apply pure_path|].
      eexists. split; [done|]. apply length_replicate.
    + rewrite lookup_insert_ne by done. intros Hx. destruct (hti_trie _ _ _ _ Hinv _ _ Hx) as (Hz & y & Hy & Hly).
      split; [done|]. destruct (decide (x = lp)) as [->|Hl].
      * eexists. split; [done|]. by rewrite length_insert.
      * exists y. by rewrite pure_tnode.
  - intros x q y c z. unfold pure_paths, pure_owners. destruct (decide (x = tn)) as [->|Hne].
    + rewrite lookup_insert_eq, Hntn. intros [= <-] Hy Hz Hc. assert (y = replicate NODE_CHILDS nd) as -> by congruence.
      apply lookup_replicate in Hz as [-> Hlt]. right. exists 0, 255.
      rewrite lookup_insert_eq. split; [done|]. unfold NODE_CHILDS, NODE_MAXCHAR in Hlt. lia.
    + rewrite lookup_insert_ne by done. intros Hx Hy Hz Hc. destruct (decide (x = lp)) as [->|Hl].
      * rewrite Hnlp in Hy. injection Hy as <-. rewrite HP in Hx. injection Hx as <-.
        destruct (decide (c = c0)) as [->|Hcc].
        -- rewrite list_lookup_insert_eq in Hz by (rewrite Hlen; unfold NODE_CHILDS, NODE_MAXCHAR; lia).
           injection Hz as <-. left. by rewrite lookup_insert_eq.
        -- rewrite list_lookup_insert_ne in Hz by lia.
           destruct (hti_child _ _ _ _ Hinv _ _ _ _ _ HP Hxs Hz Hc) as [H|(a & b & HBz & Hab)].
           ++ left. rewrite lookup_insert_ne by congruence. done.
           ++ right. exists a, b. split; [|done]. rewrite lookup_insert_ne; [done|].
              intros <-. rewrite HB in HBz. injection HBz as <- <-. lia.
      * apply pure_tnode in Hy; [|done..].
        destruct (hti_child _ _ _ _ Hinv _ _ _ _ _ Hx Hy Hz Hc) as [H|(a & b & HBz & Hab)].
        -- left. rewrite lookup_insert_ne by congruence. done.
        -- right. exists a, b. split; [|done]. rewrite lookup_insert_ne; [done|congruence].
  - intros x q c. unfold pure_paths. destruct (decide (x = tn)) as [->|Hne].
    + rewrite lookup_insert_eq. intros [= [<- <-]%app_inj_tail]. exists lp, (<[Z.to_nat c0 := tn]> xs).
      rewrite lookup_insert_ne by done. split; [done|]. split; [done|].
      rewrite list_lookup_insert_eq by (rewrite Hlen; unfold NODE_CHILDS, NODE_MAXCHAR; lia). split; [done|lia].
    + rewrite lookup_insert_ne by done. intros Hx.
      destruct (hti_parent _ _ _ _ Hinv _ _ _ Hx) as (l & y & Hl & Hy & Hyx & Hc).
      destruct (HPne _ _ Hl) as [Hlt _]. destruct (decide (l = lp)) as [->|Hll].
      * exists lp, (<[Z.to_nat c0 := tn]> xs). rewrite lookup_insert_ne by done.
        split; [done|]. split; [done|]. split; [|done]. rewrite Hxs in Hy. injection Hy as <-.
        rewrite list_lookup_insert_ne; [done|]. intros Heq%(f_equal Z.of_nat). rewrite !Z2Nat.id in Heq by lia. subst c.
        rewrite (bo_links _ _ _ _ _ _ _ _ _ Hb xs c0 Hxs ltac:(lia)) in Hyx. injection Hyx as <-.
        exact (trie_not_bucket Hinv _ _ _ Hx HB).
      * exists l, y. rewrite lookup_insert_ne by done. split; [done|]. by rewrite pure_tnode.
  - intros b l a z. unfold pure_owners. destruct (decide (b = nd)) as [->|Hne].
    + rewrite lookup_insert_eq. intros [= <- <- <-]. eexists (p ++ [c0]), _, mb.
      split; [unfold pure_paths; by rewrite lookup_insert_eq|]. split; [lia| |exact Hnnd|done| |].
      * intros y c. rewrite Hntn. intros Hy Hc. assert (y = replicate NODE_CHILDS nd) as -> by congruence. apply lookup_replicate. split; [done|]. unfold NODE_CHILDS, NODE_MAXCHAR. lia.
      * apply set_kind_rep, (bo_rep _ _ _ _ _ _ _ _ _ Hb).
      * intros s. change (bkey 0 255 s) with s. destruct (pure_keys s) as [Hs Hin]. rewrite <- Hs.
        case_decide as Hd; [done|]. destruct (mb !! s) as [v|]; [|done]. destruct Hd. by apply Hin.
    + rewrite lookup_insert_ne by done. intros HBb.
      assert (Hbt : b <> tn) by congruence.
      destruct (other_bucket nodes' b l a z HBb Hne) as (q & t' & mb' & Hq & Hbk).
      * intros x y Hx Hxl. destruct (HPne x y Hx). by apply Hn.
      * intros y c Hy Hc Hnc. rewrite Hnlp in Hy. injection Hy as <-. rewrite list_lookup_insert_ne; [done|lia].
      * apply Hn; [|done..]. intros ->. exact (trie_not_bucket Hinv _ _ _ HP HBb).
      * exists q, t', mb'. split; [by apply HPn|done].
  - apply (hti_keys _ _ _ _ Hinv).
  - apply (hti_m _ _ _ _ Hinv).
Qed.
End pure.
End split.

(** ** Running a split *)
Lemma set_range_lookup a b x xs i : (i < length xs)%nat ->
  set_range a b x xs !! i = if decide (a <= i <= b)%nat then Some x else xs !! i.
Proof.
  intros Hi. unfold set_range. rewrite list_lookup_imap.
  destruct (lookup_lt_is_Some_2 xs i Hi) as [y Hy]. rewrite Hy. cbn. by case_decide.
Qed.

Lemma set_range_length a b x xs : length (set_range a b x xs) = length xs.
Proof. apply length_imap. Qed.

Lemma node_alloc_run n (T : hattrie) :
  let l := fresh (dom (ht_nodes T)) in
  node_alloc n T = Ok (l, HT (<[l := n]> (ht_nodes T)) (ht_root T) (ht_m T)) /\ ht_nodes T !! l = None.
Proof. intros l. split; [done|]. apply not_elem_of_dom. apply is_fresh. Qed.

Lemma node_store_run (T : hattrie) l n n' : ht_nodes T !! l = Some n' ->
  node_store l n T = Ok (tt, HT (<[l := n]> (ht_nodes T)) (ht_root T) (ht_m T)).
Proof. intros H. unfold node_store. by rewrite H. Qed.

Lemma node_free_run (T : hattrie) l n' : ht_nodes T !! l = Some n' ->
  node_free l T = Ok (tt, HT (delete l (ht_nodes T)) (ht_root T) (ht_m T)).
Proof. intros H. unfold node_free. by rewrite H. Qed.

Lemma trie_load_run (T : hattrie) l f v xs : ht_nodes T !! l = Some (NTrie f v xs) -> trie_load l T = Ok ((f, v, xs), T).
Proof.
  intros H. assert (Hl : node_load l T = Ok (NTrie f v xs, T)) by (unfold node_load; by rewrite H).
  unfold trie_load. by run_step Hl.
Qed.

Lemma set_children_run (T : hattrie) l f v xs g : ht_nodes T !! l = Some (NTrie f v xs) ->
  set_children l g T = Ok (tt, HT (<[l := NTrie f v (g xs)]> (ht_nodes T)) (ht_root T) (ht_m T)).
Proof.
  intros H. unfold set_children. run_step (trie_load_run T l f v xs H). cbn [fst snd].
  by eapply node_store_run.
Qed.

(** What the bucket of a key has left to decide. *)
Definition todo (s : bytes) (c0 c1 : Z) : Z := 257 * Z.of_nat (S (length s)) + (c1 - c0).

(** After a split of the bucket of a key the key has less to decide. *)
Definition split_done (P : gmap loc bytes) (B : gmap loc (loc * Z * Z)) (p : bytes) (c0 c1 : Z) : Prop :=
  forall c s, c0 <= c <= c1 -> cstr_key (p ++ c :: s) ->
    exists nd' lp' p' c' s' a z, found (P := P) (B := B) (p ++ c :: s) lp' p' c' s' nd' a z /\
      todo s' a z < todo s c0 c1.

Section run.
Context {T : hattrie} {P : gmap loc bytes} {B : gmap loc (loc * Z * Z)} {m : gmap bytes Z}.
Context (Hinv : ht_inv T P B m).
Context (lp nd : loc) (p : bytes) (c0 c1 : Z) (t : ahtable) (mb : gmap bytes Z).
Context (HP : P !! lp = Some p) (HB : B !! nd = Some (lp, c0, c1)).
Context (Hb : bucket_ok (ht_nodes T) m nd lp p c0 c1 t mb).
Context (Hsize : Z.of_nat (size m) < 2 ^ 47).

Lemma split_hybrid_run : c0 <> c1 ->
  exists T' B', split_hybrid lp nd T = Ok (tt, T') /\ ht_inv T' P B' m /\ split_done P B' p c0 c1.
Proof.
  intros Hc. destruct (hti_trie _ _ _ _ Hinv _ _ HP) as (_ & xs & Hxs & Hlen).
  pose proof (bucket_size _ _ _ _ _ _ _ _ _ Hb) as Hmb. destruct Hb as [Hr Hlinks Hnd Hkind Hrep Hmap].
  destruct Hkind as (Hflag & H0 & H1).
  destruct (halves_ok t mb c0 c1 Hrep H0 H1) as (j & l & r & lm & rm & L & R & ml & mr & n & Hch & Hj & Hl & Hrr & Hmv & HLr & HLk & HRr & HRk & Hml & Hmr).
  { lia. } { lia. } { lia. }
  { intros k [v Hk]. rewrite Hmap in Hk. case_decide as Hin; [|done]. unfold bkey in Hin. by rewrite decide_False in Hin. }
  pose proof (bucket_load_ok T m nd lp p c0 c1 t mb Hb) as Hload.
  destruct (node_alloc_run (NBucket l) T) as [Ha1 Hf1]. set (ll := fresh (dom (ht_nodes T))) in *.
  set (T1 := HT (<[ll := NBucket l]> (ht_nodes T)) (ht_root T) (ht_m T)) in *.
  destruct (node_alloc_run (NBucket r) T1) as [Ha2 Hf2]. set (rl := fresh (dom (ht_nodes T1))) in *.
  assert (Hlr : ll <> rl) by (intros Heq; cbn in Hf2; rewrite <- Heq, lookup_insert_eq in Hf2; done).
  assert (Hrl : ht_nodes T !! rl = None) by (cbn in Hf2; by rewrite lookup_insert_ne in Hf2).
  assert (Hne : lp <> ll /\ lp <> rl /\ nd <> ll /\ nd <> rl /\ lp <> nd) by (repeat split; intros Heq; congruence).
  destruct Hne as (Hn1 & Hn2 & Hn3 & Hn4 & Hn5).
  clearbody ll rl.
  set (xs' := set_range (Z.to_nat (j + 1)) (Z.to_nat c1) rl (set_range (Z.to_nat c0) (Z.to_nat j) ll xs)).
  set (nodes' := delete nd (<[rl := NBucket R]> (<[ll := NBucket L]> (<[lp := TNode xs']>
                   (<[rl := NBucket r]> (<[ll := NBucket l]> (ht_nodes T))))))).
  exists (HT nodes' (ht_root T) (ht_m T)), (split_owners (B := B) lp nd c0 c1 j ll rl).
  split; [|split].
  - unfold split_hybrid. run_step Hload. run_step (liftS_ok _ T _ Hch). rewrite H0, H1.
    run_step (liftS_ok _ T _ Hl). run_step (liftS_ok _ T _ Hrr). run_step Ha1. run_step Ha2.
    run_step (set_children_run (HT (<[rl := NBucket r]> (ht_nodes T1)) (ht_root T1) (ht_m T1)) lp NODE_TYPE_TRIE 0 xs
      (fun xs => set_range (Z.to_nat (j + 1)) (Z.to_nat c1) rl (set_range (Z.to_nat c0) (Z.to_nat j) ll xs))
      ltac:(cbn; by rewrite !lookup_insert_ne)). cbn [ht_nodes ht_root ht_m T1]. fold xs'.
    run_step (liftS_ok _ (HT (<[lp := TNode xs']> (<[rl := NBucket r]> (<[ll := NBucket l]> (ht_nodes T)))) (ht_root T) (ht_m T)) _ Hmv).
    cbn [fst snd].
    erewrite st_bind_run; [|eapply node_store_run; cbn; rewrite lookup_insert_ne by done; rewrite lookup_insert_ne by done; apply lookup_insert_eq].
    cbn [ht_nodes ht_root ht_m].
    erewrite st_bind_run; [|eapply node_store_run; cbn; rewrite lookup_insert_ne by done; rewrite lookup_insert_ne by done; apply lookup_insert_eq].
    cbn [ht_nodes ht_root ht_m].
    erewrite node_free_run; [done|]. cbn. rewrite !lookup_insert_ne by done. exact Hnd.
  - apply (inv_hybrid Hinv lp nd p c0 c1 t mb xs HP HB Hb Hxs Hlen j ll rl L R ml mr xs' nodes'); try done.
    + unfold nodes'. rewrite lookup_delete_ne by done. rewrite 2!lookup_insert_ne by done. by rewrite lookup_insert_eq.
    + unfold xs'. by rewrite !set_range_length.
    + intros c Hcr. assert (Hcl : (Z.to_nat c < length xs)%nat) by (rewrite Hlen; unfold NODE_CHILDS, NODE_MAXCHAR; lia).
      unfold xs'. rewrite set_range_lookup by (by rewrite set_range_length). rewrite set_range_lookup by done.
      repeat case_decide; done || lia.
    + unfold nodes'. rewrite lookup_delete_ne by done. rewrite lookup_insert_ne by done. by rewrite lookup_insert_eq.
    + unfold nodes'. rewrite lookup_delete_ne by done. by rewrite lookup_insert_eq.
    + unfold nodes'. by rewrite lookup_delete_eq.
    + intros x Hx1 Hx2 Hx3 Hx4. unfold nodes'. rewrite lookup_delete_ne by done. by rewrite !lookup_insert_ne.
  - intros c s Hcr _. destruct (decide (c <= j)) as [Hcj|Hcj].
    + exists ll, lp, p, c, s, c0, j. split; [|unfold todo; lia]. split; [done|done| |lia].
      unfold split_owners. by rewrite lookup_insert_eq.
    + exists rl, lp, p, c, s, (j + 1), c1. split; [|unfold todo; lia]. split; [done|done| |lia].
      unfold split_owners. rewrite lookup_insert_ne by done. by rewrite lookup_insert_eq.
Qed.

(** The bucket of the terminating NUL has at most one key. *)
Lemma nul_bucket_small : c0 = c1 -> c0 = 0 -> (size mb <= 1)%nat.
Proof.
  intros H01 H0. destruct (hti_trie _ _ _ _ Hinv _ _ HP) as [Hz _].
  assert (Hsub : forall s v, mb !! s = Some v -> s = []).
  { intros s v Hs. rewrite (bo_map _ _ _ _ _ _ _ _ _ Hb) in Hs. case_decide; [|done].
    destruct (hti_keys _ _ _ _ Hinv _ (ex_intro _ v Hs)) as [Hk _].
    destruct (cstr_key_split _ _ Hk Hz) as (c & s' & Heq & _ & Hc).
    unfold bkey in Heq. rewrite decide_True in Heq by done. injection Heq as <- <-. by apply Hc. }
  assert (Hle : mb ⊆ {[ [] := default 0 (mb !! []) ]}).
  { apply map_subseteq_spec. intros s v Hs. pose proof (Hsub s v Hs) as ->. rewrite Hs. apply lookup_singleton_eq. }
  apply map_subseteq_size in Hle. by rewrite map_size_singleton in Hle.
Qed.

Lemma split_pure_run : c0 = c1 -> c0 <> 0 ->
  exists T' P' B', split_pure lp nd T = Ok (tt, T') /\ ht_inv T' P' B' m /\ P' !! lp = Some p /\ split_done P' B' p c0 c1.
Proof.
  intros H01 H0. destruct (hti_trie _ _ _ _ Hinv _ _ HP) as (_ & xs & Hxs & Hlen).
  pose proof (bo_kind _ _ _ _ _ _ _ _ _ Hb) as (Hflag & Hc0 & Hc1).
  pose proof (bo_node _ _ _ _ _ _ _ _ _ Hb) as Hnd.
  pose proof (bucket_load_ok T m nd lp p c0 c1 t mb Hb) as Hload.
  destruct (node_alloc_run (TNode (replicate NODE_CHILDS nd)) T) as [Ha1 Hf1].
  set (tn := fresh (dom (ht_nodes T))) in *.
  assert (Hne : lp <> tn /\ nd <> tn /\ lp <> nd) by (repeat split; intros Heq; congruence).
  destruct Hne as (Hn1 & Hn2 & Hn3). clearbody tn.
  set (nodes1 := <[lp := TNode (<[Z.to_nat c0 := tn]> xs)]> (<[tn := TNode (replicate NODE_CHILDS nd)]> (ht_nodes T))).
  set (nodes' := <[nd := NBucket (set_kind t NODE_TYPE_HYBRID_BUCKET 0 (Z.of_nat NODE_MAXCHAR))]> nodes1).
  exists (HT nodes' (ht_root T) (ht_m T)), (pure_paths (P := P) p c0 tn), (pure_owners (B := B) nd tn).
  assert (Hinv' : ht_inv (HT nodes' (ht_root T) (ht_m T)) (pure_paths (P := P) p c0 tn) (pure_owners (B := B) nd tn) m).
  { apply (inv_pure Hinv lp nd p c0 c1 t mb xs HP HB Hb Hxs Hlen tn nodes' H01 H0 Hf1).
    - unfold nodes', nodes1. rewrite lookup_insert_ne by done. by rewrite lookup_insert_eq.
    - unfold nodes', nodes1. rewrite 2!lookup_insert_ne by done. by rewrite lookup_insert_eq.
    - unfold nodes'. by rewrite lookup_insert_eq.
    - intros x Hx1 Hx2 Hx3. unfold nodes', nodes1. by rewrite !lookup_insert_ne. }
  split; [|split; [done|split]].
  - assert (Htg : ahtable_tryget t [] = Ok None).
    { pose proof (tryget_rep t mb [] (bo_rep _ _ _ _ _ _ _ _ _ Hb)) as Htg.
      rewrite (pure_nil Hinv lp nd p c0 c1 t mb HP Hb H01 H0) in Htg. exact Htg. }
    unfold split_pure. run_step Hload.
    rewrite st_bind_run with (a := tn) (s' := HT (<[tn := TNode (replicate NODE_CHILDS nd)]> (ht_nodes T)) (ht_root T) (ht_m T)) by exact Ha1.
    rewrite Hc0.
    run_step (set_children_run (HT (<[tn := TNode (replicate NODE_CHILDS nd)]> (ht_nodes T)) (ht_root T) (ht_m T)) lp NODE_TYPE_TRIE 0 xs
      (<[Z.to_nat c0 := tn]>) ltac:(cbn; by rewrite lookup_insert_ne)).
    cbn [ht_nodes ht_root ht_m]. fold nodes1.
    run_step (liftS_ok _ (HT nodes1 (ht_root T) (ht_m T)) _ Htg).
    rewrite (st_bind_run _ _ (HT nodes1 (ht_root T) (ht_m T)) t (HT nodes1 (ht_root T) (ht_m T))) by done.
    erewrite node_store_run; [done|]. cbn. unfold nodes1. rewrite !lookup_insert_ne by done. exact Hnd.
  - unfold pure_paths. rewrite lookup_insert_ne by done. done.
  - intros c s Hc Hk. assert (c = c0) as -> by lia.
    pose proof (pure_path Hinv lp p c0 HP H0) as Hz.
    rewrite (app_assoc p [c0] s : p ++ c0 :: s = _) in Hk |- *.
    destruct (cstr_key_split _ _ Hk Hz) as (c2 & s2 & -> & Hc2 & _).
    exists nd, tn, (p ++ [c0]), c2, s2, 0, 255. split; [|unfold todo; cbn [length]; lia].
    split; [done| | |lia].
    + unfold pure_paths. by rewrite lookup_insert_eq.
    + unfold pure_owners. by rewrite lookup_insert_eq.
Qed.
End run.
