(* ===== verification/HattrieSpec.v ===== *)
(** * The HAT-trie: insertion and what the trie promises

    [hattrie_get] splits full buckets on its way; the trie behaves as the finite map of
    its entries for the keys of the program, C strings with their NUL. *)
From S2P Require Import Prelude NodeHeap CLib Bytes Murmur Ahtable AhtableOk AhtableIter Hattrie HattrieInv HattrieOps HattrieSplit.

#[local] Open Scope Z_scope.

(** ** The loop that splits *)
Section loop.
Context (m : gmap bytes Z) (key rest : bytes) (Hkey : cstr_key key) (Hsize : Z.of_nat (size m) < 2 ^ 47).

Lemma found_unique T P B lp p c s nd a z lp' p' c' s' nd' a' z' :
  ht_inv T P B m -> found (P := P) (B := B) key lp p c s nd a z -> found (P := P) (B := B) key lp' p' c' s' nd' a' z' ->
  lp = lp' /\ p = p' /\ c = c' /\ s = s' /\ nd = nd' /\ a = a' /\ z = z'.
Proof.
  intros Hinv [Hk HP HB Hr] [Hk' HP' HB' Hr'].
  assert (nd = nd') as <-.
  { eapply (bucket_unique Hinv nd lp a z p (c :: s) nd' lp' a' z' p' (c' :: s')); try done. congruence. }
  rewrite HB in HB'. injection HB' as <- <- <-. rewrite HP in HP'. injection HP' as <-.
  rewrite Hk in Hk'. apply app_inv_head in Hk'. injection Hk' as <- <-. done.
Qed.

Lemma hattrie_split_ok T P B lp p c s nd c0 c1 :
  ht_inv T P B m -> found (P := P) (B := B) key lp p c s nd c0 c1 ->
  (exists t mb, bucket_ok (ht_nodes T) m nd lp p c0 c1 t mb /\ MAX_BUCKET_SIZE <= ahtable_size t) ->
  exists T' P' B', hattrie_split lp nd T = Ok (tt, T') /\ ht_inv T' P' B' m /\ P' !! lp = Some p /\
    split_done P' B' p c0 c1.
Proof.
  intros Hinv [Hk HP HB Hr] (t & mb & Hb & Hfull).
  destruct (bucket_node Hinv _ _ _ _ HB) as (q & t' & mb' & _ & _ & _ & Hfl).
  assert (Hrun : hattrie_split lp nd T = (if bool_decide (c0 = c1) then split_pure lp nd else split_hybrid lp nd) T).
  { unfold hattrie_split. run_step Hfl. destruct (has_kind c0 c1) as (_ & -> & ->).
    rewrite (st_bind_run _ _ T tt T) by (repeat case_bool_decide; naive_solver).
    run_step (trie_flag Hinv _ _ HP). rewrite (st_bind_run _ _ T tt T) by done. by case_bool_decide. }
  rewrite Hrun. case_bool_decide as Hc.
  - destruct (split_pure_run Hinv lp nd p c0 c1 t mb HP HB Hb) as (T' & P' & B' & H); [done| |by exists T', P', B'].
    intros H0. pose proof (nul_bucket_small Hinv lp nd p c0 c1 t mb HP Hb Hc H0) as Hs.
    unfold ahtable_size, MAX_BUCKET_SIZE in Hfull. rewrite (ah_rep_m t mb) in Hfull by apply Hb. lia.
  - destruct (split_hybrid_run Hinv lp nd p c0 c1 t mb HP HB Hb Hsize Hc) as (T' & B' & H1 & H2 & H3).
    by exists T', P, B'.
Qed.

Lemma split_loop_ok fuel T P B lp p c s nd c0 c1 :
  ht_inv T P B m -> found (P := P) (B := B) key lp p c s nd c0 c1 -> todo s c0 c1 < Z.of_nat fuel ->
  exists T' P' B' lp' p' c' s' nd' a z,
    split_loop fuel (key ++ rest) lp (length p) (S (length s)) nd T = Ok (inr (length p', S (length s'), nd'), T') /\
    ht_inv T' P' B' m /\ found (P := P') (B := B') key lp' p' c' s' nd' a z.
Proof.
  revert T P B lp p c s nd c0 c1. induction fuel as [|fuel IH]; intros T P B lp p c s nd c0 c1 Hinv Hf Htodo.
  { destruct Hf as [_ _ _ Hr]. unfold todo in Htodo. lia. }
  destruct (found_bucket Hinv _ _ _ _ _ _ _ _ Hf) as (t & mb & Hb & Hl & _). cbn [split_loop]. run_step Hl.
  case_decide as Hfull; [|by exists T, P, B, lp, p, c, s, nd, c0, c1].
  destruct (hattrie_split_ok T P B lp p c s nd c0 c1 Hinv Hf) as (T' & P' & B' & Hs & Hinv' & HP' & Hd); [by exists t, mb|].
  pose proof Hf as [Hk _ _ Hr]. run_step Hs.
  assert (Hk' : cstr_key (p ++ c :: s)) by (by rewrite <- Hk).
  destruct (Hd c s Hr Hk') as (nd1 & lp1 & p1 & c1' & s1 & a1 & z1 & Hf1 & Hlt). rewrite <- Hk in Hf1.
  destruct (consume_ok Hinv' key rest Hkey p (c :: s) lp 0 HP' Hk ltac:(lia)) as (lp2 & p2 & c2 & s2 & nd2 & a2 & z2 & Hc & Hf2).
  destruct (found_unique _ _ _ _ _ _ _ _ _ _ _ _ _ _ _ _ _ Hinv' Hf1 Hf2) as (-> & -> & -> & -> & -> & -> & ->).
  cbn [length] in Hc. run_step Hc. unfold use_consumed. rewrite decide_False by done.
  rewrite (st_bind_run _ _ T' None T') by done. apply (IH T' P' B' lp2 p2 c2 s2 nd2 a2 z2 Hinv' Hf2). lia.
Qed.
End loop.

(** ** Insertion *)
Lemma ah_rep_inj t m1 m2 : ah_rep t m1 -> ah_rep t m2 -> m1 = m2.
Proof.
  intros H1 H2. apply map_eq. intros k. pose proof (tryget_rep t m1 k H1) as Hg1. pose proof (tryget_rep t m2 k H2) as Hg2.
  destruct (m1 !! k) as [v1|] eqn:Hk1, (m2 !! k) as [v2|] eqn:Hk2; try (destruct Hg1 as (? & Hg1 & ?)); try (destruct Hg2 as (? & Hg2 & ?));
    rewrite Hg1 in Hg2; simplify_eq; [|done].
  destruct (ah_ptr_load t m1 x0 k) as (v & Hv & Hl); [done|]. destruct (ah_ptr_load t m2 x0 k) as (v' & Hv' & Hl'); [done|]. congruence.
Qed.

Lemma hat_get_ok (T : hattrie) (P : gmap loc bytes) (B : gmap loc (loc * Z * Z)) (m : gmap bytes Z) (key rest : bytes) :
  ht_inv T P B m -> cstr_key key -> (length key <= MAX_KEY)%nat -> Z.of_nat (size m) < 2 ^ 47 ->
  exists q T', hattrie_get (key ++ rest) (length key) T = Ok (q, T') /\
    hat_ptr T' (<[key := default 0 (m !! key)]> m) q key.
Proof.
  intros Hinv Hk Hlen Hsize. pose proof (cstr_key_nonempty _ Hk) as Hpos.
  destruct (consume_ok Hinv key rest Hk [] key (ht_root T) 0 (root_path Hinv) eq_refl ltac:(lia))
    as (lp & p & c & s & nd & c0 & c1 & Hc & Hf). cbn [length] in Hc.
  assert (Htodo : todo s c0 c1 < Z.of_nat (split_fuel (length key))).
  { destruct (found_bucket Hinv _ _ _ _ _ _ _ _ Hf) as (t & mb & Hb & _).
    pose proof (bo_range _ _ _ _ _ _ _ _ _ Hb). destruct Hf as [-> _ _ _]. unfold todo, split_fuel.
    rewrite length_app. cbn [length]. lia. }
  destruct (split_loop_ok m key rest Hk Hsize _ T P B lp p c s nd c0 c1 Hinv Hf Htodo)
    as (T1 & P1 & B1 & lp1 & p1 & c1' & s1 & nd1 & a & z & Hloop & Hinv1 & Hf1).
  destruct (found_bucket Hinv1 _ _ _ _ _ _ _ _ Hf1) as (t & mb & Hb & Hl & Hfl & Hir & Hpk & Hv).
  set (k := strip a z (c1' :: s1)) in *.
  pose proof (bucket_size _ _ _ _ _ _ _ _ _ Hb) as Hmb.
  assert (Hklen : (length k <= MAX_KEY)%nat).
  { rewrite (fd_key _ _ _ _ _ _ _ _ Hf1), length_app in Hlen. unfold k, strip.
    case_decide; [rewrite length_drop|]; cbn [length] in *; lia. }
  destruct (get_rep_ptr t mb k (bo_rep _ _ _ _ _ _ _ _ _ Hb) Hklen) as (i & t' & Hg & Hp); [lia|]. rewrite Hv in Hp.
  assert (Hget : bucket_get t (c1' :: s1) = Ok (Some i, t')).
  { rewrite <- Hg. unfold bucket_get, k, strip. destruct (bo_kind _ _ _ _ _ _ _ _ _ Hb) as [-> _].
    destruct (has_kind a z) as (_ & -> & _). case_bool_decide; [by rewrite decide_True|by rewrite decide_False]. }
  set (m' := <[key := default 0 (m !! key)]> m).
  pose proof (bucket_update T1 P1 B1 m nd1 lp1 a z p1 t mb t' k (Some (default 0 (m !! key))) Hinv1) as Hu.
  rewrite Hpk in Hu. specialize (Hu (fd_bucket _ _ _ _ _ _ _ _ Hf1) (fd_owner _ _ _ _ _ _ _ _ Hf1) Hb
    (ahtable_get_kind _ _ _ _ Hg) (ah_ptr_rep _ _ _ _ Hp) Hir (fun _ => conj Hk Hlen)).
  cbn beta zeta in Hu. change (partial_alter (fun _ => Some (default 0 (m !! key))) key m) with m' in Hu.
  set (T2 := HT (<[nd1 := NBucket t']> (ht_nodes T1)) (ht_root T1) (Z.of_nat (size m'))) in *.
  assert (Hm : ht_m T1 + (ah_m t' - ah_m t) = Z.of_nat (size m')).
  { rewrite (hti_m _ _ _ _ Hinv1), (ah_rep_m _ _ (ah_ptr_rep _ _ _ _ Hp)), (ah_rep_m t mb) by apply Hb.
    unfold m'. rewrite !map_size_insert, Hv. destruct (m !! key); cbn [id]; lia. }
  assert (Hm47 : Z.of_nat (size m') < 2 ^ 64) by (pose proof (size_insert_le m key (default 0 (m !! key))); unfold m'; lia).
  exists (VEntry nd1 i), T2. split.
  - unfold hattrie_get. rewrite (st_bind_run (getsS ht_root) _ T (ht_root T) T) by done.
    run_step (trie_flag Hinv _ _ (root_path Hinv)). rewrite (st_bind_run _ _ T tt T) by done.
    rewrite decide_False by lia. run_step Hc. unfold use_consumed. rewrite decide_False by done.
    rewrite (st_bind_run _ _ T None T) by done. run_step Hloop. run_step Hfl.
    rewrite (st_bind_run _ _ T1 tt T1)
      by (destruct (has_kind a z) as (_ & -> & ->); repeat case_bool_decide; naive_solver).
    rewrite (st_bind_run _ _ T1 tt T1) by (by rewrite bool_decide_eq_true_2 by lia).
    run_step Hl.
    assert (Hsub : key_sub (key ++ rest) (length p1) (S (length s1)) T1 = Ok (c1' :: s1, T1)).
    { rewrite (fd_key _ _ _ _ _ _ _ _ Hf1). unfold key_sub, liftS. by rewrite <- app_assoc, buf_read_mid. }
    run_step Hsub. run_step (liftS_ok _ T1 _ Hget). cbn [fst snd from_option_fault].
    rewrite (st_bind_run _ _ T1 i T1) by done.
    run_step (node_store_ok T1 m nd1 lp1 p1 a z t mb (NBucket t') Hb).
    unfold add_m, modifyS. rewrite (st_bind_run _ _ _ tt T2); [done|]. cbn [ht_nodes ht_root ht_m]. rewrite Hm, u64_small by lia. reflexivity.
  - destruct (hti_bucket _ _ _ _ Hu nd1 lp1 a z (fd_bucket _ _ _ _ _ _ _ _ Hf1)) as (p2 & t2 & mb2 & HP2 & Hb2).
    pose proof (fd_owner _ _ _ _ _ _ _ _ Hf1) as HPo. rewrite HPo in HP2. injection HP2 as <-.
    assert (t2 = t') as ->.
    { pose proof (bo_node _ _ _ _ _ _ _ _ _ Hb2) as Hn2. unfold T2 in Hn2. cbn in Hn2. rewrite lookup_insert_eq in Hn2. congruence. }
    rewrite <- (ah_rep_inj _ _ _ (ah_ptr_rep _ _ _ _ Hp) (bo_rep _ _ _ _ _ _ _ _ _ Hb2)) in Hb2.
    exact (HatPtr T2 m' (VEntry nd1 i) key P1 B1 lp1 p1 c1' s1 nd1 a z t' _ i Hu Hf1 Hb2 Hp eq_refl).
Qed.

(** ** An empty trie *)
Lemma hat_create_ok : exists T, hattrie_create = Ok T /\ ht_rep T ∅.
Proof.
  set (b := set_kind ahtable_create NODE_TYPE_HYBRID_BUCKET 0 (Z.of_nat NODE_MAXCHAR)).
  destruct (node_alloc_run (NBucket b) (HT ∅ 1%positive 0)) as [Ha1 _].
  set (bl := fresh (dom (ht_nodes (HT ∅ 1%positive 0)))) in *. clearbody bl.
  set (T1 := HT (<[bl := NBucket b]> ∅) 1%positive 0) in *.
  destruct (node_alloc_run (TNode (replicate NODE_CHILDS bl)) T1) as [Ha2 Hf2].
  set (rl := fresh (dom (ht_nodes T1))) in *. clearbody rl.
  assert (Hne : bl <> rl) by (intros ->; cbn in Hf2; rewrite lookup_insert_eq in Hf2; done).
  set (nodes := <[rl := TNode (replicate NODE_CHILDS bl)]> (<[bl := NBucket b]> (∅ : gmap loc hnode))).
  exists (HT nodes rl 0). split.
  { unfold hattrie_create, new_root. fold b.
    rewrite (st_bind_run _ _ (HT ∅ 1%positive 0) bl T1) by exact Ha1.
    rewrite (st_bind_run _ _ T1 rl (HT nodes 1%positive 0)) by exact Ha2. done. }
  assert (Hb : ah_rep b ∅) by (apply set_kind_rep, create_rep; unfold ahtable_initial_size; lia).
  exists {[ rl := [] ]}, {[ bl := (rl, 0, 255) ]}. unfold nodes. split; cbn [ht_nodes ht_root ht_m].
  - intros l. rewrite lookup_singleton_Some. naive_solver.
  - intros l p [<- <-]%lookup_singleton_Some. split; [by intros ?%not_elem_of_nil|].
    eexists. split; [by rewrite lookup_insert_eq|]. apply length_replicate.
  - intros l p xs c x [<- <-]%lookup_singleton_Some. rewrite lookup_insert_eq. intros Hy Hx Hc.
    assert (xs = replicate NODE_CHILDS bl) as -> by congruence. apply lookup_replicate in Hx as [-> Hlt].
    right. exists 0, 255. rewrite lookup_singleton_eq. split; [done|]. unfold NODE_CHILDS, NODE_MAXCHAR in Hlt. lia.
  - intros l p c [_ H]%lookup_singleton_Some. by destruct p.
  - intros b' l c0 c1 [<- [= <- <- <-]]%lookup_singleton_Some. exists [], b, ∅.
    split; [by rewrite lookup_singleton_eq|]. split; [lia| | |done|done|].
    + intros xs c. rewrite lookup_insert_eq. intros Hy Hc. assert (xs = replicate NODE_CHILDS bl) as -> by congruence.
      apply lookup_replicate. split; [done|]. unfold NODE_CHILDS, NODE_MAXCHAR. lia.
    + rewrite lookup_insert_ne by done. apply lookup_insert_eq.
    + intros s. rewrite !lookup_empty. by case_decide.
  - intros k [v Hv]. by rewrite lookup_empty in Hv.
  - by rewrite map_size_empty.
Qed.

(** ** Properties *)

(** C4: The HAT-trie behaves as the finite map of its entries for every key that is a C
    string with its NUL, whatever follows the key in memory: [hattrie_tryget] finds
    exactly the keys that are there, [hattrie_get] gives a pointer to the value of the
    key, adding it with value 0 when it is missing and splitting every full bucket on
    the way (the splitting ends), a store through the pointer updates that key and no
    other, [hattrie_del] removes the key and answers 0, or -1 when it was not there,
    and [hattrie_size] counts the keys. *)
Theorem hattrie_refines_map T m key rest
    (Hr : ht_rep T m) (Hk : cstr_key key) (Hlen : (length key <= MAX_KEY)%nat) (Hsize : Z.of_nat (size m) < 2 ^ 47) :
  hattrie_size T = Z.of_nat (size m) /\
  match m !! key with
  | Some v => exists q, hattrie_tryget (key ++ rest) (length key) T = Ok (Some q, T) /\ hat_load q T = Ok (v, T)
  | None => hattrie_tryget (key ++ rest) (length key) T = Ok (None, T)
  end /\
  (exists q T', hattrie_get (key ++ rest) (length key) T = Ok (q, T') /\
    hat_load q T' = Ok (default 0 (m !! key), T') /\ ht_rep T' (<[key := default 0 (m !! key)]> m) /\
    forall w, 0 <= w < 2 ^ 64 -> exists T'', hat_store q w T' = Ok (tt, T'') /\ ht_rep T'' (<[key := w]> m)) /\
  (exists T', hattrie_del (key ++ rest) (length key) T = Ok (if decide (is_Some (m !! key)) then 0 else -1, T') /\
    ht_rep T' (delete key m)).
Proof.
  destruct Hr as (P & B & Hinv). split; [apply (hti_m _ _ _ _ Hinv)|]. split; [|split].
  - pose proof (hat_tryget_ok T P B m key rest Hinv Hk) as Ht. destruct (m !! key) as [v|] eqn:Hv; [|done].
    destruct Ht as (q & Hq & Hp). exists q. split; [done|].
    destruct (hat_ptr_load _ _ _ _ Hp) as (v' & Hv' & Hl). congruence.
  - destruct (hat_get_ok T P B m key rest Hinv Hk Hlen Hsize) as (q & T' & Hg & Hp). exists q, T'. split; [done|].
    destruct (hat_ptr_load _ _ _ _ Hp) as (v & Hv & Hl). rewrite lookup_insert_eq in Hv. injection Hv as <-.
    split; [done|]. split; [by destruct Hp; eexists _, _|].
    intros w Hw. destruct (hat_ptr_store _ _ _ _ w Hp Hw) as (T'' & Hs & Hr''). rewrite insert_insert_eq in Hr''. eauto.
  - apply (hat_del_ok T P B m key rest Hinv Hk). lia.
Qed.

Lemma hattrie_refines_map_witness :
  exists T q T', hattrie_create = Ok T /\ hattrie_get (str "abc" ++ [0]) 4 T = Ok (q, T') /\
    hat_load q T' = Ok (0, T') /\ ht_rep T' {[ str "abc" ++ [0] := 0 ]}.
Proof.
  destruct hat_create_ok as (T & Hc & Hr).
  destruct (hattrie_refines_map T ∅ (str "abc" ++ [0]) [] Hr) as (_ & _ & (q & T' & Hg & Hl & Hr' & _) & _).
  - exists (str "abc"). split; [done|]. vm_compute. repeat constructor.
  - apply Nat.leb_le. by vm_compute.
  - done.
  - exists T, q, T'. split; [exact Hc|]. split; [exact Hg|]. split; [exact Hl|exact Hr'].
Defined.

(** The empty key is not a key like the others: it is found before it was ever stored,
    storing it does not count it, and deleting it does: the count of a trie of no keys
    wraps to [2^64 - 1]. *)
Theorem hattrie_empty_key T m (Hr : ht_rep T m) (Hsize : Z.of_nat (size m) < 2 ^ 64) :
  exists q T1 T2,
    hattrie_tryget [] 0 T = Ok (Some q, T) /\
    hattrie_get [] 0 T = Ok (q, T1) /\ hattrie_size T1 = Z.of_nat (size m) /\
    hattrie_del [] 0 T1 = Ok (0, T2) /\ hattrie_size T2 = u64 (Z.of_nat (size m) - 1).
Proof.
  destruct Hr as (P & B & Hinv). destruct (trie_node Hinv _ _ (root_path Hinv)) as (xs & Hl & Hn & _).
  pose proof (trie_flag Hinv _ _ (root_path Hinv)) as Hf. pose proof (trie_load_run T _ _ _ _ Hn) as Htl.
  set (r := ht_root T) in *. set (f1 := Z.lor NODE_TYPE_TRIE NODE_HAS_VAL).
  set (T1 := HT (<[r := NTrie f1 0 xs]> (ht_nodes T)) r (ht_m T)).
  assert (Hn1 : ht_nodes T1 !! r = Some (NTrie f1 0 xs)) by apply lookup_insert_eq.
  assert (Hl1 : node_load r T1 = Ok (NTrie f1 0 xs, T1)) by (unfold node_load; by rewrite Hn1).
  assert (Hf1 : node_flag r T1 = Ok (f1, T1)) by (unfold node_flag; by run_step Hl1).
  assert (Hfind : forall T', ht_root T' = r -> forall f, node_flag r T' = Ok (f, T') -> has f NODE_TYPE_TRIE = true ->
    hattrie_find [] 0 T' = Ok ((Some r, 0%nat, 0%nat), T')).
  { intros T' Hr' f Hfl Ht. unfold hattrie_find. rewrite (st_bind_run (getsS ht_root) _ T' r T') by (unfold getsS; by rewrite Hr').
    run_step Hfl. rewrite Ht. done. }
  exists (VNode r), T1, (HT (<[r := NTrie NODE_TYPE_TRIE 0 xs]> (ht_nodes T1)) r (u64 (ht_m T + -1))). repeat split.
  - unfold hattrie_tryget. run_step (Hfind T eq_refl _ Hf eq_refl). run_step Hf. done.
  - unfold hattrie_get. rewrite (st_bind_run (getsS ht_root) _ T r T) by done. run_step Hf.
    rewrite (st_bind_run _ _ T tt T) by done. rewrite decide_True by done. run_step Htl. cbn [fst snd].
    run_step (node_store_run T r (NTrie f1 0 xs) _ Hn). done.
  - apply (hti_m _ _ _ _ Hinv).
  - unfold hattrie_del. rewrite (st_bind_run (getsS ht_root) _ T1 r T1) by done. run_step Hf1.
    rewrite (st_bind_run _ _ T1 tt T1) by done. run_step (Hfind T1 eq_refl _ Hf1 eq_refl). run_step Hf1.
    change (has f1 NODE_TYPE_TRIE) with true. unfold hattrie_clrval.
    run_step (trie_load_run T1 _ _ _ _ Hn1). cbn [fst snd]. change (has f1 NODE_HAS_VAL) with true.
    cbv iota. run_step (node_store_run T1 r (NTrie (Z.ldiff f1 NODE_HAS_VAL) 0 xs) _ Hn1). done.
  - cbn. by rewrite (hti_m _ _ _ _ Hinv).
Qed.

Lemma hattrie_empty_key_witness :
  exists T q T1 T2, hattrie_create = Ok T /\ hattrie_get [] 0 T = Ok (q, T1) /\ hattrie_del [] 0 T1 = Ok (0, T2) /\
    hattrie_size T2 = 2 ^ 64 - 1.
Proof.
  destruct hat_create_ok as (T & Hc & Hr).
  destruct (hattrie_empty_key T ∅ Hr) as (q & T1 & T2 & _ & Hg & _ & Hd & Hs); [done|].
  exists T, q, T1, T2. split; [exact Hc|]. split; [exact Hg|]. split; [exact Hd|]. rewrite Hs. by vm_compute.
Defined.

(** The split point stays at the first character of the bucket whenever fewer than half
    of the keys start with it, wherever the keys are: the test compares the new
    imbalance with a signed difference, which is then negative. *)
Theorem split_point_stuck fuel cs c1 all_m j l r
    (Hlen : length cs = NODE_CHILDS) (Hj : 0 <= j) (Hc1 : c1 < 256) (Hl : 0 <= l < r) (Hr : l + r < 2 ^ 31) :
  split_point (S fuel) cs c1 all_m j l r = Ok (j, l, r).
Proof.
  cbn [split_point]. case_decide; [|done].
  destruct (lookup_lt_is_Some_2 cs (Z.to_nat (j + 1))) as [x Hx]; [rewrite Hlen; unfold NODE_CHILDS, NODE_MAXCHAR; lia|].
  rewrite Hx. cbn [from_option_fault mbind result_bind]. rewrite decide_False; [done|].
  intros [Hd _]. pose proof (Z.abs_nonneg (i32 (u32 (l + x)) - i32 (u32 (r - x)))).
  assert (Hneg : i32 (u32 (l - r)) = l - r); [|lia].
  unfold i32, u32. rewrite Zplus_mod_idemp_l. rewrite Z.mod_small by lia. lia.
Qed.

Lemma split_point_stuck_witness :
  split_point 200 (<[97%nat := 9000]> (<[122%nat := 9000]> (replicate NODE_CHILDS 0))) 255 18000 0 0 18000 = Ok (0, 0, 18000).
Proof. apply (split_point_stuck 199); [by rewrite !length_insert, length_replicate|lia..]. Defined.
