(* ===== verification/HattrieIterOk.v ===== *)
(** * The HAT-trie: iteration visits every entry once

    The nodes below the stack of an iterator, the entries they hold, and the invariant
    that what is left to visit is what the stack and the current bucket hold. *)
From stdpp Require Import sorting.
From S2P Require Import Prelude NodeHeap CLib Bytes Murmur Ahtable AhtableOk AhtableIter AhtableSpec Hattrie HattrieIter HattrieInv HattrieOps HattrieSpec.

#[local] Open Scope Z_scope.

(** ** The children a trie node pushes *)
Fixpoint pushed (level j : Z) (xs : list loc) (next : option loc) : list (Z * Z * option loc) :=
  match xs with
  | [] => []
  | x :: xs =>
      (if decide (match xs with [] => next | y :: _ => Some y end = Some x) then [] else [(j, level + 1, Some x)]) ++
      pushed level (j + 1) xs next
  end.

Lemma pushed_snoc level j xs x next :
  pushed level j (xs ++ [x]) next =
    pushed level j xs (Some x) ++
    (if decide (next = Some x) then [] else [(j + Z.of_nat (length xs), level + 1, Some x)]).
Proof.
  revert j. induction xs as [|y xs IH]; intros j.
  - cbn. rewrite Z.add_0_r. by rewrite app_nil_r.
  - cbn [app pushed]. rewrite IH, <- app_assoc. f_equal.
    + by destruct xs.
    + cbn [length]. by replace (j + 1 + Z.of_nat (length xs)) with (j + Z.of_nat (S (length xs))) by lia.
Qed.

Lemma push_children_pushed level xs next stack :
  push_children level (rev_children xs) next stack = pushed level 0 xs next ++ stack.
Proof.
  revert next stack. induction xs as [|x xs IH] using rev_ind; intros next stack; [done|].
  unfold rev_children. rewrite imap_app, reverse_app. cbn [imap reverse app]. rewrite Nat.add_0_r.
  change (reverse [(Z.of_nat (length xs), x)]) with [(Z.of_nat (length xs), x)]. cbn [app push_children].
  fold (rev_children xs). rewrite IH, pushed_snoc, <- app_assoc. f_equal. rewrite Z.add_0_l. by case_decide.
Qed.

(** A pushed child is the last of a run of equal children. *)
Lemma elem_of_pushed level j xs next it :
  it ∈ pushed level j xs next -> exists i x, xs !! i = Some x /\ it = (j + Z.of_nat i, level + 1, Some x) /\ xs !! S i <> Some x.
Proof.
  revert j. induction xs as [|x xs IH]; intros j; cbn [pushed]; [by intros ?%elem_of_nil|].
  rewrite elem_of_app. intros [Hin|Hin].
  - case_decide as Hd; [by apply elem_of_nil in Hin|]. apply list_elem_of_singleton in Hin as ->.
    exists 0%nat, x. rewrite Z.add_0_r. split; [done|]. split; [done|]. destruct xs as [|y xs]; cbn; [done|]. congruence.
  - destruct (IH _ Hin) as (i & y & Hy & -> & Hn). exists (S i), y. split; [done|]. split; [|done]. do 2 f_equal. lia.
Qed.

Lemma pushed_all level j xs x : x ∈ xs -> exists it, it ∈ pushed level j xs None /\ it.2 = Some x.
Proof.
  revert j. induction xs as [|y xs IH]; intros j; [by intros ?%elem_of_nil|]. cbn [pushed].
  assert (Htail : x ∈ xs -> exists it, it ∈ (if decide (match xs with [] => None | y :: _ => Some y end = Some y) then [] else [(j, level + 1, Some y)])
                              ++ pushed level (j + 1) xs None /\ it.2 = Some x).
  { intros Hx. destruct (IH (j + 1) Hx) as (it & Hit & He). exists it. rewrite elem_of_app. eauto. }
  intros [->|Hx]%elem_of_cons; [|by apply Htail].
  case_decide as Hd.
  - apply Htail. destruct xs as [|z xs]; [done|]. injection Hd as ->. by left.
  - exists (j, level + 1, Some y). split; [by left|done].
Qed.

(** ** Nodes below a node *)
Section tree.
Context {T : hattrie} {P : gmap loc bytes} {B : gmap loc (loc * Z * Z)} {m : gmap bytes Z}.
Context (Hinv : ht_inv T P B m).

(** The path of a trie node, or of the node that owns a bucket. *)
Definition npath (n : loc) (q : bytes) : Prop := P !! n = Some q \/ exists l c0 c1, B !! n = Some (l, c0, c1) /\ P !! l = Some q.

Definition below (x n : loc) : Prop :=
  n = x /\ (is_Some (P !! x) \/ is_Some (B !! x)) \/ exists p q, P !! x = Some p /\ npath n q /\ p `prefix_of` q.

(** The bucket of a key. *)
Definition home (k : bytes) (b : loc) : Prop :=
  exists l c0 c1 p k', B !! b = Some (l, c0, c1) /\ P !! l = Some p /\ k = p ++ k' /\ in_range c0 c1 k'.

Lemma nb x p o : P !! x = Some p -> B !! x = Some o -> False.
Proof. apply (trie_not_bucket Hinv). Qed.

Lemma npath_fun n q q' : npath n q -> npath n q' -> q = q'.
Proof.
  intros [H|(l & c0 & c1 & Hb & H)] [H'|(l' & c0' & c1' & Hb' & H')]; try congruence;
    exfalso; eauto using nb.
Qed.

Lemma home_unique k b b' : home k b -> home k b' -> b = b'.
Proof.
  intros (l & c0 & c1 & p & k' & HB & HP & -> & Hr) (l' & c0' & c1' & p' & k'' & HB' & HP' & Heq & Hr').
  exact (bucket_unique Hinv b l c0 c1 p k' b' l' c0' c1' p' k'' HB HP Hr HB' HP' Hr' Heq).
Qed.

Lemma home_exists k v : m !! k = Some v -> exists b, home k b.
Proof.
  intros Hk. destruct (hti_keys _ _ _ _ Hinv k ltac:(eauto)) as [Hc _].
  assert (Hroot : P !! ht_root T = Some []) by (by apply (hti_root _ _ _ _ Hinv)).
  destruct (consume_ok Hinv k [] Hc [] k (ht_root T) 0 Hroot eq_refl ltac:(lia)) as (lp & p & c & s & nd & c0 & c1 & _ & [H1 H2 H3 H4]).
  exists nd, lp, c0, c1, p, (c :: s). done.
Qed.

(** The node of the store of a child. *)
Lemma child_npath lp p c x : P !! lp = Some p -> child_at (P := P) (B := B) lp p c x ->
  (P !! x = Some (p ++ [c]) \/ npath x p /\ is_Some (B !! x)).
Proof. intros HP [H|(c0 & c1 & H & _)]; [by left|right]. split; [right; eauto|by rewrite H]. Qed.

Lemma child_below x p c y n : P !! x = Some p -> child_at (P := P) (B := B) x p c y -> below y n -> below x n.
Proof.
  intros HP Hch Hn. right. destruct (child_npath x p c y HP Hch) as [Hy|[Hy HB]].
  - exists p. destruct Hn as [[-> _]|(q & q' & Hq & Hn & Hpre)].
    + exists (p ++ [c]). split; [done|]. split; [by left|by apply prefix_app_r].
    + exists q'. split; [done|]. split; [done|]. rewrite Hy in Hq. injection Hq as <-. etransitivity; [by apply prefix_app_r|done].
  - destruct Hn as [[-> _]|(q & q' & Hq & _)]; [by exists p, p|]. destruct HB as [o HB]. exfalso. eauto using nb.
Qed.

Lemma child_not_above x p c y : P !! x = Some p -> child_at (P := P) (B := B) x p c y -> ~ below y x.
Proof.
  intros HP Hch Hn. destruct (child_npath x p c y HP Hch) as [Hy|[_ [o HB]]].
  - assert (Hq : exists q, (p ++ [c]) `prefix_of` q /\ npath x q).
    { destruct Hn as [[-> _]|(q & q' & Hq & Hn & Hpre)]; [exists (p ++ [c]); split; [done|by left]|].
      exists q'. split; [congruence|done]. }
    destruct Hq as (q & Hpre & Hq). assert (q = p) as -> by (eapply npath_fun; [done|by left]).
    apply prefix_length in Hpre. rewrite length_app in Hpre. cbn in Hpre. lia.
  - destruct Hn as [[-> _]|(q & q' & Hq & _)]; eauto using nb.
Qed.

(** The children of a node are apart. *)
Lemma child_below_path x p c y n : P !! x = Some p -> child_at (P := P) (B := B) x p c y -> below y n ->
  n = y /\ is_Some (B !! y) /\ npath y p \/ P !! y = Some (p ++ [c]) /\ exists q, npath n q /\ (p ++ [c]) `prefix_of` q.
Proof.
  intros HP Hch Hn. destruct (child_npath x p c y HP Hch) as [Hy|[Hp HB]].
  - right. split; [done|]. destruct Hn as [[-> _]|(q & q' & Hq & Hn & Hpre)]; [exists (p ++ [c]); split; [by left|done]|].
    exists q'. split; [done|congruence].
  - left. destruct Hn as [[-> _]|(q & q' & Hq & _)]; [done|]. destruct HB as [o HB]. exfalso. eauto using nb.
Qed.

Lemma children_apart x p c c' y y' n :
  P !! x = Some p -> child_at (P := P) (B := B) x p c y -> child_at (P := P) (B := B) x p c' y' ->
  below y n -> below y' n -> y = y'.
Proof.
  intros HP Hch Hch' Hn Hn'.
  assert (Hlong : forall c, npath n p -> forall q, npath n q -> ~ (p ++ [c]) `prefix_of` q).
  { intros c0 Hp q Hq Hpre. assert (q = p) as -> by (by eapply npath_fun). apply prefix_length in Hpre.
    rewrite length_app in Hpre. cbn in Hpre. lia. }
  destruct (child_below_path _ _ _ _ _ HP Hch Hn) as [(-> & _ & Hy)|(Hy & q & Hq & Hpre)];
    destruct (child_below_path _ _ _ _ _ HP Hch' Hn') as [(He & _ & Hy')|(Hy' & q' & Hq' & Hpre')].
  - done.
  - exfalso. exact (Hlong c' Hy q' Hq' Hpre').
  - subst n. exfalso. exact (Hlong c Hy' q Hq Hpre).
  - assert (q' = q) as -> by (by eapply npath_fun). destruct Hpre as [r ->], Hpre' as [r' Hr]. rewrite <- !app_assoc in Hr.
    apply app_inv_head in Hr. injection Hr as <- _. by eapply (path_inj Hinv).
Qed.

(** A bucket below a node is below one of its children. *)
Lemma below_child x p xs b : P !! x = Some p -> ht_nodes T !! x = Some (TNode xs) -> below x b -> is_Some (B !! b) ->
  exists y, y ∈ xs /\ below y b.
Proof.
  intros HP Hn Hb [[[l c0] c1] HB].
  assert (HPb : P !! b = None) by (destruct (P !! b) eqn:E; [exfalso; eauto using nb|done]).
  destruct (hti_bucket _ _ _ _ Hinv _ _ _ _ HB) as (q0 & t & mb & Hl & Hbk).
  destruct Hb as [[-> [H|H]]|(p' & q & HP' & Hq & Hpre)]; [congruence|exfalso; destruct H; eauto using nb|].
  rewrite HP in HP'. injection HP' as <-. assert (q = q0) as -> by (eapply npath_fun; [done|right; eauto]).
  destruct Hpre as [r ->]. destruct r as [|c r].
  - rewrite app_nil_r in *. assert (l = x) as -> by (by eapply (path_inj Hinv)). exists b. split.
    + apply list_elem_of_lookup. exists (Z.to_nat c0). apply (bo_links _ _ _ _ _ _ _ _ _ Hbk xs c0 Hn).
      pose proof (bo_range _ _ _ _ _ _ _ _ _ Hbk). lia.
    + left. split; [done|right; by rewrite HB].
  - rewrite (app_assoc p [c] r : p ++ c :: r = _) in Hl. destruct (ancestor Hinv _ _ _ Hl) as [la Hla].
    destruct (hti_parent _ _ _ _ Hinv _ _ _ Hla) as (lq & xs' & Hlq & Hn' & Hx' & _).
    assert (lq = x) as -> by (by eapply (path_inj Hinv)). rewrite Hn in Hn'. injection Hn' as <-. exists la. split.
    + apply list_elem_of_lookup. eauto.
    + right. exists (p ++ [c]), ((p ++ [c]) ++ r). split; [done|]. split; [right; eauto|by apply prefix_app_r].
Qed.
End tree.

(** ** The stack of an iterator *)
Section stack.
Context {T : hattrie} {P : gmap loc bytes} {B : gmap loc (loc * Z * Z)} {m : gmap bytes Z}.
Context (Hinv : ht_inv T P B m).

Abbreviation item := (Z * Z * option loc)%type.
#[local] Abbreviation under := (below (P := P) (B := B)).
#[local] Abbreviation child := (child_at (P := P) (B := B)).

(** A child of a node whose path is in the key buffer. *)
Definition item_ok (key : bytes) (it : item) : Prop :=
  exists x lp p, it.2 = Some x /\ P !! lp = Some p /\ child lp p it.1.1 x /\
    it.1.2 = Z.of_nat (length p) + 1 /\ take (length p) key = p.

Definition on_stack (st : list item) (n : loc) : Prop := exists it x, it ∈ st /\ it.2 = Some x /\ under x n.

Fixpoint apart (st : list item) : Prop :=
  match st with
  | [] => True
  | it :: st => (forall x n, it.2 = Some x -> under x n -> ~ on_stack st n) /\ apart st
  end.

Record stack_ok (key : bytes) (st : list item) : Prop := {
  st_items : Forall (item_ok key) st;
  st_levels : StronglySorted (fun a b : item => b.1.2 <= a.1.2) st;
  st_apart : apart st
}.

Lemma on_stack_cons it st n : on_stack (it :: st) n <-> (exists x, it.2 = Some x /\ under x n) \/ on_stack st n.
Proof.
  unfold on_stack. split.
  - intros (it' & x & [->|Hin]%elem_of_cons & Hx & Hu); eauto 6.
  - intros [(x & Hx & Hu)|(it' & x & Hin & Hx & Hu)]; [exists it, x|exists it', x]; (split; [|done]); [left|by right].
Qed.

Lemma on_stack_app st1 st2 n : on_stack (st1 ++ st2) n <-> on_stack st1 n \/ on_stack st2 n.
Proof.
  induction st1 as [|it st1 IH]; cbn [app].
  - split; [by right|]. intros [(it & x & Hin & _)|H]; [by apply elem_of_nil in Hin|done].
  - rewrite !on_stack_cons, IH. tauto.
Qed.

Lemma apart_app st1 st2 : apart st1 -> apart st2 -> (forall n, on_stack st1 n -> ~ on_stack st2 n) -> apart (st1 ++ st2).
Proof.
  intros H1 H2 Hd. induction st1 as [|it st1 IH]; [done|]. destruct H1 as [Hit H1]. split.
  - intros x n Hx Hu. rewrite on_stack_app. intros [Hn|Hn]; [by eapply Hit|].
    apply (Hd n); [|done]. apply on_stack_cons. eauto.
  - apply IH; [done|]. intros n Hn. apply Hd, on_stack_cons. by right.
Qed.

(** The children of one node. *)
Lemma child_index x q xs i y : P !! x = Some q -> ht_nodes T !! x = Some (TNode xs) -> xs !! i = Some y -> child x q (Z.of_nat i) y.
Proof.
  intros HP Hn Hy. apply (hti_child _ _ _ _ Hinv x q xs (Z.of_nat i) y HP Hn); [by rewrite Nat2Z.id|lia].
Qed.

Lemma child_run_last x q xs i j y : P !! x = Some q -> ht_nodes T !! x = Some (TNode xs) ->
  xs !! i = Some y -> xs !! S i <> Some y -> xs !! j = Some y -> (j <= i)%nat.
Proof.
  intros HP Hn Hi Hlast Hj. destruct (decide (j <= i)%nat) as [|Hgt]; [done|exfalso]. apply Hlast.
  destruct (child_index x q xs i y HP Hn Hi) as [Hp|(c0 & c1 & HB & Hr)],
    (child_index x q xs j y HP Hn Hj) as [Hp'|(c0' & c1' & HB' & Hr')].
  - rewrite Hp in Hp'. injection Hp' as Hp'. apply app_inv_head in Hp'. injection Hp' as Hp'. lia.
  - exfalso. eauto using nb.
  - exfalso. eauto using nb.
  - rewrite HB in HB'. injection HB' as <- <-. destruct (hti_bucket _ _ _ _ Hinv _ _ _ _ HB) as (p & t & mb & _ & Hbk).
    replace (S i) with (Z.to_nat (Z.of_nat (S i))) by lia. apply (bo_links _ _ _ _ _ _ _ _ _ Hbk xs _ Hn). lia.
Qed.

Lemma pushed_on_stack level j xs n :
  on_stack (pushed level j xs None) n <-> exists y, y ∈ xs /\ under y n.
Proof.
  split.
  - intros (it & y & Hin & Hy & Hu). destruct (elem_of_pushed _ _ _ _ _ Hin) as (i & z & Hz & -> & _).
    injection Hy as <-. exists z. split; [|done]. apply list_elem_of_lookup. eauto.
  - intros (y & Hin & Hu). destruct (pushed_all level j xs y Hin) as (it & Hit & Hy). by exists it, y.
Qed.

Lemma pushed_apart x q xs level k ys : P !! x = Some q -> ht_nodes T !! x = Some (TNode xs) ->
  ys = drop k xs -> apart (pushed level (Z.of_nat k) ys None).
Proof.
  intros HP Hn. revert k. induction ys as [|y ys IH]; intros k Hys; [done|]. cbn [pushed].
  assert (Hy : xs !! k = Some y) by (rewrite <- (Nat.add_0_r k), <- lookup_drop, <- Hys; done).
  assert (Htl : ys = drop (S k) xs) by (replace (S k) with (k + 1)%nat by lia; by rewrite <- drop_drop, <- Hys).
  replace (Z.of_nat k + 1) with (Z.of_nat (S k)) by lia. specialize (IH (S k) Htl).
  case_decide as Hd; [done|]. split; [|done]. cbn [snd]. intros x' n [= <-] Hu.
  intros (y' & Hy' & Hu')%pushed_on_stack. apply list_elem_of_lookup in Hy' as [i Hi].
  rewrite Htl, lookup_drop in Hi.
  pose proof (children_apart Hinv x q _ _ y y' n HP (child_index _ _ _ _ _ HP Hn Hy) (child_index _ _ _ _ _ HP Hn Hi) Hu Hu') as <-.
  assert (S k + i <= k)%nat; [|lia]. apply (child_run_last x q xs k (S k + i) y HP Hn Hy); [|done].
  intros Hs. apply Hd. rewrite Htl. destruct (drop (S k) xs) as [|z zs] eqn:Hz.
  - rewrite <- (Nat.add_0_r (S k)), <- lookup_drop, Hz in Hs. done.
  - rewrite <- (Nat.add_0_r (S k)), <- lookup_drop, Hz in Hs. done.
Qed.

Lemma pushed_levels level j xs : Forall (fun it : item => it.1.2 = level + 1) (pushed level j xs None).
Proof. apply Forall_forall. intros it Hin. by destruct (elem_of_pushed _ _ _ _ _ Hin) as (i & z & _ & -> & _). Qed.

Lemma sorted_app_levels level l (st : list item) :
  Forall (fun it : item => it.1.2 = level + 1) l -> Forall (fun it : item => it.1.2 <= level) st ->
  StronglySorted (fun a b : item => b.1.2 <= a.1.2) st -> StronglySorted (fun a b : item => b.1.2 <= a.1.2) (l ++ st).
Proof.
  intros Hl Hst Hs. induction Hl as [|it l Hit Hl IH]; [done|]. apply SSorted_cons; [exact IH|]. apply Forall_app. split.
  - eapply Forall_impl; [exact Hl|]. intros a Ha. cbn in *. lia.
  - eapply Forall_impl; [exact Hst|]. intros a Ha. cbn in *. lia.
Qed.

(** Replacing a trie node by its children. *)
Lemma push_ok x q xs key st : P !! x = Some q -> ht_nodes T !! x = Some (TNode xs) -> take (length q) key = q ->
  stack_ok key st -> Forall (fun it : item => it.1.2 <= Z.of_nat (length q)) st ->
  (forall n, under x n -> ~ on_stack st n) ->
  stack_ok key (pushed (Z.of_nat (length q)) 0 xs None ++ st) /\
  (forall b, is_Some (B !! b) -> on_stack (pushed (Z.of_nat (length q)) 0 xs None ++ st) b <-> under x b \/ on_stack st b) /\
  (forall n, on_stack (pushed (Z.of_nat (length q)) 0 xs None ++ st) n -> n <> x /\ (under x n \/ on_stack st n)).
Proof.
  intros HP Hn Hk [Hi Hl Ha] Hst Hsep.
  assert (Hin : forall n, on_stack (pushed (Z.of_nat (length q)) 0 xs None) n -> n <> x /\ under x n).
  { intros n (y & Hy & Hu)%pushed_on_stack. apply list_elem_of_lookup in Hy as [i Hy].
    pose proof (child_index _ _ _ _ _ HP Hn Hy) as Hch. split; [|by eapply (child_below Hinv)].
    intros ->. by eapply (child_not_above Hinv). }
  assert (Hx : under x x) by (left; split; [done|left; by rewrite HP]).
  split; [split|split].
  - apply Forall_app. split; [|done]. apply Forall_forall. intros it Hit.
    destruct (elem_of_pushed _ _ _ _ _ Hit) as (i & y & Hy & -> & _). exists y, x, q. rewrite Z.add_0_l.
    split; [done|]. split; [done|]. split; [by eapply child_index|done].
  - by eapply sorted_app_levels; [apply pushed_levels| |].
  - apply apart_app; [|done|].
    + by apply (pushed_apart x q xs _ 0 xs).
    + intros n Hs. by apply Hsep, Hin.
  - intros b HB. rewrite on_stack_app, pushed_on_stack. split.
    + intros [(y & Hy & Hu)|?]; [|by right]. left. apply Hin, pushed_on_stack. eauto.
    + intros [Hu|?]; [|by right]. left. destruct (below_child Hinv x q xs b) as (y & ? & ?); eauto.
  - intros n [Hs|Hs]%on_stack_app; [destruct (Hin n Hs); auto|]. split; [|by right]. intros ->. by apply (Hsep x).
Qed.
End stack.

(** ** The iterator's state *)
Section iter.
Context {T : hattrie} {P : gmap loc bytes} {B : gmap loc (loc * Z * Z)} {m : gmap bytes Z}.
Context (Hinv : ht_inv T P B m).

Abbreviation item := (Z * Z * option loc)%type.
#[local] Abbreviation under := (below (P := P) (B := B)).
#[local] Abbreviation child := (child_at (P := P) (B := B)).
#[local] Abbreviation on_stack := (on_stack (P := P) (B := B)).
#[local] Abbreviation stack_ok := (stack_ok (P := P) (B := B)).

(** The characters of the path of an iterator in the bucket for [c0] to [c1]. *)
Definition pre (p : bytes) (c0 c1 : Z) : bytes := p ++ (if decide (c0 = c1) then [c0] else []).

Lemma pre_bkey p c0 c1 s : pre p c0 c1 ++ s = p ++ bkey c0 c1 s.
Proof. unfold pre, bkey. rewrite <- app_assoc. by case_decide. Qed.

(** The bucket [b] with the entries [l] left in it. *)
Record cur_ok (i : hattrie_iter) (b : loc) (x : ahtable_iter) (p : bytes) (c0 c1 : Z) (t : ahtable) (l : list (bytes * Z)) : Prop := {
  cu_bucket : exists lp mb, B !! b = Some (lp, c0, c1) /\ P !! lp = Some p /\ bucket_ok (ht_nodes T) m b lp p c0 c1 t mb /\
    NoDup l.*1 /\ (forall s v, (s, v) ∈ l -> mb !! s = Some v);
  cu_iter : iter_over t x l;
  cu_level : hi_level i = Z.of_nat (length (pre p c0 c1)) /\ take (length (pre p c0 c1)) (hi_key i) = pre p c0 c1;
  cu_stack : Forall (fun it : item => it.1.2 - 1 <= hi_level i) (hi_stack i);
  cu_apart : ~ on_stack (hi_stack i) b
}.

Definition stack_keys (st : list item) (k : bytes) : Prop := exists b, home (P := P) (B := B) k b /\ on_stack st b.

(** What is left to visit: the entries [l] of the current bucket, with the keys [ks], and those below the stack. *)
Definition left_over (R : gmap bytes Z) (ks : list bytes) (st : list item) : Prop :=
  forall k v, R !! k = Some v <-> m !! k = Some v /\ (k ∈ ks \/ stack_keys st k).

Record iter_ok (i : hattrie_iter) (R : gmap bytes Z) : Prop := {
  io_plain : hi_nil i = false /\ hi_prefix i = [] /\ (0 < length (hi_key i))%nat;
  io_stack : stack_ok (hi_key i) (hi_stack i);
  io_cur : match hi_i i with
           | None => left_over R [] (hi_stack i)
           | Some (b, x) => exists p c0 c1 t l, cur_ok i b x p c0 c1 t l /\
               left_over R ((fun e => pre p c0 c1 ++ e.1) <$> l) (hi_stack i)
           end
}.

(** An iterator that [hattrie_iter_continue] has moved to an entry or to the end. *)
Definition settled (i : hattrie_iter) (R : gmap bytes Z) : Prop :=
  iter_ok i R /\
  match hi_i i with None => hi_stack i = [] | Some _ => hattrie_ahtable_iter_finished T (hi_i i) = Ok false end.

Lemma left_over_iff R ks ks' st st' : left_over R ks st ->
  (forall k v, m !! k = Some v -> (k ∈ ks \/ stack_keys st k) <-> (k ∈ ks' \/ stack_keys st' k)) -> left_over R ks' st'.
Proof. intros H Hi k v. rewrite (H k v). split; intros [Hm Hk]; (split; [done|]); by apply (Hi k v Hm). Qed.

Lemma home_bucket k b : home (P := P) (B := B) k b -> is_Some (B !! b).
Proof. intros (l & c0 & c1 & p & k' & HB & _). by rewrite HB. Qed.

Lemma bucket_under b n lp c0 c1 : B !! b = Some (lp, c0, c1) -> under b n -> n = b.
Proof. intros HB [[-> _]|(p & q & HP & _)]; [done|]. by destruct (nb Hinv _ _ _ HP HB). Qed.

(** The entries of a bucket are those whose home it is. *)
Lemma bucket_entries b lp p c0 c1 t mb k v :
  B !! b = Some (lp, c0, c1) -> P !! lp = Some p -> bucket_ok (ht_nodes T) m b lp p c0 c1 t mb -> m !! k = Some v ->
  home (P := P) (B := B) k b <-> exists s w, k = pre p c0 c1 ++ s /\ mb !! s = Some w.
Proof.
  intros HB HP Hbk Hm. split.
  - intros (lp' & c0' & c1' & p' & k' & HB' & HP' & -> & Hr). rewrite HB in HB'. injection HB' as <- <- <-.
    rewrite HP in HP'. injection HP' as <-. exists (strip c0 c1 k'), v. rewrite pre_bkey, bkey_strip by done. split; [done|].
    rewrite (bo_map _ _ _ _ _ _ _ _ _ Hbk), bkey_strip by done. by rewrite decide_True.
  - intros (s & w & -> & Hs). rewrite pre_bkey in *. rewrite (bo_map _ _ _ _ _ _ _ _ _ Hbk) in Hs.
    case_decide as Hr; [|done]. exists lp, c0, c1, p, (bkey c0 c1 s). done.
Qed.

(** ** The key buffer *)
Lemma stack_ok_key key key' st n : stack_ok key st -> Forall (fun it : item => it.1.2 - 1 <= Z.of_nat n) st ->
  take n key' = take n key -> stack_ok key' st.
Proof.
  intros [Hi Hl Ha] Hlev Hk. split; [|done|done]. apply Forall_forall. intros it Hit.
  rewrite Forall_forall in Hi, Hlev. destruct (Hi it Hit) as (x & lp & p & Hx & HP & Hch & Hv & Hp).
  specialize (Hlev it Hit). exists x, lp, p. split; [done|]. split; [done|]. split; [done|]. split; [done|].
  rewrite <- Hp at 2. rewrite <- (Nat.min_l (length p) n) by lia. by rewrite <- !take_take, Hk.
Qed.

Lemma key_write_ok key off x : (off + length x <= length key)%nat ->
  key_write key (Z.of_nat off) x = Ok (take off key ++ x ++ drop (off + length x) key).
Proof. intros H. unfold key_write. rewrite decide_True by lia. rewrite Nat2Z.id. by apply buf_write_ok. Qed.

Lemma pushchar_ok i p c : take (length p) (hi_key i) = p -> (0 < length (hi_key i))%nat ->
  exists key', hattrie_iter_pushchar i (Z.of_nat (length p) + 1) c = Ok (with_key i key' (Z.of_nat (length p) + 1)) /\
    take (length (p ++ [c])) key' = p ++ [c] /\ (0 < length key')%nat /\ take (length p) key' = take (length p) (hi_key i).
Proof.
  intros Hp Hlen. unfold hattrie_iter_pushchar.
  set (key := if decide (Z.of_nat (length (hi_key i)) < _) then _ else _).
  assert (Hk : take (length p) key = p /\ (length p < length key)%nat).
  { assert (length p <= length (hi_key i))%nat by (rewrite <- Hp at 1; rewrite length_take; lia).
    unfold key. case_decide as Hd; [|split; [done|lia]]. unfold realloc.
    rewrite length_app, length_take, length_replicate. split; [|lia].
    rewrite (take_ge (hi_key i)) by lia. by rewrite take_app_le. }
  destruct Hk as [Hk Hlt]. rewrite decide_True by lia. replace (Z.of_nat (length p) + 1 - 1) with (Z.of_nat (length p)) by lia.
  rewrite key_write_ok by (cbn; lia). rewrite Hk. eexists. split; [done|]. split; [|split].
  - by rewrite app_assoc, take_app_length.
  - rewrite length_app. cbn. lia.
  - by rewrite take_app_length, Hp.
Qed.

(** ** The length of a path *)
Lemma path_nodes l p : P !! l = Some p ->
  exists L, NoDup L /\ length L = S (length p) /\ forall n, n ∈ L -> is_Some (ht_nodes T !! n) /\ exists q, P !! n = Some q /\ q `prefix_of` p.
Proof.
  revert l. induction p as [|c p IH] using rev_ind; intros l HP.
  - exists [l]. split; [apply NoDup_singleton|]. split; [done|]. intros n ->%list_elem_of_singleton.
    destruct (hti_trie _ _ _ _ Hinv _ _ HP) as (_ & xs & Hn & _). rewrite Hn. eauto.
  - destruct (hti_parent _ _ _ _ Hinv _ _ _ HP) as (lp & _ & Hlp & _). destruct (IH lp Hlp) as (L & Hnd & Hlen & HL).
    exists (l :: L). split; [|split].
    + apply NoDup_cons. split; [|done]. intros Hin. destruct (HL l Hin) as (_ & q & Hq & Hpre).
      rewrite HP in Hq. injection Hq as <-. apply prefix_length in Hpre. rewrite length_app in Hpre. cbn in Hpre. lia.
    + rewrite length_app. cbn. lia.
    + intros n [->|Hin]%elem_of_cons.
      * destruct (hti_trie _ _ _ _ Hinv _ _ HP) as (_ & xs & Hn & _). rewrite Hn. eauto.
      * destruct (HL n Hin) as (Hn & q & Hq & Hpre). split; [done|]. exists q. split; [done|]. by apply prefix_app_r.
Qed.

Lemma path_length l p : P !! l = Some p -> (length p < size (ht_nodes T))%nat.
Proof.
  intros (L & Hnd & Hlen & HL)%path_nodes. rewrite <- size_dom.
  assert (size (list_to_set L : gset loc) <= size (dom (ht_nodes T)))%nat.
  { apply subseteq_size. intros n [Hn _]%elem_of_list_to_set%HL. by apply elem_of_dom. }
  rewrite size_list_to_set in H by done. lia.
Qed.

(** ** Popping a node *)
Definition drops (st st' : list item) : Prop :=
  exists x, is_Some (ht_nodes T !! x) /\ on_stack st x /\ forall n, on_stack st' n -> n <> x /\ on_stack st n.

Lemma stack_keys_iff st st' k : (forall b, is_Some (B !! b) -> on_stack st b <-> on_stack st' b) -> stack_keys st k <-> stack_keys st' k.
Proof. intros H. split; intros (b & Hh & Hs); exists b; (split; [done|]); apply (H b); eauto using home_bucket. Qed.

Lemma nextnode_trie i R c lp p x st :
  iter_ok i R -> hi_i i = None -> hi_stack i = (c, Z.of_nat (length p) + 1, Some x) :: st ->
  P !! lp = Some p -> P !! x = Some (p ++ [c]) -> take (length p) (hi_key i) = p ->
  exists i', hattrie_iter_nextnode T i = Ok i' /\ iter_ok i' R /\ drops (hi_stack i) (hi_stack i').
Proof.
  intros [(Hnil & Hpre & Hlen) Hst Hc] Hi Hstk HP HPx Hk. rewrite Hi in Hc. rewrite Hstk in Hst, Hc |- *.
  destruct (hti_trie _ _ _ _ Hinv _ _ HPx) as (_ & xs & Hn & _).
  destruct (pushchar_ok (with_stack i st) p c Hk Hlen) as (key' & Hpc & Htk & Hlen' & Htp).
  set (st' := pushed (Z.of_nat (length (p ++ [c]))) 0 xs None ++ st).
  destruct Hst as [Hit Hlev Hap]. apply Forall_cons in Hit as [_ Hit]. apply StronglySorted_inv in Hlev as [Hlev Hle].
  destruct Hap as [Hsep Hap]. specialize (Hsep x).
  assert (Hlp : Z.of_nat (length (p ++ [c])) = Z.of_nat (length p) + 1) by (rewrite length_app; cbn; lia).
  assert (Hst : stack_ok key' st).
  { apply (stack_ok_key (hi_key i) key' st (length p)); [done| |done]. eapply Forall_impl; [exact Hle|]. cbn. lia. }
  destruct (push_ok Hinv x (p ++ [c]) xs key' st HPx Hn Htk Hst) as (Hst' & Hb & Hd).
  { eapply Forall_impl; [exact Hle|]. cbn. lia. }
  { intros n. by apply Hsep. }
  fold st' in Hst', Hb, Hd.
  exists (with_stack (with_key (with_stack i st) key' (Z.of_nat (length p) + 1)) st'). split; [|split].
  - unfold hattrie_iter_nextnode. rewrite Hstk. cbn [node_at from_option_fault mbind result_bind]. rewrite Hn.
    cbn [from_option_fault mbind result_bind flag_of]. change (has NODE_TYPE_TRIE NODE_TYPE_TRIE) with true. cbn iota.
    rewrite Hpc. cbn [mbind result_bind]. change (has NODE_TYPE_TRIE NODE_HAS_VAL) with false. cbn iota.
    rewrite push_children_pushed, <- Hlp. done.
  - split; [done|done|]. cbn [with_stack with_key hi_i hi_stack]. rewrite Hi. eapply left_over_iff; [exact Hc|].
    intros k v _. apply or_iff_compat_l, stack_keys_iff. intros b HB. rewrite (Hb b HB), on_stack_cons. naive_solver.
  - exists x. split; [by rewrite Hn|]. split.
    + apply on_stack_cons. left. exists x. split; [done|]. left. split; [done|left; by rewrite HPx].
    + intros n Hs. destruct (Hd n Hs) as [? [?|?]]; (split; [done|]); apply on_stack_cons; eauto.
Qed.

Lemma bucket_level i p c c0 c1 (Hsmall : Z.of_nat (length p) < 2 ^ 63) :
  c0 <= c <= c1 -> take (length p) (hi_key i) = p -> (0 < length (hi_key i))%nat ->
  exists key', (if bool_decide (c0 = c1) then hattrie_iter_pushchar i (Z.of_nat (length p) + 1) c
      else Ok (with_key i (hi_key i) (u64 (Z.of_nat (length p) + 1 - 1)))) =
    Ok (with_key i key' (Z.of_nat (length (pre p c0 c1)))) /\
    take (length (pre p c0 c1)) key' = pre p c0 c1 /\ (0 < length key')%nat /\ take (length p) key' = take (length p) (hi_key i).
Proof.
  intros Hr Hk Hlen. unfold pre. case_bool_decide as He.
  - rewrite decide_True by done. assert (c = c0) as -> by lia.
    destruct (pushchar_ok i p c0 Hk Hlen) as (key' & Hpc & Htk & Hlen' & Htp). exists key'.
    split; [|done]. rewrite Hpc. do 2 f_equal. rewrite length_app. cbn. lia.
  - rewrite decide_False, app_nil_r by done. exists (hi_key i). split; [|done]. do 2 f_equal. rewrite u64_small by lia. lia.
Qed.

Lemma bucket_keys b lp p c0 c1 t mb l k v :
  B !! b = Some (lp, c0, c1) -> P !! lp = Some p -> bucket_ok (ht_nodes T) m b lp p c0 c1 t mb -> l ≡ₚ map_to_list mb ->
  m !! k = Some v -> k ∈ ((fun e : bytes * Z => pre p c0 c1 ++ e.1) <$> l) <-> home (P := P) (B := B) k b.
Proof.
  intros HB HP Hbk Hl Hm. rewrite (bucket_entries b lp p c0 c1 t mb k v HB HP Hbk Hm), list_elem_of_fmap. split.
  - intros ([s w] & -> & Hin). rewrite Hl in Hin. apply elem_of_map_to_list in Hin. by exists s, w.
  - intros (s & w & -> & Hs). exists (s, w). split; [done|]. rewrite Hl. by apply elem_of_map_to_list.
Qed.

Lemma nextnode_bucket i R c lp p x c0 c1 st (Hmem : Z.of_nat (size (ht_nodes T)) < 2 ^ 63) :
  iter_ok i R -> hi_i i = None -> hi_stack i = (c, Z.of_nat (length p) + 1, Some x) :: st ->
  P !! lp = Some p -> B !! x = Some (lp, c0, c1) -> c0 <= c <= c1 -> take (length p) (hi_key i) = p ->
  exists i', hattrie_iter_nextnode T i = Ok i' /\ iter_ok i' R /\ drops (hi_stack i) (hi_stack i').
Proof.
  intros [(Hnil & Hpre & Hlen) Hst Hc] Hi Hstk HP HB Hr Hk. rewrite Hi in Hc. rewrite Hstk in Hst, Hc |- *.
  destruct (hti_bucket _ _ _ _ Hinv _ _ _ _ HB) as (p' & t & mb & HP' & Hbk). rewrite HP in HP'. injection HP' as <-.
  pose proof (bo_node _ _ _ _ _ _ _ _ _ Hbk) as Hn. destruct (bo_kind _ _ _ _ _ _ _ _ _ Hbk) as [Hkind _].
  destruct (has_kind c0 c1) as (Ht & Hpure & _).
  destruct (iter_over_begin t mb (hi_sorted i) (bo_rep _ _ _ _ _ _ _ _ _ Hbk)) as (y & l & Hy & Hov & Hl).
  pose proof (path_length lp p HP) as Hpl.
  destruct Hst as [Hit Hlev Hap]. apply Forall_cons in Hit as [_ Hit]. apply StronglySorted_inv in Hlev as [Hlev Hle].
  destruct Hap as [Hsep Hap]. specialize (Hsep x).
  assert (Hself : under x x) by (left; split; [done|right; by rewrite HB]).
  destruct (bucket_level (with_stack i st) p c c0 c1 ltac:(lia) Hr Hk Hlen) as (key' & Hrun & Htk & Hlen' & Htp).
  assert (Hst : stack_ok key' st).
  { apply (stack_ok_key (hi_key i) key' st (length p)); [done| |done]. eapply Forall_impl; [exact Hle|]. cbn. lia. }
  exists (with_i (with_key (with_stack i st) key' (Z.of_nat (length (pre p c0 c1)))) (Some (x, y))). split; [|split].
  - unfold hattrie_iter_nextnode. rewrite Hstk. cbn [node_at from_option_fault mbind result_bind]. rewrite Hn.
    cbn [from_option_fault mbind result_bind flag_of]. rewrite Hkind, Ht, Hpure. cbn [with_stack hi_key] in Hrun.
    cbn [with_stack hi_key]. rewrite Hrun. cbn [mbind result_bind]. unfold table_at, node_at. cbn [from_option_fault mbind result_bind].
    rewrite Hn. cbn [from_option_fault mbind result_bind]. cbn [hi_sorted with_key with_stack]. rewrite Hy. done.
  - split; [done|done|]. cbn [with_i with_stack with_key hi_i hi_stack]. exists p, c0, c1, t, l. split; [split|].
    + exists lp, mb. split; [done|]. split; [done|]. split; [done|]. split; [rewrite Hl; apply NoDup_fst_map_to_list|].
      intros s v. rewrite Hl. apply elem_of_map_to_list.
    + done.
    + done.
    + cbn. unfold pre. rewrite length_app. eapply Forall_impl; [exact Hle|]. cbn. lia.
    + by apply Hsep.
    + eapply left_over_iff; [exact Hc|]. intros k v Hm.
      rewrite (bucket_keys x lp p c0 c1 t mb l k v HB HP Hbk Hl Hm). unfold stack_keys. split.
      * intros [Hk0|(b & Hh & Hs)]; [by apply elem_of_nil in Hk0|]. apply on_stack_cons in Hs as [(z & [= <-] & Hu)|Hs].
        -- left. by rewrite <- (bucket_under x b lp c0 c1 HB Hu).
        -- right. by exists b.
      * intros [Hh|(b & Hh & Hs)]; right; [exists x|exists b]; (split; [done|]); apply on_stack_cons; eauto.
  - exists x. split; [by rewrite Hn|]. split.
    + apply on_stack_cons. left. by exists x.
    + intros n Hs. split; [|apply on_stack_cons; by right]. intros ->. by apply (Hsep x).
Qed.

Lemma nextnode_ok i R it st (Hmem : Z.of_nat (size (ht_nodes T)) < 2 ^ 63) :
  iter_ok i R -> hi_i i = None -> hi_stack i = it :: st ->
  exists i', hattrie_iter_nextnode T i = Ok i' /\ iter_ok i' R /\ drops (hi_stack i) (hi_stack i').
Proof.
  intros Hok Hi Hstk. pose proof (st_items _ _ (io_stack _ _ Hok)) as Hit. rewrite Hstk in Hit.
  apply Forall_cons in Hit as [(x & lp & p & Hx & HP & Hch & Hlev & Hp) _].
  destruct it as [[c level] node]. cbn in Hx, Hch, Hlev. subst node level.
  destruct Hch as [HPx|(c0 & c1 & HB & Hr)]; [by eapply nextnode_trie|by eapply nextnode_bucket].
Qed.

(** ** Moving to the next entry *)
Lemma table_at_ok b lp p c0 c1 t mb : bucket_ok (ht_nodes T) m b lp p c0 c1 t mb -> table_at T b = Ok t.
Proof.
  intros Hbk. unfold table_at, node_at. cbn [from_option_fault mbind result_bind].
  by rewrite (bo_node _ _ _ _ _ _ _ _ _ Hbk).
Qed.

Lemma cur_finished i b x p c0 c1 t l : cur_ok i b x p c0 c1 t l ->
  table_at T b = Ok t /\ hattrie_ahtable_iter_finished T (Some (b, x)) = Ok (bool_decide (l = [])).
Proof.
  intros [(lp & mb & _ & _ & Hbk & _) Hov _ _ _]. pose proof (table_at_ok _ _ _ _ _ _ _ Hbk) as Ht. split; [done|].
  cbn [hattrie_ahtable_iter_finished]. rewrite Ht. cbn [mbind result_bind]. destruct l as [|[k v] l]; destruct Hov as [-> _]; done.
Qed.

Lemma iter_finished_ok i R : iter_ok i R ->
  (hattrie_ahtable_iter_finished T (hi_i i) = Ok true /\ iter_ok (with_i i None) R) \/
  (hattrie_ahtable_iter_finished T (hi_i i) = Ok false /\ settled i R).
Proof.
  intros Hok. pose proof Hok as [Hp Hs Hc]. unfold settled. destruct (hi_i i) as [[b x]|] eqn:Hi.
  - destruct Hc as (p & c0 & c1 & t & l & Hcu & HR). destruct (cur_finished _ _ _ _ _ _ _ _ Hcu) as [_ ->].
    destruct (decide (l = [])) as [->|Hl].
    + left. split; [done|]. split; [done|done|]. exact HR.
    + right. rewrite bool_decide_eq_false_2 by done. done.
  - left. split; [done|]. split; [done|done|]. exact Hc.
Qed.

Lemma continue_loop_ok fuel i R (S : gset loc) (Hmem : Z.of_nat (size (ht_nodes T)) < 2 ^ 63) :
  iter_ok i R -> (forall n, on_stack (hi_stack i) n -> n ∈ S) -> (size S < fuel)%nat ->
  exists i', continue_loop fuel T i = Ok i' /\ iter_ok i' R /\
    (hattrie_ahtable_iter_finished T (hi_i i') = Ok true -> hi_stack i' = []).
Proof.
  revert i S. induction fuel as [|fuel IH]; intros i S Hok HS Hf; [lia|]. cbn [continue_loop].
  destruct (iter_finished_ok i R Hok) as [[-> Hok']|[Hfin [_ Hset]]].
  - cbn [mbind result_bind]. destruct (io_plain _ _ Hok) as (-> & _ & _). cbn [negb andb].
    destruct (hi_stack i) as [|it st] eqn:Hstk.
    + rewrite bool_decide_eq_true_2 by done. exists i. by rewrite Hstk.
    + rewrite bool_decide_eq_false_2 by done. cbn [negb].
      destruct (nextnode_ok (with_i i None) R it st Hmem Hok' eq_refl Hstk) as (i1 & -> & Hok1 & x & Hx & Hxs & Hd).
      cbn [mbind result_bind]. cbn [with_i hi_stack] in Hxs, Hd. rewrite Hstk in Hxs, Hd.
      apply (IH i1 (S ∖ {[x]})); [done| |].
      * intros n Hn. destruct (Hd n Hn) as [? Hn']. apply HS in Hn'. set_solver.
      * apply HS in Hxs. rewrite size_difference by set_solver. rewrite size_singleton.
        assert (size S <> 0)%nat; [|lia]. intros H0. apply size_empty_inv in H0. set_solver.
  - rewrite Hfin. cbn [mbind result_bind andb]. exists i. split; [done|]. split; [done|]. by rewrite Hfin.
Qed.

Lemma below_node x n : under x n -> is_Some (ht_nodes T !! n).
Proof.
  assert (HP : forall l p, P !! l = Some p -> is_Some (ht_nodes T !! l)).
  { intros l p Hl. destruct (hti_trie _ _ _ _ Hinv _ _ Hl) as (_ & xs & -> & _). eauto. }
  assert (HB : forall b o, B !! b = Some o -> is_Some (ht_nodes T !! b)).
  { intros b [[l c0] c1] Hb. destruct (hti_bucket _ _ _ _ Hinv _ _ _ _ Hb) as (p & t & mb & _ & Hbk).
    rewrite (bo_node _ _ _ _ _ _ _ _ _ Hbk). eauto. }
  intros [[-> [[p Hp]|[o Ho]]]|(p & q & _ & [Hn|(l & c0 & c1 & Hn & _)] & _)]; eauto.
Qed.

Lemma stack_nodes st n : on_stack st n -> n ∈ dom (ht_nodes T).
Proof. intros (it & x & _ & _ & Hu). apply elem_of_dom. by eapply below_node. Qed.

Lemma continue_settles i i' R : continue_loop (pops T) T i = Ok i' -> iter_ok i' R ->
  (hattrie_ahtable_iter_finished T (hi_i i') = Ok true -> hi_stack i' = []) ->
  exists i'', hattrie_iter_continue T i = Ok i'' /\ settled i'' R.
Proof.
  intros Hl Hok Hfin. unfold hattrie_iter_continue. rewrite Hl. cbn [mbind result_bind].
  destruct (iter_finished_ok i' R Hok) as [[Hf Hok2]|[Hf Hset]]; rewrite Hf; cbn [mbind result_bind]; eexists; (split; [done|]).
  - split; [done|]. cbn. by apply Hfin.
  - done.
Qed.

Lemma continue_ok i R (Hmem : Z.of_nat (size (ht_nodes T)) < 2 ^ 63) :
  iter_ok i R -> exists i', hattrie_iter_continue T i = Ok i' /\ settled i' R.
Proof.
  intros Hok. destruct (continue_loop_ok (pops T) i R (dom (ht_nodes T)) Hmem Hok) as (i' & Hl & Hok' & Hfin).
  - intros n. apply stack_nodes.
  - rewrite size_dom. unfold pops. lia.
  - by eapply continue_settles.
Qed.

(** ** Reading an entry *)
Lemma grow_key_ok fuel n size desired : 0 < size -> desired <= size * 2 ^ Z.of_nat n -> (n < fuel)%nat ->
  exists size', grow_key fuel size desired = Ok size' /\ size <= size' /\ desired <= size'.
Proof.
  revert n size. induction fuel as [|fuel IH]; intros n size Hs Hd Hf; [lia|]. cbn [grow_key]. case_decide as Hlt.
  - destruct n as [|n]; [lia|]. destruct (IH n (size * 2)) as (size' & -> & ? & ?); [lia| |lia|].
    + rewrite Nat2Z.inj_succ, Z.pow_succ_r in Hd by lia. lia.
    + exists size'. split; [done|lia].
  - exists size. split; [done|lia].
Qed.

Lemma realloc_take n buf k : (n <= length buf)%nat -> (n <= k)%nat -> take n (realloc buf k) = take n buf.
Proof.
  intros Hb Hk. unfold realloc. rewrite take_app_le by (rewrite length_take; lia). rewrite take_take. f_equal. lia.
Qed.

Lemma iter_key_ok i b x t q s v l : hi_nil i = false -> hi_prefix i = [] -> hi_i i = Some (b, x) -> (0 < length (hi_key i))%nat ->
  table_at T b = Ok t -> iter_over t x ((s, v) :: l) ->
  hi_level i = Z.of_nat (length q) -> take (length q) (hi_key i) = q -> Z.of_nat (length (q ++ s)) < 2 ^ 63 ->
  exists key', hattrie_iter_key T i = Ok (Some (q ++ s), with_key i key' (hi_level i)) /\
    (0 < length key')%nat /\ take (length q) key' = take (length q) (hi_key i) /\ (q ++ s) `prefix_of` key'.
Proof.
  intros Hnil Hpre Hi Hlen Ht (_ & Hk & _) Hlev Hq Hsmall.
  assert (Hql : (length q <= length (hi_key i))%nat) by (rewrite <- Hq at 1; rewrite length_take; lia).
  rewrite length_app in Hsmall.
  unfold hattrie_iter_key. unfold hattrie_iter_finished at 1. rewrite Hi, andb_false_r. cbn [andb]. rewrite Hnil, Hpre.
  cbn [from_option_fault mbind result_bind fst snd]. rewrite Ht. cbn [mbind result_bind]. rewrite Hk.
  cbn [from_option_fault mbind result_bind]. rewrite Hlev. rewrite (u64_small (_ + _ + 1)) by lia.
  destruct (grow_key_ok 65 64 (Z.of_nat (length (hi_key i))) (Z.of_nat (length q) + Z.of_nat (length s) + 1)) as (size' & -> & H1 & H2);
    [lia|lia|lia|].
  cbn [mbind result_bind].
  set (key := if decide (size' = Z.of_nat (length (hi_key i))) then hi_key i else realloc (hi_key i) (Z.to_nat size')).
  assert (Hkey : take (length q) key = q /\ (length q + length s + 1 <= length key)%nat).
  { unfold key. case_decide as He; [split; [done|lia]|]. rewrite realloc_take by lia. split; [done|].
    unfold realloc. rewrite length_app, length_take, length_replicate. lia. }
  destruct Hkey as [Hkq Hkl].
  rewrite key_write_ok by lia. cbn [mbind result_bind]. rewrite Hkq.
  replace (Z.of_nat (length q) + Z.of_nat (length s)) with (Z.of_nat (length (q ++ s))) by (rewrite length_app; lia).
  set (rest := drop (length q + length s) key). assert (Hr : (0 < length rest)%nat) by (unfold rest; rewrite length_drop; lia).
  rewrite key_write_ok by (rewrite !length_app; cbn; lia). cbn [mbind result_bind].
  rewrite (app_assoc q s rest), take_app_length. cbn [guard_fault length]. rewrite bool_decide_eq_true_2 by lia.
  cbn [guard_fault mbind result_bind]. rewrite Nat2Z.id, Nat.sub_0_r, buf_read_ok by (rewrite !length_app; cbn; lia).
  cbn [mbind result_bind]. rewrite drop_0, take_app_length. eexists. split; [done|]. split; [rewrite !length_app; cbn; lia|].
  split; [by rewrite <- (app_assoc q), take_app_length, Hq|by apply prefix_app_r].
Qed.

(** Moving past the first entry of a bucket. *)
Lemma left_over_next i R b x p c0 c1 t s v l : cur_ok i b x p c0 c1 t ((s, v) :: l) ->
  left_over R ((fun e => pre p c0 c1 ++ e.1) <$> (s, v) :: l) (hi_stack i) ->
  R !! (pre p c0 c1 ++ s) = Some v /\
  left_over (delete (pre p c0 c1 ++ s) R) ((fun e => pre p c0 c1 ++ e.1) <$> l) (hi_stack i).
Proof.
  intros [(lp & mb & HB & HP & Hbk & Hnd & Hin) _ _ _ Hap] HR.
  assert (Hs : mb !! s = Some v) by (apply Hin; by left).
  assert (Hm : m !! (pre p c0 c1 ++ s) = Some v).
  { rewrite (bo_map _ _ _ _ _ _ _ _ _ Hbk) in Hs. case_decide; [|done]. by rewrite pre_bkey. }
  split; [apply HR; split; [done|left; by left]|].
  intros k w. destruct (decide (k = pre p c0 c1 ++ s)) as [->|Hne].
  - rewrite lookup_delete_eq. split; [done|]. intros [_ [Hk|(b' & Hh & Hs')]]; exfalso.
    + apply list_elem_of_fmap in Hk as ([s' w'] & Heq & Hk). apply app_inv_head in Heq. cbn in Heq. subst s'.
      apply NoDup_cons in Hnd as [Hnd _]. apply Hnd, list_elem_of_fmap. by exists (s, w').
    + assert (home (P := P) (B := B) (pre p c0 c1 ++ s) b) as Hb.
      { apply (bucket_entries b lp p c0 c1 t mb _ v HB HP Hbk Hm). by exists s, v. }
      rewrite (home_unique Hinv _ _ _ Hb Hh) in Hap. done.
  - rewrite lookup_delete_ne by done. rewrite (HR k w). cbn [fmap list_fmap fst]. rewrite elem_of_cons. tauto.
Qed.

Lemma key_kept i key' b x p c0 c1 t l R :
  iter_ok i R -> hi_i i = Some (b, x) -> cur_ok i b x p c0 c1 t l -> (0 < length key')%nat ->
  take (length (pre p c0 c1)) key' = take (length (pre p c0 c1)) (hi_key i) ->
  stack_ok key' (hi_stack i) /\ cur_ok (with_key i key' (hi_level i)) b x p c0 c1 t l.
Proof.
  intros Hok Hi [Hb Hov [Hlev Hk] Hst Hap] Hlen Ht. split.
  - apply (stack_ok_key (hi_key i) key' _ (length (pre p c0 c1))); [apply (io_stack _ _ Hok)| |done].
    by rewrite <- Hlev.
  - split; [done|done| |done|done]. split; [done|]. cbn [with_key hi_key]. by rewrite Ht.
Qed.

Lemma hat_load_entry b lp p c0 c1 t mb q v : bucket_ok (ht_nodes T) m b lp p c0 c1 t mb -> val_load t q = Ok v ->
  hat_load (VEntry b q) T = Ok (v, T).
Proof. intros Hb Hv. unfold hat_load. run_step (bucket_load_ok _ _ _ _ _ _ _ _ _ Hb). by apply liftS_ok. Qed.

Lemma iter_entry i R b x (Hmem : Z.of_nat (size (ht_nodes T)) < 2 ^ 63) : settled i R -> hi_i i = Some (b, x) ->
  exists k v i1 q i2, hattrie_iter_key T i = Ok (Some k, i1) /\ R !! k = Some v /\ m !! k = Some v /\ hi_prefix i1 = [] /\
    k `prefix_of` hi_key i1 /\ hattrie_iter_val T i1 = Ok (Some (inr q)) /\ hat_load q T = Ok (v, T) /\
    hattrie_iter_next T i1 = Ok i2 /\ settled i2 (delete k R).
Proof.
  intros [Hok Hfin] Hi. pose proof Hok as [(Hnil & Hpre & Hlen) _ Hc]. rewrite Hi in Hfin, Hc.
  destruct Hc as (p & c0 & c1 & t & l & Hcu & HR). destruct (cur_finished _ _ _ _ _ _ _ _ Hcu) as [Ht Hf].
  rewrite Hf in Hfin. injection Hfin as Hl. destruct l as [|[s v] l]; [done|].
  destruct (left_over_next _ _ _ _ _ _ _ _ _ _ _ Hcu HR) as [HRk HR'].
  pose proof Hcu as [(lp & mb & HB & HP & Hbk & Hnd & Hin) Hov [Hlev Hkey] Hst Hap].
  destruct (iter_key_ok i b x t (pre p c0 c1) s v l Hnil Hpre Hi Hlen Ht Hov Hlev Hkey) as (key' & Hrun & Hlen' & Htk & Hbuf).
  { apply HR in HRk as [Hm _]. destruct (hti_keys _ _ _ _ Hinv _ ltac:(by rewrite Hm)) as [_ Hmax]. unfold MAX_KEY in Hmax. lia. }
  destruct (key_kept i key' b x p c0 c1 t _ R Hok Hi Hcu Hlen' Htk) as [Hst' Hcu'].
  destruct Hov as (_ & _ & (q & Hq & Hv) & x' & Hnx & Hov').
  set (i1 := with_key i key' (hi_level i)).
  assert (Hok2 : iter_ok (with_i i1 (Some (b, x'))) (delete (pre p c0 c1 ++ s) R)).
  { split; [done|done|]. exists p, c0, c1, t, l. split; [|done]. destruct Hcu' as [_ _ Hlev' Hs' Hap']. split; [|done|done|done|done].
    exists lp, mb. split; [done|]. split; [done|]. split; [done|]. split; [by apply NoDup_cons in Hnd as [_ ?]|].
    intros s' w Hs. apply Hin. by right. }
  destruct (continue_ok _ _ Hmem Hok2) as (i2 & Hcont & Hset).
  exists (pre p c0 c1 ++ s), v, i1, (VEntry b q), i2. split; [done|]. split; [done|].
  split; [by apply HR in HRk as [? _]|]. split; [done|]. split; [done|]. split; [|split; [by eapply hat_load_entry|]].
  - unfold hattrie_iter_val, hattrie_iter_finished. unfold i1; cbn [with_key hi_nil hi_i hi_stack]. rewrite Hnil, Hi, andb_false_r. cbn [andb].
    cbn [from_option_fault mbind result_bind fst snd]. rewrite Ht. cbn [mbind result_bind]. rewrite Hq. done.
  - split; [|done]. unfold hattrie_iter_next. assert (Ht1 : exists n, turns T = S n) by (eexists; reflexivity).
    destruct Ht1 as [n ->]. cbn [next_loop]. unfold hattrie_iter_finished at 1. unfold i1; cbn [with_key hi_nil hi_i hi_stack].
    rewrite Hi, andb_false_r. cbn [andb]. unfold iter_step. cbn [with_key hi_i]. rewrite Hi, Hf, Hl. cbn [mbind result_bind].
    rewrite Ht. cbn [mbind result_bind]. rewrite Hnx. cbn [mbind result_bind]. unfold i1 in Hcont. rewrite Hcont. cbn [mbind result_bind].
    unfold hattrie_iter_satisfied. destruct Hset as [[(_ & -> & _) _ _] _]. rewrite bool_decide_eq_true_2, orb_true_r by done. done.
Qed.

(** ** From the root to the end *)
Lemma begin_ok sorted (Hmem : Z.of_nat (size (ht_nodes T)) < 2 ^ 63) :
  exists i, hattrie_iter_begin T sorted = Ok i /\ settled i m.
Proof.
  assert (HP : P !! ht_root T = Some []) by (by apply (hti_root _ _ _ _ Hinv)).
  destruct (hti_trie _ _ _ _ Hinv _ _ HP) as (_ & xs & Hn & _).
  set (key0 := replicate 16 0). set (i0 := HIter key0 0 [] false 0 sorted None [(0, 0, Some (ht_root T))]).
  set (i1 := HIter key0 0 [] false 0 sorted None (pushed 0 0 xs None ++ [])).
  assert (Hstep : forall n, continue_loop (S n) T i0 = continue_loop n T i1).
  { intros n. cbn [continue_loop i0 hi_i hi_nil hi_stack hattrie_ahtable_iter_finished mbind result_bind].
    rewrite bool_decide_eq_false_2 by done. cbn [negb andb]. unfold hattrie_iter_nextnode, i0.
    cbn [with_i hi_stack node_at from_option_fault mbind result_bind]. rewrite Hn.
    cbn [from_option_fault mbind result_bind flag_of]. change (has NODE_TYPE_TRIE NODE_TYPE_TRIE) with true.
    change (has NODE_TYPE_TRIE NODE_HAS_VAL) with false. cbn iota. unfold hattrie_iter_pushchar. cbn [with_stack hi_key].
    rewrite (decide_False (P := 0 < 0)) by lia. rewrite decide_False by (cbn; lia).
    cbn [mbind result_bind]. rewrite push_children_pushed. done. }
  assert (Hok : iter_ok i1 m).
  { destruct (push_ok Hinv (ht_root T) [] xs key0 [] HP Hn eq_refl) as (Hst & Hb & _).
    - split; constructor.
    - constructor.
    - intros n _ (it & x & Hin & _). by apply elem_of_nil in Hin.
    - split; [split; [done|split; [done|cbn; lia]]|exact Hst|]. intros k v. split; [|by intros [? _]]. intros Hk. split; [done|right].
      destruct (home_exists Hinv k v Hk) as [b Hh]. exists b. split; [done|]. apply Hb; [by eapply home_bucket|]. left.
      destruct Hh as (l & c0 & c1 & p & k' & HB & HPl & _). right. exists [], p.
      split; [done|]. split; [right; eauto 6|apply prefix_nil]. }
  destruct (continue_loop_ok (1 + 256 * size (ht_nodes T)) i1 m (dom (ht_nodes T)) Hmem Hok) as (i' & Hl & Hok' & Hfin).
  - intros n. apply stack_nodes.
  - rewrite size_dom. lia.
  - destruct (continue_settles i0 i' m) as (i & Hi & Hset); [by rewrite <- Hl, <- Hstep|done|done|].
    exists i. split; [|done]. unfold hattrie_iter_begin, hattrie_iter_begin_with_prefix.
    rewrite !decide_False by lia. cbn [mbind result_bind snd fst]. fold key0 i0. rewrite Hi. done.
Qed.

Lemma left_over_empty R : left_over R [] [] -> R = ∅.
Proof.
  intros Hc. apply map_eq. intros k. rewrite lookup_empty. destruct (R !! k) as [v|] eqn:HR; [|done].
  exfalso. apply Hc in HR as [_ [Hk|(b & _ & it & x & Hin & _)]]; [by apply elem_of_nil in Hk|by apply elem_of_nil in Hin].
Qed.

Lemma iter_entries_ok fuel i R (Hmem : Z.of_nat (size (ht_nodes T)) < 2 ^ 63) : settled i R -> (size R < fuel)%nat ->
  exists l, iter_entries fuel T i = Ok l /\ l ≡ₚ map_to_list R.
Proof.
  revert i R. induction fuel as [|fuel IH]; intros i R Hset Hf; [lia|]. cbn [iter_entries].
  destruct (hi_i i) as [[b x]|] eqn:Hi.
  - destruct (iter_entry i R b x Hmem Hset Hi) as (k & v & i1 & q & i2 & Hk & HR & _ & _ & _ & Hv & Hq & Hn & Hset').
    unfold hattrie_iter_finished. rewrite Hi, andb_false_r. cbn [andb]. rewrite Hk. cbn [mbind result_bind fst snd from_option_fault].
    rewrite Hv. cbn [mbind result_bind from_option_fault]. rewrite Hq. cbn [fmap result_fmap mbind result_bind fst].
    rewrite Hn. cbn [mbind result_bind].
    assert (Hsz : size R = S (size (delete k R))).
    { rewrite <- (insert_delete_id R k v HR) at 1. by rewrite map_size_insert_None by apply lookup_delete_eq. }
    destruct (IH i2 (delete k R) Hset' ltac:(lia)) as (l & -> & Hl). eexists. split; [done|].
    by rewrite Hl, map_to_list_delete.
  - destruct Hset as [[(Hnil & _ & _) _ Hc] Hst]. rewrite Hi in Hc, Hst.
    unfold hattrie_iter_finished. rewrite Hi, Hst, Hnil, bool_decide_eq_true_2 by done. cbn [negb andb].
    rewrite Hst in Hc. rewrite (left_over_empty R Hc). by exists [].
Qed.
End iter.
