(* ===== verification/Assoc.v ===== *)
(** * Associative arrays

    The [array_*] macros of src/assoc_array_impl_hattrie.h as operations on a
    finite map from keys (bytes, NUL included) to words, which is what the HAT-trie
    below them promises, and [array_key_make] of src/assoc_array_impl.c. *)
From S2P Require Import Prelude CLib.

#[local] Open Scope Z_scope.

Abbreviation array := (gmap bytes Z) (only parsing).

(** [strlen(k)+1] bytes of a literal: the key [_aget(a,k)] passes. *)
Definition key (s : string) : bytes := str s ++ [0].

Definition array_new : array := ∅.
Definition array_size (a : array) : nat := size a.
Definition array_key_exists (a : array) (k : bytes) : bool := bool_decide (is_Some (a !! k)).

(** [*hattrie_get]: creates a zero entry for a missing key, as awk does. *)
Definition array_get (a : array) (k : bytes) : Z * array :=
  match a !! k with
  | Some v => (v, a)
  | None => (0, <[k := 0]> a)
  end.

Definition array_set (a : array) (k : bytes) (v : Z) : array := <[k := v]> a.
Definition array_del (a : array) (k : bytes) : array := delete k a.

(** [array_dup]: iterates over [a] and sets each entry in a new array. *)
Definition array_dup (a : array) : array :=
  foldl (fun b kv => array_set b kv.1 kv.2) array_new (map_to_list a).

(** ** array_key_make *)
Definition SUBSEP : Z := 28.

(** [snprintf(buf + off, size, ...)] of the text [src]: the length of the text,
    and the buffer with at most [size - 1] of its bytes and a NUL. *)
Definition snprintf (buf : bytes) (off size : Z) (src : bytes) : result (Z * bytes) :=
  if decide (size = 0) then Ok (Z.of_nat (length src), buf)
  else (buf' ← buf_write buf (Z.to_nat off) (take (Z.to_nat (size - 1)) src ++ [0]);
        Ok (Z.of_nat (length src), buf')).

Fixpoint array_key_args (buf : bytes) (keylen len : Z) (args : list bytes) : result (Z * bytes) :=
  match args with
  | [] => Ok (keylen, buf)
  | val :: args =>
      '(n, buf) ← snprintf buf keylen (u64 (len - keylen)) (SUBSEP :: val);
      array_key_args buf (u64 (keylen + n)) len args
  end.

Definition array_key_make (buf : bytes) (len : Z) (arg1 : bytes) (args : list bytes)
  : result (Z * bytes) :=
  '(keylen, buf) ← snprintf buf 0 len arg1;
  '(keylen, buf) ← array_key_args buf keylen len args;
  buf ← buf_write buf (Z.to_nat keylen) [0];
  Ok (keylen, buf).

(** The key meant: the arguments joined with SUBSEP. *)
Definition key_tail (args : list bytes) : bytes := mjoin (cons SUBSEP <$> args).
Definition joined_key (arg1 : bytes) (args : list bytes) : bytes := arg1 ++ key_tail args.

(** ** Lemmas *)
Lemma array_get_set a k v : array_get (array_set a k v) k = (v, array_set a k v).
Proof. unfold array_get, array_set. by rewrite lookup_insert_eq. Qed.

Lemma array_get_ne a k k' v : k ≠ k' -> (array_get (array_set a k v) k').1 = (array_get a k').1.
Proof.
  intros Hk. unfold array_get, array_set. rewrite lookup_insert_ne by done. by destruct (a !! k').
Qed.

(** Reading never changes what another read answers, though it may add a key. *)
Lemma array_get_get a k k' : (array_get (array_get a k).2 k').1 = (array_get a k').1.
Proof.
  unfold array_get. destruct (a !! k) as [v|] eqn:Hk; cbn; [done|].
  destruct (decide (k = k')) as [<-|Hne].
  - by rewrite lookup_insert_eq, Hk.
  - rewrite lookup_insert_ne by done. by destruct (a !! k').
Qed.

Lemma array_get_exists a k :
  array_key_exists a k = true -> exists v, array_get a k = (v, a) /\ a !! k = Some v.
Proof.
  unfold array_key_exists, array_get. intros [v Hv]%bool_decide_eq_true. rewrite Hv. eauto.
Qed.

Lemma array_dup_eq a : array_dup a = a.
Proof.
  unfold array_dup, array_set, array_new.
  assert (Hf : forall l (b : array), foldl (fun b kv => <[kv.1 := kv.2]> b) b l
               = list_to_map (reverse l) ∪ b).
  { intros l. induction l as [|[k v] l IH]; intros b.
    - cbn. by rewrite (left_id_L ∅ (∪)).
    - rewrite reverse_cons, list_to_map_app. cbn [foldl fst snd]. rewrite IH. cbn. rewrite insert_empty, <- (assoc_L (∪)).
      by rewrite <- insert_union_singleton_l. }
  rewrite Hf, (right_id_L ∅ (∪)). rewrite <- (list_to_map_to_list a) at 2.
  symmetry. apply list_to_map_proper; [apply NoDup_fst_map_to_list|].
  by rewrite reverse_Permutation.
Qed.

(** Reads only add zero entries. *)
Definition grows (a b : array) : Prop :=
  a ⊆ b /\ forall k v, b !! k = Some v -> a !! k = Some v \/ v = 0.

#[export] Instance grows_preorder : PreOrder grows.
Proof.
  split.
  - intros a. split; [done|]. by left.
  - intros a b c [H1 H2] [H3 H4]. split; [by etransitivity|].
    intros k v Hv. destruct (H4 k v Hv) as [Hb|?]; [|by right]. by apply H2.
Qed.

Lemma array_get_grows a k : grows a (array_get a k).2.
Proof.
  unfold array_get. destruct (a !! k) eqn:Hk; cbn; [done|].
  split; [by apply insert_subseteq|].
  intros k' v [[<- <-]|[_ Hv]]%lookup_insert_Some; [by right|by left].
Qed.

Lemma key_tail_cons v args : key_tail (v :: args) = SUBSEP :: v ++ key_tail args.
Proof. done. Qed.

Lemma snprintf_fits buf off size src pre :
  take (Z.to_nat off) buf = pre -> length pre = Z.to_nat off -> 0 <= off ->
  Z.of_nat (length src) < size -> off + size <= Z.of_nat (length buf) ->
  exists buf', snprintf buf off size src = Ok (Z.of_nat (length src), buf') /\
    length buf' = length buf /\ take (length (pre ++ src)) buf' = pre ++ src.
Proof.
  intros Hpre Hlpre Hoff Hsz Hbuf. unfold snprintf. rewrite decide_False by lia.
  rewrite take_ge by lia.
  assert (Hlen : (Z.to_nat off + length (src ++ [0%Z]) <= length buf)%nat).
  { rewrite length_app. cbn. lia. }
  rewrite (buf_write_ok _ _ _ Hlen). eexists. split; [done|]. split.
  - rewrite !length_app, length_take, length_drop. rewrite length_app in Hlen. cbn in *. lia.
  - rewrite Hpre, <- app_assoc, (app_assoc pre). by rewrite take_app_length.
Qed.

Lemma array_key_args_fits args buf keylen len pre :
  take (length pre) buf = pre -> keylen = Z.of_nat (length pre) ->
  Z.of_nat (length (pre ++ key_tail args)) < len -> len <= Z.of_nat (length buf) -> len < 2 ^ 64 ->
  exists buf', array_key_args buf keylen len args =
      Ok (Z.of_nat (length (pre ++ key_tail args)), buf') /\
    length buf' = length buf /\
    take (length (pre ++ key_tail args)) buf' = pre ++ key_tail args.
Proof.
  revert buf keylen pre. induction args as [|v args IH]; intros buf keylen pre Hpre -> Hlen Hbuf H64.
  - exists buf. cbn. unfold key_tail. cbn. by rewrite app_nil_r.
  - rewrite key_tail_cons, app_comm_cons, app_assoc in *.
    assert (Hl1 : (length (pre ++ SUBSEP :: v) <= length ((pre ++ SUBSEP :: v) ++ key_tail args))%nat)
      by (rewrite (length_app (pre ++ _)); lia).
    rewrite length_app in Hl1 at 1.
    destruct (snprintf_fits buf (Z.of_nat (length pre)) (len - Z.of_nat (length pre)) (SUBSEP :: v) pre)
      as (buf1 & Hs & Hb1 & Ht1); [by rewrite Nat2Z.id|lia|lia|lia|lia|].
    destruct (IH buf1 (Z.of_nat (length (pre ++ SUBSEP :: v))) (pre ++ SUBSEP :: v))
      as (buf2 & Hr & Hb2 & Ht2); [done|done|done|lia|done|].
    exists buf2. split; [|by rewrite Hb2, Hb1]. cbn [array_key_args].
    rewrite u64_small by lia. rewrite Hs. cbn [mbind result_bind].
    rewrite u64_small by lia. rewrite <- Nat2Z.inj_add, <- length_app. exact Hr.
Qed.

Lemma buf_write_oob buf off src :
  (length buf < off + length src)%nat -> buf_write buf off src = Fault OutOfBounds.
Proof. intros H. unfold buf_write. rewrite decide_False; [done|lia]. Qed.

(** A write of [snprintf] stays in the buffer or is out of bounds; the length it
    returns is that of the whole text either way. *)
Lemma snprintf_bounded buf off size src :
  0 <= off ->
  (exists buf', snprintf buf off size src = Ok (Z.of_nat (length src), buf') /\
     length buf' = length buf) \/ snprintf buf off size src = Fault OutOfBounds.
Proof.
  intros Hoff. unfold snprintf. case_decide; [left; eauto|].
  destruct (buf_write buf _ _) as [buf'|e] eqn:Hw; cbn [mbind result_bind].
  - left. exists buf'. split; [done|]. by apply buf_write_length in Hw.
  - right. unfold buf_write in Hw. case_decide; congruence.
Qed.

Lemma array_key_args_bounded args buf keylen len pre :
  keylen = Z.of_nat pre -> Z.of_nat (pre + length (key_tail args)) < 2 ^ 64 ->
  (exists buf', array_key_args buf keylen len args =
      Ok (Z.of_nat (pre + length (key_tail args)), buf') /\ length buf' = length buf) \/
  array_key_args buf keylen len args = Fault OutOfBounds.
Proof.
  revert buf keylen pre. induction args as [|v args IH]; intros buf keylen pre -> Hlen.
  - left. exists buf. unfold key_tail. cbn. by rewrite Nat.add_0_r.
  - rewrite key_tail_cons in *. cbn [array_key_args length] in *. rewrite length_app in Hlen.
    destruct (snprintf_bounded buf (Z.of_nat pre) (u64 (len - Z.of_nat pre)) (SUBSEP :: v))
      as [(buf1 & -> & Hb1)| ->]; [lia| |by right].
    cbn [mbind result_bind length].
    destruct (IH buf1 (u64 (Z.of_nat pre + Z.of_nat (S (length v)))) (pre + S (length v))%nat)
      as [(buf2 & -> & Hb2)| ->]; [rewrite u64_small by lia; lia|lia| |by right].
    left. exists buf2. split; [|congruence]. rewrite length_app. do 2 f_equal. lia.
Qed.

(** [array_key_make]: when the arguments joined with SUBSEP are shorter than
    [len] the buffer holds them and a NUL and their length is returned; when they
    are not (and [len] is the size of the buffer), the last store, or the
    [snprintf] whose [len-keylen] has wrapped, is outside the buffer. *)
Theorem array_key_make_correct (buf : bytes) (len : Z) (arg1 : bytes) (args : list bytes)
    (Hlen : 0 < len) (Hbuf : len = Z.of_nat (length buf)) (H64 : len < 2 ^ 64)
    (Hkey : Z.of_nat (length (joined_key arg1 args)) < 2 ^ 64) :
  (Z.of_nat (length (joined_key arg1 args)) < len ->
   exists buf', array_key_make buf len arg1 args =
       Ok (Z.of_nat (length (joined_key arg1 args)), buf') /\
     length buf' = length buf /\
     take (S (length (joined_key arg1 args))) buf' = joined_key arg1 args ++ [0]) /\
  (len <= Z.of_nat (length (joined_key arg1 args)) ->
   array_key_make buf len arg1 args = Fault OutOfBounds).
Proof.
  unfold joined_key in *. rewrite length_app in Hkey |- *. split; intros Hl.
  - destruct (snprintf_fits buf 0 len arg1 []) as (buf1 & Hs & Hb1 & Ht1);
      [done|done|done|lia|lia|].
    cbn [app] in Ht1.
    destruct (array_key_args_fits args buf1 (Z.of_nat (length arg1)) len arg1)
      as (buf2 & Hr & Hb2 & Ht2); [done|done|by rewrite length_app|lia|done|].
    unfold array_key_make. rewrite Hs. cbn [mbind result_bind]. rewrite Hr.
    cbn [mbind result_bind]. rewrite Nat2Z.id, length_app in *.
    rewrite buf_write_ok by (cbn; lia). cbn [mbind result_bind].
    eexists. split; [done|]. split.
    { rewrite !length_app, length_take, length_drop. cbn. lia. }
    rewrite Ht2. rewrite app_assoc, take_app_le by (rewrite !length_app; cbn; lia).
    apply take_ge. rewrite !length_app. cbn. lia.
  - unfold array_key_make.
    destruct (snprintf_bounded buf 0 len arg1) as [(buf1 & -> & Hb1)| ->]; [lia| |done].
    cbn [mbind result_bind].
    destruct (array_key_args_bounded args buf1 (Z.of_nat (length arg1)) len (length arg1))
      as [(buf2 & -> & Hb2)| ->]; [done|done| |done].
    cbn [mbind result_bind]. rewrite buf_write_oob; [done|]. rewrite Nat2Z.id. cbn. lia.
Qed.

Lemma array_key_make_correct_witness :
  (Z.of_nat (length (joined_key (str "list") [str "0"])) < 8 ->
   exists buf', array_key_make (replicate 8 170) 8 (str "list") [str "0"] = Ok (6, buf') /\
     length buf' = length (replicate 8 170) /\
     take 7 buf' = joined_key (str "list") [str "0"] ++ [0]) /\
  (8 <= Z.of_nat (length (joined_key (str "list") [str "0"])) ->
   array_key_make (replicate 8 170) 8 (str "list") [str "0"] = Fault OutOfBounds).
Proof.
  apply (array_key_make_correct (replicate 8 170) 8 (str "list") [str "0"]);
    vm_compute; congruence.
Defined.
