(* ===== verification/AssocHat.v ===== *)
(** * Associative arrays on the HAT-trie

    The [array_*] macros of src/assoc_array_impl_hattrie.h expand to calls of the trie.
    [AssocImpl] is what the program relies on of an implementation of arrays; the trie
    is an instance, and a client proved against the class holds for it. *)
From S2P Require Import Prelude NodeHeap CLib Bytes Ahtable Hattrie HattrieInv HattrieOps HattrieSplit HattrieSpec Assoc.

#[local] Open Scope Z_scope.

(** A key the arrays are used with, and a value that is a [value_t]. *)
Definition good_key (k : bytes) : Prop := cstr_key k /\ (length k <= MAX_KEY)%nat.
Definition good_val (v : Z) : Prop := 0 <= v < 2 ^ 64.

(** ** The interface *)
Class AssocImpl (A : Type) := {
  ai_rep : A -> array -> Prop;
  ai_get : bytes -> st A Z;
  ai_set : bytes -> Z -> st A unit;
  ai_key_exists : bytes -> st A bool;
  ai_del : bytes -> st A Z;
  ai_size : A -> Z
}.

Class AssocLaws (A : Type) `{AssocImpl A} := {
  al_get a m k : ai_rep a m -> good_key k -> Z.of_nat (size m) < 2 ^ 47 ->
    exists a', ai_get k a = Ok ((array_get m k).1, a') /\ ai_rep a' (array_get m k).2;
  al_set a m k v : ai_rep a m -> good_key k -> good_val v -> Z.of_nat (size m) < 2 ^ 47 ->
    exists a', ai_set k v a = Ok (tt, a') /\ ai_rep a' (array_set m k v);
  al_exists a m k : ai_rep a m -> good_key k -> ai_key_exists k a = Ok (array_key_exists m k, a);
  al_del a m k : ai_rep a m -> good_key k -> Z.of_nat (size m) < 2 ^ 47 ->
    exists a', ai_del k a = Ok (if array_key_exists m k then 0 else -1, a') /\ ai_rep a' (array_del m k);
  al_size a m : ai_rep a m -> ai_size a = Z.of_nat (array_size m)
}.

(** ** The macros on the trie *)
Definition hat_array_get (k : bytes) : st hattrie Z := q ← hattrie_get k (length k); hat_load q.
Definition hat_array_set (k : bytes) (v : Z) : st hattrie unit := q ← hattrie_get k (length k); hat_store q v.
Definition hat_array_key_exists (k : bytes) : st hattrie bool :=
  q ← hattrie_tryget k (length k); mret (match q with Some _ => true | None => false end).
Definition hat_array_del (k : bytes) : st hattrie Z := hattrie_del k (length k).

#[export] Instance hat_assoc : AssocImpl hattrie := {
  ai_rep := ht_rep; ai_get := hat_array_get; ai_set := hat_array_set;
  ai_key_exists := hat_array_key_exists; ai_del := hat_array_del; ai_size := hattrie_size
}.

Lemma get_ok_rep (T : hattrie) (m : gmap bytes Z) (k : bytes) :
  ht_rep T m -> good_key k -> Z.of_nat (size m) < 2 ^ 47 ->
  exists q T', hattrie_get k (length k) T = Ok (q, T') /\ hat_ptr T' (<[k := default 0 (m !! k)]> m) q k.
Proof.
  intros (P & B & Hinv) [Hk Hlen] Hs. destruct (hat_get_ok T P B m k [] Hinv Hk Hlen Hs) as (q & T' & Hg & Hp).
  rewrite app_nil_r in Hg. eauto.
Qed.

Lemma hat_ptr_ht_rep (T : hattrie) (m : gmap bytes Z) q k : hat_ptr T m q k -> ht_rep T m.
Proof. intros []. by eexists _, _. Qed.

#[export] Instance hat_laws : AssocLaws hattrie.
Proof.
  split.
  - intros T m k Hr Hk Hs. destruct (get_ok_rep T m k Hr Hk Hs) as (q & T' & Hg & Hp).
    destruct (hat_ptr_load _ _ _ _ Hp) as (v & Hv & Hl). rewrite lookup_insert_eq in Hv. injection Hv as <-.
    apply hat_ptr_ht_rep in Hp. exists T'. cbn. unfold hat_array_get. run_step Hg. rewrite Hl. unfold array_get.
    destruct (m !! k) as [v|] eqn:Hmk; cbn in *; [by rewrite insert_id in Hp|done].
  - intros T m k v Hr Hk Hv Hs. destruct (get_ok_rep T m k Hr Hk Hs) as (q & T' & Hg & Hp).
    destruct (hat_ptr_store _ _ _ _ v Hp Hv) as (T'' & Hst & Hr''). rewrite insert_insert_eq in Hr''.
    exists T''. cbn. unfold hat_array_set. by run_step Hg.
  - intros T m k (P & B & Hinv) [Hk Hlen]. cbn. unfold hat_array_key_exists, array_key_exists.
    pose proof (hat_tryget_ok T P B m k [] Hinv Hk) as Ht. rewrite app_nil_r in Ht.
    destruct (m !! k) as [v|] eqn:Hmk.
    + destruct Ht as (q & Hq & _). run_step Hq. rewrite bool_decide_eq_true_2 by eauto. done.
    + run_step Ht. rewrite bool_decide_eq_false_2 by (intros [? [=]]). done.
  - intros T m k (P & B & Hinv) [Hk Hlen] Hs. destruct (hat_del_ok T P B m k [] Hinv Hk ltac:(lia)) as (T' & Hd & Hr').
    rewrite app_nil_r in Hd. exists T'. cbn. unfold hat_array_del. rewrite Hd. split; [|done].
    unfold array_key_exists. do 2 f_equal. by repeat case_decide; case_bool_decide.
  - intros T m (P & B & Hinv). apply (hti_m _ _ _ _ Hinv).
Qed.

(** ** Programs over an array *)
Inductive array_op :=
  | OpGet (k : bytes) | OpSet (k : bytes) (v : Z) | OpExists (k : bytes) | OpDel (k : bytes) | OpSize.

Definition good_op (o : array_op) : Prop :=
  match o with
  | OpGet k | OpExists k | OpDel k => good_key k
  | OpSet k v => good_key k /\ good_val v
  | OpSize => True
  end.

Section client.
Context {A : Type} `{AssocLaws A}.

Definition run_op (o : array_op) : st A Z :=
  match o with
  | OpGet k => ai_get k
  | OpSet k v => _ ← ai_set k v; mret 0
  | OpExists k => b ← ai_key_exists k; mret (Z.b2z b)
  | OpDel k => ai_del k
  | OpSize => getsS ai_size
  end.

Fixpoint run_ops (os : list array_op) : st A (list Z) :=
  match os with
  | [] => mret []
  | o :: os => r ← run_op o; rs ← run_ops os; mret (r :: rs)
  end.
End client.

(** The same on the finite map. *)
Definition spec_op (o : array_op) (m : array) : Z * array :=
  match o with
  | OpGet k => array_get m k
  | OpSet k v => (0, array_set m k v)
  | OpExists k => (Z.b2z (array_key_exists m k), m)
  | OpDel k => (if array_key_exists m k then 0 else -1, array_del m k)
  | OpSize => (Z.of_nat (array_size m), m)
  end.

Fixpoint spec_ops (os : list array_op) (m : array) : list Z * array :=
  match os with
  | [] => ([], m)
  | o :: os => let r := spec_op o m in let rs := spec_ops os r.2 in (r.1 :: rs.1, rs.2)
  end.

Lemma spec_op_size o m : (size (spec_op o m).2 <= S (size m))%nat.
Proof.
  destruct o; cbn; unfold array_get, array_set, array_del.
  - destruct (m !! k) eqn:Hk; cbn; [lia|]. apply size_insert_le.
  - apply size_insert_le.
  - lia.
  - rewrite map_size_delete. destruct (m !! k); cbn; lia.
  - lia.
Qed.

Lemma run_op_ok {A} `{AssocLaws A} (a : A) m o :
  ai_rep a m -> good_op o -> Z.of_nat (size m) < 2 ^ 47 ->
  exists a', run_op o a = Ok ((spec_op o m).1, a') /\ ai_rep a' (spec_op o m).2.
Proof.
  intros Hr Ho Hs. destruct o as [k|k v|k|k|]; cbn in Ho |- *.
  - by apply al_get.
  - destruct Ho as [Hk Hv]. destruct (al_set a m k v Hr Hk Hv Hs) as (a' & Hset & Hr'). exists a'. by run_step Hset.
  - exists a. by run_step (al_exists a m k Hr Ho).
  - by apply al_del.
  - exists a. unfold getsS. by rewrite (al_size a m Hr).
Qed.

Lemma run_ops_ok {A} `{AssocLaws A} (a : A) m os :
  ai_rep a m -> Forall good_op os -> Z.of_nat (size m + length os) < 2 ^ 47 ->
  exists a', run_ops os a = Ok ((spec_ops os m).1, a') /\ ai_rep a' (spec_ops os m).2.
Proof.
  intros Hr Ho. revert a m Hr. induction Ho as [|o os Ho _ IH]; intros a m Hr Hs; [by exists a|]. cbn [length] in Hs.
  destruct (run_op_ok a m o Hr Ho) as (a1 & H1 & Hr1); [lia|].
  destruct (IH a1 _ Hr1) as (a2 & H2 & Hr2); [pose proof (spec_op_size o m); lia|].
  exists a2. cbn [run_ops spec_ops fst snd]. split; [|done]. run_step H1. by run_step H2.
Qed.

(** C6: Every program over the [array_*] macros run on a new trie, of fewer than 2^47 operations on
    keys that end in their only NUL and are with it at most [MAX_KEY] (32767) bytes, gives the answers it would
    give on a finite map, and ends with a trie that holds that map: what the models of
    the route table and of the sessions assume of arrays is what the trie does. *)
Theorem array_program_refines os
    (Hos : Forall good_op os) (Hlen : Z.of_nat (length os) < 2 ^ 47) :
  exists T T', hattrie_create = Ok T /\
    run_ops os T = Ok ((spec_ops os array_new).1, T') /\ ht_rep T' (spec_ops os array_new).2.
Proof.
  destruct hat_create_ok as (T & Hc & Hr). destruct (@run_ops_ok hattrie hat_assoc hat_laws T ∅ os Hr Hos) as (T' & Hrun & Hr').
  - by rewrite map_size_empty.
  - by exists T, T'.
Qed.

Lemma array_program_refines_witness :
  exists T T', hattrie_create = Ok T /\
    run_ops [OpSet (key "/a") 7; OpGet (key "/b"); OpGet (key "/a"); OpSize] T = Ok ([0; 0; 7; 2], T').
Proof.
  assert (Ha : good_key (key "/a")) by (split; [exists (str "/a"); split; [done|by repeat constructor]|apply Nat.leb_le; by vm_compute]).
  assert (Hb : good_key (key "/b")) by (split; [exists (str "/b"); split; [done|by repeat constructor]|apply Nat.leb_le; by vm_compute]).
  assert (Hv : good_val 7) by (split; lia).
  destruct (array_program_refines [OpSet (key "/a") 7; OpGet (key "/b"); OpGet (key "/a"); OpSize]) as (T & T' & Hc & Hr & _).
  - apply Forall_cons_2; [exact (conj Ha Hv)|]. apply Forall_cons_2; [exact Hb|]. apply Forall_cons_2; [exact Ha|].
    apply Forall_cons_2; [exact I|apply Forall_nil_2].
  - done.
  - exists T, T'. split; [exact Hc|]. rewrite Hr. reflexivity.
Defined.
