(* ===== verification/AssocDup.v ===== *)
(** * Copying an array

    [array_dup] of src/assoc_array_impl_hattrie.h on the trie: each session gets a copy of the
    arguments of the listener that accepted it.  Copying and iterating visit every entry once. *)
From S2P Require Import Prelude NodeHeap CLib Bytes Ahtable AhtableOk AhtableIter Hattrie HattrieIter HattrieInv HattrieOps HattrieSpec HattrieIterOk Assoc AssocHat.

#[local] Open Scope Z_scope.

(** ** The macro

    [ikey] points into the key buffer of the iterator, which goes on after the key. *)
Fixpoint dup_loop (fuel : nat) (T : hattrie) (i : hattrie_iter) (b : hattrie) : result hattrie :=
  match fuel with
  | O => Fault NoFuel
  | S fuel =>
      if hattrie_iter_finished i then Ok b
      else
        ki ← hattrie_iter_key T i;
        k ← from_option_fault NullDeref ki.1;
        let ikey := drop (length (hi_prefix ki.2)) (hi_key ki.2) in
        p ← hattrie_iter_val T ki.2;
        p ← from_option_fault NullDeref p;
        v ← match p with inl v => Ok v | inr p => fst <$> hat_load p T end;
        q ← hattrie_get ikey (length k) b;
        b ← hat_store q.1 v q.2;
        i ← hattrie_iter_next T ki.2;
        dup_loop fuel T i b.2
  end.

Definition hat_array_dup (T : hattrie) : result hattrie :=
  i ← hattrie_iter_begin T false;
  b ← hattrie_create;
  dup_loop (S (Z.to_nat (hattrie_size T))) T i b.

(** ** Copies *)
Lemma ah_rep_values t m k v : ah_rep t m -> m !! k = Some v -> 0 <= v < 2 ^ 64.
Proof.
  intros (ess & [Ht _ _ _] & <-) Hk. apply elem_of_list_to_map_2, list_elem_of_join in Hk as (es & Hk & Hes).
  destruct (proj1 (list_elem_of_lookup _ _) Hes) as [i Hi].
  destruct (Forall2_lookup_r _ _ _ _ _ (tr_slots _ _ Ht) Hi) as (sl & _ & Hsl).
  pose proof (sr_ok _ _ Hsl) as Hok. rewrite Forall_forall in Hok. by apply (Hok _ Hk).
Qed.

(** An array holds words. *)
Lemma ht_rep_values T m k v : ht_rep T m -> m !! k = Some v -> good_key k /\ good_val v.
Proof.
  intros (P & B & Hinv) Hk. split; [apply (hti_keys _ _ _ _ Hinv); by rewrite Hk|].
  destruct (home_exists Hinv k v Hk) as (b & l & c0 & c1 & p & k' & HB & HP & -> & Hr).
  destruct (hti_bucket _ _ _ _ Hinv _ _ _ _ HB) as (p' & t & mb & HP' & Hbk). rewrite HP in HP'. injection HP' as <-.
  apply (ah_rep_values t mb (strip c0 c1 k') v (bo_rep _ _ _ _ _ _ _ _ _ Hbk)).
  rewrite (bo_map _ _ _ _ _ _ _ _ _ Hbk), bkey_strip by done. by rewrite decide_True.
Qed.

Lemma set_through T m k rest v : ht_rep T m -> good_key k -> good_val v -> Z.of_nat (size m) < 2 ^ 47 ->
  exists q T1 T2, hattrie_get (k ++ rest) (length k) T = Ok (q, T1) /\ hat_store q v T1 = Ok (tt, T2) /\ ht_rep T2 (<[k := v]> m).
Proof.
  intros (P & B & Hinv) [Hk Hlen] Hv Hs. destruct (hat_get_ok T P B m k rest Hinv Hk Hlen Hs) as (q & T1 & Hg & Hp).
  destruct (hat_ptr_store _ _ _ _ v Hp Hv) as (T2 & Hst & Hr). rewrite insert_insert_eq in Hr. by exists q, T1, T2.
Qed.

Lemma dup_loop_ok T P B m (Hinv : ht_inv T P B m) (Hmem : Z.of_nat (size (ht_nodes T)) < 2 ^ 63)
    (Hsize : Z.of_nat (size m) < 2 ^ 47) fuel i R b D :
  settled (T := T) (P := P) (B := B) (m := m) i R -> (size R < fuel)%nat -> ht_rep b D -> D ∪ R = m -> D ##ₘ R ->
  exists b', dup_loop fuel T i b = Ok b' /\ ht_rep b' m.
Proof.
  revert i R b D. induction fuel as [|fuel IH]; intros i R b D Hset Hf Hb HD Hdisj; [lia|]. cbn [dup_loop].
  destruct (hi_i i) as [[n x]|] eqn:Hi.
  - destruct (iter_entry Hinv i R n x Hmem Hset Hi) as (k & v & i1 & q & i2 & Hk & HR & Hm & Hpre & [rest Hbuf] & Hv & Hq & Hn & Hset').
    destruct (ht_rep_values T m k v) as [Hgk Hgv]; [by exists P, B|done|].
    assert (HDm : Z.of_nat (size D) < 2 ^ 47).
    { assert (size D <= size m)%nat; [|lia]. apply map_subseteq_size. rewrite <- HD. apply map_union_subseteq_l. }
    destruct (set_through b D k rest v Hb Hgk Hgv HDm) as (p & b1 & b2 & Hget & Hstore & Hb2).
    unfold hattrie_iter_finished. rewrite Hi, andb_false_r. cbn [andb]. rewrite Hk. cbn [mbind result_bind fst snd from_option_fault].
    rewrite Hv. cbn [mbind result_bind from_option_fault]. rewrite Hq. cbn [fmap result_fmap mbind result_bind fst].
    rewrite Hpre, drop_0, Hbuf, Hget. cbn [mbind result_bind fst snd]. rewrite Hstore. cbn [mbind result_bind fst snd].
    rewrite Hn. cbn [mbind result_bind]. apply (IH i2 (delete k R) b2 (<[k := v]> D)); [done| |done| |].
    + assert (size R = S (size (delete k R))); [|lia].
      rewrite <- (insert_delete_id R k v HR) at 1. by rewrite map_size_insert_None by apply lookup_delete_eq.
    + rewrite <- insert_union_l, insert_union_r by (by eapply map_disjoint_Some_r). by rewrite (insert_delete_id R k v HR).
    + apply map_disjoint_insert_l_2; [apply lookup_delete_eq|by apply map_disjoint_delete_r].
  - destruct Hset as [[(Hnil & _ & _) _ Hc] Hst]. rewrite Hi in Hc, Hst.
    unfold hattrie_iter_finished. rewrite Hi, Hst, Hnil, bool_decide_eq_true_2 by done. cbn [negb andb]. exists b. split; [done|].
    rewrite Hst in Hc. rewrite <- HD, (left_over_empty R Hc). by rewrite map_union_empty.
Qed.

(** C8: A copy of an array holds the same entries, and copying neither faults nor runs on. *)
Theorem array_dup_copies T m
    (Hr : ht_rep T m) (Hmem : Z.of_nat (size (ht_nodes T)) < 2 ^ 63) (Hsize : Z.of_nat (size m) < 2 ^ 47) :
  exists T', hat_array_dup T = Ok T' /\ ht_rep T' m.
Proof.
  destruct Hr as (P & B & Hinv). destruct (begin_ok Hinv false Hmem) as (i & Hb & Hset).
  destruct hat_create_ok as (b & Hc & Hb0).
  destruct (dup_loop_ok T P B m Hinv Hmem Hsize (S (Z.to_nat (hattrie_size T))) i m b ∅) as (b' & Hd & Hr');
    [done|unfold hattrie_size; rewrite (hti_m _ _ _ _ Hinv); lia|done|apply map_empty_union|apply map_disjoint_empty_l|].
  exists b'. split; [|done]. unfold hat_array_dup. rewrite Hb. cbn [mbind result_bind]. rewrite Hc. cbn [mbind result_bind]. exact Hd.
Qed.

(** A trie with two entries, below two buckets. *)
Definition demo : result hattrie := T ← hattrie_create; snd <$> run_ops [OpSet (key "/a") 7; OpSet (key "") 9] T.
Definition demo_map : array := <[key "" := 9]> (<[key "/a" := 7]> ∅).

Lemma demo_ok : exists T, demo = Ok T /\ ht_rep T demo_map /\ Z.of_nat (size (ht_nodes T)) < 2 ^ 63.
Proof.
  assert (Ha : good_key (key "/a")) by (split; [exists (str "/a"); split; [done|by repeat constructor]|apply Nat.leb_le; by vm_compute]).
  assert (He : good_key (key "")) by (split; [exists (str ""); split; [done|by repeat constructor]|apply Nat.leb_le; by vm_compute]).
  destruct hat_create_ok as (T & Hc & Hr).
  destruct (@run_ops_ok hattrie hat_assoc hat_laws T ∅ [OpSet (key "/a") 7; OpSet (key "") 9] Hr) as (T' & Hrun & Hr').
  - apply Forall_cons_2; [split; [exact Ha|split; lia]|]. apply Forall_cons_2; [split; [exact He|split; lia]|apply Forall_nil_2].
  - done.
  - assert (Hd : demo = Ok T') by (unfold demo; rewrite Hc; cbn [mbind result_bind]; by rewrite Hrun). exists T'. split; [done|]. split; [done|].
    assert (Hsz : (match demo with Ok T => bool_decide (size (ht_nodes T) < 100)%nat | Fault _ => false end) = true) by by vm_compute.
    rewrite Hd in Hsz. apply bool_decide_eq_true in Hsz. lia.
Qed.

Lemma array_dup_copies_witness : exists T T', demo = Ok T /\ hat_array_dup T = Ok T' /\ ht_rep T' demo_map.
Proof.
  destruct demo_ok as (T & Hd & Hr & Hs). destruct (array_dup_copies T demo_map Hr Hs) as (T' & HT & Hr'); [by vm_compute|].
  exists T, T'. split; [exact Hd|]. split; [exact HT|exact Hr'].
Defined.

(** C7: A whole iteration over a trie gives each entry of its map once, with its value,
    sorted or not; it does not fault, and it ends. *)
Theorem hattrie_iteration T m sorted
    (Hr : ht_rep T m) (Hmem : Z.of_nat (size (ht_nodes T)) < 2 ^ 63) :
  exists i l, hattrie_iter_begin T sorted = Ok i /\ iter_entries (S (size m)) T i = Ok l /\ l ≡ₚ map_to_list m.
Proof.
  destruct Hr as (P & B & Hinv). destruct (begin_ok Hinv sorted Hmem) as (i & Hb & Hset).
  destruct (iter_entries_ok Hinv (S (size m)) i m Hmem Hset ltac:(lia)) as (l & Hl & Hp). by exists i, l.
Qed.

Lemma hattrie_iteration_witness :
  exists T i l, demo = Ok T /\ hattrie_iter_begin T true = Ok i /\ iter_entries 3 T i = Ok l /\ l ≡ₚ [(key "", 9); (key "/a", 7)].
Proof.
  destruct demo_ok as (T & Hd & Hr & Hs). destruct (hattrie_iteration T demo_map true Hr Hs) as (i & l & Hi & Hl & Hp).
  exists T, i, l. split; [exact Hd|]. split; [exact Hi|]. split; [exact Hl|]. rewrite Hp. unfold demo_map. rewrite !map_to_list_insert by done. by rewrite map_to_list_empty.
Defined.
