(* ===== verification/Hook.v ===== *)
(** * Hooks and their memory

    [hook_t] of src/main.h: a reference-counted object per socket with its own
    memory pool, and the [hook_*] macros.  The store holds the hooks, the blocks
    the pools own and the associative arrays; addresses are never NULL and a freed
    address is absent from the store. *)
From S2P Require Import Prelude NodeHeap CLib Assoc.

#[local] Open Scope Z_scope.

(** The functions [hook_t.ready] and [hook_t.process] are set to. *)
Inductive ready_fn := Rd_on_connect | Rd_on_data.
Inductive process_fn := Pr_process_data.

(** udata slots, src/main.h *)
Definition UD_CORE_SYSPTR : nat := 1.
Definition UD_CORE_NREAD : nat := 2.
Definition UD_CORE_NUM : nat := 3.
Definition UD_CORE_MSGHDR : nat := 4.
Definition UD_MOD_HTTP_ROUTE : nat := 5.
Definition UD_RESERVED : nat := 8.
Definition UDATASZ : nat := 16.

Record hook := Hook {
  hk_mp : list loc;                (* memory pool, last allocation first *)
  hk_fd : Z;
  hk_ready : option ready_fn;
  hk_process : option process_fn;
  hk_data : option loc;
  hk_events : Z;
  hk_refcnt : Z;
  hk_udata : list Z
}.

(** Contents of a block: a byte buffer, a [struct msghdr], an array of
    [struct iovec], an array of words, or a library's structure. *)
Record msghdr := Msghdr {
  msg_name : option loc; msg_namelen : Z; msg_iov : option loc; msg_iovlen : Z
}.

Inductive block :=
  | BBytes (b : bytes)
  | BMsghdr (m : msghdr)
  | BIov (v : list (loc * Z))
  | BWords (w : list Z)
  | BOpaque.

Record mem := Mem {
  m_hooks : gmap loc hook;
  m_blocks : gmap loc block;
  m_arrays : gmap loc array
}.

(** A pointer stored in a word. *)
Definition ptr (l : loc) : Z := Zpos l.
Definition of_ptr (z : Z) : option loc := match z with Zpos l => Some l | _ => None end.

Definition upd_mp (f : list loc -> list loc) (h : hook) : hook :=
  Hook (f (hk_mp h)) (hk_fd h) (hk_ready h) (hk_process h) (hk_data h) (hk_events h)
    (hk_refcnt h) (hk_udata h).
Definition set_fd (fd : Z) (h : hook) : hook :=
  Hook (hk_mp h) fd (hk_ready h) (hk_process h) (hk_data h) (hk_events h) (hk_refcnt h) (hk_udata h).
Definition set_ready (r : option ready_fn) (h : hook) : hook :=
  Hook (hk_mp h) (hk_fd h) r (hk_process h) (hk_data h) (hk_events h) (hk_refcnt h) (hk_udata h).
Definition set_process (p : option process_fn) (h : hook) : hook :=
  Hook (hk_mp h) (hk_fd h) (hk_ready h) p (hk_data h) (hk_events h) (hk_refcnt h) (hk_udata h).
Definition set_data (d : option loc) (h : hook) : hook :=
  Hook (hk_mp h) (hk_fd h) (hk_ready h) (hk_process h) d (hk_events h) (hk_refcnt h) (hk_udata h).
Definition set_events (e : Z) (h : hook) : hook :=
  Hook (hk_mp h) (hk_fd h) (hk_ready h) (hk_process h) (hk_data h) e (hk_refcnt h) (hk_udata h).
Definition upd_refcnt (f : Z -> Z) (h : hook) : hook :=
  Hook (hk_mp h) (hk_fd h) (hk_ready h) (hk_process h) (hk_data h) (hk_events h) (f (hk_refcnt h))
    (hk_udata h).
Definition set_udata (i : nat) (v : Z) (h : hook) : hook :=
  Hook (hk_mp h) (hk_fd h) (hk_ready h) (hk_process h) (hk_data h) (hk_events h) (hk_refcnt h)
    (<[i := v]> (hk_udata h)).

(** ** Accesses *)
Definition hook_load (p : loc) : st mem hook :=
  fun m => match m_hooks m !! p with Some h => Ok (h, m) | None => Fault UseAfterFree end.

Definition hook_modify (p : loc) (f : hook -> hook) : st mem unit :=
  fun m => match m_hooks m !! p with
           | Some h => Ok (tt, Mem (<[p := f h]> (m_hooks m)) (m_blocks m) (m_arrays m))
           | None => Fault UseAfterFree
           end.

Definition block_load (b : loc) : st mem block :=
  fun m => match m_blocks m !! b with Some x => Ok (x, m) | None => Fault UseAfterFree end.

Definition block_store (b : loc) (x : block) : st mem unit :=
  fun m => match m_blocks m !! b with
           | Some _ => Ok (tt, Mem (m_hooks m) (<[b := x]> (m_blocks m)) (m_arrays m))
           | None => Fault UseAfterFree
           end.

Definition array_load (a : loc) : st mem array :=
  fun m => match m_arrays m !! a with Some x => Ok (x, m) | None => Fault UseAfterFree end.

Definition array_store (a : loc) (x : array) : st mem unit :=
  fun m => match m_arrays m !! a with
           | Some _ => Ok (tt, Mem (m_hooks m) (m_blocks m) (<[a := x]> (m_arrays m)))
           | None => Fault UseAfterFree
           end.

(** [hp->udata[i]]: outside the array is a fault. *)
Definition udata_load (p : loc) (i : nat) : st mem Z :=
  h ← hook_load p; liftS (from_option_fault OutOfBounds (hk_udata h !! i)).

(** ** The macros; [malloc] returns the address given to each of them. *)
Definition hook_new (p : loc) : st mem unit :=
  modifyS (fun m =>
    Mem (<[p := Hook [] 0 None None None 0 1 (replicate UDATASZ 0)]> (m_hooks m))
      (m_blocks m) (m_arrays m)).

Definition hook_add (p b : loc) : st mem unit := hook_modify p (upd_mp (cons b)).

Definition hook_malloc (p b : loc) (x : block) : st mem unit :=
  _ ← modifyS (fun m => Mem (m_hooks m) (<[b := x]> (m_blocks m)) (m_arrays m));
  hook_add p b.

(** [hook_zalloc]: the same, zeroed. *)
Definition hook_zalloc (p b : loc) (x : block) : st mem unit := hook_malloc p b x.

(** [slist_free((h)->mp, 1)]: every block of the pool, last allocation first. *)
Fixpoint free_blocks (bs : list loc) : st mem unit :=
  match bs with
  | [] => mret tt
  | b :: bs =>
      _ ← block_load b;
      _ ← modifyS (fun m => Mem (m_hooks m) (delete b (m_blocks m)) (m_arrays m));
      free_blocks bs
  end.

Definition array_free (a : loc) : st mem unit :=
  _ ← array_load a;
  modifyS (fun m => Mem (m_hooks m) (m_blocks m) (delete a (m_arrays m))).

Definition hook_free_real (p : loc) : st mem unit :=
  h ← hook_load p;
  _ ← free_blocks (hk_mp h);
  _ ← match hk_data h with None => mret tt | Some a => array_free a end;
  _ ← hook_load p;
  modifyS (fun m => Mem (delete p (m_hooks m)) (m_blocks m) (m_arrays m)).

(** [ATOMIC_SUB((ptr)->refcnt,1) == 0] *)
Definition hook_sub (p : loc) : st mem bool :=
  _ ← hook_modify p (upd_refcnt (fun c => c - 1));
  h ← hook_load p;
  mret (bool_decide (hk_refcnt h = 0)).

Definition hook_free (p : loc) : st mem unit :=
  z ← hook_sub p; if z : bool then hook_free_real p else mret tt.

Definition hook_unref (p : loc) : st mem unit := hook_free p.

Definition hook_ref (p : loc) : st mem unit := hook_modify p (upd_refcnt (fun c => c + 1)).

(** ** Memory invariant

    Every pool holds distinct live blocks, no block is in two pools, every live
    block is in one; only listening sockets share their [data] array. *)
Record mem_ok (m : mem) : Prop := {
  mok_nodup p h : m_hooks m !! p = Some h -> NoDup (hk_mp h);
  mok_disj p q hp hq b :
    m_hooks m !! p = Some hp -> m_hooks m !! q = Some hq -> b ∈ hk_mp hp -> b ∈ hk_mp hq -> p = q;
  mok_live p h b : m_hooks m !! p = Some h -> b ∈ hk_mp h -> is_Some (m_blocks m !! b);
  mok_owned b : is_Some (m_blocks m !! b) -> exists p h, m_hooks m !! p = Some h /\ b ∈ hk_mp h;
  mok_data p h a : m_hooks m !! p = Some h -> hk_data h = Some a -> is_Some (m_arrays m !! a);
  mok_data_own p q hp hq a :
    m_hooks m !! p = Some hp -> m_hooks m !! q = Some hq ->
    hk_data hp = Some a -> hk_data hq = Some a -> hk_ready hp = Some Rd_on_data -> p = q;
  mok_udata p h : m_hooks m !! p = Some h -> length (hk_udata h) = UDATASZ
}.

(** What a change of one hook's own fields keeps. *)
Definition same_mem (h h' : hook) : Prop :=
  hk_mp h' = hk_mp h /\ hk_data h' = hk_data h /\ hk_ready h' = hk_ready h /\
  length (hk_udata h') = length (hk_udata h).

(** Simplify a lookup in an updated store of hooks. *)
Ltac at_hook :=
  repeat match goal with
  | H : <[?p := _]> _ !! ?q = Some _ |- _ =>
      destruct (decide (p = q)) as [<-|]; [rewrite lookup_insert_eq in H; injection H as H; try subst|
        rewrite lookup_insert_ne in H by done]
  | H : delete ?p _ !! ?q = Some _ |- _ => apply lookup_delete_Some in H as [? H]
  end.

Lemma mem_ok_modify m p h h' :
  mem_ok m -> m_hooks m !! p = Some h -> same_mem h h' ->
  mem_ok (Mem (<[p := h']> (m_hooks m)) (m_blocks m) (m_arrays m)).
Proof.
  intros [H1 H2 H3 H4 H5 H6 H7] Hp (Hmp & Hd & Hr & Hu). split; cbn [m_hooks m_blocks m_arrays].
  - intros q hq Hq. at_hook; [rewrite Hmp|]; eauto.
  - intros p' q' hp' hq' b Hp' Hq' Hb Hb'. at_hook; try done; try rewrite Hmp in *; eauto.
  - intros q hq b Hq Hb. at_hook; [rewrite Hmp in Hb|]; eauto.
  - intros b Hb. destruct (H4 b Hb) as (q & hq & Hq & Hin).
    destruct (decide (p = q)) as [<-|Hne].
    + exists p, h'. rewrite lookup_insert_eq, Hmp. split; [done|]. congruence.
    + exists q, hq. by rewrite lookup_insert_ne.
  - intros q hq a Hq Ha. at_hook; [rewrite Hd in Ha|]; eauto.
  - intros p' q' hp' hq' a Hp' Hq' Ha Ha' Hready.
    at_hook; try done; try rewrite Hd in *; try rewrite Hr in *; eauto.
  - intros q hq Hq. at_hook; [rewrite Hu|]; eauto.
Qed.

(** Only what is in the blocks and arrays changes. *)
Lemma mem_ok_contents m bs ars :
  mem_ok m -> (forall b, is_Some (bs !! b) <-> is_Some (m_blocks m !! b)) ->
  (forall a, is_Some (m_arrays m !! a) -> is_Some (ars !! a)) ->
  mem_ok (Mem (m_hooks m) bs ars).
Proof.
  intros [H1 H2 H3 H4 H5 H6 H7] Hb Ha. split; cbn [m_hooks m_blocks m_arrays]; try done.
  - intros p h b Hp Hin. apply Hb. eauto.
  - intros b Hin. apply H4. by apply Hb.
  - intros p h a Hp Hda. apply Ha. eauto.
Qed.

(** Adding fresh blocks to the pool of a hook. *)
Lemma mem_ok_alloc m p h h' new bs :
  mem_ok m -> m_hooks m !! p = Some h ->
  hk_mp h' = new ++ hk_mp h -> hk_data h' = hk_data h -> hk_ready h' = hk_ready h ->
  length (hk_udata h') = length (hk_udata h) ->
  NoDup new -> (forall b, b ∈ new -> m_blocks m !! b = None) ->
  (forall b, is_Some (bs !! b) <-> is_Some (m_blocks m !! b) \/ b ∈ new) ->
  mem_ok (Mem (<[p := h']> (m_hooks m)) bs (m_arrays m)).
Proof.
  intros [H1 H2 H3 H4 H5 H6 H7] Hp Hmp Hd Hr Hu Hnd Hfresh Hbs.
  assert (Hnew : forall b q hq, b ∈ new -> m_hooks m !! q = Some hq -> b ∈ hk_mp hq -> False).
  { intros b q hq Hb Hq Hin. destruct (H3 q hq b Hq Hin) as [x Hx].
    rewrite (Hfresh b Hb) in Hx. done. }
  split; cbn [m_hooks m_blocks m_arrays].
  - intros q hq Hq. at_hook; [|by eauto]. rewrite Hmp. apply NoDup_app. naive_solver.
  - intros p' q' hp' hq' b Hp' Hq' Hb Hb'. at_hook; try done.
    + rewrite Hmp in Hb'. apply elem_of_app in Hb' as [Hb'|Hb']; [by destruct (Hnew b p' hp')|eauto].
    + rewrite Hmp in Hb. apply elem_of_app in Hb as [Hb|Hb]; [by destruct (Hnew b q' hq')|eauto].
    + eauto.
  - intros q hq b Hq Hb. apply Hbs. at_hook; [|by eauto].
    rewrite Hmp in Hb. apply elem_of_app in Hb as [Hb|Hb]; eauto.
  - intros b Hb. apply Hbs in Hb as [Hb|Hb].
    + destruct (H4 b Hb) as (q & hq & Hq & Hin). destruct (decide (p = q)) as [<-|Hne].
      * exists p, h'. rewrite lookup_insert_eq, Hmp, elem_of_app. naive_solver.
      * exists q, hq. by rewrite lookup_insert_ne.
    + exists p, h'. rewrite lookup_insert_eq, Hmp, elem_of_app. naive_solver.
  - intros q hq a Hq Ha. at_hook; [rewrite Hd in Ha|]; eauto.
  - intros p' q' hp' hq' a Hp' Hq' Ha Ha' Hready.
    at_hook; try done; try rewrite Hd in *; try rewrite Hr in *; eauto.
  - intros q hq Hq. at_hook; [rewrite Hu|]; eauto.
Qed.

(** A new hook with a pool of fresh blocks and an array of its own. *)
Lemma mem_ok_new m p h bs ars :
  mem_ok m -> m_hooks m !! p = None -> NoDup (hk_mp h) ->
  (forall b, b ∈ hk_mp h -> m_blocks m !! b = None) ->
  (forall b, is_Some (bs !! b) <-> is_Some (m_blocks m !! b) \/ b ∈ hk_mp h) ->
  (forall a, is_Some (m_arrays m !! a) -> is_Some (ars !! a)) ->
  (forall a, hk_data h = Some a -> is_Some (ars !! a) /\
     forall q hq, m_hooks m !! q = Some hq -> hk_data hq = Some a ->
       hk_ready h ≠ Some Rd_on_data /\ hk_ready hq ≠ Some Rd_on_data) ->
  length (hk_udata h) = UDATASZ ->
  mem_ok (Mem (<[p := h]> (m_hooks m)) bs ars).
Proof.
  intros [H1 H2 H3 H4 H5 H6 H7] Hp Hnd Hfresh Hbs Hars Hda Hu.
  assert (Hnew : forall b q hq, b ∈ hk_mp h -> m_hooks m !! q = Some hq -> b ∈ hk_mp hq -> False).
  { intros b q hq Hb Hq Hin. destruct (H3 q hq b Hq Hin) as [x Hx].
    rewrite (Hfresh b Hb) in Hx. done. }
  split; cbn [m_hooks m_blocks m_arrays].
  - intros q hq Hq. at_hook; eauto.
  - intros p' q' hp' hq' b Hp' Hq' Hb Hb'. at_hook; try done; try (exfalso; eauto; done). eauto.
  - intros q hq b Hq Hb. apply Hbs. at_hook; eauto.
  - intros b Hb. apply Hbs in Hb as [Hb|Hb].
    + destruct (H4 b Hb) as (q & hq & Hq & Hin). exists q, hq.
      rewrite lookup_insert_ne; [done|]. intros ->. congruence.
    + exists p, h. by rewrite lookup_insert_eq.
  - intros q hq a Hq Ha. at_hook; [by apply Hda|]. eauto.
  - intros p' q' hp' hq' a Hp' Hq' Ha Ha' Hready. at_hook; try done; [| |by eauto].
    + destruct (Hda a Ha') as [_ Hno]. by destruct (Hno _ _ Hp' Ha).
    + destruct (Hda a Ha) as [_ Hno]. by destruct (Hno _ _ Hq' Ha').
  - intros q hq Hq. at_hook; eauto.
Qed.

(** ** Freeing a hook *)
Definition blocks_minus (bs : gmap loc block) (l : list loc) : gmap loc block :=
  foldl (fun bs b => delete b bs) bs l.

Lemma blocks_minus_lookup bs l b :
  blocks_minus bs l !! b = if decide (b ∈ l) then None else bs !! b.
Proof.
  unfold blocks_minus. revert bs. induction l as [|c l IH]; intros bs; cbn [foldl].
  - by rewrite decide_False by set_solver.
  - rewrite IH. destruct (decide (b ∈ l)).
    + by rewrite decide_True by set_solver.
    + destruct (decide (b = c)) as [->|Hne].
      * by rewrite decide_True, lookup_delete_eq by set_solver.
      * by rewrite decide_False, lookup_delete_ne by set_solver.
Qed.

Lemma free_blocks_ok m bs :
  NoDup bs -> (forall b, b ∈ bs -> is_Some (m_blocks m !! b)) ->
  free_blocks bs m = Ok (tt, Mem (m_hooks m) (blocks_minus (m_blocks m) bs) (m_arrays m)).
Proof.
  revert m. induction bs as [|b bs IH]; intros m Hnd Hlive; cbn [free_blocks].
  - by destruct m.
  - apply NoDup_cons in Hnd as [Hb Hnd].
    destruct (Hlive b) as [x Hx]; [set_solver|].
    erewrite st_bind_run; [|unfold block_load; by rewrite Hx].
    erewrite st_bind_run; [|reflexivity]. rewrite IH; [done|done|].
    intros c Hc. cbn. rewrite lookup_delete_ne by set_solver. set_solver.
Qed.

(** [hook_free_real] on a session hook frees each block of its pool once and its
    array, and nothing else. *)
Lemma hook_free_real_ok m p h :
  mem_ok m -> m_hooks m !! p = Some h -> hk_ready h = Some Rd_on_data ->
  exists m', hook_free_real p m = Ok (tt, m') /\ mem_ok m' /\
    m_hooks m' = delete p (m_hooks m) /\
    m_blocks m' = blocks_minus (m_blocks m) (hk_mp h) /\
    m_arrays m' = from_option (fun a => delete a (m_arrays m)) (m_arrays m) (hk_data h).
Proof.
  intros Hm Hp Hr. pose proof Hm as [H1 H2 H3 H4 H5 H6 H7].
  set (bs := blocks_minus (m_blocks m) (hk_mp h)).
  exists (Mem (delete p (m_hooks m)) bs
            (from_option (fun a => delete a (m_arrays m)) (m_arrays m) (hk_data h))).
  split; [|split; [|done]].
  - unfold hook_free_real. erewrite st_bind_run; [|unfold hook_load; by rewrite Hp].
    erewrite st_bind_run; [|apply free_blocks_ok; eauto].
    unfold array_free, array_load, hook_load, modifyS, mbind, st_bind, mret, st_ret.
    destruct (hk_data h) as [a|] eqn:Hda; cbn; [|by rewrite Hp].
    destruct (H5 p h a Hp Hda) as [x Hx]. rewrite Hx. cbn. by rewrite Hp.
  - split; cbn [m_hooks m_blocks m_arrays].
    + intros q hq Hq. at_hook. eauto.
    + intros p' q' hp' hq' b Hp' Hq' Hb Hb'. at_hook. eauto.
    + intros q hq b Hq Hb. at_hook. unfold bs. rewrite blocks_minus_lookup, decide_False; eauto.
    + intros b Hb. unfold bs in Hb. rewrite blocks_minus_lookup in Hb.
      case_decide; [by destruct Hb|]. destruct (H4 b Hb) as (q & hq & Hq & Hin).
      exists q, hq. rewrite lookup_delete_ne; [done|]. intros ->. congruence.
    + intros q hq a Hq Ha. at_hook. destruct (hk_data h) as [a'|] eqn:Hda; cbn; [|by eauto].
      rewrite lookup_delete_ne; [by eauto|]. intros ->. eauto.
    + intros p' q' hp' hq' a Hp' Hq' Ha Ha' Hready. at_hook. eauto.
    + intros q hq Hq. at_hook. eauto.
Qed.

(** ** Reference counts

    [rt] lists the places that hold a counted reference, [ft] the hooks whose
    count has reached zero and that a thread is about to free. *)
Definition occ (p : loc) (l : list loc) : nat := length (filter (fun q => q = p) l).

Lemma occ_app p l1 l2 : occ p (l1 ++ l2) = (occ p l1 + occ p l2)%nat.
Proof. unfold occ. by rewrite filter_app, length_app. Qed.

Lemma occ_cons_eq p l : occ p (p :: l) = S (occ p l).
Proof. unfold occ. by rewrite filter_cons_True. Qed.

Lemma occ_cons_ne p q l : p ≠ q -> occ p (q :: l) = occ p l.
Proof. intros Hpq. unfold occ. by rewrite filter_cons_False. Qed.

Lemma occ_zero p l : occ p l = 0%nat <-> p ∉ l.
Proof.
  induction l as [|q l IH]; [split; [set_solver|done]|].
  destruct (decide (p = q)) as [->|Hne].
  - rewrite occ_cons_eq. split; [done|]. intros []. set_solver.
  - rewrite occ_cons_ne by done. set_solver.
Qed.

#[export] Instance occ_proper p : Proper (Permutation ==> eq) (occ p).
Proof. intros l1 l2 Hl. unfold occ. by rewrite Hl. Qed.

Record refs_ok (hs : gmap loc hook) (rt ft : list loc) : Prop := {
  ro_cnt p h : hs !! p = Some h -> hk_refcnt h = Z.of_nat (occ p rt);
  ro_live p : p ∈ rt -> is_Some (hs !! p);
  ro_free p : p ∈ ft -> p ∉ rt /\ is_Some (hs !! p);
  ro_once : NoDup ft;
  ro_owned p : is_Some (hs !! p) -> p ∈ rt \/ p ∈ ft
}.

#[export] Instance refs_ok_proper hs :
  Proper (Permutation ==> Permutation ==> iff) (refs_ok hs).
Proof.
  assert (Himp : forall rt1 rt2 ft1 ft2, rt1 ≡ₚ rt2 -> ft1 ≡ₚ ft2 ->
            refs_ok hs rt1 ft1 -> refs_ok hs rt2 ft2).
  { intros rt1 rt2 ft1 ft2 Hr Hf [H1 H2 H3 H4 H5]. split.
    - intros p h Hp. rewrite <- Hr. eauto.
    - intros p. rewrite <- Hr. eauto.
    - intros p. rewrite <- Hr, <- Hf. eauto.
    - by rewrite <- Hf.
    - intros p Hp. rewrite <- Hr, <- Hf. eauto. }
  intros rt1 rt2 Hr ft1 ft2 Hf. split; apply Himp; done.
Qed.

Section refs_lemmas.
Implicit Types (hs : gmap loc hook) (rt ft : list loc).

Lemma refs_ok_update hs rt ft p h h' :
  refs_ok hs rt ft -> hs !! p = Some h -> hk_refcnt h' = hk_refcnt h ->
  refs_ok (<[p := h']> hs) rt ft.
Proof.
  intros [H1 H2 H3 H4 H5] Hp Hc. split.
  - intros q hq Hq. at_hook; [|by eauto]. rewrite Hc. eauto.
  - intros q Hq. rewrite lookup_insert_is_Some'. eauto.
  - intros q Hq. rewrite lookup_insert_is_Some'. naive_solver.
  - done.
  - intros q [->|Hq]%lookup_insert_is_Some'; eauto.
Qed.

(** A thread that may use [p] takes one more reference. *)
Lemma refs_ok_ref hs rt ft p h :
  refs_ok hs rt ft -> hs !! p = Some h -> p ∉ ft ->
  refs_ok (<[p := upd_refcnt (fun c => c + 1) h]> hs) (p :: rt) ft.
Proof.
  intros [H1 H2 H3 H4 H5] Hp Hf. split.
  - intros q hq Hq. at_hook.
    + rewrite occ_cons_eq. cbn. rewrite (H1 p h Hp). lia.
    + rewrite occ_cons_ne by done. eauto.
  - intros q Hq. rewrite lookup_insert_is_Some'. apply elem_of_cons in Hq as [->|Hq]; eauto.
  - intros q Hq. rewrite lookup_insert_is_Some'. set_solver.
  - done.
  - intros q [->|Hq]%lookup_insert_is_Some'; [set_solver|]. destruct (H5 q Hq); set_solver.
Qed.

(** Dropping a reference: the count is zero exactly when it was the last. *)
Lemma refs_ok_unref hs rt ft p h :
  refs_ok hs (p :: rt) ft -> hs !! p = Some h ->
  hk_refcnt h - 1 = Z.of_nat (occ p rt) /\ refs_ok (<[p := upd_refcnt (fun c => c - 1) h]> hs) rt
    (if decide (hk_refcnt h - 1 = 0) then p :: ft else ft).
Proof.
  intros [H1 H2 H3 H4 H5] Hp. pose proof (H1 p h Hp) as Hc. rewrite occ_cons_eq in Hc.
  assert (Hpf : p ∉ ft) by (intros Hin; destruct (H3 p Hin); set_solver).
  split; [lia|].
  assert (Hz : hk_refcnt h - 1 = 0 <-> p ∉ rt) by (rewrite <- occ_zero; lia).
  split.
  - intros q hq Hq. at_hook; [cbn; lia|]. rewrite (H1 q hq Hq). by rewrite occ_cons_ne.
  - intros q Hq. rewrite lookup_insert_is_Some'. right. apply H2. set_solver.
  - intros q Hq. rewrite lookup_insert_is_Some'.
    assert (q = p /\ p ∉ rt \/ q ∈ ft) as [[-> ?]|Hin]; [case_decide; set_solver|by auto|].
    destruct (H3 q Hin). set_solver.
  - case_decide; [by apply NoDup_cons|done].
  - intros q [->|Hq]%lookup_insert_is_Some'.
    + case_decide as Hd; [set_solver|]. left. destruct (decide (q ∈ rt)); [done|tauto].
    + destruct (H5 q Hq) as [Hin|Hin]; [|case_decide; set_solver].
      destruct (decide (q ∈ rt)); [by left|right].
      apply elem_of_cons in Hin as [->|]; [|done]. rewrite decide_True by tauto. set_solver.
Qed.

Lemma refs_ok_delete hs rt ft p :
  refs_ok hs rt (p :: ft) -> refs_ok (delete p hs) rt ft.
Proof.
  intros [H1 H2 H3 H4 H5]. apply NoDup_cons in H4 as [Hpf Hnd].
  assert (Hp : p ∉ rt) by (apply H3; set_solver).
  split.
  - intros q hq Hq. at_hook. eauto.
  - intros q Hq. rewrite lookup_delete_ne by set_solver. eauto.
  - intros q Hq. rewrite lookup_delete_ne by set_solver. apply H3. set_solver.
  - done.
  - intros q [Hne Hq]%lookup_delete_is_Some. destruct (H5 q Hq); set_solver.
Qed.

Lemma refs_ok_new hs rt ft p h :
  refs_ok hs rt ft -> hs !! p = None -> hk_refcnt h = 1 ->
  refs_ok (<[p := h]> hs) (p :: rt) ft.
Proof.
  intros [H1 H2 H3 H4 H5] Hp Hc.
  assert (Hrt : p ∉ rt) by (intros Hin; destruct (H2 p Hin); congruence).
  split.
  - intros q hq Hq. at_hook.
    + rewrite occ_cons_eq, (proj2 (occ_zero p rt)) by done. done.
    + rewrite occ_cons_ne by done. eauto.
  - intros q Hq. rewrite lookup_insert_is_Some'. apply elem_of_cons in Hq as [->|Hq]; eauto.
  - intros q Hq. rewrite lookup_insert_is_Some'. destruct (H3 q Hq) as [? [hq Hhq]]. set_solver.
  - done.
  - intros q [->|Hq]%lookup_insert_is_Some'; [set_solver|]. destruct (H5 q Hq); set_solver.
Qed.
End refs_lemmas.

(** ** Running the macros *)
Lemma hook_load_ok m p h : m_hooks m !! p = Some h -> hook_load p m = Ok (h, m).
Proof. intros Hp. unfold hook_load. by rewrite Hp. Qed.

Lemma hook_modify_ok m p h f :
  m_hooks m !! p = Some h ->
  hook_modify p f m = Ok (tt, Mem (<[p := f h]> (m_hooks m)) (m_blocks m) (m_arrays m)).
Proof. intros Hp. unfold hook_modify. by rewrite Hp. Qed.

Lemma hook_sub_ok m p h :
  m_hooks m !! p = Some h ->
  hook_sub p m = Ok (bool_decide (hk_refcnt h - 1 = 0),
    Mem (<[p := upd_refcnt (fun c => c - 1) h]> (m_hooks m)) (m_blocks m) (m_arrays m)).
Proof.
  intros Hp. unfold hook_sub. erewrite st_bind_run; [|by apply hook_modify_ok].
  erewrite st_bind_run; [|apply hook_load_ok; cbn; by rewrite lookup_insert_eq]. done.
Qed.

Lemma same_mem_refcnt f h : same_mem h (upd_refcnt f h).
Proof. done. Qed.

Lemma same_mem_udata i v h : same_mem h (set_udata i v h).
Proof. repeat split. cbn. by rewrite length_insert. Qed.

(** Dropping the last reference of a session hook releases every block of its
    pool exactly once, its array and the hook, and leaves the rest of the memory as
    it was; dropping another one only decrements the count. *)
Theorem hook_free_correct (m : mem) (p : loc) (h : hook)
    (Hm : mem_ok m) (Hp : m_hooks m !! p = Some h) (Hr : hk_ready h = Some Rd_on_data) :
  exists m', hook_free p m = Ok (tt, m') /\ mem_ok m' /\
    if decide (hk_refcnt h = 1) then
      m_hooks m' = delete p (m_hooks m) /\
      (forall b, m_blocks m' !! b = if decide (b ∈ hk_mp h) then None else m_blocks m !! b) /\
      (forall a, m_arrays m' !! a = if decide (hk_data h = Some a) then None else m_arrays m !! a)
    else
      m' = Mem (<[p := upd_refcnt (fun c => c - 1) h]> (m_hooks m)) (m_blocks m) (m_arrays m).
Proof.
  set (h1 := upd_refcnt (fun c => c - 1) h).
  assert (Hm1 : mem_ok (Mem (<[p := h1]> (m_hooks m)) (m_blocks m) (m_arrays m))).
  { by eapply mem_ok_modify; [|done|apply same_mem_refcnt]. }
  unfold hook_free. erewrite st_bind_run; [|by apply hook_sub_ok]. fold h1.
  destruct (decide (hk_refcnt h = 1)) as [Hc|Hc].
  - rewrite bool_decide_true by lia.
    destruct (hook_free_real_ok _ p h1 Hm1) as (m' & Hrun & Hm' & Hh & Hb & Ha); [|done|].
    { cbn. by rewrite lookup_insert_eq. }
    exists m'. split; [done|]. split; [done|]. cbn in Hh, Hb, Ha.
    rewrite delete_insert_eq in Hh. split; [done|]. rewrite Hb, Ha. split.
    + intros b. apply blocks_minus_lookup.
    + intros a. destruct (hk_data h) as [a'|]; cbn; [|done].
      destruct (decide (a = a')) as [->|Hne].
      * by rewrite lookup_delete_eq, decide_True.
      * rewrite lookup_delete_ne, decide_False by congruence. done.
  - rewrite bool_decide_false by lia. eexists. by split.
Qed.

Lemma mem_ok_empty : mem_ok (Mem ∅ ∅ ∅).
Proof.
  split; cbn; intros *; by rewrite ?lookup_empty.
Qed.

(** One session hook at 1 with two blocks. *)
Definition demo_hook : hook :=
  Hook [5%positive; 4%positive] 7 (Some Rd_on_data) None None 0 1 (replicate UDATASZ 0).
Definition demo_mem : mem :=
  Mem {[1%positive := demo_hook]} {[4%positive := BOpaque; 5%positive := BOpaque]} ∅.

Lemma demo_mem_ok : mem_ok demo_mem.
Proof.
  apply (mem_ok_new (Mem ∅ ∅ ∅) 1 demo_hook); cbn [m_hooks m_blocks m_arrays]; try done.
  - apply mem_ok_empty.
  - apply NoDup_cons; split; [set_solver|apply NoDup_singleton].
  - intros b. rewrite lookup_insert_is_Some', lookup_singleton_is_Some, lookup_empty.
    cbn. rewrite is_Some_alt. set_solver.
Qed.

Lemma hook_free_correct_witness :
  hook_free 1 demo_mem = Ok (tt, Mem ∅ ∅ ∅) /\
  exists m', hook_free 1 demo_mem = Ok (tt, m') /\ mem_ok m'.
Proof.
  split; [vm_compute; reflexivity|].
  destruct (hook_free_correct demo_mem 1 demo_hook demo_mem_ok eq_refl eq_refl) as (m' & Hrun & Hm' & _).
  exists m'. exact (conj Hrun Hm').
Defined.
