(* ===== verification/Server.v ===== *)
(** * The server: the event loop and its workers

    [ayubd_run] and [ayubd_worker] of src/main.c with the two [ready] handlers of
    src/ioqueue_socket.c, as a transition system of the main thread and the
    workers.  The worker queues are used through the [Fifo] interface and the
    module's [process] handler through [Handler].  The kernel ([epoll_wait],
    [accept4], [close]) and [malloc] are inputs of the steps. *)
From S2P Require Import Prelude NodeHeap Fifo Stailq CLib Assoc Hook.

#[local] Open Scope Z_scope.

Definition EPOLLIN : Z := 1.
Definition EPOLLPRI : Z := 2.
Definition EPOLLOUT : Z := 4.
Definition EPOLLERR : Z := 8.
Definition EPOLLHUP : Z := 16.
Definition EPOLLRDHUP : Z := 8192.
Definition EPOLLET : Z := 2147483648.
Definition EINTR : Z := 4.

Definition CHECKFLAG (x y : Z) : bool := negb (Z.land x y =? 0).

Definition SOCKADDR_STORAGE_SZ : nat := 128.

(** ** src/ioqueue_socket.c: the ready handlers *)

(** [ioqueue_socket_on_data] up to the test of [ret]: -> [ret]. *)
Definition on_data_ret (p : loc) : st mem Z :=
  h ← hook_load p;
  match hk_data h with
  | None => raiseS AssertFailed
  | Some a =>
      if CHECKFLAG (hk_events h) EPOLLRDHUP || CHECKFLAG (hk_events h) EPOLLHUP
         || CHECKFLAG (hk_events h) EPOLLERR
      then mret 0
      else
        match hk_process h with
        | None =>
            ar ← array_load a;
            if array_key_exists ar (key "hoda")
            then (_ ← hook_modify p (set_process (Some Pr_process_data)); mret 1)
            else mret 0
        | Some _ => mret 1
        end
  end.

(** The body of the accept loop of [ioqueue_socket_on_connect] up to [EVQ_ADD]:
    [hs], [b1], [b2], [a] are the addresses [malloc] returns for the session hook,
    the msghdr, its name buffer and the copied array. *)
Definition on_connect_session (p hs b1 b2 a : loc) (connfd : Z) (remote_addr : bytes)
  : st mem unit :=
  _ ← hook_new hs;
  _ ← hook_zalloc hs b1 (BMsghdr (Msghdr None 0 None 0));
  _ ← hook_modify hs (set_fd connfd);
  _ ← hook_modify hs (set_ready (Some Rd_on_data));
  h ← hook_load p;
  a0 ← liftS (from_option_fault NullDeref (hk_data h));
  ar ← array_load a0;
  _ ← modifyS (fun m => Mem (m_hooks m) (m_blocks m) (<[a := array_dup ar]> (m_arrays m)));
  _ ← hook_modify hs (set_data (Some a));
  _ ← hook_modify hs (fun k => Hook (hk_mp k) (hk_fd k) (hk_ready k) (hk_process k) (hk_data k)
                                 (hk_events k) (hk_refcnt k) (hk_udata h));
  _ ← hook_zalloc hs b2 (BBytes (replicate SOCKADDR_STORAGE_SZ 0));
  _ ← block_store b1 (BMsghdr (Msghdr (Some b2) (Z.of_nat SOCKADDR_STORAGE_SZ) None 0));
  nm ← liftS (buf_write (replicate SOCKADDR_STORAGE_SZ 0) 0 remote_addr);
  _ ← block_store b2 (BBytes nm);
  _ ← hook_modify hs (set_udata UD_CORE_MSGHDR (ptr b1));
  hook_modify hs (set_events (EPOLLIN + EPOLLRDHUP + EPOLLPRI + EPOLLET)).

(** ** The system *)

(** Where the main thread is; [evs] are the events of the batch not yet handled,
    [(events, data.ptr)]. *)
Inductive main_pc :=
  | MPoll
  | MEvents (evs : list (Z * loc))
  | MReady (p : loc) (evs : list (Z * loc))
  | MAccept (p : loc) (evs : list (Z * loc))
  | MClose (p : loc) (evs : list (Z * loc))
  | MUnref (p : loc) (evs : list (Z * loc))
  | MFree (p : loc) (evs : list (Z * loc))
  | MRef (p : loc) (evs : list (Z * loc))
  | MIn (p : loc) (x : nat) (evs : list (Z * loc))
  | MPost (x : nat) (evs : list (Z * loc)).

Inductive work_pc :=
  | WWait
  | WTake
  | WProc (p : loc)
  | WUnref (p : loc)
  | WFree (p : loc).

(** What one [accept4] gives: the descriptor (-1 on error) and [errno], the
    peer's address and the addresses of the allocations that follow. *)
Record accepted := Accepted {
  ac_fd : Z; ac_errno : Z; ac_addr : bytes; ac_hs : loc; ac_b1 : loc; ac_b2 : loc; ac_a : loc
}.

Section server.
Context {Q : Type} (ops : fifo_ops Q).
(** The module's handler and what it gets from outside (the bytes received,
    addresses of its allocations). *)
Context {env : Type} (process : env -> loc -> st mem unit).
(** [(system_t * )] as the udata word holds it *)
Variable sysptr : Z.

Record srv := Srv {
  sv_mem : mem;
  sv_epoll : gmap Z loc;        (* registered descriptors and their [data.ptr] *)
  sv_open : gset Z;             (* open sockets *)
  sv_q : list Q;                (* sys->q, sys->qdiv *)
  sv_sem : list nat;            (* sys->sem *)
  sv_main : main_pc;
  sv_work : list work_pc        (* one per worker *)
}.

Definition with_main (s : srv) (pc : main_pc) : srv :=
  Srv (sv_mem s) (sv_epoll s) (sv_open s) (sv_q s) (sv_sem s) pc (sv_work s).
Definition with_mem (s : srv) (m : mem) (pc : main_pc) : srv :=
  Srv m (sv_epoll s) (sv_open s) (sv_q s) (sv_sem s) pc (sv_work s).

Definition nworkers (s : srv) : Z := Z.of_nat (length (sv_q s)).

(** Inputs of the main thread. *)
Inductive main_in :=
  | InNone
  | InPoll (r : option (list (Z * loc)))   (* [None]: -1 *)
  | InAccept (ac : accepted).

(** [hp->fd % sys->nworkers] as an index of [sys->q] *)
Definition worker_of (n fd : Z) : result nat :=
  if decide (n = 0) then Fault DivByZero
  else if decide (Z.rem fd n < 0) then Fault OutOfBounds else Ok (Z.to_nat (Z.rem fd n)).

(** One step of [ayubd_run]; [Ok None] when the input does not fit the point the
    thread is at. *)
Definition main_step (i : main_in) (s : srv) : result (option srv) :=
  match sv_main s, i with
  | MPoll, InPoll None => Ok (Some (with_main s MPoll))
  | MPoll, InPoll (Some evs) => Ok (Some (with_main s (MEvents evs)))
  | MEvents [], InNone => Ok (Some (with_main s MPoll))
  | MEvents ((ev, p) :: evs), InNone =>
      '(_, m) ← hook_modify p (set_events ev) (sv_mem s);
      Ok (Some (with_mem s m (MReady p evs)))
  | MReady p evs, InNone =>
      '(h, m) ← hook_load p (sv_mem s);
      match hk_ready h with
      | None => Ok (Some (with_main s (MEvents evs)))
      | Some Rd_on_connect =>
          match hk_data h with
          | None => Fault AssertFailed
          | Some _ => Ok (Some (with_main s (MAccept p evs)))
          end
      | Some Rd_on_data =>
          '(ret, m) ← on_data_ret p m;
          if decide (ret = 0) then Ok (Some (with_mem s m (MClose p evs)))
          else
            '(h, m) ← hook_load p m;
            if decide (0 < ret /\ hk_process h ≠ None)
            then Ok (Some (with_mem s m (MRef p evs)))
            else Ok (Some (with_mem s m (MEvents evs)))
      end
  | MAccept p evs, InAccept ac =>
      '(h, m) ← hook_load p (sv_mem s);
      if decide (0 < ac_fd ac \/ ac_errno ac = EINTR) then
        if decide (ac_fd ac = -1) then Ok (Some s)
        else
          '(_, m) ← on_connect_session p (ac_hs ac) (ac_b1 ac) (ac_b2 ac) (ac_a ac) (ac_fd ac)
                      (ac_addr ac) m;
          Ok (Some (Srv m (<[ac_fd ac := ac_hs ac]> (sv_epoll s)) ({[ac_fd ac]} ∪ sv_open s)
                      (sv_q s) (sv_sem s) (MAccept p evs) (sv_work s)))
      else Ok (Some (with_main s (MEvents evs)))
  | MClose p evs, InNone =>
      '(h, m) ← hook_load p (sv_mem s);
      Ok (Some (Srv m (delete (hk_fd h) (sv_epoll s)) (sv_open s ∖ {[hk_fd h]})
                  (sv_q s) (sv_sem s) (MUnref p evs) (sv_work s)))
  | MUnref p evs, InNone =>
      '(z, m) ← hook_sub p (sv_mem s);
      Ok (Some (with_mem s m (if z : bool then MFree p evs else MEvents evs)))
  | MFree p evs, InNone =>
      '(_, m) ← hook_free_real p (sv_mem s);
      Ok (Some (with_mem s m (MEvents evs)))
  | MRef p evs, InNone =>
      '(h, m) ← hook_load p (sv_mem s);
      x ← worker_of (nworkers s) (hk_fd h);
      '(_, m) ← hook_ref p m;
      Ok (Some (with_mem s m (MIn p x evs)))
  | MIn p x evs, InNone =>
      q ← from_option_fault OutOfBounds (sv_q s !! x);
      '(_, q) ← fq_in ops (ptr p) q;
      Ok (Some (Srv (sv_mem s) (sv_epoll s) (sv_open s) (<[x := q]> (sv_q s)) (sv_sem s)
                  (MPost x evs) (sv_work s)))
  | MPost x evs, InNone =>
      n ← from_option_fault OutOfBounds (sv_sem s !! x);
      Ok (Some (Srv (sv_mem s) (sv_epoll s) (sv_open s) (sv_q s) (<[x := S n]> (sv_sem s))
                  (MEvents evs) (sv_work s)))
  | _, _ => Ok None
  end.

Definition with_work (s : srv) (m : mem) (x : nat) (pc : work_pc) : srv :=
  Srv m (sv_epoll s) (sv_open s) (sv_q s) (sv_sem s) (sv_main s) (<[x := pc]> (sv_work s)).

(** One step of worker [x]. *)
Definition work_step (x : nat) (e : env) (s : srv) : result (option srv) :=
  match sv_work s !! x with
  | None => Ok None
  | Some WWait =>
      match sv_sem s !! x with
      | None => Fault OutOfBounds
      | Some O => Ok None
      | Some (S n) =>
          Ok (Some (Srv (sv_mem s) (sv_epoll s) (sv_open s) (sv_q s) (<[x := n]> (sv_sem s))
                      (sv_main s) (<[x := WTake]> (sv_work s))))
      end
  | Some WTake =>
      q ← from_option_fault OutOfBounds (sv_q s !! x);
      '(v, q) ← fq_out ops q;
      Ok (Some (Srv (sv_mem s) (sv_epoll s) (sv_open s) (<[x := q]> (sv_q s)) (sv_sem s)
                  (sv_main s)
                  (<[x := match of_ptr v with None => WWait | Some p => WProc p end]> (sv_work s))))
  | Some (WProc p) =>
      '(h, m) ← hook_load p (sv_mem s);
      match hk_process h with
      | None => Ok (Some (with_work s m x WWait))
      | Some Pr_process_data =>
          '(_, m) ← hook_modify p (set_udata UD_CORE_NUM (Z.of_nat x)) m;
          '(_, m) ← hook_modify p (set_udata UD_CORE_SYSPTR sysptr) m;
          '(_, m) ← process e p m;
          Ok (Some (with_work s m x (WUnref p)))
      end
  | Some (WUnref p) =>
      '(z, m) ← hook_sub p (sv_mem s);
      Ok (Some (with_work s m x (if z : bool then WFree p else WWait)))
  | Some (WFree p) =>
      '(_, m) ← hook_free_real p (sv_mem s);
      Ok (Some (with_work s m x WWait))
  end.
End server.

(** The main thread leaves the workers where they are, a worker the others. *)
Lemma main_step_work {Q : Type} (ops : fifo_ops Q) i s s' : main_step ops i s = Ok (Some s') -> sv_work s' = sv_work s.
Proof.
  unfold main_step. intros H.
  repeat (case_match; simplify_eq; try done; inv_ok); repeat case_decide; inv_ok; done.
Qed.

Lemma work_step_other {Q env : Type} (ops : fifo_ops Q) (process : env -> loc -> st mem unit) sysptr x e s s' y :
  work_step ops process sysptr x e s = Ok (Some s') -> x <> y -> sv_work s' !! y = sv_work s !! y.
Proof.
  unfold work_step. intros H Hne.
  repeat (case_match; simplify_eq; try done; inv_ok); cbn; by rewrite list_lookup_insert_ne.
Qed.

(** ** What the server relies on *)

(** From [m] to [m'] nothing a session [p] owns changes, but the fields of its
    hook the server itself writes (events, process, refcnt and the udata slots 1
    and 3); the arrays it can reach only gain zero entries.  [shared] are the module's
    arrays, which no session owns. *)
Record sess_same (shared : gset loc) (p : loc) (m m' : mem) : Prop := {
  ss_hook : exists h h', m_hooks m !! p = Some h /\ m_hooks m' !! p = Some h' /\
    hk_mp h' = hk_mp h /\ hk_data h' = hk_data h /\ hk_ready h' = hk_ready h /\
    hk_fd h' = hk_fd h /\
    (forall i, i <> UD_CORE_SYSPTR -> i <> UD_CORE_NUM -> hk_udata h' !! i = hk_udata h !! i) /\
    (forall b, b ∈ hk_mp h -> m_blocks m' !! b = m_blocks m !! b) /\
    (forall a x, a ∈ shared \/ hk_data h = Some a -> m_arrays m !! a = Some x ->
       exists x', m_arrays m' !! a = Some x' /\ grows x x')
}.

(** A handler run on [p] changes only what [p] owns and adds to its pool. *)
Record handled (p : loc) (m m' : mem) : Prop := {
  hd_hook : exists h h' new, m_hooks m !! p = Some h /\ m_hooks m' = <[p := h']> (m_hooks m) /\
    hk_mp h' = new ++ hk_mp h /\ hk_data h' = hk_data h /\ hk_ready h' = hk_ready h /\
    hk_fd h' = hk_fd h /\ hk_process h' = hk_process h /\ hk_refcnt h' = hk_refcnt h /\
    length (hk_udata h') = length (hk_udata h) /\ NoDup new /\
    (forall b, b ∈ new -> m_blocks m !! b = None) /\
    (forall b, is_Some (m_blocks m' !! b) <-> is_Some (m_blocks m !! b) \/ b ∈ new) /\
    (forall b, b ∉ hk_mp h' -> m_blocks m' !! b = m_blocks m !! b);
  hd_arrays a x : m_arrays m !! a = Some x -> exists x', m_arrays m' !! a = Some x' /\ grows x x';
  hd_arrays_new a : is_Some (m_arrays m' !! a) -> is_Some (m_arrays m !! a)
}.

(** The session [on_connect_session] builds from the listening hook [p]. *)
Record new_session (p hs b1 b2 a : loc) (connfd : Z) (m m' : mem) : Prop := {
  ns_hook : exists h, m_hooks m !! p = Some h /\
    m_hooks m' = <[hs := Hook [b2; b1] connfd (Some Rd_on_data) None (Some a)
                           (EPOLLIN + EPOLLRDHUP + EPOLLPRI + EPOLLET) 1
                           (<[UD_CORE_MSGHDR := ptr b1]> (hk_udata h))]> (m_hooks m);
  ns_blocks : exists nm, length nm = SOCKADDR_STORAGE_SZ /\
    m_blocks m' = <[b2 := BBytes nm]> (<[b1 := BMsghdr (Msghdr (Some b2) 128 None 0)]> (m_blocks m));
  ns_arrays : exists h a0 ar, m_hooks m !! p = Some h /\ hk_data h = Some a0 /\
    m_arrays m !! a0 = Some ar /\ m_arrays m' = <[a := ar]> (m_arrays m)
}.

(** What a module promises for its handler: [h_sess] is an invariant of its
    sessions, [h_lst] of its listening sockets, [h_legal] of the handler's inputs. *)
Class Handler {env : Type} (process : env -> loc -> st mem unit) (shared : gset loc)
    (sess lst : loc -> mem -> Prop) (legal : env -> loc -> mem -> Prop) : Prop := {
  handler_sess_stable p m m' : sess p m -> sess_same shared p m m' -> sess p m';
  handler_lst_stable p m m' : lst p m -> sess_same shared p m m' -> lst p m';
  handler_connect p hs b1 b2 a connfd m m' :
    mem_ok m -> lst p m -> m_hooks m !! hs = None -> m_blocks m !! b1 = None ->
    m_blocks m !! b2 = None -> b1 <> b2 -> m_arrays m !! a = None ->
    new_session p hs b1 b2 a connfd m m' -> sess hs m';
  handler_legal e p m m' :
    legal e p m -> m_blocks m' = m_blocks m -> m_arrays m' = m_arrays m ->
    sess_same shared p m m' -> legal e p m';
  handler_process e p m h :
    mem_ok m -> m_hooks m !! p = Some h -> hk_process h = Some Pr_process_data ->
    sess p m -> legal e p m ->
    exists m', process e p m = Ok (tt, m') /\ handled p m m' /\ sess p m'
}.

Lemma sess_same_refl shared p m : is_Some (m_hooks m !! p) -> sess_same shared p m m.
Proof. intros [h Hh]. split. exists h, h. naive_solver. Qed.

(** A change of the fields of a hook the server writes. *)
Record server_fields (h h' : hook) : Prop := {
  sf_mp : hk_mp h' = hk_mp h;
  sf_data : hk_data h' = hk_data h;
  sf_ready : hk_ready h' = hk_ready h;
  sf_fd : hk_fd h' = hk_fd h;
  sf_len : length (hk_udata h') = length (hk_udata h);
  sf_udata i : i <> UD_CORE_SYSPTR -> i <> UD_CORE_NUM -> hk_udata h' !! i = hk_udata h !! i
}.

Lemma server_fields_same h h' : server_fields h h' -> same_mem h h'.
Proof. intros [? ? ? ? ?]. done. Qed.

Lemma sess_same_modify shared p q m h h' :
  m_hooks m !! q = Some h -> server_fields h h' -> is_Some (m_hooks m !! p) ->
  sess_same shared p m (Mem (<[q := h']> (m_hooks m)) (m_blocks m) (m_arrays m)).
Proof.
  intros Hq [Hmp Hd Hr Hfd Hl Hu] [k Hk]. split. cbn.
  destruct (decide (q = p)) as [->|Hne].
  - exists h, h'. rewrite lookup_insert_eq. naive_solver.
  - exists k, k. rewrite lookup_insert_ne by done. naive_solver.
Qed.

Lemma sess_same_handled shared p q m m' :
  mem_ok m -> handled q m m' -> p <> q -> is_Some (m_hooks m !! p) -> sess_same shared p m m'.
Proof.
  intros Hm [(h & h' & new & Hq & Hh & Hmp & Hd & Hr & Hfd & _ & _ & _ & _ & Hfresh & _ & Hb) Ha _] Hne [k Hk].
  split. exists k, k. rewrite Hh, lookup_insert_ne by done.
  do 6 (split; [done|]). split; [done|]. split; [|eauto].
  intros b Hin. apply Hb. rewrite Hmp. intros [Hnew|Hold]%elem_of_app.
  - destruct (mok_live m Hm p k b Hk Hin) as [x Hx]. rewrite (Hfresh b Hnew) in Hx. done.
  - by destruct (mok_disj m Hm p q k h b Hk Hq Hin Hold).
Qed.

Lemma handled_mem_ok p m m' : mem_ok m -> handled p m m' -> mem_ok m'.
Proof.
  intros Hm [(h & h' & new & Hp & Hh & Hmp & Hd & Hr & Hfd & Hpr & Hrc & Hu & Hnd & Hfresh & Hlive & Hb) Ha Han].
  assert (Hm1 : mem_ok (Mem (<[p := h']> (m_hooks m)) (m_blocks m') (m_arrays m)))
    by by eapply mem_ok_alloc.
  destruct m' as [hs' bs' ar']. cbn in *. subst hs'.
  apply (mem_ok_contents _ bs' ar') in Hm1; [done|done|].
  cbn. intros a [x Hx]. destruct (Ha a x Hx) as (x' & -> & _). done.
Qed.

(** ** The accept loop's body *)
Lemma on_connect_session_ok p hs b1 b2 a connfd addr m h a0 ar :
  m_hooks m !! p = Some h -> hk_data h = Some a0 -> m_arrays m !! a0 = Some ar ->
  m_hooks m !! hs = None -> b1 <> b2 -> (length addr <= SOCKADDR_STORAGE_SZ)%nat ->
  exists m', on_connect_session p hs b1 b2 a connfd addr m = Ok (tt, m') /\
    new_session p hs b1 b2 a connfd m m'.
Proof.
  intros Hp Hd Har Hhs Hb Haddr. assert (Hne : hs ≠ p) by congruence.
  set (nm := take 0 (replicate SOCKADDR_STORAGE_SZ 0) ++ addr ++
             drop (0 + length addr) (replicate SOCKADDR_STORAGE_SZ 0)).
  eexists. split.
  - unfold on_connect_session.
    erewrite st_bind_run; [|reflexivity].
    erewrite st_bind_run.
    2: { unfold hook_zalloc, hook_malloc. erewrite st_bind_run; [|reflexivity].
         apply hook_modify_ok. cbn. by rewrite lookup_insert_eq. }
    cbn [m_hooks m_blocks m_arrays]. rewrite insert_insert_eq.
    do 2 (erewrite st_bind_run; [|apply hook_modify_ok; cbn; by rewrite lookup_insert_eq];
          cbn [m_hooks m_blocks m_arrays]; rewrite insert_insert_eq).
    erewrite st_bind_run; [|apply hook_load_ok; cbn; by rewrite lookup_insert_ne].
    rewrite Hd. erewrite st_bind_run; [|reflexivity].
    erewrite st_bind_run; [|unfold array_load; cbn; by rewrite Har].
    erewrite st_bind_run; [|reflexivity].
    do 2 (erewrite st_bind_run; [|apply hook_modify_ok; cbn; by rewrite lookup_insert_eq];
          cbn [m_hooks m_blocks m_arrays]; rewrite insert_insert_eq).
    erewrite st_bind_run.
    2: { unfold hook_zalloc, hook_malloc. erewrite st_bind_run; [|reflexivity].
         apply hook_modify_ok. cbn. by rewrite lookup_insert_eq. }
    cbn [m_hooks m_blocks m_arrays]. rewrite insert_insert_eq.
    erewrite st_bind_run.
    2: { unfold block_store. cbn [m_hooks m_blocks m_arrays].
         rewrite lookup_insert_ne, lookup_insert_eq by done. reflexivity. }
    cbn [m_hooks m_blocks m_arrays].
    erewrite st_bind_run.
    2: { unfold liftS. rewrite buf_write_ok; [reflexivity|].
         rewrite length_replicate. lia. }
    fold nm.
    erewrite st_bind_run.
    2: { unfold block_store. cbn [m_hooks m_blocks m_arrays].
         rewrite lookup_insert_ne, lookup_insert_eq by done. reflexivity. }
    cbn [m_hooks m_blocks m_arrays].
    erewrite st_bind_run; [|apply hook_modify_ok; cbn; by rewrite lookup_insert_eq].
    cbn [m_hooks m_blocks m_arrays]. rewrite insert_insert_eq.
    erewrite hook_modify_ok; [|cbn; by rewrite lookup_insert_eq].
    cbn [m_hooks m_blocks m_arrays]. rewrite insert_insert_eq. reflexivity.
  - split; cbn [m_hooks m_blocks m_arrays].
    + exists h. split; [done|]. reflexivity.
    + exists nm. split.
      { unfold nm. rewrite !length_app, length_take, length_drop, length_replicate. lia. }
      apply map_eq. intros b. destruct (decide (b = b2)) as [->|]; [by rewrite !lookup_insert_eq|].
      rewrite !(lookup_insert_ne _ b2) by done.
      destruct (decide (b = b1)) as [->|]; [by rewrite !lookup_insert_eq|].
      by rewrite !lookup_insert_ne by done.
    + exists h, a0, ar. by rewrite array_dup_eq.
Qed.

Lemma new_session_mem_ok shared p hs b1 b2 a connfd m m' :
  mem_ok m -> m_hooks m !! hs = None -> m_blocks m !! b1 = None -> m_blocks m !! b2 = None ->
  b1 <> b2 -> m_arrays m !! a = None -> new_session p hs b1 b2 a connfd m m' ->
  mem_ok m' /\ forall q, is_Some (m_hooks m !! q) -> sess_same shared q m m'.
Proof.
  intros Hm Hhs Hb1 Hb2 Hb Ha [(h & Hp & Hh) (nm & Hnm & Hbs) (h0 & a0 & ar & Hp0 & Hd & Har & Hars)].
  destruct m' as [hs' bs' ars']. cbn in *. subst hs' bs' ars'. split.
  - apply mem_ok_new; cbn [hk_mp hk_data hk_udata hk_ready]; try done.
    + apply NoDup_cons. split; [set_solver|apply NoDup_singleton].
    + intros b. rewrite elem_of_cons, list_elem_of_singleton. naive_solver.
    + intros b. rewrite !lookup_insert_is_Some', elem_of_cons, list_elem_of_singleton. naive_solver.
    + intros a' Hin. rewrite lookup_insert_is_Some'. auto.
    + intros a' [= <-]. rewrite lookup_insert_eq. split; [done|]. intros q hq Hq Hdq.
      destruct (mok_data m Hm q hq a Hq Hdq) as [x Hx]. congruence.
    + rewrite length_insert. by apply (mok_udata m Hm p).
  - intros q [k Hk]. split. exists k, k. cbn. rewrite lookup_insert_ne by congruence.
    do 7 (split; [done|]). split.
    + intros b Hin. destruct (mok_live m Hm q k b Hk Hin) as [x Hx].
      rewrite !lookup_insert_ne; congruence.
    + intros a' x _ Hx. exists x. rewrite lookup_insert_ne by congruence. done.
Qed.

(** Freeing another hook does not touch a session. *)
Lemma sess_same_free shared p q m m' h :
  mem_ok m -> m_hooks m !! q = Some h -> hk_ready h = Some Rd_on_data -> p <> q ->
  (forall a, hk_data h = Some a -> a ∉ shared) ->
  hook_free_real q m = Ok (tt, m') -> is_Some (m_hooks m !! p) -> sess_same shared p m m'.
Proof.
  intros Hm Hq Hr Hne Hsh Hrun [k Hk].
  destruct (hook_free_real_ok m q h Hm Hq Hr) as (m1 & Hrun1 & _ & Hh & Hb & Ha).
  rewrite Hrun1 in Hrun. injection Hrun as ->.
  split. exists k, k. rewrite Hh, lookup_delete_ne by done. do 7 (split; [done|]). split.
  - intros b Hin. rewrite Hb, blocks_minus_lookup, decide_False; [done|].
    intros Hin'. by destruct (mok_disj m Hm p q k h b Hk Hq Hin Hin').
  - intros a x Hax Hx. exists x. split; [|done]. rewrite Ha.
    destruct (hk_data h) as [a'|] eqn:Hd; cbn; [|done].
    rewrite lookup_delete_ne; [done|]. intros ->. destruct Hax as [Hax|Hax]; [by apply (Hsh a)|].
    destruct Hne. symmetry. by apply (mok_data_own m Hm q p h k a).
Qed.

(** ** The invariant *)
Section invariant.
Context {Q : Type} (ops : fifo_ops Q) (rep : Q -> list Z -> Prop) `{!Fifo ops rep}.
Context {env : Type} (process : env -> loc -> st mem unit) (shared : gset loc).
Context (sess lst : loc -> mem -> Prop) (legal : env -> loc -> mem -> Prop).
Context `{!Handler process shared sess lst legal}.
Variable sysptr : Z.
(** The number of workers. *)
Variable n : nat.

(** A hook is a listening socket or a session. *)
Definition hook_kind (m : mem) (p : loc) (h : hook) : Prop :=
  0 <= hk_fd h /\ exists a, hk_data h = Some a /\
    ((hk_ready h = Some Rd_on_connect /\ hk_process h = None /\ lst p m /\ a ∈ shared) \/
     (hk_ready h = Some Rd_on_data /\ sess p m /\ a ∉ shared)).

Record hooks_ok (m : mem) : Prop := {
  hok_mem : mem_ok m;
  hok_kind p h : m_hooks m !! p = Some h -> hook_kind m p h;
  hok_shared a : a ∈ shared -> is_Some (m_arrays m !! a)
}.

Definition is_sess (m : mem) (p : loc) : Prop :=
  exists h, m_hooks m !! p = Some h /\ hk_ready h = Some Rd_on_data.
Definition is_lst (m : mem) (p : loc) : Prop :=
  exists h, m_hooks m !! p = Some h /\ hk_ready h = Some Rd_on_connect.

(** [p] is a session whose descriptor is served by worker [x]. *)
Definition at_worker (m : mem) (x : nat) (p : loc) : Prop :=
  exists h, m_hooks m !! p = Some h /\ hk_ready h = Some Rd_on_data /\
    hk_process h = Some Pr_process_data /\ worker_of (Z.of_nat n) (hk_fd h) = Ok x.

Definition evs_ok (epoll : gmap Z loc) (evs : list (Z * loc)) : Prop :=
  NoDup evs.*2 /\ forall p, p ∈ evs.*2 -> exists fd, epoll !! fd = Some p.

Definition main_ok (m : mem) (epoll : gmap Z loc) (pc : main_pc) : Prop :=
  match pc with
  | MPoll => True
  | MEvents evs => evs_ok epoll evs
  | MReady p evs => evs_ok epoll ((0, p) :: evs)
  | MAccept p evs => evs_ok epoll ((0, p) :: evs) /\ is_lst m p
  | MClose p evs => evs_ok epoll ((0, p) :: evs) /\ is_sess m p
  | MUnref p evs => evs_ok epoll evs /\ is_sess m p
  | MFree p evs => evs_ok epoll evs
  | MRef p evs => evs_ok epoll ((0, p) :: evs) /\
      exists h, m_hooks m !! p = Some h /\ hk_ready h = Some Rd_on_data /\
        hk_process h = Some Pr_process_data
  | MIn p x evs => evs_ok epoll evs /\ at_worker m x p
  | MPost x evs => evs_ok epoll evs /\ (x < n)%nat
  end.

Definition main_refs (pc : main_pc) : list loc :=
  match pc with MIn p _ _ | MUnref p _ => [p] | _ => [] end.
Definition main_free (pc : main_pc) : list loc :=
  match pc with MFree p _ => [p] | _ => [] end.
Definition work_refs (pc : work_pc) : list loc :=
  match pc with WProc p | WUnref p => [p] | _ => [] end.
Definition work_free (pc : work_pc) : list loc :=
  match pc with WFree p => [p] | _ => [] end.

(** The places that hold a counted reference: the event queue, the main thread
    between [hook_ref] and the queue or between [close] and [hook_free], the
    worker queues [qs], the workers. *)
Definition refs (epoll : gmap Z loc) (pc : main_pc) (qs : list (list loc)) (work : list work_pc)
  : list loc :=
  (map_to_list epoll).*2 ++ main_refs pc ++ concat qs ++ concat (work_refs <$> work).
Definition frees (pc : main_pc) (work : list work_pc) : list loc :=
  main_free pc ++ concat (work_free <$> work).

Definition in_post (pc : main_pc) (x : nat) : nat :=
  match pc with MPost y _ => if decide (x = y) then 1 else 0 | _ => 0 end.
Definition took (pc : work_pc) : nat := match pc with WTake => 1 | _ => 0 end.

Record ctl_ok (m : mem) (epoll : gmap Z loc) (open : gset Z) (qs : list (list loc))
    (sem : list nat) (pc : main_pc) (work : list work_pc) : Prop := {
  ctl_epoll fd p : epoll !! fd = Some p ->
    exists h, m_hooks m !! p = Some h /\ hk_fd h = fd /\ fd ∈ open;
  ctl_queue x l p : qs !! x = Some l -> p ∈ l -> at_worker m x p;
  ctl_work x w p : work !! x = Some w -> p ∈ work_refs w -> at_worker m x p;
  ctl_free p : p ∈ frees pc work -> is_sess m p;
  ctl_main : main_ok m epoll pc;
  ctl_len : length qs = n /\ length sem = n /\ length work = n;
  ctl_sem x l k w : qs !! x = Some l -> sem !! x = Some k -> work !! x = Some w ->
    length l = (k + took w + in_post pc x)%nat
}.

Record srv_inv (qs : list (list loc)) (s : srv) : Prop := {
  inv_hooks : hooks_ok (sv_mem s);
  inv_refs : refs_ok (m_hooks (sv_mem s)) (refs (sv_epoll s) (sv_main s) qs (sv_work s))
               (frees (sv_main s) (sv_work s));
  inv_rep : Forall2 (fun q l => rep q (ptr <$> l)) (sv_q s) qs;
  inv_ctl : ctl_ok (sv_mem s) (sv_epoll s) (sv_open s) qs (sv_sem s) (sv_main s) (sv_work s)
}.

(** What the kernel and [malloc] may answer. *)
Definition legal_main (s : srv (Q := Q)) (i : main_in) : Prop :=
  match i with
  | InNone => True
  | InPoll None => True
  | InPoll (Some evs) => evs_ok (sv_epoll s) evs
  | InAccept ac =>
      (ac_fd ac = -1 \/ (0 <= ac_fd ac /\ ac_fd ac ∉ sv_open s)) /\
      (length (ac_addr ac) <= SOCKADDR_STORAGE_SZ)%nat /\
      m_hooks (sv_mem s) !! ac_hs ac = None /\ m_blocks (sv_mem s) !! ac_b1 ac = None /\
      m_blocks (sv_mem s) !! ac_b2 ac = None /\ ac_b1 ac <> ac_b2 ac /\
      m_arrays (sv_mem s) !! ac_a ac = None
  end.

Definition legal_work (s : srv (Q := Q)) (x : nat) (e : env) : Prop :=
  forall p, sv_work s !! x = Some (WProc p) -> legal e p (sv_mem s).

(** ** Changes of the memory the control does not see *)

(** Live hooks stay, with their descriptor, their [ready] and any [process]. *)
Definition hooks_ext (dead : list loc) (m m' : mem) : Prop :=
  forall p h, m_hooks m !! p = Some h -> p ∉ dead ->
    exists h', m_hooks m' !! p = Some h' /\ hk_fd h' = hk_fd h /\ hk_ready h' = hk_ready h /\
      (hk_process h = Some Pr_process_data -> hk_process h' = Some Pr_process_data).

Lemma is_sess_ext dead m m' p : hooks_ext dead m m' -> p ∉ dead -> is_sess m p -> is_sess m' p.
Proof.
  intros He Hp (h & Hh & Hr). destruct (He p h Hh Hp) as (h' & Hh' & _ & Hr' & _).
  exists h'. split; congruence.
Qed.

Lemma is_lst_ext dead m m' p : hooks_ext dead m m' -> p ∉ dead -> is_lst m p -> is_lst m' p.
Proof.
  intros He Hp (h & Hh & Hr). destruct (He p h Hh Hp) as (h' & Hh' & _ & Hr' & _).
  exists h'. split; congruence.
Qed.

Lemma at_worker_ext dead m m' x p :
  hooks_ext dead m m' -> p ∉ dead -> at_worker m x p -> at_worker m' x p.
Proof.
  intros He Hp (h & Hh & Hr & Hpr & Hx). destruct (He p h Hh Hp) as (h' & Hh' & Hfd & Hr' & Hp').
  exists h'. rewrite Hfd, Hr'. auto.
Qed.

Lemma hooks_ext_handled p m m' : handled p m m' -> hooks_ext [] m m'.
Proof.
  intros [(h & h' & new & Hp & Hh & _ & _ & Hr & Hfd & Hpr & _)]. intros q k Hk _.
  rewrite Hh. destruct (decide (p = q)) as [<-|Hne].
  - exists h'. rewrite lookup_insert_eq. rewrite Hp in Hk. injection Hk as <-. by rewrite Hpr.
  - exists k. by rewrite lookup_insert_ne.
Qed.

Lemma hooks_ext_modify p h h' m :
  m_hooks m !! p = Some h -> server_fields h h' ->
  (hk_process h = Some Pr_process_data -> hk_process h' = Some Pr_process_data) ->
  hooks_ext [] m (Mem (<[p := h']> (m_hooks m)) (m_blocks m) (m_arrays m)).
Proof.
  intros Hp [_ _ Hr Hfd _ _] Hpr q k Hk _. cbn. destruct (decide (p = q)) as [<-|Hne].
  - exists h'. rewrite lookup_insert_eq. naive_solver.
  - exists k. by rewrite lookup_insert_ne.
Qed.

Lemma main_ok_ext m m' epoll pc :
  hooks_ext [] m m' -> main_ok m epoll pc -> main_ok m' epoll pc.
Proof.
  intros He. destruct pc; cbn; try done.
  - intros [? ?]. split; [done|]. eapply is_lst_ext; [done|set_solver|done].
  - intros [? ?]. split; [done|]. eapply is_sess_ext; [done|set_solver|done].
  - intros [? ?]. split; [done|]. eapply is_sess_ext; [done|set_solver|done].
  - intros (? & h & Hh & Hr & Hp). split; [done|].
    destruct (He p h Hh) as (h' & Hh' & _ & Hr' & Hp'); [set_solver|].
    exists h'. rewrite Hr'. auto.
  - intros [? ?]. split; [done|]. eapply at_worker_ext; [done|set_solver|done].
Qed.

Lemma ctl_ok_ext m m' epoll open qs sem pc work :
  hooks_ext [] m m' -> ctl_ok m epoll open qs sem pc work -> ctl_ok m' epoll open qs sem pc work.
Proof.
  intros He [H1 H2 H3 H4 H5 H6 H7]. split; try done.
  - intros fd p Hfd. destruct (H1 fd p Hfd) as (h & Hh & Hfd' & Ho).
    destruct (He p h Hh) as (h' & Hh' & Hf & _); [set_solver|]. exists h'. split_and!; [done|congruence|done].
  - intros x l p Hx Hp. eapply at_worker_ext; [done|set_solver|eauto].
  - intros x w p Hx Hp. eapply at_worker_ext; [done|set_solver|eauto].
  - intros p Hp. eapply is_sess_ext; [done|set_solver|eauto].
  - by eapply main_ok_ext.
Qed.

Lemma hook_kind_same m m' p h h' :
  hook_kind m p h -> m_hooks m !! p = Some h -> sess_same shared p m m' ->
  m_hooks m' !! p = Some h' -> (hk_process h' = hk_process h \/ hk_ready h = Some Rd_on_data) ->
  hook_kind m' p h'.
Proof.
  intros (Hfd & a & Hd & Hk) Hp Hs Hp' Hpr. pose proof Hs as [(k & k' & Hk1 & Hk2 & _ & Hda & Hr & Hf & _)].
  rewrite Hp in Hk1. rewrite Hp' in Hk2. injection Hk1 as <-. injection Hk2 as <-.
  split; [by rewrite Hf|]. exists a. rewrite Hda, Hr. split; [done|].
  destruct Hk as [(Hr' & Hpr' & Hl & Ha)|(Hr' & Hse & Ha)]; [left|right].
  - split; [done|]. split; [destruct Hpr; congruence|]. split; [|done].
    by eapply handler_lst_stable.
  - split; [done|]. split; [|done]. by eapply handler_sess_stable.
Qed.

Lemma hooks_ok_modify m p h h' :
  hooks_ok m -> m_hooks m !! p = Some h -> server_fields h h' ->
  (hk_process h' = hk_process h \/ hk_ready h = Some Rd_on_data) ->
  hooks_ok (Mem (<[p := h']> (m_hooks m)) (m_blocks m) (m_arrays m)).
Proof.
  intros [Hm Hk Hsh] Hp Hf Hpr. split; [|cbn|done].
  - eapply mem_ok_modify; [done|done|by apply server_fields_same].
  - intros q hq Hq.
    assert (Hlive : is_Some (m_hooks m !! q)).
    { destruct (decide (p = q)) as [<-|]; [by rewrite Hp|]. rewrite lookup_insert_ne in Hq by done. eauto. }
    pose proof Hlive as [k Hq']. eapply (hook_kind_same m _ q k); [by apply Hk|done| |done|].
    + by eapply sess_same_modify.
    + destruct (decide (p = q)) as [<-|].
      * rewrite lookup_insert_eq in Hq. by simplify_eq.
      * rewrite lookup_insert_ne in Hq by done. left. congruence.
Qed.

Lemma hooks_ok_handled m m' p h :
  hooks_ok m -> m_hooks m !! p = Some h -> hk_ready h = Some Rd_on_data ->
  handled p m m' -> sess p m' -> hooks_ok m'.
Proof.
  intros [Hm Hk Hsh] Hp Hr Hd Hs. split.
  - by eapply handled_mem_ok.
  - intros q hq Hq. pose proof Hd as [(k & k' & new & Hp' & Hh & _ & Hda & Hr' & Hfd & Hpr & _)].
    rewrite Hp in Hp'. injection Hp' as <-.
    destruct (decide (p = q)) as [<-|Hne].
    + rewrite Hh, lookup_insert_eq in Hq. injection Hq as <-.
      destruct (Hk p h Hp) as (Hf & a & Ha & [(Hr2 & _)|(_ & _ & Hna)]); [congruence|].
      split; [by rewrite Hfd|]. exists a. rewrite Hda, Hr'. auto.
    + assert (Hq' : m_hooks m !! q = Some hq) by (by rewrite Hh, lookup_insert_ne in Hq).
      eapply (hook_kind_same m _ q hq); [by apply Hk|done| |done|by left].
      eapply sess_same_handled; [done|done|by apply not_eq_sym|by rewrite Hq'].
  - intros a Ha. destruct (Hsh a Ha) as [x Hx]. destruct (hd_arrays _ _ _ Hd a x Hx) as (x' & -> & _). done.
Qed.

Lemma hooks_ok_connect m m' p hs b1 b2 a connfd :
  hooks_ok m -> is_lst m p -> 0 <= connfd -> m_hooks m !! hs = None -> m_blocks m !! b1 = None ->
  m_blocks m !! b2 = None -> b1 <> b2 -> m_arrays m !! a = None ->
  new_session p hs b1 b2 a connfd m m' -> hooks_ok m'.
Proof.
  intros [Hm Hk Hsh] (h & Hp & Hr) Hfd Hhs Hb1 Hb2 Hb Ha Hn.
  destruct (new_session_mem_ok shared p hs b1 b2 a connfd m m') as [Hm' Hsame]; try done.
  split; [done| |].
  - intros q hq Hq. pose proof Hn as [(h' & Hp' & Hh) _ _].
    destruct (decide (hs = q)) as [<-|Hne].
    + rewrite Hh, lookup_insert_eq in Hq. injection Hq as <-.
      split; [done|]. exists a. split; [done|]. right. split; [done|]. split.
      * destruct (Hk p h Hp) as (_ & _ & _ & [(_ & _ & Hl & _)|(Hr2 & _)]); [|congruence].
        eapply (handler_connect p hs b1 b2 a connfd m m'); done.
      * intros Hin. destruct (Hsh a Hin) as [x Hx]. congruence.
    + assert (Hq' : m_hooks m !! q = Some hq) by (by rewrite Hh, lookup_insert_ne in Hq).
      eapply (hook_kind_same m _ q hq); [by apply Hk|done| |done|by left].
      apply Hsame. by rewrite Hq'.
  - intros a' Hin. destruct Hn as [_ _ (h' & a0 & ar & _ & _ & _ & ->)].
    rewrite lookup_insert_is_Some'. auto.
Qed.

Lemma hooks_ok_free m m' p :
  hooks_ok m -> is_sess m p -> hook_free_real p m = Ok (tt, m') ->
  hooks_ok m' /\ m_hooks m' = delete p (m_hooks m) /\ hooks_ext [p] m m'.
Proof.
  intros [Hm Hk Hsh] (h & Hp & Hr) Hrun.
  destruct (hook_free_real_ok m p h Hm Hp Hr) as (m1 & Hrun1 & Hm1 & Hh & Hb & Ha).
  assert (m1 = m') as -> by (rewrite Hrun1 in Hrun; by injection Hrun).
  assert (Hnsh : forall a, hk_data h = Some a -> a ∉ shared).
  { destruct (Hk p h Hp) as (_ & a & Hd & [(Hr2 & _)|(_ & _ & Hna)]); [congruence|].
    intros a' Ha'. congruence. }
  split; [split; [done| |]|split; [done|]].
  - intros q hq Hq. rewrite Hh in Hq. apply lookup_delete_Some in Hq as [Hne Hq].
    eapply (hook_kind_same m _ q hq); [by apply Hk|done| | |by left].
    + eapply (sess_same_free shared q p); [done|done|done|by apply not_eq_sym|done|done|by rewrite Hq].
    + by rewrite Hh, lookup_delete_ne.
  - intros a Hin. rewrite Ha. destruct (hk_data h) as [a'|] eqn:Hd; cbn; [|by apply Hsh].
    rewrite lookup_delete_ne; [by apply Hsh|]. intros ->. by apply (Hnsh a).
  - intros q k Hq Hne. exists k. rewrite Hh, lookup_delete_ne by set_solver. done.
Qed.

Lemma hook_free_real_total m p :
  hooks_ok m -> is_sess m p -> exists m', hook_free_real p m = Ok (tt, m').
Proof.
  intros [Hm _ _] (h & Hp & Hr).
  destruct (hook_free_real_ok m p h Hm Hp Hr) as (m1 & Hrun1 & _). eauto.
Qed.

(** [ioqueue_socket_on_data] does not fault; it answers 0 or 1, and 1 only for a
    session that has a handler. *)
Lemma on_data_ret_ok m p :
  hooks_ok m -> is_sess m p ->
  exists ret m', on_data_ret p m = Ok (ret, m') /\ hooks_ok m' /\ hooks_ext [] m m' /\
    (exists h h', m_hooks m !! p = Some h /\ m_hooks m' = <[p := h']> (m_hooks m) /\
       hk_refcnt h' = hk_refcnt h) /\
    (ret = 0 \/ (ret = 1 /\ exists h, m_hooks m' !! p = Some h /\
                   hk_ready h = Some Rd_on_data /\ hk_process h = Some Pr_process_data)).
Proof.
  intros Hok (h & Hp & Hr). pose proof Hok as [Hm Hk _].
  destruct (Hk p h Hp) as (_ & a & Hd & _).
  destruct (mok_data m Hm p h a Hp Hd) as [ar Har].
  assert (Hid : forall ret, ret = 0 \/ (ret = 1 /\ hk_process h = Some Pr_process_data) ->
    exists ret' m', Ok (ret, m) = Ok (ret', m') /\ hooks_ok m' /\ hooks_ext [] m m' /\
    (exists h h', m_hooks m !! p = Some h /\ m_hooks m' = <[p := h']> (m_hooks m) /\
       hk_refcnt h' = hk_refcnt h) /\
    (ret' = 0 \/ (ret' = 1 /\ exists h, m_hooks m' !! p = Some h /\
                   hk_ready h = Some Rd_on_data /\ hk_process h = Some Pr_process_data))).
  { intros ret Hret. exists ret, m. split; [done|]. split; [done|]. split.
    - intros q k Hq _. by exists k.
    - split; [exists h, h; by rewrite insert_id|]. naive_solver. }
  unfold on_data_ret. run_step (hook_load_ok m p h Hp). rewrite Hd.
  destruct (_ || _ || _); [apply Hid; auto|].
  destruct (hk_process h) as [[]|] eqn:Hpr; [apply Hid; auto|].
  erewrite st_bind_run; [|unfold array_load; by rewrite Har].
  destruct (array_key_exists ar (key "hoda")); [|apply Hid; auto].
  erewrite st_bind_run; [|by apply hook_modify_ok].
  assert (Hf : server_fields h (set_process (Some Pr_process_data) h)) by done.
  eexists 1, _. split; [reflexivity|].
  split; [eapply hooks_ok_modify; [done|done|done|by right]|].
  split; [by eapply hooks_ext_modify|]. cbn.
  split; [exists h; eexists; done|]. right. split; [done|].
  exists (set_process (Some Pr_process_data) h). by rewrite lookup_insert_eq.
Qed.

(** ** Moving references *)
Lemma concat_insert {A} (ls : list (list A)) x a b :
  ls !! x = Some a -> concat (<[x := b]> ls) ++ a ≡ₚ concat ls ++ b.
Proof.
  intros Hx. rewrite <- (take_drop_middle ls x a Hx) at 2.
  rewrite insert_take_drop by (by eapply lookup_lt_Some).
  rewrite !concat_app. cbn. solve_Permutation.
Qed.

Lemma elem_of_concat_at {A} (ls : list (list A)) i l x : ls !! i = Some l -> x ∈ l -> x ∈ concat ls.
Proof.
  revert i. induction ls as [|l' ls IH]; intros [|i]; cbn; try done.
  - intros [= ->]. set_solver.
  - intros Hi Hx. specialize (IH i Hi Hx). set_solver.
Qed.

Lemma refs_queue_elem epoll pc qs work x l p : qs !! x = Some l -> p ∈ l -> p ∈ refs epoll pc qs work.
Proof.
  intros Hx Hp. unfold refs. rewrite !elem_of_app. right; right; left. by eapply elem_of_concat_at.
Qed.

Lemma refs_work_elem epoll pc qs work x w p :
  work !! x = Some w -> p ∈ work_refs w -> p ∈ refs epoll pc qs work.
Proof.
  intros Hx Hp. unfold refs. rewrite !elem_of_app. right; right; right.
  eapply (elem_of_concat_at _ x); [|done]. by rewrite list_lookup_fmap, Hx.
Qed.

Lemma refs_epoll_elem epoll pc qs work fd p : epoll !! fd = Some p -> p ∈ refs epoll pc qs work.
Proof.
  intros Hfd. unfold refs. rewrite elem_of_app. left.
  apply (list_elem_of_fmap_2 snd _ (fd, p)). by apply elem_of_map_to_list.
Qed.

Lemma refs_epoll_insert epoll pc qs work fd p :
  epoll !! fd = None -> refs (<[fd := p]> epoll) pc qs work ≡ₚ p :: refs epoll pc qs work.
Proof. intros Hfd. unfold refs. rewrite map_to_list_insert by done. done. Qed.

Lemma refs_epoll_delete epoll pc qs work fd p :
  epoll !! fd = Some p -> refs epoll pc qs work ≡ₚ p :: refs (delete fd epoll) pc qs work.
Proof. intros Hfd. unfold refs. by rewrite <- (map_to_list_delete epoll fd p Hfd). Qed.

Lemma refs_main epoll pc pc' qs work :
  main_refs pc = [] -> refs epoll pc' qs work ≡ₚ main_refs pc' ++ refs epoll pc qs work.
Proof. intros Hpc. unfold refs. rewrite Hpc. cbn. solve_Permutation. Qed.

Lemma refs_queue epoll pc qs work x l l' :
  qs !! x = Some l ->
  refs epoll pc (<[x := l']> qs) work ++ l ≡ₚ refs epoll pc qs work ++ l'.
Proof.
  intros Hx. unfold refs. pose proof (concat_insert qs x l l' Hx) as Hc.
  transitivity ((map_to_list epoll).*2 ++ main_refs pc ++ concat (work_refs <$> work) ++
                (concat (<[x:=l']> qs) ++ l)); [solve_Permutation|].
  rewrite Hc. solve_Permutation.
Qed.

Lemma refs_queue_in epoll pc qs work x l p :
  qs !! x = Some l -> refs epoll pc (<[x := l ++ [p]]> qs) work ≡ₚ p :: refs epoll pc qs work.
Proof.
  intros Hx. apply (Permutation_app_inv_r l).
  rewrite (refs_queue epoll pc qs work x l (l ++ [p]) Hx). solve_Permutation.
Qed.

Lemma refs_queue_out epoll pc qs work x l p :
  qs !! x = Some (p :: l) -> refs epoll pc qs work ≡ₚ p :: refs epoll pc (<[x := l]> qs) work.
Proof.
  intros Hx. apply (Permutation_app_inv_r l).
  rewrite <- (refs_queue epoll pc qs work x (p :: l) l Hx). solve_Permutation.
Qed.

Lemma refs_work epoll pc qs work x w w' :
  work !! x = Some w ->
  refs epoll pc qs (<[x := w']> work) ++ work_refs w ≡ₚ refs epoll pc qs work ++ work_refs w'.
Proof.
  intros Hx. unfold refs. rewrite list_fmap_insert.
  assert (Hx' : (work_refs <$> work) !! x = Some (work_refs w)) by (by rewrite list_lookup_fmap, Hx).
  pose proof (concat_insert _ x _ (work_refs w') Hx') as Hc.
  rewrite <- !app_assoc. by rewrite Hc.
Qed.

Lemma frees_work pc work x w w' :
  work !! x = Some w ->
  frees pc (<[x := w']> work) ++ work_free w ≡ₚ frees pc work ++ work_free w'.
Proof.
  intros Hx. unfold frees. rewrite list_fmap_insert.
  assert (Hx' : (work_free <$> work) !! x = Some (work_free w)) by (by rewrite list_lookup_fmap, Hx).
  pose proof (concat_insert _ x _ (work_free w') Hx') as Hc.
  rewrite <- !app_assoc. by rewrite Hc.
Qed.

Lemma refs_ok_counts hs rt ft hs' :
  refs_ok hs rt ft -> (forall p, hk_refcnt <$> hs' !! p = hk_refcnt <$> hs !! p) -> refs_ok hs' rt ft.
Proof.
  intros [H1 H2 H3 H4 H5] Heq.
  assert (Hs : forall p, is_Some (hs' !! p) <-> is_Some (hs !! p)).
  { intros p. specialize (Heq p). destruct (hs' !! p), (hs !! p); naive_solver. }
  split; try setoid_rewrite Hs; try done.
  intros p h Hp. specialize (Heq p). rewrite Hp in Heq.
  destruct (hs !! p) as [k|] eqn:Hk; [|done]. injection Heq as ->. eauto.
Qed.

(** A registered hook is live; what [p] was registered under is its descriptor. *)
Lemma evs_ok_live m epoll open qs sem pc work ev p evs :
  ctl_ok m epoll open qs sem pc work -> evs_ok epoll ((ev, p) :: evs) ->
  exists h, m_hooks m !! p = Some h /\ epoll !! hk_fd h = Some p /\ hk_fd h ∈ open.
Proof.
  intros Hc [_ Hr]. destruct (Hr p) as [fd Hfd]; [cbn; set_solver|].
  destruct (ctl_epoll _ _ _ _ _ _ _ Hc fd p Hfd) as (h & Hh & <- & Ho). eauto.
Qed.

Lemma evs_ok_cons epoll ev p evs :
  evs_ok epoll ((ev, p) :: evs) -> evs_ok epoll evs /\ p ∉ evs.*2.
Proof.
  intros [Hnd Hr]. cbn in Hnd. apply NoDup_cons in Hnd as [Hp Hnd].
  split; [split; [done|]|done]. intros q Hq. apply Hr. cbn. set_solver.
Qed.

Lemma evs_ok_ev epoll ev ev' p evs : evs_ok epoll ((ev, p) :: evs) -> evs_ok epoll ((ev', p) :: evs).
Proof. done. Qed.

(** The main thread moves on; nothing else changes. *)
Lemma inv_main_only qs s pc :
  srv_inv qs s -> main_refs pc = main_refs (sv_main s) -> main_free pc = main_free (sv_main s) ->
  (forall x, in_post pc x = in_post (sv_main s) x) ->
  main_ok (sv_mem s) (sv_epoll s) pc -> srv_inv qs (with_main s pc).
Proof.
  intros [Hh Hr Hrep [H1 H2 H3 H4 H5 H6 H7]] Hrefs Hfree Hpost Hmain.
  split; cbn; try done.
  - unfold refs, frees in *. by rewrite Hrefs, Hfree.
  - split; try done.
    + unfold frees in *. by rewrite Hfree.
    + intros x l k w. rewrite Hpost. eauto.
Qed.

(** The memory changes in a way the control does not see. *)
Lemma inv_mem_only qs s m :
  srv_inv qs s -> hooks_ok m -> hooks_ext [] (sv_mem s) m ->
  (forall p, hk_refcnt <$> m_hooks m !! p = hk_refcnt <$> m_hooks (sv_mem s) !! p) ->
  srv_inv qs (with_mem s m (sv_main s)).
Proof.
  intros [Hh Hr Hrep Hc] Hok He Hcnt. split; cbn; try done.
  - by eapply refs_ok_counts.
  - by eapply ctl_ok_ext.
Qed.

(** Both. *)
Lemma inv_mem_main qs s m pc :
  srv_inv qs s -> hooks_ok m -> hooks_ext [] (sv_mem s) m ->
  (forall p, hk_refcnt <$> m_hooks m !! p = hk_refcnt <$> m_hooks (sv_mem s) !! p) ->
  main_refs pc = main_refs (sv_main s) -> main_free pc = main_free (sv_main s) ->
  (forall x, in_post pc x = in_post (sv_main s) x) ->
  main_ok m (sv_epoll s) pc -> srv_inv qs (with_mem s m pc).
Proof.
  intros Hi Hm He Hc Hr Hf Hp Hmain.
  apply (inv_main_only qs (with_mem s m (sv_main s)) pc); [by apply inv_mem_only|done..].
Qed.

(** The goal of every step lemma. *)
Definition step_good (r : result (option (srv (Q := Q)))) : Prop :=
  exists o, r = Ok o /\ forall s', o = Some s' -> exists qs, srv_inv qs s'.

Lemma step_good_some qs s' : srv_inv qs s' -> step_good (Ok (Some s')).
Proof. intros Hi. eexists. split; [done|]. intros ? [= <-]. eauto. Qed.

Lemma step_good_none : step_good (Ok None).
Proof. by eexists. Qed.

(** ** The steps of the main thread *)
Lemma step_events qs s ev p evs :
  srv_inv qs s -> sv_main s = MEvents ((ev, p) :: evs) -> step_good (main_step ops InNone s).
Proof.
  intros Hi Hpc. pose proof Hi as [Hh Hr Hrep Hc].
  assert (Hev : evs_ok (sv_epoll s) ((ev, p) :: evs)) by (pose proof (ctl_main _ _ _ _ _ _ _ Hc) as Hm; by rewrite Hpc in Hm).
  destruct (evs_ok_live _ _ _ _ _ _ _ _ _ _ Hc Hev) as (h & Hp & _).
  unfold main_step. rewrite Hpc. rewrite (hook_modify_ok _ _ _ _ Hp). cbn [mbind result_bind].
  assert (Hf : server_fields h (set_events ev h)) by done.
  apply (step_good_some qs).
  apply inv_mem_main; rewrite ?Hpc; try done; [eapply hooks_ok_modify; eauto|by eapply hooks_ext_modify|].
  intros q. cbn. destruct (decide (p = q)) as [<-|Hne].
  - by rewrite lookup_insert_eq, Hp.
  - by rewrite lookup_insert_ne.
Qed.

Lemma step_ready qs s p evs :
  srv_inv qs s -> sv_main s = MReady p evs -> step_good (main_step ops InNone s).
Proof.
  intros Hi Hpc. pose proof Hi as [Hh Hr Hrep Hc].
  assert (Hev : evs_ok (sv_epoll s) ((0, p) :: evs)) by (pose proof (ctl_main _ _ _ _ _ _ _ Hc) as Hm; by rewrite Hpc in Hm).
  destruct (evs_ok_live _ _ _ _ _ _ _ _ _ _ Hc Hev) as (h & Hp & _).
  destruct (hok_kind _ Hh p h Hp) as (_ & a & Hd & Hk).
  unfold main_step. rewrite Hpc. rewrite (hook_load_ok _ _ _ Hp). cbn [mbind result_bind].
  destruct Hk as [(Hrd & _)|(Hrd & _)]; rewrite Hrd.
  - rewrite Hd. apply (step_good_some qs). apply inv_main_only; rewrite ?Hpc; try done.
    split; [done|]. by exists h.
  - destruct (on_data_ret_ok (sv_mem s) p Hh) as (ret & m & Hrun & Hok & He & Hch & Hret); [by exists h|].
    rewrite Hrun. cbn [mbind result_bind].
    assert (Hcnt : forall q, hk_refcnt <$> m_hooks m !! q = hk_refcnt <$> m_hooks (sv_mem s) !! q).
    { destruct Hch as (k & k' & Hk & Hm & Hrc).
      intros q. rewrite Hm. destruct (decide (p = q)) as [<-|Hne].
      - by rewrite lookup_insert_eq, Hk; cbn; rewrite Hrc.
      - by rewrite lookup_insert_ne. }
    destruct Hret as [->|(-> & k & Hk & Hkr & Hkp)].
    + rewrite decide_True by done. apply (step_good_some qs).
      apply inv_mem_main; rewrite ?Hpc; try done.
      split; [done|]. eapply is_sess_ext; [done|set_solver|by exists h].
    + rewrite decide_False by done. rewrite (hook_load_ok _ _ _ Hk). cbn [mbind result_bind].
      rewrite decide_True by (rewrite Hkp; split; [lia|done]). apply (step_good_some qs).
      apply inv_mem_main; rewrite ?Hpc; try done.
      split; [done|]. eauto.
Qed.

Lemma step_accept qs s p evs ac :
  srv_inv qs s -> sv_main s = MAccept p evs -> legal_main s (InAccept ac) ->
  step_good (main_step ops (InAccept ac) s).
Proof.
  intros Hi Hpc (Hfd & Haddr & Hhs & Hb1 & Hb2 & Hb & Ha). pose proof Hi as [Hh Hr Hrep Hc].
  pose proof (ctl_main _ _ _ _ _ _ _ Hc) as Hm. rewrite Hpc in Hm. destruct Hm as [Hev Hl].
  destruct (evs_ok_live _ _ _ _ _ _ _ _ _ _ Hc Hev) as (h & Hp & Hreg & _).
  destruct (hok_kind _ Hh p h Hp) as (_ & a0 & Hd & _).
  destruct (mok_data _ (hok_mem _ Hh) p h a0 Hp Hd) as [ar Har].
  unfold main_step. rewrite Hpc, (hook_load_ok _ _ _ Hp). cbn [mbind result_bind].
  case_decide as Hcond.
  2: { apply (step_good_some qs). apply inv_main_only; rewrite ?Hpc; try done.
       by apply evs_ok_cons in Hev as []. }
  case_decide as Hm1; [by apply (step_good_some qs)|].
  destruct Hfd as [?|[Hfd Hno]]; [done|].
  destruct (on_connect_session_ok p (ac_hs ac) (ac_b1 ac) (ac_b2 ac) (ac_a ac) (ac_fd ac)
              (ac_addr ac) (sv_mem s) h a0 ar) as (m & Hrun & Hn); try done.
  rewrite Hrun. cbn [mbind result_bind].
  assert (Hok : hooks_ok m).
  { apply (hooks_ok_connect (sv_mem s) m p (ac_hs ac) (ac_b1 ac) (ac_b2 ac) (ac_a ac) (ac_fd ac)); try done. }
  pose proof Hn as [(h' & Hp' & Hhooks) _ _].
  assert (He : hooks_ext [] (sv_mem s) m).
  { intros q k Hq _. exists k. rewrite Hhooks, lookup_insert_ne by congruence. done. }
  assert (Hep : sv_epoll s !! ac_fd ac = None).
  { destruct (sv_epoll s !! ac_fd ac) as [q|] eqn:Hq; [|done].
    destruct (ctl_epoll _ _ _ _ _ _ _ Hc _ _ Hq) as (? & _ & _ & ?). done. }
  apply (step_good_some qs). split; cbn.
  - done.
  - rewrite refs_epoll_insert by done. rewrite Hhooks. rewrite Hpc in Hr.
    by apply refs_ok_new.
  - done.
  - destruct (ctl_ok_ext _ _ _ _ _ _ _ _ He Hc) as [H1 H2 H3 H4 H5 H6 H7].
    rewrite Hpc in *. split; try done.
    + intros fd q Hq. destruct (decide (ac_fd ac = fd)) as [<-|Hne].
      * rewrite lookup_insert_eq in Hq. injection Hq as <-.
        eexists. rewrite Hhooks, lookup_insert_eq. split; [done|]. split; [done|]. set_solver.
      * rewrite lookup_insert_ne in Hq by done. destruct (H1 fd q Hq) as (k & Hk & Hkfd & Ho).
        exists k. split; [done|]. split; [done|]. set_solver.
    + split; [|by destruct H5]. destruct Hev as [Hnd Hreg']. split; [done|].
      intros q Hq. destruct (Hreg' q Hq) as [fd Hfd']. exists fd.
      rewrite lookup_insert_ne; [done|]. congruence.
Qed.

Lemma step_close qs s p evs :
  srv_inv qs s -> sv_main s = MClose p evs -> step_good (main_step ops InNone s).
Proof.
  intros Hi Hpc. pose proof Hi as [Hh Hr Hrep Hc].
  pose proof (ctl_main _ _ _ _ _ _ _ Hc) as Hm. rewrite Hpc in Hm. destruct Hm as [Hev Hs].
  destruct (evs_ok_live _ _ _ _ _ _ _ _ _ _ Hc Hev) as (h & Hp & Hreg & _).
  unfold main_step. rewrite Hpc, (hook_load_ok _ _ _ Hp). cbn [mbind result_bind].
  destruct Hc as [H1 H2 H3 H4 H5 H6 H7]. rewrite Hpc in *.
  apply (step_good_some qs). split; cbn; try done.
  - rewrite (refs_epoll_delete _ _ _ _ _ _ Hreg) in Hr.
    by rewrite (refs_main _ (MClose p evs)).
  - split; try done.
    + intros fd q [Hne Hq]%lookup_delete_Some. destruct (H1 fd q Hq) as (k & Hk & Hkfd & Ho).
      exists k. split; [done|]. split; [done|]. set_solver.
    + apply evs_ok_cons in Hev as Hev'. destruct Hev' as [[Hnd Hre] Hpe].
      split; [|done]. split; [done|]. intros q Hq. destruct (Hre q Hq) as [fd Hfd].
      exists fd. rewrite lookup_delete_ne; [done|]. intros <-.
      assert (q = p) as -> by congruence. done.
Qed.

Lemma step_unref qs s p evs :
  srv_inv qs s -> sv_main s = MUnref p evs -> step_good (main_step ops InNone s).
Proof.
  intros Hi Hpc. pose proof Hi as [Hh Hr Hrep Hc].
  pose proof (ctl_main _ _ _ _ _ _ _ Hc) as Hm. rewrite Hpc in Hm. destruct Hm as [Hev (h & Hp & Hrd)].
  unfold main_step. rewrite Hpc, (hook_sub_ok _ _ _ Hp). cbn [mbind result_bind].
  set (h' := upd_refcnt (fun c => c - 1) h).
  assert (Hf : server_fields h h') by done.
  set (m := Mem _ _ _). assert (Hok : hooks_ok m) by (eapply hooks_ok_modify; eauto).
  assert (He : hooks_ext [] (sv_mem s) m) by by eapply hooks_ext_modify.
  rewrite Hpc in Hr. rewrite (refs_main _ MPoll) in Hr by done. cbn [main_refs app frees main_free] in Hr.
  destruct (refs_ok_unref _ _ _ _ _ Hr Hp) as [Hcnt Hr'].
  destruct (ctl_ok_ext _ _ _ _ _ _ _ _ He Hc) as [H1 H2 H3 H4 H5 H6 H7]. rewrite Hpc in *.
  case_bool_decide as Hz.
  - rewrite decide_True in Hr' by done. apply (step_good_some qs). split; cbn; try done.
    split; try done.
    intros q [->|Hq]%elem_of_cons; [|by apply H4].
    exists h'. unfold m. cbn. by rewrite lookup_insert_eq.
  - rewrite decide_False in Hr' by done. apply (step_good_some qs). split; cbn; try done.
Qed.

Lemma step_free qs s p evs :
  srv_inv qs s -> sv_main s = MFree p evs -> step_good (main_step ops InNone s).
Proof.
  intros Hi Hpc. pose proof Hi as [Hh Hr Hrep Hc].
  assert (Hs : is_sess (sv_mem s) p).
  { apply (ctl_free _ _ _ _ _ _ _ Hc). rewrite Hpc. cbn. set_solver. }
  destruct (hook_free_real_total _ _ Hh Hs) as (m & Hrun).
  destruct (hooks_ok_free _ _ _ Hh Hs Hrun) as (Hok & Hhooks & He).
  unfold main_step. rewrite Hpc, Hrun. cbn [mbind result_bind].
  rewrite Hpc in Hr. cbn [frees main_free app] in Hr.
  assert (Hprt : p ∉ refs (sv_epoll s) (MFree p evs) qs (sv_work s)) by (apply (ro_free _ _ _ Hr); cbn; set_solver).
  assert (Hpft : p ∉ concat (work_free <$> sv_work s)).
  { pose proof (ro_once _ _ _ Hr) as Hnd. cbn in Hnd. by apply NoDup_cons in Hnd as []. }
  destruct Hc as [H1 H2 H3 H4 H5 H6 H7]. rewrite Hpc in *.
  apply (step_good_some qs). split; cbn; try done.
  - rewrite Hhooks. by apply refs_ok_delete.
  - split; try done.
    + intros fd q Hfd. destruct (H1 fd q Hfd) as (k & Hk & Hkfd & Ho).
      destruct (He q k Hk) as (k' & Hk' & Hkf & _).
      { rewrite list_elem_of_singleton. intros ->. by eapply Hprt, refs_epoll_elem. }
      exists k'. split_and!; [done|congruence|done].
    + intros x l q Hx Hq. eapply at_worker_ext; [done| |eauto].
      rewrite list_elem_of_singleton. intros ->. by eapply Hprt, refs_queue_elem.
    + intros x w q Hx Hq. eapply at_worker_ext; [done| |eauto].
      rewrite list_elem_of_singleton. intros ->. by eapply Hprt, refs_work_elem.
    + intros q Hq. eapply is_sess_ext; [done| |apply H4; cbn; set_solver].
      rewrite list_elem_of_singleton. by intros ->.
Qed.

Lemma worker_of_ok fd :
  (0 < n)%nat -> 0 <= fd -> exists x, worker_of (Z.of_nat n) fd = Ok x /\ (x < n)%nat.
Proof.
  intros Hn Hfd. unfold worker_of. rewrite decide_False by lia.
  pose proof (Z.rem_bound_pos fd (Z.of_nat n)) as Hb.
  rewrite decide_False by lia. eexists. split; [done|]. lia.
Qed.

Lemma worker_of_lt fd x : (0 < n)%nat -> 0 <= fd -> worker_of (Z.of_nat n) fd = Ok x -> (x < n)%nat.
Proof. intros Hn Hfd Hx. destruct (worker_of_ok fd Hn Hfd) as (y & Hy & ?). congruence. Qed.

Lemma at_worker_lt m x p : (0 < n)%nat -> hooks_ok m -> at_worker m x p -> (x < n)%nat.
Proof.
  intros Hn Hm (h & Hp & _ & _ & Hx). destruct (hok_kind _ Hm p h Hp) as (Hfd & _).
  by eapply worker_of_lt.
Qed.

Lemma nworkers_eq qs s : srv_inv qs s -> nworkers s = Z.of_nat n.
Proof.
  intros [_ _ Hrep Hc]. unfold nworkers. apply Forall2_length in Hrep.
  destruct (ctl_len _ _ _ _ _ _ _ Hc). lia.
Qed.

Lemma step_ref qs s p evs :
  (0 < n)%nat -> srv_inv qs s -> sv_main s = MRef p evs -> step_good (main_step ops InNone s).
Proof.
  intros Hn Hi Hpc. pose proof Hi as [Hh Hr Hrep Hc].
  pose proof (ctl_main _ _ _ _ _ _ _ Hc) as Hm. rewrite Hpc in Hm.
  destruct Hm as (Hev & h & Hp & Hrd & Hpr).
  destruct (hok_kind _ Hh p h Hp) as (Hfd & _).
  destruct (worker_of_ok (hk_fd h) Hn Hfd) as (x & Hx & _).
  unfold main_step. rewrite Hpc, (hook_load_ok _ _ _ Hp). cbn [mbind result_bind].
  rewrite (nworkers_eq qs) by done. rewrite Hx. cbn [mbind result_bind].
  unfold hook_ref. rewrite (hook_modify_ok _ _ _ _ Hp). cbn [mbind result_bind].
  set (h' := upd_refcnt (fun c => c + 1) h).
  assert (Hf : server_fields h h') by done.
  set (m := Mem _ _ _). assert (Hok : hooks_ok m) by (eapply hooks_ok_modify; eauto).
  assert (He : hooks_ext [] (sv_mem s) m) by by eapply hooks_ext_modify.
  apply evs_ok_cons in Hev as Hev'. destruct Hev' as [Hev' _].
  destruct (ctl_ok_ext _ _ _ _ _ _ _ _ He Hc) as [H1 H2 H3 H4 H5 H6 H7].
  rewrite Hpc in *. apply (step_good_some qs). split; cbn; try done.
  - rewrite (refs_main _ (MRef p evs)) by done. cbn [main_refs app].
    apply refs_ok_ref; [done|done|].
    destruct Hev as [_ Hreg]. destruct (Hreg p) as [fd Hfd']; [cbn; set_solver|].
    intros Hin. destruct (ro_free _ _ _ Hr p Hin) as [Hno _]. by eapply Hno, refs_epoll_elem.
  - split; try done. split; [done|].
    exists h'. unfold m. cbn. rewrite lookup_insert_eq. done.
Qed.

Lemma step_in qs s p x evs :
  (0 < n)%nat -> srv_inv qs s -> sv_main s = MIn p x evs -> step_good (main_step ops InNone s).
Proof.
  intros Hn Hi Hpc. pose proof Hi as [Hh Hr Hrep Hc].
  pose proof (ctl_main _ _ _ _ _ _ _ Hc) as Hm. rewrite Hpc in Hm. destruct Hm as [Hev Hat].
  pose proof (at_worker_lt _ _ _ Hn Hh Hat) as Hlt.
  destruct (ctl_len _ _ _ _ _ _ _ Hc) as (Hlq & _ & _).
  destruct (lookup_lt_is_Some_2 qs x) as [l Hl]; [lia|].
  destruct (Forall2_lookup_r _ _ _ _ _ Hrep Hl) as (q & Hq & Hql).
  destruct (fifo_in_law q _ (ptr p) Hql) as (q' & Hin & Hq').
  unfold main_step. rewrite Hpc, Hq. cbn [from_option_fault mbind result_bind].
  rewrite Hin. cbn [mbind result_bind].
  destruct Hc as [H1 H2 H3 H4 H5 H6 H7]. rewrite Hpc in *.
  apply (step_good_some (<[x := l ++ [p]]> qs)). split; cbn; try done.
  - rewrite refs_queue_in by done. by rewrite (refs_main _ (MPost x evs)) in Hr.
  - apply Forall2_insert; [done|]. by rewrite fmap_app.
  - split; try done.
    + intros y l' q0 Hy Hq0. destruct (decide (x = y)) as [<-|Hne].
      * rewrite list_lookup_insert_eq in Hy by lia. injection Hy as <-.
        apply elem_of_app in Hq0 as [Hq0| ->%list_elem_of_singleton]; eauto.
      * rewrite list_lookup_insert_ne in Hy by done. eauto.
    + by rewrite length_insert.
    + intros y l' k w Hy Hk Hw. cbn [in_post]. destruct (decide (x = y)) as [<-|Hne].
      * rewrite list_lookup_insert_eq in Hy by lia. injection Hy as <-.
        pose proof (H7 x l k w Hl Hk Hw) as Hsum. cbn [in_post] in Hsum.
        rewrite length_app, decide_True by done. cbn. lia.
      * rewrite list_lookup_insert_ne in Hy by done. rewrite decide_False by done.
        exact (H7 y l' k w Hy Hk Hw).
Qed.

Lemma step_post qs s x evs :
  srv_inv qs s -> sv_main s = MPost x evs -> step_good (main_step ops InNone s).
Proof.
  intros Hi Hpc. pose proof Hi as [Hh Hr Hrep Hc].
  pose proof (ctl_main _ _ _ _ _ _ _ Hc) as Hm. rewrite Hpc in Hm. destruct Hm as [Hev Hlt].
  destruct (ctl_len _ _ _ _ _ _ _ Hc) as (_ & Hls & _).
  destruct (lookup_lt_is_Some_2 (sv_sem s) x) as [k Hk]; [lia|].
  unfold main_step. rewrite Hpc, Hk. cbn [from_option_fault mbind result_bind].
  destruct Hc as [H1 H2 H3 H4 H5 H6 H7]. rewrite Hpc in *.
  apply (step_good_some qs). split; cbn; try done.
  split; try done.
  - by rewrite length_insert.
  - intros y l k' w Hy Hk' Hw. cbn [in_post]. destruct (decide (x = y)) as [<-|Hne].
    + rewrite list_lookup_insert_eq in Hk' by lia. injection Hk' as <-.
      pose proof (H7 x l k w Hy Hk Hw) as Hsum. cbn [in_post] in Hsum.
      rewrite decide_True in Hsum by done. lia.
    + rewrite list_lookup_insert_ne in Hk' by done.
      pose proof (H7 y l k' w Hy Hk' Hw) as Hsum. cbn [in_post] in Hsum.
      rewrite decide_False in Hsum by done. exact Hsum.
Qed.

(** No step of the main thread faults, and each keeps the invariant. *)
Lemma main_step_ok qs s i :
  (0 < n)%nat -> srv_inv qs s -> legal_main s i -> step_good (main_step ops i s).
Proof.
  intros Hn Hi Hl. pose proof (ctl_main _ _ _ _ _ _ _ (inv_ctl _ _ Hi)) as Hm.
  destruct (sv_main s) as [|[|[ev p] evs]|p evs|p evs|p evs|p evs|p evs|p evs|p x evs|x evs] eqn:Hpc;
    destruct i as [|[evs'|]|ac]; try (unfold main_step; rewrite Hpc; apply step_good_none).
  - unfold main_step. rewrite Hpc. apply (step_good_some qs).
    apply inv_main_only; rewrite ?Hpc; done.
  - unfold main_step. rewrite Hpc. apply (step_good_some qs).
    apply inv_main_only; rewrite ?Hpc; done.
  - unfold main_step. rewrite Hpc. apply (step_good_some qs).
    apply inv_main_only; rewrite ?Hpc; done.
  - by eapply step_events.
  - by eapply step_ready.
  - by eapply step_accept.
  - by eapply step_close.
  - by eapply step_unref.
  - by eapply step_free.
  - by eapply step_ref.
  - by eapply step_in.
  - by eapply step_post.
Qed.

(** ** The steps of a worker *)

(** A worker changes its control point from [w] to [w'] and its reference lists
    by [work_refs] and [work_free]; the semaphore balance is kept. *)
Lemma ctl_ok_work m epoll open qs sem pc work x w w' :
  ctl_ok m epoll open qs sem pc work -> work !! x = Some w -> took w = took w' ->
  (forall p, p ∈ work_refs w' -> at_worker m x p) -> (forall p, p ∈ work_free w' -> is_sess m p) ->
  ctl_ok m epoll open qs sem pc (<[x := w']> work).
Proof.
  intros [H1 H2 H3 H4 H5 H6 H7] Hw Ht Hr Hf.
  assert (Hlt : (x < length work)%nat) by by eapply lookup_lt_Some.
  split; try done.
  - intros y v p Hy Hp. destruct (decide (x = y)) as [<-|Hne].
    + rewrite list_lookup_insert_eq in Hy by done. injection Hy as <-. auto.
    + rewrite list_lookup_insert_ne in Hy by done. eauto.
  - intros p Hp. pose proof (frees_work pc work x w w' Hw) as Hfr.
    assert (Hin : p ∈ frees pc work ++ work_free w').
    { rewrite <- Hfr. apply elem_of_app. by left. }
    apply elem_of_app in Hin as [Hin|Hin]; auto.
  - by rewrite length_insert.
  - intros y l k v Hl Hk Hy. destruct (decide (x = y)) as [<-|Hne].
    + rewrite list_lookup_insert_eq in Hy by done. injection Hy as <-. rewrite <- Ht. eauto.
    + rewrite list_lookup_insert_ne in Hy by done. eauto.
Qed.

Lemma step_wait qs s x e :
  srv_inv qs s -> sv_work s !! x = Some WWait -> step_good (work_step ops process sysptr x e s).
Proof.
  intros Hi Hw. pose proof Hi as [Hh Hr Hrep Hc].
  destruct (ctl_len _ _ _ _ _ _ _ Hc) as (Hlq & Hls & Hlw).
  pose proof (lookup_lt_Some _ _ _ Hw) as Hlt.
  destruct (lookup_lt_is_Some_2 (sv_sem s) x) as [[|k] Hk]; [lia| |];
    unfold work_step; rewrite Hw, Hk; [apply step_good_none|].
  pose proof (refs_work (sv_epoll s) (sv_main s) qs _ x _ WTake Hw) as Hrw.
  pose proof (frees_work (sv_main s) _ x _ WTake Hw) as Hfw.
  cbn [work_refs work_free] in *. rewrite !app_nil_r in *.
  apply (step_good_some qs). destruct Hc as [H1 H2 H3 H4 H5 H6 H7].
  split; cbn; try done; [by rewrite Hrw, Hfw|].
  split; try done.
  - intros y v p Hy Hp. destruct (decide (x = y)) as [<-|Hne].
    + rewrite list_lookup_insert_eq in Hy by done. injection Hy as <-. set_solver.
    + rewrite list_lookup_insert_ne in Hy by done. eauto.
  - intros p. rewrite Hfw. apply H4.
  - by rewrite !length_insert.
  - intros y l k' v Hl Hk' Hy. destruct (decide (x = y)) as [<-|Hne].
    + rewrite list_lookup_insert_eq in Hy by done. injection Hy as <-.
      rewrite list_lookup_insert_eq in Hk' by lia. injection Hk' as <-.
      pose proof (H7 x l (S k) WWait Hl Hk Hw). cbn in *. lia.
    + rewrite list_lookup_insert_ne in Hy by done. rewrite list_lookup_insert_ne in Hk' by done. eauto.
Qed.

Lemma step_take qs s x e :
  srv_inv qs s -> sv_work s !! x = Some WTake -> step_good (work_step ops process sysptr x e s).
Proof.
  intros Hi Hw. pose proof Hi as [Hh Hr Hrep Hc].
  destruct (ctl_len _ _ _ _ _ _ _ Hc) as (Hlq & Hls & Hlw).
  pose proof (lookup_lt_Some _ _ _ Hw) as Hlt.
  destruct (lookup_lt_is_Some_2 (sv_sem s) x) as [k Hk]; [lia|].
  destruct (lookup_lt_is_Some_2 qs x) as [l Hl]; [lia|].
  pose proof (ctl_sem _ _ _ _ _ _ _ Hc x l k WTake Hl Hk Hw) as Hlen. cbn in Hlen.
  destruct l as [|p l]; [cbn in Hlen; lia|].
  destruct (Forall2_lookup_r _ _ _ _ _ Hrep Hl) as (q & Hq & Hql). cbn in Hql.
  destruct (fifo_out_law q (ptr p) _ Hql) as (q' & Hout & Hq').
  unfold work_step. rewrite Hw, Hq. cbn [from_option_fault mbind result_bind].
  rewrite Hout. cbn [mbind result_bind of_ptr ptr].
  pose proof (refs_work (sv_epoll s) (sv_main s) (<[x := l]> qs) _ x _ (WProc p) Hw) as Hrw.
  pose proof (frees_work (sv_main s) _ x _ (WProc p) Hw) as Hfw.
  cbn [work_refs work_free] in *. rewrite !app_nil_r in *.
  apply (step_good_some (<[x := l]> qs)). destruct Hc as [H1 H2 H3 H4 H5 H6 H7].
  split; cbn; try done.
  - rewrite Hrw, Hfw. rewrite (refs_queue_out _ _ _ _ x l p Hl) in Hr.
    by rewrite Permutation_app_comm.
  - by apply Forall2_insert.
  - split; try done.
    + intros y l' q0 Hy Hq0. destruct (decide (x = y)) as [<-|Hne].
      * rewrite list_lookup_insert_eq in Hy by lia. injection Hy as <-.
        apply (H2 x (p :: l)); [done|set_solver].
      * rewrite list_lookup_insert_ne in Hy by done. eauto.
    + intros y v q0 Hy Hp. destruct (decide (x = y)) as [<-|Hne].
      * rewrite list_lookup_insert_eq in Hy by done. injection Hy as <-.
        cbn in Hp. apply list_elem_of_singleton in Hp as ->. apply (H2 x (p :: l)); [done|set_solver].
      * rewrite list_lookup_insert_ne in Hy by done. eauto.
    + intros q0. rewrite Hfw. apply H4.
    + by rewrite !length_insert.
    + intros y l' k' v Hl' Hk' Hy. destruct (decide (x = y)) as [<-|Hne].
      * rewrite list_lookup_insert_eq in Hy by done. injection Hy as <-.
        rewrite list_lookup_insert_eq in Hl' by lia. injection Hl' as <-.
        assert (k = k') by congruence. subst k'. cbn in *. lia.
      * rewrite list_lookup_insert_ne in Hy by done. rewrite list_lookup_insert_ne in Hl' by done. eauto.
Qed.

(** The handler runs on a session whose hook has the number of the worker and the address
    of the system. *)
Lemma proc_ready qs s x p :
  srv_inv qs s -> sv_work s !! x = Some (WProc p) ->
  exists h h', m_hooks (sv_mem s) !! p = Some h /\ server_fields h h' /\ hk_refcnt h' = hk_refcnt h /\
    hk_process h' = Some Pr_process_data /\
    let m := Mem (<[p := h']> (m_hooks (sv_mem s))) (m_blocks (sv_mem s)) (m_arrays (sv_mem s)) in
    hooks_ok m /\ hooks_ext [] (sv_mem s) m /\ sess_same shared p (sv_mem s) m /\ sess p m /\
    forall e, work_step ops process sysptr x e s =
      ('(_, m') ← process e p m; Ok (Some (with_work s m' x (WUnref p)))).
Proof.
  intros Hi Hw. pose proof Hi as [Hh Hr Hrep Hc].
  destruct (ctl_work _ _ _ _ _ _ _ Hc x _ p Hw) as (h & Hp & Hrd & Hpr & Hx); [cbn; set_solver|].
  set (h' := set_udata UD_CORE_SYSPTR sysptr (set_udata UD_CORE_NUM (Z.of_nat x) h)).
  assert (Hf : server_fields h h').
  { split; try done; cbn; [by rewrite !length_insert|].
    intros i Hi1 Hi2. by rewrite !list_lookup_insert_ne by congruence. }
  exists h, h'. do 4 (split; [done|]). intros m.
  assert (Hok : hooks_ok m) by (eapply hooks_ok_modify; eauto).
  split; [done|]. split; [by eapply hooks_ext_modify|]. split; [eapply sess_same_modify; eauto|]. split.
  - assert (Hpm : m_hooks m !! p = Some h') by (unfold m; cbn; by rewrite lookup_insert_eq).
    destruct (hok_kind _ Hok p h' Hpm) as (_ & a & _ & [(Hr2 & _)|(_ & Hs & _)]); [|done].
    change (hk_ready h = Some Rd_on_connect) in Hr2. congruence.
  - intros e. unfold work_step. rewrite Hw, (hook_load_ok _ _ _ Hp). cbn [mbind result_bind]. rewrite Hpr.
    rewrite (hook_modify_ok _ _ _ _ Hp). cbn [mbind result_bind].
    erewrite hook_modify_ok; [|cbn; by rewrite lookup_insert_eq]. cbn [mbind result_bind m_hooks m_blocks m_arrays].
    by rewrite insert_insert_eq.
Qed.

Lemma step_proc qs s x e p :
  (0 < n)%nat -> srv_inv qs s -> sv_work s !! x = Some (WProc p) -> legal_work s x e ->
  step_good (work_step ops process sysptr x e s).
Proof.
  intros Hn Hi Hw Hleg. pose proof Hi as [Hh Hr Hrep Hc].
  destruct (proc_ready qs s x p Hi Hw) as (h & h' & Hp & Hf & Hrc' & Hpr & Hm). cbn zeta in Hm.
  set (m := Mem _ _ _) in Hm. destruct Hm as (Hok & He & Hsame & Hs & Hstep). rewrite Hstep.
  assert (Hpm : m_hooks m !! p = Some h') by (unfold m; cbn; by rewrite lookup_insert_eq).
  assert (Hrd : hk_ready h = Some Rd_on_data).
  { destruct (ctl_work _ _ _ _ _ _ _ Hc x _ p Hw) as (h0 & Hp0 & Hrd & _); [cbn; set_solver|]. congruence. }
  destruct (handler_process e p m h' (hok_mem _ Hok) Hpm Hpr Hs
              (handler_legal (process := process) e p (sv_mem s) m (Hleg p Hw) eq_refl eq_refl Hsame)) as (m' & Hrun & Hhd & Hs').
  rewrite Hrun. cbn [mbind result_bind].
  assert (Hok' : hooks_ok m').
  { eapply hooks_ok_handled; [exact Hok|exact Hpm| |done|done]. by rewrite (sf_ready _ _ Hf). }
  pose proof (hooks_ext_handled _ _ _ Hhd) as He'.
  pose proof (refs_work (sv_epoll s) (sv_main s) qs _ x _ (WUnref p) Hw) as Hrw.
  pose proof (frees_work (sv_main s) _ x _ (WUnref p) Hw) as Hfw.
  cbn [work_refs work_free] in *. rewrite !app_nil_r in Hfw. apply Permutation_app_inv_r in Hrw.
  apply (step_good_some qs). split; cbn; try done.
  - rewrite Hrw, Hfw. eapply refs_ok_counts; [exact Hr|]. intros q.
    destruct (hd_hook _ _ _ Hhd) as (k & k' & new & Hk & Hm' & _ & _ & _ & _ & _ & Hrc & _).
    rewrite Hm'. destruct (decide (p = q)) as [<-|Hne].
    + rewrite lookup_insert_eq, Hp. cbn. rewrite Hrc. rewrite Hpm in Hk. injection Hk as <-. by rewrite Hrc'.
    + rewrite lookup_insert_ne by done. unfold m. cbn. by rewrite lookup_insert_ne.
  - pose proof (ctl_ok_ext _ _ _ _ _ _ _ _ He' (ctl_ok_ext _ _ _ _ _ _ _ _ He Hc)) as Hc'.
    eapply ctl_ok_work; [done|done|done| |cbn; set_solver].
    intros q Hq. eapply (ctl_work _ _ _ _ _ _ _ Hc'); [exact Hw|exact Hq].
Qed.

Lemma step_wunref qs s x e p :
  srv_inv qs s -> sv_work s !! x = Some (WUnref p) ->
  step_good (work_step ops process sysptr x e s).
Proof.
  intros Hi Hw. pose proof Hi as [Hh Hr Hrep Hc].
  destruct (ctl_work _ _ _ _ _ _ _ Hc x _ p Hw) as (h & Hp & Hrd & Hpr & Hx); [cbn; set_solver|].
  unfold work_step. rewrite Hw, (hook_sub_ok _ _ _ Hp). cbn [mbind result_bind].
  set (h' := upd_refcnt (fun c => c - 1) h).
  assert (Hf : server_fields h h') by done.
  set (m := Mem _ _ _). assert (Hok : hooks_ok m) by (eapply hooks_ok_modify; eauto).
  assert (He : hooks_ext [] (sv_mem s) m) by by eapply hooks_ext_modify.
  pose proof (ctl_ok_ext _ _ _ _ _ _ _ _ He Hc) as Hc'.
  pose proof (refs_work (sv_epoll s) (sv_main s) qs _ x _ WWait Hw) as Hrw.
  cbn [work_refs] in Hrw. rewrite app_nil_r, Permutation_app_comm in Hrw. cbn in Hrw.
  rewrite <- Hrw in Hr. destruct (refs_ok_unref _ _ _ _ _ Hr Hp) as [Hcnt Hr'].
  case_bool_decide as Hz.
  - rewrite decide_True in Hr' by done. apply (step_good_some qs).
    pose proof (frees_work (sv_main s) _ x _ (WFree p) Hw) as Hfw. cbn in Hfw.
    rewrite app_nil_r, Permutation_app_comm in Hfw. cbn in Hfw.
    split; cbn; try done.
    + rewrite Hfw. eapply refs_ok_proper; [|reflexivity|exact Hr'].
      pose proof (refs_work (sv_epoll s) (sv_main s) qs _ x _ (WFree p) Hw) as Hrw2.
      cbn in Hrw2. rewrite app_nil_r, Permutation_app_comm in Hrw2. cbn in Hrw2.
      apply (Permutation_cons_inv (a := p)). by rewrite Hrw, Hrw2.
    + eapply ctl_ok_work; [done|done|done|cbn; set_solver|].
      cbn. intros q ->%list_elem_of_singleton. exists h'. unfold m. cbn. by rewrite lookup_insert_eq.
  - rewrite decide_False in Hr' by done. apply (step_good_some qs).
    pose proof (frees_work (sv_main s) _ x _ WWait Hw) as Hfw. cbn in Hfw.
    rewrite !app_nil_r in Hfw.
    split; cbn; try done; [by rewrite Hfw|].
    eapply ctl_ok_work; [done|done|done|cbn; set_solver|cbn; set_solver].
Qed.

Lemma step_wfree qs s x e p :
  srv_inv qs s -> sv_work s !! x = Some (WFree p) ->
  step_good (work_step ops process sysptr x e s).
Proof.
  intros Hi Hw. pose proof Hi as [Hh Hr Hrep Hc].
  pose proof (frees_work (sv_main s) _ x _ WWait Hw) as Hfw. cbn in Hfw.
  rewrite app_nil_r, Permutation_app_comm in Hfw. cbn in Hfw.
  assert (Hin : p ∈ frees (sv_main s) (sv_work s)) by (rewrite <- Hfw; set_solver).
  pose proof (ctl_free _ _ _ _ _ _ _ Hc p Hin) as Hs.
  destruct (hook_free_real_total _ _ Hh Hs) as (m & Hrun).
  destruct (hooks_ok_free _ _ _ Hh Hs Hrun) as (Hok & Hhooks & He).
  destruct (ro_free _ _ _ Hr p Hin) as [Hprt _].
  pose proof (ro_once _ _ _ Hr) as Hnd. rewrite <- Hfw in Hnd, Hr. apply NoDup_cons in Hnd as [Hpft _].
  unfold work_step. rewrite Hw, Hrun. cbn [mbind result_bind].
  pose proof (refs_work (sv_epoll s) (sv_main s) qs _ x _ WWait Hw) as Hrw.
  cbn in Hrw. rewrite !app_nil_r in Hrw.
  apply (step_good_some qs). split; cbn; try done.
  - rewrite Hhooks, Hrw. by apply refs_ok_delete.
  - assert (Hc' : ctl_ok (sv_mem s) (sv_epoll s) (sv_open s) qs (sv_sem s) (sv_main s) (<[x:=WWait]> (sv_work s))).
    { eapply ctl_ok_work; [done|done|done|cbn; set_solver|cbn; set_solver]. }
    rewrite <- Hrw in Hprt. destruct Hc' as [H1 H2 H3 H4 H5 H6 H7].
    assert (Hnp : forall q, q ∈ refs (sv_epoll s) (sv_main s) qs (<[x:=WWait]> (sv_work s)) -> q ∉ [p]).
    { intros q Hq. rewrite list_elem_of_singleton. by intros ->. }
    split; try done.
    + intros fd q Hfd. destruct (H1 fd q Hfd) as (k & Hk & Hkfd & Ho).
      destruct (He q k Hk) as (k' & Hk' & Hkf & _); [by eapply Hnp, refs_epoll_elem|].
      exists k'. split_and!; [done|congruence|done].
    + intros y l q Hy Hq. eapply at_worker_ext; [done|by eapply Hnp, refs_queue_elem|eauto].
    + intros y w q Hy Hq. eapply at_worker_ext; [done|by eapply Hnp, refs_work_elem|eauto].
    + intros q Hq. eapply is_sess_ext; [done| |by apply H4].
      rewrite list_elem_of_singleton. by intros ->.
    + assert (Hreg : forall ev q evs, evs_ok (sv_epoll s) ((ev, q) :: evs) -> q ∉ [p]).
      { intros ev q evs [_ Hq]. destruct (Hq q) as [fd Hfd]; [cbn; set_solver|].
        by eapply Hnp, refs_epoll_elem. }
      assert (Hmr : forall q, q ∈ main_refs (sv_main s) -> q ∉ [p]).
      { intros q Hq. apply Hnp. unfold refs. rewrite !elem_of_app. auto. }
      destruct (sv_main s); cbn in *; try done.
      * destruct H5 as [? ?]. split; [done|]. eapply is_lst_ext; eauto.
      * destruct H5 as [? ?]. split; [done|]. eapply is_sess_ext; eauto.
      * destruct H5 as [? ?]. split; [done|]. eapply is_sess_ext; [done| |done]. apply Hmr. set_solver.
      * destruct H5 as (Hev & k & Hk & Hkr & Hkp). split; [done|].
        destruct (He _ k Hk) as (k' & Hk' & _ & Hr' & Hp'); [eauto|].
        exists k'. rewrite Hr'. auto.
      * destruct H5 as [? ?]. split; [done|]. eapply at_worker_ext; [done| |done]. apply Hmr. set_solver.
Qed.

(** No step of a worker faults, and each keeps the invariant. *)
Lemma work_step_ok qs s x e :
  (0 < n)%nat -> srv_inv qs s -> legal_work s x e -> step_good (work_step ops process sysptr x e s).
Proof.
  intros Hn Hi Hl. destruct (sv_work s !! x) as [[| |p|p|p]|] eqn:Hw.
  - by eapply step_wait.
  - by eapply step_take.
  - by eapply step_proc.
  - by eapply step_wunref.
  - by eapply step_wfree.
  - unfold work_step. rewrite Hw. apply step_good_none.
Qed.

(** ** Executions *)
Inductive srv_step : srv (Q := Q) -> srv (Q := Q) -> Prop :=
  | srv_step_main i s s' :
      legal_main s i -> main_step ops i s = Ok (Some s') -> srv_step s s'
  | srv_step_work x e s s' :
      legal_work s x e -> work_step ops process sysptr x e s = Ok (Some s') -> srv_step s s'.

(** A step of the main thread or of a worker, with inputs the kernel and [malloc]
    may give, is a memory fault, a failed assertion or a division by zero. *)
Definition srv_faulty (s : srv (Q := Q)) : Prop :=
  (exists i e, legal_main s i /\ main_step ops i s = Fault e) \/
  (exists x i e, legal_work s x i /\ work_step ops process sysptr x i s = Fault e).

Lemma srv_step_inv qs s s' :
  (0 < n)%nat -> srv_inv qs s -> srv_step s s' -> exists qs', srv_inv qs' s'.
Proof.
  intros Hn Hi Hst. inversion Hst as [i s0 s1 Hl Hs|x e s0 s1 Hl Hs]; subst s0 s1.
  - destruct (main_step_ok qs s i Hn Hi Hl) as (o & Ho & Hnext). apply Hnext. congruence.
  - destruct (work_step_ok qs s x e Hn Hi Hl) as (o & Ho & Hnext). apply Hnext. congruence.
Qed.

Lemma srv_steps_inv qs s s' :
  (0 < n)%nat -> srv_inv qs s -> rtc srv_step s s' -> exists qs', srv_inv qs' s'.
Proof.
  intros Hn Hi Hr. revert qs Hi. induction Hr as [|s s1 s' Hst _ IH]; intros qs Hi; [eauto|].
  destruct (srv_step_inv qs s s1 Hn Hi Hst) as (qs1 & Hi1). eauto.
Qed.

Lemma srv_inv_no_fault qs s : (0 < n)%nat -> srv_inv qs s -> ~ srv_faulty s.
Proof.
  intros Hn Hi [(i & e & Hl & Hf)|(x & i & e & Hl & Hf)].
  - destruct (main_step_ok qs s i Hn Hi Hl) as (o & Ho & _). congruence.
  - destruct (work_step_ok qs s x i Hn Hi Hl) as (o & Ho & _). congruence.
Qed.

(** The descriptors of the hooks of a memory, each with its hook. *)
Definition fd_list (m : mem) : list (Z * loc) := (fun ph : loc * hook => (hk_fd ph.2, ph.1)) <$> map_to_list (m_hooks m).

(** ** The state [ayubd_run] starts in

    [ayubd_init] has made one empty queue and a zero semaphore per worker; the
    module has deployed listening sockets: the hooks of [m], each registered under
    its descriptor with the one reference [hook_new] counts. *)
Definition srv_start (q0 : Q) (m : mem) : srv (Q := Q) :=
  Srv m
    (list_to_map (fd_list m))
    (list_to_set (fd_list m).*1)
    (replicate n q0) (replicate n 0%nat) MPoll (replicate n WWait).

Record deployed (m : mem) : Prop := {
  dp_mem : mem_ok m;
  dp_shared a : a ∈ shared -> is_Some (m_arrays m !! a);
  dp_lst p h : m_hooks m !! p = Some h ->
    0 <= hk_fd h /\ hk_refcnt h = 1 /\ hk_ready h = Some Rd_on_connect /\ hk_process h = None /\
    lst p m /\ exists a, hk_data h = Some a /\ a ∈ shared;
  dp_fd p q hp hq : m_hooks m !! p = Some hp -> m_hooks m !! q = Some hq ->
    hk_fd hp = hk_fd hq -> p = q
}.

Lemma concat_replicate_nil {A} k : concat (replicate k (@nil A)) = [].
Proof. by induction k. Qed.

Lemma fd_list_elem m fd p : (fd, p) ∈ fd_list m <-> exists h, m_hooks m !! p = Some h /\ hk_fd h = fd.
Proof.
  unfold fd_list. rewrite list_elem_of_fmap. split.
  - intros ([q h] & [= -> ->] & Hin%elem_of_map_to_list). eauto.
  - intros (h & Hp & <-). exists (p, h). split; [done|]. by apply elem_of_map_to_list.
Qed.

Lemma fd_list_nodup m :
  (forall p q hp hq, m_hooks m !! p = Some hp -> m_hooks m !! q = Some hq -> hk_fd hp = hk_fd hq -> p = q) ->
  NoDup (fd_list m).*1.
Proof.
  intros Hfd. unfold fd_list. rewrite <- list_fmap_compose. apply NoDup_fmap_2_strong; [|apply NoDup_map_to_list].
  intros [p hp] [q hq] Hp%elem_of_map_to_list Hq'%elem_of_map_to_list Heq. cbn in Heq.
  pose proof (Hfd p q hp hq Hp Hq' Heq) as <-. congruence.
Qed.

Lemma srv_start_inv q0 m :
  rep q0 [] -> deployed m -> srv_inv (replicate n []) (srv_start q0 m).
Proof.
  intros Hq [Hm Hsh Hl Hfd]. set (fds := fd_list m).
  assert (Hnd : NoDup fds.*1) by (by apply fd_list_nodup).
  assert (Hep : forall fd p, (list_to_map fds : gmap Z loc) !! fd = Some p <->
            exists h, m_hooks m !! p = Some h /\ hk_fd h = fd).
  { intros fd p. rewrite <- elem_of_list_to_map by done. apply fd_list_elem. }
  assert (Hrefs : refs (list_to_map fds) MPoll (replicate n []) (replicate n WWait)
                  ≡ₚ (map_to_list (m_hooks m)).*1).
  { unfold refs. cbn. rewrite fmap_replicate. cbn. rewrite !concat_replicate_nil, !app_nil_r.
    rewrite map_to_list_to_map by done. unfold fds, fd_list. by rewrite <- list_fmap_compose. }
  assert (Hin : forall p, p ∈ (map_to_list (m_hooks m)).*1 <-> is_Some (m_hooks m !! p)).
  { intros p. rewrite list_elem_of_fmap. split.
    - intros ([q h] & -> & Hp%elem_of_map_to_list). eauto.
    - intros [h Hp]. exists (p, h). split; [done|]. by apply elem_of_map_to_list. }
  split; cbn [srv_start sv_mem sv_epoll sv_open sv_q sv_sem sv_main sv_work]; fold fds.
  - split; [done| |done]. intros p h Hp. destruct (Hl p h Hp) as (? & _ & ? & ? & ? & a & ? & ?).
    split; [done|]. exists a. split; [done|]. by left.
  - rewrite Hrefs. unfold frees. cbn. rewrite fmap_replicate. cbn. rewrite concat_replicate_nil.
    split.
    + intros p h Hp. destruct (Hl p h Hp) as (_ & -> & _).
      rewrite <- (insert_delete_id (m_hooks m) p h) by done.
      rewrite map_to_list_insert by (by rewrite lookup_delete_eq).
      rewrite fmap_cons. cbn [fst]. rewrite occ_cons_eq.
      rewrite (proj2 (occ_zero p _)); [done|]. rewrite list_elem_of_fmap.
      intros ([q k] & -> & Hin'%elem_of_map_to_list). by rewrite lookup_delete_eq in Hin'.
    + intros p. by rewrite Hin.
    + intros p. set_solver.
    + constructor.
    + intros p Hp. left. by apply Hin.
  - apply Forall2_replicate. exact Hq.
  - split; cbn; try done.
    + intros fd p (h & Hp & <-)%Hep. exists h. split; [done|]. split; [done|].
      apply elem_of_list_to_set, list_elem_of_fmap. exists (hk_fd h, p). split; [done|]. apply fd_list_elem. eauto.
    + intros x l p [-> _]%lookup_replicate_1. set_solver.
    + intros x w p [-> _]%lookup_replicate_1. cbn. set_solver.
    + unfold frees. cbn. rewrite fmap_replicate. cbn. rewrite concat_replicate_nil. set_solver.
    + by rewrite !length_replicate.
    + intros x l k w [-> _]%lookup_replicate_1 [-> _]%lookup_replicate_1 [-> _]%lookup_replicate_1. done.
Qed.

Lemma srv_reachable_inv q0 m s :
  (0 < n)%nat -> rep q0 [] -> deployed m -> rtc srv_step (srv_start q0 m) s ->
  exists qs, srv_inv qs s.
Proof. intros Hn Hq Hd Hr. eapply srv_steps_inv; [done|by apply srv_start_inv|done]. Qed.

(** ** Properties *)

(** C3: From the state [ayubd_run] starts in, with any handler that keeps its
    contract, any events, any accepted connections (descriptors reused after
    [close]), any addresses from [malloc] and any interleaving of the main thread
    and the workers: no step uses a freed hook, block or array, frees one twice,
    fails an assertion, indexes a queue out of range or divides by zero, and every
    live block belongs to exactly one live hook. *)
Theorem server_safe q0 m s (Hn : (0 < n)%nat) (Hq : rep q0 []) (Hm : deployed m)
    (Hs : rtc srv_step (srv_start q0 m) s) :
  ~ srv_faulty s /\ mem_ok (sv_mem s).
Proof.
  destruct (srv_reachable_inv q0 m s Hn Hq Hm Hs) as (qs & Hi).
  split; [by eapply srv_inv_no_fault|]. apply (inv_hooks _ _ Hi).
Qed.

(** C13: The reference count of a live hook is the number of places that hold it: the
    event queue, the worker queues, a worker processing it, the main thread between
    [hook_ref] and the queue or between [close] and [hook_free]; every held hook is
    live, and a live hook is held or about to be freed by exactly one thread, so
    none is leaked. *)
Theorem server_refcounts q0 m s (Hn : (0 < n)%nat) (Hq : rep q0 []) (Hm : deployed m)
    (Hs : rtc srv_step (srv_start q0 m) s) :
  exists qs, Forall2 (fun q l => rep q (ptr <$> l)) (sv_q s) qs /\
    let held := refs (sv_epoll s) (sv_main s) qs (sv_work s) in
    let freeing := frees (sv_main s) (sv_work s) in
    (forall p h, m_hooks (sv_mem s) !! p = Some h -> hk_refcnt h = Z.of_nat (occ p held)) /\
    (forall p, is_Some (m_hooks (sv_mem s) !! p) <-> p ∈ held \/ p ∈ freeing) /\
    NoDup freeing /\ (forall p, p ∈ freeing -> p ∉ held).
Proof.
  destruct (srv_reachable_inv q0 m s Hn Hq Hm Hs) as (qs & Hi).
  exists qs. split; [apply (inv_rep _ _ Hi)|].
  destruct (inv_refs _ _ Hi) as [H1 H2 H3 H4 H5]. cbn zeta.
  split; [done|]. split; [|split; [done|]].
  - intros p. split; [apply H5|]. intros [Hp|Hp]; [by apply H2|by apply H3].
  - intros p Hp. by apply H3.
Qed.

(** C15: Session affinity: a queued or running hook is with worker [fd % nworkers], so
    no two workers ever run the same session; and a worker that has passed its
    semaphore always finds its queue non-empty. *)
Theorem server_affinity q0 m s (Hn : (0 < n)%nat) (Hq : rep q0 []) (Hm : deployed m)
    (Hs : rtc srv_step (srv_start q0 m) s) :
  (forall x w p, sv_work s !! x = Some w -> p ∈ work_refs w ->
     exists h, m_hooks (sv_mem s) !! p = Some h /\ Z.of_nat x = hk_fd h mod Z.of_nat n) /\
  (forall x y w v p, sv_work s !! x = Some w -> sv_work s !! y = Some v ->
     p ∈ work_refs w -> p ∈ work_refs v -> x = y) /\
  (forall x q, sv_work s !! x = Some WTake -> sv_q s !! x = Some q ->
     exists p l q', rep q (ptr p :: l) /\ fq_out ops q = Ok (ptr p, q')).
Proof.
  destruct (srv_reachable_inv q0 m s Hn Hq Hm Hs) as (qs & Hi).
  pose proof Hi as [Hh _ Hrep Hc].
  assert (Hw : forall x w p, sv_work s !! x = Some w -> p ∈ work_refs w ->
            exists h, m_hooks (sv_mem s) !! p = Some h /\ Z.of_nat x = hk_fd h mod Z.of_nat n).
  { intros x w p Hx Hp. destruct (ctl_work _ _ _ _ _ _ _ Hc x w p Hx Hp) as (h & Hh' & _ & _ & Hat).
    exists h. split; [done|]. destruct (hok_kind _ Hh p h Hh') as (Hfd & _).
    unfold worker_of in Hat. rewrite decide_False in Hat by lia.
    rewrite Z.rem_mod_nonneg in Hat by lia.
    pose proof (Z.mod_pos_bound (hk_fd h) (Z.of_nat n)).
    rewrite decide_False in Hat by lia. injection Hat as <-. lia. }
  split; [exact Hw|]. split.
  - intros x y w v p Hx Hy Hp Hp'. destruct (Hw x w p Hx Hp) as (h & Hh1 & He1).
    destruct (Hw y v p Hy Hp') as (h' & Hh2 & He2). rewrite Hh1 in Hh2. injection Hh2 as ->. lia.
  - intros x q Hx Hqx. destruct (Forall2_lookup_l _ _ _ _ _ Hrep Hqx) as (l & Hl & Hql).
    destruct (ctl_len _ _ _ _ _ _ _ Hc) as (Hlq & Hls & _).
    destruct (lookup_lt_is_Some_2 (sv_sem s) x) as [k Hk].
    { apply lookup_lt_Some in Hl. lia. }
    pose proof (ctl_sem _ _ _ _ _ _ _ Hc x l k WTake Hl Hk Hx) as Hlen. cbn in Hlen.
    destruct l as [|p l]; [cbn in Hlen; lia|].
    destruct (fifo_out_law q (ptr p) _ Hql) as (q' & Hout & _).
    exists p, (ptr <$> l), q'. done.
Qed.
End invariant.

(** ** A concrete server

    One listening socket on descriptor 4, two workers with the [_lf_spsc] queues of
    src/main.h, and a handler that does nothing. *)
Definition idle_process (e : unit) (p : loc) : st mem unit := mret tt.
Definition demo_shared : gset loc := {[1%positive]}.
Definition demo_any (p : loc) (m : mem) : Prop := True.
Definition demo_legal (e : unit) (p : loc) (m : mem) : Prop := True.

Lemma handled_refl p m : is_Some (m_hooks m !! p) -> handled p m m.
Proof.
  intros [h Hp]. split; [|intros a x Ha; exists x; done|done].
  exists h, h, []. rewrite insert_id by done. split_and!; try done; [constructor|set_solver|].
  intros b. split; [by left|]. by intros [?|?%not_elem_of_nil].
Qed.

#[export] Instance demo_handler : Handler idle_process demo_shared demo_any demo_any demo_legal.
Proof.
  split; try done. intros e p m h _ Hp _ _ _. exists m. split; [done|]. split; [|done].
  apply handled_refl. by rewrite Hp.
Qed.

Definition demo_queue : heap * (stailq * option loc) :=
  ({[1%positive := Node 0 None]}, (Stailq (Some 1%positive) (RNext 1), Some 1%positive)).

Lemma demo_queue_rep : spsc_rep demo_queue [].
Proof.
  exists [], 1%positive, 0, []. cbn. split; [|done]. split; [|split; [apply NoDup_singleton|done]].
  cbn. split; [done|]. exists None. by rewrite lookup_singleton_eq.
Qed.

Definition demo_listener : hook :=
  Hook [] 4 (Some Rd_on_connect) None (Some 1%positive) EPOLLIN 1 (replicate UDATASZ 0).
Definition demo_start_mem : mem :=
  Mem {[1%positive := demo_listener]} ∅ {[1%positive := {[key "hoda" := 77]}]}.

Lemma demo_deployed : deployed demo_shared demo_any demo_start_mem.
Proof.
  split.
  - apply (mem_ok_new (Mem ∅ ∅ ∅) 1 demo_listener ∅ _ mem_ok_empty); cbn [m_hooks m_blocks m_arrays]; try done.
    + constructor.
    + intros b. rewrite elem_of_nil. naive_solver.
    + intros a []%lookup_empty_is_Some.
    + cbn. intros a [= <-]. rewrite lookup_singleton_eq. done.
  - intros a ->%elem_of_singleton. cbn. by rewrite lookup_singleton_eq.
  - intros p h Hp. cbn in Hp. apply lookup_singleton_Some in Hp as [<- <-].
    split_and!; try done. exists 1%positive. split; [done|]. unfold demo_shared. set_solver.
  - intros p q hp hq Hp Hq _. cbn in *.
    apply lookup_singleton_Some in Hp as [<- _]. by apply lookup_singleton_Some in Hq as [<- _].
Qed.

Definition demo_srv := srv_start 2 demo_queue demo_start_mem.

(** Inputs: the main thread's, or which worker runs. *)
Inductive demo_in := DMain (i : main_in) | DWork (x : nat).

Definition legal_mainb (s : srv (Q := heap * (stailq * option loc))) (i : main_in) : bool :=
  match i with
  | InNone | InPoll None => true
  | InPoll (Some evs) =>
      bool_decide (NoDup evs.*2) &&
      forallb (fun p => existsb (fun kv => bool_decide (kv.2 = p)) (map_to_list (sv_epoll s))) evs.*2
  | InAccept ac =>
      (bool_decide (ac_fd ac = -1) || (bool_decide (0 <= ac_fd ac) && bool_decide (ac_fd ac ∉ sv_open s))) &&
      bool_decide (length (ac_addr ac) <= SOCKADDR_STORAGE_SZ)%nat &&
      bool_decide (m_hooks (sv_mem s) !! ac_hs ac = None /\ m_blocks (sv_mem s) !! ac_b1 ac = None /\
                   m_blocks (sv_mem s) !! ac_b2 ac = None /\ ac_b1 ac <> ac_b2 ac /\
                   m_arrays (sv_mem s) !! ac_a ac = None)
  end.

Fixpoint demo_run (l : list demo_in) (s : srv (Q := heap * (stailq * option loc))) : option srv :=
  match l with
  | [] => Some s
  | DMain i :: l =>
      if legal_mainb s i then
        match main_step (spsc_ops (Node 9 None)) i s with
        | Ok (Some s') => demo_run l s'
        | _ => None
        end
      else None
  | DWork x :: l =>
      match work_step (spsc_ops (Node 9 None)) idle_process 1000 x tt s with
      | Ok (Some s') => demo_run l s'
      | _ => None
      end
  end.

Lemma legal_mainb_sound s i : legal_mainb s i = true -> legal_main s i.
Proof.
  destruct i as [|[evs|]|ac]; cbn; try done.
  - intros [Hnd Hreg]%andb_true_iff. split; [by apply bool_decide_eq_true in Hnd|].
    intros p Hp. rewrite forallb_forall in Hreg. specialize (Hreg p).
    rewrite <- list_elem_of_In in Hreg. specialize (Hreg Hp).
    apply existsb_exists in Hreg as ([fd q] & Hin & Heq%bool_decide_eq_true). cbn in Heq. subst q.
    exists fd. by apply elem_of_map_to_list, list_elem_of_In.
  - rewrite !andb_true_iff, orb_true_iff, andb_true_iff, !bool_decide_eq_true. tauto.
Qed.

Abbreviation demo_step :=
  (srv_step (spsc_ops (Node 9 None)) idle_process demo_legal 1000) (only parsing).

Lemma demo_run_rtc l s s' : demo_run l s = Some s' -> rtc demo_step s s'.
Proof.
  revert s. induction l as [|[i|x] l IH]; intros s; cbn [demo_run].
  - intros [= ->]. done.
  - destruct (legal_mainb s i) eqn:Hl; [|done].
    destruct (main_step _ i s) as [[s1|]|] eqn:Hs; try done. intros Hr.
    eapply rtc_l; [|by apply IH]. eapply srv_step_main; [by apply legal_mainb_sound|done].
  - destruct (work_step _ _ _ x tt s) as [[s1|]|] eqn:Hs; try done. intros Hr.
    eapply rtc_l; [|by apply IH]. eapply srv_step_work; [done|done].
Qed.

Definition conn (fd : Z) (hs b1 b2 a : loc) : demo_in :=
  DMain (InAccept (Accepted fd 0 (replicate 16 2) hs b1 b2 a)).
Definition no_conn : demo_in := DMain (InAccept (Accepted (-1) 11 [] 9 8 9 9)).
Definition poll (ev : Z) (p : loc) : demo_in := DMain (InPoll (Some [(ev, p)])).
Definition go (k : nat) : list demo_in := replicate k (DMain InNone).

(** A client connects on 5, sends data and is queued, hangs up and is closed while
    still queued; the next client gets descriptor 5 again. *)
Definition demo_reuse : list demo_in :=
  [poll 1 1] ++ go 2 ++ [conn 5 2 1 2 2; no_conn] ++ go 1 ++
  [poll 1 2] ++ go 6 ++
  [poll 8193 2] ++ go 5 ++
  [poll 1 1] ++ go 2 ++ [conn 5 3 3 4 3; no_conn] ++ go 1 ++
  [DWork 1; DWork 1].

Definition stale_at (s : srv (Q := heap * (stailq * option loc))) : bool :=
  match sv_work s !! 1%nat, m_hooks (sv_mem s) !! 2%positive, sv_epoll s !! 5 with
  | Some (WProc 2), Some h, Some 3%positive => hk_fd h =? 5
  | _, _, _ => false
  end.

Lemma demo_reuse_stale :
  exists s, demo_run demo_reuse demo_srv = Some s /\ stale_at s = true.
Proof. apply option_test. vm_compute. reflexivity. Qed.

(** A worker can serve a hook whose descriptor belongs to another client: a
    session that is closed while it is still queued keeps its [fd], and the kernel
    gives the number to the next connection before the worker comes to it. *)
Theorem server_stale_descriptor :
  exists s, rtc demo_step demo_srv s /\ sv_work s !! 1%nat = Some (WProc 2) /\
    (exists h, m_hooks (sv_mem s) !! 2%positive = Some h /\ hk_fd h = 5) /\
    sv_epoll s !! 5 = Some 3%positive.
Proof.
  destruct demo_reuse_stale as (s & Hrun & Hst).
  exists s. split; [exact (demo_run_rtc _ _ _ Hrun)|]. clear Hrun. unfold stale_at in Hst.
  destruct (sv_work s !! 1%nat) as [[| |[|[]|]| |]|]; try done.
  destruct (m_hooks (sv_mem s) !! 2%positive) as [h|]; [|done].
  destruct (sv_epoll s !! 5) as [[[]| |]|]; try done.
  split; [done|]. split; [|done]. exists h. split; [done|]. by apply Z.eqb_eq.
Qed.

(** Twenty steps into that run the invariants hold, by the theorems above. *)
Definition demo_prefix : list demo_in := take 20 demo_reuse.

Lemma demo_prefix_runs : exists s, demo_run demo_prefix demo_srv = Some s /\ true = true.
Proof. apply option_test. vm_compute. reflexivity. Qed.

Lemma server_safe_witness :
  exists s, demo_run demo_prefix demo_srv = Some s /\
    ~ srv_faulty (spsc_ops (Node 9 None)) idle_process demo_legal 1000 s /\ mem_ok (sv_mem s).
Proof.
  destruct demo_prefix_runs as (s & Hs & _). exists s. split; [exact Hs|].
  exact (server_safe (spsc_ops (Node 9 None)) spsc_rep idle_process demo_shared demo_any demo_any
           demo_legal 1000 2 demo_queue demo_start_mem s (le_S _ _ (le_n 1)) demo_queue_rep
           demo_deployed (demo_run_rtc _ _ _ Hs)).
Defined.

Lemma server_refcounts_witness :
  exists s qs, demo_run demo_prefix demo_srv = Some s /\
    Forall2 (fun q l => spsc_rep q (ptr <$> l)) (sv_q s) qs /\
    let held := refs (sv_epoll s) (sv_main s) qs (sv_work s) in
    let freeing := frees (sv_main s) (sv_work s) in
    (forall p h, m_hooks (sv_mem s) !! p = Some h -> hk_refcnt h = Z.of_nat (occ p held)) /\
    (forall p, is_Some (m_hooks (sv_mem s) !! p) <-> p ∈ held \/ p ∈ freeing) /\
    NoDup freeing /\ (forall p, p ∈ freeing -> p ∉ held).
Proof.
  destruct demo_prefix_runs as (s & Hs & _). exists s.
  destruct (server_refcounts (spsc_ops (Node 9 None)) spsc_rep idle_process demo_shared demo_any
              demo_any demo_legal 1000 2 demo_queue demo_start_mem s (le_S _ _ (le_n 1))
              demo_queue_rep demo_deployed (demo_run_rtc _ _ _ Hs)) as (qs & Hqs).
  exists qs. split; [exact Hs|exact Hqs].
Defined.

Lemma server_affinity_witness :
  exists s, demo_run demo_reuse demo_srv = Some s /\
    (forall x w p, sv_work s !! x = Some w -> p ∈ work_refs w ->
       exists h, m_hooks (sv_mem s) !! p = Some h /\ Z.of_nat x = hk_fd h mod 2).
Proof.
  destruct demo_reuse_stale as (s & Hs & _). exists s. split; [exact Hs|].
  exact (proj1 (server_affinity (spsc_ops (Node 9 None)) spsc_rep idle_process demo_shared demo_any
           demo_any demo_legal 1000 2 demo_queue demo_start_mem s (le_S _ _ (le_n 1))
           demo_queue_rep demo_deployed (demo_run_rtc _ _ _ Hs))).
Defined.
