(* ===== verification/Overlap.v ===== *)
(** * Handlers that overlap

    [work_step] of Server.v runs a handler in one step.  A handler looks its route up in a
    table that all workers share: [hattrie_get] on it, with no lock, may add the key and
    writes the count of the table even when the key is there.  Here a handler is two steps, its
    entry and its return, and what it does takes place at the return; a second worker that enters
    meanwhile is a data race, which C leaves undefined.  A session is run by one worker at a time
    ([Server.server_affinity]), so outside the lookup a handler works on memory of its own. *)
From S2P Require Import Prelude NodeHeap Fifo Stailq CLib Assoc Hook Server.

#[local] Open Scope Z_scope.

Section overlap.
Context {Q : Type} (ops : fifo_ops Q).
Context {env : Type} (process : env -> loc -> st mem unit).
Variable sysptr : Z.

(** The server, and the worker that is inside its handler. *)
Record osrv := Osrv { ov_srv : srv (Q := Q); ov_in : option nat }.

(** A step of the main thread; of a worker outside its handler; a worker enters its handler;
    it returns from it. *)
Inductive ov_input := OMain (i : main_in) | OWork (x : nat) (e : env) | OEnter (x : nat) | OReturn (x : nat) (e : env).

Definition at_handler (s : srv (Q := Q)) (x : nat) : bool :=
  match sv_work s !! x with Some (WProc _) => true | _ => false end.

Definition ov_with (x : option nat) (r : result (option (srv (Q := Q)))) : result (option osrv) :=
  match r with Ok s' => Ok (option_map (fun s' => Osrv s' x) s') | Fault f => Fault f end.

Definition ov_step (i : ov_input) (o : osrv) : result (option osrv) :=
  let s := ov_srv o in
  match i with
  | OMain i => ov_with (ov_in o) (main_step ops i s)
  | OWork x e =>
      if at_handler s x then Ok None else ov_with (ov_in o) (work_step ops process sysptr x e s)
  | OEnter x =>
      if at_handler s x && bool_decide (ov_in o <> Some x) then
        match ov_in o with
        | None => Ok (Some (Osrv s (Some x)))
        | Some _ => Fault DataRace
        end
      else Ok None
  | OReturn x e =>
      if decide (ov_in o = Some x) then ov_with None (work_step ops process sysptr x e s) else Ok None
  end.

Section legal.
Context (legal : env -> loc -> mem -> Prop).

Definition ov_legal (i : ov_input) (o : osrv) : Prop :=
  match i with
  | OMain i => legal_main (ov_srv o) i
  | OWork x e | OReturn x e => legal_work legal (ov_srv o) x e
  | OEnter _ => True
  end.

Definition ov_next (o o' : osrv) : Prop := exists i, ov_legal i o /\ ov_step i o = Ok (Some o').
End legal.

(** ** Executions *)
Section executions.
Context (rep : Q -> list Z -> Prop) `{!Fifo ops rep} (shared : gset loc).
Context (sess lst : loc -> mem -> Prop) (legal : env -> loc -> mem -> Prop) (fits : env -> Prop).
Context `{!Handler process shared sess lst (fun e p m => legal e p m /\ fits e)}.
Context (Hdec : forall e, Decision (fits e)).
Context (Hlegal : forall e p m m', legal e p m -> m_blocks m' = m_blocks m -> legal e p m').
Context (Hover : forall e p m, sess p m -> legal e p m -> ~ fits e -> process e p m = Fault OutOfBounds).
Variable n : nat.
Context (Hn : (0 < n)%nat).
#[local] Abbreviation inv := (srv_inv rep shared sess lst n).

Lemma return_over qs s x e : inv qs s -> at_handler s x = true -> legal_work legal s x e -> ~ fits e ->
  work_step ops process sysptr x e s = Fault OutOfBounds.
Proof.
  intros Hi Hat Hl Hf. unfold at_handler in Hat. destruct (sv_work s !! x) as [[| |p| |]|] eqn:Hw; try done.
  destruct (proc_ready ops rep process shared sess lst _ sysptr n qs s x p Hi Hw) as (h & h' & _ & _ & _ & _ & Hm).
  cbn zeta in Hm. destruct Hm as (_ & _ & _ & Hs & Hstep). rewrite Hstep.
  rewrite Hover; [done|exact Hs| |done]. by apply (Hlegal e p (sv_mem s)); [apply Hl|].
Qed.

(** The worker inside is at its handler. *)
Definition ov_inv (qs : list (list loc)) (o : osrv) : Prop :=
  inv qs (ov_srv o) /\ forall x, ov_in o = Some x -> at_handler (ov_srv o) x = true.

(** What can go wrong: a second worker enters, or an event does not fit. *)
Definition ov_race (i : ov_input) (o : osrv) : Prop :=
  exists x y, i = OEnter x /\ at_handler (ov_srv o) x = true /\ ov_in o = Some y /\ y <> x.
Definition ov_misfit (i : ov_input) (o : osrv) : Prop :=
  exists x e, i = OReturn x e /\ ov_in o = Some x /\ ~ fits e.

Lemma at_handler_other s s' x y : sv_work s' !! y = sv_work s !! y -> at_handler s y = x -> at_handler s' y = x.
Proof. unfold at_handler. by intros ->. Qed.

Lemma legal_work_idle s x e : at_handler s x = false -> legal_work (fun e p m => legal e p m /\ fits e) s x e.
Proof. unfold at_handler. intros Hx p Hp. by rewrite Hp in Hx. Qed.

(** A step of the server under the wrapper. *)
Lemma step_lift (r : result (option (srv (Q := Q)))) x :
  step_good rep shared sess lst n r ->
  (forall s', r = Ok (Some s') -> forall y, x = Some y -> at_handler s' y = true) ->
  exists o', ov_with x r = Ok o' /\
    forall o1, o' = Some o1 -> exists qs', ov_inv qs' o1.
Proof.
  intros (o' & -> & Hgood) Hx. eexists. split; [done|]. intros o1. destruct o' as [s'|]; cbn; [|done].
  intros [= <-]. destruct (Hgood s' eq_refl) as (qs' & Hi). exists qs'. split; [done|]. cbn. by apply Hx.
Qed.

Lemma ov_step_ok qs o i : ov_inv qs o -> ov_legal legal i o ->
  (exists o', ov_step i o = Ok o' /\ ~ ov_race i o /\ ~ ov_misfit i o /\ forall o1, o' = Some o1 -> exists qs', ov_inv qs' o1) \/
  (ov_step i o = Fault DataRace /\ ov_race i o) \/ (ov_step i o = Fault OutOfBounds /\ ov_misfit i o).
Proof.
  intros [Hi Hin] Hl. destruct i as [i|x e|x|x e]; cbn [ov_step ov_legal] in *.
  - left. destruct (step_lift (main_step ops i (ov_srv o)) (ov_in o)) as (o' & Ho & Hg).
    { by eapply main_step_ok. }
    { intros s' Hs' y Hy. eapply at_handler_other; [|by apply Hin]. by rewrite (main_step_work ops i _ _ Hs'). }
    exists o'. split; [done|]. split; [by intros (? & ? & ? & _)|]. split; [by intros (? & ? & ? & _)|done].
  - left. destruct (at_handler (ov_srv o) x) eqn:Hx.
    { exists None. split; [done|]. split; [by intros (? & ? & ? & _)|]. by split; [intros (? & ? & ? & _)|]. }
    destruct (step_lift (work_step ops process sysptr x e (ov_srv o)) (ov_in o)) as (o' & Ho & Hg).
    { apply (work_step_ok ops rep process shared sess lst (fun e p m => legal e p m /\ fits e) sysptr n qs); [done|done|]. by apply legal_work_idle. }
    { intros s' Hs' y Hy. pose proof (Hin y Hy) as Hat. eapply at_handler_other; [|exact Hat].
      apply (work_step_other ops process sysptr x e _ s' y Hs'). intros ->. congruence. }
    exists o'. split; [done|]. split; [by intros (? & ? & ? & _)|]. split; [by intros (? & ? & ? & _)|done].
  - destruct (at_handler (ov_srv o) x) eqn:Hx; cbn [andb].
    2: { left. exists None. split; [done|]. split; [|by split; [intros (? & ? & ? & _)|]].
         intros (x' & y & [= <-] & Hat & _). congruence. }
    case_bool_decide as Hne.
    2: { left. exists None. split; [done|]. split; [|by split; [intros (? & ? & ? & _)|]].
         intros (x' & y & [= <-] & _ & Hy & Hxy). congruence. }
    destruct (ov_in o) as [y|] eqn:Hy.
    + right. left. split; [done|]. exists x, y. split; [done|]. split; [done|]. split; [done|congruence].
    + left. eexists. split; [done|]. split; [by intros (? & ? & _ & _ & Hy' & _); rewrite Hy in Hy'|].
      split; [by intros (? & ? & ? & _)|]. intros o1 [= <-]. exists qs. split; [done|]. cbn. by intros ? [= <-].
  - case_decide as Hx.
    2: { left. exists None. split; [done|]. split; [by intros (? & ? & ? & _)|]. split; [|done].
         intros (x' & e' & [= <- <-] & Hy & _). congruence. }
    destruct (Hdec e) as [Hf|Hf].
    + left. destruct (step_lift (work_step ops process sysptr x e (ov_srv o)) None) as (o' & Ho & Hg).
      { apply (work_step_ok ops rep process shared sess lst (fun e p m => legal e p m /\ fits e) sysptr n qs); [done|done|].
        intros p Hp. split; [by apply Hl|done]. }
      { done. }
      exists o'. split; [done|]. split; [by intros (? & ? & ? & _)|]. split; [|done]. by intros (x' & e' & [= <- <-] & _ & Hno).
    + right. right. rewrite (return_over qs _ x e Hi (Hin x Hx) Hl Hf). split; [done|]. by exists x, e.
Qed.

Lemma ov_faults qs o i f : ov_inv qs o -> ov_legal legal i o ->
  ov_step i o = Fault f <-> (f = DataRace /\ ov_race i o) \/ (f = OutOfBounds /\ ov_misfit i o).
Proof.
  intros Hi Hl. destruct (ov_step_ok qs o i Hi Hl) as [(o' & -> & Hr & Hm & _)|[[-> Hr]|[-> Hm]]].
  - split; [done|]. by intros [[_ ?]|[_ ?]].
  - split; [intros [= <-]; by left|]. intros [[-> _]|[_ Hm]]; [done|].
    destruct Hr as (x & y & -> & _). by destruct Hm as (? & ? & ? & _).
  - split; [intros [= <-]; by right|]. intros [[_ Hr]|[-> _]]; [|done].
    destruct Hr as (x & y & -> & _). by destruct Hm as (? & ? & ? & _).
Qed.

Lemma ov_reach qs o o' : ov_inv qs o -> rtc (ov_next legal) o o' -> exists qs', ov_inv qs' o'.
Proof.
  intros Hi Hr. revert qs Hi. induction Hr as [|o o1 o' (i & Hl & Hs) _ IH]; intros qs Hi; [eauto|].
  destruct (ov_step_ok qs o i Hi Hl) as [(o2 & Ho & _ & _ & Hg)|[[Hf _]|[Hf _]]]; [|congruence..].
  destruct (Hg o1) as (qs1 & Hi1); [congruence|]. eauto.
Qed.

(** One worker cannot overtake itself. *)
Lemma ov_one_worker qs o i : n = 1%nat -> ov_inv qs o -> ~ ov_race i o.
Proof.
  intros H1 [Hi Hin] (x & y & -> & Hx & Hy & Hne). apply Hne. specialize (Hin y Hy).
  destruct (ctl_len _ _ _ _ _ _ _ _ (inv_ctl _ _ _ _ _ _ _ Hi)) as (_ & _ & Hlen).
  assert (Hlt : forall z, at_handler (ov_srv o) z = true -> (z < n)%nat).
  { intros z. unfold at_handler. destruct (sv_work (ov_srv o) !! z) as [w|] eqn:Hz; [|done].
    intros _. rewrite <- Hlen. by eapply lookup_lt_Some. }
  apply Hlt in Hx, Hin. lia.
Qed.
End executions.
End overlap.
