(* ===== verification/IoSocket.v ===== *)
(** * Socket input and output

    [ioqueue_socket_recvmsg], [ioqueue_socket_sendmsg] and
    [ioqueue_socket_process_data] of src/ioqueue_socket.c on the blocks of a
    session. *)
From S2P Require Import Prelude NodeHeap CLib Assoc Hook.

#[local] Open Scope Z_scope.

Definition IOV_CHUNK : nat := 4096.

(** The words of blocks: a pointer that is NULL or not of the expected kind is a
    fault. *)
Definition ptr_of (z : Z) : st mem loc := liftS (from_option_fault NullDeref (of_ptr z)).

Definition msg_load (b : loc) : st mem msghdr :=
  x ← block_load b;
  match x with BMsghdr m => mret m | _ => raiseS OutOfBounds end.

Definition iov_load (b : loc) : st mem (list (loc * Z)) :=
  x ← block_load b;
  match x with BIov v => mret v | _ => raiseS OutOfBounds end.

Definition bytes_load (b : loc) : st mem bytes :=
  x ← block_load b;
  match x with BBytes l => mret l | _ => raiseS OutOfBounds end.

Definition words_load (b : loc) : st mem (list Z) :=
  x ← block_load b;
  match x with BWords w => mret w | _ => raiseS OutOfBounds end.

(** [memcpy(b + off, src, length src)] *)
Definition bytes_write (b : loc) (off : nat) (src : bytes) : st mem unit :=
  l ← bytes_load b;
  l' ← liftS (buf_write l off src);
  block_store b (BBytes l').

(** [w[i]], [w[i] = v] *)
Definition word_load (b : loc) (i : nat) : st mem Z :=
  w ← words_load b; liftS (from_option_fault OutOfBounds (w !! i)).

Definition word_store (b : loc) (i : nat) (v : Z) : st mem unit :=
  w ← words_load b;
  _ ← liftS (guard_fault OutOfBounds (bool_decide (i < length w)%nat));
  block_store b (BWords (<[i := v]> w)).

(** What [recvmsg] gives: its result, the bytes it stores and the [msg_namelen]
    it leaves; the addresses [malloc] would return. *)
Record received := Received {
  rv_n : Z; rv_data : bytes; rv_namelen : Z;
  rv_msg : loc; rv_name : loc; rv_iov : loc; rv_buf0 : loc; rv_buf1 : loc
}.

(** The kernel stores the bytes into the buffers in order, each up to its length. *)
Fixpoint scatter (v : list (loc * Z)) (data : bytes) : st mem unit :=
  match v with
  | [] => mret tt
  | (b, len) :: v =>
      _ ← bytes_write b 0 (take (Z.to_nat len) data);
      scatter v (drop (Z.to_nat len) data)
  end.

(** [sendmsg] reads [iov_len] bytes of each buffer. *)
Fixpoint gather (v : list (loc * Z)) : st mem bytes :=
  match v with
  | [] => mret []
  | (b, len) :: v =>
      l ← bytes_load b;
      x ← liftS (buf_read l 0 (Z.to_nat len));
      r ← gather v;
      mret (x ++ r)
  end.

Definition ioqueue_socket_recvmsg (p : loc) (rv : received) : st mem Z :=
  h ← hook_load p;
  match hk_data h with
  | None => raiseS AssertFailed
  | Some _ =>
      w ← udata_load p UD_CORE_MSGHDR;
      imsg ← (if decide (w = 0)
              then (_ ← hook_zalloc p (rv_msg rv) (BMsghdr (Msghdr None 0 None 0));
                    _ ← block_store (rv_msg rv) (BMsghdr (Msghdr None 128 None 0));
                    _ ← hook_zalloc p (rv_name rv) (BBytes (replicate 128 0));
                    _ ← block_store (rv_msg rv) (BMsghdr (Msghdr (Some (rv_name rv)) 128 None 0));
                    _ ← hook_modify p (set_udata UD_CORE_MSGHDR (ptr (rv_msg rv)));
                    mret (rv_msg rv))
              else ptr_of w);
      m ← msg_load imsg;
      v ← match msg_iov m, bool_decide (msg_iovlen m = 0) with
          | Some v, false =>
              iov ← iov_load v;
              _ ← block_store v (BIov ((fun bl => (bl.1, Z.of_nat IOV_CHUNK)) <$> iov));
              mret v
          | _, _ =>
              _ ← block_store imsg (BMsghdr (Msghdr (msg_name m) (msg_namelen m) (msg_iov m) 2));
              _ ← hook_zalloc p (rv_iov rv) (BWords []);
              _ ← block_store imsg (BMsghdr (Msghdr (msg_name m) (msg_namelen m) (Some (rv_iov rv)) 2));
              _ ← hook_zalloc p (rv_buf0 rv) (BBytes (replicate IOV_CHUNK 0));
              _ ← hook_zalloc p (rv_buf1 rv) (BBytes (replicate IOV_CHUNK 0));
              _ ← block_store (rv_iov rv)
                    (BIov [(rv_buf0 rv, Z.of_nat IOV_CHUNK); (rv_buf1 rv, Z.of_nat IOV_CHUNK)]);
              mret (rv_iov rv)
          end;
      iov ← iov_load v;
      _ ← scatter iov (rv_data rv);
      m ← msg_load imsg;
      _ ← block_store imsg (BMsghdr (Msghdr (msg_name m) (rv_namelen rv) (msg_iov m) (msg_iovlen m)));
      mret (rv_n rv)
  end.

(** The bytes given to the kernel, and what [sendmsg] answers. *)
Definition ioqueue_socket_sendmsg (p : loc) (n : Z) : st mem (Z * bytes) :=
  w ← udata_load p UD_CORE_MSGHDR;
  if decide (w = 0) then raiseS AssertFailed
  else
    (imsg ← ptr_of w;
     m ← msg_load imsg;
     v ← match msg_iov m with Some v => iov_load v | None => mret [] end;
     out ← gather (take (Z.to_nat (msg_iovlen m)) v);
     mret (n, out)).

(** The data handler a module installs under the key [hoda], as a word of its
    array; [call] is the call through the pointer. *)
Definition ioqueue_socket_process_data (call : Z -> loc -> st mem Z) (p : loc) : st mem Z :=
  h ← hook_load p;
  match hk_data h with
  | None => raiseS AssertFailed
  | Some a =>
      ar ← array_load a;
      let '(f, ar') := array_get ar (key "hoda") in
      _ ← array_store a ar';
      if decide (f = 0) then mret 0 else call f p
  end.
