(* ===== verification/Http.v ===== *)
(** * The HTTP module

    src/modules/http/mod_http.c: the handler a session runs when data has arrived
    ([hook_on_data_test] and [http_on_data_default]), the URL callback and the two
    route actions, over the memory of Hook.v.  The http-parser library, [random_r]
    and the kernel are parameters. *)
From S2P Require Import Prelude NodeHeap CLib Assoc Hook IoSocket.

#[local] Open Scope Z_scope.

Definition UD_MOD_HS : nat := 9.
Definition UD_MOD_HP : nat := 10.
Definition UD_MOD_REQ : nat := 11.
Definition UD_MOD_RESP : nat := 12.

Definition D_MOD_REQ_URI : nat := 0.
Definition D_MOD_REQ_ULEN : nat := 1.
Definition D_MOD_REQ_PATH : nat := 2.
Definition D_MOD_REQ_PLEN : nat := 3.
Definition D_MOD_REQ_QUERY : nat := 4.
Definition D_MOD_REQ_QLEN : nat := 5.
Definition D_MOD_REQ_SCRATCH : nat := 8.
Definition D_MOD_REQ_HOOKPTR : nat := 9.
Definition D_MOD_REQ_SZ : nat := 10.

Definition D_MOD_RESP_CODE : nat := 0.
Definition D_MOD_RESP_STR : nat := 1.
Definition D_MOD_RESP_LEN : nat := 2.
Definition D_MOD_RESP_SCRATCH : nat := 3.
Definition D_MOD_RESP_SZ : nat := 4.

(** Function pointers as words. *)
Definition FN_hook_on_data_test : Z := 101.
Definition FN_captcha_get : Z := 102.
Definition FN_captcha_verify : Z := 103.

(** The http-parser library on a whole request: the pieces of the URL it passes to
    [on_url] (offset and length in the data), the bytes it consumed, [upgrade];
    [http_parser_parse_url]: path and query of a URL (offset and length), [None]
    when it answers non-zero; [http_status_str]. *)
Record parser := Parser {
  ps_execute : bytes -> list (nat * nat) * Z * bool;
  ps_url : bytes -> option ((nat * nat) * (nat * nat));
  ps_status : Z -> bytes
}.

(** What the handler gets from outside. *)
Record http_in := HttpIn {
  hi_recv : received;
  hi_send : Z;                        (* result of sendmsg *)
  hi_rnd : Z;                         (* random_r *)
  hi_settings : loc; hi_req : loc; hi_uri : loc; hi_path : loc; hi_query : loc; hi_scratch : loc;
  hi_parser : loc; hi_resp : loc; hi_rscratch : loc
}.

Definition NL : bytes := [13; 10].

(** [hr_resp_iov0] *)
Definition resp_header (code : Z) (status : bytes) (len : Z) (ctype : bytes) : bytes :=
  str "HTTP/1.1 " ++ print_dec code ++ str " " ++ status ++ NL ++
  str "Server: nixtec-ws/0.9/ayub" ++ NL ++
  str "Content-Length: " ++ print_dec len ++ NL ++
  str "Connection: keep-alive" ++ NL ++
  str "Content-Type: " ++ ctype ++ NL ++ NL.

(** ["PATH [%s], RND [%d]!"] *)
Definition captcha_text (path : bytes) (rnd : Z) : bytes :=
  str "PATH [" ++ path ++ str "], RND [" ++ print_dec rnd ++ str "]!".

Definition no_action_text : bytes := str "No action defined against route. Please contact support.".
Definition no_route_text : bytes := str "No route defined. Please contact support.".

#[global] Arguments captcha_text : simpl never.
#[global] Arguments resp_header : simpl never.

Section http.
Variable ps : parser.

(** [on_url_cb]: [p->data] is the request record. *)
Definition on_url_cb (req : loc) (buf : bytes) : st mem unit :=
  let len := Nat.min (length buf) (IOV_CHUNK - 1) in
  w ← word_load req D_MOD_REQ_URI;
  s ← ptr_of w;
  _ ← bytes_write s 0 (take len buf);
  _ ← bytes_write s len [0];
  word_store req D_MOD_REQ_ULEN (Z.of_nat len).

(** [captcha_get]; [captcha_verify] has the same body. *)
Definition captcha_get (req resp : loc) (rnd : Z) : st mem unit :=
  sw ← word_load resp D_MOD_RESP_SCRATCH;
  s ← ptr_of sw;
  hw ← word_load req D_MOD_REQ_HOOKPTR;
  hp ← ptr_of hw;
  _ ← udata_load hp UD_CORE_SYSPTR;
  _ ← udata_load hp UD_CORE_NUM;
  pw ← word_load req D_MOD_REQ_PATH;
  pa ← ptr_of pw;
  pathbuf ← bytes_load pa;
  let text := captcha_text (cstring pathbuf) rnd in
  _ ← bytes_write s 0 (text ++ [0]);
  let len := Nat.min (length text) (IOV_CHUNK - 1) in
  _ ← bytes_write s len [0];
  _ ← word_store resp D_MOD_RESP_CODE 200;
  _ ← word_store resp D_MOD_RESP_STR (ptr s);
  word_store resp D_MOD_RESP_LEN (Z.of_nat len).

Definition captcha_verify (req resp : loc) (rnd : Z) : st mem unit :=
  sw ← word_load resp D_MOD_RESP_SCRATCH;
  s ← ptr_of sw;
  hw ← word_load req D_MOD_REQ_HOOKPTR;
  hp ← ptr_of hw;
  _ ← udata_load hp UD_CORE_SYSPTR;
  _ ← udata_load hp UD_CORE_NUM;
  pw ← word_load req D_MOD_REQ_PATH;
  pa ← ptr_of pw;
  pathbuf ← bytes_load pa;
  let text := captcha_text (cstring pathbuf) rnd in
  _ ← bytes_write s 0 (text ++ [0]);
  let len := Nat.min (length text) (IOV_CHUNK - 1) in
  _ ← bytes_write s len [0];
  _ ← word_store resp D_MOD_RESP_CODE 200;
  _ ← word_store resp D_MOD_RESP_STR (ptr s);
  word_store resp D_MOD_RESP_LEN (Z.of_nat len).

(** [action(req, resp, NULL)]: a word that is no known function is a fault. *)
Definition call_action (f : Z) (req resp : loc) (rnd : Z) : st mem unit :=
  if decide (f = FN_captcha_get) then captcha_get req resp rnd
  else if decide (f = FN_captcha_verify) then captcha_verify req resp rnd
  else raiseS UseAfterFree.

(** [IOV_PRINTF(&iov[i], ...)] of [text]: the new [iov_len]. *)
Definition iov_printf (v : loc) (i : nat) (text : bytes) : st mem Z :=
  iov ← iov_load v;
  bl ← liftS (from_option_fault OutOfBounds (iov !! i));
  l ← bytes_load bl.1;
  r ← liftS (snprintf l 0 (Z.of_nat IOV_CHUNK) text);
  _ ← block_store bl.1 (BBytes r.2);
  let len := Z.min r.1 (Z.of_nat IOV_CHUNK) in
  iov ← iov_load v;
  _ ← block_store v (BIov (<[i := (bl.1, len)]> iov));
  mret len.

(** The pieces [http_parser_execute] passes to the URL callback, in order. *)
Fixpoint url_callbacks (req : loc) (data : bytes) (us : list (nat * nat)) : st mem unit :=
  match us with
  | [] => mret tt
  | (off, len) :: us =>
      buf ← liftS (buf_read data off len);
      _ ← on_url_cb req buf;
      url_callbacks req data us
  end.

(** A pointer kept in a udata slot, made on first use. *)
Definition udata_or (p : loc) (i : nat) (make : st mem loc) : st mem loc :=
  w ← udata_load p i;
  if decide (w = 0)
  then (l ← make; _ ← hook_modify p (set_udata i (ptr l)); mret l)
  else ptr_of w.

Definition new_req (p : loc) (e : http_in) : st mem loc :=
  _ ← hook_zalloc p (hi_req e) (BWords (replicate D_MOD_REQ_SZ 0));
  _ ← hook_zalloc p (hi_uri e) (BBytes (replicate IOV_CHUNK 0));
  _ ← word_store (hi_req e) D_MOD_REQ_URI (ptr (hi_uri e));
  _ ← hook_zalloc p (hi_path e) (BBytes (replicate IOV_CHUNK 0));
  _ ← word_store (hi_req e) D_MOD_REQ_PATH (ptr (hi_path e));
  _ ← hook_zalloc p (hi_query e) (BBytes (replicate IOV_CHUNK 0));
  _ ← word_store (hi_req e) D_MOD_REQ_QUERY (ptr (hi_query e));
  _ ← hook_zalloc p (hi_scratch e) (BBytes (replicate IOV_CHUNK 0));
  _ ← word_store (hi_req e) D_MOD_REQ_SCRATCH (ptr (hi_scratch e));
  _ ← word_store (hi_req e) D_MOD_REQ_HOOKPTR (ptr p);
  mret (hi_req e).

Definition new_resp (p : loc) (e : http_in) : st mem loc :=
  _ ← hook_zalloc p (hi_resp e) (BWords (replicate D_MOD_RESP_SZ 0));
  _ ← hook_zalloc p (hi_rscratch e) (BBytes (replicate IOV_CHUNK 0));
  _ ← word_store (hi_resp e) D_MOD_RESP_SCRATCH (ptr (hi_rscratch e));
  mret (hi_resp e).

(** Lines 420-495: the answer [(resp_code, resp_str, resp_strlen)]. *)
Definition http_respond (p req resp : loc) (e : http_in) : st mem (Z * bytes * Z) :=
  uw ← word_load req D_MOD_REQ_URI;
  uri ← ptr_of uw;
  ulen ← word_load req D_MOD_REQ_ULEN;
  rt ← udata_load p UD_MOD_HTTP_ROUTE;
  if decide (rt = 0) then mret (503, no_route_text, Z.of_nat (length no_route_text))
  else
    (route ← ptr_of rt;
     ubuf ← bytes_load uri;
     u ← liftS (buf_read ubuf 0 (Z.to_nat ulen));
     match ps_url ps u with
     | None => mret (200, [], 0)
     | Some ((poff, plen), (qoff, qlen)) =>
         if decide (0 < plen)%nat then
           let pathlen := Nat.min plen (IOV_CHUNK - 1) in
           pw ← word_load req D_MOD_REQ_PATH;
           path ← ptr_of pw;
           x ← liftS (buf_read ubuf poff pathlen);
           _ ← bytes_write path 0 x;
           _ ← bytes_write path pathlen [0];
           _ ← word_store req D_MOD_REQ_PLEN (Z.of_nat pathlen);
           let qlen := Nat.min qlen (IOV_CHUNK - 1) in
           _ ← (if decide (0 < qlen)%nat then
                  (qw ← word_load req D_MOD_REQ_QUERY;
                   query ← ptr_of qw;
                   x ← liftS (buf_read ubuf qoff qlen);
                   _ ← bytes_write query 0 x;
                   _ ← bytes_write query qlen [0];
                   word_store req D_MOD_REQ_QLEN (Z.of_nat qlen))
                else mret tt);
           pathbuf ← bytes_load path;
           ar ← array_load route;
           let '(f, ar') := array_get ar (cstring pathbuf ++ [0]) in
           _ ← array_store route ar';
           if decide (f = 0)
           then mret (403, no_action_text, Z.of_nat (length no_action_text))
           else
             (_ ← call_action f req resp (hi_rnd e);
              code ← word_load resp D_MOD_RESP_CODE;
              sw ← word_load resp D_MOD_RESP_STR;
              s ← ptr_of sw;
              l ← bytes_load s;
              len ← word_load resp D_MOD_RESP_LEN;
              mret (code, cstring l, len))
         else mret (200, [], 0)
     end).

(** Up to the parser: the request record, the I/O vector, the first buffer and the
    number of bytes that were received. *)
Definition http_on_data_ready (p : loc) (e : http_in) : st mem (loc * loc * bytes * Z) :=
  iw ← udata_load p UD_CORE_MSGHDR;
  imsg ← ptr_of iw;
  m ← msg_load imsg;
  _ ← liftS (guard_fault AssertFailed (bool_decide (msg_iovlen m = 2)));
  _ ← udata_or p UD_MOD_HS (_ ← hook_malloc p (hi_settings e) BOpaque; mret (hi_settings e));
  req ← udata_or p UD_MOD_REQ (new_req p e);
  _ ← udata_or p UD_MOD_HP (_ ← hook_malloc p (hi_parser e) BOpaque; mret (hi_parser e));
  nread ← udata_load p UD_CORE_NREAD;
  v ← liftS (from_option_fault NullDeref (msg_iov m));
  iov ← iov_load v;
  bl ← liftS (from_option_fault OutOfBounds (iov !! 0%nat));
  buf ← bytes_load bl.1;
  mret (req, v, buf, nread).

Definition http_on_data_default (p : loc) (e : http_in) : st mem Z :=
  r ← http_on_data_ready p e;
  let '(req, v, buf, nread) := r in
  data ← liftS (buf_read buf 0 (Z.to_nat nread));
  let '(urls, nparsed, upgrade) := ps_execute ps data in
  _ ← url_callbacks req data urls;
  resp ← udata_or p UD_MOD_RESP (new_resp p e);
  a ← http_respond p req resp e;
  let '(resp_code, resp_str, resp_strlen) := a in
  if decide (0 < resp_strlen) then
    (n1 ← iov_printf v 1 resp_str;
     n0 ← iov_printf v 0 (resp_header resp_code (ps_status ps resp_code) n1 (str "text/plain"));
     mret (n1 + n0))
  else mret 0.

(** The return value and the bytes sent. *)
Definition hook_on_data_test (p : loc) (e : http_in) : st mem (Z * option bytes) :=
  n ← ioqueue_socket_recvmsg p (hi_recv e);
  _ ← hook_modify p (set_udata UD_CORE_NREAD n);
  if decide (n <= 0) then mret (0, None)
  else
    (r ← http_on_data_default p e;
     if decide (0 < r)
     then (s ← ioqueue_socket_sendmsg p (hi_send e); mret (s.1, Some s.2))
     else mret (0, None)).

(** The call through the pointer stored under [hoda]. *)
Definition call_handler (e : http_in) (f : Z) (p : loc) : st mem Z :=
  if decide (f = FN_hook_on_data_test)
  then (r ← hook_on_data_test p e; mret r.1)
  else raiseS UseAfterFree.

(** [hp->process(hp)] of a session *)
Definition http_process (e : http_in) (p : loc) : st mem unit :=
  _ ← ioqueue_socket_process_data (call_handler e) p; mret tt.
End http.
