(* ===== verification/SessMem.v ===== *)
(** * What a session owns

    A small program logic for handlers: [own p h cells fr ars] says that the hook
    at [p] is [h], that its pool holds the blocks [cells], that [malloc] will next
    return the addresses [fr], and that the arrays are [ars].  A triple [does]
    runs an operation from one such state to another and guarantees that nothing
    outside the session changes ([handled], Server.v). *)
From S2P Require Import Prelude NodeHeap CLib Assoc Hook Server IoSocket.

#[local] Open Scope Z_scope.

Record own (p : loc) (h : hook) (cells : list (loc * block)) (fr : list loc)
    (ars : gmap loc array) (m : mem) : Prop := {
  own_hook : m_hooks m !! p = Some h;
  own_nodup : NoDup cells.*1;
  own_cell b x : (b, x) ∈ cells -> m_blocks m !! b = Some x /\ b ∈ hk_mp h;
  own_fr_nodup : NoDup fr;
  own_fr b : b ∈ fr -> m_blocks m !! b = None;
  own_arrays : m_arrays m = ars
}.

Definition does {A : Type} (p : loc) (h : hook) (cells : list (loc * block)) (fr : list loc)
    (ars : gmap loc array) (op : st mem A) (r : A)
    (h' : hook) (cells' : list (loc * block)) (fr' : list loc) (ars' : gmap loc array) : Prop :=
  forall m, own p h cells fr ars m ->
    exists m', op m = Ok (r, m') /\ own p h' cells' fr' ars' m' /\ handled p m m'.

#[export] Instance own_proper p h :
  Proper (Permutation ==> Permutation ==> eq ==> eq ==> iff) (own p h).
Proof.
  assert (Himp : forall c1 c2 f1 f2 a m, c1 ≡ₚ c2 -> f1 ≡ₚ f2 -> own p h c1 f1 a m -> own p h c2 f2 a m).
  { intros c1 c2 f1 f2 a m Hc Hf [H1 H2 H3 H4 H5 H6]. split; try done.
    - by rewrite <- Hc.
    - intros b x. rewrite <- Hc. apply H3.
    - by rewrite <- Hf.
    - intros b. rewrite <- Hf. apply H5. }
  intros c1 c2 Hc f1 f2 Hf a ? <- m ? <-. split; apply Himp; done.
Qed.

Lemma list_delete_insert_eq {X : Type} (l : list X) i x : delete i (<[i := x]> l) = delete i l.
Proof. revert i. induction l as [|y l IH]; intros [|i]; cbn; [done..|]. f_equal. apply IH. Qed.

(** ** Composing runs *)
Lemma handled_trans p m1 m2 m3 : handled p m1 m2 -> handled p m2 m3 -> handled p m1 m3.
Proof.
  intros [(h1 & h2 & n1 & Hp & Hh & Hmp & Hd & Hr & Hf & Hpr & Hrc & Hu & Hnd & Hfr & Hl & Hb) Ha Han].
  intros [(h2' & h3 & n2 & Hp2 & Hh2 & Hmp2 & Hd2 & Hr2 & Hf2 & Hpr2 & Hrc2 & Hu2 & Hnd2 & Hfr2 & Hl2 & Hb2) Ha2 Han2].
  rewrite Hh, lookup_insert_eq in Hp2. injection Hp2 as <-.
  split.
  - exists h1, h3, (n2 ++ n1). split; [done|]. split; [by rewrite Hh2, Hh, insert_insert_eq|].
    split; [by rewrite Hmp2, Hmp, app_assoc|]. do 5 (split; [congruence|]). split; [congruence|].
    assert (Hn12 : forall b, b ∈ n2 -> m_blocks m1 !! b = None /\ b ∉ n1).
    { intros b Hin. pose proof (Hfr2 b Hin) as Hno.
      assert (~ (is_Some (m_blocks m1 !! b) \/ b ∈ n1)) as Hnot by (rewrite <- Hl, Hno; by intros []).
      split; [apply eq_None_not_Some|]; tauto. }
    split; [apply NoDup_app; naive_solver|]. split.
    + intros b [Hin|Hin]%elem_of_app; [by apply Hn12|by apply Hfr].
    + split.
      * intros b. rewrite Hl2, Hl, elem_of_app. tauto.
      * intros b Hin. rewrite Hb2 by done. apply Hb. rewrite Hmp2 in Hin. set_solver.
  - intros a x Hx. destruct (Ha a x Hx) as (x1 & Hx1 & Hs1). destruct (Ha2 a x1 Hx1) as (x2 & Hx2 & Hs2).
    exists x2. split; [done|]. by etransitivity.
  - eauto.
Qed.

Section rules.
Context {p : loc}.

Lemma does_ret {A : Type} h c fr ars (a : A) : does p h c fr ars (mret a) a h c fr ars.
Proof.
  intros m Hm. exists m. split; [done|]. split; [done|]. apply handled_refl.
  rewrite (own_hook _ _ _ _ _ _ Hm). done.
Qed.

Lemma does_bind {A B : Type} h c fr ars (op : st mem A) (k : A -> st mem B) a b h1 c1 fr1 ars1 h2 c2 fr2 ars2 :
  does p h c fr ars op a h1 c1 fr1 ars1 -> does p h1 c1 fr1 ars1 (k a) b h2 c2 fr2 ars2 ->
  does p h c fr ars (op ≫= k) b h2 c2 fr2 ars2.
Proof.
  intros H1 H2 m Hm. destruct (H1 m Hm) as (m1 & Hr1 & Hm1 & Hd1).
  destruct (H2 m1 Hm1) as (m2 & Hr2 & Hm2 & Hd2).
  exists m2. split; [by rewrite (st_bind_run _ _ _ _ _ Hr1)|]. split; [done|].
  by eapply handled_trans.
Qed.

Lemma does_perm {A : Type} h c c0 fr fr0 ars (op : st mem A) a h' c' c0' fr' fr0' ars' :
  does p h c0 fr0 ars op a h' c0' fr0' ars' ->
  c ≡ₚ c0 -> fr ≡ₚ fr0 -> c' ≡ₚ c0' -> fr' ≡ₚ fr0' ->
  does p h c fr ars op a h' c' fr' ars'.
Proof.
  intros H Hc Hf Hc' Hf' m Hm. rewrite Hc, Hf in Hm. destruct (H m Hm) as (m' & Hr & Hm' & Hd).
  exists m'. split; [done|]. split; [|done]. by rewrite Hc', Hf'.
Qed.

(** The same run, its end state written another way. *)
Lemma does_end {A : Type} h c fr ars (op : st mem A) a h1 c1 fr1 ars1 h2 c2 fr2 ars2 :
  does p h c fr ars op a h1 c1 fr1 ars1 -> h1 = h2 -> c1 = c2 -> fr1 = fr2 -> ars1 = ars2 ->
  does p h c fr ars op a h2 c2 fr2 ars2.
Proof. by intros Hd -> -> -> ->. Qed.

Lemma does_lift {A : Type} h c fr ars (r : result A) a : r = Ok a -> does p h c fr ars (liftS r) a h c fr ars.
Proof. intros ->. apply does_ret. Qed.

Lemma does_block_load h c fr ars b x :
  (b, x) ∈ c -> does p h c fr ars (block_load b) x h c fr ars.
Proof.
  intros Hin m Hm. destruct (own_cell _ _ _ _ _ _ Hm b x Hin) as [Hb _].
  exists m. split; [unfold block_load; by rewrite Hb|]. split; [done|].
  apply handled_refl. by rewrite (own_hook _ _ _ _ _ _ Hm).
Qed.

Lemma does_block_store h b x y c fr ars :
  does p h ((b, x) :: c) fr ars (block_store b y) tt h ((b, y) :: c) fr ars.
Proof.
  intros m [H1 H2 H3 H4 H5 H6].
  destruct (H3 b x) as [Hb Hmp]; [set_solver|].
  exists (Mem (m_hooks m) (<[b := y]> (m_blocks m)) (m_arrays m)).
  split; [unfold block_store; by rewrite Hb|]. cbn in H2. apply NoDup_cons in H2 as [Hbc Hnd]. split.
  - split; cbn; try done.
    + by apply NoDup_cons.
    + intros b' x' [[= -> ->]|Hin]%elem_of_cons.
      * by rewrite lookup_insert_eq.
      * rewrite lookup_insert_ne; [apply H3; set_solver|]. intros ->.
        apply Hbc. by apply (list_elem_of_fmap_2 fst) in Hin.
    + intros b' Hin. rewrite lookup_insert_ne; [by apply H5|]. intros ->.
      rewrite H5 in Hb by done. done.
  - split; cbn; [|intros a0 x0 Ha0; exists x0; done|done].
    exists h, h, []. rewrite insert_id by done. split_and!; try done; [constructor|set_solver| |].
    + intros b'. rewrite lookup_insert_is_Some'. split.
      { intros [<-|?]; left; [by rewrite Hb|done]. }
      intros [?|Hn]; [by right|]. by apply not_elem_of_nil in Hn.
    + intros b' Hin. rewrite lookup_insert_ne; [done|]. intros ->. done.
Qed.

Lemma does_zalloc h b x c fr ars :
  does p h c (b :: fr) ars (hook_zalloc p b x) tt (upd_mp (cons b) h) ((b, x) :: c) fr ars.
Proof.
  intros m [H1 H2 H3 H4 H5 H6]. apply NoDup_cons in H4 as [Hbf Hnd].
  assert (Hb : m_blocks m !! b = None) by (apply H5; set_solver).
  exists (Mem (<[p := upd_mp (cons b) h]> (m_hooks m)) (<[b := x]> (m_blocks m)) (m_arrays m)).
  split; [|split].
  - unfold hook_zalloc, hook_malloc. erewrite st_bind_run; [|reflexivity].
    apply (hook_modify_ok (Mem _ _ _)). done.
  - split; cbn; try done.
    + by rewrite lookup_insert_eq.
    + apply NoDup_cons. split; [|done]. rewrite list_elem_of_fmap. intros ([b' x'] & -> & Hin).
      destruct (H3 _ _ Hin) as [Hb' _]. cbn in Hb. congruence.
    + intros b' x' [[= -> ->]|Hin]%elem_of_cons.
      * rewrite lookup_insert_eq. split; [done|set_solver].
      * destruct (H3 _ _ Hin) as [Hb' Hmp]. rewrite lookup_insert_ne by congruence.
        split; [done|set_solver].
    + intros b' Hin. rewrite lookup_insert_ne by set_solver. apply H5. set_solver.
  - split; cbn; [|intros a0 x0 Ha0; exists x0; done|done].
    exists h, (upd_mp (cons b) h), [b]. split_and!; try done; [apply NoDup_singleton|set_solver| |].
    + intros b'. rewrite lookup_insert_is_Some', list_elem_of_singleton. naive_solver.
    + intros b' Hin. rewrite lookup_insert_ne; [done|]. intros ->. apply Hin. set_solver.
Qed.

Lemma does_hook_modify h f c fr ars :
  hk_mp (f h) = hk_mp h -> hk_data (f h) = hk_data h -> hk_ready (f h) = hk_ready h ->
  hk_fd (f h) = hk_fd h -> hk_process (f h) = hk_process h -> hk_refcnt (f h) = hk_refcnt h ->
  length (hk_udata (f h)) = length (hk_udata h) ->
  does p h c fr ars (hook_modify p f) tt (f h) c fr ars.
Proof.
  intros Hmp Hd Hr Hf Hpr Hrc Hu m [H1 H2 H3 H4 H5 H6].
  exists (Mem (<[p := f h]> (m_hooks m)) (m_blocks m) (m_arrays m)).
  split; [by apply hook_modify_ok|]. split.
  - split; cbn; try done; [by rewrite lookup_insert_eq|]. by rewrite Hmp.
  - split; cbn; [|intros a0 x0 Ha0; exists x0; done|done].
    exists h, (f h), []. split_and!; try done; [constructor|set_solver|].
    intros b. split; [by left|]. by intros [?|?%not_elem_of_nil].
Qed.

Lemma does_set_udata h i v c fr ars :
  does p h c fr ars (hook_modify p (set_udata i v)) tt (set_udata i v h) c fr ars.
Proof. apply does_hook_modify; try done. cbn. by rewrite length_insert. Qed.

Lemma does_hook_load h c fr ars : does p h c fr ars (hook_load p) h h c fr ars.
Proof.
  intros m Hm. exists m. pose proof (own_hook _ _ _ _ _ _ Hm) as Hp.
  split; [by apply hook_load_ok|]. split; [done|]. apply handled_refl. by rewrite Hp.
Qed.

Lemma does_udata_load h i v c fr ars :
  hk_udata h !! i = Some v -> does p h c fr ars (udata_load p i) v h c fr ars.
Proof.
  intros Hv. unfold udata_load. eapply does_bind; [apply does_hook_load|].
  apply does_lift. by rewrite Hv.
Qed.

Lemma does_array_load h c fr ars a x :
  ars !! a = Some x -> does p h c fr ars (array_load a) x h c fr ars.
Proof.
  intros Ha m Hm. exists m. split; [|split; [done|]].
  - unfold array_load. by rewrite (own_arrays _ _ _ _ _ _ Hm), Ha.
  - apply handled_refl. by rewrite (own_hook _ _ _ _ _ _ Hm).
Qed.

Lemma does_array_store h c fr ars a x y :
  ars !! a = Some x -> grows x y ->
  does p h c fr ars (array_store a y) tt h c fr (<[a := y]> ars).
Proof.
  intros Ha Hxy m [H1 H2 H3 H4 H5 H6].
  exists (Mem (m_hooks m) (m_blocks m) (<[a := y]> (m_arrays m))). split; [|split].
  - unfold array_store. by rewrite H6, Ha.
  - split; cbn; try done. by rewrite H6.
  - split; cbn.
    + exists h, h, []. rewrite insert_id by done. split_and!; try done; [constructor|set_solver|].
      intros b. split; [by left|]. by intros [?|?%not_elem_of_nil].
    + intros a' x' Hx'. destruct (decide (a = a')) as [<-|Hne].
      * exists y. rewrite lookup_insert_eq. split; [done|]. rewrite H6 in Hx'.
        assert (x' = x) as -> by congruence. done.
      * exists x'. by rewrite lookup_insert_ne.
    + intros a'. rewrite lookup_insert_is_Some'. intros [<-|?]; [|done]. rewrite H6, Ha. done.
Qed.

(** ** Runs that end in a fault *)
Definition faults {A : Type} (h : hook) (c : list (loc * block)) (fr : list loc) (ars : gmap loc array)
    (op : st mem A) (f : fault) : Prop :=
  forall m, own p h c fr ars m -> op m = Fault f.

Lemma faults_bind {A B : Type} h c fr ars (op : st mem A) (k : A -> st mem B) f :
  faults h c fr ars op f -> faults h c fr ars (op ≫= k) f.
Proof. intros Hf m Hm. by apply st_bind_fault, Hf. Qed.

Lemma faults_after {A B : Type} h c fr ars (op : st mem A) (k : A -> st mem B) a f h1 c1 fr1 ars1 :
  does p h c fr ars op a h1 c1 fr1 ars1 -> faults h1 c1 fr1 ars1 (k a) f -> faults h c fr ars (op ≫= k) f.
Proof.
  intros H1 H2 m Hm. destruct (H1 m Hm) as (m1 & Hr & Hm1 & _). rewrite (st_bind_run _ _ _ _ _ Hr). by apply H2.
Qed.

Lemma faults_from {A : Type} h c c0 fr fr0 ars (op : st mem A) f :
  faults h c0 fr0 ars op f -> c ≡ₚ c0 -> fr ≡ₚ fr0 -> faults h c fr ars op f.
Proof. intros H Hc Hf m Hm. rewrite Hc, Hf in Hm. by apply H. Qed.

Lemma faults_lift {A : Type} h c fr ars (r : result A) f : r = Fault f -> faults h c fr ars (liftS r) f.
Proof. intros -> m _. done. Qed.

(** A cell at a known position of the list. *)
Lemma does_store_at h i b x y c fr ars :
  c !! i = Some (b, x) ->
  does p h c fr ars (block_store b y) tt h (<[i := (b, y)]> c) fr ars.
Proof.
  intros Hi. eapply does_perm; [apply (does_block_store h b x y (delete i c))| |done| |done].
  - by apply delete_Permutation.
  - rewrite (delete_Permutation (<[i := (b, y)]> c) i (b, y)).
    + by rewrite list_delete_insert_eq.
    + apply list_lookup_insert_eq. by eapply lookup_lt_Some.
Qed.

Lemma does_load_at h i b x c fr ars :
  c !! i = Some (b, x) -> does p h c fr ars (block_load b) x h c fr ars.
Proof. intros Hi. apply does_block_load. by eapply list_elem_of_lookup_2. Qed.

Lemma does_msg_load h i b m c fr ars :
  c !! i = Some (b, BMsghdr m) -> does p h c fr ars (msg_load b) m h c fr ars.
Proof. intros Hi. unfold msg_load. eapply does_bind; [by eapply does_load_at|]. apply does_ret. Qed.

Lemma does_iov_load h i b v c fr ars :
  c !! i = Some (b, BIov v) -> does p h c fr ars (iov_load b) v h c fr ars.
Proof. intros Hi. unfold iov_load. eapply does_bind; [by eapply does_load_at|]. apply does_ret. Qed.

Lemma does_bytes_load h i b l c fr ars :
  c !! i = Some (b, BBytes l) -> does p h c fr ars (bytes_load b) l h c fr ars.
Proof. intros Hi. unfold bytes_load. eapply does_bind; [by eapply does_load_at|]. apply does_ret. Qed.

Lemma does_bytes_write h i b l l' off src c fr ars :
  c !! i = Some (b, BBytes l) -> buf_write l off src = Ok l' ->
  does p h c fr ars (bytes_write b off src) tt h (<[i := (b, BBytes l')]> c) fr ars.
Proof.
  intros Hi Hw. unfold bytes_write. eapply does_bind; [by eapply does_bytes_load|].
  eapply does_bind; [by apply does_lift|]. by eapply does_store_at.
Qed.

Lemma does_word_load h i b w j v c fr ars :
  c !! i = Some (b, BWords w) -> w !! j = Some v ->
  does p h c fr ars (word_load b j) v h c fr ars.
Proof.
  intros Hi Hj. unfold word_load, words_load. eapply does_bind.
  { eapply does_bind; [by eapply does_load_at|]. apply does_ret. }
  apply does_lift. by rewrite Hj.
Qed.

Lemma does_word_store h i b w j v c fr ars :
  c !! i = Some (b, BWords w) -> (j < length w)%nat ->
  does p h c fr ars (word_store b j v) tt h (<[i := (b, BWords (<[j := v]> w))]> c) fr ars.
Proof.
  intros Hi Hj. unfold word_store, words_load. eapply does_bind.
  { eapply does_bind; [by eapply does_load_at|]. apply does_ret. }
  eapply does_bind; [apply does_lift; by rewrite bool_decide_true|]. by eapply does_store_at.
Qed.

Lemma does_ptr_of h l c fr ars : does p h c fr ars (ptr_of (ptr l)) l h c fr ars.
Proof. by apply does_lift. Qed.
End rules.

(** One step of a straight-line handler: the rule whose operation it is. *)
Ltac dstep :=
  first
    [ apply does_ret
    | eapply does_ptr_of
    | eapply does_set_udata
    | eapply does_zalloc
    | eapply does_hook_load ].
