(* ===== verification/HttpSession.v ===== *)
(** * Sessions of the HTTP module

    The blocks of a session as records, and for each function of the handler
    (src/ioqueue_socket.c, src/modules/http/mod_http.c) the lemma that it takes the
    records to what the code means to compute. *)
From S2P Require Import Prelude NodeHeap CLib Assoc Hook Server IoSocket Http SessMem.

#[local] Open Scope Z_scope.

(** The request record with its four buffers; [hp] is the hook it points back to. *)
Record req_st := ReqSt {
  rq : loc; rq_u : loc; rq_p : loc; rq_q : loc; rq_s : loc;
  rq_ulen : Z; rq_plen : Z; rq_qlen : Z;
  rq_uri : bytes; rq_path : bytes; rq_query : bytes; rq_scr : bytes
}.

Definition req_cells (hp : loc) (r : req_st) : list (loc * block) :=
  [(rq r, BWords [ptr (rq_u r); rq_ulen r; ptr (rq_p r); rq_plen r; ptr (rq_q r); rq_qlen r; 0; 0;
                  ptr (rq_s r); ptr hp]);
   (rq_u r, BBytes (rq_uri r)); (rq_p r, BBytes (rq_path r)); (rq_q r, BBytes (rq_query r));
   (rq_s r, BBytes (rq_scr r))].

Definition req_ok (r : req_st) : Prop :=
  length (rq_uri r) = IOV_CHUNK /\ length (rq_path r) = IOV_CHUNK /\
  length (rq_query r) = IOV_CHUNK /\ 0 <= rq_ulen r < Z.of_nat IOV_CHUNK.

Record resp_st := RespSt {
  rs : loc; rs_s : loc; rs_code : Z; rs_str : Z; rs_len : Z; rs_scr : bytes
}.

Definition resp_cells (r : resp_st) : list (loc * block) :=
  [(rs r, BWords [rs_code r; rs_str r; rs_len r; ptr (rs_s r)]); (rs_s r, BBytes (rs_scr r))].

Definition resp_ok (r : resp_st) : Prop := length (rs_scr r) = IOV_CHUNK.

Record iov_st := IovSt {
  iv : loc; iv0 : loc; iv1 : loc; iv_len0 : Z; iv_len1 : Z; iv_buf0 : bytes; iv_buf1 : bytes
}.

Definition iov_cells (v : iov_st) : list (loc * block) :=
  [(iv v, BIov [(iv0 v, iv_len0 v); (iv1 v, iv_len1 v)]);
   (iv0 v, BBytes (iv_buf0 v)); (iv1 v, BBytes (iv_buf1 v))].

Definition iov_ok (v : iov_st) : Prop :=
  length (iv_buf0 v) = IOV_CHUNK /\ length (iv_buf1 v) = IOV_CHUNK /\
  0 <= iv_len0 v <= Z.of_nat IOV_CHUNK /\ 0 <= iv_len1 v <= Z.of_nat IOV_CHUNK.

(** ** The URL callback *)
Definition put (buf src : bytes) : bytes := src ++ 0 :: drop (S (length src)) buf.

#[global] Arguments put : simpl never.
#[global] Arguments IOV_CHUNK : simpl never.
#[global] Strategy 1000 [IOV_CHUNK].

(** Storing a string and its NUL at the start of a buffer. *)
Lemma put_writes buf src :
  (length src < length buf)%nat ->
  exists l1, buf_write buf 0 src = Ok l1 /\ buf_write l1 (length src) [0] = Ok (put buf src).
Proof.
  intros Hlen. exists (src ++ drop (length src) buf).
  split; [rewrite buf_write_ok by (cbn; lia); done|].
  rewrite buf_write_ok by (rewrite length_app, length_drop; cbn; lia).
  rewrite take_app_length, drop_app_ge by lia. unfold put. cbn. rewrite drop_drop.
  do 4 f_equal. lia.
Qed.

Lemma put_length buf src : (length src < length buf)%nat -> length (put buf src) = length buf.
Proof. intros H. unfold put. rewrite length_app. cbn. rewrite length_drop. lia. Qed.

Lemma cstring_app_0 src l : cstring (src ++ 0 :: l) = cstring src.
Proof.
  induction src as [|b src IH]; cbn; [by rewrite decide_True|].
  case_decide; [done|]. by rewrite IH.
Qed.

Lemma put_cstring buf src : cstring (put buf src) = cstring src.
Proof. apply cstring_app_0. Qed.

Lemma put_take buf src : take (length src) (put buf src) = src.
Proof. unfold put. by rewrite take_app_length. Qed.

(** The URL a callback leaves: at most 4095 bytes. *)
Definition url_piece (buf : bytes) : bytes := take (IOV_CHUNK - 1) buf.

#[global] Arguments url_piece : simpl never.

Definition set_url (r : req_st) (buf : bytes) : req_st :=
  ReqSt (rq r) (rq_u r) (rq_p r) (rq_q r) (rq_s r) (Z.of_nat (length (url_piece buf))) (rq_plen r)
    (rq_qlen r) (put (rq_uri r) (url_piece buf)) (rq_path r) (rq_query r) (rq_scr r).

Lemma url_piece_length buf : (length (url_piece buf) < IOV_CHUNK)%nat.
Proof. unfold url_piece. rewrite length_take. unfold IOV_CHUNK. lia. Qed.

Lemma set_url_ok r buf : req_ok r -> req_ok (set_url r buf).
Proof.
  intros (Hu & Hp & Hq & _). pose proof (url_piece_length buf). split; cbn.
  - rewrite put_length; lia.
  - split; [done|]. split; [done|]. lia.
Qed.

(** An index of a record is in range. *)
Ltac idx := apply Nat.ltb_lt; reflexivity.

Section session.
Context (ps : parser) (p : loc).

Lemma on_url_cb_ok h r buf c fr ars :
  req_ok r ->
  does p h (req_cells p r ++ c) fr ars (on_url_cb (rq r) buf) tt
       h (req_cells p (set_url r buf) ++ c) fr ars.
Proof.
  intros (Hu & _). pose proof (url_piece_length buf) as Hlt.
  assert (Hmin : Nat.min (length buf) (IOV_CHUNK - 1) = length (url_piece buf)).
  { unfold url_piece. rewrite length_take. lia. }
  assert (Htk : take (Nat.min (length buf) (IOV_CHUNK - 1)) buf = url_piece buf).
  { unfold url_piece. destruct (decide (length buf <= IOV_CHUNK - 1)%nat).
    - rewrite Nat.min_l, !take_ge by lia. done.
    - by rewrite Nat.min_r by lia. }
  destruct (put_writes (rq_uri r) (url_piece buf)) as (l1 & Hw1 & Hw2); [lia|].
  unfold on_url_cb. cbn zeta. rewrite Htk, Hmin.
  eapply does_bind; [eapply (does_word_load _ 0%nat); reflexivity|].
  eapply does_bind; [apply does_ptr_of|].
  eapply does_bind; [eapply (does_bytes_write _ 1%nat); [reflexivity|exact Hw1]|].
  eapply does_bind; [eapply (does_bytes_write _ 1%nat); [reflexivity|exact Hw2]|].
  eapply does_end; [eapply (does_word_store _ 0%nat); [reflexivity|idx]|reflexivity..].
Qed.

(** The pieces of the URL the parser reports, in order: each replaces the one
    before it. *)
Definition apply_urls (data : bytes) (us : list (nat * nat)) (r : req_st) : req_st :=
  foldl (fun r ol => set_url r (take ol.2 (drop ol.1 data))) r us.

Lemma apply_urls_ok data us r : req_ok r -> req_ok (apply_urls data us r).
Proof.
  unfold apply_urls. revert r. induction us as [|u us IH]; intros r Hr; cbn; [done|].
  apply IH. by apply set_url_ok.
Qed.

Lemma apply_urls_rq data us r : rq (apply_urls data us r) = rq r.
Proof. unfold apply_urls. revert r. induction us as [|u us IH]; intros r; cbn; [done|]. by rewrite IH. Qed.

Lemma url_callbacks_ok h r data us c fr ars :
  req_ok r -> Forall (fun ol => (ol.1 + ol.2 <= length data)%nat) us ->
  does p h (req_cells p r ++ c) fr ars (url_callbacks (rq r) data us) tt
       h (req_cells p (apply_urls data us r) ++ c) fr ars.
Proof.
  intros Hr Hus. revert r Hr. induction Hus as [|[off len] us Hlen _ IH]; intros r Hr; cbn [url_callbacks].
  - apply does_ret.
  - eapply does_bind; [apply does_lift, buf_read_ok; done|].
    eapply does_bind; [by apply on_url_cb_ok|].
    apply (IH (set_url r (take len (drop off data)))). by apply set_url_ok.
Qed.

(** ** Structures made on first use *)
Definition word_of (o : option loc) : Z := match o with Some l => ptr l | None => 0 end.

Lemma udata_or_set h i l make c fr ars :
  hk_udata h !! i = Some (ptr l) -> does p h c fr ars (udata_or p i make) l h c fr ars.
Proof.
  intros Hi. unfold udata_or. eapply does_bind; [by apply does_udata_load|].
  rewrite decide_False by done. apply does_ptr_of.
Qed.

Lemma udata_or_new h i l make c fr ars h1 c1 fr1 :
  hk_udata h !! i = Some 0 -> does p h c fr ars make l h1 c1 fr1 ars ->
  does p h c fr ars (udata_or p i make) l (set_udata i (ptr l) h1) c1 fr1 ars.
Proof.
  intros Hi Hm. unfold udata_or. eapply does_bind; [by apply does_udata_load|].
  rewrite decide_True by done. eapply does_bind; [exact Hm|].
  eapply does_bind; [apply does_set_udata|]. apply does_ret.
Qed.

Definition zeros : bytes := replicate IOV_CHUNK 0.
Definition fresh_req (e : http_in) : req_st :=
  ReqSt (hi_req e) (hi_uri e) (hi_path e) (hi_query e) (hi_scratch e) 0 0 0 zeros zeros zeros zeros.
Definition fresh_resp (e : http_in) : resp_st :=
  RespSt (hi_resp e) (hi_rscratch e) 0 0 0 zeros.

Lemma fresh_req_ok e : req_ok (fresh_req e).
Proof.
  repeat split; cbn; try apply length_replicate; unfold IOV_CHUNK; lia.
Qed.

Lemma fresh_resp_ok e : resp_ok (fresh_resp e).
Proof. apply length_replicate. Qed.

Lemma new_req_ok h e c fr ars :
  does p h c (hi_req e :: hi_uri e :: hi_path e :: hi_query e :: hi_scratch e :: fr) ars
    (new_req p e) (hi_req e)
    (upd_mp (fun l => hi_scratch e :: hi_query e :: hi_path e :: hi_uri e :: hi_req e :: l) h)
    (req_cells p (fresh_req e) ++ c) fr ars.
Proof.
  eapply does_perm.
  - unfold new_req.
    eapply does_bind; [apply does_zalloc|]. eapply does_bind; [apply does_zalloc|].
    eapply does_bind; [eapply (does_word_store _ 1%nat); [reflexivity|idx]|].
    eapply does_bind; [apply does_zalloc|].
    eapply does_bind; [eapply (does_word_store _ 2%nat); [reflexivity|idx]|].
    eapply does_bind; [apply does_zalloc|].
    eapply does_bind; [eapply (does_word_store _ 3%nat); [reflexivity|idx]|].
    eapply does_bind; [apply does_zalloc|].
    eapply does_bind; [eapply (does_word_store _ 4%nat); [reflexivity|idx]|].
    eapply does_bind; [eapply (does_word_store _ 4%nat); [reflexivity|idx]|].
    eapply does_end; [apply does_ret|reflexivity..].
  - done.
  - done.
  - cbn. solve_Permutation.
  - done.
Qed.

Lemma new_resp_ok h e c fr ars :
  does p h c (hi_resp e :: hi_rscratch e :: fr) ars (new_resp p e) (hi_resp e)
    (upd_mp (fun l => hi_rscratch e :: hi_resp e :: l) h)
    (resp_cells (fresh_resp e) ++ c) fr ars.
Proof.
  eapply does_perm.
  - unfold new_resp.
    eapply does_bind; [apply does_zalloc|]. eapply does_bind; [apply does_zalloc|].
    eapply does_bind; [eapply (does_word_store _ 1%nat); [reflexivity|idx]|].
    eapply does_end; [apply does_ret|reflexivity..].
  - done.
  - done.
  - cbn. solve_Permutation.
  - done.
Qed.

(** ** The route actions *)
Definition set_resp (r : resp_st) (text : bytes) : resp_st :=
  RespSt (rs r) (rs_s r) 200 (ptr (rs_s r)) (Z.of_nat (length text)) (put (rs_scr r) text).

Lemma set_resp_ok r text : resp_ok r -> (length text < IOV_CHUNK)%nat -> resp_ok (set_resp r text).
Proof. intros Hr Ht. unfold resp_ok in *. cbn. rewrite put_length; lia. Qed.

(** [sprintf(str, ...)] and the safety NUL leave the text and a NUL. *)
Lemma sprintf_put buf text :
  length buf = IOV_CHUNK -> (length text < IOV_CHUNK)%nat ->
  exists l1, buf_write buf 0 (text ++ [0]) = Ok l1 /\
    buf_write l1 (Nat.min (length text) (IOV_CHUNK - 1)) [0] = Ok (put buf text).
Proof.
  intros Hbuf Ht.
  assert (Hw : forall l, l = put buf text -> buf_write buf 0 (text ++ [0]) = Ok l).
  { intros l ->. rewrite buf_write_ok by (rewrite length_app; cbn; lia).
    unfold put. cbn. rewrite <- app_assoc. cbn.
    assert (Hn : length (text ++ [0]) = S (length text)) by (rewrite length_app; cbn; lia).
    by rewrite Hn. }
  exists (put buf text). split; [by apply Hw|]. rewrite Nat.min_l by lia.
  rewrite buf_write_ok by (rewrite put_length by lia; cbn; lia).
  unfold put. rewrite take_app_length. f_equal. f_equal.
  rewrite drop_app_ge by (cbn; lia). cbn [length].
  replace (length text + 1 - length text)%nat with 1%nat by lia. done.
Qed.

Lemma captcha_get_ok h r s rnd c fr ars :
  resp_ok s -> length (hk_udata h) = UDATASZ ->
  (length (captcha_text (cstring (rq_path r)) rnd) < IOV_CHUNK)%nat ->
  does p h (req_cells p r ++ resp_cells s ++ c) fr ars (captcha_get (rq r) (rs s) rnd) tt
       h (req_cells p r ++ resp_cells (set_resp s (captcha_text (cstring (rq_path r)) rnd)) ++ c) fr ars.
Proof.
  intros Hs Hu Ht.
  destruct (lookup_lt_is_Some_2 (hk_udata h) UD_CORE_SYSPTR) as [v1 Hv1]; [rewrite Hu; idx|].
  destruct (lookup_lt_is_Some_2 (hk_udata h) UD_CORE_NUM) as [v3 Hv3]; [rewrite Hu; idx|].
  destruct (sprintf_put (rs_scr s) _ Hs Ht) as (l1 & Hw1 & Hw2).
  unfold captcha_get.
  eapply does_bind; [eapply (does_word_load _ 5%nat); reflexivity|].
  eapply does_bind; [apply does_ptr_of|].
  eapply does_bind; [eapply (does_word_load _ 0%nat); reflexivity|].
  eapply does_bind; [apply does_ptr_of|].
  eapply does_bind; [by apply does_udata_load|]. eapply does_bind; [by apply does_udata_load|].
  eapply does_bind; [eapply (does_word_load _ 0%nat); reflexivity|].
  eapply does_bind; [apply does_ptr_of|].
  eapply does_bind; [eapply (does_bytes_load _ 2%nat); reflexivity|]. cbn zeta.
  eapply does_bind; [eapply (does_bytes_write _ 6%nat); [reflexivity|exact Hw1]|].
  eapply does_bind; [eapply (does_bytes_write _ 6%nat); [reflexivity|exact Hw2]|].
  rewrite Nat.min_l by lia.
  eapply does_bind; [eapply (does_word_store _ 5%nat); [reflexivity|idx]|].
  eapply does_bind; [eapply (does_word_store _ 5%nat); [reflexivity|idx]|].
  eapply does_end; [eapply (does_word_store _ 5%nat); [reflexivity|idx]|reflexivity..].
Qed.

Lemma call_action_ok h r s f rnd c fr ars :
  f = FN_captcha_get \/ f = FN_captcha_verify ->
  resp_ok s -> length (hk_udata h) = UDATASZ ->
  (length (captcha_text (cstring (rq_path r)) rnd) < IOV_CHUNK)%nat ->
  does p h (req_cells p r ++ resp_cells s ++ c) fr ars (call_action f (rq r) (rs s) rnd) tt
       h (req_cells p r ++ resp_cells (set_resp s (captcha_text (cstring (rq_path r)) rnd)) ++ c) fr ars.
Proof.
  intros Hf Hs Hu Ht. unfold call_action.
  case_decide; [by apply captcha_get_ok|]. rewrite decide_True by naive_solver.
  change (captcha_verify (rq r) (rs s) rnd) with (captcha_get (rq r) (rs s) rnd).
  by apply captcha_get_ok.
Qed.

(** ** The I/O vector *)
Definition set_iov (v : iov_st) (i : nat) (text : bytes) : iov_st :=
  let len := Z.min (Z.of_nat (length text)) (Z.of_nat IOV_CHUNK) in
  match i with
  | O => IovSt (iv v) (iv0 v) (iv1 v) len (iv_len1 v) (put (iv_buf0 v) (url_piece text)) (iv_buf1 v)
  | _ => IovSt (iv v) (iv0 v) (iv1 v) (iv_len0 v) len (iv_buf0 v) (put (iv_buf1 v) (url_piece text))
  end.

Lemma set_iov_ok v i text : iov_ok v -> iov_ok (set_iov v i text).
Proof.
  intros (H0 & H1 & Hl0 & Hl1). pose proof (url_piece_length text).
  destruct i; repeat split; cbn; rewrite ?put_length by lia; lia.
Qed.

Lemma snprintf_put buf text :
  length buf = IOV_CHUNK ->
  snprintf buf 0 (Z.of_nat IOV_CHUNK) text = Ok (Z.of_nat (length text), put buf (url_piece text)).
Proof.
  intros Hbuf. assert (Hc : (0 < IOV_CHUNK)%nat) by (unfold IOV_CHUNK; lia).
  pose proof (url_piece_length text) as Hlt.
  unfold snprintf. rewrite decide_False by lia.
  replace (Z.to_nat (Z.of_nat IOV_CHUNK - 1)) with (IOV_CHUNK - 1)%nat by lia.
  fold (url_piece text). change (Z.to_nat 0) with 0%nat.
  rewrite buf_write_ok by (rewrite length_app; cbn; lia). cbn.
  unfold put. rewrite <- app_assoc. cbn.
  assert (Hn : length (url_piece text ++ [0]) = S (length (url_piece text)))
    by (rewrite length_app; cbn; lia).
  by rewrite Hn.
Qed.

Lemma iov_printf_ok h v i text c fr ars :
  iov_ok v -> (i < 2)%nat ->
  does p h (iov_cells v ++ c) fr ars (iov_printf (iv v) i text)
       (Z.min (Z.of_nat (length text)) (Z.of_nat IOV_CHUNK))
       h (iov_cells (set_iov v i text) ++ c) fr ars.
Proof.
  intros (H0 & H1 & _) Hi. unfold iov_printf.
  eapply does_bind; [eapply (does_iov_load _ 0%nat); reflexivity|].
  destruct i as [|[|i]]; [| |lia].
  - eapply does_bind; [by apply does_lift|].
    eapply does_bind; [eapply (does_bytes_load _ 1%nat); reflexivity|].
    eapply does_bind; [apply does_lift; by apply snprintf_put|].
    eapply does_bind; [eapply (does_store_at _ 1%nat); reflexivity|]. cbn zeta.
    eapply does_bind; [eapply (does_iov_load _ 0%nat); reflexivity|].
    eapply does_bind; [eapply (does_store_at _ 0%nat); reflexivity|].
    eapply does_end; [apply does_ret|reflexivity..].
  - eapply does_bind; [by apply does_lift|].
    eapply does_bind; [eapply (does_bytes_load _ 2%nat); reflexivity|].
    eapply does_bind; [apply does_lift; by apply snprintf_put|].
    eapply does_bind; [eapply (does_store_at _ 2%nat); reflexivity|]. cbn zeta.
    eapply does_bind; [eapply (does_iov_load _ 0%nat); reflexivity|].
    eapply does_bind; [eapply (does_store_at _ 0%nat); reflexivity|].
    eapply does_end; [apply does_ret|reflexivity..].
Qed.

Lemma gather_ok h v c fr ars :
  iov_ok v ->
  does p h (iov_cells v ++ c) fr ars (gather [(iv0 v, iv_len0 v); (iv1 v, iv_len1 v)])
    (take (Z.to_nat (iv_len0 v)) (iv_buf0 v) ++ take (Z.to_nat (iv_len1 v)) (iv_buf1 v) ++ [])
    h (iov_cells v ++ c) fr ars.
Proof.
  intros (H0 & H1 & Hl0 & Hl1). cbn [gather].
  eapply does_bind; [eapply (does_bytes_load _ 1%nat); reflexivity|].
  eapply does_bind; [apply does_lift, buf_read_ok; lia|].
  eapply does_bind; [|apply does_ret].
  eapply does_bind; [eapply (does_bytes_load _ 2%nat); reflexivity|].
  eapply does_bind; [apply does_lift, buf_read_ok; lia|].
  eapply does_bind; [apply does_ret|]. apply does_ret.
Qed.

(** ** Receiving *)
Record msg_st := MsgSt {
  mg : loc; mg_name : loc; mg_nl : Z; mg_nmb : bytes; mg_iov : option iov_st
}.

Definition msg_cells (s : msg_st) : list (loc * block) :=
  [(mg s, BMsghdr (Msghdr (Some (mg_name s)) (mg_nl s) (iv <$> mg_iov s)
                     (match mg_iov s with None => 0 | Some _ => 2 end)));
   (mg_name s, BBytes (mg_nmb s))] ++ from_option iov_cells [] (mg_iov s).

Definition msg_ok (s : msg_st) : Prop :=
  match mg_iov s with None => True | Some v => iov_ok v end.

(** What [recvmsg] stores at the start of a buffer. *)
Definition fill (buf data : bytes) : bytes := data ++ drop (length data) buf.

(** The vector after [recvmsg]: both lengths reset, the first 4096 bytes received
    in the first buffer, the rest in the second. *)
Definition recv_iov (v : iov_st) (data : bytes) : iov_st :=
  IovSt (iv v) (iv0 v) (iv1 v) (Z.of_nat IOV_CHUNK) (Z.of_nat IOV_CHUNK)
    (fill (iv_buf0 v) (take IOV_CHUNK data)) (fill (iv_buf1 v) (take IOV_CHUNK (drop IOV_CHUNK data))).

Definition fresh_iov (rv : received) : iov_st :=
  IovSt (rv_iov rv) (rv_buf0 rv) (rv_buf1 rv) (Z.of_nat IOV_CHUNK) (Z.of_nat IOV_CHUNK) zeros zeros.

Definition recv_msg (s : msg_st) (rv : received) : msg_st :=
  MsgSt (mg s) (mg_name s) (rv_namelen rv) (mg_nmb s)
    (Some (recv_iov (default (fresh_iov rv) (mg_iov s)) (rv_data rv))).

Lemma fill_length buf data : (length data <= length buf)%nat -> length (fill buf data) = length buf.
Proof. intros H. unfold fill. rewrite length_app, length_drop. lia. Qed.

Lemma recv_iov_ok v data : iov_ok v -> iov_ok (recv_iov v data).
Proof.
  intros (H0 & H1 & _). repeat split; cbn; rewrite ?fill_length; rewrite ?length_take; lia.
Qed.

Lemma fresh_iov_ok rv : iov_ok (fresh_iov rv).
Proof. repeat split; cbn; rewrite ?length_replicate; lia. Qed.

Lemma recv_msg_ok s rv : msg_ok s -> msg_ok (recv_msg s rv).
Proof.
  intros Hs. unfold msg_ok in *. cbn. apply recv_iov_ok.
  destruct (mg_iov s); [done|apply fresh_iov_ok].
Qed.

Lemma buf_write_fill buf data :
  (length data <= length buf)%nat -> buf_write buf 0 data = Ok (fill buf data).
Proof. intros H. by rewrite buf_write_ok. Qed.

Lemma scatter_ok h v data c fr ars :
  iov_ok v -> iv_len0 v = Z.of_nat IOV_CHUNK -> iv_len1 v = Z.of_nat IOV_CHUNK ->
  does p h (iov_cells v ++ c) fr ars (scatter [(iv0 v, iv_len0 v); (iv1 v, iv_len1 v)] data) tt
       h (iov_cells (recv_iov v data) ++ c) fr ars.
Proof.
  intros (H0 & H1 & _) Hl0 Hl1. cbn [scatter]. rewrite Hl0, Hl1, Nat2Z.id.
  eapply does_bind; [eapply (does_bytes_write _ 1%nat); [reflexivity|apply buf_write_fill; rewrite length_take; lia]|].
  eapply does_bind; [eapply (does_bytes_write _ 2%nat); [reflexivity|apply buf_write_fill; rewrite length_take; lia]|].
  eapply does_end; [apply does_ret|done| |done..].
  unfold iov_cells. cbn. by rewrite Hl0, Hl1.
Qed.

Definition recv_hook (s : msg_st) (rv : received) (h : hook) : hook :=
  match mg_iov s with
  | None => upd_mp (fun l => rv_buf1 rv :: rv_buf0 rv :: rv_iov rv :: l) h
  | Some _ => h
  end.
Definition recv_fr (s : msg_st) (rv : received) (fr : list loc) : list loc :=
  match mg_iov s with
  | None => fr
  | Some _ => rv_iov rv :: rv_buf0 rv :: rv_buf1 rv :: fr
  end.

Lemma recvmsg_tail_ok h s rv v0 c fr ars :
  iov_ok v0 -> iv_len0 v0 = Z.of_nat IOV_CHUNK -> iv_len1 v0 = Z.of_nat IOV_CHUNK ->
  does p h (msg_cells (MsgSt (mg s) (mg_name s) (mg_nl s) (mg_nmb s) (Some v0)) ++ c) fr ars
    (iov ← iov_load (iv v0);
     _ ← scatter iov (rv_data rv);
     m ← msg_load (mg s);
     _ ← block_store (mg s) (BMsghdr (Msghdr (msg_name m) (rv_namelen rv) (msg_iov m) (msg_iovlen m)));
     mret (rv_n rv)) (rv_n rv)
    h (msg_cells (MsgSt (mg s) (mg_name s) (rv_namelen rv) (mg_nmb s) (Some (recv_iov v0 (rv_data rv)))) ++ c)
    fr ars.
Proof.
  intros Hv Hl0 Hl1.
  eapply does_bind; [eapply (does_iov_load _ 2%nat); reflexivity|].
  eapply does_bind.
  { eapply does_perm; [eapply (scatter_ok h v0 (rv_data rv)); done| |done| |done].
    - unfold msg_cells. cbn [mg mg_name mg_nl mg_nmb mg_iov from_option]. rewrite <- app_assoc.
      symmetry. apply (Permutation_app_swap_app (iov_cells v0)).
    - reflexivity. }
  eapply does_perm; [|apply (Permutation_app_swap_app _ [_; _])|done|reflexivity|done].
  eapply does_bind; [eapply (does_msg_load _ 0%nat); reflexivity|]. cbn [msg_name msg_iov msg_iovlen].
  eapply does_bind; [eapply (does_store_at _ 0%nat); reflexivity|].
  eapply does_end; [apply does_ret|done| |done..].
  reflexivity.
Qed.

Lemma recvmsg_ok h s rv c fr ars :
  msg_ok s -> hk_data h ≠ None -> hk_udata h !! UD_CORE_MSGHDR = Some (ptr (mg s)) ->
  does p h (msg_cells s ++ c) (rv_iov rv :: rv_buf0 rv :: rv_buf1 rv :: fr) ars
       (ioqueue_socket_recvmsg p rv) (rv_n rv)
       (recv_hook s rv h) (msg_cells (recv_msg s rv) ++ c) (recv_fr s rv fr) ars.
Proof.
  intros Hs Hd Hu. unfold ioqueue_socket_recvmsg.
  eapply does_bind; [apply does_hook_load|].
  destruct (hk_data h) as [a|] eqn:Ha; [|done].
  eapply does_bind; [by apply does_udata_load|]. rewrite decide_False by done.
  eapply does_bind; [apply does_ptr_of|].
  destruct s as [g nm nl nmb [v|]].
  - eapply does_bind; [eapply (does_msg_load _ 0%nat); reflexivity|]. cbn.
    eapply does_bind.
    { eapply does_bind; [eapply (does_iov_load _ 2%nat); reflexivity|]. cbn.
      eapply does_bind; [eapply (does_store_at _ 2%nat); reflexivity|].
      eapply does_end; [apply does_ret|done|reflexivity|done..]. }
    apply (recvmsg_tail_ok h (MsgSt g nm nl nmb (Some v)) rv
             (IovSt (iv v) (iv0 v) (iv1 v) (Z.of_nat IOV_CHUNK) (Z.of_nat IOV_CHUNK) (iv_buf0 v) (iv_buf1 v)));
      [|done..].
    destruct Hs as (H0 & H1 & _). repeat split; cbn; lia.
  - eapply does_bind; [eapply (does_msg_load _ 0%nat); reflexivity|]. cbn [mg_iov fmap option_fmap option_map msg_iov msg_name msg_namelen msg_iovlen mg_name mg_nl].
    eapply does_bind.
    { eapply does_bind; [eapply (does_store_at _ 0%nat); reflexivity|].
      eapply does_bind; [apply does_zalloc|].
      eapply does_bind; [eapply (does_store_at _ 1%nat); reflexivity|].
      eapply does_bind; [apply does_zalloc|]. eapply does_bind; [apply does_zalloc|].
      eapply does_bind; [eapply (does_store_at _ 2%nat); reflexivity|].
      eapply does_end; [apply does_ret|reflexivity..]. }
    eapply does_perm; [apply (recvmsg_tail_ok _ (MsgSt g nm nl nmb None) rv (fresh_iov rv)); [|done..]| |done|done|done].
    + apply fresh_iov_ok.
    + cbn. solve_Permutation.
Qed.

(** ** Answering *)
Definition set_path (r : req_st) (x : bytes) : req_st :=
  ReqSt (rq r) (rq_u r) (rq_p r) (rq_q r) (rq_s r) (rq_ulen r) (Z.of_nat (length x)) (rq_qlen r)
    (rq_uri r) (put (rq_path r) x) (rq_query r) (rq_scr r).
Definition set_query (r : req_st) (x : bytes) : req_st :=
  ReqSt (rq r) (rq_u r) (rq_p r) (rq_q r) (rq_s r) (rq_ulen r) (rq_plen r) (Z.of_nat (length x))
    (rq_uri r) (rq_path r) (put (rq_query r) x) (rq_scr r).

(** The URL of the request record. *)
Definition req_url (r : req_st) : bytes := take (Z.to_nat (rq_ulen r)) (rq_uri r).

(** A piece of the URL, cut to what fits its buffer. *)
Definition url_field (r : req_st) (f : nat * nat) : bytes :=
  take (Nat.min f.2 (IOV_CHUNK - 1)) (drop f.1 (rq_uri r)).

(** The request record after the URL has been split: the query is stored only when
    there is one. *)
Definition split_url (r : req_st) (path query : nat * nat) : req_st :=
  let r := set_path r (url_field r path) in
  if decide (0 < query.2)%nat then set_query r (url_field r query) else r.

Record answer := Answer {
  an_code : Z; an_text : bytes; an_len : Z; an_req : req_st; an_resp : resp_st; an_route : array
}.

(** What [http_respond] computes. *)
Definition answer_of (ar : array) (r : req_st) (s : resp_st) (rnd : Z) : answer :=
  match ps_url ps (req_url r) with
  | None => Answer 200 [] 0 r s ar
  | Some (path, query) =>
      if decide (0 < path.2)%nat then
        let r := split_url r path query in
        let pth := cstring (rq_path r) in
        let '(f, ar) := array_get ar (pth ++ [0]) in
        if decide (f = 0)
        then Answer 403 no_action_text (Z.of_nat (length no_action_text)) r s ar
        else
          let text := captcha_text pth rnd in
          Answer 200 text (Z.of_nat (length text)) r (set_resp s text) ar
      else Answer 200 [] 0 r s ar
  end.

(** The route table holds the module's actions, under keys short enough for the
    answer to fit its buffer, and zero entries. *)
Definition routes_ok (ar : array) : Prop :=
  forall k v, ar !! k = Some v ->
    v = 0 \/ ((v = FN_captcha_get \/ v = FN_captcha_verify) /\ (length k <= 4000)%nat).

(** [http_parser_parse_url] answers pieces of the URL it was given. *)
Definition url_in_range : Prop :=
  forall u path query, ps_url ps u = Some (path, query) ->
    (path.1 + path.2 <= length u)%nat /\ (query.1 + query.2 <= length u)%nat.

Lemma set_path_ok r x : req_ok r -> (length x < IOV_CHUNK)%nat -> req_ok (set_path r x).
Proof. intros (Hu & Hp & Hq & Hl) Hx. repeat split; cbn; rewrite ?put_length; lia. Qed.

Lemma set_query_ok r x : req_ok r -> (length x < IOV_CHUNK)%nat -> req_ok (set_query r x).
Proof. intros (Hu & Hp & Hq & Hl) Hx. repeat split; cbn; rewrite ?put_length; lia. Qed.

Lemma url_field_length r f : (length (url_field r f) < IOV_CHUNK)%nat.
Proof. unfold url_field. rewrite length_take. unfold IOV_CHUNK. lia. Qed.

Lemma split_url_ok r path query : req_ok r -> req_ok (split_url r path query).
Proof.
  intros Hr. unfold split_url. cbn zeta.
  assert (H1 : req_ok (set_path r (url_field r path))).
  { apply set_path_ok; [done|apply url_field_length]. }
  case_decide; [|done]. apply set_query_ok; [done|apply (url_field_length r)].
Qed.

Lemma split_url_rq r path query : rq (split_url r path query) = rq r.
Proof. unfold split_url. cbn zeta. by case_decide. Qed.

Lemma routes_ok_grows ar ar' : routes_ok ar -> grows ar ar' -> routes_ok ar'.
Proof. intros Hr [_ Hg] k v [Hv| ->]%Hg; [by apply (Hr k)|by left]. Qed.

Lemma array_get_routes_ok ar k f ar' :
  routes_ok ar -> array_get ar k = (f, ar') ->
  routes_ok ar' /\ grows ar ar' /\
  (f = 0 \/ ((f = FN_captcha_get \/ f = FN_captcha_verify) /\ (length k <= 4000)%nat)).
Proof.
  intros Hr Hget. pose proof (array_get_grows ar k) as Hg. rewrite Hget in Hg. cbn in Hg.
  split; [by eapply routes_ok_grows|]. split; [done|]. revert Hget.
  unfold array_get. destruct (ar !! k) as [v|] eqn:Hk; intros [= <- _]; [by apply (Hr k)|by left].
Qed.

(** The text of an answer has no NUL and fits its buffer. *)
Lemma str_no_nul s : forallb (fun b => negb (b =? 0)) (str s) = true -> 0 ∉ str s.
Proof.
  rewrite forallb_forall. intros H Hin. apply list_elem_of_In in Hin. by apply H in Hin.
Qed.

(** Printed numbers hold nothing below the minus sign. *)
Lemma digits_no c fuel z acc : c < 48 -> c ∉ acc -> 0 <= z -> c ∉ digits fuel z acc.
Proof.
  intros Hc. revert z acc. induction fuel as [|fuel IH]; intros z acc Hacc Hz; cbn; [done|].
  pose proof (Z.mod_pos_bound z 10).
  assert (c ∉ 48 + z mod 10 :: acc) by (rewrite elem_of_cons; intros [|]; [lia|done]).
  case_decide; [done|]. apply IH; [done|]. by apply Z.div_pos.
Qed.

Lemma print_dec_no c z : c < 45 -> c ∉ print_dec z.
Proof.
  intros Hc. assert (H : forall y, 0 <= y -> c ∉ digits 20 y []).
  { intros y Hy. apply digits_no; [lia|apply not_elem_of_nil|done]. }
  unfold print_dec. case_decide as Hz; [|apply H; lia].
  apply not_elem_of_cons. split; [lia|apply H; lia].
Qed.

Lemma captcha_text_no_nul path rnd : 0 ∉ path -> 0 ∉ captcha_text path rnd.
Proof.
  intros Hp. unfold captcha_text. rewrite !not_elem_of_app. split_and!; try done.
  - by apply str_no_nul.
  - by apply str_no_nul.
  - by apply print_dec_no.
  - by apply str_no_nul.
Qed.

Lemma cstring_id l : 0 ∉ l -> cstring l = l.
Proof.
  induction l as [|b l IH]; cbn; [done|]. intros Hn.
  rewrite decide_False by set_solver. by rewrite IH by set_solver.
Qed.

Lemma captcha_text_length path rnd :
  (length (captcha_text path rnd) <= length path + 37)%nat.
Proof.
  unfold captcha_text. rewrite !length_app. pose proof (print_dec_length rnd).
  assert (length (str "PATH [") = 6%nat) as -> by reflexivity.
  assert (length (str "], RND [") = 8%nat) as -> by reflexivity.
  assert (length (str "]!") = 2%nat) as -> by reflexivity. lia.
Qed.

Lemma cstring_put_field (r : req_st) x : cstring (rq_path (set_path r x)) = cstring x.
Proof. apply put_cstring. Qed.

Lemma split_url_path r path query :
  rq_path (split_url r path query) = put (rq_path r) (url_field r path).
Proof. unfold split_url. cbn zeta. by case_decide. Qed.

Lemma url_field_read r f :
  req_ok r -> (f.1 + f.2 <= length (req_url r))%nat ->
  buf_read (rq_uri r) f.1 (Nat.min f.2 (IOV_CHUNK - 1)) = Ok (url_field r f) /\
  length (url_field r f) = Nat.min f.2 (IOV_CHUNK - 1).
Proof.
  intros (Hu & _ & _ & Hl) Hf. unfold req_url in Hf. rewrite length_take in Hf.
  split; [apply buf_read_ok; lia|]. unfold url_field. rewrite length_take, length_drop. lia.
Qed.

(** Splitting the URL into the path and query buffers. *)
Lemma split_query_ok h r x c fr ars (n : nat) :
  req_ok r -> (length x < IOV_CHUNK)%nat -> length x = n ->
  does p h (req_cells p r ++ c) fr ars
    (qw ← word_load (rq r) D_MOD_REQ_QUERY;
     query ← ptr_of qw;
     x ← liftS (Ok x);
     _ ← bytes_write query 0 x;
     _ ← bytes_write query n [0];
     word_store (rq r) D_MOD_REQ_QLEN (Z.of_nat n)) tt
    h (req_cells p (set_query r x) ++ c) fr ars.
Proof.
  intros (_ & _ & Hq & _) Hx <-.
  destruct (put_writes (rq_query r) x) as (l1 & Hw1 & Hw2); [lia|].
  eapply does_bind; [eapply (does_word_load _ 0%nat); reflexivity|].
  eapply does_bind; [apply does_ptr_of|]. eapply does_bind; [by apply does_lift|].
  eapply does_bind; [eapply (does_bytes_write _ 3%nat); [reflexivity|exact Hw1]|].
  eapply does_bind; [eapply (does_bytes_write _ 3%nat); [reflexivity|exact Hw2]|].
  eapply does_end; [eapply (does_word_store _ 0%nat); [reflexivity|idx]|reflexivity..].
Qed.

Lemma http_respond_ok h r s e c fr ars rt ar :
  req_ok r -> resp_ok s -> length (hk_udata h) = UDATASZ ->
  hk_udata h !! UD_MOD_HTTP_ROUTE = Some (ptr rt) -> ars !! rt = Some ar -> routes_ok ar ->
  url_in_range ->
  let a := answer_of ar r s (hi_rnd e) in
  does p h (req_cells p r ++ resp_cells s ++ c) fr ars (http_respond ps p (rq r) (rs s) e)
    (an_code a, an_text a, an_len a)
    h (req_cells p (an_req a) ++ resp_cells (an_resp a) ++ c) fr (<[rt := an_route a]> ars).
Proof.
  intros Hr Hs Hu Hrt Har Hroutes Hrange a. pose proof Hr as (Huri & Hpath & _ & Hulen).
  unfold http_respond.
  eapply does_bind; [eapply (does_word_load _ 0%nat); reflexivity|].
  eapply does_bind; [apply does_ptr_of|].
  eapply does_bind; [eapply (does_word_load _ 0%nat); reflexivity|].
  eapply does_bind; [by apply does_udata_load|]. rewrite decide_False by done.
  eapply does_bind; [apply does_ptr_of|].
  eapply does_bind; [eapply (does_bytes_load _ 1%nat); reflexivity|].
  eapply does_bind; [apply does_lift, buf_read_ok; lia|]. rewrite drop_0. fold (req_url r).
  subst a. unfold answer_of.
  destruct (ps_url ps (req_url r)) as [[[poff plen] [qoff qlen]]|] eqn:Hurl.
  2: { eapply does_end; [apply does_ret|done..|]. cbn. by rewrite insert_id. }
  destruct (Hrange _ _ _ Hurl) as [Hpr Hqr]. cbn [fst snd] in *.
  case_decide as Hplen.
  2: { eapply does_end; [apply does_ret|done..|]. cbn. by rewrite insert_id. }
  destruct (url_field_read r (poff, plen) Hr Hpr) as [Hpread Hpl].
  destruct (url_field_read r (qoff, qlen) Hr Hqr) as [Hqread Hql]. cbn [fst snd] in *.
  pose proof (url_field_length r (poff, plen)) as Hplt.
  destruct (put_writes (rq_path r) (url_field r (poff, plen))) as (l1 & Hw1 & Hw2); [lia|].
  rewrite <- Hpl.
  eapply does_bind; [eapply (does_word_load _ 0%nat); reflexivity|].
  eapply does_bind; [apply does_ptr_of|].
  eapply does_bind; [apply does_lift; rewrite Hpl; exact Hpread|].
  eapply does_bind; [eapply (does_bytes_write _ 2%nat); [reflexivity|exact Hw1]|].
  eapply does_bind; [eapply (does_bytes_write _ 2%nat); [reflexivity|exact Hw2]|].
  eapply does_bind; [eapply (does_word_store _ 0%nat); [reflexivity|idx]|]. cbn zeta.
  set (r1 := set_path r (url_field r (poff, plen))).
  assert (Hr1 : req_ok r1) by (by apply set_path_ok).
  set (r2 := split_url r (poff, plen) (qoff, qlen)).
  assert (Hr2 : req_ok r2) by (by apply split_url_ok).
  eapply (does_bind _ _ _ _ _ _ tt _ h (req_cells p r2 ++ resp_cells s ++ c) fr ars).
  { unfold r2, split_url. cbn zeta. cbn [snd]. fold r1. destruct (decide (0 < qlen)%nat) as [Hq|Hq].
    - rewrite decide_True by (unfold IOV_CHUNK; lia). rewrite Hqread, <- Hql.
      apply (split_query_ok h r1); [done|apply (url_field_length r)|done].
    - rewrite decide_False by lia. apply does_ret. }
  assert (Hrq : rq r = rq r2) by (unfold r2; by rewrite split_url_rq). rewrite Hrq.
  assert (Hpp : rq_p r = rq_p r2) by (unfold r2, split_url; cbn zeta; by case_decide). rewrite Hpp.
  eapply does_bind; [eapply (does_bytes_load _ 2%nat); reflexivity|].
  eapply does_bind; [by apply does_array_load|].
  set (pth := cstring (rq_path r2)).
  destruct (array_get ar (pth ++ [0])) as [f ar'] eqn:Hget.
  destruct (array_get_routes_ok _ _ _ _ Hroutes Hget) as (_ & Hsub & Hf).
  eapply does_bind; [by eapply does_array_store|].
  case_decide as Hf0; [eapply does_end; [apply does_ret|done..]|].
  destruct Hf as [?|[Hf Hlen]]; [done|].
  assert (Htext : (length (captcha_text pth (hi_rnd e)) < IOV_CHUNK)%nat).
  { pose proof (captcha_text_length pth (hi_rnd e)). rewrite length_app in Hlen. cbn in Hlen.
    unfold IOV_CHUNK. lia. }
  eapply does_bind; [by apply call_action_ok|]. fold pth.
  eapply does_bind; [eapply (does_word_load _ 5%nat); reflexivity|].
  eapply does_bind; [eapply (does_word_load _ 5%nat); reflexivity|].
  eapply does_bind; [apply does_ptr_of|].
  eapply does_bind; [eapply (does_bytes_load _ 6%nat); reflexivity|].
  eapply does_bind; [eapply (does_word_load _ 5%nat); reflexivity|].
  cbn [an_code an_text an_len an_req an_resp an_route set_resp rs_scr].
  rewrite put_cstring, cstring_id; [apply does_ret|].
  apply captcha_text_no_nul, cstring_no_nul.
Qed.

(** ** A session *)
Record sess_st := SessSt {
  ss_msg : msg_st; ss_hs : option loc; ss_hp : option loc;
  ss_req : option req_st; ss_resp : option resp_st
}.

Definition sess_cells (s : sess_st) : list (loc * block) :=
  msg_cells (ss_msg s) ++ from_option (req_cells p) [] (ss_req s) ++
  from_option resp_cells [] (ss_resp s).

Definition sess_ok (s : sess_st) : Prop :=
  msg_ok (ss_msg s) /\ from_option req_ok True (ss_req s) /\ from_option resp_ok True (ss_resp s).

(** The pointers to them in the hook; [rt] is the route table. *)
Record sess_udata (rt : loc) (s : sess_st) (h : hook) : Prop := {
  su_len : length (hk_udata h) = UDATASZ;
  su_msg : hk_udata h !! UD_CORE_MSGHDR = Some (ptr (mg (ss_msg s)));
  su_route : hk_udata h !! UD_MOD_HTTP_ROUTE = Some (ptr rt);
  su_hs : hk_udata h !! UD_MOD_HS = Some (word_of (ss_hs s));
  su_hp : hk_udata h !! UD_MOD_HP = Some (word_of (ss_hp s));
  su_req : hk_udata h !! UD_MOD_REQ = Some (word_of (rq <$> ss_req s));
  su_resp : hk_udata h !! UD_MOD_RESP = Some (word_of (rs <$> ss_resp s))
}.

(** The addresses left over when a structure was already there. *)
Definition unused {X : Type} (o : option X) (l : list loc) : list loc :=
  match o with Some _ => l | None => [] end.

Definition set_opt (i : nat) (o : option loc) (l : loc) (f : list loc -> list loc) (h : hook) : hook :=
  match o with Some _ => h | None => set_udata i (ptr l) (upd_mp f h) end.

Definition opaque_cells (o : option loc) (l : loc) : list (loc * block) :=
  match o with Some _ => [] | None => [(l, BOpaque)] end.

Lemma opaque_ok h i o l c fr ars :
  hk_udata h !! i = Some (word_of o) ->
  does p h c (l :: fr) ars
    (udata_or p i (_ ← hook_malloc p l BOpaque; mret l)) (default l o)
    (set_opt i o l (cons l) h) (opaque_cells o l ++ c) (unused o [l] ++ fr) ars.
Proof.
  intros Hi. destruct o as [l'|]; cbn [word_of default unused set_opt opaque_cells] in *.
  - by apply udata_or_set.
  - apply udata_or_new; [done|].
    eapply does_bind; [apply (does_zalloc h l BOpaque)|]. apply does_ret.
Qed.

Lemma req_ready_ok h e o c fr ars :
  hk_udata h !! UD_MOD_REQ = Some (word_of (rq <$> o)) ->
  let frs := [hi_req e; hi_uri e; hi_path e; hi_query e; hi_scratch e] in
  does p h (from_option (req_cells p) [] o ++ c) (frs ++ fr) ars
    (udata_or p UD_MOD_REQ (new_req p e)) (rq (default (fresh_req e) o))
    (set_opt UD_MOD_REQ (rq <$> o) (hi_req e)
       (fun l => hi_scratch e :: hi_query e :: hi_path e :: hi_uri e :: hi_req e :: l) h)
    (req_cells p (default (fresh_req e) o) ++ c) (unused o frs ++ fr) ars.
Proof.
  intros Hi frs. destruct o as [r|]; cbn [fmap option_fmap option_map word_of default unused set_opt] in *.
  - by apply udata_or_set.
  - apply udata_or_new; [done|]. apply new_req_ok.
Qed.

Lemma resp_ready_ok h e o c fr ars :
  hk_udata h !! UD_MOD_RESP = Some (word_of (rs <$> o)) ->
  let frs := [hi_resp e; hi_rscratch e] in
  does p h (from_option resp_cells [] o ++ c) (frs ++ fr) ars
    (udata_or p UD_MOD_RESP (new_resp p e)) (rs (default (fresh_resp e) o))
    (set_opt UD_MOD_RESP (rs <$> o) (hi_resp e) (fun l => hi_rscratch e :: hi_resp e :: l) h)
    (resp_cells (default (fresh_resp e) o) ++ c) (unused o frs ++ fr) ars.
Proof.
  intros Hi frs. destruct o as [r|]; cbn [fmap option_fmap option_map word_of default unused set_opt] in *.
  - by apply udata_or_set.
  - apply udata_or_new; [done|]. apply new_resp_ok.
Qed.

Lemma set_opt_other i j o l f h v :
  i <> j -> hk_udata h !! j = v -> hk_udata (set_opt i o l f h) !! j = v.
Proof. intros Hij Hj. destruct o; cbn; [done|]. by rewrite list_lookup_insert_ne. Qed.

Lemma set_opt_same i o l f h :
  length (hk_udata h) = UDATASZ -> (i < UDATASZ)%nat -> hk_udata h !! i = Some (word_of o) ->
  hk_udata (set_opt i o l f h) !! i = Some (ptr (default l o)).
Proof. intros Hl Hi Ho. destruct o; cbn; [done|]. rewrite list_lookup_insert_eq; [done|lia]. Qed.

Lemma set_opt_len i o l f h : length (hk_udata (set_opt i o l f h)) = length (hk_udata h).
Proof. destruct o; cbn; [done|]. by rewrite length_insert. Qed.

(** What [http_on_data_default] computes from the session, the data in the first
    buffer and the route table. *)
Definition http_answer (s : sess_st) (e : http_in) (data : bytes) (ar : array) : answer :=
  answer_of ar (apply_urls data (ps_execute ps data).1.1 (default (fresh_req e) (ss_req s)))
    (default (fresh_resp e) (ss_resp s)) (hi_rnd e).

Definition body_len (a : answer) : Z := Z.min (Z.of_nat (length (an_text a))) (Z.of_nat IOV_CHUNK).
Definition http_header (a : answer) : bytes :=
  resp_header (an_code a) (ps_status ps (an_code a)) (body_len a) (str "text/plain").

Definition http_after (s : sess_st) (v : iov_st) (e : http_in) (data : bytes) (ar : array) : sess_st :=
  let a := http_answer s e data ar in
  let m := ss_msg s in
  SessSt (MsgSt (mg m) (mg_name m) (mg_nl m) (mg_nmb m)
            (Some (if decide (0 < an_len a)
                   then set_iov (set_iov v 1 (an_text a)) 0 (http_header a) else v)))
    (Some (default (hi_settings e) (ss_hs s))) (Some (default (hi_parser e) (ss_hp s)))
    (Some (an_req a)) (Some (an_resp a)).

Definition http_ret (a : answer) : Z :=
  if decide (0 < an_len a)
  then body_len a + Z.min (Z.of_nat (length (http_header a))) (Z.of_nat IOV_CHUNK) else 0.

(** The parser reports pieces of the data it was given. *)
Definition exec_in_range : Prop :=
  forall data, Forall (fun ol => (ol.1 + ol.2 <= length data)%nat) (ps_execute ps data).1.1.

End session.
