(* ===== verification/HttpRun.v ===== *)
(** * Runs of the HTTP handler

    What [http_on_data_default] and [hook_on_data_test] (src/modules/http/mod_http.c)
    do to a whole session, from the lemmas of HttpSession.v. *)
From S2P Require Import Prelude NodeHeap CLib Assoc Hook Server IoSocket Http SessMem HttpSession.

#[local] Open Scope Z_scope.

Section run.
Context (ps : parser) (p : loc).

(** The structures a first request makes. *)
Definition http_frs (e : http_in) : list loc :=
  [hi_settings e; hi_req e; hi_uri e; hi_path e; hi_query e; hi_scratch e; hi_parser e; hi_resp e;
   hi_rscratch e].

Definition http_hook (s : sess_st) (e : http_in) (h : hook) : hook :=
  let h := set_opt UD_MOD_HS (ss_hs s) (hi_settings e) (cons (hi_settings e)) h in
  let h := set_opt UD_MOD_REQ (rq <$> ss_req s) (hi_req e)
    (fun l => hi_scratch e :: hi_query e :: hi_path e :: hi_uri e :: hi_req e :: l) h in
  let h := set_opt UD_MOD_HP (ss_hp s) (hi_parser e) (cons (hi_parser e)) h in
  set_opt UD_MOD_RESP (rs <$> ss_resp s) (hi_resp e) (fun l => hi_rscratch e :: hi_resp e :: l) h.

Ltac udata := repeat (apply set_opt_other; [discriminate|]); assumption.

Lemma answer_of_rq ar r s rnd :
  rq (an_req (answer_of ps ar r s rnd)) = rq r /\ rs (an_resp (answer_of ps ar r s rnd)) = rs s.
Proof.
  unfold answer_of. destruct (ps_url ps (req_url r)) as [[path query]|]; [|done].
  case_decide; [|done]. destruct (array_get _ _) as [f ar'].
  case_decide; cbn; by rewrite split_url_rq.
Qed.

Lemma http_hook_udata rt s v e data ar h :
  sess_udata rt s h -> sess_udata rt (http_after ps s v e data ar) (http_hook s e h).
Proof.
  intros [Hl Hm Hr Hhs Hhp Hq Hp]. unfold http_hook, http_after, http_answer. cbn zeta.
  destruct (answer_of_rq ar (apply_urls data (ps_execute ps data).1.1 (default (fresh_req e) (ss_req s)))
              (default (fresh_resp e) (ss_resp s)) (hi_rnd e)) as [Hrq Hrs].
  split; cbn [ss_msg mg ss_hs ss_hp ss_req ss_resp fmap option_fmap option_map word_of].
  - by rewrite !set_opt_len.
  - udata.
  - udata.
  - do 3 (apply set_opt_other; [discriminate|]). apply set_opt_same; [done|idx|done].
  - apply set_opt_other; [discriminate|]. apply set_opt_same; [by rewrite !set_opt_len|idx|udata].
  - rewrite Hrq, apply_urls_rq. do 2 (apply set_opt_other; [discriminate|]).
    etransitivity; [apply set_opt_same; [by rewrite !set_opt_len|idx|udata]|].
    by destruct (ss_req s).
  - rewrite Hrs. etransitivity; [apply set_opt_same; [by rewrite !set_opt_len|idx|udata]|].
    by destruct (ss_resp s).
Qed.

Lemma default_req_ok s e : sess_ok s -> req_ok (default (fresh_req e) (ss_req s)).
Proof. intros (_ & H & _). destruct (ss_req s); [done|apply fresh_req_ok]. Qed.

Lemma default_resp_ok s e : sess_ok s -> resp_ok (default (fresh_resp e) (ss_resp s)).
Proof. intros (_ & _ & H). destruct (ss_resp s); [done|apply fresh_resp_ok]. Qed.

(** Writing the answer into the vector. *)
Lemma http_print_ok h v a c fr ars :
  iov_ok v ->
  does p h (iov_cells v ++ c) fr ars
    (if decide (0 < an_len a) then
       (n1 ← iov_printf (iv v) 1 (an_text a);
        n0 ← iov_printf (iv v) 0 (resp_header (an_code a) (ps_status ps (an_code a)) n1 (str "text/plain"));
        mret (n1 + n0))
     else mret 0) (http_ret ps a)
    h (iov_cells (if decide (0 < an_len a)
                  then set_iov (set_iov v 1 (an_text a)) 0 (http_header ps a) else v) ++ c) fr ars.
Proof.
  intros Hv. unfold http_ret. case_decide; [|apply does_ret].
  eapply does_bind; [apply iov_printf_ok; [done|lia]|].
  eapply does_bind; [|apply does_ret].
  apply (iov_printf_ok p h (set_iov v 1 (an_text a)) 0); [by apply set_iov_ok|lia].
Qed.

(** A run from the same state in another order. *)
Lemma does_from {A : Type} h c0 c fr0 fr ars (op : st mem A) a h' c' fr' ars' :
  does p h c0 fr0 ars op a h' c' fr' ars' -> c ≡ₚ c0 -> fr ≡ₚ fr0 ->
  does p h c fr ars op a h' c' fr' ars'.
Proof. intros H Hc Hf. eapply does_perm; [exact H|done|done|done|done]. Qed.

(** What [http_on_data_ready] leaves: the message header, the structures it has made or
    found, and the addresses it has not used. *)
Definition ready_hook (s : sess_st) (e : http_in) (h : hook) : hook :=
  set_opt UD_MOD_HP (ss_hp s) (hi_parser e) (cons (hi_parser e))
    (set_opt UD_MOD_REQ (rq <$> ss_req s) (hi_req e)
       (fun l => hi_scratch e :: hi_query e :: hi_path e :: hi_uri e :: hi_req e :: l)
       (set_opt UD_MOD_HS (ss_hs s) (hi_settings e) (cons (hi_settings e)) h)).
Definition head_cells (s : sess_st) (v : iov_st) : list (loc * block) :=
  [(mg (ss_msg s), BMsghdr (Msghdr (Some (mg_name (ss_msg s))) (mg_nl (ss_msg s)) (Some (iv v)) 2));
   (mg_name (ss_msg s), BBytes (mg_nmb (ss_msg s)))].
Definition ready_cells (s : sess_st) (e : http_in) : list (loc * block) :=
  opaque_cells (ss_hp s) (hi_parser e) ++ opaque_cells (ss_hs s) (hi_settings e).
Definition ready_fr (s : sess_st) (e : http_in) : list loc :=
  unused (ss_hs s) [hi_settings e] ++
  unused (ss_req s) [hi_req e; hi_uri e; hi_path e; hi_query e; hi_scratch e] ++ unused (ss_hp s) [hi_parser e].

Lemma http_on_data_ready_ok rt h s v e c fr ars nread :
  sess_udata rt s h -> mg_iov (ss_msg s) = Some v -> hk_udata h !! UD_CORE_NREAD = Some nread ->
  does p h (sess_cells p s ++ c) (http_frs e ++ fr) ars (http_on_data_ready p e)
    (rq (default (fresh_req e) (ss_req s)), iv v, iv_buf0 v, nread)
    (ready_hook s e h)
    (iov_cells v ++ req_cells p (default (fresh_req e) (ss_req s)) ++ head_cells s v ++
     from_option resp_cells [] (ss_resp s) ++ ready_cells s e ++ c)
    (hi_resp e :: hi_rscratch e :: ready_fr s e ++ fr) ars.
Proof.
  intros [Hl Hm Hr Hhs Hhp Hq Hp] Hiov Hn.
  unfold ready_hook, ready_cells, ready_fr, sess_cells, msg_cells, http_frs. rewrite Hiov.
  cbn [from_option fmap option_fmap option_map]. fold (head_cells s v).
  set (h1 := set_opt UD_MOD_HS _ _ _ h). set (h2 := set_opt UD_MOD_REQ _ _ _ h1). set (h3 := set_opt UD_MOD_HP _ _ _ h2).
  set (Q0 := from_option (req_cells p) [] (ss_req s)). set (P0 := from_option resp_cells [] (ss_resp s)).
  set (M := head_cells s v). unfold http_on_data_ready. rewrite <- !app_assoc.
  set (hs := opaque_cells (ss_hs s) (hi_settings e)). set (f1 := unused (ss_hs s) [hi_settings e]).
  eapply does_bind; [by apply does_udata_load|]. eapply does_bind; [apply does_ptr_of|].
  eapply does_bind; [eapply (does_msg_load _ 0%nat); reflexivity|]. cbn [msg_iov msg_iovlen].
  eapply does_bind; [by apply does_lift|].
  eapply does_bind; [by apply (opaque_ok p h UD_MOD_HS)|]. fold h1 hs f1.
  eapply does_bind.
  { eapply does_from; [apply (req_ready_ok p h1 e (ss_req s) (M ++ iov_cells v ++ P0 ++ hs ++ c)
      ([hi_parser e; hi_resp e; hi_rscratch e] ++ f1 ++ fr)); udata|..]; fold Q0; solve_Permutation. }
  fold h2. set (f2 := unused (ss_req s) _).
  eapply does_bind.
  { eapply does_from; [apply (opaque_ok p h2 UD_MOD_HP (ss_hp s) (hi_parser e)
      (iov_cells v ++ req_cells p (default (fresh_req e) (ss_req s)) ++ M ++ P0 ++ hs ++ c)
      (hi_resp e :: hi_rscratch e :: f1 ++ f2 ++ fr)); udata|..]; solve_Permutation. }
  fold h3. set (hp := opaque_cells (ss_hp s) _). set (f3 := unused (ss_hp s) _).
  assert (Hn3 : hk_udata h3 !! UD_CORE_NREAD = Some nread) by udata.
  eapply does_bind; [by apply does_udata_load|]. eapply does_bind; [by apply does_lift|].
  eapply (does_from _ (iov_cells v ++ req_cells p (default (fresh_req e) (ss_req s)) ++ M ++ P0 ++ hp ++ hs ++ c)
            _ (hi_resp e :: hi_rscratch e :: f1 ++ f2 ++ f3 ++ fr)); [|solve_Permutation..].
  eapply does_bind; [eapply (does_iov_load _ 0%nat); reflexivity|].
  eapply does_bind; [by apply does_lift|].
  eapply does_bind; [eapply (does_bytes_load _ 1%nat); reflexivity|]. apply does_ret.
Qed.

Lemma http_on_data_default_ok rt ar h s v e c fr ars nread :
  sess_ok s -> sess_udata rt s h -> mg_iov (ss_msg s) = Some v ->
  hk_udata h !! UD_CORE_NREAD = Some nread -> 0 <= nread <= Z.of_nat IOV_CHUNK ->
  ars !! rt = Some ar -> routes_ok ar -> exec_in_range ps -> url_in_range ps ->
  let data := take (Z.to_nat nread) (iv_buf0 v) in
  let a := http_answer ps s e data ar in
  exists c' fr',
    does p h (sess_cells p s ++ c) (http_frs e ++ fr) ars (http_on_data_default ps p e) (http_ret ps a)
      (http_hook s e h) (sess_cells p (http_after ps s v e data ar) ++ c') fr' (<[rt := an_route a]> ars).
Proof.
  intros Hs Hu Hiov Hn Hnr Har Hro Hex Hur data a.
  pose proof (default_req_ok _ e Hs) as Hrq. pose proof (default_resp_ok _ e Hs) as Hrs.
  assert (Hv : iov_ok v) by (destruct Hs as (Hs & _); unfold msg_ok in Hs; by rewrite Hiov in Hs).
  exists (ready_cells s e ++ c), (unused (ss_resp s) [hi_resp e; hi_rscratch e] ++ ready_fr s e ++ fr).
  unfold http_on_data_default. eapply does_bind; [by apply (http_on_data_ready_ok rt h s v e c fr ars nread)|].
  set (M := head_cells s v). set (P0 := from_option resp_cells [] (ss_resp s)).
  set (oc := ready_cells s e ++ c). set (f1 := ready_fr s e ++ fr). set (h3 := ready_hook s e h).
  eapply does_bind; [apply does_lift, buf_read_ok; destruct Hv; lia|].
  rewrite drop_0. fold data. set (ex := ps_execute ps data).
  destruct ex as [[us nparsed] up] eqn:Hexe.
  pose proof (Hex data) as Hus. fold ex in Hus. rewrite Hexe in Hus. cbn [fst] in Hus.
  set (r0 := default (fresh_req e) (ss_req s)) in *.
  set (r1 := apply_urls data us r0).
  assert (Hr1 : req_ok r1) by (by apply apply_urls_ok).
  eapply does_bind.
  { eapply does_from; [apply (url_callbacks_ok p h3 r0 data us (iov_cells v ++ M ++ P0 ++ oc)
      (hi_resp e :: hi_rscratch e :: f1) ars Hrq Hus)|solve_Permutation|reflexivity]. }
  fold r1. eapply does_bind.
  { destruct Hu. eapply does_from; [apply (resp_ready_ok p h3 e (ss_resp s) (req_cells p r1 ++ iov_cells v ++ M ++ oc) f1);
      unfold h3, ready_hook; udata|..]; fold P0; solve_Permutation. }
  set (s0 := default (fresh_resp e) (ss_resp s)) in *. set (f4 := unused (ss_resp s) _).
  change (set_opt UD_MOD_RESP _ _ _ h3) with (http_hook s e h).
  rewrite <- (apply_urls_rq data us r0) at 1. fold r1.
  pose proof (http_hook_udata rt s v e data ar h Hu) as Hsu.
  eapply does_bind.
  { eapply does_from; [apply (http_respond_ok ps p (http_hook s e h) r1 s0 e (iov_cells v ++ M ++ oc)
      (f4 ++ f1) ars rt ar); try done; apply Hsu|solve_Permutation..]. }
  assert (Ha : a = answer_of ps ar r1 s0 (hi_rnd e)).
  { unfold a, http_answer. fold ex r0 s0. by rewrite Hexe. }
  rewrite <- Ha. eapply does_perm; [apply (http_print_ok (http_hook s e h) v a
    (req_cells p (an_req a) ++ resp_cells (an_resp a) ++ M ++ oc) (f4 ++ f1)); done|solve_Permutation..| |done].
  unfold sess_cells, msg_cells, http_after. cbn [ss_msg ss_req ss_resp from_option mg_iov]. fold a.
  set (v' := if decide (0 < an_len a) then _ else v).
  assert (Hiv : iv v' = iv v) by (unfold v'; by case_decide).
  cbn [mg mg_name mg_nl mg_nmb mg_iov fmap option_fmap option_map from_option]. rewrite Hiv. fold (head_cells s v). fold M.
  solve_Permutation.
Qed.

(** More bytes than the first buffer holds: the parser is to read past its end. *)
Lemma http_on_data_overread rt h s v e c fr ars nread :
  sess_ok s -> sess_udata rt s h -> mg_iov (ss_msg s) = Some v ->
  hk_udata h !! UD_CORE_NREAD = Some nread -> Z.of_nat IOV_CHUNK < nread ->
  faults (p := p) h (sess_cells p s ++ c) (http_frs e ++ fr) ars (http_on_data_default ps p e) OutOfBounds.
Proof.
  intros Hs Hu Hiov Hn Hnr. unfold http_on_data_default.
  eapply faults_after; [by apply (http_on_data_ready_ok rt h s v e c fr ars nread)|].
  apply faults_bind, faults_lift. unfold buf_read. rewrite decide_False; [done|].
  destruct Hs as (Hs & _). unfold msg_ok in Hs. rewrite Hiov in Hs. destruct Hs. lia.
Qed.

Lemma http_after_ok s v e data ar :
  sess_ok s -> iov_ok v -> routes_ok ar -> sess_ok (http_after ps s v e data ar).
Proof.
  intros Hs Hv Hro. pose proof (default_req_ok _ e Hs) as Hrq. pose proof (default_resp_ok _ e Hs) as Hrs.
  assert (Hr1 : req_ok (apply_urls data (ps_execute ps data).1.1 (default (fresh_req e) (ss_req s))))
    by (by apply apply_urls_ok).
  unfold http_after, http_answer.
  set (r1 := apply_urls _ _ _) in *. set (s0 := default _ _) in *.
  split; [|cbn [ss_req ss_resp from_option]; unfold answer_of].
  - unfold msg_ok. cbn [ss_msg mg_iov]. case_decide; [|done]. by apply set_iov_ok, set_iov_ok.
  - destruct (ps_url ps (req_url r1)) as [[path query]|]; [|done].
    case_decide; [|done]. destruct (array_get _ _) as [f ar'] eqn:Hget.
    destruct (array_get_routes_ok _ _ _ _ Hro Hget) as (_ & _ & Hf).
    case_decide; cbn; (split; [by apply split_url_ok|]); [done|].
    destruct Hf as [?|[_ Hlen]]; [done|]. apply set_resp_ok; [done|].
    pose proof (captcha_text_length (cstring (rq_path (split_url r1 path query))) (hi_rnd e)).
    rewrite length_app in Hlen. unfold IOV_CHUNK. cbn in Hlen |- *. lia.
Qed.

(** ** Receiving, answering, sending *)

(** What [IOV_PRINTF] puts on the wire for a text. *)
Definition wire (text : bytes) : bytes :=
  if decide (length text < IOV_CHUNK)%nat then text else url_piece text ++ [0].

Lemma url_piece_min text : length (url_piece text) = Nat.min (IOV_CHUNK - 1) (length text).
Proof. apply length_take. Qed.

Lemma wire_put buf text :
  length buf = IOV_CHUNK ->
  take (Z.to_nat (Z.min (Z.of_nat (length text)) (Z.of_nat IOV_CHUNK))) (put buf (url_piece text)) = wire text.
Proof.
  intros Hb. pose proof (url_piece_min text) as Hl. unfold wire. case_decide as Hlt.
  - replace (Z.to_nat _) with (length (url_piece text)) by lia. rewrite put_take.
    unfold url_piece. by rewrite take_ge by lia.
  - replace (Z.to_nat _) with IOV_CHUNK by lia.
    assert (HC : (0 < IOV_CHUNK)%nat) by (unfold IOV_CHUNK; lia).
    unfold put. rewrite take_app_ge by lia. f_equal.
    replace (IOV_CHUNK - length (url_piece text))%nat with 1%nat by lia. done.
Qed.

Lemma wire_length text : length (wire text) = Nat.min (length text) IOV_CHUNK.
Proof.
  pose proof (url_piece_min text) as Hl. unfold wire. case_decide; [lia|].
  rewrite length_app. cbn. unfold IOV_CHUNK in *. lia.
Qed.

(** The bytes of an answer. *)
Definition answer_wire (a : answer) : bytes := wire (http_header ps a) ++ wire (an_text a).

Lemma sendmsg_ok h s v n c fr ars :
  iov_ok v -> mg_iov s = Some v -> hk_udata h !! UD_CORE_MSGHDR = Some (ptr (mg s)) ->
  does p h (msg_cells s ++ c) fr ars (ioqueue_socket_sendmsg p n)
    (n, take (Z.to_nat (iv_len0 v)) (iv_buf0 v) ++ take (Z.to_nat (iv_len1 v)) (iv_buf1 v) ++ [])
    h (msg_cells s ++ c) fr ars.
Proof.
  intros Hv Hs Hu. unfold ioqueue_socket_sendmsg.
  eapply does_bind; [by apply does_udata_load|]. rewrite decide_False by done.
  eapply does_bind; [apply does_ptr_of|].
  eapply does_bind; [eapply (does_msg_load _ 0%nat); reflexivity|]. rewrite Hs. cbn [msg_iov fmap option_fmap option_map].
  eapply does_bind; [eapply (does_iov_load _ 2%nat); unfold msg_cells; by rewrite Hs|].
  cbn [msg_iovlen]. change (take (Z.to_nat 2) _) with [(iv0 v, iv_len0 v); (iv1 v, iv_len1 v)].
  eapply does_bind; [|apply does_ret]. unfold msg_cells. rewrite Hs. cbn [from_option].
  set (M := [_; _]). rewrite <- !app_assoc.
  eapply does_perm; [apply (gather_ok p h v (M ++ c))| | | |]; [done|solve_Permutation|done|solve_Permutation|done].
Qed.

(** What [recvmsg] may do: fail, or fill the two buffers it is given in part or whole. *)
Record recv_ok (rv : received) : Prop := {
  rcv_n : rv_n rv <= 2 * Z.of_nat IOV_CHUNK;
  rcv_data : length (rv_data rv) = Z.to_nat (rv_n rv)
}.

(** It stayed in the first buffer. *)
Definition recv_fits (rv : received) : Prop := rv_n rv <= Z.of_nat IOV_CHUNK.
#[export] Instance recv_fits_dec rv : Decision (recv_fits rv) := Z.le_dec _ _.

Definition recv_sess (s : sess_st) (rv : received) : sess_st :=
  SessSt (recv_msg (ss_msg s) rv) (ss_hs s) (ss_hp s) (ss_req s) (ss_resp s).

Definition recv_frs (rv : received) : list loc := [rv_iov rv; rv_buf0 rv; rv_buf1 rv].

Lemma recv_sess_ok s rv : sess_ok s -> sess_ok (recv_sess s rv).
Proof. intros (Hm & Hr). split; [by apply recv_msg_ok|done]. Qed.

Lemma recv_hook_udata s rv h : hk_udata (recv_hook s rv h) = hk_udata h.
Proof. unfold recv_hook. by destruct (mg_iov s). Qed.

Lemma recv_sess_udata rt s rv h n :
  sess_udata rt s h ->
  sess_udata rt (recv_sess s rv) (set_udata UD_CORE_NREAD n (recv_hook (ss_msg s) rv h)).
Proof.
  intros [Hl Hm Hr Hhs Hhp Hq Hp].
  split; cbn; rewrite recv_hook_udata; [by rewrite length_insert|..];
    by rewrite list_lookup_insert_ne by discriminate.
Qed.

(** The session after a data event, its answer and what is sent. *)
Definition event_iov (s : sess_st) (rv : received) : iov_st :=
  recv_iov (default (fresh_iov rv) (mg_iov (ss_msg s))) (rv_data rv).
Definition event_answer (s : sess_st) (e : http_in) (ar : array) : answer :=
  http_answer ps (recv_sess s (hi_recv e)) e (rv_data (hi_recv e)) ar.
Definition event_after (s : sess_st) (e : http_in) (ar : array) : sess_st :=
  if decide (rv_n (hi_recv e) <= 0) then recv_sess s (hi_recv e)
  else http_after ps (recv_sess s (hi_recv e)) (event_iov s (hi_recv e)) e (rv_data (hi_recv e)) ar.
Definition event_route (s : sess_st) (e : http_in) (ar : array) : array :=
  if decide (rv_n (hi_recv e) <= 0) then ar else an_route (event_answer s e ar).
Definition event_sent (s : sess_st) (e : http_in) (ar : array) : Z * option bytes :=
  if decide (rv_n (hi_recv e) <= 0) then (0, None)
  else
    let a := event_answer s e ar in
    if decide (0 < an_len a) then (hi_send e, Some (answer_wire a)) else (0, None).

Lemma recv_data_at v rv :
  recv_ok rv -> recv_fits rv -> take (Z.to_nat (rv_n rv)) (iv_buf0 (recv_iov v (rv_data rv))) = rv_data rv.
Proof.
  intros [_ Hd] Hn. unfold recv_fits in Hn. cbn. rewrite (take_ge (rv_data rv)) by lia. unfold fill. rewrite <- Hd. apply take_app_length.
Qed.

Lemma http_ret_pos a : 0 < http_ret ps a <-> 0 < an_len a.
Proof.
  unfold http_ret. case_decide as Ha; [|lia].
  assert (Hh : (0 < length (http_header ps a))%nat).
  { unfold http_header, resp_header. rewrite length_app.
    assert (length (str "HTTP/1.1 ") = 9%nat) as -> by reflexivity. lia. }
  pose proof (Nat2Z.is_nonneg (length (an_text a))). unfold body_len, IOV_CHUNK. lia.
Qed.

Definition event_hook (s : sess_st) (e : http_in) (h : hook) : hook :=
  let h1 := set_udata UD_CORE_NREAD (rv_n (hi_recv e)) (recv_hook (ss_msg s) (hi_recv e) h) in
  if decide (rv_n (hi_recv e) <= 0) then h1 else http_hook s e h1.

Lemma event_iov_ok s rv : sess_ok s -> iov_ok (event_iov s rv).
Proof.
  intros (Hm & _). apply recv_iov_ok. unfold msg_ok in Hm.
  destruct (mg_iov (ss_msg s)); [done|apply fresh_iov_ok].
Qed.

Lemma event_after_ok s e ar : sess_ok s -> routes_ok ar -> sess_ok (event_after s e ar).
Proof.
  intros Hs Har. unfold event_after. case_decide; [by apply recv_sess_ok|].
  apply http_after_ok; [by apply recv_sess_ok|by apply event_iov_ok|done].
Qed.

Lemma event_after_udata rt s e ar h :
  sess_udata rt s h -> sess_udata rt (event_after s e ar) (event_hook s e h).
Proof.
  intros Hu. unfold event_after, event_hook. pose proof (recv_sess_udata rt s (hi_recv e) h (rv_n (hi_recv e)) Hu).
  case_decide; [done|]. by apply (http_hook_udata rt (recv_sess s (hi_recv e))).
Qed.

(** Sending what [http_on_data_default] left in the vector. *)
Lemma send_answer_ok rt h s0 v e data ar c fr ars :
  let s := http_after ps s0 v e data ar in
  let a := http_answer ps s0 e data ar in
  sess_ok s -> iov_ok v -> sess_udata rt s h ->
  does p h (sess_cells p s ++ c) fr ars
    (if decide (0 < http_ret ps a)
     then (r ← ioqueue_socket_sendmsg p (hi_send e); mret (r.1, Some r.2)) else mret (0, None))
    (if decide (0 < an_len a) then (hi_send e, Some (answer_wire a)) else (0, None))
    h (sess_cells p s ++ c) fr ars.
Proof.
  intros s a Hs Hv Hu. rewrite (decide_ext _ _ _ _ (http_ret_pos a)).
  case_decide as Ha; [|apply does_ret].
  set (v' := set_iov (set_iov v 1 (an_text a)) 0 (http_header ps a)).
  assert (Hv' : mg_iov (ss_msg s) = Some v').
  { unfold s, http_after. cbn [ss_msg mg_iov]. fold a. by rewrite decide_True. }
  destruct Hv as (H0 & H1 & _). pose proof (url_piece_length (an_text a)).
  unfold sess_cells. rewrite <- app_assoc.
  eapply does_bind; [apply (sendmsg_ok h (ss_msg s) v'); [|done|by apply (su_msg _ _ _ Hu)]|].
  { destruct Hs as (Hm & _). unfold msg_ok in Hm. by rewrite Hv' in Hm. }
  eapply does_from; [|done..]. cbn [v' set_iov iv_len0 iv_len1 iv_buf0 iv_buf1 fst snd].
  rewrite !wire_put, app_nil_r by done. apply does_ret.
Qed.

Lemma recv_event_ok rt h s rv c fr ars :
  sess_ok s -> sess_udata rt s h -> hk_data h <> None ->
  does p h (sess_cells p s ++ c) (recv_frs rv ++ fr) ars (ioqueue_socket_recvmsg p rv) (rv_n rv)
    (recv_hook (ss_msg s) rv h) (sess_cells p (recv_sess s rv) ++ c) (recv_fr (ss_msg s) rv fr) ars.
Proof.
  intros Hs Hu Hd. unfold sess_cells. rewrite <- !app_assoc.
  apply recvmsg_ok; [apply Hs|done|by apply (su_msg _ _ _ Hu)].
Qed.

(** The addresses that are left when the message already had its buffers. *)
Lemma recv_fr_split s e fr :
  recv_fr s (hi_recv e) (http_frs e ++ fr) ≡ₚ
    http_frs e ++ match mg_iov s with None => fr | Some _ => recv_frs (hi_recv e) ++ fr end.
Proof. unfold recv_fr. destruct (mg_iov s); [|done]. unfold recv_frs. solve_Permutation. Qed.

Lemma nread_set s rv h : length (hk_udata h) = UDATASZ ->
  hk_udata (set_udata UD_CORE_NREAD (rv_n rv) (recv_hook s rv h)) !! UD_CORE_NREAD = Some (rv_n rv).
Proof. intros Hl. cbn. rewrite recv_hook_udata. apply list_lookup_insert_eq. rewrite Hl. idx. Qed.

Lemma hook_on_data_test_ok rt ar h s e c fr ars :
  sess_ok s -> sess_udata rt s h -> hk_data h <> None -> recv_ok (hi_recv e) -> recv_fits (hi_recv e) ->
  ars !! rt = Some ar -> routes_ok ar -> exec_in_range ps -> url_in_range ps ->
  exists c' fr',
    does p h (sess_cells p s ++ c) (recv_frs (hi_recv e) ++ http_frs e ++ fr) ars
      (hook_on_data_test ps p e) (event_sent s e ar)
      (event_hook s e h) (sess_cells p (event_after s e ar) ++ c') fr'
      (<[rt := event_route s e ar]> ars).
Proof.
  intros Hs Hu Hd Hr Hfit Har Hro Hex Hur.
  pose proof (recv_sess_udata rt s (hi_recv e) h (rv_n (hi_recv e)) Hu) as Hu1.
  pose proof (recv_sess_ok s (hi_recv e) Hs) as Hs1.
  set (h1 := set_udata UD_CORE_NREAD (rv_n (hi_recv e)) (recv_hook (ss_msg s) (hi_recv e) h)) in *.
  set (s1 := recv_sess s (hi_recv e)) in *.
  pose proof (fun f => recv_event_ok rt h s (hi_recv e) c f ars Hs Hu Hd) as Hrecv.
  unfold hook_on_data_test, event_sent, event_after, event_hook, event_route, event_answer.
  fold h1 s1. case_decide as Hpos.
  - eexists c, _. eapply does_bind; [apply Hrecv|]. eapply does_bind; [apply does_set_udata|]. fold h1.
    rewrite decide_True by done. eapply does_end; [apply does_ret|done..|]. by rewrite insert_id.
  - set (v := event_iov s (hi_recv e)).
    pose proof (event_iov_ok s (hi_recv e) Hs) as Hv. fold v in Hv.
    destruct (http_on_data_default_ok rt ar h1 s1 v e c (match mg_iov (ss_msg s) with None => fr | Some _ => recv_frs (hi_recv e) ++ fr end)
                ars (rv_n (hi_recv e))) as (c' & fr' & Hdef); try done.
    { by apply nread_set, (su_len _ _ _ Hu). }
    { unfold recv_fits in Hfit. lia. }
    assert (Hat : take (Z.to_nat (rv_n (hi_recv e))) (iv_buf0 v) = rv_data (hi_recv e)) by (by apply recv_data_at).
    rewrite Hat in Hdef.
    eexists c', fr'. eapply does_bind; [apply Hrecv|]. eapply does_bind; [apply does_set_udata|]. fold h1.
    rewrite decide_False by done. eapply does_bind; [eapply does_from; [exact Hdef|done|apply recv_fr_split]|].
    eapply (send_answer_ok rt (http_hook s1 e h1) s1 v e (rv_data (hi_recv e)) ar c' fr'); [by apply http_after_ok|exact Hv|by apply http_hook_udata].
Qed.

Lemma hook_on_data_overread rt h s e c fr ars :
  sess_ok s -> sess_udata rt s h -> hk_data h <> None -> ~ recv_fits (hi_recv e) ->
  faults (p := p) h (sess_cells p s ++ c) (recv_frs (hi_recv e) ++ http_frs e ++ fr) ars (hook_on_data_test ps p e) OutOfBounds.
Proof.
  intros Hs Hu Hd Hfit. unfold recv_fits in Hfit. unfold hook_on_data_test.
  eapply faults_after; [by apply (recv_event_ok rt)|]. eapply faults_after; [apply does_set_udata|].
  rewrite decide_False by lia. apply faults_bind.
  eapply faults_from; [|done|apply recv_fr_split].
  apply (http_on_data_overread rt _ (recv_sess s (hi_recv e)) (event_iov s (hi_recv e)) e c _ ars (rv_n (hi_recv e))).
  - by apply recv_sess_ok.
  - by apply recv_sess_udata.
  - done.
  - by apply nread_set, (su_len _ _ _ Hu).
  - lia.
Qed.

(** The session's handler, through the entry [hoda] of its array. *)
Section entry.
Context (a : loc) (da : array) (ars : gmap loc array).
Context (Ha : ars !! a = Some da) (Hf : da !! key "hoda" = Some FN_hook_on_data_test).

Lemma hoda_stored h c fr :
  does p h c fr ars (array_store a da) tt h c fr ars.
Proof using Ha. eapply does_end; [by eapply does_array_store|done..|]. by apply insert_id. Qed.

Lemma http_process_ok rt ar h s e c fr :
  sess_ok s -> sess_udata rt s h -> hk_data h = Some a -> recv_ok (hi_recv e) -> recv_fits (hi_recv e) ->
  ars !! rt = Some ar -> routes_ok ar -> exec_in_range ps -> url_in_range ps ->
  exists c' fr',
    does p h (sess_cells p s ++ c) (recv_frs (hi_recv e) ++ http_frs e ++ fr) ars
      (http_process ps e p) tt
      (event_hook s e h) (sess_cells p (event_after s e ar) ++ c') fr'
      (<[rt := event_route s e ar]> ars).
Proof using Ha Hf.
  intros Hs Hu Hd Hr Hfit Har Hro Hex Hur.
  destruct (hook_on_data_test_ok rt ar h s e c fr ars) as (c' & fr' & Hrun); try done.
  { by rewrite Hd. }
  exists c', fr'. unfold http_process, ioqueue_socket_process_data.
  eapply does_bind; [|apply does_ret].
  eapply does_bind; [apply does_hook_load|]. rewrite Hd.
  eapply does_bind; [by apply does_array_load|]. unfold array_get. rewrite Hf.
  eapply does_bind; [apply hoda_stored|].
  rewrite decide_False by done. unfold call_handler. rewrite decide_True by done.
  eapply does_bind; [exact Hrun|]. apply does_ret.
Qed.

Lemma http_process_overread rt h s e c fr :
  sess_ok s -> sess_udata rt s h -> hk_data h = Some a -> ~ recv_fits (hi_recv e) ->
  faults (p := p) h (sess_cells p s ++ c) (recv_frs (hi_recv e) ++ http_frs e ++ fr) ars (http_process ps e p) OutOfBounds.
Proof using Ha Hf.
  intros Hs Hu Hd Hfit. unfold http_process, ioqueue_socket_process_data. apply faults_bind.
  eapply faults_after; [apply does_hook_load|]. rewrite Hd.
  eapply faults_after; [by apply does_array_load|]. unfold array_get. rewrite Hf.
  eapply faults_after; [apply hoda_stored|].
  rewrite decide_False by done. unfold call_handler. rewrite decide_True by done.
  apply faults_bind. apply (hook_on_data_overread rt); [done..|by rewrite Hd|done].
Qed.
End entry.
End run.
