(* ===== verification/HttpServer.v ===== *)
(** * The server running the HTTP module

    The handler of src/modules/http/mod_http.c keeps the contract [Handler] of
    Server.v for events whose data fits the first buffer, so everything proved there of any
    handler holds of it, and reads past that buffer for the others; what each data event of a
    session does. *)
From S2P Require Import Prelude NodeHeap Fifo Stailq CLib Assoc Hook Server IoSocket Http SessMem HttpSession HttpRun.

#[local] Open Scope Z_scope.

Section contract.
Context (ps : parser) (shared : gset loc) (rt : loc).
Context (Hexec : exec_in_range ps) (Hurl : url_in_range ps) (Hrt : rt ∈ shared).

Definition has_routes (m : mem) : Prop := exists ar, m_arrays m !! rt = Some ar /\ routes_ok ar.

(** A session between two data events. *)
Record http_sess_at (p : loc) (m : mem) (h : hook) (s : sess_st) : Prop := {
  hs_hook : m_hooks m !! p = Some h;
  hs_ok : sess_ok s;
  hs_udata : sess_udata rt s h;
  hs_nodup : NoDup (sess_cells p s).*1;
  hs_cell b x : (b, x) ∈ sess_cells p s -> m_blocks m !! b = Some x /\ b ∈ hk_mp h;
  hs_data : exists a da, hk_data h = Some a /\ m_arrays m !! a = Some da /\
    da !! key "hoda" = Some FN_hook_on_data_test
}.

Definition http_sess (p : loc) (m : mem) : Prop := has_routes m /\ exists h s, http_sess_at p m h s.

(** A listening socket: sessions copy its udata and its array. *)
Record http_lst_at (p : loc) (m : mem) (h : hook) : Prop := {
  hl_hook : m_hooks m !! p = Some h;
  hl_len : length (hk_udata h) = UDATASZ;
  hl_route : hk_udata h !! UD_MOD_HTTP_ROUTE = Some (ptr rt);
  hl_none i : (i = UD_MOD_HS \/ i = UD_MOD_HP \/ i = UD_MOD_REQ \/ i = UD_MOD_RESP) -> hk_udata h !! i = Some 0;
  hl_data : exists a da, hk_data h = Some a /\ a ∈ shared /\ m_arrays m !! a = Some da /\
    da !! key "hoda" = Some FN_hook_on_data_test
}.

Definition http_lst (p : loc) (m : mem) : Prop := has_routes m /\ exists h, http_lst_at p m h.

(** [recvmsg] fills at most its two buffers, [malloc] returns fresh distinct addresses. *)
Definition http_legal (e : http_in) (p : loc) (m : mem) : Prop :=
  recv_ok (hi_recv e) /\ NoDup (recv_frs (hi_recv e) ++ http_frs e) /\
  forall b, b ∈ recv_frs (hi_recv e) ++ http_frs e -> m_blocks m !! b = None.

(** ... and what it received is in the first buffer. *)
Definition http_fits (e : http_in) (p : loc) (m : mem) : Prop := http_legal e p m /\ recv_fits (hi_recv e).

Lemma has_routes_same p m m' : has_routes m -> sess_same shared p m m' -> has_routes m'.
Proof.
  intros (ar & Har & Hro) [(h & h' & _ & _ & _ & _ & _ & _ & _ & _ & Harr)].
  destruct (Harr rt ar) as (ar' & Har' & Hg); [by left|done|].
  exists ar'. split; [done|]. by eapply routes_ok_grows.
Qed.

(** The slots the server leaves alone fix the length of udata. *)
Lemma udata_length_same (h h' : hook) :
  (forall i, i <> UD_CORE_SYSPTR -> i <> UD_CORE_NUM -> hk_udata h' !! i = hk_udata h !! i) ->
  length (hk_udata h) = UDATASZ -> length (hk_udata h') = UDATASZ.
Proof.
  intros Hu Hl. apply Nat.le_antisymm.
  - apply lookup_ge_None. rewrite Hu by discriminate. apply lookup_ge_None. lia.
  - assert (Hs : is_Some (hk_udata h' !! 15%nat)).
    { rewrite Hu by discriminate. apply lookup_lt_is_Some. rewrite Hl. idx. }
    apply lookup_lt_is_Some in Hs. unfold UDATASZ. lia.
Qed.

Lemma http_sess_stable p m m' : http_sess p m -> sess_same shared p m m' -> http_sess p m'.
Proof.
  intros [Hro (h & s & [Hh Hok [Ul Um Ur Uhs Uhp Uq Up] Hnd Hc (a & da & Ha & Hda & Hf)])] Hsame.
  split; [by eapply has_routes_same|].
  destruct Hsame as [(h0 & h' & Hh0 & Hh' & Hmp & Hd & Hr & Hfd & Hu & Hb & Harr)].
  rewrite Hh in Hh0. injection Hh0 as <-.
  exists h', s. split; try done.
  - split; [by eapply udata_length_same|by rewrite Hu..].
  - intros b x Hbx. destruct (Hc b x Hbx) as [Hx Hin]. rewrite Hmp, Hb by done. done.
  - destruct (Harr a da) as (da' & Hda' & [Hsub _]); [by right|done|].
    exists a, da'. rewrite Hd. split; [done|]. split; [done|]. by eapply lookup_weaken.
Qed.

Lemma http_lst_stable p m m' : http_lst p m -> sess_same shared p m m' -> http_lst p m'.
Proof.
  intros [Hro (h & [Hh Hl Hr0 Hn (a & da & Ha & Hsh & Hda & Hf)])] Hsame.
  split; [by eapply has_routes_same|].
  destruct Hsame as [(h0 & h' & Hh0 & Hh' & Hmp & Hd & Hr & Hfd & Hu & Hb & Harr)].
  rewrite Hh in Hh0. injection Hh0 as <-.
  exists h'. split; try done.
  - by eapply udata_length_same.
  - by rewrite Hu.
  - intros i Hi. rewrite Hu by naive_solver. by apply Hn.
  - destruct (Harr a da) as (da' & Hda' & [Hsub _]); [by left|done|].
    exists a, da'. rewrite Hd. split; [done|]. split; [done|]. split; [done|]. by eapply lookup_weaken.
Qed.

Lemma http_connect p hs b1 b2 a connfd m m' :
  http_lst p m -> b1 <> b2 -> m_arrays m !! a = None ->
  new_session p hs b1 b2 a connfd m m' -> http_sess hs m'.
Proof.
  intros [(ar & Har & Hro) (h & [Hh Hl Hr0 Hn (a0 & da & Ha & Hsh & Hda & Hf)])] Hb Hfa.
  intros [(h1 & Hh1 & Hhs) (nm & Hnm & Hbl) (h2 & a2 & ar2 & Hh2 & Ha2 & Har2 & Harrs)].
  assert (h1 = h) as -> by congruence. assert (h2 = h) as -> by congruence.
  assert (a2 = a0) as -> by congruence. assert (ar2 = da) as -> by congruence.
  split.
  - exists ar. split; [|done]. rewrite Harrs. rewrite lookup_insert_ne; [done|]. intros ->. congruence.
  - eexists _, (SessSt (MsgSt b1 b2 128 nm None) None None None None). split.
    + rewrite Hhs. apply lookup_insert_eq.
    + done.
    + split; cbn [hk_udata ss_msg mg ss_hs ss_hp ss_req ss_resp fmap option_fmap option_map word_of].
      * by rewrite length_insert.
      * rewrite list_lookup_insert_eq; [done|]. rewrite Hl. idx.
      * by rewrite list_lookup_insert_ne by discriminate.
      * rewrite list_lookup_insert_ne by discriminate. apply Hn. tauto.
      * rewrite list_lookup_insert_ne by discriminate. apply Hn. tauto.
      * rewrite list_lookup_insert_ne by discriminate. apply Hn. tauto.
      * rewrite list_lookup_insert_ne by discriminate. apply Hn. tauto.
    + cbn. apply NoDup_cons. split; [set_solver|]. apply NoDup_singleton.
    + intros b x Hin. rewrite Hbl. cbn in Hin. rewrite !elem_of_cons in Hin.
      destruct Hin as [[= -> ->]|[[= -> ->]|Hin%not_elem_of_nil]]; [| |done].
      * rewrite lookup_insert_ne by done. rewrite lookup_insert_eq. split; [done|cbn; set_solver].
      * rewrite lookup_insert_eq. split; [done|cbn; set_solver].
    + exists a, da. cbn. split; [done|]. rewrite Harrs. split; [apply lookup_insert_eq|done].
Qed.

(** A session as [own]. *)
Lemma http_sess_own p m h s fr :
  http_sess_at p m h s -> NoDup fr -> (forall b, b ∈ fr -> m_blocks m !! b = None) ->
  own p h (sess_cells p s ++ []) (fr ++ []) (m_arrays m) m.
Proof.
  intros [Hh Hok Hu Hnd Hc _] Hf Hfr. rewrite !app_nil_r. split; done.
Qed.

(** An operation that does to the cells of a session what an event does takes the
    session to the session after the event. *)
Lemma event_run {A : Type} (op : st mem A) r e p m h s ar :
  http_sess_at p m h s -> m_arrays m !! rt = Some ar -> routes_ok ar -> http_legal e p m ->
  (exists c' fr', does p h (sess_cells p s ++ []) (recv_frs (hi_recv e) ++ http_frs e ++ []) (m_arrays m) op r
     (event_hook s e h) (sess_cells p (event_after ps s e ar) ++ c') fr'
     (<[rt := event_route ps s e ar]> (m_arrays m))) ->
  exists m', op m = Ok (r, m') /\ handled p m m' /\
    http_sess_at p m' (event_hook s e h) (event_after ps s e ar) /\
    m_arrays m' !! rt = Some (event_route ps s e ar) /\ grows ar (event_route ps s e ar).
Proof using Type.
  clear Hexec Hurl Hrt.
  intros Hat Har Hro (_ & Hnd & Hfr) (c' & fr' & Hrun).
  pose proof (http_sess_own p m h s _ Hat Hnd Hfr) as Hown. rewrite <- app_assoc in Hown.
  pose proof Hat as [Hh Hok Hu _ _ (a & da & Ha & Hda & Hf)].
  destruct (Hrun m Hown) as (m' & Hm' & Hown' & Hhd). exists m'. split; [done|]. split; [done|].
  assert (Hrt' : m_arrays m' !! rt = Some (event_route ps s e ar)).
  { rewrite (own_arrays _ _ _ _ _ _ Hown'). apply lookup_insert_eq. }
  split; [|split; [done|]].
  - destruct Hown' as [H1 H2 H3 _ _ H6]. split; try done.
    + by apply event_after_ok.
    + by apply event_after_udata.
    + rewrite fmap_app in H2. by apply NoDup_app in H2 as (? & _).
    + intros b x Hin. apply H3. set_solver.
    + destruct (hd_hook _ _ _ Hhd) as (h0 & h' & new & Hh0 & Hh' & _ & Hd & _).
      destruct (hd_arrays _ _ _ Hhd a da Hda) as (da' & Hda' & [Hsub _]).
      exists a, da'. rewrite Hh', lookup_insert_eq in H1. injection H1 as <-.
      rewrite Hh in Hh0. injection Hh0 as <-. rewrite Hd.
      split; [done|]. split; [done|]. by eapply lookup_weaken.
  - destruct (hd_arrays _ _ _ Hhd rt ar Har) as (ar' & Har' & Hg). congruence.
Qed.

Lemma http_process_run e p m h s ar :
  http_sess_at p m h s -> m_arrays m !! rt = Some ar -> routes_ok ar -> http_fits e p m ->
  exists m', http_process ps e p m = Ok (tt, m') /\ handled p m m' /\
    http_sess_at p m' (event_hook s e h) (event_after ps s e ar) /\
    m_arrays m' !! rt = Some (event_route ps s e ar) /\ grows ar (event_route ps s e ar).
Proof using Hexec Hurl.
  clear Hrt shared.
  intros Hat Har Hro [Hl Hfit]. pose proof Hat as [_ Hok Hu _ _ (a & da & Ha & Hda & Hf)].
  apply event_run; try done. apply (http_process_ok ps p a da _ Hda Hf rt ar); try done. apply Hl.
Qed.

Lemma hook_on_data_test_run e p m h s ar :
  http_sess_at p m h s -> m_arrays m !! rt = Some ar -> routes_ok ar -> http_fits e p m ->
  exists m', hook_on_data_test ps p e m = Ok (event_sent ps s e ar, m') /\ handled p m m' /\
    http_sess_at p m' (event_hook s e h) (event_after ps s e ar) /\
    m_arrays m' !! rt = Some (event_route ps s e ar) /\ grows ar (event_route ps s e ar).
Proof using Hexec Hurl.
  clear Hrt shared.
  intros Hat Har Hro [Hl Hfit]. pose proof Hat as [_ Hok Hu _ _ (a & da & Ha & Hda & Hf)].
  apply event_run; try done. apply (hook_on_data_test_ok ps p rt ar); try done; [by rewrite Ha|apply Hl].
Qed.

(** An event that received more than the first buffer holds. *)
Lemma event_overread {A : Type} (op : st mem A) e p m h s :
  http_sess_at p m h s -> http_legal e p m ->
  faults (p := p) h (sess_cells p s ++ []) (recv_frs (hi_recv e) ++ http_frs e ++ []) (m_arrays m) op OutOfBounds ->
  op m = Fault OutOfBounds.
Proof using Type.
  clear Hexec Hurl Hrt. intros Hat (_ & Hnd & Hfr) Hf. apply Hf.
  pose proof (http_sess_own p m h s _ Hat Hnd Hfr) as Hown. by rewrite <- app_assoc in Hown.
Qed.

Lemma http_process_over e p m h s :
  http_sess_at p m h s -> http_legal e p m -> ~ recv_fits (hi_recv e) -> http_process ps e p m = Fault OutOfBounds.
Proof using Type.
  clear Hexec Hurl Hrt. intros Hat Hl Hfit. pose proof Hat as [_ Hok Hu _ _ (a & da & Ha & Hda & Hf)].
  apply (event_overread _ e p m h s); [done..|]. by apply (http_process_overread ps p a da _ Hda Hf rt).
Qed.

Lemma hook_on_data_test_over e p m h s :
  http_sess_at p m h s -> http_legal e p m -> ~ recv_fits (hi_recv e) -> hook_on_data_test ps p e m = Fault OutOfBounds.
Proof using Type.
  clear Hexec Hurl Hrt. intros Hat Hl Hfit. pose proof Hat as [_ Hok Hu _ _ (a & da & Ha & _)].
  apply (event_overread _ e p m h s); [done..|]. apply (hook_on_data_overread ps p rt); [done..|by rewrite Ha|done].
Qed.

#[export] Instance http_handler :
  Handler (http_process ps) shared http_sess http_lst http_fits.
Proof.
  split.
  - exact http_sess_stable.
  - exact http_lst_stable.
  - intros p hs b1 b2 a connfd m m' _ Hl _ _ _ Hb Ha Hns. by eapply http_connect.
  - intros e p m m' [(Hr & Hnd & Hfr) Hfit] Hb _ _. split; [|done]. split; [done|]. split; [done|]. by rewrite Hb.
  - intros e p m h _ _ _ [(ar & Har & Hro) (h1 & s & Hat)] Hl.
    destruct (http_process_run e p m h1 s ar) as (m' & Hm' & Hh & Hat' & Hrt' & Hg); try done.
    exists m'. split; [done|]. split; [done|]. split; [|eauto].
    exists (event_route ps s e ar). split; [done|]. by eapply routes_ok_grows.
Qed.
End contract.

(** ** What a data event sends *)
Section response.
Context (ps : parser).

(** The URL the session knows: the one of the last request. *)
Definition sess_url (s : sess_st) : bytes := from_option req_url [] (ss_req s).

(** The URL after the pieces [us] of [data] were reported. *)
Definition next_url (old data : bytes) (us : list (nat * nat)) : bytes :=
  foldl (fun _ ol => url_piece (take ol.2 (drop ol.1 data))) old us.

Definition path_of (url : bytes) (f : nat * nat) : bytes :=
  cstring (take (Nat.min f.2 (IOV_CHUNK - 1)) (drop f.1 url)).

(** Status and body for a URL; [None]: nothing is sent. *)
Definition route_answer (ar : array) (url : bytes) (rnd : Z) : option (Z * bytes) :=
  '(path, _) ← ps_url ps url;
  if decide (0 < path.2)%nat then
    let k := path_of url path in
    if decide (default 0 (ar !! (k ++ [0])) = 0) then Some (403, no_action_text)
    else Some (200, captcha_text k rnd)
  else None.

Definition response (code : Z) (body : bytes) : bytes :=
  wire (resp_header code (ps_status ps code) (Z.of_nat (length (wire body))) (str "text/plain")) ++ wire body.

Definition event_answer_spec (s : sess_st) (e : http_in) (ar : array) : option (Z * bytes) :=
  if decide (rv_n (hi_recv e) <= 0) then None
  else route_answer ar (next_url (sess_url s) (rv_data (hi_recv e)) (ps_execute ps (rv_data (hi_recv e))).1.1)
         (hi_rnd e).

Lemma req_url_set r buf : req_url (set_url r buf) = url_piece buf.
Proof.
  unfold req_url, set_url. cbn [rq_ulen rq_uri]. rewrite Nat2Z.id. apply put_take.
Qed.

Lemma req_url_apply data us r : req_url (apply_urls data us r) = next_url (req_url r) data us.
Proof.
  unfold apply_urls, next_url. revert r. induction us as [|u us IH]; intros r; cbn; [done|].
  by rewrite IH, req_url_set.
Qed.

(** The URL after the data of an event. *)
Lemma event_url s e data us :
  req_url (apply_urls data us (default (fresh_req e) (ss_req s))) = next_url (sess_url s) data us.
Proof. rewrite req_url_apply. unfold sess_url. by destruct (ss_req s). Qed.

Lemma path_of_field r f :
  (f.1 + f.2 <= length (req_url r))%nat -> cstring (url_field r f) = path_of (req_url r) f.
Proof.
  intros Hf. unfold path_of, url_field. f_equal. unfold req_url in *. rewrite length_take in Hf.
  rewrite skipn_firstn_comm, take_take. f_equal. lia.
Qed.

(** [answer_of] as status and body. *)
Definition answer_pair (a : answer) : option (Z * bytes) :=
  if decide (0 < an_len a) then Some (an_code a, an_text a) else None.

Lemma captcha_text_pos k rnd : (0 < length (captcha_text k rnd))%nat.
Proof.
  unfold captcha_text. rewrite length_app.
  assert (length (str "PATH [") = 6%nat) as -> by reflexivity. lia.
Qed.

Lemma answer_of_pair ar r s rnd :
  url_in_range ps -> answer_pair (answer_of ps ar r s rnd) = route_answer ar (req_url r) rnd.
Proof.
  intros Hur. unfold answer_of, route_answer.
  destruct (ps_url ps (req_url r)) as [[path query]|] eqn:Hu; [|done]. cbn [mbind option_bind].
  case_decide; [|done]. destruct (Hur _ _ _ Hu) as [Hp _].
  assert (Hk : cstring (rq_path (split_url r path query)) = path_of (req_url r) path).
  { rewrite split_url_path, put_cstring. by apply path_of_field. }
  rewrite Hk. unfold array_get. destruct (ar !! _) as [f|]; cbn [default from_option id].
  - case_decide; [done|]. unfold answer_pair. cbn [an_len an_code an_text].
    pose proof (captcha_text_pos (path_of (req_url r) path) rnd). by rewrite decide_True by lia.
  - done.
Qed.

Lemma answer_wire_response a : answer_wire ps a = response (an_code a) (an_text a).
Proof.
  unfold answer_wire, response, http_header, body_len.
  rewrite (wire_length (an_text a)), Nat2Z.inj_min. done.
Qed.

Lemma event_sent_spec s e ar :
  url_in_range ps ->
  event_sent ps s e ar =
    match event_answer_spec s e ar with
    | Some (code, body) => (hi_send e, Some (response code body))
    | None => (0, None)
    end.
Proof.
  intros Hur. unfold event_sent, event_answer_spec. case_decide; [done|].
  unfold event_answer, http_answer.
  rewrite <- (event_url (recv_sess s (hi_recv e)) e), <- (answer_of_pair ar _ (default (fresh_resp e) (ss_resp (recv_sess s (hi_recv e)))) _ Hur).
  unfold answer_pair. case_decide; [|done]. by rewrite answer_wire_response.
Qed.

(** The route table after an event: an unknown path is added. *)
Definition route_after (s : sess_st) (e : http_in) (ar : array) : array :=
  if decide (rv_n (hi_recv e) <= 0) then ar
  else
    let url := next_url (sess_url s) (rv_data (hi_recv e)) (ps_execute ps (rv_data (hi_recv e))).1.1 in
    match ps_url ps url with
    | Some (path, _) => if decide (0 < path.2)%nat then (array_get ar (path_of url path ++ [0])).2 else ar
    | None => ar
    end.

Lemma event_route_spec s e ar : url_in_range ps -> event_route ps s e ar = route_after s e ar.
Proof.
  intros Hur. unfold event_route, route_after. case_decide; [done|].
  unfold event_answer, http_answer. cbn zeta. rewrite <- (event_url (recv_sess s (hi_recv e)) e).
  set (r := apply_urls _ _ _). unfold answer_of.
  destruct (ps_url ps (req_url r)) as [[path query]|] eqn:Hu; [|done].
  case_decide; [|done]. destruct (Hur _ _ _ Hu) as [Hp _].
  assert (Hk : cstring (rq_path (split_url r path query)) = path_of (req_url r) path).
  { rewrite split_url_path, put_cstring. by apply path_of_field. }
  rewrite Hk. destruct (array_get _ _) as [f ar']. by case_decide.
Qed.

Lemma event_url_spec s e ar :
  sess_url (event_after ps s e ar) =
    if decide (rv_n (hi_recv e) <= 0) then sess_url s
    else next_url (sess_url s) (rv_data (hi_recv e)) (ps_execute ps (rv_data (hi_recv e))).1.1.
Proof.
  unfold event_after. case_decide; [done|].
  unfold sess_url at 1, http_after. cbn [ss_req from_option]. unfold http_answer.
  rewrite <- (event_url (recv_sess s (hi_recv e)) e).
  set (r := apply_urls _ _ _). unfold answer_of.
  assert (Hs : forall path query, req_url (split_url r path query) = req_url r).
  { intros. unfold split_url. cbn zeta. by case_decide. }
  destruct (ps_url ps (req_url r)) as [[path query]|]; [|done].
  case_decide; [|done]. destruct (array_get _ _) as [f ar']. case_decide; apply Hs.
Qed.
End response.

(** ** A concrete parser and session *)
Fixpoint index_of (c : Z) (l : bytes) : option nat :=
  match l with
  | [] => None
  | b :: l => if decide (b = c) then Some 0%nat else S <$> index_of c l
  end.

Lemma index_of_lt c l i : index_of c l = Some i -> (i < length l)%nat.
Proof.
  revert i. induction l as [|b l IH]; cbn; [done|]. intros i. case_decide; [intros [= <-]; lia|].
  destruct (index_of c l) as [j|]; cbn; [|done]. intros [= <-]. specialize (IH j eq_refl). lia.
Qed.

(** The request line only: the URL is between the first two spaces, the query
    after the first [?]. *)
Definition demo_ps : parser := Parser
  (fun data => match index_of 32 data with
               | None => ([], 0, false)
               | Some i => match index_of 32 (drop (S i) data) with
                           | None => ([], 0, false)
                           | Some j => ([(S i, j)], Z.of_nat (length data), false)
                           end
               end)
  (fun u => match index_of 63 u with
            | None => Some ((0%nat, length u), (0%nat, 0%nat))
            | Some i => Some ((0%nat, i), (S i, length u - S i)%nat)
            end)
  (fun code => if decide (code = 200) then str "OK" else str "Forbidden").

Lemma demo_exec : exec_in_range demo_ps.
Proof.
  intros data. cbn. destruct (index_of 32 data) as [i|] eqn:Hi; [|by constructor].
  destruct (index_of 32 (drop (S i) data)) as [j|] eqn:Hj; [|by constructor].
  apply index_of_lt in Hi, Hj. rewrite length_drop in Hj. constructor; [cbn; lia|constructor].
Qed.

Lemma demo_url : url_in_range demo_ps.
Proof.
  intros u path query. cbn. destruct (index_of 63 u) as [i|] eqn:Hi; intros [= <- <-]; cbn; [|lia].
  apply index_of_lt in Hi. lia.
Qed.

(** Session 10 with its msghdr 20 and name 21, its array 3, the route table 2. *)
Definition demo_routes : array := {[key "/app/get" := FN_captcha_get]}.
Definition demo_sess_st : sess_st := SessSt (MsgSt 20 21 128 (replicate 128 0) None) None None None None.
Definition demo_sess_hook : hook :=
  Hook [21%positive; 20%positive] 7 (Some Rd_on_data) (Some Pr_process_data) (Some 3%positive)
    0 1 (<[UD_MOD_HTTP_ROUTE := ptr 2]> (<[UD_CORE_MSGHDR := ptr 20]> (replicate UDATASZ 0))).
Definition demo_http_mem : mem :=
  Mem {[10%positive := demo_sess_hook]}
    (list_to_map (sess_cells 10 demo_sess_st))
    (<[3%positive := {[key "hoda" := FN_hook_on_data_test]}]> {[2%positive := demo_routes]}).

Lemma demo_sess_at : http_sess_at 2 10 demo_http_mem demo_sess_hook demo_sess_st.
Proof.
  split; try done.
  - vm_compute. apply NoDup_cons. split; [set_solver|apply NoDup_singleton].
  - intros b x Hin. cbn in Hin. rewrite !elem_of_cons in Hin.
    destruct Hin as [[= -> ->]|[[= -> ->]|Hin%not_elem_of_nil]]; [| |done]; (split; [done|]); cbn; set_solver.
  - by exists 3%positive, {[key "hoda" := FN_hook_on_data_test]}.
Qed.

Lemma demo_routes_ok : routes_ok demo_routes.
Proof.
  unfold demo_routes. intros k v Hk. apply lookup_singleton_Some in Hk as [<- <-]. right. split; [by left|]. apply Nat.leb_le. by vm_compute.
Qed.

Definition demo_get (line : string) : http_in :=
  HttpIn (Received (Z.of_nat (length (str line))) (str line) 128 30 31 32 33 34) 100 7
    41 42 43 44 45 46 47 48 49.

(** Fresh addresses. *)
Lemma demo_fresh_http e :
  hi_recv e = Received (rv_n (hi_recv e)) (rv_data (hi_recv e)) 128 30 31 32 33 34 -> http_frs e = http_frs (demo_get "") ->
  NoDup (recv_frs (hi_recv e) ++ http_frs e) /\ forall b, b ∈ recv_frs (hi_recv e) ++ http_frs e -> m_blocks demo_http_mem !! b = None.
Proof.
  intros -> ->. split.
  - apply (bool_decide_unpack _). by vm_compute.
  - intros b Hb. revert b Hb. apply Forall_forall. apply (bool_decide_unpack _). by vm_compute.
Qed.

Lemma demo_legal_http e :
  hi_recv e = hi_recv (demo_get "GET /app/get?x=1 HTTP/1.1") -> http_frs e = http_frs (demo_get "") ->
  http_legal e 10 demo_http_mem.
Proof.
  intros He Hf. split; [rewrite He; split; [apply Z.leb_le; by vm_compute|done]|]. apply demo_fresh_http; [by rewrite He|done].
Qed.

Lemma demo_fits_http : http_fits (demo_get "GET /app/get?x=1 HTTP/1.1") 10 demo_http_mem.
Proof. split; [by apply demo_legal_http|]. apply Z.leb_le. by vm_compute. Qed.

(** 4097 bytes. *)
Definition demo_flood : http_in :=
  HttpIn (Received 4097 (replicate 4097 65) 128 30 31 32 33 34) 100 7 41 42 43 44 45 46 47 48 49.

Lemma demo_flood_legal : http_legal demo_flood 10 demo_http_mem.
Proof.
  split; [split; [apply Z.leb_le; by vm_compute|by vm_compute]|]. by apply demo_fresh_http.
Qed.

Definition demo_http_listener : hook :=
  Hook [] 4 (Some Rd_on_connect) None (Some 1%positive) EPOLLIN 1
    (<[UD_MOD_HTTP_ROUTE := ptr 2]> (replicate UDATASZ 0)).
Definition demo_http_start : mem :=
  Mem {[1%positive := demo_http_listener]} ∅
    (<[1%positive := {[key "hoda" := FN_hook_on_data_test]}]> {[2%positive := demo_routes]}).
Definition demo_http_shared : gset loc := {[1%positive; 2%positive]}.

Lemma demo_http_lst : http_lst demo_http_shared 2 1 demo_http_start.
Proof.
  split.
  - exists demo_routes. split; [done|apply demo_routes_ok].
  - exists demo_http_listener. split; try done.
    + intros i [->|[->|[->| ->]]]; done.
    + exists 1%positive, {[key "hoda" := FN_hook_on_data_test]}.
      split; [done|]. split; [unfold demo_http_shared; set_solver|done].
Qed.

Lemma demo_http_deployed : deployed demo_http_shared (http_lst demo_http_shared 2) demo_http_start.
Proof.
  split.
  - apply (mem_ok_new (Mem ∅ ∅ ∅) 1 demo_http_listener ∅ _ mem_ok_empty); cbn [m_hooks m_blocks m_arrays]; try done.
    + constructor.
    + intros b. rewrite elem_of_nil. naive_solver.
    + intros a []%lookup_empty_is_Some.
    + cbn. intros a [= <-]. by rewrite lookup_insert_eq.
  - intros a. unfold demo_http_shared. rewrite elem_of_union, !elem_of_singleton.
    by intros [->| ->].
  - intros p h Hp. cbn in Hp. apply lookup_singleton_Some in Hp as [<- <-].
    split; [done|]. do 3 (split; [done|]). split; [apply demo_http_lst|].
    exists 1%positive. split; [done|]. unfold demo_http_shared. set_solver.
  - intros p q hp hq Hp Hq _. cbn in *.
    apply lookup_singleton_Some in Hp as [<- _]. by apply lookup_singleton_Some in Hq as [<- _].
Qed.

(** ** Properties *)

(** C2: A data event of a session, with anything [recvmsg] may put into its two buffers and a
    parser that reports pieces of what it was given.  When the bytes received fit the first
    buffer (4096): the URL is the last piece the parser reports, else the one of the
    request before; nothing received, an unparseable URL or an empty path sends
    nothing, a path without an action sends status 403, a path with one sends
    status 200 and the text the action makes of the path; the session stays well
    formed with that URL, nothing outside the session changes but that an unknown
    path is added to the route table.  When they do not fit, the parser is given the first
    buffer with the whole count: the read past its end is the outcome. *)
Theorem http_event_answered ps rt p e m h s ar
    (Hexec : exec_in_range ps) (Hurl : url_in_range ps)
    (Hat : http_sess_at rt p m h s) (Har : m_arrays m !! rt = Some ar) (Hro : routes_ok ar)
    (Hl : http_legal e p m) :
  if decide (rv_n (hi_recv e) <= Z.of_nat IOV_CHUNK) then
    exists m', hook_on_data_test ps p e m =
        Ok (match event_answer_spec ps s e ar with
            | Some (code, body) => (hi_send e, Some (response ps code body))
            | None => (0, None)
            end, m') /\
      handled p m m' /\
      m_arrays m' !! rt = Some (route_after ps s e ar) /\
      exists h' s', http_sess_at rt p m' h' s' /\
        sess_url s' = if decide (rv_n (hi_recv e) <= 0) then sess_url s
          else next_url (sess_url s) (rv_data (hi_recv e)) (ps_execute ps (rv_data (hi_recv e))).1.1
  else hook_on_data_test ps p e m = Fault OutOfBounds.
Proof.
  case_decide as Hfit; [|by eapply hook_on_data_test_over].
  destruct (hook_on_data_test_run ps rt Hexec Hurl e p m h s ar Hat Har Hro (conj Hl Hfit))
    as (m' & Hm' & Hh & Hat' & Hrt & _).
  rewrite event_sent_spec in Hm' by done. rewrite event_route_spec in Hrt by done.
  exists m'. split; [exact Hm'|]. split; [done|]. split; [done|].
  exists (event_hook s e h), (event_after ps s e ar). split; [done|]. by apply event_url_spec.
Qed.

(** A request that is answered, and 4097 bytes at once. *)
Lemma http_event_answered_witness :
  (exists m', hook_on_data_test demo_ps 10 (demo_get "GET /app/get?x=1 HTTP/1.1") demo_http_mem =
    Ok ((100, Some (response demo_ps 200 (captcha_text (str "/app/get") 7))), m')) /\
  hook_on_data_test demo_ps 10 demo_flood demo_http_mem = Fault OutOfBounds.
Proof.
  pose proof (fun e => http_event_answered demo_ps 2 10 e demo_http_mem
              demo_sess_hook demo_sess_st demo_routes demo_exec demo_url demo_sess_at eq_refl
              demo_routes_ok) as Hans. split.
  - specialize (Hans (demo_get "GET /app/get?x=1 HTTP/1.1") (demo_legal_http _ eq_refl eq_refl)).
    rewrite decide_True in Hans by (apply Z.leb_le; by vm_compute). destruct Hans as (m' & Hm' & _).
    exists m'. assert (Hspec : event_answer_spec demo_ps demo_sess_st (demo_get "GET /app/get?x=1 HTTP/1.1") demo_routes
      = Some (200, captcha_text (str "/app/get") 7)) by (by vm_compute).
    rewrite Hspec in Hm'. exact Hm'.
  - specialize (Hans demo_flood demo_flood_legal). rewrite decide_False in Hans; [exact Hans|].
    apply Z.nle_gt, Z.ltb_lt. by vm_compute.
Defined.

(** A request for a path that is in no route adds the path to the module's route
    table, which every worker shares and nothing ever shrinks; a known path leaves
    the table as it is. *)
Theorem http_route_table_grows ps rt p e m h s ar path query
    (Hexec : exec_in_range ps) (Hurl : url_in_range ps)
    (Hat : http_sess_at rt p m h s) (Har : m_arrays m !! rt = Some ar) (Hro : routes_ok ar)
    (Hl : http_fits e p m) (Hn : 0 < rv_n (hi_recv e)) :
  let url := next_url (sess_url s) (rv_data (hi_recv e)) (ps_execute ps (rv_data (hi_recv e))).1.1 in
  ps_url ps url = Some (path, query) -> (0 < path.2)%nat ->
  exists r m', hook_on_data_test ps p e m = Ok (r, m') /\
    match ar !! (path_of url path ++ [0]) with
    | Some _ => m_arrays m' !! rt = Some ar
    | None => exists ar', m_arrays m' !! rt = Some ar' /\ size ar' = S (size ar)
    end.
Proof.
  intros url Hpu Hp.
  destruct (hook_on_data_test_run ps rt Hexec Hurl e p m h s ar Hat Har Hro Hl)
    as (m' & Hm' & _ & _ & Hrt & _).
  rewrite event_route_spec in Hrt by done. unfold route_after in Hrt. fold url in Hrt.
  rewrite decide_False, Hpu, decide_True in Hrt by (done || lia).
  eexists _, m'. split; [exact Hm'|]. unfold array_get in Hrt.
  destruct (ar !! (path_of url path ++ [0])) as [v|] eqn:Hk; [done|].
  eexists. split; [exact Hrt|]. by apply map_size_insert_None.
Qed.

Lemma http_route_table_grows_witness :
  exists r m', hook_on_data_test demo_ps 10 (demo_get "GET /app/get?x=1 HTTP/1.1") demo_http_mem = Ok (r, m') /\
    m_arrays m' !! 2%positive = Some demo_routes.
Proof.
  exact (http_route_table_grows demo_ps 2 10 (demo_get "GET /app/get?x=1 HTTP/1.1") demo_http_mem
           demo_sess_hook demo_sess_st demo_routes (0, 8)%nat (9, 3)%nat demo_exec demo_url demo_sess_at eq_refl
           demo_routes_ok demo_fits_http eq_refl eq_refl (le_S _ _ (le_S _ _ (le_S _ _ (le_S _ _
           (le_S _ _ (le_S _ _ (le_S _ _ (le_n 1))))))))).
Defined.

(** Data in which the parser finds no URL is answered as the session's previous
    request was: neither the result of the parser nor its count of bytes is looked
    at. *)
Theorem http_stale_request ps rt p e m h s ar
    (Hexec : exec_in_range ps) (Hurl : url_in_range ps)
    (Hat : http_sess_at rt p m h s) (Har : m_arrays m !! rt = Some ar) (Hro : routes_ok ar)
    (Hl : http_fits e p m) (Hn : 0 < rv_n (hi_recv e))
    (Hno : (ps_execute ps (rv_data (hi_recv e))).1.1 = []) code body
    (Hprev : route_answer ps ar (sess_url s) (hi_rnd e) = Some (code, body)) :
  exists m', hook_on_data_test ps p e m = Ok ((hi_send e, Some (response ps code body)), m').
Proof.
  destruct (hook_on_data_test_run ps rt Hexec Hurl e p m h s ar Hat Har Hro Hl) as (m' & Hm' & _).
  rewrite event_sent_spec in Hm' by done. unfold event_answer_spec in Hm'.
  rewrite decide_False, Hno in Hm' by lia. cbn [next_url foldl] in Hm'. rewrite Hprev in Hm'. eauto.
Qed.

(** [demo_sess_st] after a request for [/app/get]. *)
Definition demo_req : req_st :=
  ReqSt 50 51 52 53 54 8 0 0 (put zeros (str "/app/get")) zeros zeros zeros.
Definition demo_sess_st2 : sess_st := SessSt (ss_msg demo_sess_st) None None (Some demo_req) None.
Definition demo_sess_hook2 : hook :=
  set_udata UD_MOD_REQ (ptr 50) (upd_mp (fun l => [54; 53; 52; 51; 50]%positive ++ l) demo_sess_hook).
Definition demo_http_mem2 : mem :=
  Mem {[10%positive := demo_sess_hook2]} (list_to_map (sess_cells 10 demo_sess_st2)) (m_arrays demo_http_mem).

Lemma demo_sess_at2 : http_sess_at 2 10 demo_http_mem2 demo_sess_hook2 demo_sess_st2.
Proof.
  split.
  - done.
  - split; [done|]. split; [|done]. do 3 (split; [by vm_compute|]). cbn. unfold IOV_CHUNK. lia.
  - by split.
  - apply (bool_decide_unpack _). by vm_compute.
  - intros b x Hin. split.
    + unfold demo_http_mem2. cbn [m_blocks]. apply elem_of_list_to_map_1; [|done].
      apply (bool_decide_unpack _). by vm_compute.
    + apply (list_elem_of_fmap_2 fst) in Hin. revert Hin. generalize b. apply Forall_forall.
      apply (bool_decide_unpack _). by vm_compute.
  - by exists 3%positive, {[key "hoda" := FN_hook_on_data_test]}.
Qed.

Lemma demo_legal_http2 line :
  (length (str line) <= IOV_CHUNK)%nat -> http_fits (demo_get line) 10 demo_http_mem2.
Proof.
  intros Hlen. split; [|unfold recv_fits; cbn; lia]. split; [split; cbn; lia|]. split.
  - apply (bool_decide_unpack _). by vm_compute.
  - intros b Hb. revert b Hb. apply Forall_forall. apply (bool_decide_unpack _). by vm_compute.
Qed.

Lemma http_stale_request_witness :
  exists m', hook_on_data_test demo_ps 10 (demo_get "garbage") demo_http_mem2 =
    Ok ((100, Some (response demo_ps 200 (captcha_text (str "/app/get") 7))), m').
Proof.
  apply (http_stale_request demo_ps 2 10 (demo_get "garbage") demo_http_mem2 demo_sess_hook2 demo_sess_st2
           demo_routes demo_exec demo_url demo_sess_at2).
  - done.
  - apply demo_routes_ok.
  - apply demo_legal_http2. apply Nat.leb_le. by vm_compute.
  - done.
  - done.
  - by vm_compute.
Defined.
