(* ===== verification/HttpSafe.v ===== *)
(** * What can go wrong in the server that runs the HTTP module

    The executions of Overlap.v with the handler of the HTTP module: which steps fault, and
    a run of two workers into each other. *)
From S2P Require Import Prelude NodeHeap Fifo Stailq CLib Assoc Hook Server Overlap IoSocket Http SessMem HttpSession HttpRun HttpServer.

#[local] Open Scope Z_scope.

Definition event_fits (e : http_in) : Prop := recv_fits (hi_recv e).

Lemma http_legal_blocks e p m m' : http_legal e p m -> m_blocks m' = m_blocks m -> http_legal e p m'.
Proof. intros (Hr & Hnd & Hfr) Hb. split; [done|]. split; [done|]. by rewrite Hb. Qed.

Lemma http_misfit ps rt e p m :
  http_sess rt p m -> http_legal e p m -> ~ event_fits e -> http_process ps e p m = Fault OutOfBounds.
Proof. intros [_ (h & s & Hat)]. by eapply http_process_over. Qed.

Section faults.
Context {Q : Type} (ops : fifo_ops Q) (rep : Q -> list Z -> Prop) `{!Fifo ops rep}.
Context (ps : parser) (shared : gset loc) (rt : loc) (sysptr : Z) (n : nat) (q0 : Q) (m : mem).
Context (Hexec : exec_in_range ps) (Hurl : url_in_range ps) (Hrt : rt ∈ shared).
Context (Hn : (0 < n)%nat) (Hq : rep q0 []) (Hm : deployed shared (http_lst shared rt) m).
#[local] Abbreviation next := (ov_next ops (http_process ps) sysptr http_legal).
#[local] Abbreviation step := (ov_step ops (http_process ps) sysptr).

Lemma http_reachable o : rtc next (Osrv (srv_start n q0 m) None) o ->
  (forall i f, ov_legal http_legal i o ->
     step i o = Fault f <-> (f = DataRace /\ ov_race i o) \/ (f = OutOfBounds /\ ov_misfit event_fits i o)) /\
  (n = 1%nat -> forall i : ov_input (env := http_in), ~ ov_race i o) /\
  (forall x p, sv_work (ov_srv o) !! x = Some (WProc p) -> http_sess rt p (sv_mem (ov_srv o))).
Proof using Fifo0 Hexec Hurl Hrt Hn Hq Hm.
  intros Hs. pose proof (http_handler ps shared rt Hexec Hurl Hrt) as Hh.
  pose proof (srv_start_inv ops rep (http_process ps) shared (http_sess rt) (http_lst shared rt) http_fits n q0 m Hq Hm) as Hi0.
  assert (Hdec : forall e, Decision (event_fits e)) by (intros e; apply recv_fits_dec).
  assert (Hi1 : ov_inv rep shared (http_sess rt) (http_lst shared rt) n (replicate n []) (Osrv (srv_start n q0 m) None)) by (by split).
  destruct (ov_reach ops (http_process ps) sysptr rep shared (http_sess rt) (http_lst shared rt) http_legal event_fits Hdec
              http_legal_blocks (http_misfit ps rt) n Hn _ _ o Hi1 Hs) as (qs & Hi).
  split; [|split].
  - intros i f Hl. by apply (ov_faults ops (http_process ps) sysptr rep shared (http_sess rt) (http_lst shared rt) http_legal event_fits Hdec
              http_legal_blocks (http_misfit ps rt) n Hn qs).
  - intros H1 i. by apply (ov_one_worker rep shared (http_sess rt) (http_lst shared rt) n Hn qs).
  - intros x p Hx. destruct Hi as [[Hhk _ _ Hc] _].
    destruct (ctl_work _ _ _ _ _ _ _ _ Hc x _ p Hx) as (h & Hp & Hrd & _); [cbn; set_solver|].
    destruct (hok_kind _ _ _ _ Hhk p h Hp) as (_ & a & _ & [(Hr & _)|(_ & Hse & _)]); [congruence|done].
Qed.
End faults.

(** ** A run of two workers

    The listening socket of [demo_http_start], two workers; clients connect on 6 and 7 and
    send a request each. *)
Definition http_legalb (e : http_in) (m : mem) : bool :=
  bool_decide (rv_n (hi_recv e) <= 2 * Z.of_nat IOV_CHUNK) &&
  bool_decide (length (rv_data (hi_recv e)) = Z.to_nat (rv_n (hi_recv e))) &&
  bool_decide (NoDup (recv_frs (hi_recv e) ++ http_frs e)) &&
  forallb (fun b => bool_decide (m_blocks m !! b = None)) (recv_frs (hi_recv e) ++ http_frs e).

Lemma http_legalb_sound e p m : http_legalb e m = true -> http_legal e p m.
Proof.
  unfold http_legalb. rewrite !andb_true_iff, !bool_decide_eq_true, forallb_forall.
  intros [[[Hn Hl] Hnd] Hfr]. split; [by split|]. split; [done|]. intros b Hb.
  specialize (Hfr b). rewrite bool_decide_eq_true in Hfr. apply Hfr. by apply list_elem_of_In.
Qed.

Abbreviation demo_osrv := (osrv (Q := heap * (stailq * option loc))).
Abbreviation demo_ov_step := (ov_step (spsc_ops (Node 9 None)) (http_process demo_ps) 1000).
Abbreviation demo_ov_next := (ov_next (spsc_ops (Node 9 None)) (http_process demo_ps) 1000 http_legal).

Definition ov_legalb (i : ov_input (env := http_in)) (o : demo_osrv) : bool :=
  match i with
  | OMain i => legal_mainb (ov_srv o) i
  | OWork x _ => negb (at_handler (ov_srv o) x)
  | OEnter _ => true
  | OReturn x e => http_legalb e (sv_mem (ov_srv o))
  end.

Lemma ov_legalb_sound i o : ov_legalb i o = true -> ov_legal http_legal i o.
Proof.
  destruct i as [i|x e|x|x e]; cbn [ov_legalb ov_legal].
  - apply legal_mainb_sound.
  - unfold at_handler. intros Hx p Hp. by rewrite Hp in Hx.
  - done.
  - intros Hl p _. by apply http_legalb_sound.
Qed.

Fixpoint ov_run (l : list ov_input) (o : demo_osrv) : option demo_osrv :=
  match l with
  | [] => Some o
  | i :: l => if ov_legalb i o then match demo_ov_step i o with Ok (Some o') => ov_run l o' | _ => None end else None
  end.

Lemma ov_run_rtc l o o' : ov_run l o = Some o' -> rtc demo_ov_next o o'.
Proof.
  revert o. induction l as [|i l IH]; intros o; cbn [ov_run]; [by intros [= ->]|].
  destruct (ov_legalb i o) eqn:Hl; [|done]. destruct (demo_ov_step i o) as [[o1|]|] eqn:Hs; try done.
  intros Hr. eapply rtc_l; [|by apply IH]. exists i. split; [by apply ov_legalb_sound|done].
Qed.

Definition no_event : http_in := demo_get "".
Definition main_go (k : nat) : list (ov_input (env := http_in)) := replicate k (OMain InNone).
Definition accept_two : list (ov_input (env := http_in)) :=
  OMain (InPoll (Some [(EPOLLIN, 1%positive)])) :: main_go 2 ++
  [OMain (InAccept (Accepted 6 0 (replicate 16 2) 10 20 21 11)); OMain (InAccept (Accepted 7 0 (replicate 16 2) 12 22 23 13));
   OMain (InAccept (Accepted (-1) 11 [] 14 24 25 15))] ++ main_go 1.
Definition both_ready : list (ov_input (env := http_in)) :=
  OMain (InPoll (Some [(EPOLLIN, 10%positive); (EPOLLIN, 12%positive)])) :: main_go 10 ++
  [OWork 0 no_event; OWork 0 no_event; OWork 1 no_event; OWork 1 no_event; OEnter 0].
Definition demo_two : list (ov_input (env := http_in)) := accept_two ++ both_ready.

Definition demo_o0 : demo_osrv := Osrv (srv_start 2 demo_queue demo_http_start) None.

(** Two requests for paths that are in no route. *)
Definition demo_new : http_in := demo_get "GET /new HTTP/1.1".
Definition demo_other : http_in := demo_get "GET /other HTTP/1.1".

(** Handling [e] for the session [p] adds [path] to the route table. *)
Definition adds_route (o : demo_osrv) (e : http_in) (p : loc) (path : string) : bool :=
  ov_legalb (OReturn 0 e) o &&
  match m_arrays (sv_mem (ov_srv o)) !! 2%positive, http_process demo_ps e p (sv_mem (ov_srv o)) with
  | Some ar, Ok (_, m') => bool_decide (ar !! key path = None) && bool_decide (m_arrays m' !! 2%positive = Some (<[key path := 0]> ar))
  | _, _ => false
  end.

Lemma adds_route_sound o e p path : adds_route o e p path = true ->
  exists ar m', http_legal e p (sv_mem (ov_srv o)) /\ http_process demo_ps e p (sv_mem (ov_srv o)) = Ok (tt, m') /\
    m_arrays (sv_mem (ov_srv o)) !! 2%positive = Some ar /\ ar !! key path = None /\
    m_arrays m' !! 2%positive = Some (<[key path := 0]> ar).
Proof.
  unfold adds_route. intros [Hl Hr]%andb_true_iff. apply (http_legalb_sound e p) in Hl.
  destruct (m_arrays _ !! 2%positive) as [ar|]; [|done].
  destruct (http_process _ _ _ _) as [[[] m']|]; [|done].
  apply andb_true_iff in Hr as [H1%bool_decide_eq_true H2%bool_decide_eq_true]. by exists ar, m'.
Qed.

#[local] Instance work_pc_eq_dec : EqDecision work_pc.
Proof. solve_decision. Defined.

Definition race_at (o : demo_osrv) : bool :=
  bool_decide (ov_in o = Some 0%nat) && bool_decide (sv_work (ov_srv o) !! 0%nat = Some (WProc 10)) &&
  bool_decide (sv_work (ov_srv o) !! 1%nat = Some (WProc 12)) &&
  adds_route o demo_new 10 "/new" && adds_route o demo_other 12 "/other".

Lemma demo_two_races : exists o, ov_run demo_two demo_o0 = Some o /\ race_at o = true.
Proof. apply option_test. vm_compute. reflexivity. Qed.

Lemma race_at_sound o : race_at o = true ->
  ov_in o = Some 0%nat /\ sv_work (ov_srv o) !! 0%nat = Some (WProc 10) /\ sv_work (ov_srv o) !! 1%nat = Some (WProc 12) /\
  adds_route o demo_new 10 "/new" = true /\ adds_route o demo_other 12 "/other" = true.
Proof. unfold race_at. rewrite !andb_true_iff, !bool_decide_eq_true. tauto. Qed.

Lemma demo_rt_shared : 2%positive ∈ demo_http_shared.
Proof. unfold demo_http_shared. set_solver. Qed.

(** ** Properties *)



(** C36: With two workers the race does happen: from the listening socket on, two clients
    connect, both sessions become ready, and each is given to a worker of its own; the first
    worker is inside its handler when the second enters, and either request is for a path that
    is not in the route table they share, so that either handler adds a key to it. *)
Theorem http_workers_race :
  exists o, rtc demo_ov_next demo_o0 o /\ ov_in o = Some 0%nat /\
    sv_work (ov_srv o) !! 0%nat = Some (WProc 10) /\ sv_work (ov_srv o) !! 1%nat = Some (WProc 12) /\
    demo_ov_step (OEnter 1) o = Fault DataRace /\
    forall p path, (p, path) = (10%positive, "/new"%string) \/ (p, path) = (12%positive, "/other"%string) ->
      exists e ar m', http_legal e p (sv_mem (ov_srv o)) /\
        http_process demo_ps e p (sv_mem (ov_srv o)) = Ok (tt, m') /\
        m_arrays (sv_mem (ov_srv o)) !! 2%positive = Some ar /\ ar !! key path = None /\
        m_arrays m' !! 2%positive = Some (<[key path := 0]> ar).
Proof.
  destruct demo_two_races as (o & Hrun & Hrace). exists o.
  destruct (race_at_sound o Hrace) as (Hin & H0 & H1 & Hnew & Hother).
  split; [by eapply ov_run_rtc|]. do 3 (split; [done|]). split.
  - cbn [ov_step]. unfold at_handler. by rewrite H1, Hin.
  - intros p path [[= -> ->]|[= -> ->]]; [exists demo_new|exists demo_other]; by apply adds_route_sound.
Qed.
