(* ===== verification/HttpWire.v ===== *)
(** * What a client reads

    A reader of HTTP responses, written from the format and not from the server: the lines up to the
    blank one, then as many bytes as the header [Content-Length] says.  What [hook_on_data_test] sends
    is read back whole, and the reader is left with what follows. *)
From S2P Require Import Prelude NodeHeap CLib Assoc Hook Server IoSocket Http SessMem HttpSession HttpRun HttpServer.

#[local] Open Scope Z_scope.

(** ** The reader *)
Fixpoint take_line (l : bytes) : option (bytes * bytes) :=
  match l with
  | c :: ((d :: r) as l') => if decide (c = 13 /\ d = 10) then Some ([], r) else '(x, r) ← take_line l'; Some (c :: x, r)
  | _ => None
  end.

Fixpoint read_head (fuel : nat) (l : bytes) : option (list bytes * bytes) :=
  match fuel with
  | O => None
  | S fuel =>
      '(x, r) ← take_line l;
      if decide (x = []) then Some ([], r) else '(xs, r) ← read_head fuel r; Some (x :: xs, r)
  end.

Definition dec_step (o : option Z) (c : Z) : option Z := v ← o; if decide (48 <= c <= 57) then Some (10 * v + (c - 48)) else None.
Definition read_dec (l : bytes) : option Z := if decide (l = []) then None else foldl dec_step (Some 0) l.

Definition header_value (name line : bytes) : option bytes :=
  let name := name ++ str ": " in if decide (take (length name) line = name) then Some (drop (length name) line) else None.

(** The first line, the body and the rest of the stream. *)
Definition http_read (l : bytes) : option (bytes * bytes * bytes) :=
  '(lines, r) ← read_head (S (length l)) l;
  first ← head lines;
  len ← head (omap (header_value (str "Content-Length")) lines);
  n ← read_dec len;
  if decide (n <= Z.of_nat (length r)) then Some (first, take (Z.to_nat n) r, drop (Z.to_nat n) r) else None.

#[global] Arguments header_value : simpl never.

(** ** Its parts *)
Lemma take_line_app x r : 13 ∉ x -> take_line (x ++ NL ++ r) = Some (x, r).
Proof.
  intros Hx. induction x as [|c x IH]; [done|]. apply not_elem_of_cons in Hx as [Hc Hx].
  cbn [app take_line]. specialize (IH Hx). destruct (x ++ NL ++ r) as [|d l] eqn:E; [by destruct x|].
  rewrite decide_False by naive_solver. by rewrite IH.
Qed.

Lemma read_head_line fuel x l : 13 ∉ x -> x <> [] ->
  read_head (S fuel) (x ++ NL ++ l) = '(xs, r) ← read_head fuel l; Some (x :: xs, r).
Proof. intros Hx Hn. cbn [read_head]. rewrite take_line_app by done. cbn [mbind option_bind]. by rewrite decide_False. Qed.

Lemma read_head_blank fuel l : read_head (S fuel) (NL ++ l) = Some ([], l).
Proof. cbn [read_head]. pose proof (take_line_app [] l (not_elem_of_nil _)) as H. cbn [app] in H. by rewrite H. Qed.

Lemma read_digits fuel z acc : 0 <= z < 10 ^ Z.of_nat fuel -> foldl dec_step (Some 0) (digits fuel z acc) = foldl dec_step (Some z) acc.
Proof.
  revert z acc. induction fuel as [|fuel IH]; intros z acc Hz.
  { change (10 ^ Z.of_nat 0) with 1 in Hz. by replace z with 0 by lia. }
  assert (Hmod : 0 <= z mod 10 < 10) by (apply Z.mod_pos_bound; lia). pose proof (Z.div_mod z 10 ltac:(lia)) as Hdiv.
  assert (Hstep : forall v, dec_step (Some v) (48 + z mod 10) = Some (10 * v + z mod 10)).
  { intros v. unfold dec_step. cbn [mbind option_bind]. rewrite decide_True by lia. f_equal. lia. }
  cbn [digits]. case_decide as Hs.
  - cbn [foldl]. rewrite Hstep, Z.mod_small by lia. by rewrite Z.mul_0_r, Z.add_0_l.
  - rewrite IH.
    + cbn [foldl]. rewrite Hstep. by rewrite <- Hdiv.
    + rewrite Nat2Z.inj_succ, Z.pow_succ_r in Hz by lia. split; [apply Z.div_pos; lia|apply Z.div_lt_upper_bound; lia].
Qed.

Lemma digits_cons fuel z acc : (length acc < length (digits (S fuel) z acc))%nat.
Proof.
  cbn [digits]. case_decide; [cbn; lia|]. pose proof (digits_length fuel (z / 10) (48 + z mod 10 :: acc)). cbn [length] in *. lia.
Qed.

Lemma read_print z : 0 <= z < 10 ^ 20 -> read_dec (print_dec z) = Some z.
Proof.
  intros Hz. unfold print_dec. rewrite decide_False by lia. unfold read_dec. rewrite decide_False.
  - rewrite read_digits by exact Hz. done.
  - pose proof (digits_cons 19 z []) as Hl. intros Hn. rewrite Hn in Hl. cbn in Hl. lia.
Qed.

Definition status_line (code : Z) (status : bytes) : bytes := str "HTTP/1.1 " ++ print_dec code ++ str " " ++ status.

(** ** What is sent *)
Definition header_lines (code : Z) (status : bytes) (len : Z) (ctype : bytes) : list bytes :=
  [status_line code status; str "Server: nixtec-ws/0.9/ayub"; str "Content-Length: " ++ print_dec len;
   str "Connection: keep-alive"; str "Content-Type: " ++ ctype].

Lemma resp_header_lines code status len ctype rest :
  resp_header code status len ctype ++ rest =
    foldr (fun x l => x ++ NL ++ l) (NL ++ rest) (header_lines code status len ctype).
Proof. unfold resp_header, header_lines, status_line. cbn [foldr]. by rewrite <- !app_assoc. Qed.

Lemma read_head_lines xs fuel rest : Forall (fun x => 13 ∉ x /\ x <> []) xs -> (length xs < fuel)%nat ->
  read_head fuel (foldr (fun x l => x ++ NL ++ l) (NL ++ rest) xs) = Some (xs, rest).
Proof.
  intros Hxs. revert fuel. induction Hxs as [|x xs [Hc Hn] _ IH]; intros [|fuel] Hf; cbn [length] in Hf; try lia.
  - apply read_head_blank.
  - cbn [foldr]. rewrite read_head_line by done. rewrite IH by lia. done.
Qed.

Lemma header_lines_ok code status len : 13 ∉ status ->
  Forall (fun x => 13 ∉ x /\ x <> []) (header_lines code status len (str "text/plain")).
Proof.
  intros Hs. assert (Hlit : forall l : bytes, bool_decide (13 ∉ l) = true -> 13 ∉ l) by (intros l; apply bool_decide_eq_true).
  unfold header_lines, status_line.
  repeat apply Forall_cons_2; try apply Forall_nil_2; (split; [|done]); rewrite ?not_elem_of_app; repeat apply conj;
    solve [done | by apply print_dec_no | by apply Hlit; vm_compute].
Qed.

Lemma http_read_response code status body rest :
  13 ∉ status -> Z.of_nat (length body) < 10 ^ 20 ->
  http_read (resp_header code status (Z.of_nat (length body)) (str "text/plain") ++ body ++ rest) =
    Some (status_line code status, body, rest).
Proof.
  intros Hs Hb. unfold http_read. rewrite resp_header_lines, read_head_lines; [|by apply header_lines_ok|].
  2: { rewrite <- resp_header_lines, length_app. unfold resp_header. rewrite !length_app. cbn. lia. }
  cbn [mbind option_bind]. set (len := Z.of_nat (length body)) in *.
  assert (Hv : head (omap (header_value (str "Content-Length")) (header_lines code status len (str "text/plain"))) = Some (print_dec len)).
  { unfold header_lines, status_line. cbn [omap list_omap].
    assert (H1 : forall l, header_value (str "Content-Length") (str "HTTP/1.1 " ++ l) = None) by done.
    assert (H2 : header_value (str "Content-Length") (str "Server: nixtec-ws/0.9/ayub") = None) by done.
    assert (H3 : forall l, header_value (str "Content-Length") (str "Content-Length: " ++ l) = Some l) by done.
    by rewrite H1, H2, H3. }
  rewrite Hv. cbn [head header_lines mbind option_bind]. rewrite read_print by lia. cbn [mbind option_bind].
  rewrite decide_True by (rewrite length_app; lia). unfold len. by rewrite Nat2Z.id, take_app_length, drop_app_length.
Qed.

Lemma resp_header_length code status len :
  (length (resp_header code status len (str "text/plain")) <= length status + 200)%nat.
Proof.
  unfold resp_header. rewrite !length_app.
  pose proof (print_dec_length code). pose proof (print_dec_length len).
  change (length (str "HTTP/1.1 ")) with 9%nat. change (length (str " ")) with 1%nat.
  change (length NL) with 2%nat. change (length (str "Server: nixtec-ws/0.9/ayub")) with 26%nat.
  change (length (str "Content-Length: ")) with 16%nat. change (length (str "Connection: keep-alive")) with 22%nat.
  change (length (str "Content-Type: ")) with 14%nat. change (length (str "text/plain")) with 10%nat. lia.
Qed.

(** Neither part of an answer is longer than the buffer it is formatted in. *)
Lemma route_answer_short ps ar url rnd code body :
  routes_ok ar -> route_answer ps ar url rnd = Some (code, body) -> (length body < IOV_CHUNK)%nat.
Proof.
  intros Hro. unfold route_answer. destruct (ps_url ps url) as [[path query]|]; [|done]. cbn [mbind option_bind].
  case_decide; [|done]. case_decide as Hv; intros [= <- <-]; [by apply Nat.ltb_lt; vm_compute|].
  destruct (ar !! (path_of url path ++ [0])) as [v|] eqn:Hk; [|done]. cbn [default from_option id] in Hv.
  destruct (Hro _ _ Hk) as [->|[_ Hlen]]; [done|]. rewrite length_app in Hlen. cbn [length] in Hlen.
  pose proof (captcha_text_length (path_of url path) rnd). unfold IOV_CHUNK. lia.
Qed.

Lemma wire_short text : (length text < IOV_CHUNK)%nat -> wire text = text.
Proof. intros H. unfold wire. by rewrite decide_True. Qed.

Lemma response_read ps code body rest :
  (length (ps_status ps code) <= 3000)%nat -> 13 ∉ ps_status ps code -> (length body < IOV_CHUNK)%nat ->
  http_read (response ps code body ++ rest) = Some (status_line code (ps_status ps code), body, rest).
Proof.
  intros Hs Hc Hb. unfold response. rewrite (wire_short body) by done. rewrite wire_short.
  - rewrite <- app_assoc. apply http_read_response; [done|]. unfold IOV_CHUNK in Hb. lia.
  - pose proof (resp_header_length code (ps_status ps code) (Z.of_nat (length body))). unfold IOV_CHUNK. lia.
Qed.

(** ** Property *)

(** C16: Whatever the data handler sends for an event of a session, a client that reads
    lines up to the blank one and then as many bytes as Content-Length says gets the
    status line and exactly the text of the answer, and is left at the first byte of
    whatever is sent next; and that text is the one the request's URL calls for.  The reader
    is independent of the server's printing code; the reason phrases hold no CR and are at most 3000
    bytes. *)
Theorem http_response_readable ps rt p e m h s ar r out m' rest
    (Hexec : exec_in_range ps) (Hurl : url_in_range ps)
    (Hstatus : forall code, (length (ps_status ps code) <= 3000)%nat /\ 13 ∉ ps_status ps code)
    (Hat : http_sess_at rt p m h s) (Har : m_arrays m !! rt = Some ar) (Hro : routes_ok ar)
    (Hl : http_legal e p m) (Hsent : hook_on_data_test ps p e m = Ok ((r, Some out), m')) :
  exists code body, event_answer_spec ps s e ar = Some (code, body) /\
    http_read (out ++ rest) = Some (status_line code (ps_status ps code), body, rest).
Proof.
  destruct (decide (recv_fits (hi_recv e))) as [Hfit|Hfit].
  2: { rewrite (hook_on_data_test_over ps rt e p m h s) in Hsent by done. discriminate. }
  destruct (hook_on_data_test_run ps rt Hexec Hurl e p m h s ar Hat Har Hro (conj Hl Hfit)) as (m1 & Hm & _).
  rewrite event_sent_spec in Hm by done. rewrite Hm in Hsent.
  destruct (event_answer_spec ps s e ar) as [[code body]|] eqn:Hans; [|discriminate].
  injection Hsent as _ <- _. exists code, body. split; [done|]. destruct (Hstatus code).
  apply response_read; [done..|]. unfold event_answer_spec in Hans. case_decide; [done|]. by eapply route_answer_short.
Qed.

(** The answer to a request, followed by the first line of another. *)
Lemma http_response_readable_witness :
  match hook_on_data_test demo_ps 10 (demo_get "GET /app/get?x=1 HTTP/1.1") demo_http_mem with
  | Ok ((_, Some out), _) => http_read (out ++ str "HTTP") = Some (str "HTTP/1.1 200 OK", str "PATH [/app/get], RND [7]!", str "HTTP")
  | _ => False
  end.
Proof.
  destruct (hook_on_data_test demo_ps 10 (demo_get "GET /app/get?x=1 HTTP/1.1") demo_http_mem) as [[[r [out|]] m']|] eqn:Hsent.
  - destruct (http_response_readable demo_ps 2 10 (demo_get "GET /app/get?x=1 HTTP/1.1") demo_http_mem
                demo_sess_hook demo_sess_st demo_routes r out m' (str "HTTP") demo_exec demo_url) as (code & body & Ha & Hr); [| | | | |exact Hsent|].
    + intros code. cbn. case_decide; split; try (apply Nat.leb_le; by vm_compute);
        apply (bool_decide_unpack _); by vm_compute.
    + exact demo_sess_at.
    + reflexivity.
    + exact demo_routes_ok.
    + exact (demo_legal_http _ eq_refl eq_refl).
    + rewrite Hr. assert (Hspec : event_answer_spec demo_ps demo_sess_st (demo_get "GET /app/get?x=1 HTTP/1.1") demo_routes
        = Some (200, captcha_text (str "/app/get") 7)) by (by vm_compute).
      rewrite Hspec in Ha. injection Ha as <- <-. by vm_compute.
  - exfalso. assert (Hb : match hook_on_data_test demo_ps 10 (demo_get "GET /app/get?x=1 HTTP/1.1") demo_http_mem with
      | Ok ((_, None), _) => true | _ => false end = false) by (by vm_compute). rewrite Hsent in Hb. discriminate.
  - exfalso. assert (Hb : match hook_on_data_test demo_ps 10 (demo_get "GET /app/get?x=1 HTTP/1.1") demo_http_mem with
      | Fault _ => true | _ => false end = false) by (by vm_compute). rewrite Hsent in Hb. discriminate.
Defined.
