(* ===== verification/Listen.v ===== *)
(** * Listening sockets

    src/utils.c, src/ioqueue.c and the set-up half of src/ioqueue_socket.c:
    [ioqueue_socket_prepare] resolves an address and binds a socket to each result,
    [ioqueue_socket_deploy] listens on them and registers a hook for each.  What the
    resolver, the kernel and the allocator answer is input. *)
From S2P Require Import Prelude NodeHeap CLib Assoc Hook Server.

#[local] Open Scope Z_scope.

(** ** src/utils.c *)

(** A scan over a C string while [p] holds, and whether it reached the NUL: [str] is
    the memory from the pointer on. *)
Fixpoint scan (p : Z -> bool) (str : bytes) : result Z :=
  match str with
  | [] => Fault OutOfBounds
  | c :: str => if decide (c = 0) then Ok 1 else if p c then scan p str else Ok 0
  end.

Definition scan_arg (p : Z -> bool) (str : option bytes) : result Z :=
  match str with None => Ok 0 | Some s => scan p s end.

Definition isdigit (c : Z) : bool := bool_decide (48 <= c <= 57).
Definition isxdigit (c : Z) : bool := isdigit c || bool_decide (65 <= c <= 70) || bool_decide (97 <= c <= 102).

Definition ctype_digit : option bytes -> result Z := scan_arg isdigit.
Definition seems_ip4 : option bytes -> result Z := scan_arg (fun c => isdigit c || bool_decide (c = 46)).
Definition seems_ip6 : option bytes -> result Z := scan_arg (fun c => isxdigit c || bool_decide (c = 58)).

(** [inet_pton] is the C library's. *)
Definition is_valid_ip4 (inet_pton : Z -> option bytes -> Z) (family : Z) (str : option bytes) : Z :=
  if decide (inet_pton family str = 1) then 1 else 0.

(** ** src/ioqueue.c *)
Record ioqueue := Ioqueue { iq_flags : Z; iq_fd : list Z; iq_fdlen : Z }.

Definition ioqueue_new (flags : Z) : ioqueue := Ioqueue flags [] 0.
Definition ioqueue_set_flags (iq : ioqueue) (flags : Z) : ioqueue :=
  Ioqueue (Z.lor (iq_flags iq) flags) (iq_fd iq) (iq_fdlen iq).

(** ** src/ioqueue_socket.c *)
Definition IOQUEUE_SOCKET_TCP : Z := 1.
Definition IOQUEUE_SOCKET_UDP : Z := 2.
Definition IOQUEUE_SOCKET_IP4 : Z := 4.
Definition IOQUEUE_SOCKET_IP6 : Z := 8.
Definition IOQUEUE_SOCKET_IP46 : Z := 16.
Definition IOQUEUE_SOCKET_UNIX : Z := 32.
Definition IOQUEUE_SOCKET_ACTIVE : Z := 64.
Definition IOQUEUE_SOCKET_PASSIVE : Z := 128.

(** Constants of the socket interface of Linux. *)
Definition SOCK_STREAM : Z := 1.
Definition SOCK_DGRAM : Z := 2.
Definition AF_UNSPEC : Z := 0.
Definition AF_UNIX : Z := 1.
Definition AF_INET : Z := 2.
Definition AF_INET6 : Z := 10.
Definition AI_PASSIVE : Z := 1.
Definition AI_NUMERICHOST : Z := 4.
Definition AI_NUMERICSERV : Z := 1024.
Definition SUN_PATH_SZ : nat := 108.

Record hints := Hints { ai_flags : Z; ai_family : Z; ai_socktype : Z; sun_path : bytes }.

(** What [socket], [bind] and the [realloc] of [iq->fd] give for one address. *)
Record addr := Addr { ad_sock : Z; ad_bind : bool; ad_alloc : bool }.

(** The system around the set-up: [access] and [unlink] of the socket path, the one
    address of a Unix socket, the resolver ([None] is an error), [listen] on a
    descriptor, the address of the hook [calloc] gives for the i-th socket, and the bytes
    a block of the allocator holds when [n] were asked for. *)
Record net := Net {
  nt_access : bool; nt_unlink : bool; nt_unix : addr;
  nt_getaddrinfo : option bytes -> option bytes -> hints -> option (list addr);
  nt_listen : Z -> bool; nt_hook : nat -> option loc; nt_usable : Z -> Z
}.

(** The state of the process before the event loop runs. *)
Record boot := Boot { bt_mem : mem; bt_epoll : gmap Z loc; bt_open : gset Z }.

Definition on_mem {A} (m : st mem A) : st boot A :=
  fun s => match m (bt_mem s) with Ok (a, m') => Ok (a, Boot m' (bt_epoll s) (bt_open s)) | Fault e => Fault e end.

Definition evq_add (fd : Z) (hp : loc) : st boot unit :=
  modifyS (fun s => Boot (bt_mem s) (<[fd := hp]> (bt_epoll s)) (bt_open s)).
Definition opened (fd : Z) : st boot unit :=
  modifyS (fun s => Boot (bt_mem s) (bt_epoll s) ({[fd]} ∪ bt_open s)).
Definition closed (fd : Z) : st boot unit :=
  modifyS (fun s => Boot (bt_mem s) (bt_epoll s) (bt_open s ∖ {[fd]})).

(** [_aget(a, k)] and [_aset(a, k, v)] of an array in memory. *)
Definition aget (a : loc) (k : string) : st mem Z :=
  ar ← array_load a;
  let r := array_get ar (key k) in
  _ ← array_store a r.2;
  mret r.1.
Definition aset (a : loc) (k : string) (v : Z) : st mem unit :=
  ar ← array_load a; array_store a (array_set ar (key k) v).

(** The string literals the program stores in its arrays, as words. *)
Definition STR_localhost : Z := 201.
Definition STR_9990 : Z := 202.
Definition STR_sock : Z := 203.
Definition literal (w : Z) : result (option bytes) :=
  if decide (w = 0) then Ok None
  else if decide (w = STR_localhost) then Ok (Some (key "localhost"))
  else if decide (w = STR_9990) then Ok (Some (key "9990"))
  else if decide (w = STR_sock) then Ok (Some (key "/tmp/ayubd-ng.sock"))
  else Fault NullDeref.

(** [strncpy(dst, src, n)] into a zeroed [dst] *)
Definition strncpy (dst : bytes) (n : nat) (src : bytes) : result bytes :=
  let s := cstring src in buf_write dst 0 (take n s ++ replicate (n - length s) 0).

(** [DO_REALLOC(iq->fd, iq->fdlen+1)] asks for bytes and the store needs ints. *)
Definition fd_append (usable : Z -> Z) (iq : ioqueue) (sockfd : Z) : result ioqueue :=
  if decide (4 * iq_fdlen iq + 4 <= usable (iq_fdlen iq + 1))
  then Ok (Ioqueue (iq_flags iq) (iq_fd iq ++ [sockfd]) (iq_fdlen iq + 1))
  else Fault OutOfBounds.

(** [for (rp = result; rp != NULL; rp = rp->ai_next)] *)
Fixpoint bind_loop (usable : Z -> Z) (rs : list addr) (iq : ioqueue) : st boot ioqueue :=
  match rs with
  | [] => mret iq
  | r :: rs =>
      if decide (ad_sock r = -1) then bind_loop usable rs iq
      else
        _ ← opened (ad_sock r);
        if CHECKFLAG (iq_flags iq) IOQUEUE_SOCKET_PASSIVE && negb (ad_bind r)
        then (_ ← closed (ad_sock r); bind_loop usable rs iq)
        else if ad_alloc r
        then (iq ← liftS (fd_append usable iq (ad_sock r)); bind_loop usable rs iq)
        else (_ ← closed (ad_sock r); bind_loop usable rs iq)
  end.

(** The flags and hints up to the resolution; no hints when the old socket of a Unix
    path cannot be removed. *)
Definition prepare_hints (nt : net) (iq : ioqueue) : ioqueue * option hints :=
  let udp := CHECKFLAG (iq_flags iq) IOQUEUE_SOCKET_UDP in
  let socktype := if udp then SOCK_DGRAM else SOCK_STREAM in
  let iq := if udp then iq else ioqueue_set_flags iq IOQUEUE_SOCKET_TCP in
  let '(iq, family) :=
    if CHECKFLAG (iq_flags iq) IOQUEUE_SOCKET_IP4 then (iq, Some AF_INET)
    else if CHECKFLAG (iq_flags iq) IOQUEUE_SOCKET_IP6 then (iq, Some AF_INET6)
    else if CHECKFLAG (iq_flags iq) IOQUEUE_SOCKET_UNIX then
      (iq, if nt_access nt && negb (nt_unlink nt) then None else Some AF_UNIX)
    else (ioqueue_set_flags iq IOQUEUE_SOCKET_IP46, Some AF_UNSPEC) in
  match family with
  | None => (iq, None)
  | Some family =>
      let active := CHECKFLAG (iq_flags iq) IOQUEUE_SOCKET_ACTIVE in
      (if active then iq else ioqueue_set_flags iq IOQUEUE_SOCKET_PASSIVE,
       Some (Hints (if active then 0 else AI_PASSIVE) family socktype (replicate SUN_PATH_SZ 0)))
  end.

(** The addresses to bind: [None] when [getaddrinfo] fails. *)
Definition prepare_addrs (nt : net) (iq : ioqueue) (h : hints) (node serv : option bytes)
  : result (option (list addr)) :=
  if CHECKFLAG (iq_flags iq) IOQUEUE_SOCKET_UNIX then
    path ← from_option_fault NullDeref node;
    _ ← strncpy (sun_path h) (SUN_PATH_SZ - 1) path;
    Ok (Some [nt_unix nt])
  else
    ip4 ← seems_ip4 node;
    ip ← (if decide (ip4 = 1) then Ok 1 else seems_ip6 node);
    dig ← ctype_digit serv;
    let fl := Z.lor (ai_flags h) (if decide (ip = 1) then AI_NUMERICHOST else 0) in
    let fl := Z.lor fl (if decide (dig = 1) then AI_NUMERICSERV else 0) in
    Ok (nt_getaddrinfo nt node serv (Hints fl (ai_family h) (ai_socktype h) (sun_path h))).

Definition ioqueue_socket_prepare (nt : net) (iq : ioqueue) (args : loc) : st boot (Z * ioqueue) :=
  nodew ← on_mem (aget args "node");
  servw ← on_mem (aget args "serv");
  node ← liftS (literal nodew);
  serv ← liftS (literal servw);
  match prepare_hints nt iq with
  | (iq, None) => mret (-1, iq)
  | (iq, Some h) =>
      rs ← liftS (prepare_addrs nt iq h node serv);
      match rs with
      | None => mret (-1, iq)
      | Some rs => iq ← bind_loop (nt_usable nt) rs iq; mret (0, iq)
      end
  end.

Definition ready_hook (flags : Z) (ready : ready_fn) : ready_fn :=
  if CHECKFLAG flags IOQUEUE_SOCKET_PASSIVE then
    (if CHECKFLAG flags IOQUEUE_SOCKET_TCP then Rd_on_connect else Rd_on_data)
  else ready.

(** The hook of one socket. *)
Definition deploy_hook (flags : Z) (ready : ready_fn) (args hp : loc) (sys sockfd : Z) : st mem unit :=
  _ ← hook_new hp;
  _ ← hook_modify hp (set_fd sockfd);
  _ ← hook_modify hp (set_ready (Some ready));
  _ ← hook_modify hp (set_data (Some args));
  _ ← hook_modify hp (set_udata UD_CORE_SYSPTR sys);
  ar ← array_load args;
  _ ← (if array_key_exists ar (key "route")
       then (rt ← aget args "route"; hook_modify hp (set_udata UD_MOD_HTTP_ROUTE rt)) else mret tt);
  hook_modify hp (set_events (if CHECKFLAG flags IOQUEUE_SOCKET_PASSIVE then EPOLLIN else EPOLLIN + EPOLLOUT)).

(** [for (i = 0; i < iq->fdlen; i++)] *)
Fixpoint deploy_loop (nt : net) (flags : Z) (args : loc) (sys : Z) (ready : ready_fn) (i : nat) (fds : list Z)
  : st boot Z :=
  match fds with
  | [] => mret 0
  | sockfd :: fds =>
      if CHECKFLAG flags IOQUEUE_SOCKET_PASSIVE && negb (nt_listen nt sockfd) then mret (-1)
      else
        let ready := ready_hook flags ready in
        match nt_hook nt i with
        | None => mret (-1)
        | Some hp =>
            _ ← on_mem (deploy_hook flags ready args hp sys sockfd);
            _ ← evq_add sockfd hp;
            deploy_loop nt flags args sys ready (S i) fds
        end
  end.

Definition ioqueue_socket_deploy (nt : net) (iq : ioqueue) (args : loc) : st boot Z :=
  sys ← on_mem (aget args "sys");
  _ ← liftS (guard_fault AssertFailed (bool_decide (sys <> 0)));
  deploy_loop nt (iq_flags iq) args sys Rd_on_connect 0 (take (Z.to_nat (iq_fdlen iq)) (iq_fd iq)).
