(* ===== verification/ListenOk.v ===== *)
(** * Listening sockets: proofs

    What the set-up of Listen.v leaves: the sockets that could be bound are open, in
    [iq->fd] and, after [ioqueue_socket_deploy], registered with a hook each. *)
From S2P Require Import Prelude NodeHeap CLib Assoc Hook Server Listen.

#[local] Open Scope Z_scope.

(** ** Runs in the memory of the start *)
Lemma on_mem_run {A} (m : st mem A) s a m' :
  m (bt_mem s) = Ok (a, m') -> on_mem m s = Ok (a, Boot m' (bt_epoll s) (bt_open s)).
Proof. unfold on_mem. by intros ->. Qed.

Lemma aset_run a k v m ar :
  m_arrays m !! a = Some ar ->
  aset a k v m = Ok (tt, Mem (m_hooks m) (m_blocks m) (<[a := array_set ar (key k) v]> (m_arrays m))).
Proof.
  intros Ha. unfold aset. rewrite (st_bind_run _ _ m ar m) by (unfold array_load; by rewrite Ha).
  unfold array_store. by rewrite Ha.
Qed.

Lemma aget_run a k m ar :
  m_arrays m !! a = Some ar ->
  aget a k m = Ok ((array_get ar (key k)).1,
                   Mem (m_hooks m) (m_blocks m) (<[a := (array_get ar (key k)).2]> (m_arrays m))).
Proof.
  intros Ha. unfold aget. rewrite (st_bind_run _ _ m ar m) by (unfold array_load; by rewrite Ha). cbn zeta.
  erewrite st_bind_run; [|unfold array_store; by rewrite Ha]. done.
Qed.

(** A key that is there is read without a change. *)
Lemma aget_present a k m ar v :
  m_arrays m !! a = Some ar -> ar !! key k = Some v -> aget a k m = Ok (v, m).
Proof.
  intros Ha Hk. rewrite (aget_run a k m ar Ha). unfold array_get. rewrite Hk. cbn [fst snd].
  rewrite insert_id by done. by destruct m.
Qed.

(** ** Binding *)
Definition kept (flags : Z) (r : addr) : bool :=
  negb (CHECKFLAG flags IOQUEUE_SOCKET_PASSIVE && negb (ad_bind r)) && ad_alloc r.

(** The sockets [iq->fd] gets. *)
Fixpoint bound (flags : Z) (rs : list addr) : list Z :=
  match rs with
  | [] => []
  | r :: rs => if decide (ad_sock r = -1) then bound flags rs
               else if kept flags r then ad_sock r :: bound flags rs else bound flags rs
  end.

(** [socket] answers -1 or a descriptor that is not open. *)
Fixpoint fresh_socks (flags : Z) (rs : list addr) (opn : gset Z) : Prop :=
  match rs with
  | [] => True
  | r :: rs =>
      if decide (ad_sock r = -1) then fresh_socks flags rs opn
      else 0 <= ad_sock r /\ ad_sock r ∉ opn /\
        fresh_socks flags rs (if kept flags r then {[ad_sock r]} ∪ opn else opn)
  end.

Lemma fresh_socks_bound flags rs opn :
  fresh_socks flags rs opn ->
  NoDup (bound flags rs) /\ Forall (fun fd => 0 <= fd /\ fd ∉ opn) (bound flags rs).
Proof.
  revert opn. induction rs as [|r rs IH]; intros opn; cbn [fresh_socks bound]; [by repeat constructor|].
  case_decide as Hr; [apply IH|]. intros (H0 & Hn & Hf).
  destruct (kept flags r); [|by apply IH]. destruct (IH _ Hf) as [Hnd Hall]. split.
  - constructor; [|done]. intros Hin. rewrite Forall_forall in Hall. destruct (Hall _ Hin) as [_ Hno]. set_solver.
  - constructor; [done|]. eapply Forall_impl; [exact Hall|]. cbn. set_solver.
Qed.

Section bind.
Context (usable : Z -> Z).

(** The store into [iq->fd] stays in its block for [k] sockets. *)
Definition room (k : nat) : Prop := forall j, 0 <= j < Z.of_nat k -> 4 * j + 4 <= usable (j + 1).

Lemma fd_append_ok iq fd k :
  iq_fdlen iq = Z.of_nat (length (iq_fd iq)) -> (length (iq_fd iq) < k)%nat -> room k ->
  fd_append usable iq fd = Ok (Ioqueue (iq_flags iq) (iq_fd iq ++ [fd]) (iq_fdlen iq + 1)).
Proof. intros Hl Hk Hr. unfold fd_append. rewrite decide_True; [done|]. apply Hr. lia. Qed.

Lemma bind_loop_ok rs iq s :
  let fds := bound (iq_flags iq) rs in
  iq_fdlen iq = Z.of_nat (length (iq_fd iq)) -> fresh_socks (iq_flags iq) rs (bt_open s) ->
  room (length (iq_fd iq) + length fds) ->
  bind_loop usable rs iq s =
    Ok (Ioqueue (iq_flags iq) (iq_fd iq ++ fds) (Z.of_nat (length (iq_fd iq ++ fds))),
        Boot (bt_mem s) (bt_epoll s) (list_to_set fds ∪ bt_open s)).
Proof.
  revert iq s. induction rs as [|r rs IH]; intros iq s; cbn [bound bind_loop fresh_socks].
  - intros Hl _ _. cbn [list_to_set]. rewrite app_nil_r, <- Hl, (left_id_L ∅ (∪)). destruct iq, s. done.
  - case_decide as Hr; [apply IH|]. intros Hl (H0 & Hn & Hf) Hroom. unfold kept in *.
    assert (Hback : ({[ad_sock r]} ∪ bt_open s) ∖ {[ad_sock r]} = bt_open s) by set_solver.
    erewrite st_bind_run; [|done].
    destruct (CHECKFLAG (iq_flags iq) IOQUEUE_SOCKET_PASSIVE && negb (ad_bind r)); cbn [negb andb] in *.
    { erewrite st_bind_run; [|done]. cbn [bt_mem bt_epoll bt_open]. rewrite Hback. destruct s. by apply IH. }
    destruct (ad_alloc r).
    + cbn [length] in Hroom. pose proof (fd_append_ok iq (ad_sock r) _ Hl (Nat.lt_add_pos_r (S _) _ (Nat.lt_0_succ _)) Hroom) as Happ.
      erewrite st_bind_run; [|unfold liftS; by rewrite Happ].
      rewrite IH; cbn [iq_flags iq_fd iq_fdlen bt_mem bt_epoll bt_open].
      * rewrite <- app_assoc. cbn [app]. by rewrite list_to_set_cons, (assoc_L (∪)), (comm_L (∪) {[_]}).
      * rewrite length_app, Hl. cbn. lia.
      * done.
      * rewrite length_app. cbn. by replace (_ + 1 + _)%nat with (length (iq_fd iq) + S (length (bound (iq_flags iq) rs)))%nat by lia.
    + erewrite st_bind_run; [|done]. cbn [bt_mem bt_epoll bt_open]. rewrite Hback. destruct s. by apply IH.
Qed.

(** Without the room the first store past the block is a fault. *)
Lemma bind_loop_overflow rs iq s :
  let fds := bound (iq_flags iq) rs in
  iq_fdlen iq = Z.of_nat (length (iq_fd iq)) ->
  ~ (forall j, Z.of_nat (length (iq_fd iq)) <= j < Z.of_nat (length (iq_fd iq) + length fds) -> 4 * j + 4 <= usable (j + 1)) ->
  bind_loop usable rs iq s = Fault OutOfBounds.
Proof.
  revert iq s. induction rs as [|r rs IH]; intros iq s; cbn [bound bind_loop].
  - intros _ []. cbn [length]. lia.
  - case_decide as Hr; [apply IH|]. intros Hl Hroom. unfold kept in *.
    erewrite st_bind_run; [|done].
    destruct (CHECKFLAG (iq_flags iq) IOQUEUE_SOCKET_PASSIVE && negb (ad_bind r)); cbn [negb andb] in *.
    { erewrite st_bind_run; [|done]. by apply IH. }
    destruct (ad_alloc r).
    + cbn [length] in Hroom. destruct (decide (4 * iq_fdlen iq + 4 <= usable (iq_fdlen iq + 1))) as [Hfit|Hfit].
      * erewrite st_bind_run; [|unfold liftS, fd_append; by rewrite decide_True].
        apply IH; cbn [iq_flags iq_fd iq_fdlen]; rewrite length_app; cbn [length]; [lia|].
        intros Hall. apply Hroom. intros j Hj.
        destruct (decide (j = Z.of_nat (length (iq_fd iq)))) as [->|]; [by rewrite <- Hl|]. apply Hall. lia.
      * apply st_bind_fault. unfold liftS, fd_append. by rewrite decide_False.
    + erewrite st_bind_run; [|done]. by apply IH.
Qed.
End bind.

(** ** Registering *)
Section deploy.
Context (nt : net) (args rt : loc) (sys : Z) (flags : Z).
Context (Hpassive : CHECKFLAG flags IOQUEUE_SOCKET_PASSIVE = true) (Htcp : CHECKFLAG flags IOQUEUE_SOCKET_TCP = true).
Context (Hhook : forall i, is_Some (nt_hook nt i)) (Hinj : forall i j, nt_hook nt i = nt_hook nt j -> i = j).

(** The hook of a listening socket. *)
Definition listener (fd : Z) : hook :=
  Hook [] fd (Some Rd_on_connect) None (Some args) EPOLLIN 1
    (<[UD_MOD_HTTP_ROUTE := ptr rt]> (<[UD_CORE_SYSPTR := sys]> (replicate UDATASZ 0))).

(** After [i] turns of the loop the sockets of [fds] are registered. *)
Record registered (ars : gmap loc array) (i : nat) (fds : list Z) (s : boot) : Prop := {
  rg_blocks : m_blocks (bt_mem s) = ∅;
  rg_arrays : m_arrays (bt_mem s) = ars;
  rg_hook p h : m_hooks (bt_mem s) !! p = Some h ->
    exists fd, h = listener fd /\ bt_epoll s !! fd = Some p /\ exists j, (j < i)%nat /\ nt_hook nt j = Some p;
  rg_epoll fd p : bt_epoll s !! fd = Some p -> m_hooks (bt_mem s) !! p = Some (listener fd);
  rg_fds fd : is_Some (bt_epoll s !! fd) <-> fd ∈ fds
}.

Lemma deploy_hook_run hp fd m ar :
  m_arrays m !! args = Some ar -> ar !! key "route" = Some (ptr rt) ->
  deploy_hook flags Rd_on_connect args hp sys fd m =
    Ok (tt, Mem (<[hp := listener fd]> (m_hooks m)) (m_blocks m) (m_arrays m)).
Proof using Hpassive.
  intros Ha Hr. unfold deploy_hook.
  erewrite st_bind_run; [|done].
  do 4 (erewrite st_bind_run; [|unfold hook_modify; cbn [m_hooks]; by rewrite lookup_insert_eq]).
  cbn [m_hooks m_blocks m_arrays]. rewrite !insert_insert_eq.
  erewrite st_bind_run; [|unfold array_load; cbn [m_arrays]; by rewrite Ha].
  unfold array_key_exists. rewrite bool_decide_eq_true_2 by (by rewrite Hr).
  erewrite st_bind_run.
  2:{ erewrite st_bind_run; [|by eapply aget_present]. unfold hook_modify. cbn [m_hooks]. by rewrite lookup_insert_eq. }
  unfold hook_modify. cbn [m_hooks m_blocks m_arrays]. rewrite lookup_insert_eq, !insert_insert_eq, Hpassive. done.
Qed.

Lemma registered_step ars i fds s hp fd ar :
  registered ars i fds s -> ars !! args = Some ar -> ar !! key "route" = Some (ptr rt) ->
  nt_hook nt i = Some hp -> fd ∉ fds ->
  exists m, deploy_hook flags Rd_on_connect args hp sys fd (bt_mem s) = Ok (tt, m) /\
    registered ars (S i) (fds ++ [fd]) (Boot m (<[fd := hp]> (bt_epoll s)) (bt_open s)).
Proof using Hpassive Hinj.
  intros [H1 H2 H3 H4 H5] Ha Hr Hhp Hfd.
  eexists. split; [eapply deploy_hook_run; [by rewrite H2|done]|].
  assert (Hnew : m_hooks (bt_mem s) !! hp = None).
  { destruct (m_hooks (bt_mem s) !! hp) as [h|] eqn:Hh; [|done].
    destruct (H3 hp h Hh) as (_ & _ & _ & j & Hj & Hhj). rewrite <- Hhp in Hhj. apply Hinj in Hhj. lia. }
  split; cbn [bt_mem bt_epoll m_hooks m_blocks m_arrays]; try done.
  - intros p h [[<- <-]|[Hne Hp]]%lookup_insert_Some.
    + exists fd. rewrite lookup_insert_eq. split; [done|]. split; [done|]. exists i. split; [lia|done].
    + destruct (H3 p h Hp) as (fd' & -> & Hep & j & Hj & Hhj). exists fd'. split; [done|]. split.
      * rewrite lookup_insert_ne; [done|]. intros <-. apply Hfd, H5. by rewrite Hep.
      * exists j. split; [lia|done].
  - intros fd' p [[<- <-]|[Hne Hp]]%lookup_insert_Some; [by rewrite lookup_insert_eq|].
    rewrite lookup_insert_ne; [by apply H4|]. intros <-. apply H4 in Hp. congruence.
  - intros fd'. rewrite elem_of_app, list_elem_of_singleton. destruct (decide (fd' = fd)) as [->|Hne].
    + rewrite lookup_insert_eq. naive_solver.
    + rewrite lookup_insert_ne by done. rewrite H5. naive_solver.
Qed.

Lemma deploy_loop_app ars ar fds0 fds i s :
  registered ars i fds0 s -> ars !! args = Some ar -> ar !! key "route" = Some (ptr rt) ->
  NoDup (fds0 ++ fds) -> Forall (fun fd => nt_listen nt fd = true) fds ->
  exists s', (forall rest, deploy_loop nt flags args sys Rd_on_connect i (fds ++ rest) s =
                        deploy_loop nt flags args sys Rd_on_connect (i + length fds) rest s') /\
    registered ars (i + length fds) (fds0 ++ fds) s' /\ bt_open s' = bt_open s.
Proof using Hpassive Htcp Hhook Hinj.
  intros Hrg Ha Hr. revert fds0 i s Hrg. induction fds as [|fd fds IH]; intros fds0 i s Hrg Hnd Hl.
  - exists s. cbn [length app]. rewrite app_nil_r, Nat.add_0_r. done.
  - apply Forall_cons in Hl as [Hfd Hl]. destruct (Hhook i) as [hp Hhp].
    assert (Hnin : fd ∉ fds0).
    { apply NoDup_app in Hnd as (_ & Hd & _). intros Hin. apply (Hd fd Hin). by left. }
    destruct (registered_step ars i fds0 s hp fd ar Hrg Ha Hr Hhp Hnin) as (m & Hm & Hrg').
    destruct (IH (fds0 ++ [fd]) (S i) _ Hrg') as (s' & Hs' & Hrg2 & Ho); [by rewrite <- app_assoc|done|].
    exists s'. cbn [length]. rewrite <- Nat.add_succ_comm. split; [|split; [by rewrite <- app_assoc in Hrg2|done]].
    intros rest. cbn [app deploy_loop]. rewrite Hpassive, Hfd. cbn [negb andb]. unfold ready_hook. rewrite Hpassive, Htcp, Hhp.
    erewrite st_bind_run; [|by apply on_mem_run]. erewrite st_bind_run; [|done]. apply Hs'.
Qed.
End deploy.

(** [ioqueue_socket_deploy] up to the first socket [listen] fails on, if any. *)
Lemma deploy_run nt args rt sys flags ars ar fds rest s :
  CHECKFLAG flags IOQUEUE_SOCKET_PASSIVE = true -> CHECKFLAG flags IOQUEUE_SOCKET_TCP = true ->
  (forall i, is_Some (nt_hook nt i)) -> (forall i j, nt_hook nt i = nt_hook nt j -> i = j) -> sys <> 0 ->
  registered nt args rt sys ars 0 [] s -> ars !! args = Some ar ->
  ar !! key "sys" = Some sys -> ar !! key "route" = Some (ptr rt) ->
  NoDup fds -> Forall (fun fd => nt_listen nt fd = true) fds ->
  match rest with [] => True | fd :: _ => nt_listen nt fd = false end ->
  exists s', ioqueue_socket_deploy nt (Ioqueue flags (fds ++ rest) (Z.of_nat (length (fds ++ rest)))) args s =
      Ok (if rest is [] then 0 else -1, s') /\
    registered nt args rt sys ars (length fds) fds s' /\ bt_open s' = bt_open s.
Proof.
  intros Hp Ht Hh Hi Hsys Hrg Ha Hs Hr Hnd Hl Hrest.
  destruct (deploy_loop_app nt args rt sys flags Hp Ht Hh Hi ars ar [] fds 0 s Hrg Ha Hr Hnd Hl) as (s' & Hs' & Hrg' & Ho).
  exists s'. split; [|done]. unfold ioqueue_socket_deploy.
  erewrite st_bind_run; [|apply on_mem_run; eapply aget_present; [by rewrite (rg_arrays _ _ _ _ _ _ _ _ Hrg)|done]].
  erewrite st_bind_run; [|by rewrite bool_decide_eq_true_2]. cbn [iq_flags iq_fd iq_fdlen].
  rewrite Nat2Z.id, firstn_all. destruct s as [m e o]. cbn [bt_mem bt_epoll bt_open]. rewrite Hs'.
  destruct rest as [|fd rest]; [done|]. cbn [deploy_loop]. by rewrite Hp, Hrest.
Qed.
