(* ===== verification/Boot.v ===== *)
(** * Starting the program

    [module_start] and [module_stop] of src/modules/http/mod_http.c, and
    [ayubd_config_read], [ayubd_module_load], [ayubd_init] and [main] of src/main.c: from
    the answers of the system to the state [ayubd_run] starts in. *)
From S2P Require Import Prelude NodeHeap Fifo Stailq CLib Assoc Hook Server Listen Http.

#[local] Open Scope Z_scope.

(** ** src/modules/http/mod_http.c *)

(** [array_new()] at the address the trie gets. *)
Definition array_alloc (a : loc) : st mem unit :=
  modifyS (fun m => Mem (m_hooks m) (m_blocks m) (<[a := array_new]> (m_arrays m))).

(** [unix] is the build option USE_UNIX_SOCKET, [iq_ok] whether [ioqueue_new] got memory. *)
Definition start_args (unix : bool) (args rt : loc) (sys : Z) : st mem unit :=
  _ ← (if unix then aset args "node" STR_sock
       else (_ ← aset args "node" STR_localhost; aset args "serv" STR_9990));
  _ ← aset args "sys" sys;
  _ ← aset args "hoda" FN_hook_on_data_test;
  _ ← array_alloc rt;
  _ ← aset rt "/app/get" FN_captcha_get;
  _ ← aset rt "/app/verify" FN_captcha_verify;
  aset args "route" (ptr rt).

Definition module_start (nt : net) (unix iq_ok : bool) (args rt : loc) (sys : Z) : st boot Z :=
  _ ← on_mem (array_alloc args);
  ret ← (if iq_ok : bool then
           let iq := ioqueue_new 0 in
           let iq := if unix then ioqueue_set_flags iq IOQUEUE_SOCKET_UNIX else iq in
           _ ← on_mem (start_args unix args rt sys);
           r ← ioqueue_socket_prepare nt iq args;
           if decide (r.1 <> 0) then mret (-1)
           else (ret ← ioqueue_socket_deploy nt r.2 args; mret (if decide (ret <> 0) then -1 else ret))
         else mret (-1));
  _ ← when (bool_decide (ret = -1)) (on_mem (array_free args));
  mret ret.

(** ** src/module.h *)
Record module_t := Module { mod_name : bytes; mod_fd : Z; mod_handle : bool }.

Definition module_new : module_t := Module (replicate 32 0) 0 false.

(** [if (mod && mod->fd > 0) close(mod->fd);] *)
Definition module_stop (md : option module_t) : st boot Z :=
  _ ← match md with
      | Some md => when (bool_decide (0 < mod_fd md)) (closed (mod_fd md))
      | None => mret tt
      end;
  mret 0.

(** ** src/main.c *)

(** ["modules/%s/mod_%s.so"] cut to 256 bytes; a name that fills its field runs into the
    zero bytes of [fd]. *)
Definition module_path (md : module_t) (name : bytes) : bytes :=
  take 255 (str "modules/" ++ cstring (mod_name md ++ [0]) ++ str "/mod_" ++ cstring name ++ str ".so").

(** [dlopen] of a path, [dlsym] of [module_start]; [start] is the module's function.  After
    a failed [dlsym] the NULL function is called. *)
Definition ayubd_module_load (dlopen : bytes -> bool) (dlsym : bool) (start : st boot Z) (name : bytes)
  : st boot (Z * module_t) :=
  nm ← liftS (strncpy (mod_name module_new) 32 name);
  let md := Module nm 0 false in
  if dlopen (module_path md name) then
    (if dlsym then (fd ← start; mret (0, Module nm fd true)) else raiseS NullDeref)
  else mret (-1, md).

(** [nproc], [open_max]: what [sysconf] answers. *)
Definition ayubd_config_read (nproc open_max : Z) : array :=
  let cpu := if decide (nproc < 0) then 2 else nproc in
  let ev := if decide (open_max <= 0) then 1024 else open_max in
  array_set (array_set array_new (key "cpu_core") (u64 cpu)) (key "open_max") (u64 ev).

Definition SYMTBLSZ : nat := 16.
Definition NR_SYS_NWORKERS : nat := 1.
Definition NR_SYS_NEVENTS : nat := 2.
Definition NR_SYS_SYSPTR : nat := 3.

Section init.
Context {Q : Type}.

(** [system_t] after [ayubd_init]; [sys_worker] is the argument of each thread. *)
Record system := System {
  sys_nworkers : Z; sys_nevents : Z; sys_symtbl : list Z;
  sys_q : list Q; sys_sem : list nat; sys_worker : list hook
}.

(** The body of the loop: [new_q] makes a queue, [data] is the address of the array. *)
Definition init_worker (new_q : result Q) (sysptr : Z) (data : loc) (i : Z) : result (hook * Q) :=
  let hp := set_data (Some data) (Hook [] 0 None None None 0 1 (replicate UDATASZ 0)) in
  let hp := set_udata UD_CORE_NUM (u64 i) (set_udata UD_CORE_SYSPTR sysptr hp) in
  q ← new_q;
  Ok (hp, q).

Fixpoint init_workers (new_q : result Q) (sysptr : Z) (data : Z -> loc) (i : Z) (todo : nat)
  : result (list (hook * Q)) :=
  match todo with
  | O => Ok []
  | S todo =>
      w ← init_worker new_q sysptr (data i) i;
      ws ← init_workers new_q sysptr data (i + 1) todo;
      Ok (w :: ws)
  end.

Definition ayubd_init (new_q : result Q) (sysptr : Z) (data : Z -> loc) (cfg : array) : result system :=
  let c := array_get cfg (key "cpu_core") in
  let nworkers := i32 c.1 in
  let nevents := i32 (array_get c.2 (key "open_max")).1 in
  let symtbl := <[NR_SYS_SYSPTR := sysptr]> (<[NR_SYS_NEVENTS := u64 nevents]>
                  (<[NR_SYS_NWORKERS := u64 nworkers]> (replicate SYMTBLSZ 0))) in
  ws ← init_workers new_q sysptr data 0 (Z.to_nat nworkers);
  Ok (System nworkers nevents symtbl ws.*2 (replicate (length ws) 0%nat) ws.*1).

(** What [ayubd_worker] reads from its argument: the system and its number. *)
Definition worker_start (hp : hook) : result (Z * Z) :=
  sys ← from_option_fault OutOfBounds (hk_udata hp !! UD_CORE_SYSPTR);
  x ← from_option_fault OutOfBounds (hk_udata hp !! UD_CORE_NUM);
  _ ← guard_fault AssertFailed (bool_decide (sys <> 0));
  Ok (sys, i32 x).

(** [ayubd_run] and the workers in front of their loops. *)
Definition ayubd_run_start (sys : system) (s : boot) : srv (Q := Q) :=
  Srv (bt_mem s) (bt_epoll s) (bt_open s) (sys_q sys) (sys_sem sys) MPoll (replicate (length (sys_worker sys)) WWait).

(** [main] up to [ayubd_run]. *)
Definition ayubd_main (new_q : result Q) (sysptr : Z) (data : Z -> loc) (nproc open_max : Z)
    (dlopen : bytes -> bool) (dlsym : bool) (start : Z -> st boot Z) (s : boot) : result srv :=
  let cfg := ayubd_config_read nproc open_max in
  sys ← ayubd_init new_q sysptr data cfg;
  r ← ayubd_module_load dlopen dlsym (start sysptr) (str "http" ++ [0]) s;
  _ ← guard_fault AssertFailed (bool_decide (r.1.1 = 0));
  Ok (ayubd_run_start sys r.2).
End init.
