(* ===== verification/BootSpec.v ===== *)
(** * Starting the program: properties

    What [main] hands to [ayubd_run], whatever the resolver and the kernel answer and
    whatever the allocator's blocks hold: when the set-up faults, when the event loop is reached,
    and what can still go wrong there. *)
From S2P Require Import Prelude NodeHeap Fifo Stailq CLib Assoc Hook Server IoSocket Http SessMem HttpSession HttpRun HttpServer Overlap HttpSafe Listen ListenOk Boot.

#[local] Open Scope Z_scope.

Section start.
Context (nt : net) (unix : bool) (args rt : loc) (sys : Z).
Context (Hne : args <> rt).

(** The array of the listening sockets and the route table after [start_args]. *)
Definition args_array : array :=
  let a := if unix then array_set array_new (key "node") STR_sock
           else array_set (array_set array_new (key "node") STR_localhost) (key "serv") STR_9990 in
  array_set (array_set (array_set a (key "sys") sys) (key "hoda") FN_hook_on_data_test) (key "route") (ptr rt).
Definition routes_array : array :=
  array_set (array_set array_new (key "/app/get") FN_captcha_get) (key "/app/verify") FN_captcha_verify.

Lemma start_args_run m :
  m_arrays m !! args = Some array_new ->
  start_args unix args rt sys m =
    Ok (tt, Mem (m_hooks m) (m_blocks m) (<[args := args_array]> (<[rt := routes_array]> (m_arrays m)))).
Proof using Hne.
  intros Ha. unfold start_args.
  set (a0 := if unix then array_set array_new (key "node") STR_sock
             else array_set (array_set array_new (key "node") STR_localhost) (key "serv") STR_9990).
  rewrite (st_bind_run _ _ m tt (Mem (m_hooks m) (m_blocks m) (<[args := a0]> (m_arrays m)))).
  2:{ unfold a0. clear a0. destruct unix; [by apply aset_run|].
      erewrite st_bind_run; [|by apply aset_run]. rewrite (aset_run _ _ _ _ (array_set array_new (key "node") STR_localhost)).
      - cbn [m_hooks m_blocks m_arrays]. by rewrite insert_insert_eq.
      - cbn [m_arrays]. by rewrite lookup_insert_eq. }
  erewrite st_bind_run; [|apply (aset_run _ _ _ _ a0); cbn [m_arrays]; by rewrite lookup_insert_eq].
  cbn [m_hooks m_blocks m_arrays]. rewrite insert_insert_eq.
  erewrite st_bind_run; [|apply (aset_run _ _ _ _ (array_set a0 (key "sys") sys)); cbn [m_arrays]; by rewrite lookup_insert_eq].
  cbn [m_hooks m_blocks m_arrays]. rewrite insert_insert_eq.
  erewrite st_bind_run; [|done]. cbn [m_hooks m_blocks m_arrays].
  erewrite st_bind_run; [|apply (aset_run _ _ _ _ array_new); cbn [m_arrays]; by rewrite lookup_insert_eq].
  cbn [m_hooks m_blocks m_arrays]. rewrite insert_insert_eq.
  erewrite st_bind_run; [|eapply aset_run; cbn [m_arrays]; by rewrite lookup_insert_eq].
  cbn [m_hooks m_blocks m_arrays]. rewrite insert_insert_eq.
  rewrite (aset_run args "route" _ _ (array_set (array_set a0 (key "sys") sys) (key "hoda") FN_hook_on_data_test)).
  - cbn [m_hooks m_blocks m_arrays]. do 2 f_equal. unfold args_array. fold a0.
    rewrite (insert_insert_ne _ args rt), insert_insert_eq by done. by rewrite insert_insert_ne by done.
  - cbn [m_arrays]. rewrite lookup_insert_ne by done. by rewrite lookup_insert_eq.
Qed.

Lemma args_array_get k v :
  ((k = key "sys" /\ v = sys) \/ (k = key "hoda" /\ v = FN_hook_on_data_test) \/ (k = key "route" /\ v = ptr rt)) ->
  args_array !! k = Some v.
Proof.
  unfold args_array, array_set. intros [[-> ->]|[[-> ->]|[-> ->]]].
  - rewrite !lookup_insert_ne by done. by rewrite lookup_insert_eq.
  - rewrite !lookup_insert_ne by done. by rewrite lookup_insert_eq.
  - by rewrite lookup_insert_eq.
Qed.

Lemma routes_array_ok : routes_ok routes_array.
Proof.
  intros k v. unfold routes_array, array_set, array_new.
  intros [[<- <-]|[_ [[<- <-]|[_ Hv]]%lookup_insert_Some]]%lookup_insert_Some; [right|right|by apply lookup_empty_Some in Hv].
  - split; [by right|]. cbn. lia.
  - split; [by left|]. cbn. lia.
Qed.

(** What the module asks the resolver for, and the flags it ends with. *)
Definition net_addrs : option (list addr) :=
  if unix then (if nt_access nt && negb (nt_unlink nt) then None else Some [nt_unix nt])
  else nt_getaddrinfo nt (Some (key "localhost")) (Some (key "9990"))
         (Hints (AI_PASSIVE + AI_NUMERICSERV) AF_UNSPEC SOCK_STREAM (replicate SUN_PATH_SZ 0)).
Definition net_flags : Z :=
  IOQUEUE_SOCKET_TCP + IOQUEUE_SOCKET_PASSIVE + if unix then IOQUEUE_SOCKET_UNIX else IOQUEUE_SOCKET_IP46.
Definition net_queue : ioqueue := if unix then ioqueue_set_flags (ioqueue_new 0) IOQUEUE_SOCKET_UNIX else ioqueue_new 0.

(** [_aget(args, "serv")] adds the key when it is not there. *)
Definition args_read : array := if unix then <[key "serv" := 0]> args_array else args_array.

Lemma args_read_get k v : args_array !! k = Some v -> k <> key "serv" -> args_read !! k = Some v.
Proof. intros Hk Hs. unfold args_read. destruct unix; [|done]. by rewrite lookup_insert_ne. Qed.

Lemma args_node : args_array !! key "node" = Some (if unix then STR_sock else STR_localhost).
Proof.
  unfold args_array, array_set. destruct unix; rewrite !lookup_insert_ne by done; by rewrite lookup_insert_eq.
Qed.

Lemma args_serv : args_array !! key "serv" = if unix then None else Some STR_9990.
Proof.
  unfold args_array, array_set, array_new. destruct unix; rewrite !lookup_insert_ne by done; [by rewrite lookup_empty|by rewrite lookup_insert_eq].
Qed.

Definition read_boot (s : boot) : boot :=
  Boot (Mem (m_hooks (bt_mem s)) (m_blocks (bt_mem s)) (<[args := args_read]> (m_arrays (bt_mem s)))) (bt_epoll s) (bt_open s).

Lemma prepare_run s :
  m_arrays (bt_mem s) !! args = Some args_array ->
  exists iq, ioqueue_socket_prepare nt net_queue args s =
    match net_addrs with
    | None => Ok ((-1, iq), read_boot s)
    | Some rs => (iq ← bind_loop (nt_usable nt) rs (Ioqueue net_flags [] 0); mret (0, iq)) (read_boot s)
    end.
Proof using Hne.
  intros Ha. unfold ioqueue_socket_prepare.
  erewrite st_bind_run; [|apply on_mem_run; eapply aget_present; [done|apply args_node]].
  erewrite st_bind_run; [|apply on_mem_run; cbn [bt_mem]; by apply aget_run].
  cbn [bt_mem bt_epoll bt_open]. unfold array_get. rewrite args_serv.
  replace (Boot _ _ _) with (read_boot s).
  2:{ unfold read_boot, args_read. by destruct unix. }
  unfold net_addrs, net_queue, net_flags. destruct unix; cbn [fst snd].
  - do 2 (erewrite st_bind_run; [|done]).
    unfold prepare_hints. cbn. destruct (nt_access nt && negb (nt_unlink nt)); [by eexists|].
    exists (ioqueue_new 0). done.
  - do 2 (erewrite st_bind_run; [|done]).
    set (h := Hints _ _ _ _). set (iq := Ioqueue _ [] 0).
    assert (Hh : prepare_hints nt (ioqueue_new 0) = (iq, Some (Hints AI_PASSIVE AF_UNSPEC SOCK_STREAM (replicate SUN_PATH_SZ 0)))) by done.
    rewrite Hh. erewrite st_bind_run.
    2:{ unfold liftS. replace (prepare_addrs _ _ _ _ _) with (Ok (nt_getaddrinfo nt (Some (key "localhost")) (Some (key "9990")) h)); done. }
    destruct (nt_getaddrinfo nt _ _ h); [exists iq|eexists]; done.
Qed.
End start.

(** ** The module *)
Definition boot0 : boot := Boot (Mem ∅ ∅ ∅) ∅ ∅.

(** The sockets the module listens on. *)
Definition listening (nt : net) (unix : bool) : list Z := bound (net_flags unix) (default [] (net_addrs nt unix)).

(** What the system answers: fresh descriptors and hooks at distinct addresses; [listen] works on
    [fds] and fails on the first of [rest]. *)
Record net_ok (nt : net) (unix : bool) : Prop := {
  no_fresh : fresh_socks (net_flags unix) (default [] (net_addrs nt unix)) ∅;
  no_hook i : is_Some (nt_hook nt i);
  no_inj i j : nt_hook nt i = nt_hook nt j -> i = j
}.

Record listens (nt : net) (unix : bool) (fds rest : list Z) : Prop := {
  ls_split : listening nt unix = fds ++ rest;
  ls_ok : Forall (fun fd => nt_listen nt fd = true) fds;
  ls_fail : match rest with [] => True | fd :: _ => nt_listen nt fd = false end
}.

(** How far [listen] gets. *)
Lemma listens_split nt unix : exists fds rest, listens nt unix fds rest.
Proof.
  assert (H : forall l, exists fds rest, l = fds ++ rest /\ Forall (fun fd => nt_listen nt fd = true) fds /\
    match rest with [] => True | fd :: _ => nt_listen nt fd = false end).
  { induction l as [|fd l (fds & rest & -> & H1 & H2)]; [by exists [], []|]. destruct (nt_listen nt fd) eqn:Hfd.
    - exists (fd :: fds), rest. by repeat constructor.
    - by exists [], (fd :: fds ++ rest). }
  destruct (H (listening nt unix)) as (fds & rest & H0 & H1 & H2). by exists fds, rest.
Qed.

(** [array_free(args)] *)
Definition args_freed (args : loc) (s : boot) : boot :=
  Boot (Mem (m_hooks (bt_mem s)) (m_blocks (bt_mem s)) (delete args (m_arrays (bt_mem s)))) (bt_epoll s) (bt_open s).

Definition start_arrays (unix : bool) (args rt : loc) (sys : Z) : gmap loc array :=
  <[args := args_read unix rt sys]> (<[args := args_array unix rt sys]> (<[rt := routes_array]> (<[args := array_new]> ∅))).

Section module.
Context (nt : net) (unix : bool) (args rt : loc) (sys : Z).
Context (Hne : args <> rt).
#[local] Abbreviation s1 := (Boot (Mem ∅ ∅ (<[args := args_array unix rt sys]> (<[rt := routes_array]> (<[args := array_new]> ∅)))) ∅ ∅).

Lemma net_flags_set f : f = IOQUEUE_SOCKET_PASSIVE \/ f = IOQUEUE_SOCKET_TCP -> CHECKFLAG (net_flags unix) f = true.
Proof. unfold net_flags. intros [-> | ->]; by destruct unix. Qed.

Lemma array_free_run s ar :
  m_arrays (bt_mem s) !! args = Some ar -> on_mem (array_free args) s = Ok (tt, args_freed args s).
Proof.
  intros Ha. unfold on_mem, array_free. erewrite st_bind_run; [|unfold array_load; by rewrite Ha]. done.
Qed.

Lemma start_args_step (f : boot -> result (Z * boot)) :
  (_ ← on_mem (start_args unix args rt sys); f) (Boot (Mem ∅ ∅ (<[args := array_new]> ∅)) ∅ ∅) = f s1.
Proof using Hne.
  erewrite st_bind_run; [|apply on_mem_run, (start_args_run unix args rt sys Hne)]; [done|].
  cbn [bt_mem m_arrays]. by rewrite lookup_insert_eq.
Qed.

(** Without room for the descriptors. *)
Lemma module_start_overflow :
  ~ room (nt_usable nt) (length (listening nt unix)) -> module_start nt unix true args rt sys boot0 = Fault OutOfBounds.
Proof using Hne.
  intros Hroom. destruct (prepare_run nt unix args rt sys Hne s1) as [iq Hprep]; [cbn [bt_mem m_arrays]; by rewrite lookup_insert_eq|].
  unfold listening in Hroom. destruct (net_addrs nt unix) as [rs|]; cbn [default] in Hroom.
  2:{ exfalso. apply Hroom. intros j. cbn. lia. }
  unfold module_start. erewrite st_bind_run; [|done]. cbn [bt_mem bt_epoll bt_open m_hooks m_blocks m_arrays boot0].
  apply st_bind_fault. fold (net_queue unix). rewrite start_args_step. apply st_bind_fault. rewrite Hprep.
  apply st_bind_fault. apply bind_loop_overflow; [done|]. exact Hroom.
Qed.

Context (Hsys : sys <> 0) (Hnet : net_ok nt unix) (Hroom : room (nt_usable nt) (length (listening nt unix))).
Context (fds rest : list Z) (Hls : listens nt unix fds rest).

Lemma module_start_ok :
  match net_addrs nt unix with
  | None => exists ars, ars !! rt = Some routes_array /\
      module_start nt unix true args rt sys boot0 = Ok (-1, Boot (Mem ∅ ∅ ars) ∅ ∅)
  | Some _ => exists s,
      module_start nt unix true args rt sys boot0 = Ok (if rest is [] then (0, s) else (-1, args_freed args s)) /\
      registered nt args rt sys (start_arrays unix args rt sys) (length fds) fds s /\
      bt_open s = list_to_set (listening nt unix)
  end.
Proof using Hne Hsys Hnet Hroom Hls.
  destruct Hnet as [Hfresh Hhook Hinj]. destruct Hls as [Hsplit Hok Hfail]. set (t1 := s1).
  destruct (prepare_run nt unix args rt sys Hne t1) as [iq Hprep]; [unfold t1; cbn [bt_mem m_arrays]; by rewrite lookup_insert_eq|].
  unfold listening in *. destruct (net_addrs nt unix) as [rs|]; cbn [default] in *.
  - pose proof (bind_loop_ok (nt_usable nt) rs (Ioqueue (net_flags unix) [] 0) (read_boot unix args rt sys t1)) as Hbind.
    cbn [iq_flags iq_fd iq_fdlen app length] in Hbind. specialize (Hbind eq_refl Hfresh Hroom).
    change (id rs) with rs in *. rewrite Hsplit in Hbind. set (s2 := Boot _ _ _) in Hbind.
    assert (Hrg : registered nt args rt sys (start_arrays unix args rt sys) 0 [] s2).
    { split; try done; unfold s2; cbn; intros *; try (by intros ?%lookup_empty_Some).
      rewrite lookup_empty, elem_of_nil. split; [by intros []|done]. }
    assert (Hars : start_arrays unix args rt sys !! args = Some (args_read unix rt sys)).
    { unfold start_arrays. by rewrite lookup_insert_eq. }
    destruct (deploy_run nt args rt sys (net_flags unix) (start_arrays unix args rt sys) (args_read unix rt sys) fds rest s2)
      as (s3 & Hs3 & Hrg3 & Ho); try done; try (apply net_flags_set; naive_solver);
      try (apply args_read_get; [|done]; apply args_array_get; naive_solver).
    { destruct (fresh_socks_bound _ _ _ Hfresh) as [Hnd _]. rewrite Hsplit in Hnd. by apply NoDup_app in Hnd as [Hnd _]. }
    exists s3. split; [|split; [done|]].
    + unfold module_start. erewrite st_bind_run; [|done]. cbn [bt_mem bt_epoll bt_open m_hooks m_blocks m_arrays boot0].
      rewrite (st_bind_run _ _ _ (if rest is [] then 0 else -1) s3).
      2:{ fold (net_queue unix). rewrite start_args_step. fold t1.
          erewrite st_bind_run; [|rewrite Hprep; by erewrite st_bind_run]. cbn [fst snd].
          rewrite decide_False by lia. erewrite st_bind_run; [|exact Hs3]. by destruct rest. }
      destruct rest; [done|]. erewrite st_bind_run; [|eapply array_free_run; by rewrite (rg_arrays _ _ _ _ _ _ _ _ Hrg3)]. done.
    + rewrite Ho, Hsplit. unfold s2. cbn [bt_open read_boot t1]. by rewrite (right_id_L ∅ (∪)).
  - exists (delete args (m_arrays (bt_mem (read_boot unix args rt sys t1)))). split.
    { unfold read_boot, t1. cbn [bt_mem m_arrays]. rewrite lookup_delete_ne, !lookup_insert_ne by done. by rewrite lookup_insert_eq. }
    unfold module_start. erewrite st_bind_run; [|done]. cbn [bt_mem bt_epoll bt_open m_hooks m_blocks m_arrays boot0].
    rewrite (st_bind_run _ _ _ (-1) (read_boot unix args rt sys t1)).
    2:{ fold (net_queue unix). rewrite start_args_step. fold t1. erewrite st_bind_run; [|exact Hprep]. done. }
    erewrite st_bind_run; [|eapply array_free_run; cbn [read_boot bt_mem m_arrays]; by rewrite lookup_insert_eq]. done.
Qed.
End module.

(** ** The state the event loop starts in *)
Lemma registered_fd nt args rt sys ars i fds s p h :
  registered nt args rt sys ars i fds s -> m_hooks (bt_mem s) !! p = Some h ->
  h = listener args rt sys (hk_fd h) /\ bt_epoll s !! hk_fd h = Some p /\ hk_fd h ∈ fds.
Proof.
  intros [_ _ Hh _ Hf] Hp. destruct (Hh p h Hp) as (fd & -> & Hep & _). cbn [listener hk_fd].
  split; [done|]. split; [done|]. apply Hf. by rewrite Hep.
Qed.

Lemma registered_deployed nt args rt sys ars i fds s ar ro :
  registered nt args rt sys ars i fds s -> ars !! args = Some ar -> ar !! key "hoda" = Some FN_hook_on_data_test ->
  ars !! rt = Some ro -> routes_ok ro -> Forall (fun fd => 0 <= fd) fds ->
  deployed {[args; rt]} (http_lst {[args; rt]} rt) (bt_mem s).
Proof.
  intros Hrg Ha Hoda Hr Hro Hfds. pose proof (rg_blocks _ _ _ _ _ _ _ _ Hrg) as Hb.
  pose proof (rg_arrays _ _ _ _ _ _ _ _ Hrg) as Hars.
  assert (Hl : forall p h, m_hooks (bt_mem s) !! p = Some h -> h = listener args rt sys (hk_fd h)).
  { intros p h Hp. by apply (registered_fd _ _ _ _ _ _ _ _ _ _ Hrg Hp). }
  split.
  - split.
    + intros p h Hp. rewrite (Hl p h Hp). constructor.
    + intros p q hp hq b Hp Hq Hbp. rewrite (Hl p hp Hp) in Hbp. by apply elem_of_nil in Hbp.
    + intros p h b Hp Hbp. rewrite (Hl p h Hp) in Hbp. by apply elem_of_nil in Hbp.
    + rewrite Hb. intros b []%lookup_empty_is_Some.
    + intros p h a Hp Hda. rewrite (Hl p h Hp) in Hda. injection Hda as <-. by rewrite Hars, Ha.
    + intros p q hp hq a Hp Hq _ _ Hrd. by rewrite (Hl p hp Hp) in Hrd.
    + intros p h Hp. rewrite (Hl p h Hp). done.
  - intros a. rewrite elem_of_union, !elem_of_singleton, Hars. intros [-> | ->]; [by rewrite Ha|by rewrite Hr].
  - intros p h Hp. destruct (registered_fd _ _ _ _ _ _ _ _ _ _ Hrg Hp) as (Heq & _ & Hin).
    rewrite Forall_forall in Hfds. specialize (Hfds _ Hin). rewrite Heq. cbn [listener hk_fd hk_refcnt hk_ready hk_process hk_data].
    do 4 (split; [done|]). split; [|exists args; split; [done|set_solver]].
    split; [exists ro; by rewrite Hars|]. exists h. split; try done; try (rewrite Heq; done).
    + rewrite Heq. intros j [->|[->|[->| ->]]]; done.
    + exists args, ar. rewrite Heq, Hars. split; [done|]. split; [set_solver|done].
  - intros p q hp hq Hp Hq Hfd.
    destruct (registered_fd _ _ _ _ _ _ _ _ _ _ Hrg Hp) as (_ & Hep & _).
    destruct (registered_fd _ _ _ _ _ _ _ _ _ _ Hrg Hq) as (_ & Heq & _). congruence.
Qed.

Lemma registered_start nt args rt sys ars i fds s :
  registered nt args rt sys ars i fds s ->
  bt_epoll s = list_to_map (fd_list (bt_mem s)) /\ (list_to_set fds : gset Z) = list_to_set (fd_list (bt_mem s)).*1.
Proof.
  intros Hrg.
  assert (Hel : forall fd p, (fd, p) ∈ fd_list (bt_mem s) <-> bt_epoll s !! fd = Some p).
  { intros fd p. rewrite fd_list_elem. split.
    - intros (h & Hp & <-). by apply (registered_fd _ _ _ _ _ _ _ _ _ _ Hrg Hp).
    - intros Hep. pose proof (rg_epoll _ _ _ _ _ _ _ _ Hrg _ _ Hep) as Hp. by eexists. }
  assert (Hnd : NoDup (fd_list (bt_mem s)).*1).
  { apply fd_list_nodup. intros p q hp hq Hp Hq Hfd.
    destruct (registered_fd _ _ _ _ _ _ _ _ _ _ Hrg Hp) as (_ & Hep & _).
    destruct (registered_fd _ _ _ _ _ _ _ _ _ _ Hrg Hq) as (_ & Heq & _). congruence. }
  split.
  - apply map_eq. intros fd. apply option_eq. intros p. by rewrite <- elem_of_list_to_map, Hel by done.
  - apply set_eq. intros fd. rewrite !elem_of_list_to_set, list_elem_of_fmap. rewrite <- (rg_fds _ _ _ _ _ _ _ _ Hrg). split.
    + intros [p Hp]. exists (fd, p). split; [done|]. by apply Hel.
    + intros ([fd' p] & -> & Hin). apply Hel in Hin. cbn [fst]. by rewrite Hin.
Qed.

(** ** Workers *)
Lemma init_workers_run {Q} (q0 : Q) sysptr data i n :
  exists ws, init_workers (Ok q0) sysptr data i n = Ok ws /\ ws.*2 = replicate n q0 /\ length ws = n /\
    forall j w, ws.*1 !! j = Some w -> worker_start w = (_ ← guard_fault AssertFailed (bool_decide (sysptr <> 0)); Ok (sysptr, i32 (u64 (i + Z.of_nat j)))).
Proof.
  revert i. induction n as [|n IH]; intros i; [by exists []|].
  destruct (IH (i + 1)) as (ws & Hws & Hq & Hlen & Hw). cbn [init_workers]. rewrite Hws. cbn [mbind result_bind init_worker].
  eexists (_ :: ws). split; [done|]. cbn [fmap list_fmap fst snd]. rewrite Hq. split; [done|]. split; [cbn [length]; by rewrite Hlen|].
  intros [|j] w; cbn [lookup list_lookup].
  - intros [= <-]. unfold worker_start. cbn. by rewrite Z.add_0_r.
  - intros Hj. rewrite (Hw j w Hj). by replace (i + 1 + Z.of_nat j) with (i + Z.of_nat (S j)) by lia.
Qed.

(** ** [main] *)
Definition nproc_used (nproc : Z) : Z := if decide (nproc < 0) then 2 else nproc.

Lemma main_run {Q} (q0 : Q) sysptr data nproc open_max dlopen start s ret s' :
  nproc < 2 ^ 31 -> dlopen (str "modules/http/mod_http.so") = true -> start sysptr s = Ok (ret, s') ->
  exists s0, ayubd_main (Ok q0) sysptr data nproc open_max dlopen true start s = Ok s0 /\
    s0 = Srv (bt_mem s') (bt_epoll s') (bt_open s') (replicate (Z.to_nat (nproc_used nproc)) q0)
           (replicate (Z.to_nat (nproc_used nproc)) 0%nat) MPoll (replicate (Z.to_nat (nproc_used nproc)) WWait).
Proof.
  intros Hn Hdl Hs. unfold ayubd_main, ayubd_init.
  assert (Hcpu : (array_get (ayubd_config_read nproc open_max) (key "cpu_core")).1 = nproc_used nproc).
  { unfold ayubd_config_read, array_get, array_set. rewrite lookup_insert_ne, lookup_insert_eq by done.
    apply u64_small. unfold nproc_used. case_decide; lia. }
  rewrite Hcpu, i32_small by (unfold nproc_used; case_decide; lia).
  destruct (init_workers_run q0 sysptr data 0 (Z.to_nat (nproc_used nproc))) as (ws & Hws & Hq & Hlen & _).
  rewrite Hws. cbn [mbind result_bind].
  assert (Hload : ayubd_module_load dlopen true (start sysptr) (str "http" ++ [0]) s =
            Ok (0, Module (str "http" ++ replicate 28 0) ret true, s')).
  { unfold ayubd_module_load. erewrite st_bind_run; [|done]. cbn zeta.
    replace (module_path _ _) with (str "modules/http/mod_http.so") by done. rewrite Hdl.
    by erewrite st_bind_run. }
  rewrite Hload. cbn [fst snd mbind result_bind].
  eexists. split; [done|]. unfold ayubd_run_start. cbn [sys_q sys_sem sys_worker]. by rewrite Hq, length_fmap, Hlen.
Qed.

(** A fault of the module is one of the program. *)
Lemma main_fault {Q} (q0 : Q) sysptr data nproc open_max dlopen start s f :
  nproc < 2 ^ 31 -> dlopen (str "modules/http/mod_http.so") = true -> start sysptr s = Fault f ->
  ayubd_main (Ok q0) sysptr data nproc open_max dlopen true start s = Fault f.
Proof.
  intros Hn Hdl Hs. unfold ayubd_main, ayubd_init.
  match goal with |- context [init_workers (Ok q0) sysptr data 0 ?k] =>
    destruct (init_workers_run q0 sysptr data 0 k) as (ws & Hws & _); rewrite Hws end.
  cbn [mbind result_bind].
  assert (Hload : ayubd_module_load dlopen true (start sysptr) (str "http" ++ [0]) s = Fault f).
  { unfold ayubd_module_load. erewrite st_bind_run; [|done]. cbn zeta.
    replace (module_path _ _) with (str "modules/http/mod_http.so") by done. rewrite Hdl. by apply st_bind_fault. }
  by rewrite Hload.
Qed.

(** What the module leaves when no [listen] fails is a deployment. *)
Lemma module_start_deployed nt unix args rt sys fds :
  args <> rt -> sys <> 0 -> net_ok nt unix -> room (nt_usable nt) (length (listening nt unix)) -> listens nt unix fds [] ->
  exists ret s shared, module_start nt unix true args rt sys boot0 = Ok (ret, s) /\ rt ∈ shared /\
    deployed shared (http_lst shared rt) (bt_mem s) /\ bt_epoll s = list_to_map (fd_list (bt_mem s)) /\
    bt_open s = list_to_set (fd_list (bt_mem s)).*1 /\ (forall fd, is_Some (bt_epoll s !! fd) <-> fd ∈ listening nt unix).
Proof.
  intros Hne Hsys Hnet Hroom Hls. pose proof (module_start_ok nt unix args rt sys Hne Hsys Hnet Hroom fds [] Hls) as Hstart.
  destruct (net_addrs nt unix) as [rs|] eqn:Hrs.
  - destruct Hstart as (s1 & Hrun & Hrg & Hop). exists 0, s1, {[args; rt]}.
    destruct (registered_start _ _ _ _ _ _ _ _ Hrg) as [Hep Hset].
    pose proof (ls_split _ _ _ _ Hls) as Hsplit. rewrite app_nil_r in Hsplit.
    split; [done|]. split; [set_solver|]. split; [|split; [done|split]].
    + eapply registered_deployed; try done.
      * unfold start_arrays. by rewrite lookup_insert_eq.
      * apply args_read_get; [|done]. apply args_array_get. naive_solver.
      * unfold start_arrays. rewrite !lookup_insert_ne by done. by rewrite lookup_insert_eq.
      * by eapply routes_array_ok.
      * rewrite <- Hsplit. eapply Forall_impl; [apply (fresh_socks_bound _ _ _ (no_fresh _ _ Hnet))|]. cbn. naive_solver.
    + by rewrite Hop, Hsplit.
    + intros fd. rewrite Hsplit. apply (rg_fds _ _ _ _ _ _ _ _ Hrg).
  - destruct Hstart as (ars & Hro & Hrun). exists (-1), (Boot (Mem ∅ ∅ ars) ∅ ∅), {[rt]}.
    split; [done|]. split; [set_solver|]. split; [|split; [done|split; [done|]]].
    + split; cbn [bt_mem m_hooks m_arrays]; try done.
      * split; cbn; try done. intros b []%lookup_empty_is_Some.
      * intros a ->%elem_of_singleton. by rewrite Hro.
    + cbn [bt_epoll]. unfold listening. rewrite Hrs. cbn. intros fd. rewrite lookup_empty, elem_of_nil.
      split; [by intros []|done].
Qed.

(** What it leaves in any case. *)
Lemma module_start_out nt unix args rt sys fds rest :
  args <> rt -> sys <> 0 -> net_ok nt unix -> room (nt_usable nt) (length (listening nt unix)) -> listens nt unix fds rest ->
  exists ret s, module_start nt unix true args rt sys boot0 = Ok (ret, s) /\ (forall fd, is_Some (bt_epoll s !! fd) <-> fd ∈ fds) /\
    (rest <> [] -> m_arrays (bt_mem s) !! args = None /\ forall p h, m_hooks (bt_mem s) !! p = Some h -> hk_data h = Some args).
Proof.
  intros Hne Hsys Hnet Hroom Hls. pose proof (module_start_ok nt unix args rt sys Hne Hsys Hnet Hroom fds rest Hls) as Hstart.
  destruct (net_addrs nt unix) as [rs|] eqn:Hrs.
  - destruct Hstart as (s1 & Hrun & Hrg & _). destruct rest as [|bad rest].
    + exists 0, s1. split; [done|]. split; [by apply (rg_fds _ _ _ _ _ _ _ _ Hrg)|done].
    + exists (-1), (args_freed args s1). split; [done|]. split; [by apply (rg_fds _ _ _ _ _ _ _ _ Hrg)|]. intros _. split.
      * cbn. by rewrite lookup_delete_eq.
      * intros p h Hp. destruct (registered_fd _ _ _ _ _ _ _ _ _ _ Hrg Hp) as (-> & _). done.
  - destruct Hstart as (ars & _ & Hrun). pose proof (ls_split _ _ _ _ Hls) as Hsp. unfold listening in Hsp. rewrite Hrs in Hsp.
    destruct fds, rest; try done. eexists _, _. split; [exact Hrun|]. split; [|done]. cbn. intros fd. rewrite lookup_empty, elem_of_nil.
    split; [by intros []|done].
Qed.

(** C1: What becomes of the program from [main] on, whatever addresses the resolver gives and
    whatever [bind], [listen], [accept] and [recvmsg] answer.  If the allocator's blocks for
    [iq->fd], of which the program asks one byte per socket, do not hold the descriptors, the store
    outside the block is the outcome.  Else it reaches its event loop with as many workers as
    configured, listening on exactly the bound sockets before the first on which [listen]
    fails.  If one failed, the array of every listening hook is freed (C30 goes on from
    there); if none failed, then under any schedule, handlers overlapping as they may, a step
    faults in two cases only: a worker enters its handler while another is inside one,
    or an event that received more than 4096 bytes is parsed. *)
Theorem ayubd_boot_outcomes ps nt unix args rt sysptr data junk x nproc open_max dlopen
    (Hexec : exec_in_range ps) (Hurl : url_in_range ps)
    (Hne : args <> rt) (Hsys : sysptr <> 0) (Hnproc : nproc <> 0 /\ nproc < 2 ^ 31)
    (Hdl : dlopen (str "modules/http/mod_http.so") = true) (Hnet : net_ok nt unix) :
  let main := ayubd_main (snd <$> stailq_new_lf_spsc junk (∅, x)) sysptr data nproc open_max dlopen true
      (module_start nt unix true args rt) boot0 in
  (~ room (nt_usable nt) (length (listening nt unix)) -> main = Fault OutOfBounds) /\
  (room (nt_usable nt) (length (listening nt unix)) ->
   exists s0 fds rest, main = Ok s0 /\ listens nt unix fds rest /\
    (forall fd, is_Some (sv_epoll s0 !! fd) <-> fd ∈ fds) /\
    length (sv_work s0) = Z.to_nat (nproc_used nproc) /\
    (rest <> [] -> m_arrays (sv_mem s0) !! args = None /\
      forall p h, m_hooks (sv_mem s0) !! p = Some h -> hk_data h = Some args) /\
    (rest = [] -> forall o, rtc (ov_next (spsc_ops junk) (http_process ps) sysptr http_legal) (Osrv s0 None) o ->
      forall i f, ov_legal http_legal i o ->
        ov_step (spsc_ops junk) (http_process ps) sysptr i o = Fault f <->
          (f = DataRace /\ exists x y, i = OEnter x /\ at_handler (ov_srv o) x = true /\ ov_in o = Some y /\ y <> x) \/
          (f = OutOfBounds /\ exists x e, i = OReturn x e /\ ov_in o = Some x /\ ~ rv_n (hi_recv e) <= Z.of_nat IOV_CHUNK))).
Proof.
  destruct (stailq_new_lf_spsc_ok junk ∅ x eq_refl) as (q0 & Hq0 & Hrep). rewrite Hq0.
  change (snd <$> Ok (tt, q0)) with (Ok q0). cbn zeta. split.
  { intros Hroom. apply main_fault; [lia|done|]. by apply module_start_overflow. }
  intros Hroom. destruct (listens_split nt unix) as (fds & rest & Hls).
  destruct (module_start_out nt unix args rt sysptr fds rest Hne Hsys Hnet Hroom Hls) as (ret & s1 & Hrun & Hfd & Hfree).
  assert (Hn : (0 < Z.to_nat (nproc_used nproc))%nat) by (unfold nproc_used; case_decide; lia).
  destruct (main_run q0 sysptr data nproc open_max dlopen (module_start nt unix true args rt) boot0 ret s1)
    as (s0 & Hmain & Hs0); [lia|done|done|].
  exists s0, fds, rest. split; [done|]. split; [done|]. split; [by rewrite Hs0|]. split; [by rewrite Hs0; cbn; rewrite length_replicate|].
  split; [by rewrite Hs0|]. intros -> o Ho.
  destruct (module_start_deployed nt unix args rt sysptr fds Hne Hsys Hnet Hroom Hls)
    as (ret' & s1' & shared & Hrun' & Hrt & Hdep & Hep & Hop & _). rewrite Hrun in Hrun'. injection Hrun' as _ <-.
  assert (Hs0' : s0 = srv_start (Z.to_nat (nproc_used nproc)) q0 (bt_mem s1)) by (rewrite Hs0; unfold srv_start; by rewrite Hep, Hop).
  rewrite Hs0' in Ho.
  apply (http_reachable (spsc_ops junk) spsc_rep ps shared rt sysptr _ q0 (bt_mem s1) Hexec Hurl Hrt Hn Hrep Hdep o Ho).
Qed.

(** [usable] is the allocator, [broken] the socket [listen] fails on. *)
Definition demo_net (usable : Z -> Z) (broken : Z) : net :=
  Net false true (Addr 5 true true)
    (fun _ _ _ => Some [Addr 5 true true; Addr 6 false true; Addr (-1) true true; Addr 6 true true])
    (fun fd => negb (fd =? broken)) (fun i => Some (Pos.of_succ_nat i)) usable.

Lemma demo_net_ok usable broken : net_ok (demo_net usable broken) false.
Proof.
  split.
  - split; [done|]. split; [set_solver|]. split; [done|]. split; [set_solver|]. split; [done|]. split; [set_solver|done].
  - intros i. by eexists.
  - intros i j Hij. cbn [nt_hook demo_net] in Hij. injection Hij as Hij. by apply SuccNat2Pos.inj in Hij.
Qed.

Lemma demo_net_room broken : room (Z.max 24) (length (listening (demo_net (Z.max 24) broken) false)).
Proof. intros j Hj. change (0 <= j < 2) in Hj. lia. Qed.

(** With blocks of 24 bytes two sockets, with blocks of just the size asked for a fault. *)
Lemma ayubd_boot_outcomes_witness :
  (exists s0,
    ayubd_main (snd <$> stailq_new_lf_spsc (Node 9 None) (∅, (Stailq None RHead, None))) 1000 (fun i => Pos.of_succ_nat (Z.to_nat i))
      (-1) 0 (fun _ => true) true (module_start (demo_net (Z.max 24) 0) false true 1 2) boot0 = Ok s0 /\
    length (sv_work s0) = 2%nat) /\
  ayubd_main (snd <$> stailq_new_lf_spsc (Node 9 None) (∅, (Stailq None RHead, None))) 1000 (fun i => Pos.of_succ_nat (Z.to_nat i))
      (-1) 0 (fun _ => true) true (module_start (demo_net (fun n => n) 0) false true 1 2) boot0 = Fault OutOfBounds.
Proof.
  split.
  - destruct (ayubd_boot_outcomes demo_ps (demo_net (Z.max 24) 0) false 1 2 1000 (fun i => Pos.of_succ_nat (Z.to_nat i)) (Node 9 None)
              (Stailq None RHead, None) (-1) 0 (fun _ => true) demo_exec demo_url ltac:(done) ltac:(done) ltac:(done) eq_refl
              (demo_net_ok _ 0)) as (_ & Hok).
    destruct (Hok (demo_net_room 0)) as (s0 & fds & rest & H1 & _ & _ & H2 & _). exists s0. split; [exact H1|exact H2].
  - destruct (ayubd_boot_outcomes demo_ps (demo_net (fun n => n) 0) false 1 2 1000 (fun i => Pos.of_succ_nat (Z.to_nat i)) (Node 9 None)
              (Stailq None RHead, None) (-1) 0 (fun _ => true) demo_exec demo_url ltac:(done) ltac:(done) ltac:(done) eq_refl
              (demo_net_ok _ 0)) as (Hbad & _).
    apply Hbad. intros Hroom. specialize (Hroom 0). change (0 <= 0 < 2 -> 4 * 0 + 4 <= 0 + 1) in Hroom. lia.
Defined.

(** C30: When [listen] fails on a later socket, [module_start] frees the array of the sockets it
    has registered, [ayubd_module_load] answers 0 all the same and the program runs: the
    first connection accepted on any of them is a use after free. *)
Theorem listen_failure_use_after_free ps nt unix args rt sysptr data junk x nproc open_max dlopen fds rest fd
    (Hne : args <> rt) (Hsys : sysptr <> 0) (Hnproc : nproc < 2 ^ 31)
    (Hdl : dlopen (str "modules/http/mod_http.so") = true)
    (Hnet : net_ok nt unix) (Hroom : room (nt_usable nt) (length (listening nt unix)))
    (Hls : listens nt unix fds rest) (Hrest : rest <> []) (Hfd : fd ∈ fds) :
  exists s0 s p,
    ayubd_main (snd <$> stailq_new_lf_spsc junk (∅, x)) sysptr data nproc open_max dlopen true
      (module_start nt unix true args rt) boot0 = Ok s0 /\
    sv_epoll s0 !! fd = Some p /\
    rtc (srv_step (spsc_ops junk) (http_process ps) http_fits sysptr) s0 s /\ sv_main s = MAccept p [] /\
    forall ac, legal_main s (InAccept ac) -> 0 < ac_fd ac -> main_step (spsc_ops junk) (InAccept ac) s = Fault UseAfterFree.
Proof.
  destruct (stailq_new_lf_spsc_ok junk ∅ x eq_refl) as (q0 & Hq0 & _). rewrite Hq0. change (snd <$> Ok (tt, q0)) with (Ok q0).
  pose proof (module_start_ok nt unix args rt sysptr Hne Hsys Hnet Hroom fds rest Hls) as Hstart.
  destruct (net_addrs nt unix) as [rs|] eqn:Hrs.
  2:{ pose proof (ls_split _ _ _ _ Hls) as Hsp. unfold listening in Hsp. rewrite Hrs in Hsp. by destruct fds, rest. }
  destruct Hstart as (s1 & Hrun & Hrg & _). destruct rest as [|bad rest]; [done|].
  destruct (main_run q0 sysptr data nproc open_max dlopen (module_start nt unix true args rt) boot0 (-1) (args_freed args s1))
    as (s0 & Hmain & Hs0); [done|done|done|].
  apply (rg_fds _ _ _ _ _ _ _ _ Hrg) in Hfd as [p Hp].
  pose proof (rg_epoll _ _ _ _ _ _ _ _ Hrg _ _ Hp) as Hhook.
  assert (Hep : sv_epoll s0 !! fd = Some p) by (by rewrite Hs0).
  assert (Hh0 : m_hooks (sv_mem s0) !! p = Some (listener args rt sysptr fd)) by (by rewrite Hs0).
  assert (Harr : m_arrays (sv_mem s0) !! args = None).
  { rewrite Hs0. cbn. by rewrite lookup_delete_eq. }
  set (h1 := set_events EPOLLIN (listener args rt sysptr fd)).
  set (m1 := Mem (<[p := h1]> (m_hooks (sv_mem s0))) (m_blocks (sv_mem s0)) (m_arrays (sv_mem s0))).
  exists s0, (with_mem s0 m1 (MAccept p [])), p. split; [done|]. split; [done|]. split; [|split; [done|]].
  - assert (Hpoll : sv_main s0 = MPoll) by (by rewrite Hs0).
    eapply rtc_l; [apply (srv_step_main _ _ _ _ (InPoll (Some [(EPOLLIN, p)]))); [|unfold main_step; by rewrite Hpoll]|].
    { split; [apply NoDup_singleton|]. intros q ->%list_elem_of_singleton. by exists fd. }
    eapply rtc_l; [apply (srv_step_main _ _ _ _ InNone); [done|cbn; unfold hook_modify; by rewrite Hh0]|].
    eapply rtc_l; [apply (srv_step_main _ _ _ _ InNone); [done|]|apply rtc_refl].
    cbn. unfold hook_load. cbn [m_hooks]. by rewrite lookup_insert_eq.
  - intros ac (_ & _ & Hhs & _) Hac. cbn [with_mem sv_mem] in Hhs. unfold main_step. cbn [with_mem sv_main sv_mem].
    unfold hook_load at 1. cbn [m1 m_hooks]. rewrite lookup_insert_eq. cbn [mbind result_bind].
    rewrite decide_True by (by left). rewrite decide_False by lia.
    assert (Hne2 : ac_hs ac <> p) by (intros Heq; rewrite Heq in Hhs; cbn [m1 m_hooks] in Hhs; by rewrite lookup_insert_eq in Hhs).
    enough (Hf : on_connect_session p (ac_hs ac) (ac_b1 ac) (ac_b2 ac) (ac_a ac) (ac_fd ac) (ac_addr ac) m1 = Fault UseAfterFree)
      by (by rewrite Hf).
    unfold on_connect_session. erewrite st_bind_run; [|done]. cbn [m1 m_hooks m_blocks m_arrays].
    do 3 (erewrite st_bind_run; [|unfold hook_zalloc, hook_malloc, hook_add; try (erewrite st_bind_run; [|done]);
      unfold hook_modify; cbn [m_hooks]; by rewrite lookup_insert_eq]). cbn [m1 m_hooks m_blocks m_arrays].
    rewrite !insert_insert_eq.
    erewrite st_bind_run; [|unfold hook_load; cbn [m_hooks]; by rewrite lookup_insert_ne, lookup_insert_eq].
    erewrite st_bind_run; [|done]. apply st_bind_fault. unfold array_load. cbn [m_arrays]. by rewrite Harr.
Qed.

Lemma listen_failure_use_after_free_witness :
  exists s0 s p,
    ayubd_main (snd <$> stailq_new_lf_spsc (Node 9 None) (∅, (Stailq None RHead, None))) 1000 (fun _ => 3%positive)
      4 1024 (fun _ => true) true (module_start (demo_net (Z.max 24) 6) false true 1 2) boot0 = Ok s0 /\
    sv_epoll s0 !! 5 = Some p /\
    rtc (srv_step (spsc_ops (Node 9 None)) (http_process demo_ps) http_fits 1000) s0 s /\ sv_main s = MAccept p [].
Proof.
  destruct (listen_failure_use_after_free demo_ps (demo_net (Z.max 24) 6) false 1 2 1000 (fun _ => 3%positive) (Node 9 None)
              (Stailq None RHead, None) 4 1024 (fun _ => true) [5] [6] 5) as (s0 & s & p & H1 & H2 & H3 & H4 & _).
  - done.
  - done.
  - done.
  - done.
  - exact (demo_net_ok _ 6).
  - exact (demo_net_room 6).
  - by split; [|repeat constructor|].
  - done.
  - by apply list_elem_of_singleton.
  - exists s0, s, p. split; [exact H1|]. split; [exact H2|]. split; [exact H3|exact H4].
Defined.

(** C31: [DO_REALLOC(iq->fd, iq->fdlen+1)] asks for one byte per descriptor and stores an int
    in it: with blocks of just the size asked for the first socket is stored outside its
    block; with the 24 bytes the GNU allocator gives at least, six sockets fit and the
    seventh is the first one outside. *)
Theorem listen_fd_overflow flags rs s (Hf : fresh_socks flags rs (bt_open s)) :
  let fds := bound flags rs in
  bind_loop (Z.max 24) rs (Ioqueue flags [] 0) s =
    (if decide (length fds <= 6)%nat
     then Ok (Ioqueue flags fds (Z.of_nat (length fds)), Boot (bt_mem s) (bt_epoll s) (list_to_set fds ∪ bt_open s))
     else Fault OutOfBounds) /\
  (fds <> [] -> bind_loop (fun n => n) rs (Ioqueue flags [] 0) s = Fault OutOfBounds).
Proof.
  cbn zeta. split.
  - case_decide as Hk.
    + apply (bind_loop_ok (Z.max 24) rs (Ioqueue flags [] 0) s); [done|done|]. cbn [iq_fd iq_flags length]. intros j Hj. lia.
    + apply (bind_loop_overflow (Z.max 24) rs (Ioqueue flags [] 0) s); [done|]. cbn [iq_fd iq_flags length].
      intros Hall. specialize (Hall 6). lia.
  - intros Hne. apply (bind_loop_overflow (fun n => n) rs (Ioqueue flags [] 0) s); [done|]. cbn [iq_fd iq_flags length].
    intros Hall. specialize (Hall 0). destruct (bound flags rs); [done|]. cbn [length] in Hall. lia.
Qed.

Lemma listen_fd_overflow_witness :
  bind_loop (fun n => n) [Addr 5 true true] (Ioqueue 128 [] 0) boot0 = Fault OutOfBounds.
Proof.
  apply (listen_fd_overflow 128 [Addr 5 true true] boot0).
  - split; [done|]. split; [cbn; set_solver|done].
  - done.
Defined.
