(* ===== verification/StrTokens.v ===== *)
(** * The string tokenizer

    src/str_tokens.c: splitting a string at every character, at the characters of a class,
    at the matches of a regular expression or at a string, and replacing what was matched.
    A token is an offset into the string and a length; the regular expressions are those of
    the PCRE library. *)
From S2P Require Import Prelude CLib Bytes.

#[local] Open Scope Z_scope.

(** The memory [ptr] points to, up to its end; [None] is NULL. *)
Record string_t := Str { s_ptr : option bytes; s_len : Z }.

Definition string_new (ptr : option bytes) (len : Z) : result string_t :=
  match ptr with
  | Some p =>
      if decide (len <> 0)
      then (n ← from_option_fault OutOfBounds (strlen p); Ok (Str (Some p) (Z.of_nat n)))
      else Ok (Str None 0)
  | None => Ok (Str None 0)
  end.

(** [flist_t]: an array of [len] elements, or NULL. *)
Record flist (A : Type) := Flist { fl_ptr : option (list A); fl_len : nat }.
Arguments Flist {A} _ _.
Arguments fl_ptr {A} _.
Arguments fl_len {A} _.

Definition flist_new {A} (ptr : option (list A)) (len : nat) : flist A :=
  match ptr with
  | Some p => if decide (len <> 0)%nat then Flist (Some p) len else Flist None 0
  | None => Flist None 0
  end.
Definition flist_clean {A} (l : flist A) : flist A := Flist None 0.

(** [token_t]: offset and length. *)
Abbreviation token := (nat * nat)%type.

Definition DEFAULT_TOKEN_NUM : nat := 32.
Definition DEFAULT_TOKEN_STEP : nat := 8.

(** The C library's [strcspn(s, set)] and [strstr(s, d)] on memory that starts at [s]. *)
Fixpoint strcspn (set s : bytes) : result nat :=
  match s with
  | [] => Fault OutOfBounds
  | c :: s => if decide (c = 0 \/ c ∈ set) then Ok 0%nat else (k ← strcspn set s; Ok (S k))
  end.

Fixpoint strstr (d s : bytes) : result (option nat) :=
  match s with
  | [] => Fault OutOfBounds
  | c :: s' =>
      if decide (c = 0) then Ok None
      else if decide (take (length d) s = d) then Ok (Some 0%nat)
      else (o ← strstr d s'; Ok (match o with Some k => Some (S k) | None => None end))
  end.

Section tokens.
Context {regex : Type}.
(** [pcre_compile(pattern)] and [pcre_exec(re, subject, length)]: the offsets of the first
    match. *)
Context (pcre_compile : bytes -> option regex) (pcre_exec : regex -> bytes -> Z -> option (nat * nat)).
(** Whether [malloc] or [realloc] gives an array of so many tokens. *)
Context (room : nat -> bool).

Inductive split_type :=
  | DELIM_CHAR_EVERY
  | DELIM_CHAR_CLASS (d : bytes) (eat_next_empty : bool)
  | DELIM_CHAR_REGEX (re : regex)
  | DELIM_CHAR_ARRAY (d : bytes).

(** The test of [d[tlen-1]] that cuts the last character when it is [c]; of an empty [d]
    this is the opening character, which is never [c] for a class and for a regular
    expression makes no difference. *)
Definition strip_last (c : Z) (d : bytes) : bool * bytes :=
  if decide (last d = Some c) then (true, take (length d - 1) d) else (false, d).

(** [None]: the regular expression does not compile. *)
Definition split_of (delim : bytes) : option split_type :=
  match cstring delim with
  | [] => Some DELIM_CHAR_EVERY
  | c :: d =>
      if decide (c = 91) then
        let '(eat, d) := strip_last 43 d in
        Some (DELIM_CHAR_CLASS (strip_last 93 d).2 eat)
      else if decide (c = 47) then
        DELIM_CHAR_REGEX <$> pcre_compile (strip_last 47 d).2
      else Some (DELIM_CHAR_ARRAY (c :: d))
  end.

(** [tmp_len] and [tmp_step] at [s]; [None] leaves the loop. *)
Definition next_token (sp : split_type) (s : bytes) (slen : Z) : result (option (nat * nat)) :=
  match sp with
  | DELIM_CHAR_EVERY => Ok (Some (1, 1)%nat)
  | DELIM_CHAR_CLASS d _ =>
      k ← strcspn d s;
      c ← byte_at s k;
      Ok (Some (k, if decide (c = 0) then k else S k))
  | DELIM_CHAR_REGEX re => Ok (pcre_exec re s slen)
  | DELIM_CHAR_ARRAY d =>
      o ← strstr d s;
      match o with
      | Some k => c ← byte_at s k; Ok (Some (k, if decide (c = 0) then k else S k))
      | None => Ok (Some (Z.to_nat slen, Z.to_nat slen))
      end
  end.

Definition eats (sp : split_type) : bool := match sp with DELIM_CHAR_CLASS _ e => e | _ => false end.

(** [while (keep_going)]: [pos] is [pstr - str->ptr], [toks] the [cnt] tokens so far. *)
Fixpoint tok_loop (fuel : nat) (sp : split_type) (n : nat) (text : bytes) (pos : nat) (slen : Z) (ntok : nat)
    (toks : list token) : result (list token) :=
  match fuel with
  | O => Fault NoFuel
  | S fuel =>
      let grow := bool_decide (ntok <= length toks)%nat in
      let ntok := if grow then (ntok + DEFAULT_TOKEN_STEP)%nat else ntok in
      if grow && negb (room ntok) then Ok toks
      else
        r ← next_token sp (drop pos text) slen;
        match r with
        | None => Ok toks
        | Some (tmp_len, tmp_step) =>
            let toks := if bool_decide (tmp_len = 0%nat) && eats sp then toks else toks ++ [(pos, tmp_len)] in
            let pos := (pos + tmp_step)%nat in
            let slen := u64 (slen - Z.of_nat tmp_step) in
            if decide (n <> 0 /\ n <= length toks)%nat then Ok toks
            else
              c ← byte_at text pos;
              if decide (c = 0) then Ok toks else tok_loop fuel sp n text pos slen ntok toks
        end
  end.

Definition str_tokens (fuel : nat) (delim : option bytes) (str : option string_t) (n : nat) : result (flist token) :=
  match str, delim with
  | Some s, Some delim =>
      if decide (s_len s = 0) then Ok (flist_new None 0)
      else
        let ntok := if decide (n = 0)%nat then DEFAULT_TOKEN_NUM else n in
        if negb (room ntok) then Ok (flist_new None 0)
        else match split_of delim with
             | None => Ok (Flist (Some []) 0)
             | Some sp =>
                 text ← from_option_fault NullDeref (s_ptr s);
                 (* [slen] is only set, and only read, for the last two kinds *)
                 toks ← tok_loop fuel sp n text 0 (s_len s) ntok [];
                 Ok (Flist (Some toks) (length toks))
             end
  | _, _ => Ok (flist_new None 0)
  end.

(** The loop of [str_replace] that copies: each token and the replacement after it. *)
Fixpoint replace_loop (text replace : bytes) (toks : list token) (final : bytes) (pstr : nat) : result bytes :=
  match toks with
  | [] => Ok final
  | (off, len) :: toks =>
      src ← buf_read text off len;
      final ← buf_write final pstr src;
      final ← buf_write final (pstr + len) replace;
      replace_loop text replace toks final (pstr + len + length replace)
  end.

(** The string and [*nreplaced]; [replace] without its NUL, and [junk] what [malloc]
    leaves in the new block. *)
Definition str_replace (fuel : nat) (junk : Z) (search : option bytes) (replace : bytes) (haystack : string_t)
  : result (string_t * nat) :=
  tlist ← str_tokens fuel search (Some haystack) 0;
  let toks := default [] (fl_ptr tlist) in
  let flen := S (sum_list ((fun t => t.2 + length replace)%nat <$> toks)) in
  let final := replicate flen junk in
  final ← replace_loop (default [] (s_ptr haystack)) replace toks final 0;
  final ← buf_write final (flen - 1) [0];
  s ← string_new (Some final) (Z.of_nat flen);
  Ok (s, fl_len tlist).
End tokens.

Arguments split_type regex : clear implicits.

(** ** Files *)

(** [size]: what [stat] answers; [contents]: [None] when [open] fails, else what [read]
    gives, [None] for -1.  [junk] fills the new block. *)
Definition file_get_contents (junk : Z) (size : nat) (contents : option (option bytes)) : result string_t :=
  let buf := replicate (S size) junk in
  match contents with
  | None => (buf ← buf_write buf 0 [0]; string_new (Some buf) 0)
  | Some None => Fault OutOfBounds
  | Some (Some data) =>
      buf ← buf_write buf 0 (take size data);
      let n := length (take size data) in
      buf ← buf_write buf n [0];
      string_new (Some buf) (Z.of_nat n)
  end.

(** The bytes handed to [write]. *)
Definition file_put_contents (str : string_t) : result bytes :=
  match s_ptr str with
  | Some p => buf_read p 0 (Z.to_nat (s_len str))
  | None => if decide (s_len str = 0) then Ok [] else Fault NullDeref
  end.
