(* ===== verification/StrTokensSpec.v ===== *)
(** * The string tokenizer: properties

    The tokens are the pieces of the string between its delimiters; what [str_replace]
    makes of them. *)
From S2P Require Import Prelude CLib Bytes StrTokens.

#[local] Open Scope Z_scope.

(** The pieces of a string that the characters of [p] end; what follows the last of them is
    a piece if it is not empty. *)
Fixpoint fields (p : Z -> bool) (s : bytes) : list bytes :=
  match s with
  | [] => []
  | c :: s =>
      if p c then [] :: fields p s
      else match fields p s with [] => [[c]] | f :: fs => (c :: f) :: fs end
  end.

Lemma fields_sep p f c r :
  Forall (fun x => p x = false) f -> p c = true -> fields p (f ++ c :: r) = f :: fields p r.
Proof.
  intros Hf Hc. induction Hf as [|x f Hx _ IH]; cbn [app fields]; [by rewrite Hc|]. by rewrite Hx, IH.
Qed.

Lemma fields_last p f : Forall (fun x => p x = false) f -> f <> [] -> fields p f = [f].
Proof.
  intros Hf Hne. induction Hf as [|x f Hx Hf IH]; [done|]. cbn [fields]. rewrite Hx.
  destruct f as [|y f]; [done|]. by rewrite IH.
Qed.

(** A string is a run free of [p] and, unless that is all, a character of [p] and the rest. *)
Lemma fields_cases (p : Z -> bool) s :
  s <> [] -> exists f sep r, s = f ++ sep ++ r /\ Forall (fun x => p x = false) f /\
    fields p s = f :: fields p r /\ (sep = [] /\ r = [] /\ f <> [] \/ exists c, sep = [c] /\ p c = true).
Proof.
  induction s as [|c s IH]; [done|]. intros _. destruct (p c) eqn:Hc.
  { exists [], [c], s. cbn [app fields]. rewrite Hc. split; [done|]. split; [constructor|]. split; [done|]. right. eauto. }
  destruct s as [|c' s].
  { exists [c], [], []. cbn [app fields]. rewrite Hc. split; [done|]. split; [by repeat constructor|]. split; [done|]. by left. }
  destruct (IH ltac:(done)) as (f & sep & r & Hs & Hf & Hfs & Hsep). exists (c :: f), sep, r.
  split; [cbn [app]; by rewrite <- Hs|]. split; [by constructor|]. split; [|].
  - cbn [fields] in *. by rewrite Hc, Hfs.
  - destruct Hsep as [(-> & -> & _)|Hsep]; [by left|by right].
Qed.

Definition token_text (text : bytes) (t : nat * nat) : bytes := take t.2 (drop t.1 text).

(** The token lies in the string. *)
Definition token_in (text : bytes) (t : nat * nat) : Prop := (t.1 + t.2 <= length text)%nat.

(** With [n] tokens wanted and [k] there: [n = 0] is all. *)
Definition limit {A} (n k : nat) (l : list A) : list A := if decide (n = 0)%nat then l else take (n - k) l.

Section loop.
Context {regex : Type} (pcre_exec : regex -> bytes -> Z -> option (nat * nat)).
Implicit Types sp : split_type regex.

(** What the turns of the loop cut off a string. *)
Inductive cuts sp : bytes -> list bytes -> Prop :=
  | cuts_nil : cuts sp [] []
  | cuts_cons f sep rest fs :
      next_token pcre_exec sp (f ++ sep ++ rest ++ [0]) (Z.of_nat (length (f ++ sep ++ rest))) =
        Ok (Some (length f, length (f ++ sep))) ->
      f ++ sep <> [] -> cuts sp rest fs -> cuts sp (f ++ sep ++ rest) (f :: fs).

Lemma cuts_nil_inv sp fs : cuts sp [] fs -> fs = [].
Proof.
  intros Hc. remember [] as s eqn:Hs. destruct Hc as [|f sep rest fs _ Hne _]; [done|].
  destruct f; [|done]. destruct sep; [|done]. by destruct Hne.
Qed.

Definition keep (eat : bool) (f : bytes) : Prop := eat = false \/ f <> [].
#[export] Instance keep_dec eat f : Decision (keep eat f).
Proof. unfold keep. apply _. Defined.

Lemma limit_cons {A} n k (x : A) l :
  (n = 0 \/ k < n)%nat -> limit n k (x :: l) = x :: (if decide (n <> 0 /\ n <= S k)%nat then [] else limit n (S k) l).
Proof.
  intros Hk. unfold limit. case_decide as H0; [by rewrite decide_False by lia|].
  destruct (n - k)%nat as [|m] eqn:Hm; [lia|]. cbn [take]. case_decide; [by replace m with 0%nat by lia|].
  by replace (n - S k)%nat with m by lia.
Qed.

Lemma tok_loop_ok sp n text s fs (room : nat -> bool) :
  cuts sp s fs -> s <> [] -> 0 ∉ s -> (forall k, room k = true) -> Z.of_nat (length text) < 2 ^ 64 ->
  forall fuel pos ntok toks, drop pos text = s ++ [0] -> (length s < fuel)%nat -> (n = 0 \/ length toks < n)%nat ->
  exists toks', tok_loop pcre_exec room fuel sp n text pos (Z.of_nat (length s)) ntok toks = Ok (toks ++ toks') /\
    token_text text <$> toks' = limit n (length toks) (filter (keep (eats sp)) fs) /\ Forall (token_in text) toks'.
Proof.
  intros Hcuts Hne H0 Hroom Hlen. induction Hcuts as [|f sep rest fs Hnext Hpos Hcuts IH]; [done|].
  intros [|fuel] pos ntok toks Hdrop Hfuel Hn; [lia|]. cbn [tok_loop]. rewrite Hroom, andb_false_r.
  rewrite Hdrop, <- !app_assoc, Hnext. cbn [mbind result_bind].
  set (toks1 := if _ && _ then toks else toks ++ [(pos, length f)]).
  assert (Hf : token_text text (pos, length f) = f).
  { unfold token_text. cbn [fst snd]. by rewrite Hdrop, <- !app_assoc, take_app_length. }
  assert (Hdrop' : drop (pos + length (f ++ sep)) text = rest ++ [0]).
  { rewrite <- drop_drop, Hdrop, app_assoc, <- app_assoc. by rewrite drop_app_length. }
  assert (Hbyte : byte_at text (pos + length (f ++ sep)) = Ok (default 0 (head rest))).
  { unfold byte_at. rewrite <- (Nat.add_0_r (pos + _)), <- lookup_drop, Hdrop'. by destruct rest. }
  rewrite Hbyte. cbn [mbind result_bind].
  assert (Hslen : u64 (Z.of_nat (length (f ++ sep ++ rest)) - Z.of_nat (length (f ++ sep))) = Z.of_nat (length rest)).
  { apply (f_equal length) in Hdrop'. rewrite length_drop, (length_app rest) in Hdrop'. cbn [length] in Hdrop'.
    rewrite app_assoc, (length_app (f ++ sep)), u64_small; lia. }
  assert (Hin : token_in text (pos, length f)).
  { apply (f_equal length) in Hdrop. rewrite length_drop, !length_app in Hdrop. unfold token_in. cbn [fst snd length] in *. lia. }
  rewrite Hslen. assert (Hrest : 0 ∉ rest) by set_solver.
  (* the rest of the loop, from the tokens there are after this turn *)
  assert (Hgo : forall t, (n = 0 \/ length t < n)%nat ->
            exists toks', (if decide (default 0 (head rest) = 0) then Ok t
                           else tok_loop pcre_exec room fuel sp n text (pos + length (f ++ sep)) (Z.of_nat (length rest))
                                  (if bool_decide (ntok <= length toks)%nat then (ntok + DEFAULT_TOKEN_STEP)%nat else ntok) t) = Ok (t ++ toks') /\
              token_text text <$> toks' = limit n (length t) (filter (keep (eats sp)) fs) /\ Forall (token_in text) toks').
  { intros t Ht. destruct rest as [|c rest].
    - exists []. rewrite decide_True by done. rewrite app_nil_r. split; [done|]. rewrite (cuts_nil_inv sp fs Hcuts).
      unfold limit. cbn. by case_decide; [|rewrite take_nil].
    - cbn [head default]. rewrite decide_False by set_solver. apply IH; try done. rewrite !length_app in Hfuel.
      assert (length (f ++ sep) <> 0)%nat by (by destruct (f ++ sep)). rewrite length_app in *. lia. }
  destruct (bool_decide (length f = 0%nat) && eats sp) eqn:Heat.
  - unfold toks1. rewrite filter_cons_False.
    + rewrite decide_False by lia. by apply Hgo.
    + apply andb_true_iff in Heat as [Hz%bool_decide_eq_true ->]. unfold keep. intros [|Hfn]; [done|]. by apply Hfn, nil_length_inv.
  - rewrite filter_cons_True.
    2:{ unfold keep. apply andb_false_iff in Heat as [Hz%bool_decide_eq_false| ->]; [|by left]. right. intros Hnil. apply Hz. by rewrite Hnil. }
    rewrite limit_cons by done. unfold toks1. rewrite length_app. cbn [length]. rewrite Nat.add_1_r.
    destruct (decide (n ≠ 0%nat ∧ (n <= S (length toks))%nat)) as [Hlim|Hlim].
    + exists [(pos, length f)]. split; [done|]. change (token_text text <$> [(pos, length f)]) with [token_text text (pos, length f)]. rewrite Hf.
      split; [done|]. by constructor.
    + destruct (Hgo (toks ++ [(pos, length f)])) as (toks' & Hrun & Htext & Hall).
      { rewrite length_app. cbn [length]. lia. }
      exists ((pos, length f) :: toks'). rewrite Hrun, <- app_assoc. split; [done|]. rewrite fmap_cons, Hf, Htext, length_app.
      cbn [length]. rewrite Nat.add_1_r. split; [done|]. by constructor.
Qed.
End loop.

(** ** The kinds of delimiter *)
Lemma strcspn_run set f c r :
  Forall (fun x => x <> 0 /\ x ∉ set) f -> c = 0 \/ c ∈ set -> strcspn set (f ++ c :: r) = Ok (length f).
Proof.
  intros Hf Hc. induction Hf as [|x f [Hx0 Hx] _ IH]; cbn [app strcspn]; [by rewrite decide_True|].
  rewrite decide_False by naive_solver. by rewrite IH.
Qed.

Lemma take_prefix (d s : bytes) : take (length d) s = d -> d `prefix_of` s.
Proof. intros Hd. pose proof (take_drop (length d) s) as Ht. rewrite Hd in Ht. by exists (drop (length d) s). Qed.

Lemma strstr_first d a r :
  Forall (fun x => x <> 0) a -> head d <> Some 0 -> d <> [] ->
  (forall j, (j < length a)%nat -> ~ d `prefix_of` drop j (a ++ d ++ r)) ->
  strstr d (a ++ d ++ r) = Ok (Some (length a)).
Proof.
  intros Ha Hd0 Hd. induction Ha as [|x a Hx _ IH]; intros Hno.
  - destruct d as [|y d]; [done|]. cbn [app strstr length]. rewrite decide_False by (by intros ->).
    rewrite decide_True; [done|]. cbn [length take]. by rewrite take_app_length.
  - cbn [app strstr]. rewrite decide_False by done. rewrite decide_False.
    + rewrite IH; [done|]. intros j Hj. apply (Hno (S j)). cbn [length]. lia.
    + intros Heq. apply (Hno 0%nat); [cbn [length]; lia|]. by apply take_prefix.
Qed.

Lemma strstr_none d s :
  0 ∉ s -> (forall j, (j < length s)%nat -> ~ d `prefix_of` drop j (s ++ [0])) -> strstr d (s ++ [0]) = Ok None.
Proof.
  intros H0. induction s as [|x s IH]; intros Hno; [done|]. cbn [app strstr]. rewrite decide_False by set_solver.
  rewrite decide_False.
  - rewrite IH; [done|set_solver|]. intros j Hj. apply (Hno (S j)). cbn [length]. lia.
  - intros Heq. apply (Hno 0%nat); [cbn [length]; lia|]. by apply take_prefix.
Qed.

Section kinds.
Context {regex : Type} (pcre_exec : regex -> bytes -> Z -> option (nat * nat)).

Lemma cuts_every s : cuts pcre_exec DELIM_CHAR_EVERY s ((fun c => [c]) <$> s).
Proof.
  induction s as [|c s IH]; [constructor|]. by apply (cuts_cons _ _ [c] [] s).
Qed.

(** A kind that cuts at the first character of [p] cuts the fields of [p]. *)
Lemma cuts_fields sp (p : Z -> bool) s :
  0 ∉ s ->
  (forall f c r, 0 ∉ f ++ r -> Forall (fun x => p x = false) f -> (c = 0 /\ r = [] /\ f <> []) \/ (p c = true /\ c <> 0) ->
     next_token pcre_exec sp (f ++ c :: (if decide (c = 0) then [] else r ++ [0]))
       (Z.of_nat (length f + if decide (c = 0) then 0 else S (length r))) =
       Ok (Some (length f, if decide (c = 0) then length f else S (length f)))) ->
  cuts pcre_exec sp s (fields p s).
Proof.
  intros H0 Hnext. remember (length s) as k eqn:Hk. revert s Hk H0.
  induction k as [k IH] using lt_wf_ind. intros s Hk H0. destruct (decide (s = [])) as [->|Hne]; [constructor|].
  destruct (fields_cases p s Hne) as (f & sep & r & -> & Hf & -> & Hsep).
  destruct Hsep as [(-> & -> & Hfn)|(c & -> & Hc)].
  - apply cuts_cons; [|by rewrite app_nil_r|constructor].
    specialize (Hnext f 0 []). rewrite !decide_True in Hnext by done. cbn [app length]. rewrite app_nil_r, Nat.add_0_r in *.
    apply Hnext; [set_solver|done|by left].
  - assert (Hc0 : c <> 0) by set_solver.
    apply cuts_cons; [|by destruct f|].
    + specialize (Hnext f c r). rewrite !decide_False in Hnext by done. cbn [app].
      rewrite (length_app f (c :: r)), (length_app f [c]). cbn [length]. rewrite Nat.add_1_r.
      apply Hnext; [set_solver|done|by right].
    + eapply IH; [|done|set_solver]. rewrite Hk, !length_app. cbn [length]. lia.
Qed.

Lemma cuts_class d eat s :
  0 ∉ s -> cuts pcre_exec (DELIM_CHAR_CLASS d eat) s (fields (fun c => bool_decide (c ∈ d)) s).
Proof.
  intros H0. apply cuts_fields; [done|]. intros f c r H0' Hf Hc. cbn [next_token].
  rewrite strcspn_run.
  - cbn [mbind result_bind]. rewrite byte_at_mid by done. cbn [mbind result_bind]. done.
  - rewrite Forall_forall in *. intros x Hx. split; [set_solver|]. specialize (Hf x Hx). by apply bool_decide_eq_false in Hf.
  - destruct Hc as [[-> _]|[Hc%bool_decide_eq_true _]]; naive_solver.
Qed.

Lemma cuts_char d s : 0 ∉ s -> cuts pcre_exec (DELIM_CHAR_ARRAY [d]) s (fields (fun c => bool_decide (c = d)) s).
Proof.
  intros H0. apply cuts_fields; [done|]. intros f c r H0' Hf Hc. cbn [next_token].
  assert (Hno : forall l j, (j < length f)%nat -> ~ [d] `prefix_of` drop j (f ++ l)).
  { intros l j Hj [l' Hl']. rewrite Forall_lookup in Hf. destruct (lookup_lt_is_Some_2 f j Hj) as [x Hx].
    specialize (Hf j x Hx). apply bool_decide_eq_false in Hf. apply Hf.
    assert (Hx' : (f ++ l) !! j = Some x) by (by apply lookup_app_l_Some).
    rewrite <- (Nat.add_0_r j), <- lookup_drop, Hl' in Hx'. by injection Hx'. }
  destruct Hc as [(-> & -> & Hfn)|[Hc%bool_decide_eq_true Hc0]].
  - rewrite !decide_True by done. rewrite strstr_none; [|set_solver|by apply Hno]. cbn [mbind result_bind].
    by rewrite Nat.add_0_r, Nat2Z.id.
  - subst c. rewrite !decide_False by done.
    pose proof (strstr_first [d] f (r ++ [0])) as Hfirst. cbn [app] in Hfirst. rewrite Hfirst.
    + cbn [mbind result_bind]. rewrite byte_at_mid by done. cbn [mbind result_bind]. by rewrite decide_False.
    + rewrite Forall_forall. intros x Hx ->. set_solver.
    + by intros [= ->].
    + done.
    + apply Hno.
Qed.
End kinds.

(** ** Delimiters *)
Lemma strlen_terminated s l : 0 ∉ s -> strlen (s ++ 0 :: l) = Some (length s).
Proof.
  induction s as [|c s IH]; intros H0; cbn [app strlen]; [by rewrite decide_True|].
  rewrite decide_False by set_solver. rewrite IH by set_solver. done.
Qed.

Section delims.
Context {regex : Type} (pcre_compile : bytes -> option regex) (pcre_exec : regex -> bytes -> Z -> option (nat * nat)).

Lemma strip_last_hit c d : strip_last c (d ++ [c]) = (true, d).
Proof.
  unfold strip_last. rewrite last_snoc, decide_True, length_app by done. cbn [length].
  replace (length d + 1 - 1)%nat with (length d) by lia. by rewrite take_app_length.
Qed.

Lemma strip_last_miss c c' d : c' <> c -> strip_last c (d ++ [c']) = (false, d ++ [c']).
Proof. intros Hne. unfold strip_last. rewrite last_snoc, decide_False; [done|]. by intros [= ->]. Qed.

(** [[d]] or [[d]+] *)
Definition class_delim (d : bytes) (eat : bool) : bytes := 91 :: d ++ [93] ++ if eat then [43] else [].

Lemma split_of_class d eat :
  0 ∉ d -> split_of pcre_compile (class_delim d eat ++ [0]) = Some (DELIM_CHAR_CLASS d eat).
Proof.
  intros H0. unfold split_of, class_delim. rewrite cstring_app_nul by (destruct eat; set_solver).
  rewrite decide_True by done. destruct eat.
  - rewrite (app_assoc d), strip_last_hit, strip_last_hit. done.
  - rewrite app_nil_r, strip_last_miss, strip_last_hit by done. done.
Qed.

Lemma split_of_array c d :
  0 ∉ c :: d -> c <> 91 -> c <> 47 -> split_of pcre_compile (c :: d ++ [0]) = Some (DELIM_CHAR_ARRAY (c :: d)).
Proof.
  intros H0 H1 H2. unfold split_of. change (c :: d ++ [0]) with ((c :: d) ++ [0]). rewrite cstring_app_nul by done.
    by rewrite !decide_False by done.
Qed.

(** The texts of the tokens of a string, with room for them all. *)
Definition token_texts (delim s : bytes) (n : nat) : result (list bytes) :=
  str ← string_new (Some (s ++ [0])) (Z.of_nat (length s));
  l ← str_tokens pcre_compile pcre_exec (fun _ => true) (S (length s)) (Some (delim ++ [0])) (Some str) n;
  Ok (token_text (s ++ [0]) <$> default [] (fl_ptr l)).

Lemma token_texts_run delim sp s fs n :
  split_of pcre_compile (delim ++ [0]) = Some sp -> cuts pcre_exec sp s fs -> 0 ∉ s -> s <> [] ->
  Z.of_nat (S (length s)) < 2 ^ 64 ->
  token_texts delim s n = Ok (limit n 0 (filter (keep (eats sp)) fs)).
Proof.
  intros Hsp Hcuts H0 Hne Hlen. unfold token_texts, string_new.
  assert (length s <> 0%nat) by (by destruct s).
  rewrite decide_True by lia. rewrite strlen_terminated by done. cbn [mbind result_bind from_option_fault].
  unfold str_tokens. cbn [s_len s_ptr]. rewrite decide_False by lia. cbn [negb]. rewrite Hsp. cbn [from_option_fault mbind result_bind].
  destruct (tok_loop_ok pcre_exec sp n (s ++ [0]) s fs (fun _ => true) Hcuts Hne H0 (fun _ => eq_refl)) with
    (fuel := S (length s)) (pos := 0%nat) (ntok := if decide (n = 0)%nat then DEFAULT_TOKEN_NUM else n) (toks := @nil (nat * nat))
    as (toks & Hrun & Htext & _).
  - rewrite length_app. cbn [length]. lia.
  - done.
  - lia.
  - cbn [length]. lia.
  - rewrite Hrun. transitivity (Ok (token_text (s ++ [0]) <$> toks)); [reflexivity|]. by rewrite Htext.
Qed.

Lemma filter_keep_all (fs : list bytes) : filter (keep false) fs = fs.
Proof. induction fs as [|f fs IH]; [done|]. rewrite filter_cons_True by (by left). by rewrite IH. Qed.

(** C26: Splitting a non-empty string, allocation succeeding, with one of the delimiters that
    behave: the empty one, which splits at every character; a character class, where the form
    with a plus drops the empty pieces; a single character.  The tokens are the pieces
    in order, at most [n] of them unless [n] is 0, and the loop ends.  Of the other delimiters,
    a longer string is skipped by one character only ([str_tokens_string_delimiter]), and
    with a regular expression the loop may not end. *)
Theorem str_tokens_splits s n (H0 : 0 ∉ s) (Hne : s <> []) (Hlen : Z.of_nat (S (length s)) < 2 ^ 64) :
  token_texts [] s n = Ok (limit n 0 ((fun c => [c]) <$> s)) /\
  (forall d eat, 0 ∉ d ->
     token_texts (class_delim d eat) s n = Ok (limit n 0 (filter (keep eat) (fields (fun c => bool_decide (c ∈ d)) s)))) /\
  (forall c, c ∉ [0; 91; 47] -> token_texts [c] s n = Ok (limit n 0 (fields (fun x => bool_decide (x = c)) s))).
Proof.
  split; [|split].
  - rewrite (token_texts_run [] DELIM_CHAR_EVERY s _ n eq_refl (cuts_every pcre_exec s)) by done.
    cbn [eats]. by rewrite filter_keep_all.
  - intros d eat Hd.
    by rewrite (token_texts_run _ _ s _ n (split_of_class d eat Hd) (cuts_class pcre_exec d eat s H0)) by done.
  - intros c Hc. assert (Hsp : split_of pcre_compile ([c] ++ [0]) = Some (DELIM_CHAR_ARRAY [c])).
    { apply (split_of_array c []); set_solver. }
    rewrite (token_texts_run _ _ s _ n Hsp (cuts_char pcre_exec c s H0)) by done. cbn [eats]. by rewrite filter_keep_all.
Qed.

(** A delimiter of several characters is found as a whole, but only its first character is
    skipped: the rest of it is the start of the next token. *)
Theorem str_tokens_string_delimiter c d a b
    (Hd : 0 ∉ c :: d) (Hc : c <> 91 /\ c <> 47) (Ha : 0 ∉ a) (Hb : 0 ∉ b)
    (Hfirst : forall j, (j < length a)%nat -> ~ (c :: d) `prefix_of` drop j (a ++ (c :: d) ++ b ++ [0]))
    fs (Hfs : cuts pcre_exec (DELIM_CHAR_ARRAY (c :: d)) (d ++ b) fs)
    (Hlen : Z.of_nat (S (length (a ++ c :: d ++ b))) < 2 ^ 64) :
  token_texts (c :: d) (a ++ c :: d ++ b) 0 = Ok (a :: fs).
Proof.
  assert (Hcuts : cuts pcre_exec (DELIM_CHAR_ARRAY (c :: d)) (a ++ [c] ++ d ++ b) (a :: fs)).
  { apply cuts_cons; [|by destruct a|done]. cbn [next_token].
    replace (a ++ [c] ++ (d ++ b) ++ [0]) with (a ++ (c :: d) ++ b ++ [0]) by (by rewrite <- !app_assoc).
    rewrite strstr_first; [|rewrite Forall_forall; intros x Hx ->; set_solver|intros [= ->]; set_solver|done|done].
    cbn [mbind result_bind app]. rewrite byte_at_mid by done. cbn [mbind result_bind].
    rewrite decide_False by set_solver. by rewrite length_app, Nat.add_1_r. }
  change (a ++ c :: d ++ b) with (a ++ [c] ++ d ++ b).
  rewrite (token_texts_run (c :: d) _ _ _ 0 (split_of_array c d Hd (proj1 Hc) (proj2 Hc)) Hcuts).
  - cbn [eats]. rewrite filter_keep_all. done.
  - set_solver.
  - by destruct a.
  - done.
Qed.
End delims.

(** ** Replacing *)
Lemma token_read text off len :
  token_in text (off, len) -> buf_read text off len = Ok (token_text text (off, len)) /\ length (token_text text (off, len)) = len.
Proof.
  unfold token_in, token_text. cbn [fst snd]. intros Hin. split; [by apply buf_read_ok|].
  rewrite length_take, length_drop. lia.
Qed.

Lemma replace_loop_ok text rep toks out tail :
  Forall (token_in text) toks ->
  (sum_list ((fun t : nat * nat => t.2 + length rep)%nat <$> toks) <= length tail)%nat ->
  replace_loop text rep toks (out ++ tail) (length out) =
    Ok ((out ++ mjoin ((fun t => token_text text t ++ rep) <$> toks)) ++
        drop (sum_list ((fun t : nat * nat => t.2 + length rep)%nat <$> toks)) tail).
Proof.
  intros Htoks. revert out tail. induction Htoks as [|t toks Hin _ IH]; intros out tail Hlen.
  - cbn. by rewrite app_nil_r.
  - destruct t as [off len]. cbn [replace_loop]. cbn [fmap list_fmap sum_list fst snd] in *. unfold id in *.
    destruct (token_read text off len Hin) as [Hread Hf]. rewrite Hread. cbn [mbind result_bind].
    set (f := token_text text (off, len)) in *.
    destruct (decide (len <= length tail)%nat) as [H1|]; [|lia].
    assert (Htail : tail = take len tail ++ take (length rep) (drop len tail) ++ drop (length rep) (drop len tail))
      by (by rewrite !take_drop).
    rewrite Htail at 1.
    rewrite (buf_write_mid out (take len tail) f); [|done|by rewrite length_take; lia].
    cbn [mbind result_bind]. rewrite app_assoc.
    rewrite (buf_write_mid (out ++ f) (take (length rep) (drop len tail)) rep);
      [|by rewrite length_app, Hf|rewrite length_take, length_drop; lia].
    cbn [mbind result_bind]. rewrite (app_assoc (out ++ f) rep).
    replace (length out + len + length rep)%nat with (length ((out ++ f) ++ rep)) by (rewrite !length_app; lia).
    rewrite IH by (rewrite !length_drop; lia). cbn [mjoin list_join].
    rewrite <- !app_assoc, !drop_drop. by rewrite (Nat.add_assoc len (length rep)).
Qed.

Section replacing.
Context {regex : Type} (pcre_compile : bytes -> option regex) (pcre_exec : regex -> bytes -> Z -> option (nat * nat)).

Lemma cuts_no_nul sp s fs : cuts pcre_exec sp s fs -> 0 ∉ s -> Forall (fun f => 0 ∉ f) fs.
Proof. intros Hc. induction Hc as [|f sep rest fs _ _ _ IH]; intros H0; constructor; [set_solver|]. apply IH. set_solver. Qed.

Lemma str_replace_run sp s fs delim rep junk :
  split_of pcre_compile (delim ++ [0]) = Some sp -> cuts pcre_exec sp s fs -> 0 ∉ s -> s <> [] ->
  Z.of_nat (S (length s)) < 2 ^ 64 -> 0 ∉ rep ->
  let pieces := filter (keep (eats sp)) fs in
  let out := mjoin ((fun f => f ++ rep) <$> pieces) in
  str_replace pcre_compile pcre_exec (fun _ => true) (S (length s)) junk (Some (delim ++ [0])) rep
      (Str (Some (s ++ [0])) (Z.of_nat (length s))) =
    Ok (Str (Some (out ++ [0])) (Z.of_nat (length out)), length pieces).
Proof.
  intros Hsp Hcuts H0 Hne Hlen Hrep. cbn zeta. set (pieces := filter _ fs).
  assert (length s <> 0%nat) by (by destruct s).
  destruct (tok_loop_ok pcre_exec sp 0 (s ++ [0]) s fs (fun _ => true) Hcuts Hne H0 (fun _ => eq_refl)) with
    (fuel := S (length s)) (pos := 0%nat) (ntok := DEFAULT_TOKEN_NUM) (toks := @nil (nat * nat))
    as (toks & Hrun & Htext & Hin); [rewrite length_app; cbn [length]; lia|done|lia|by left|].
  change (limit 0 _ _) with pieces in Htext. cbn [app] in Hrun.
  assert (Hlp : length toks = length pieces) by (by rewrite <- Htext, length_fmap).
  unfold str_replace, str_tokens. cbn [s_len s_ptr]. rewrite decide_False by lia. cbn [negb]. rewrite Hsp.
  cbn [from_option_fault mbind result_bind]. rewrite decide_True by done. rewrite Hrun. cbn [mbind result_bind fl_ptr fl_len].
  change (default [] (Some ?x)) with x. change (default [] (Some (s ++ [0]))) with (s ++ [0]).
  set (total := sum_list _).
  assert (Hout : length (mjoin ((fun f => f ++ rep) <$> pieces)) = total).
  { unfold total. rewrite <- Htext. clear -Hin. induction Hin as [|t toks Hin _ IH]; [done|].
    destruct t as [off len]. destruct (token_read (s ++ [0]) off len Hin) as [_ Hl].
    rewrite !fmap_cons. change (mjoin (?x :: ?l)) with (x ++ mjoin l). change (sum_list (?x :: ?l)) with (x + sum_list l)%nat.
    by rewrite !length_app, Hl, IH. }
  pose proof (replace_loop_ok (s ++ [0]) rep toks [] (replicate (S total) junk) Hin) as Hloop. fold total in Hloop.
  rewrite length_replicate in Hloop. specialize (Hloop ltac:(lia)). cbn [app length] in Hloop. rewrite Hloop. cbn [mbind result_bind].
  assert (Hmj : mjoin ((fun t => token_text (s ++ [0]) t ++ rep) <$> toks) = mjoin ((fun f => f ++ rep) <$> pieces)).
  { rewrite <- Htext, <- list_fmap_compose. done. }
  rewrite Hmj. set (out := mjoin _) in *. rewrite drop_replicate. replace (S total - total)%nat with 1%nat by lia.
  replace (S total - 1)%nat with (length out) by lia.
  pose proof (buf_write_mid out [junk] [0] [] (length out) eq_refl eq_refl) as Hw. rewrite !app_nil_r in Hw.
  cbn [replicate]. rewrite Hw. cbn [mbind result_bind]. unfold string_new. rewrite decide_True by lia.
  rewrite strlen_terminated.
  - cbn [from_option_fault mbind result_bind]. by rewrite Hlp.
  - unfold out. pose proof (cuts_no_nul sp s fs Hcuts H0) as Hfs.
    assert (Hp : Forall (fun f => 0 ∉ f) pieces).
    { rewrite Forall_forall in *. intros f [_ Hf]%list_elem_of_filter. by apply Hfs. }
    clear -Hp Hrep. induction Hp as [|f l Hf _ IH]; [by intros ?%elem_of_nil|].
    rewrite fmap_cons. change (mjoin (?x :: ?l)) with (x ++ mjoin l). set_solver.
Qed.
End replacing.

(** [str_replace] copies the pieces between the delimiters, each with the replacement after
    it, the last one too; a run of delimiters of a class with a plus gives one replacement;
    what it counts is the pieces.  The result is a string that ends in its NUL. *)
Theorem str_replace_pieces {regex : Type} (pcre_compile : bytes -> option regex) (pcre_exec : regex -> bytes -> Z -> option (nat * nat))
    s d eat rep junk (H0 : 0 ∉ s) (Hne : s <> []) (Hlen : Z.of_nat (S (length s)) < 2 ^ 64) (Hd : 0 ∉ d) (Hrep : 0 ∉ rep) :
  let pieces := filter (keep eat) (fields (fun c => bool_decide (c ∈ d)) s) in
  let out := mjoin ((fun f => f ++ rep) <$> pieces) in
  str_replace pcre_compile pcre_exec (fun _ => true) (S (length s)) junk (Some (class_delim d eat ++ [0])) rep
      (Str (Some (s ++ [0])) (Z.of_nat (length s))) =
    Ok (Str (Some (out ++ [0])) (Z.of_nat (length out)), length pieces).
Proof.
  apply (str_replace_run pcre_compile pcre_exec (DELIM_CHAR_CLASS d eat)); try done.
  - by apply split_of_class.
  - by apply cuts_class.
Qed.

Definition no_regex : bytes -> option unit := fun _ => None.
Definition no_match : unit -> bytes -> Z -> option (nat * nat) := fun _ _ _ => None.

Lemma str_replace_pieces_witness :
  str_replace no_regex no_match (fun _ => true) 6 7 (Some (str "[,]+" ++ [0])) (str "--") (Str (Some (str "a,,b," ++ [0])) 5) =
    Ok (Str (Some (str "a--b--" ++ [0])) 6, 2%nat).
Proof.
  apply (str_replace_pieces no_regex no_match (str "a,,b,") [44] true (str "--") 7); try done; by apply (bool_decide_eq_true_1 _); vm_compute.
Defined.

Lemma str_tokens_splits_witness :
  token_texts no_regex no_match (str "[,;]+") (str "a,;b") 0 = Ok [str "a"; str "b"].
Proof.
  apply (str_tokens_splits no_regex no_match (str "a,;b") 0) with (d := [44; 59]) (eat := true); try done;
    by apply (bool_decide_eq_true_1 _); vm_compute.
Defined.

Lemma str_tokens_string_delimiter_witness :
  token_texts no_regex no_match (str "::") (str "a::b") 0 = Ok [str "a"; str ":b"].
Proof.
  apply (str_tokens_string_delimiter no_regex no_match 58 [58] (str "a") (str "b")); try done;
    try (by apply (bool_decide_eq_true_1 _); vm_compute).
  - intros [|j] Hj; [|cbn in Hj; lia]. by intros [k [= ]].
  - apply (cuts_cons _ _ (str ":b") [] []); [done|done|constructor].
Defined.

(** C37: A regular expression that matches the empty string where the search starts never lets the
    loop finish: each turn adds an empty token and stays where it is. *)
Theorem str_tokens_regex_diverges {regex : Type} (pcre_compile : bytes -> option regex) (pcre_exec : regex -> bytes -> Z -> option (nat * nat))
    re delim s fuel
    (H0 : 0 ∉ s) (Hne : s <> []) (Hlen : Z.of_nat (S (length s)) < 2 ^ 64)
    (Hre : split_of pcre_compile delim = Some (DELIM_CHAR_REGEX re))
    (Hm : pcre_exec re (s ++ [0]) (Z.of_nat (length s)) = Some (0, 0)%nat) :
  str_tokens pcre_compile pcre_exec (fun _ => true) fuel (Some delim) (Some (Str (Some (s ++ [0])) (Z.of_nat (length s)))) 0 =
    Fault NoFuel.
Proof.
  assert (length s <> 0%nat) by (by destruct s).
  unfold str_tokens. cbn [s_len s_ptr]. rewrite decide_False by lia. cbn [negb]. rewrite Hre.
  cbn [from_option_fault mbind result_bind].
  assert (Hl : forall ntok toks, tok_loop pcre_exec (fun _ => true) fuel (DELIM_CHAR_REGEX re) 0 (s ++ [0]) 0 (Z.of_nat (length s)) ntok toks = Fault NoFuel).
  { induction fuel as [|fuel IH]; intros ntok toks; [done|]. cbn [tok_loop next_token]. rewrite andb_false_r, drop_0, Hm.
    cbn [mbind result_bind eats]. rewrite decide_False by naive_solver. rewrite andb_false_r.
    replace (byte_at (s ++ [0]) (0 + 0)) with (Ok (default 0 (head s))) by (by destruct s). cbn [mbind result_bind].
    rewrite decide_False by (destruct s; [done|set_solver]).
    rewrite Z.sub_0_r, u64_small by lia. apply IH. }
  by rewrite Hl.
Qed.

Lemma str_tokens_regex_diverges_witness :
  str_tokens (fun _ => Some tt) (fun _ _ _ => Some (0, 0)%nat) (fun _ => true) 50 (Some (str "/a*/" ++ [0]))
    (Some (Str (Some (str "xyz" ++ [0])) 3)) 0 = Fault NoFuel.
Proof.
  apply (str_tokens_regex_diverges (fun _ => Some tt) (fun _ _ _ => Some (0, 0)%nat) tt (str "/a*/" ++ [0]) (str "xyz") 50); try done.
  by apply (bool_decide_eq_true_1 _); vm_compute.
Defined.
