(* ===== verification/City.v ===== *)
(** * CityHash

    src/lib/atomic_hash/src/hash_city.c, the hash function of the atomic hash, on a
    little-endian machine with SSE 4.2.  A pointer is a buffer and an offset, which may be
    negative in between; a load outside the buffer is a fault.  The CRC instruction of the
    processor is a parameter. *)
From S2P Require Import Prelude CLib Bytes.

#[local] Open Scope Z_scope.

Definition add64 (a b : Z) : Z := u64 (a + b).
Definition sub64 (a b : Z) : Z := u64 (a - b).
Definition mul64 (a b : Z) : Z := u64 (a * b).
Definition shl64 (a n : Z) : Z := u64 (Z.shiftl a n).

#[local] Infix "+!" := add64 (at level 50, left associativity).
#[local] Infix "-!" := sub64 (at level 50, left associativity).
#[local] Infix "*!" := mul64 (at level 40, left associativity).
#[local] Infix "^!" := Z.lxor (at level 52, left associativity).

(** ** Loads *)
Definition load_le (n : nat) (s : bytes) (p : Z) : result Z :=
  if decide (0 <= p) then le_get <$> buf_read s (Z.to_nat p) n else Fault OutOfBounds.
Definition Fetch64 : bytes -> Z -> result Z := load_le 8.
Definition Fetch32 : bytes -> Z -> result Z := load_le 4.
Definition Fetch8 : bytes -> Z -> result Z := load_le 1.

Definition k0 : Z := 0xc3a5c85c97cb3127.
Definition k1 : Z := 0xb492b66fbe98f273.
Definition k2 : Z := 0x9ae16a3b2f90404f.
Definition k3 : Z := 0xc949d7c7509e6557.

(** ** Mixing *)
Definition Hash128to64 (lo hi : Z) : Z :=
  let kMul := 0x9ddfea08eb382d69 in
  let a := (lo ^! hi) *! kMul in
  let a := a ^! Z.shiftr a 47 in
  let b := (hi ^! a) *! kMul in
  let b := b ^! Z.shiftr b 47 in
  b *! kMul.

Definition RotateByAtLeast1 (val shift : Z) : Z := Z.lor (Z.shiftr val shift) (shl64 val (64 - shift)).
Definition Rotate (val shift : Z) : Z := if decide (shift = 0) then val else RotateByAtLeast1 val shift.
Definition ShiftMix (val : Z) : Z := val ^! Z.shiftr val 47.
Definition HashLen16 (u v : Z) : Z := Hash128to64 u v.

Definition HashLen0to16 (s : bytes) (p len : Z) : result Z :=
  if decide (8 < len) then
    a ← Fetch64 s p;
    b ← Fetch64 s (p + len - 8);
    Ok (HashLen16 a (RotateByAtLeast1 (b +! len) len) ^! b)
  else if decide (4 <= len) then
    a ← Fetch32 s p;
    b ← Fetch32 s (p + len - 4);
    Ok (HashLen16 (len +! shl64 a 3) b)
  else if decide (0 < len) then
    a ← Fetch8 s p;
    b ← Fetch8 s (p + Z.shiftr len 1);
    c ← Fetch8 s (p + len - 1);
    let y := u32 (a + Z.shiftl b 8) in
    let z := u32 (len + Z.shiftl c 2) in
    Ok (ShiftMix (y *! k2 ^! z *! k3) *! k2)
  else Ok k2.

Definition HashLen17to32 (s : bytes) (p len : Z) : result Z :=
  a ← Fetch64 s p;
  let a := a *! k1 in
  b ← Fetch64 s (p + 8);
  c ← Fetch64 s (p + len - 8);
  let c := c *! k2 in
  d ← Fetch64 s (p + len - 16);
  let d := d *! k0 in
  Ok (HashLen16 (Rotate (a -! b) 43 +! Rotate c 30 +! d) (a +! Rotate (b ^! k3) 20 -! c +! len)).

Definition WeakHashLen32WithSeeds6 (w x y z a b : Z) : Z * Z :=
  let a := a +! w in
  let b := Rotate (b +! a +! z) 21 in
  let c := a in
  let a := a +! x in
  let a := a +! y in
  let b := b +! Rotate a 44 in
  (a +! z, b +! c).

Definition WeakHashLen32WithSeeds (s : bytes) (p a b : Z) : result (Z * Z) :=
  w ← Fetch64 s p;
  x ← Fetch64 s (p + 8);
  y ← Fetch64 s (p + 16);
  z ← Fetch64 s (p + 24);
  Ok (WeakHashLen32WithSeeds6 w x y z a b).

Definition HashLen33to64 (s : bytes) (p len : Z) : result Z :=
  z ← Fetch64 s (p + 24);
  a ← Fetch64 s p;
  f ← Fetch64 s (p + len - 16);
  let a := a +! (len +! f) *! k0 in
  let b := Rotate (a +! z) 52 in
  let c := Rotate a 37 in
  f ← Fetch64 s (p + 8);
  let a := a +! f in
  let c := c +! Rotate a 7 in
  f ← Fetch64 s (p + 16);
  let a := a +! f in
  let vf := a +! z in
  let vs := b +! Rotate a 31 +! c in
  a ← Fetch64 s (p + 16);
  f ← Fetch64 s (p + len - 32);
  let a := a +! f in
  z ← Fetch64 s (p + len - 8);
  let b := Rotate (a +! z) 52 in
  let c := Rotate a 37 in
  f ← Fetch64 s (p + len - 24);
  let a := a +! f in
  let c := c +! Rotate a 7 in
  f ← Fetch64 s (p + len - 16);
  let a := a +! f in
  let wf := a +! z in
  let ws := b +! Rotate a 31 +! c in
  let r := ShiftMix ((vf +! ws) *! k2 +! (wf +! vs) *! k0) in
  Ok (ShiftMix (r *! k0 +! vs) *! k2).

(** ** Long strings: 56 bytes of state *)
Record city := Cty { v1 : Z; v2 : Z; w1 : Z; w2 : Z; cx : Z; cy : Z; cz : Z }.

(** The inner loop, 64 bytes of the string. *)
Definition city_round (s : bytes) (p : Z) (c : city) : result city :=
  f ← Fetch64 s (p + 8);
  let x := Rotate (cx c +! cy c +! v1 c +! f) 37 *! k1 in
  f ← Fetch64 s (p + 48);
  let y := Rotate (cy c +! v2 c +! f) 42 *! k1 in
  let x := x ^! w2 c in
  f ← Fetch64 s (p + 40);
  let y := y +! (v1 c +! f) in
  let z := Rotate (cz c +! w1 c) 33 *! k1 in
  v ← WeakHashLen32WithSeeds s p (v2 c *! k1) (x +! w1 c);
  f ← Fetch64 s (p + 16);
  w ← WeakHashLen32WithSeeds s (p + 32) (z +! w2 c) (y +! f);
  Ok (Cty v.1 v.2 w.1 w.2 z y x).

Fixpoint city_loop (fuel : nat) (s : bytes) (p len : Z) (c : city) : result city :=
  match fuel with
  | O => Fault NoFuel
  | S fuel =>
      c ← city_round s p c;
      if decide (len - 64 <> 0) then city_loop fuel s (p + 64) (len - 64) c else Ok c
  end.

Definition CityHash64 (s : bytes) (p len : Z) : result Z :=
  if decide (len <= 32) then
    (if decide (len <= 16) then HashLen0to16 s p len else HashLen17to32 s p len)
  else if decide (len <= 64) then HashLen33to64 s p len
  else
    x ← Fetch64 s (p + len - 40);
    a ← Fetch64 s (p + len - 16);
    b ← Fetch64 s (p + len - 56);
    let y := a +! b in
    a ← Fetch64 s (p + len - 48);
    b ← Fetch64 s (p + len - 24);
    let z := HashLen16 (a +! len) b in
    v ← WeakHashLen32WithSeeds s (p + len - 64) len z;
    w ← WeakHashLen32WithSeeds s (p + len - 32) (y +! k1) x;
    f ← Fetch64 s p;
    let x := x *! k1 +! f in
    let len := Z.land (len - 1) (Z.lnot 63) in
    c ← city_loop (Z.to_nat len) s p len (Cty v.1 v.2 w.1 w.2 x y z);
    Ok (HashLen16 (HashLen16 (v1 c) (w1 c) +! ShiftMix (cy c) *! k1 +! cz c) (HashLen16 (v2 c) (w2 c) +! cx c)).

Definition CityHash64WithSeeds (s : bytes) (p len seed0 seed1 : Z) : result Z :=
  h ← CityHash64 s p len; Ok (HashLen16 (h -! seed0) seed1).
Definition CityHash64WithSeed (s : bytes) (p len seed : Z) : result Z := CityHash64WithSeeds s p len k2 seed.

(** ** 128 bits *)
Fixpoint murmur_loop (fuel : nat) (s : bytes) (p l a b c d : Z) : result (Z * Z * Z * Z) :=
  match fuel with
  | O => Fault NoFuel
  | S fuel =>
      f ← Fetch64 s p;
      let a := (a ^! ShiftMix (f *! k1) *! k1) *! k1 in
      let b := b ^! a in
      f ← Fetch64 s (p + 8);
      let c := (c ^! ShiftMix (f *! k1) *! k1) *! k1 in
      let d := d ^! c in
      if decide (0 < l - 16) then murmur_loop fuel s (p + 16) (l - 16) a b c d else Ok (a, b, c, d)
  end.

Definition CityMurmur (s : bytes) (p len : Z) (lo hi : Z) : result (Z * Z) :=
  let l := len - 16 in
  r ← (if decide (l <= 0) then
         let a := ShiftMix (lo *! k1) *! k1 in
         h ← HashLen0to16 s p len;
         let c := hi *! k1 +! h in
         f ← (if decide (8 <= len) then Fetch64 s p else Ok c);
         Ok (a, hi, c, ShiftMix (a +! f))
       else
         f ← Fetch64 s (p + len - 8);
         let c := HashLen16 (f +! k1) lo in
         f ← Fetch64 s (p + len - 16);
         let d := HashLen16 (hi +! len) (c +! f) in
         murmur_loop (Z.to_nat len) s p l (lo +! d) hi c d);
  let '(a, b, c, d) := r in
  let a := HashLen16 a c in
  let b := HashLen16 d b in
  Ok (a ^! b, HashLen16 b a).

Fixpoint city128_loop (fuel : nat) (s : bytes) (p len : Z) (c : city) : result (Z * Z * city) :=
  match fuel with
  | O => Fault NoFuel
  | S fuel =>
      c ← city_round s p c;
      c ← city_round s (p + 64) c;
      if decide (128 <= len - 128) then city128_loop fuel s (p + 128) (len - 128) c else Ok (p + 128, len - 128, c)
  end.

(** Up to four chunks of 32 bytes from the end of the string. *)
Fixpoint city_tail (fuel : nat) (s : bytes) (p len tail_done : Z) (c : city) : result city :=
  match fuel with
  | O => Fault NoFuel
  | S fuel =>
      if decide (tail_done < len) then
        let tail_done := tail_done + 32 in
        let y := Rotate (cx c +! cy c) 42 *! k0 +! v2 c in
        f ← Fetch64 s (p + len - tail_done + 16);
        let w1 := w1 c +! f in
        let x := cx c *! k0 +! w1 in
        f ← Fetch64 s (p + len - tail_done);
        let z := cz c +! (w2 c +! f) in
        let w2 := w2 c +! v1 c in
        v ← WeakHashLen32WithSeeds s (p + len - tail_done) (v1 c +! z) (v2 c);
        city_tail fuel s p len tail_done (Cty v.1 v.2 w1 w2 x y z)
      else Ok c
  end.

Definition CityHash128WithSeed (s : bytes) (p len : Z) (lo hi : Z) : result (Z * Z) :=
  if decide (len < 128) then CityMurmur s p len lo hi
  else
    let x := lo in
    let y := hi in
    let z := len *! k1 in
    f ← Fetch64 s p;
    let fv := Rotate (y ^! k1) 49 *! k1 +! f in
    f ← Fetch64 s (p + 8);
    let sv := Rotate fv 42 *! k1 +! f in
    let fw := Rotate (y +! z) 35 *! k1 +! x in
    f ← Fetch64 s (p + 88);
    let sw := Rotate (x +! f) 53 *! k1 in
    r ← city128_loop (Z.to_nat len) s p len (Cty fv sv fw sw x y z);
    let '(p, len, c) := r in
    let x := cx c +! Rotate (v1 c +! cz c) 49 *! k0 in
    let z := cz c +! Rotate (w1 c) 37 *! k0 in
    c ← city_tail 5 s p len 0 (Cty (v1 c) (v2 c) (w1 c) (w2 c) x (cy c) z);
    let x := HashLen16 (cx c) (v1 c) in
    let y := HashLen16 (cy c +! cz c) (w1 c) in
    Ok (HashLen16 (x +! v2 c) (w2 c) +! y, HashLen16 (x +! w2 c) (y +! v2 c)).

(** [CityHash128WithSeed(NULL, 0, r)] is the empty buffer. *)
Definition CityHash128 (s : bytes) (p len : Z) : result (Z * Z) :=
  if decide (16 <= len) then
    a ← Fetch64 s p;
    b ← Fetch64 s (p + 8);
    CityHash128WithSeed s (p + 16) (len - 16) (a ^! k3) b
  else if decide (8 <= len) then
    a ← Fetch64 s p;
    b ← Fetch64 s (p + len - 8);
    CityHash128WithSeed [] 0 0 (a ^! len *! k0) (b ^! k1)
  else CityHash128WithSeed s p len k0 k1.

(** ** CRC: strings of more than 900 bytes *)
Section crc.
Context (crc32_u64 : Z -> Z -> Z).

Record crc_state := Crc {
  ca : Z; cb : Z; cc : Z; cd : Z; ce : Z; cf : Z; cg : Z; ch : Z; ci : Z; cj : Z; ct : Z
}.

(** The macro CHUNK, 40 bytes of the string. *)
Definition CHUNK (s : bytes) (p multiplier z : Z) (t : crc_state) : result crc_state :=
  let old_a := ca t in
  f ← Fetch64 s p;
  let a := Rotate (cb t) (Z.lxor 41 z) *! multiplier +! f in
  f ← Fetch64 s (p + 8);
  let b := Rotate (cc t) (Z.lxor 27 z) *! multiplier +! f in
  f ← Fetch64 s (p + 16);
  let c := Rotate (cd t) (Z.lxor 41 z) *! multiplier +! f in
  f ← Fetch64 s (p + 24);
  let d := Rotate (ce t) (Z.lxor 33 z) *! multiplier +! f in
  f ← Fetch64 s (p + 32);
  let e := Rotate (ct t) (Z.lxor 25 z) *! multiplier +! f in
  Ok (Crc a b c d e (crc32_u64 (cf t) a) (crc32_u64 (cg t) b) (crc32_u64 (ch t) c)
        (crc32_u64 (ci t) d) (crc32_u64 (cj t) e) old_a).

(** 240 bytes of input per turn. *)
Fixpoint crc_iters (iters : nat) (s : bytes) (p : Z) (t : crc_state) : result (Z * crc_state) :=
  match iters with
  | O => Ok (p, t)
  | S iters =>
      t ← CHUNK s p 1 1 t; t ← CHUNK s (p + 40) k0 0 t;
      t ← CHUNK s (p + 80) 1 1 t; t ← CHUNK s (p + 120) k0 0 t;
      t ← CHUNK s (p + 160) 1 1 t; t ← CHUNK s (p + 200) k0 0 t;
      crc_iters iters s (p + 240) t
  end.

Fixpoint crc_rest (fuel : nat) (s : bytes) (p len : Z) (t : crc_state) : result (Z * Z * crc_state) :=
  match fuel with
  | O => Fault NoFuel
  | S fuel =>
      if decide (40 <= len) then t ← CHUNK s p k0 0 t; crc_rest fuel s (p + 40) (len - 40) t
      else Ok (p, len, t)
  end.

(** [result[0]] to [result[3]] *)
Definition CityHashCrc256Long (s : bytes) (p len seed : Z) : result (Z * Z * Z * Z) :=
  f ← Fetch64 s (p + 56);
  let a := f +! k0 in
  f ← Fetch64 s (p + 96);
  let b := f +! k0 in
  let c := HashLen16 b len in
  let r0 := c in
  f ← Fetch64 s (p + 120);
  let d := f *! k0 +! len in
  let r1 := d in
  f ← Fetch64 s (p + 184);
  let e := f +! seed in
  let iters := len / 240 in
  let len := len - iters * 240 in
  r ← crc_iters (Z.to_nat iters) s p (Crc a b c d e seed 0 0 0 0 (c +! d));
  r ← crc_rest 7 s r.1 len r.2;
  let '(p, len, t) := r in
  t ← (if decide (0 < len) then CHUNK s (p + len - 40) k0 0 t else Ok t);
  let j := cj t +! shl64 (ci t) 32 in
  let a := HashLen16 (ca t) j in
  let h := ch t +! shl64 (cg t) 32 in
  let b := cb t +! h in
  let c := HashLen16 (cc t) (cf t) +! ci t in
  let d := HashLen16 (cd t) (ce t +! r0) in
  let j := j +! ce t in
  let i := ci t +! HashLen16 h (ct t) in
  let e := HashLen16 a d +! j in
  let f := HashLen16 b c +! a in
  let g := HashLen16 j i +! c in
  let r0 := e +! f +! g +! h in
  let a := ShiftMix ((a +! g) *! k0) *! k0 +! b in
  let r1 := r1 +! (a +! r0) in
  let a := ShiftMix (a *! k0) *! k0 +! c in
  let r2 := a +! r1 in
  let a := ShiftMix ((a +! e) *! k0) *! k0 in
  Ok (r0, r1, r2, a +! r2).

Definition CityHashCrc256Short (s : bytes) (p len : Z) : result (Z * Z * Z * Z) :=
  x ← (if decide (0 <= p) then buf_read s (Z.to_nat p) (Z.to_nat len) else Fault OutOfBounds);
  buf ← buf_write (replicate 240 0) 0 x;
  CityHashCrc256Long buf 0 240 (u32 (Z.lnot len)).

Definition CityHashCrc256 (s : bytes) (p len : Z) : result (Z * Z * Z * Z) :=
  if decide (240 <= len) then CityHashCrc256Long s p len 0 else CityHashCrc256Short s p len.

Definition CityHashCrc128WithSeed (s : bytes) (p len lo hi : Z) : result (Z * Z) :=
  if decide (len <= 900) then CityHash128WithSeed s p len lo hi
  else
    r ← CityHashCrc256 s p len;
    let '(r0, r1, r2, r3) := r in
    let u := hi +! r0 in
    let v := lo +! r1 in
    Ok (HashLen16 u (v +! r2), HashLen16 (Rotate v 32) (u *! k0 +! r3)).

Definition CityHashCrc128 (s : bytes) (p len : Z) : result (Z * Z) :=
  if decide (len <= 900) then CityHash128 s p len
  else
    r ← CityHashCrc256 s p len;
    let '(r0, r1, r2, r3) := r in Ok (r2, r3).

(** The key of the atomic hash: neither word is 0. *)
Definition cityhash_128 (s : bytes) (len : Z) : result (Z * Z) :=
  r ← CityHashCrc128 s 0 len;
  Ok (if decide (r.1 = 0) then r.1 + 1 else r.1, if decide (r.2 = 0) then r.2 + 1 else r.2).
End crc.

(** * The hash reads only the key *)

(** ** Total loads *)
Definition defined {A} (r : result A) : Prop := exists a, r = Ok a.

Lemma defined_ok {A} (a : A) : defined (Ok a).
Proof. by exists a. Qed.

Lemma defined_bind {A B} (r : result A) (f : A -> result B) : defined r -> (forall a, defined (f a)) -> defined (r ≫= f).
Proof. intros [a ->] Hf. apply Hf. Qed.

Lemma load_le_defined n s p : 0 <= p -> p + Z.of_nat n <= Z.of_nat (length s) -> defined (load_le n s p).
Proof. intros H0 H1. unfold load_le. rewrite decide_True by done. rewrite buf_read_ok by lia. by eexists. Qed.

Create HintDb city.
#[export] Hint Resolve defined_ok : city.

Ltac load := first [apply (load_le_defined 8); [lia|cbn; lia] | apply (load_le_defined 4); [lia|cbn; lia] | apply (load_le_defined 1); [lia|cbn; lia]].
Ltac city :=
  repeat first [load | (apply defined_bind; [|intros ?]) | case_decide | apply defined_ok | (eauto with city; fail)].

(** ** The parts *)
Section bounds.
Context (s : bytes).
#[local] Abbreviation slen := (Z.of_nat (length s)).

Lemma weak_defined p a b : 0 <= p -> p + 32 <= slen -> defined (WeakHashLen32WithSeeds s p a b).
Proof. intros. unfold WeakHashLen32WithSeeds. city. Qed.

Lemma HashLen0to16_defined p len : 0 <= p -> 0 <= len <= 16 -> p + len <= slen -> defined (HashLen0to16 s p len).
Proof.
  intros. assert (0 < len -> 0 <= Z.shiftr len 1 < len) as Hh.
  { intros. rewrite Z.shiftr_div_pow2 by lia. change (2 ^ 1) with 2. split; [apply Z.div_pos; lia|apply Z.div_lt; lia]. }
  unfold HashLen0to16. city.
Qed.

Lemma HashLen17to32_defined p len : 0 <= p -> 16 <= len -> p + len <= slen -> defined (HashLen17to32 s p len).
Proof. intros. unfold HashLen17to32. city. Qed.

Lemma HashLen33to64_defined p len : 0 <= p -> 32 <= len -> p + len <= slen -> defined (HashLen33to64 s p len).
Proof. intros. unfold HashLen33to64. city. Qed.
End bounds.

#[export] Hint Resolve weak_defined HashLen0to16_defined HashLen17to32_defined HashLen33to64_defined : city.
#[export] Hint Extern 1 (_ <= _) => lia : city.
#[export] Hint Extern 1 (_ < _) => lia : city.
#[export] Hint Extern 1 (_ <= _ <= _) => lia : city.

Section loops.
Context (s : bytes).
#[local] Abbreviation slen := (Z.of_nat (length s)).

Lemma round_defined p c : 0 <= p -> p + 64 <= slen -> defined (city_round s p c).
Proof. intros. unfold city_round. city. Qed.

Lemma city_loop_defined fuel p n c : 0 <= p -> 0 < n -> p + 64 * n <= slen -> (Z.to_nat (64 * n) <= fuel)%nat ->
  defined (city_loop fuel s p (64 * n) c).
Proof.
  revert p n c. induction fuel as [|fuel IH]; intros p n c Hp Hn Hs Hf; [lia|]. cbn [city_loop].
  apply defined_bind; [apply round_defined; lia|]. intros c'. case_decide as Hd; [|apply defined_ok].
  replace (64 * n - 64) with (64 * (n - 1)) by lia. apply IH; lia.
Qed.

Lemma CityHash64_defined p len : 0 <= p -> 0 <= len -> p + len <= slen -> defined (CityHash64 s p len).
Proof.
  intros Hp Hl Hs. unfold CityHash64. case_decide; [city|]. case_decide; [city|].
  assert (Hm : Z.land (len - 1) (Z.lnot 63) = 64 * ((len - 1) / 64)).
  { change 63 with (Z.ones 6). rewrite <- Z.ldiff_land, Z.ldiff_ones_r, Z.shiftr_div_pow2, Z.shiftl_mul_pow2 by lia. change (2 ^ 6) with 64. lia. }
  rewrite Hm. assert (0 < (len - 1) / 64) by (apply Z.div_str_pos; lia).
  pose proof (Z.mul_div_le (len - 1) 64).
  do 5 (apply defined_bind; [load|intros ?]). do 2 (apply defined_bind; [apply weak_defined; lia|intros ?]).
  apply defined_bind; [load|intros ?]. apply defined_bind; [apply city_loop_defined; lia|intros ?]. apply defined_ok.
Qed.

Lemma murmur_loop_defined fuel p l a b c d : 0 <= p -> 0 < l -> p + l + 16 <= slen -> (Z.to_nat l <= fuel)%nat ->
  defined (murmur_loop fuel s p l a b c d).
Proof.
  revert p l a b c d. induction fuel as [|fuel IH]; intros p l a b c d Hp Hl Hs Hf; [lia|]. cbn [murmur_loop].
  do 2 (apply defined_bind; [load|intros ?]). case_decide; [apply IH; lia|apply defined_ok].
Qed.

Lemma CityMurmur_defined p len lo hi : 0 <= p -> 0 <= len -> p + len <= slen -> defined (CityMurmur s p len lo hi).
Proof.
  intros. unfold CityMurmur. apply defined_bind; [|intros [[[a b] c] d]; apply defined_ok].
  case_decide.
  - apply defined_bind; [apply HashLen0to16_defined; lia|]. intros h. apply defined_bind; [|intros; apply defined_ok].
    case_decide; [load|apply defined_ok].
  - do 2 (apply defined_bind; [load|intros ?]). apply murmur_loop_defined; lia.
Qed.

(** The end of the loop is inside the string, and at least 128 bytes after its start. *)
Lemma city128_loop_defined fuel p len c : 0 <= p -> 128 <= len -> p + len <= slen -> (Z.to_nat len <= fuel)%nat ->
  exists p' len' c', city128_loop fuel s p len c = Ok (p', len', c') /\ p + 128 <= p' /\ 0 <= len' < 128 /\ p' + len' <= slen.
Proof.
  revert p len c. induction fuel as [|fuel IH]; intros p len c Hp Hl Hs Hf; [lia|]. cbn [city128_loop].
  destruct (round_defined p c) as [c1 ->]; [lia..|]. cbn [mbind result_bind].
  destruct (round_defined (p + 64) c1) as [c2 ->]; [lia..|]. cbn [mbind result_bind]. case_decide.
  - destruct (IH (p + 128) (len - 128) c2) as (p' & len' & c' & -> & ? & ? & ?); [lia..|]. exists p', len', c'. split; [done|lia].
  - exists (p + 128), (len - 128), c2. split; [done|lia].
Qed.

Lemma city_tail_defined fuel p len tail c : 128 <= p -> 0 <= len < 128 -> 0 <= tail -> p + len <= slen ->
  len <= tail + 32 * (Z.of_nat fuel - 1) -> (0 < fuel)%nat -> defined (city_tail fuel s p len tail c).
Proof.
  revert tail c. induction fuel as [|fuel IH]; intros tail c Hp Hl Ht Hs Hf H0; [lia|]. cbn [city_tail].
  case_decide; [|apply defined_ok]. do 2 (apply defined_bind; [load|intros ?]).
  apply defined_bind; [apply weak_defined; lia|intros ?]. apply IH; lia.
Qed.


Lemma CityHash128WithSeed_defined p len lo hi : 0 <= p -> 0 <= len -> p + len <= slen ->
  defined (CityHash128WithSeed s p len lo hi).
Proof.
  intros. unfold CityHash128WithSeed. case_decide; [apply CityMurmur_defined; lia|].
  do 3 (apply defined_bind; [load|intros ?]).
  edestruct (city128_loop_defined (Z.to_nat len) p len) as (p' & len' & c' & -> & ? & ? & ?); [lia..|].
  cbn [mbind result_bind]. apply defined_bind; [apply city_tail_defined; lia|intros ?; apply defined_ok].
Qed.
End loops.

Lemma CityHash128_defined s p len : 0 <= p -> 0 <= len -> p + len <= Z.of_nat (length s) -> defined (CityHash128 s p len).
Proof.
  intros. unfold CityHash128. repeat case_decide.
  - do 2 (apply defined_bind; [load|intros ?]). apply CityHash128WithSeed_defined; lia.
  - do 2 (apply defined_bind; [load|intros ?]). by apply CityHash128WithSeed_defined.
  - apply CityHash128WithSeed_defined; lia.
Qed.

(** ** CRC *)
Section crc_bounds.
Context (crc32_u64 : Z -> Z -> Z) (s : bytes).
#[local] Abbreviation slen := (Z.of_nat (length s)).

Lemma CHUNK_defined p k z t : 0 <= p -> p + 40 <= slen -> defined (CHUNK crc32_u64 s p k z t).
Proof. intros. unfold CHUNK. city. Qed.

Lemma crc_iters_defined n p t : 0 <= p -> p + 240 * Z.of_nat n <= slen ->
  exists t', crc_iters crc32_u64 n s p t = Ok (p + 240 * Z.of_nat n, t').
Proof.
  revert p t. induction n as [|n IH]; intros p t Hp Hs; cbn [crc_iters].
  - exists t. do 2 f_equal. lia.
  - destruct (CHUNK_defined p 1 1 t) as [t1 ->]; [lia..|]. cbn [mbind result_bind].
    destruct (CHUNK_defined (p + 40) k0 0 t1) as [t2 ->]; [lia..|]. cbn [mbind result_bind].
    destruct (CHUNK_defined (p + 80) 1 1 t2) as [t3 ->]; [lia..|]. cbn [mbind result_bind].
    destruct (CHUNK_defined (p + 120) k0 0 t3) as [t4 ->]; [lia..|]. cbn [mbind result_bind].
    destruct (CHUNK_defined (p + 160) 1 1 t4) as [t5 ->]; [lia..|]. cbn [mbind result_bind].
    destruct (CHUNK_defined (p + 200) k0 0 t5) as [t6 ->]; [lia..|]. cbn [mbind result_bind].
    destruct (IH (p + 240) t6) as [t' ->]; [lia..|]. exists t'. do 2 f_equal. lia.
Qed.

Lemma crc_rest_defined fuel p len t : 0 <= p -> 0 <= len -> p + len <= slen -> len < 40 * Z.of_nat fuel ->
  exists p' len' t', crc_rest crc32_u64 fuel s p len t = Ok (p', len', t') /\ p <= p' /\ 0 <= len' < 40 /\ p' + len' <= slen.
Proof.
  revert p len t. induction fuel as [|fuel IH]; intros p len t Hp Hl Hs Hf; [lia|]. cbn [crc_rest]. case_decide.
  - destruct (CHUNK_defined p k0 0 t) as [t1 ->]; [lia..|]. cbn [mbind result_bind].
    destruct (IH (p + 40) (len - 40) t1) as (p' & len' & t' & -> & ? & ? & ?); [lia..|]. exists p', len', t'. split; [done|lia].
  - exists p, len, t. split; [done|lia].
Qed.

Lemma CityHashCrc256Long_defined p len seed : 0 <= p -> 240 <= len -> p + len <= slen ->
  defined (CityHashCrc256Long crc32_u64 s p len seed).
Proof.
  intros. unfold CityHashCrc256Long. do 4 (apply defined_bind; [load|intros ?]).
  pose proof (Z.div_mod len 240 ltac:(lia)) as Hd. pose proof (Z.mod_pos_bound len 240 ltac:(lia)).
  assert (1 <= len / 240) by (apply Z.div_le_lower_bound; lia).
  edestruct (crc_iters_defined (Z.to_nat (len / 240)) p) as [t1 ->]; [lia..|]. cbn [mbind result_bind fst snd].
  edestruct (crc_rest_defined 7 (p + 240 * Z.of_nat (Z.to_nat (len / 240))) (len - len / 240 * 240) t1) as (p' & len' & t' & -> & ? & ? & ?); [lia..|].
  cbn [mbind result_bind]. apply defined_bind; [|intros ?; apply defined_ok].
  case_decide; [apply CHUNK_defined; lia|apply defined_ok].
Qed.
End crc_bounds.

Lemma Hash128to64_range lo hi : 0 <= Hash128to64 lo hi < 2 ^ 64.
Proof. apply Z.mod_pos_bound. lia. Qed.

(** ** The range of the results *)
Definition word64 (z : Z) : Prop := 0 <= z < 2 ^ 64.
Definition words (r : Z * Z) : Prop := word64 r.1 /\ word64 r.2.
Definition post {A} (r : result A) (Q : A -> Prop) : Prop := forall a, r = Ok a -> Q a.

Lemma post_bind {A B} (r : result A) (f : A -> result B) Q : (forall a, post (f a) Q) -> post (r ≫= f) Q.
Proof. intros Hf b. destruct r as [a|e]; cbn; [apply Hf|done]. Qed.

Lemma post_ok {A} (a : A) (Q : A -> Prop) : Q a -> post (Ok a) Q.
Proof. by intros HQ b [= <-]. Qed.

Lemma word64_add a b : word64 (add64 a b).
Proof. apply Z.mod_pos_bound. lia. Qed.

Lemma word64_hash a b : word64 (HashLen16 a b).
Proof. apply Hash128to64_range. Qed.

Lemma word64_xor a b : word64 a -> word64 b -> word64 (Z.lxor a b).
Proof.
  unfold word64. intros Ha Hb. split; [apply Z.lxor_nonneg; lia|].
  destruct (decide (Z.lxor a b = 0)) as [->|Hne]; [lia|].
  assert (0 <= Z.lxor a b) by (apply Z.lxor_nonneg; lia). apply Z.log2_lt_pow2; [lia|].
  eapply Z.le_lt_trans; [apply Z.log2_lxor; lia|].
  assert (forall z, 0 <= z < 2 ^ 64 -> Z.log2 z < 64) as Hl.
  { intros z Hz. destruct (decide (z = 0)) as [->|]; [done|]. apply Z.log2_lt_pow2; lia. }
  apply Z.max_lub_lt; by apply Hl.
Qed.

#[export] Hint Resolve word64_add word64_hash word64_xor : city.

Lemma CityHash128WithSeed_words s p len lo hi : post (CityHash128WithSeed s p len lo hi) words.
Proof.
  unfold CityHash128WithSeed, CityMurmur. case_decide.
  - apply post_bind. intros [[[a b] c] d]. apply post_ok. split; cbn; auto with city.
  - do 3 (apply post_bind; intros ?). apply post_bind. intros [[p' len'] c]. apply post_bind. intros c'.
    apply post_ok. split; cbn; auto with city.
Qed.

Lemma CityHash128_words s p len : post (CityHash128 s p len) words.
Proof.
  unfold CityHash128. case_decide; [do 2 (apply post_bind; intros ?)|case_decide; [do 2 (apply post_bind; intros ?)|]];
    apply CityHash128WithSeed_words.
Qed.

Lemma post_bind_with {A B} (r : result A) (f : A -> result B) P Q : post r P -> (forall a, P a -> post (f a) Q) -> post (r ≫= f) Q.
Proof. intros HP Hf b. destruct r as [a|e]; cbn; [by apply Hf, HP|done]. Qed.

Definition crc_words (r : Z * Z * Z * Z) : Prop := word64 r.1.2 /\ word64 r.2.

Lemma CityHashCrc256Long_words crc s p len seed : post (CityHashCrc256Long crc s p len seed) crc_words.
Proof.
  unfold CityHashCrc256Long. do 4 (apply post_bind; intros ?). do 2 (apply post_bind; intros ?).
  destruct a4 as [[p' len'] t]. apply post_bind. intros t'. apply post_ok. split; cbn; auto with city.
Qed.

Lemma CityHashCrc256_words crc s p len : post (CityHashCrc256 crc s p len) crc_words.
Proof.
  unfold CityHashCrc256. case_decide; [apply CityHashCrc256Long_words|].
  unfold CityHashCrc256Short. do 2 (apply post_bind; intros ?). apply CityHashCrc256Long_words.
Qed.

Lemma CityHashCrc128_words crc s p len : post (CityHashCrc128 crc s p len) words.
Proof.
  unfold CityHashCrc128. case_decide; [apply CityHash128_words|].
  eapply post_bind_with; [apply CityHashCrc256_words|]. intros [[[r0 r1] r2] r3] [H2 H3]. by apply post_ok.
Qed.

Lemma CityHashCrc128_defined crc s : defined (CityHashCrc128 crc s 0 (Z.of_nat (length s))).
Proof.
  unfold CityHashCrc128. case_decide; [apply CityHash128_defined; lia|]. unfold CityHashCrc256. rewrite decide_True by lia.
  apply defined_bind; [apply CityHashCrc256Long_defined; lia|]. intros [[[r0 r1] r2] r3]. apply defined_ok.
Qed.

Lemma cityhash_128_words crc s len v : cityhash_128 crc s len = Ok v -> 0 < v.1 < 2 ^ 64 /\ 0 < v.2 < 2 ^ 64.
Proof.
  unfold cityhash_128. destruct (CityHashCrc128 crc s 0 len) as [[x y]|] eqn:Hr; [|done]. cbn [mbind result_bind fst snd]. intros [= <-].
  destruct (CityHashCrc128_words _ _ _ _ _ Hr) as [Hx Hy]. unfold word64 in Hx, Hy. cbn in Hx, Hy. cbn [fst snd]. repeat case_decide; lia.
Qed.

Lemma cityhash_128_defined crc s : defined (cityhash_128 crc s (Z.of_nat (length s))).
Proof. destruct (CityHashCrc128_defined crc s) as [[x y] Hr]. unfold cityhash_128. rewrite Hr. by eexists. Qed.

(** C19: The 128-bit hash of a key of any length reads only the key, ends, and gives two
    64-bit words neither of which is 0: what the atomic hash relies on to tell a held node
    from a free one. *)
Theorem cityhash_128_total crc s :
  exists x y, cityhash_128 crc s (Z.of_nat (length s)) = Ok (x, y) /\ 0 < x < 2 ^ 64 /\ 0 < y < 2 ^ 64.
Proof.
  destruct (cityhash_128_defined crc s) as [[x y] Hr]. exists x, y. split; [done|]. by apply (cityhash_128_words _ _ _ _ Hr).
Qed.
