(* ===== verification/Conc.v ===== *)
(** * Programs over shared memory

    Code that runs in several threads is a tree of accesses to shared memory, each one
    word at a time: it is written once, and run alone ([run]) or interleaved with other
    threads ([threads_step]). *)
From S2P Require Import Prelude CLib.

#[local] Open Scope Z_scope.

Section conc.
Context {addr : Type} `{Countable addr} {hook : Type}.

(** The atomic accesses; [Lo] and [Hi] are the halves of a 64-bit word.  [Map] is the
    compare-and-swap that publishes a block: when it succeeds the words of the block are
    mapped. *)
Inductive access :=
  | Load (a : addr)
  | Store (a : addr) (v : Z)
  | LoadLo (a : addr)
  | StoreLo (a : addr) (v : Z)
  | StoreHi (a : addr) (v : Z)
  | Cas (a : addr) (old new : Z)
  | Add (a : addr) (d : Z)
  | Publish (a : addr) (block : list addr)
  | Now
  | Call (f : hook) (data : Z).

Inductive prog (A : Type) :=
  | Ret (a : A)
  | Vis (e : access) (k : Z -> prog A)
  | Stop (f : fault).
#[global] Arguments Ret {A} a.
#[global] Arguments Vis {A} e k.
#[global] Arguments Stop {A} f.

#[global] Instance prog_ret : MRet prog := fun A a => Ret a.
#[global] Instance prog_bind : MBind prog :=
  fun A B f => fix bind (p : prog A) : prog B :=
    match p with Ret a => f a | Vis e k => Vis e (fun r => bind (k r)) | Stop e => Stop e end.

Definition ask (e : access) : prog Z := Vis e Ret.
Definition load (a : addr) : prog Z := ask (Load a).
Definition store (a : addr) (v : Z) : prog unit := Vis (Store a v) (fun _ => Ret tt).
Definition load_lo (a : addr) : prog Z := ask (LoadLo a).
Definition store_lo (a : addr) (v : Z) : prog unit := Vis (StoreLo a v) (fun _ => Ret tt).
Definition store_hi (a : addr) (v : Z) : prog unit := Vis (StoreHi a v) (fun _ => Ret tt).
Definition cas (a : addr) (old new : Z) : prog bool := Vis (Cas a old new) (fun r => Ret (bool_decide (r <> 0))).
Definition publish (a : addr) (block : list addr) : prog bool := Vis (Publish a block) (fun r => Ret (bool_decide (r <> 0))).
Definition add (a : addr) (d : Z) : prog unit := Vis (Add a d) (fun _ => Ret tt).
Definition now : prog Z := ask Now.
Definition call (f : hook) (data : Z) : prog Z := ask (Call f data).

(** [while (c) body]: [c] and [body] are one program that says whether to go on. *)
Fixpoint while (fuel : nat) (body : prog bool) : prog unit :=
  match fuel with
  | O => Stop NoFuel
  | S fuel => b ← body; if (b : bool) then while fuel body else Ret tt
  end.

(** ** The machine

    The clock gives the time of each reading; [w_log] is the calls of hooks with the data
    they were given, the last first; what a hook answers may depend on the calls before. *)
Record world := World { w_mem : gmap addr Z; w_clk : nat; w_log : list (hook * Z) }.

Context (clock : nat -> Z) (answer : list (hook * Z) -> hook -> Z -> Z).

Definition lo32 (v : Z) : Z := v mod 2 ^ 32.
Definition hi32 (v : Z) : Z := v / 2 ^ 32.
Definition pack (lo hi : Z) : Z := lo + hi * 2 ^ 32.

Definition with_mem (w : world) (m : gmap addr Z) : world := World m (w_clk w) (w_log w).
Definition word (w : world) (a : addr) : result Z := from_option_fault OutOfBounds (w_mem w !! a).
Definition put (w : world) (a : addr) (v : Z) : world := with_mem w (<[a := v]> (w_mem w)).

Definition handle (e : access) (w : world) : result (Z * world) :=
  match e with
  | Load a => v ← word w a; Ok (v, w)
  | Store a v => _ ← word w a; Ok (0, put w a v)
  | LoadLo a => v ← word w a; Ok (lo32 v, w)
  | StoreLo a v => x ← word w a; Ok (0, put w a (pack (lo32 v) (hi32 x)))
  | StoreHi a v => x ← word w a; Ok (0, put w a (pack (lo32 x) (lo32 v)))
  | Cas a old new => v ← word w a; Ok (if decide (v = old) then (1, put w a new) else (0, w))
  | Add a d => v ← word w a; Ok (v, put w a (u64 (v + d)))
  | Publish a block =>
      v ← word w a;
      Ok (if decide (v = 0)
          then (1, with_mem w (list_to_map ((fun b => (b, 0)) <$> block) ∪ <[a := 1]> (w_mem w))) else (0, w))
  | Now => Ok (clock (w_clk w), World (w_mem w) (S (w_clk w)) (w_log w))
  | Call f d => Ok (answer (w_log w) f d, World (w_mem w) (w_clk w) ((f, d) :: w_log w))
  end.

(** One thread alone. *)
Fixpoint run {A} (p : prog A) : st world A :=
  match p with
  | Ret a => mret a
  | Vis e k => fun w => '(r, w) ← handle e w; run (k r) w
  | Stop f => fun _ => Fault f
  end.

Lemma run_bind {A B} (p : prog A) (f : A -> prog B) w : run (p ≫= f) w = (r ← run p w; run (f r.1) r.2).
Proof.
  revert w. induction p as [a|e k IH|e]; intros w; [done| |done]. cbn.
  destruct (handle e w) as [[r w']|]; [|done]. cbn. apply IH.
Qed.

Lemma run_seq {A B} (p : prog A) (f : A -> prog B) w a w' : run p w = Ok (a, w') -> run (p ≫= f) w = run (f a) w'.
Proof. intros Hp. by rewrite run_bind, Hp. Qed.

(** Threads: a scheduler says whose turn it is. *)
Definition threads_step {A} (i : nat) (s : list (prog A) * world) : result (list (prog A) * world) :=
  match s.1 !! i with
  | Some (Vis e k) => '(r, w) ← handle e s.2; Ok (<[i := k r]> s.1, w)
  | Some (Stop f) => Fault f
  | _ => Ok s
  end.

Fixpoint schedule {A} (turns : list nat) (s : list (prog A) * world) : result (list (prog A) * world) :=
  match turns with
  | [] => Ok s
  | i :: turns => s ← threads_step i s; schedule turns s
  end.
End conc.
Arguments access : clear implicits.
Arguments prog : clear implicits.
Arguments world addr {_ _} hook.
