(* ===== verification/AtomicHash.v ===== *)
(** * The atomic hash: operations

    src/lib/atomic_hash/src/atomic_hash.c: a hash table for several threads without locks.
    Nodes come from a pool of blocks and a free list; a node in the table sits in one of the
    32 seats its key allows in the two bucket arrays, or in any of the 64 of the collision
    array.  A thread works on a node it holds: it has set the first word of the node's key to
    0.  The functions are programs over shared words, as the threads see them. *)
From S2P Require Import Prelude CLib Conc.

#[local] Open Scope Z_scope.

(** ** Shared words

    The words of a node are addressed by its number.  The first word of a node's key is also
    the link of a node in the free list ([cas_t] of the header): [mi] is its low half and
    [rfn] its high half, as in [freelist]. *)
Inductive counter := NADD | NDUP | NGET | NDEL.
Inductive stat := EXPIRES | ESCAPES | ADD_NOMEM | ADD_NOSIT | DEL_NOHIT | GET_NOHIT.
Inductive addr :=
  | ASeat (t j : Z)
  | AX (mi : Z) | AY (mi : Z) | AExp (mi : Z) | AData (mi : Z)
  | AFree
  | ANcur (t : Z) | ACtr (t : Z) (c : counter) | AStat (s : stat)
  | ABlk (i : Z) | ACurr.

Inductive hook := ON_TTL | ON_ADD | ON_DUP | ON_GET | ON_DEL | CBF | CALLOC.

#[export] Instance counter_eq_dec : EqDecision counter.
Proof. solve_decision. Defined.
#[export] Instance stat_eq_dec : EqDecision stat.
Proof. solve_decision. Defined.
#[export] Instance addr_eq_dec : EqDecision addr.
Proof. solve_decision. Defined.
#[export] Instance hook_eq_dec : EqDecision hook.
Proof. solve_decision. Defined.

Definition counter_code (c : counter) : Z := match c with NADD => 0 | NDUP => 1 | NGET => 2 | NDEL => 3 end.
Definition counter_of (z : Z) : counter := match z with 0 => NADD | 1 => NDUP | 2 => NGET | _ => NDEL end.
Definition stat_code (s : stat) : Z :=
  match s with EXPIRES => 0 | ESCAPES => 1 | ADD_NOMEM => 2 | ADD_NOSIT => 3 | DEL_NOHIT => 4 | GET_NOHIT => 5 end.
Definition stat_of (z : Z) : stat :=
  match z with 0 => EXPIRES | 1 => ESCAPES | 2 => ADD_NOMEM | 3 => ADD_NOSIT | 4 => DEL_NOHIT | _ => GET_NOHIT end.
Definition addr_code (a : addr) : Z * Z * Z :=
  match a with
  | ASeat t j => (0, t, j) | AX mi => (1, mi, 0) | AY mi => (2, mi, 0) | AExp mi => (3, mi, 0) | AData mi => (4, mi, 0)
  | AFree => (5, 0, 0) | ANcur t => (6, t, 0) | ACtr t c => (7, t, counter_code c) | AStat s => (8, stat_code s, 0)
  | ABlk i => (9, i, 0) | ACurr => (10, 0, 0)
  end.
Definition addr_of (c : Z * Z * Z) : addr :=
  let '(k, x, y) := c in
  match k with
  | 0 => ASeat x y | 1 => AX x | 2 => AY x | 3 => AExp x | 4 => AData x | 5 => AFree | 6 => ANcur x
  | 7 => ACtr x (counter_of y) | 8 => AStat (stat_of x) | 9 => ABlk x | _ => ACurr
  end.
#[export] Program Instance addr_countable : Countable addr := inj_countable' addr_code addr_of _.
Next Obligation. intros []; try done; [by destruct c|by destruct s]. Qed.

Abbreviation hprog := (prog addr hook).
Abbreviation hworld := (world addr hook).

Definition NNULL : Z := 0xFFFFFFFF.
Definition NMHT : Z := 2.
Definition NKEY : Z := 4.
Definition NCLUSTER : Z := 4.
Definition NSEAT : Z := NMHT * NKEY * NCLUSTER.
Definition MINTAB : Z := 64.
Definition MAXTAB : Z := NNULL.
Definition MAXSPIN : Z := 2 ^ 20.

Definition PLEASE_REMOVE_HASH_NODE : Z := -1.
Definition PLEASE_SET_TTL_TO_DEFAULT : Z := -2.
Definition PLEASE_DO_NOT_CHANGE_TTL : Z := -3.

(** What does not change after [atomic_hash_create]. *)
Record mem_pool := Pool {
  mp_mask : Z; mp_shift : Z; mp_max_blocks : Z; mp_blk_node_num : Z; mp_node_size : Z; mp_blk_size : Z
}.
Record htable := Hash { h_nb0 : Z; h_nb1 : Z; h_mp : mem_pool; h_reset_expire : Z; h_on_ttl : bool }.

Section hash.
Context (h : htable) (fuel : nat).

(** ** The pool and the free list *)
Fixpoint prog_iter {A} (f : A -> hprog unit) (l : list A) : hprog unit :=
  match l with [] => mret tt | a :: l => _ ← f a; prog_iter f l end.

Definition mask1 : Z := mp_mask (h_mp h) + 1.

(** The nodes of a block, and their words. *)
Definition block_ids (i : Z) : list Z := (fun k => i * mask1 + Z.of_nat k) <$> seq 0 (Z.to_nat mask1).
Definition block_words (i : Z) : list addr := mi ← block_ids i; [AX mi; AY mi; AExp mi; AData mi].

Fixpoint find_block (n : nat) (i : Z) : hprog (option Z) :=
  match n with
  | O => mret None
  | S n =>
      ok ← publish (ABlk i) (block_words i);
      if (ok : bool) then (_ ← add ACurr 1; mret (Some i)) else find_block n (i + 1)
  end.

(** [do { n = freelist; node->mi = n.mi; } while (!cas(freelist, n, {head, n.rfn + 1}));] *)
Definition push_free (node head : Z) : hprog unit :=
  while fuel (n ← load AFree;
              _ ← store_lo (AX node) (lo32 n);
              ok ← cas AFree n (pack head (u32 (hi32 n + 1)));
              mret (negb ok)).

Definition new_mem_block : hprog bool :=
  p ← call CALLOC (mp_blk_node_num (h_mp h) * mp_node_size (h_mp h));
  if decide (p = 0) then mret false
  else
    c ← load ACurr;
    i ← find_block (Z.to_nat (mp_max_blocks (h_mp h) - c)) c;
    match i with
    | None => mret false
    | Some i =>
        let m := mp_mask (h_mp h) in
        let head := u32 (i * (m + 1)) in
        _ ← prog_iter (fun k => store_lo (AX (head + Z.of_nat k)) (head + Z.of_nat k + 1)) (seq 0 (Z.to_nat m));
        _ ← store_lo (AX (head + m)) NNULL;
        _ ← store_hi (AX (head + m)) 0;
        _ ← push_free (head + m) head;
        mret true
    end.

Fixpoint new_node_loop (n : nat) : hprog Z :=
  match n with
  | O => Stop NoFuel
  | S n =>
      f ← load_lo AFree;
      more ← (if decide (f <> NNULL) then mret true else new_mem_block);
      if (more : bool) then
        n0 ← load AFree;
        if decide (lo32 n0 = NNULL) then new_node_loop n
        else
          next ← load_lo (AX (lo32 n0));
          ok ← cas AFree n0 (pack next (u32 (hi32 n0 + 1)));
          if (ok : bool) then mret (lo32 n0) else new_node_loop n
      else (_ ← add (AStat ADD_NOMEM) 1; mret NNULL)
  end.
Definition new_node : hprog Z := new_node_loop fuel.

Definition free_node (mi : Z) : hprog unit := _ ← store_hi (AX mi) 0; push_free mi mi.

(** ** Holding a node *)
Definition memset_node (mi : Z) : hprog unit :=
  _ ← store (AX mi) 0; _ ← store (AY mi) 0; _ ← store (AExp mi) 0; store (AData mi) 0.

Definition set_hash_node (mi : Z) (v : Z * Z) (data expire : Z) : hprog unit :=
  _ ← store (AX mi) v.1; _ ← store (AY mi) v.2; _ ← store (AExp mi) expire; store (AData mi) data.

Definition unhold_bucket (mi vx : Z) : hprog unit :=
  while fuel (y ← load (AY mi);
              if decide (y = 0) then mret false else (ok ← cas (AX mi) 0 vx; mret (negb ok))).

(** [while (x == 0)]; the turns left, or [None] to give up. *)
Fixpoint spin (n : nat) (mi l : Z) : hprog (option Z) :=
  match n with
  | O => Stop NoFuel
  | S n =>
      x ← load (AX mi);
      if decide (x <> 0) then mret (Some l)
      else
        y ← load (AY mi);
        if decide (y = 0) then mret None
        else if decide (l - 1 = 0) then (_ ← add (AStat ESCAPES) 1; mret None)
        else spin n mi (l - 1)
  end.

Fixpoint hold_loop (n : nat) (mi vx l : Z) : hprog bool :=
  match n with
  | O => Stop NoFuel
  | S n =>
      ok ← cas (AX mi) vx 0;
      if (ok : bool) then mret true
      else
        x ← load (AX mi);
        if decide (x <> vx) then mret false
        else
          r ← spin fuel mi l;
          match r with None => mret false | Some l => hold_loop n mi vx l end
  end.

(** [hold_bucket_otherwise_return_0]; [false] is the return. *)
Definition hold_bucket (mi : Z) (v : Z * Z) : hprog bool :=
  ok ← hold_loop fuel mi v.1 MAXSPIN;
  if (ok : bool) then
    y ← load (AY mi);
    bad ← (if decide (y <> v.2) then mret true else (y ← load (AY mi); mret (bool_decide (y = 0))));
    if (bad : bool) then (_ ← unhold_bucket mi v.1; mret false) else mret true
  else mret false.

(** ** Actions on a node *)
Definition the_hook (cbf : bool) (default : hook) : hook := if cbf then CBF else default.

Definition change_ttl (mi result : Z) : hprog unit :=
  let result := if decide (result = PLEASE_SET_TTL_TO_DEFAULT) then i32 (h_reset_expire h) else result in
  e ← load (AExp mi);
  if decide (0 < e /\ 0 < result) then (t ← now; store (AExp mi) (u64 (result + t))) else mret tt.

(** [if (cas(seat, mi, NNULL)) atomic_sub1(ht[idx].ncur); memset(p, 0, ...);] *)
Definition unseat (t j mi : Z) : hprog unit :=
  ok ← cas (ASeat t j) mi NNULL;
  _ ← (if (ok : bool) then add (ANcur t) (-1) else mret tt);
  memset_node mi.

(** [try_get] and [try_dup] differ in the hook and the counter. *)
Definition try_hit (default : hook) (c : counter) (v : Z * Z) (t j mi : Z) (cbf : bool) : hprog bool :=
  held ← hold_bucket mi v;
  if (held : bool) then
    s ← load (ASeat t j);
    if decide (s <> mi) then (_ ← unhold_bucket mi v.1; mret false)
    else
      data ← load (AData mi);
      result ← call (the_hook cbf default) data;
      if decide (result = PLEASE_REMOVE_HASH_NODE) then
        (_ ← unseat t j mi; _ ← add (ACtr t c) 1; _ ← free_node mi; mret true)
      else
        (_ ← change_ttl mi result; _ ← unhold_bucket mi v.1; _ ← add (ACtr t c) 1; mret true)
  else mret false.
Definition try_get : Z * Z -> Z -> Z -> Z -> bool -> hprog bool := try_hit ON_GET NGET.
Definition try_dup : Z * Z -> Z -> Z -> Z -> bool -> hprog bool := try_hit ON_DUP NDUP.

Definition try_add (mi t j : Z) : hprog bool :=
  x ← load (AX mi);
  _ ← store (AX mi) 0;
  ok ← cas (ASeat t j) NNULL mi;
  if (ok : bool) then
    _ ← add (ANcur t) 1;
    data ← load (AData mi);
    result ← call ON_ADD data;
    if decide (result = PLEASE_REMOVE_HASH_NODE) then (_ ← unseat t j mi; _ ← free_node mi; mret true)
    else (_ ← change_ttl mi result; _ ← store (AX mi) x; _ ← add (ACtr t NADD) 1; mret true)
  else (_ ← store (AX mi) x; mret false).

Definition try_del (v : Z * Z) (t j mi : Z) (cbf : bool) : hprog bool :=
  held ← hold_bucket mi v;
  if (held : bool) then
    s ← load (ASeat t j);
    ok ← (if decide (s <> mi) then mret false else cas (ASeat t j) mi NNULL);
    if (ok : bool) then
      _ ← add (ANcur t) (-1);
      data ← load (AData mi);
      _ ← memset_node mi;
      _ ← add (ACtr t NDEL) 1;
      _ ← free_node mi;
      _ ← call (the_hook cbf ON_DEL) data;
      mret true
    else (_ ← unhold_bucket mi v.1; mret false)
  else mret false.

(** Whether the node is to be looked at, and the node the caller has taken over. *)
Definition valid_ttl (tnow t j mi : Z) (keep : bool) (node_rtn : Z) : hprog (bool * Z) :=
  expire ← load (AExp mi);
  if decide (expire = 0 \/ tnow < expire) then mret (true, node_rtn)
  else
    vx ← load (AX mi);
    vy ← load (AY mi);
    if decide (vx = 0 \/ vy = 0) then mret (true, node_rtn)
    else
      held ← hold_bucket mi (vx, vy);
      if (held : bool) then
        e ← load (AExp mi);
        again ← (if decide (e = 0) then mret true else (e ← load (AExp mi); mret (bool_decide (tnow < e))));
        if (again : bool) then (_ ← unhold_bucket mi vx; mret (true, node_rtn))
        else
          s ← load (ASeat t j);
          ok ← (if decide (s <> mi) then mret false else cas (ASeat t j) mi NNULL);
          if (ok : bool) then
            _ ← add (ANcur t) (-1);
            data ← load (AData mi);
            _ ← memset_node mi;
            _ ← add (AStat EXPIRES) 1;
            r ← (if decide (keep = true /\ node_rtn = NNULL) then mret mi else (_ ← free_node mi; mret node_rtn));
            _ ← (if h_on_ttl h then (_ ← call ON_TTL data; mret tt) else mret tt);
            mret (false, r)
          else (_ ← unhold_bucket mi vx; mret (false, node_rtn))
      else mret (false, node_rtn).

(** ** The seats of a key

    [d] is the key as four 32-bit words. *)
Definition key_words (v : Z * Z) : list Z := [lo32 v.1; hi32 v.1; lo32 v.2; hi32 v.2].

Definition pos_of (nb : Z) (d : list Z) : list Z :=
  let w i := nth i d 0 in
  ((fun i => w i mod nb) <$> [0; 1; 2; 3]%nat) ++
  (j ← [1; 2; 3];
   [u32 (w 3%nat + j * w 0%nat) mod nb; u32 (w 0%nat + j * w 1%nat) mod nb;
    u32 (w 1%nat + j * w 2%nat) mod nb; u32 (w 2%nat + j * w 3%nat) mod nb]).

(** The macro [collect_hash_pos]: the 16 seats in each of the two arrays. *)
Definition collect_hash_pos (v : Z * Z) : list (Z * Z) :=
  ((fun j => (0, j)) <$> pos_of (h_nb0 h) (key_words v)) ++ ((fun j => (1, j)) <$> pos_of (h_nb1 h) (key_words v)).

Definition coll_seats : list (Z * Z) := (fun j => (NMHT, Z.of_nat j)) <$> seq 0 (Z.to_nat MINTAB).

(** [valid_ttl && likely_equal && action] on the node [mi] in a seat. *)
Definition visit (tnow : Z) (v : Z * Z) (t j mi : Z) (keep : bool) (ni : Z) (action : hprog bool) : hprog (bool * Z) :=
  r ← valid_ttl tnow t j mi keep ni;
  if (r.1 : bool) then
    _ ← load (AX mi);
    y ← load (AY mi);
    if decide (y = v.2) then (hit ← action; mret (hit, r.2)) else mret (false, r.2)
  else mret (false, r.2).

(** ** atomic_hash_add *)
Fixpoint add_find (tnow : Z) (v : Z * Z) (cbf : bool) (seats : list (Z * Z)) (ni : Z) : hprog (bool * Z) :=
  match seats with
  | [] => mret (false, ni)
  | (t, j) :: seats =>
      mi ← load (ASeat t j);
      if decide (mi = NNULL) then add_find tnow v cbf seats ni
      else
        r ← visit tnow v t j mi true ni (try_dup v t j mi cbf);
        if (r.1 : bool) then mret r else add_find tnow v cbf seats r.2
  end.

(** The collision array: [i] counts down the nodes there were at the start. *)
Fixpoint add_find_coll (tnow : Z) (v : Z * Z) (cbf : bool) (seats : list (Z * Z)) (i ni : Z) : hprog (bool * Z) :=
  match seats with
  | [] => mret (false, ni)
  | (t, j) :: seats =>
      if decide (0 < i) then
        mi ← load (ASeat t j);
        if decide (mi = NNULL) then add_find_coll tnow v cbf seats i ni
        else
          r ← visit tnow v t j mi true ni (try_dup v t j mi cbf);
          if (r.1 : bool) then mret r else add_find_coll tnow v cbf seats (i - 1) r.2
      else mret (false, ni)
  end.

Fixpoint add_seat (ni : Z) (seats : list (Z * Z)) : hprog bool :=
  match seats with
  | [] => mret false
  | (t, j) :: seats =>
      mi ← load (ASeat t j);
      if decide (mi = NNULL) then
        ok ← try_add ni t j;
        if (ok : bool) then mret true else add_seat ni seats
      else add_seat ni seats
  end.

(** [v] is the hash of the key, or the key itself when its length is 0. *)
Definition atomic_hash_add (v : Z * Z) (data init_ttl : Z) (cbf : bool) : hprog Z :=
  tnow ← now;
  r ← add_find tnow v cbf (collect_hash_pos v) NNULL;
  r ← (if (r.1 : bool) then mret r
       else (i ← load (ANcur NMHT); add_find_coll tnow v cbf coll_seats (u32 i) r.2));
  if (r.1 : bool) then (_ ← (if decide (r.2 <> NNULL) then free_node r.2 else mret tt); mret 1)
  else
    ni ← (if decide (r.2 = NNULL) then new_node else mret r.2);
    if decide (ni = NNULL) then mret (-2)
    else
      _ ← set_hash_node ni v data (if decide (0 < init_ttl) then u64 (init_ttl + tnow) else 0);
      ok ← add_seat ni (collect_hash_pos v);
      if (ok : bool) then mret 0
      else
        n ← load (ANcur NMHT);
        ok ← (if decide (n < MINTAB) then add_seat ni coll_seats else mret false);
        if (ok : bool) then mret 0
        else (_ ← memset_node ni; _ ← free_node ni; _ ← add (AStat ADD_NOSIT) 1; mret (-1)).

(** ** atomic_hash_get *)
Fixpoint get_find (tnow : Z) (v : Z * Z) (cbf : bool) (seats : list (Z * Z)) : hprog bool :=
  match seats with
  | [] => mret false
  | (t, j) :: seats =>
      mi ← load (ASeat t j);
      if decide (mi = NNULL) then get_find tnow v cbf seats
      else
        r ← visit tnow v t j mi false NNULL (try_get v t j mi cbf);
        if (r.1 : bool) then mret true else get_find tnow v cbf seats
  end.

(** The collision array: [i] counts up to [ncur], which is read in each turn. *)
Fixpoint get_find_coll (tnow : Z) (v : Z * Z) (cbf : bool) (seats : list (Z * Z)) (i : Z) : hprog bool :=
  match seats with
  | [] => mret false
  | (t, j) :: seats =>
      n ← load (ANcur NMHT);
      if decide (i < n) then
        mi ← load (ASeat t j);
        if decide (mi = NNULL) then get_find_coll tnow v cbf seats i
        else
          r ← visit tnow v t j mi false NNULL (try_get v t j mi cbf);
          if (r.1 : bool) then mret true else get_find_coll tnow v cbf seats (i + 1)
      else mret false
  end.

Definition atomic_hash_get (v : Z * Z) (cbf : bool) : hprog Z :=
  tnow ← now;
  hit ← get_find tnow v cbf (collect_hash_pos v);
  if (hit : bool) then mret 0
  else
    hit ← get_find_coll tnow v cbf coll_seats 0;
    if (hit : bool) then mret 0 else (_ ← add (AStat GET_NOHIT) 1; mret (-1)).

(** ** atomic_hash_del: all matches *)
Fixpoint del_find (tnow : Z) (v : Z * Z) (cbf : bool) (seats : list (Z * Z)) (i : Z) : hprog Z :=
  match seats with
  | [] => mret i
  | (t, j) :: seats =>
      mi ← load (ASeat t j);
      if decide (mi = NNULL) then del_find tnow v cbf seats i
      else
        r ← visit tnow v t j mi false NNULL (try_del v t j mi cbf);
        del_find tnow v cbf seats (if (r.1 : bool) then i + 1 else i)
  end.

Definition atomic_hash_del (v : Z * Z) (cbf : bool) : hprog Z :=
  tnow ← now;
  i ← del_find tnow v cbf (collect_hash_pos v) 0;
  n ← load (ANcur NMHT);
  i ← (if decide (0 < n) then del_find tnow v cbf coll_seats i else mret i);
  if decide (0 < i) then mret 0 else (_ ← add (AStat DEL_NOHIT) 1; mret (-1)).
End hash.

(** The key of a call: its hash, or the 16 bytes themselves; [None] is the return -3. *)
Definition call_key (hash_func : bytes -> Z -> result (Z * Z)) (kwd : bytes) (len : Z) (words : Z * Z) : result (option (Z * Z)) :=
  if decide (0 < len) then Some <$> hash_func kwd len
  else if decide (len = 0) then Ok (Some words) else Ok None.

(** ** Creating the pool and the table *)
Fixpoint ceil_log2 (fuel : nat) (p n : Z) : result Z :=
  match fuel with
  | O => Fault NoFuel
  | S fuel => if decide (2 ^ p < n) then ceil_log2 fuel (p + 1) n else Ok p
  end.

(** [1 << p] is evaluated for [p] up to the number of bits that [n] needs: for a node count
    above [2 ^ 31] the shift reaches the width of [int], which C leaves undefined. *)
Definition shift_loop (n : Z) : result Z := if decide (2 ^ 31 < n) then Fault OutOfBounds else ceil_log2 33 0 n.

Definition PW2_MAX_BLK_PTR : Z := 9.
Definition PW2_MIN_BLK_SIZ : Z := 12.

Definition create_mem_pool (max_nodes node_size : Z) : result (option mem_pool) :=
  pwr2_max_nodes ← shift_loop max_nodes;
  let pwr2_max_nodes := if decide (pwr2_max_nodes = 0 \/ 32 < pwr2_max_nodes) then 32 else pwr2_max_nodes in
  pwr2_node_size ← shift_loop node_size;
  if decide (2 ^ pwr2_node_size <> node_size \/ pwr2_node_size < 5 \/ 12 < pwr2_node_size) then Ok None
  else
    let pwr2_total_size := pwr2_max_nodes + pwr2_node_size in
    let pwr2_block_size :=
      if decide (pwr2_total_size <= PW2_MAX_BLK_PTR + PW2_MIN_BLK_SIZ) then PW2_MIN_BLK_SIZ
      else pwr2_total_size - PW2_MAX_BLK_PTR in
    let shift := pwr2_block_size - pwr2_node_size in
    Ok (Some (Pool (2 ^ shift - 1) shift (2 ^ PW2_MAX_BLK_PTR) (2 ^ shift) (2 ^ pwr2_node_size) (2 ^ pwr2_block_size))).

(** The number of buckets, from the product of a count and a ratio in floating point. *)
Fixpoint double_past (fuel : nat) (i nb : Z) : Z :=
  match fuel with O => i | S fuel => if decide (i < nb) then double_past fuel (i * 2) nb else i end.
Definition init_htab (nb : Z) : Z :=
  let i := double_past 64 134217728 nb in
  if decide (MAXTAB < i) then MAXTAB else if decide (nb < MINTAB) then MINTAB else nb.

(** Node numbers to places: block and offset, as [i2p]. *)
Definition i2p (mp : mem_pool) (i : Z) : Z * Z := (Z.shiftr i (mp_shift mp), Z.land i (mp_mask mp)).

Definition NODE_SIZE : Z := 32.

(** The words of a new table: empty seats, zero counters, no block, no free node.  [nb0] and
    [nb1] are the sizes the load factors ask for. *)
Definition hash_words (h : htable) : list (addr * Z) :=
  ((fun j => (ASeat 0 (Z.of_nat j), NNULL)) <$> seq 0 (Z.to_nat (h_nb0 h))) ++
  ((fun j => (ASeat 1 (Z.of_nat j), NNULL)) <$> seq 0 (Z.to_nat (h_nb1 h))) ++
  ((fun s => (ASeat s.1 s.2, NNULL)) <$> coll_seats) ++
  (t ← [0; 1; 2]; (ANcur t, 0) :: ((fun c => (ACtr t c, 0)) <$> [NADD; NDUP; NGET; NDEL])) ++
  ((fun s => (AStat s, 0)) <$> [EXPIRES; ESCAPES; ADD_NOMEM; ADD_NOSIT; DEL_NOHIT; GET_NOHIT]) ++
  ((fun i => (ABlk (Z.of_nat i), 0)) <$> seq 0 (Z.to_nat (mp_max_blocks (h_mp h)))) ++
  [(ACurr, 0); (AFree, pack NNULL 0)].

(** [None]: the arguments are refused. *)
Definition atomic_hash_create (max_nodes reset_ttl nb0 nb1 : Z) : result (option (htable * hworld)) :=
  if decide (max_nodes < 2 \/ MAXTAB < max_nodes) then Ok None
  else
    mp ← create_mem_pool max_nodes NODE_SIZE;
    mp ← from_option_fault NullDeref mp;
    let h := Hash (init_htab nb0) (init_htab nb1) mp (u64 reset_ttl) true in
    Ok (Some (h, World (list_to_map (hash_words h)) 0 [])).
