(* ===== verification/FreeList.v ===== *)
(** * The atomic hash: the free list under interleaving

    [new_node], [free_node] and [new_mem_block] of src/lib/atomic_hash/src/atomic_hash.c run by
    any number of threads, one access to shared memory at a time: a node belongs to at most
    one thread, as long as the 32-bit reference number of the list has not wrapped. *)
From S2P Require Import Prelude CLib Conc AtomicHash.

#[local] Open Scope Z_scope.

(** ** Words *)
Lemma lo32_pack a b : 0 <= a < 2 ^ 32 -> lo32 (pack a b) = a.
Proof. intros. unfold lo32, pack. rewrite Z.mod_add by lia. by apply Z.mod_small. Qed.

Lemma hi32_pack a b : 0 <= a < 2 ^ 32 -> hi32 (pack a b) = b.
Proof. intros. unfold hi32, pack. rewrite Z.div_add by lia. rewrite Z.div_small by lia. lia. Qed.

Lemma pack_lo_hi v : pack (lo32 v) (hi32 v) = v.
Proof. unfold pack, lo32, hi32. pose proof (Z.div_mod v (2 ^ 32) ltac:(lia)). lia. Qed.

Lemma lo32_range v : 0 <= lo32 v < 2 ^ 32.
Proof. apply Z.mod_pos_bound. lia. Qed.

Lemma hi32_range v : 0 <= v < 2 ^ 64 -> 0 <= hi32 v < 2 ^ 32.
Proof. intros. unfold hi32. split; [apply Z.div_pos; lia|apply Z.div_lt_upper_bound; lia]. Qed.

Lemma pack_range a b : 0 <= a < 2 ^ 32 -> 0 <= b < 2 ^ 32 -> 0 <= pack a b < 2 ^ 64.
Proof. intros. unfold pack. lia. Qed.

(** ** The list *)
Abbreviation mem := (gmap addr Z) (only parsing).
Definition mapped (m : mem) (mi : Z) : Prop := is_Some (m !! AX mi).

Fixpoint chain (m : mem) (head : Z) (l : list Z) (last : Z) : Prop :=
  match l with
  | [] => head = last
  | x :: l => head = x /\ x <> NNULL /\ exists v, m !! AX x = Some v /\ chain m (lo32 v) l last
  end.

Lemma free_chain_frame m m' head l last : (forall x, x ∈ l -> m' !! AX x = m !! AX x) -> chain m head l last -> chain m' head l last.
Proof.
  revert head. induction l as [|x l IH]; intros head Hm; [done|]. cbn. intros (-> & Hx & v & Hv & Hc).
  split; [done|]. split; [done|]. exists v. rewrite Hm by by left. split; [done|]. apply IH; [|done].
  intros y Hy. apply Hm. by right.
Qed.

Lemma free_chain_app m head l l' mid last : chain m head l mid -> chain m mid l' last -> chain m head (l ++ l') last.
Proof. revert head. induction l as [|x l IH]; intros head; cbn; [by intros ->|]. intros (-> & ? & v & ? & ?) ?. eauto 6. Qed.

Record pool_ok (mp : mem_pool) : Prop := {
  po_mask : 0 <= mp_mask mp;
  po_blocks : 0 <= mp_max_blocks mp;
  po_small : mp_max_blocks mp * (mp_mask mp + 1) < NNULL
}.

Section freelist.
Context (h : htable) (fuel : nat) (clock : nat -> Z) (answer : list (hook * Z) -> hook -> Z -> Z).
Context (Hpool : pool_ok (h_mp h)).
#[local] Abbreviation mp := (h_mp h).
#[local] Abbreviation maxb := (mp_max_blocks (h_mp h)).
#[local] Abbreviation handle := (handle clock answer).

Lemma mask1_pos : 0 < mask1 h.
Proof using Hpool. unfold mask1. pose proof (po_mask _ Hpool). lia. Qed.

Lemma elem_of_block_ids i x : x ∈ block_ids h i <-> i * mask1 h <= x < i * mask1 h + mask1 h.
Proof using Hpool.
  pose proof mask1_pos. unfold block_ids. rewrite list_elem_of_fmap. split.
  - intros (k & -> & Hk%elem_of_seq). lia.
  - intros Hx. exists (Z.to_nat (x - i * mask1 h)). split; [lia|]. apply elem_of_seq. lia.
Qed.

Lemma block_ids_range i x : 0 <= i < maxb -> x ∈ block_ids h i -> 0 <= x < maxb * mask1 h.
Proof using Hpool.
  intros Hi Hx%elem_of_block_ids. pose proof mask1_pos. nia.
Qed.

Lemma block_ids_nodup i : NoDup (block_ids h i).
Proof. apply NoDup_fmap_2; [intros a b Hab; lia|apply NoDup_seq]. Qed.

Lemma block_ids_disj i j x : x ∈ block_ids h i -> x ∈ block_ids h j -> i = j.
Proof using Hpool. intros ?%elem_of_block_ids ?%elem_of_block_ids. pose proof mask1_pos. nia. Qed.

(** ** The state of memory when the free nodes are [l] *)
Record mem_inv (m : mem) (l : list Z) : Prop := {
  mi_free : exists cur, m !! AFree = Some cur /\ 0 <= cur < 2 ^ 64 /\ chain m (lo32 cur) l NNULL;
  mi_blocks i : 0 <= i < maxb -> is_Some (m !! ABlk i);
  mi_fresh i x : m !! ABlk i = Some 0 -> x ∈ block_ids h i -> m !! AX x = None;
  mi_range x : mapped m x -> 0 <= x < maxb * mask1 h;
  mi_mapped x : x ∈ l -> mapped m x;
  mi_curr : exists c, m !! ACurr = Some c /\ 0 <= c;
  mi_stat : is_Some (m !! AStat ADD_NOMEM)
}.

Lemma mi_small m l x : mem_inv m l -> mapped m x -> 0 <= x < NNULL.
Proof using Hpool. intros Hi Hx. pose proof (mi_range _ _ Hi x Hx). pose proof (po_small _ Hpool). unfold mask1 in *. lia. Qed.

Definition cur_of (m : mem) : Z := default 0 (m !! AFree).

(** ** A logic for one thread among others

    [wp p Q m O]: the thread owns the nodes [O] and memory was [m] after its last access.
    Whatever the other threads have done since ([rely]), the next access does not fault,
    keeps the list well formed, writes no link of a node the thread does not own ([guar]),
    and the rest of the program goes on so. *)
Record rely (O : list Z) (m m' : mem) : Prop := {
  rl_own x : x ∈ O -> m' !! AX x = m !! AX x;
  rl_hi : hi32 (cur_of m) <= hi32 (cur_of m');
  rl_cur : hi32 (cur_of m') = hi32 (cur_of m) -> cur_of m' = cur_of m /\ m' !! AX (lo32 (cur_of m)) = m !! AX (lo32 (cur_of m));
  rl_mapped x : mapped m x -> mapped m' x
}.

Record guar (O : list Z) (m m' : mem) : Prop := {
  gu_other x : mapped m x -> x ∉ O -> m' !! AX x = m !! AX x;
  gu_cur : cur_of m' = cur_of m \/ hi32 (cur_of m') = hi32 (cur_of m) + 1;
  gu_mapped x : mapped m x -> mapped m' x
}.

(** The nodes move between the list and the thread; new ones come from new blocks. *)
Definition moves (m : mem) (l O l' O' : list Z) : Prop :=
  exists N, l' ++ O' ≡ₚ l ++ O ++ N /\ NoDup N /\ forall x, x ∈ N -> ~ mapped m x.

Fixpoint wp {A} (p : hprog A) (Q : A -> mem -> list Z -> Prop) (m : mem) (O : list Z) : Prop :=
  match p with
  | Ret a => Q a m O
  | Stop f => f = NoFuel
  | Vis e k => forall w l, rely O m (w_mem w) -> mem_inv (w_mem w) l -> NoDup (l ++ O) -> Forall (mapped (w_mem w)) O ->
      hi32 (cur_of (w_mem w)) + 1 < 2 ^ 32 ->
      exists r w' l' O', handle e w = Ok (r, w') /\ mem_inv (w_mem w') l' /\ Forall (mapped (w_mem w')) O' /\
        guar O (w_mem w) (w_mem w') /\ moves (w_mem w) l O l' O' /\ wp (k r) Q (w_mem w') O'
  end.

Lemma rely_refl O m : rely O m m.
Proof. by split. Qed.

Lemma rely_trans O m1 m2 m3 : rely O m1 m2 -> rely O m2 m3 -> rely O m1 m3.
Proof.
  intros [Ho Hh Hc Hm] [Ho' Hh' Hc' Hm']. split.
  - intros x Hx. by rewrite Ho', Ho.
  - lia.
  - intros He. destruct Hc as [Hc Hl]; [lia|]. destruct Hc' as [Hc' Hl']; [lia|]. rewrite <- Hc, Hl' in *. rewrite Hc in *. split; congruence.
  - auto.
Qed.

Lemma wp_rely {A} (p : hprog A) Q m m' O : (forall a, Q a m O -> Q a m' O) -> rely O m m' -> wp p Q m O -> wp p Q m' O.
Proof.
  intros HQ Hr. destruct p as [a|e k|f]; cbn; [apply HQ| |done].
  intros H w l Hr'. apply H. by eapply rely_trans.
Qed.

Lemma wp_bind {A B} (p : hprog A) (f : A -> hprog B) Q m O : wp p (fun a m O => wp (f a) Q m O) m O -> wp (p ≫= f) Q m O.
Proof.
  revert m O. induction p as [a|e k IH|e]; intros m O; [done| |done]. cbn. intros H w l Hr Hi Hn Hm Hb.
  destruct (H w l Hr Hi Hn Hm Hb) as (r & w' & l' & O' & Hh & Hi' & Hm' & Hg & Hmv & Hw). exists r, w', l', O'. eauto 10.
Qed.

Lemma wp_mono {A} (p : hprog A) Q Q' m O : (forall a m O, Q a m O -> Q' a m O) -> wp p Q m O -> wp p Q' m O.
Proof.
  intros HQ. revert m O. induction p as [a|e k IH|e]; intros m O; cbn; [apply HQ| |done]. intros H w l Hr Hi Hn Hm Hb.
  destruct (H w l Hr Hi Hn Hm Hb) as (r & w' & l' & O' & Hh & Hi' & Hm' & Hg & Hmv & Hw). exists r, w', l', O'. eauto 10.
Qed.

Lemma guar_refl O m : guar O m m.
Proof. split; [done|by left|done]. Qed.

Lemma moves_refl m l O : moves m l O l O.
Proof. exists []. rewrite app_nil_r. split; [done|]. split; [constructor|]. by intros x ?%elem_of_nil. Qed.

(** ** Accesses *)
Lemma cur_lookup m l : mem_inv m l -> m !! AFree = Some (cur_of m) /\ 0 <= cur_of m < 2 ^ 64 /\ chain m (lo32 (cur_of m)) l NNULL.
Proof. intros [(cur & Hc & Hr & Hch) _ _ _ _ _ _]. unfold cur_of. by rewrite Hc. Qed.

(** An access that only reads. *)
Lemma wp_read {A} e k (Q : A -> mem -> list Z -> Prop) m O :
  (forall w l, rely O m (w_mem w) -> mem_inv (w_mem w) l -> Forall (mapped (w_mem w)) O ->
     exists r w', handle e w = Ok (r, w') /\ w_mem w' = w_mem w /\ wp (k r) Q (w_mem w) O) ->
  wp (Vis e k) Q m O.
Proof.
  intros H w l Hr Hi Hn Hm Hb. destruct (H w l Hr Hi Hm) as (r & w' & Hh & Hw & Hk). exists r, w', l, O. rewrite Hw.
  split; [done|]. split; [done|]. split; [done|]. split; [apply guar_refl|]. split; [apply moves_refl|done].
Qed.

(** A value of [freelist] that the thread has read. *)
Definition seen (m : mem) (n0 : Z) : Prop :=
  0 <= n0 < 2 ^ 64 /\ hi32 n0 <= hi32 (cur_of m) /\ (hi32 n0 = hi32 (cur_of m) -> n0 = cur_of m).

Lemma seen_rely O m m' n0 : rely O m m' -> seen m n0 -> seen m' n0.
Proof.
  intros [_ Hh Hc _] (Hr & Hle & He). split; [done|]. split; [lia|]. intros Heq. destruct Hc as [Hc _]; [lia|].
  rewrite Hc. apply He. lia.
Qed.

Lemma wp_load_free {A} k (Q : A -> mem -> list Z -> Prop) m O :
  (forall m' n0, rely O m m' -> seen m' n0 -> (lo32 n0 <> NNULL -> mapped m' (lo32 n0)) -> wp (k n0) Q m' O) ->
  wp (Vis (Load AFree) k) Q m O.
Proof.
  intros H. apply wp_read. intros w l Hr Hi Hm. destruct (cur_lookup _ _ Hi) as (Hc & Hrange & Hch).
  exists (cur_of (w_mem w)), w. cbn. unfold word. rewrite Hc. split; [done|]. split; [done|]. apply H; [done|done|].
  intros Hne. destruct l as [|x l]; [done|]. destruct Hch as (-> & _ & v & Hv & _). by eexists.
Qed.

Lemma wp_load_lo_free {A} k (Q : A -> mem -> list Z -> Prop) m O :
  (forall m' x, rely O m m' -> wp (k x) Q m' O) -> wp (Vis (LoadLo AFree) k) Q m O.
Proof.
  intros H. apply wp_read. intros w l Hr Hi Hm. destruct (cur_lookup _ _ Hi) as (Hc & _).
  eexists _, w. cbn. unfold word. rewrite Hc. split; [done|]. split; [done|]. by apply H.
Qed.

Lemma wp_load_link {A} k x (Q : A -> mem -> list Z -> Prop) m O : mapped m x ->
  (forall m' v, rely O m m' -> m' !! AX x = Some v -> wp (k (lo32 v)) Q m' O) -> wp (Vis (LoadLo (AX x)) k) Q m O.
Proof.
  intros Hx H. apply wp_read. intros w l Hr Hi Hm. destruct (rl_mapped _ _ _ Hr x Hx) as [v Hv].
  exists (lo32 v), w. cbn. unfold word. rewrite Hv. split; [done|]. split; [done|]. by apply H.
Qed.

Lemma cur_of_ne m a v : a <> AFree -> cur_of (<[a := v]> m) = cur_of m.
Proof. intros. unfold cur_of. by rewrite lookup_insert_ne. Qed.

Lemma free_chain_insert m head l last a v : (forall x, x ∈ l -> a <> AX x) -> chain m head l last -> chain (<[a := v]> m) head l last.
Proof. intros Ha. apply free_chain_frame. intros x Hx. rewrite lookup_insert_ne; [done|]. by apply Ha. Qed.

(** A store to the link of an own node. *)
Lemma mem_inv_own m l x v : mem_inv m l -> x ∉ l -> mapped m x -> mem_inv (<[AX x := v]> m) l.
Proof.
  intros [(cur & Hc & Hr & Hch) Hb Hf Hra Hm Hcu Hs] Hx Hmx.
  assert (Hmap : forall y, mapped (<[AX x := v]> m) y <-> mapped m y).
  { intros y. unfold mapped. destruct (decide (x = y)) as [->|]; [rewrite lookup_insert_eq; split; eauto|].
    rewrite lookup_insert_ne by congruence. done. }
  split.
  - exists cur. rewrite lookup_insert_ne by done. split; [done|]. split; [done|]. apply free_chain_insert; [|done].
    intros y Hy [= ->]. done.
  - intros i Hi. rewrite lookup_insert_ne by done. by apply Hb.
  - intros i y Hi Hy. rewrite lookup_insert_ne in Hi by done. destruct (decide (x = y)) as [->|].
    + exfalso. destruct Hmx as [z Hz]. rewrite (Hf i y Hi Hy) in Hz. done.
    + rewrite lookup_insert_ne by congruence. by eapply Hf.
  - intros y Hy. by apply Hra, Hmap.
  - intros y Hy. by apply Hmap, Hm.
  - by rewrite lookup_insert_ne.
  - by rewrite lookup_insert_ne.
Qed.

Lemma own_not_free (l O : list Z) x : NoDup (l ++ O) -> x ∈ O -> x ∉ l.
Proof. intros (_ & Hd & _)%NoDup_app Hx Hl. by apply (Hd x). Qed.

Lemma guar_own O m x v : x ∈ O -> guar O m (<[AX x := v]> m).
Proof.
  intros Hx. split.
  - intros y _ Hy. rewrite lookup_insert_ne by (intros [= ->]; done). done.
  - left. by apply cur_of_ne.
  - intros y Hy. unfold mapped in *. destruct (decide (x = y)) as [->|]; [rewrite lookup_insert_eq; eauto|].
    by rewrite lookup_insert_ne by congruence.
Qed.

(** An access that writes the link of an own node. *)
Lemma wp_write {A} e k x (f : Z -> Z) (Q : A -> mem -> list Z -> Prop) m O : x ∈ O ->
  (forall w v, w_mem w !! AX x = Some v -> handle e w = Ok (0, put w (AX x) (f v))) ->
  (forall m' v, rely O m m' -> m' !! AX x = Some v -> wp (k 0) Q (<[AX x := f v]> m') O) -> wp (Vis e k) Q m O.
Proof.
  intros Hx He H w l Hr Hi Hn Hm Hb. assert (Hxm : mapped (w_mem w) x) by (by eapply Forall_forall in Hm).
  destruct Hxm as [v Hv]. exists 0, (put w (AX x) (f v)), l, O. split; [by apply He|]. cbn [put with_mem w_mem].
  pose proof (guar_own O (w_mem w) x (f v) Hx) as Hg.
  split; [apply mem_inv_own; [done|by eapply own_not_free|by eexists]|].
  split; [eapply Forall_impl; [exact Hm|apply (gu_mapped _ _ _ Hg)]|]. split; [done|]. split; [apply moves_refl|]. by apply H.
Qed.

Lemma wp_store_lo {A} k x y (Q : A -> mem -> list Z -> Prop) m O : x ∈ O ->
  (forall m' v, rely O m m' -> m' !! AX x = Some v -> wp (k 0) Q (<[AX x := pack (lo32 y) (hi32 v)]> m') O) ->
  wp (Vis (StoreLo (AX x) y) k) Q m O.
Proof.
  intros Hx H. apply (wp_write _ _ x (fun v => pack (lo32 y) (hi32 v))); [done| |done].
  intros w v Hv. cbn. unfold word. by rewrite Hv.
Qed.

Lemma wp_store_hi {A} k x y (Q : A -> mem -> list Z -> Prop) m O : x ∈ O ->
  (forall m' v, rely O m m' -> m' !! AX x = Some v -> wp (k 0) Q (<[AX x := pack (lo32 v) (lo32 y)]> m') O) ->
  wp (Vis (StoreHi (AX x) y) k) Q m O.
Proof.
  intros Hx H. apply (wp_write _ _ x (fun v => pack (lo32 v) (lo32 y))); [done| |done].
  intros w v Hv. cbn. unfold word. by rewrite Hv.
Qed.

(** Changing [freelist]. *)
Lemma mem_inv_free m l l' cur' : mem_inv m l -> 0 <= cur' < 2 ^ 64 -> chain m (lo32 cur') l' NNULL ->
  (forall x, x ∈ l' -> mapped m x) -> mem_inv (<[AFree := cur']> m) l'.
Proof.
  intros [_ Hb Hf Hra _ Hcu Hs] Hr Hch Hm. split.
  - exists cur'. rewrite lookup_insert_eq. split; [done|]. split; [done|]. by apply free_chain_insert.
  - intros i. rewrite lookup_insert_ne by done. apply Hb.
  - intros i x. rewrite !lookup_insert_ne by done. apply Hf.
  - intros x. unfold mapped. rewrite lookup_insert_ne by done. apply Hra.
  - intros x. unfold mapped. rewrite lookup_insert_ne by done. apply Hm.
  - by rewrite lookup_insert_ne.
  - by rewrite lookup_insert_ne.
Qed.

Lemma guar_free O m cur' : cur_of m = cur' \/ hi32 cur' = hi32 (cur_of m) + 1 -> guar O m (<[AFree := cur']> m).
Proof.
  intros Hc. assert (Hcur : cur_of (<[AFree := cur']> m) = cur') by (unfold cur_of; by rewrite lookup_insert_eq).
  split.
  - intros x _ _. by rewrite lookup_insert_ne.
  - rewrite Hcur. destruct Hc; auto.
  - intros x. unfold mapped. by rewrite lookup_insert_ne.
Qed.

Lemma next_cur n0 head : 0 <= n0 < 2 ^ 64 -> hi32 n0 + 1 < 2 ^ 32 -> 0 <= head < 2 ^ 32 ->
  let cur' := pack head (u32 (hi32 n0 + 1)) in 0 <= cur' < 2 ^ 64 /\ lo32 cur' = head /\ hi32 cur' = hi32 n0 + 1.
Proof.
  intros Hn Hb Hh. pose proof (hi32_range n0 Hn). rewrite u32_small by lia. cbn zeta.
  rewrite lo32_pack, hi32_pack by done. split; [apply pack_range; [done|lia]|done].
Qed.

Lemma mapped_free O m m' x : mapped m x -> rely O m m' -> mapped m' x.
Proof. intros Hx Hr. by apply (rl_mapped _ _ _ Hr). Qed.

(** Taking the first node. *)
Lemma wp_cas_pop {A} k n0 next (Q : A -> mem -> list Z -> Prop) m O :
  seen m n0 -> lo32 n0 <> NNULL -> (forall v, m !! AX (lo32 n0) = Some v -> hi32 n0 = hi32 (cur_of m) -> lo32 v = next) ->
  (forall m', wp (k 1) Q m' (lo32 n0 :: O)) -> (forall m', rely O m m' -> wp (k 0) Q m' O) ->
  wp (Vis (Cas AFree n0 (pack next (u32 (hi32 n0 + 1)))) k) Q m O.
Proof.
  intros Hseen Hne Hnext Hyes Hno w l Hr Hi Hn Hm Hb. destruct (cur_lookup _ _ Hi) as (Hc & Hrange & Hch).
  cbn [Conc.handle]. unfold word. rewrite Hc. cbn [from_option_fault mbind result_bind].
  destruct (decide (cur_of (w_mem w) = n0)) as [Heq|Hneq].
  - destruct Hseen as (Hr0 & Hle & _). pose proof (rl_hi _ _ _ Hr) as Hhi.
    destruct (rl_cur _ _ _ Hr) as [Hcm Hl]; [rewrite Heq in *; lia|]. rewrite Heq in *. destruct l as [|x l]; [done|]. destruct Hch as (<- & Hx & v & Hv & Hch).
    rewrite <- Hcm in Hl. rewrite Hv in Hl. pose proof (Hnext v (eq_sym Hl) ltac:(by rewrite <- Hcm)) as Hlv.
    assert (Hnr : 0 <= next < 2 ^ 32) by (rewrite <- Hlv; apply lo32_range).
    destruct (next_cur n0 next Hr0 Hb Hnr) as (Hcr & Hclo & Hchi).
    eexists 1, _, l, (lo32 n0 :: O). split; [reflexivity|]. cbn [put with_mem w_mem].
    split; [|split; [|split; [|split; [|apply Hyes]]]].
    + apply (mem_inv_free _ (lo32 n0 :: l)); [done|done|by rewrite Hclo, <- Hlv|].
      intros y Hy. apply (mi_mapped _ _ Hi). by right.
    + apply Forall_cons. split; [unfold mapped; rewrite lookup_insert_ne by done; eauto|].
      eapply Forall_impl; [exact Hm|]. intros y. unfold mapped. by rewrite lookup_insert_ne.
    + apply guar_free. right. rewrite Hchi, Heq. done.
    + exists []. rewrite app_nil_r. split; [|split; [constructor|by intros y ?%elem_of_nil]]. cbn. by rewrite Permutation_middle.
  - eexists 0, w, l, O. split; [reflexivity|]. split; [done|]. split; [done|]. split; [apply guar_refl|].
    split; [apply moves_refl|]. by apply Hno.
Qed.

(** Putting a chain of own nodes in front. *)
Lemma wp_cas_push {A} k n0 head c (Q : A -> mem -> list Z -> Prop) m O O' :
  seen m n0 -> O ≡ₚ c ++ O' -> c <> [] -> chain m head c (lo32 n0) ->
  (forall m', wp (k 1) Q m' O') -> (forall m', rely O m m' -> wp (k 0) Q m' O) ->
  wp (Vis (Cas AFree n0 (pack head (u32 (hi32 n0 + 1)))) k) Q m O.
Proof.
  intros Hseen HO Hne Hchain Hyes Hno w l Hr Hi Hn Hm Hb. destruct (cur_lookup _ _ Hi) as (Hc & Hrange & Hch).
  cbn [Conc.handle]. unfold word. rewrite Hc. cbn [from_option_fault mbind result_bind].
  destruct (decide (cur_of (w_mem w) = n0)) as [Heq|Hneq].
  - rewrite Heq in *. assert (Hc' : chain (w_mem w) head c (lo32 n0)).
    { apply (free_chain_frame m); [|done]. intros x Hx. apply (rl_own _ _ _ Hr). rewrite HO. apply elem_of_app. by left. }
    assert (Hh : 0 <= head < NNULL).
    { destruct c as [|x c]; [done|]. destruct Hc' as (-> & _ & v & Hv & _). apply (mi_small _ _ _ Hi). by eexists. }
    destruct (next_cur n0 head ltac:(apply Hseen) Hb) as (Hcr & Hclo & Hchi); [unfold NNULL in Hh; lia|].
    rewrite HO in Hm. apply Forall_app in Hm as [Hm1 Hm2].
    eexists 1, _, (c ++ l), O'. split; [reflexivity|]. cbn [put with_mem w_mem].
    split; [|split; [|split; [|split; [|apply Hyes]]]].
    + apply (mem_inv_free _ l); [done|done|rewrite Hclo; by eapply free_chain_app|].
      intros y [Hy|Hy]%elem_of_app; [by eapply Forall_forall in Hm1|by apply (mi_mapped _ _ Hi)].
    + eapply Forall_impl; [exact Hm2|]. intros y. unfold mapped. by rewrite lookup_insert_ne.
    + apply guar_free. right. by rewrite Hchi, Heq.
    + exists []. rewrite app_nil_r. split; [|split; [constructor|by intros y ?%elem_of_nil]].
      rewrite HO, (Permutation_app_comm c l). by rewrite app_assoc.
  - eexists 0, w, l, O. split; [reflexivity|]. split; [done|]. split; [done|]. split; [apply guar_refl|].
    split; [apply moves_refl|]. by apply Hno.
Qed.

(** Words that no link is in. *)
Lemma mem_inv_other m l a v : mem_inv m l -> a <> AFree -> (forall x, a <> AX x) -> (forall i, a <> ABlk i) ->
  (a = ACurr -> 0 <= v) -> mem_inv (<[a := v]> m) l.
Proof.
  intros [(cur & Hc & Hr & Hch) Hb Hf Hra Hm (c & Hcu & Hc0) Hs] Hfree Hx Hblk Hcurr. split.
  - exists cur. rewrite lookup_insert_ne by done. split; [done|]. split; [done|]. by apply free_chain_insert.
  - intros i Hi. rewrite lookup_insert_ne by done. by apply Hb.
  - intros i y. rewrite !lookup_insert_ne by done. apply Hf.
  - intros y. unfold mapped. rewrite lookup_insert_ne by done. apply Hra.
  - intros y. unfold mapped. rewrite lookup_insert_ne by done. apply Hm.
  - destruct (decide (a = ACurr)) as [->|Hne].
    + exists v. rewrite lookup_insert_eq. auto.
    + exists c. by rewrite lookup_insert_ne.
  - destruct (decide (a = AStat ADD_NOMEM)) as [->|Hne]; [rewrite lookup_insert_eq; eauto|by rewrite lookup_insert_ne].
Qed.

Lemma wp_add {A} k a d (Q : A -> mem -> list Z -> Prop) m O :
  (forall m' l, mem_inv m' l -> is_Some (m' !! a)) -> a <> AFree -> (forall x, a <> AX x) -> (forall i, a <> ABlk i) ->
  (forall m' r, rely O m m' -> wp (k r) Q m' O) -> wp (Vis (Add a d) k) Q m O.
Proof.
  intros Ha Hfree Hx Hblk Hk w l Hr Hi Hn Hm Hb. destruct (Ha _ _ Hi) as [v Hv].
  set (m1 := <[a := u64 (v + d)]> (w_mem w)). eexists v, (put w a (u64 (v + d))), l, O. cbn [put with_mem w_mem].
  assert (Hlink : forall x, m1 !! AX x = w_mem w !! AX x) by (intros x; apply lookup_insert_ne, Hx).
  assert (Hg : guar O (w_mem w) m1).
  { split; [intros x _ _; apply Hlink|left; by apply cur_of_ne|]. intros x. unfold mapped. by rewrite Hlink. }
  split; [cbn; unfold word; by rewrite Hv|]. split; [apply mem_inv_other; try done; intros _; apply Z.mod_pos_bound; lia|].
  split; [eapply Forall_impl; [exact Hm|apply (gu_mapped _ _ _ Hg)]|]. split; [done|]. split; [apply moves_refl|].
  apply Hk. eapply rely_trans; [exact Hr|]. split; [intros x _; apply Hlink| | |apply (gu_mapped _ _ _ Hg)].
  - unfold m1. rewrite cur_of_ne by done. lia.
  - unfold m1. rewrite cur_of_ne by done. split; [done|]. apply Hlink.
Qed.

(** ** Publishing a block *)
Lemma zero_map_lookup (b : list addr) a :
  (list_to_map ((fun b => (b, 0)) <$> b) : gmap addr Z) !! a = if decide (a ∈ b) then Some 0 else None.
Proof using. clear h fuel clock answer Hpool.
  induction b as [|x b IH]; [done|]. cbn [fmap list_fmap list_to_map foldr fst snd].
  destruct (decide (x = a)) as [->|Hne].
  - rewrite lookup_insert_eq, decide_True by by left. done.
  - rewrite lookup_insert_ne by done. change (foldr _ _ _) with (list_to_map ((fun b => (b, 0)) <$> b) : gmap addr Z). rewrite IH.
    destruct (decide (a ∈ b)) as [Ha|Ha]; [rewrite decide_True by by right|rewrite decide_False by set_solver]; done.
Qed.

Lemma elem_of_block_words i a : a ∈ block_words h i <-> exists x, x ∈ block_ids h i /\ (a = AX x \/ a = AY x \/ a = AExp x \/ a = AData x).
Proof using. clear fuel clock answer Hpool.
  unfold block_words. rewrite list_elem_of_bind. split.
  - intros (x & Ha & Hx). exists x. split; [done|]. rewrite !elem_of_cons, elem_of_nil in Ha. tauto.
  - intros (x & Hx & Ha). exists x. split; [|done]. rewrite !elem_of_cons. tauto.
Qed.

Definition publish_map (i : Z) (m : mem) : mem := list_to_map ((fun b => (b, 0)) <$> block_words h i) ∪ <[ABlk i := 1]> m.

Lemma publish_lookup i m a : publish_map i m !! a =
  if decide (a ∈ block_words h i) then Some 0 else if decide (a = ABlk i) then Some 1 else m !! a.
Proof using. clear fuel clock answer Hpool.
  unfold publish_map. rewrite lookup_union, zero_map_lookup. case_decide as Ha; [by destruct (_ !! a)|].
  case_decide as Hb; [subst; by rewrite lookup_insert_eq|]. rewrite lookup_insert_ne by done. by destruct (_ !! a).
Qed.

Lemma publish_other i m a : (forall x, a <> AX x /\ a <> AY x /\ a <> AExp x /\ a <> AData x) -> a <> ABlk i -> publish_map i m !! a = m !! a.
Proof using. clear fuel clock answer Hpool.
  intros Ha Hb. rewrite publish_lookup, decide_False by (intros (x & _ & H)%elem_of_block_words; specialize (Ha x); tauto).
  by rewrite decide_False.
Qed.

Lemma publish_link i m x : publish_map i m !! AX x = if decide (x ∈ block_ids h i) then Some 0 else m !! AX x.
Proof using. clear fuel clock answer Hpool.
  rewrite publish_lookup. case_decide as Ha.
  - apply elem_of_block_words in Ha as (y & Hy & Ha). assert (x = y) as -> by naive_solver. by rewrite decide_True.
  - rewrite (decide_False (P := AX x = ABlk i)) by done. rewrite decide_False; [done|].
    intros Hx. apply Ha, elem_of_block_words. eauto.
Qed.

Lemma mem_inv_publish i m l : 0 <= i < maxb -> m !! ABlk i = Some 0 -> mem_inv m l -> mem_inv (publish_map i m) l.
Proof.
  intros Hi Hblk [(cur & Hc & Hr & Hch) Hb Hf Hra Hm (c & Hcu & Hc0) Hs].
  assert (Hold : forall x, mapped m x -> publish_map i m !! AX x = m !! AX x).
  { intros x [v Hv]. rewrite publish_link, decide_False; [done|]. intros Hx. by rewrite (Hf i x Hblk Hx) in Hv. }
  split.
  - exists cur. rewrite publish_other by done. split; [done|]. split; [done|]. apply (free_chain_frame m); [|done].
    intros x Hx. by apply Hold, Hm.
  - intros j Hj. rewrite publish_lookup, decide_False by (intros (x & _ & [?|[?|[?|?]]])%elem_of_block_words; done).
    case_decide; [eauto|by apply Hb].
  - intros j x Hj Hx. rewrite publish_lookup, decide_False in Hj by (intros (y & _ & [?|[?|[?|?]]])%elem_of_block_words; done).
    case_decide as Hd; [done|]. rewrite publish_link, decide_False; [by eapply Hf|].
    intros Hx'. apply Hd. f_equal. by eapply block_ids_disj.
  - intros x. unfold mapped. rewrite publish_link. case_decide as Hx; [intros _; by eapply block_ids_range|apply Hra].
  - intros x Hx. unfold mapped. rewrite (Hold x (Hm x Hx)). by apply Hm.
  - exists c. by rewrite publish_other.
  - by rewrite publish_other.
Qed.

Lemma wp_publish {A} k i (Q : A -> mem -> list Z -> Prop) m O : 0 <= i < maxb ->
  (forall m', (forall x, x ∈ block_ids h i -> m' !! AX x = Some 0) -> wp (k 1) Q m' (block_ids h i ++ O)) ->
  (forall m', rely O m m' -> wp (k 0) Q m' O) ->
  wp (Vis (Publish (ABlk i) (block_words h i)) k) Q m O.
Proof.
  intros Hi Hyes Hno w l Hr Hinv Hn Hm Hb. destruct (mi_blocks _ _ Hinv i Hi) as [v Hv].
  cbn [Conc.handle]. unfold word. rewrite Hv. cbn [from_option_fault mbind result_bind].
  destruct (decide (v = 0)) as [->|Hne].
  - assert (Hnew : forall x, x ∈ block_ids h i -> ~ mapped (w_mem w) x).
    { intros x Hx [z Hz]. by rewrite (mi_fresh _ _ Hinv i x Hv Hx) in Hz. }
    eexists 1, _, l, (block_ids h i ++ O). split; [reflexivity|]. cbn [with_mem w_mem]. fold (publish_map i (w_mem w)).
    assert (Hmap : forall x, mapped (w_mem w) x -> mapped (publish_map i (w_mem w)) x).
    { intros x Hx. unfold mapped. rewrite publish_link. case_decide; [eauto|done]. }
    split; [by apply mem_inv_publish|]. split; [|split; [|split]].
    + apply Forall_app. split; [|by eapply Forall_impl]. apply Forall_forall. intros x Hx. unfold mapped.
      rewrite publish_link, decide_True by done. eauto.
    + split; [|left; unfold cur_of; by rewrite publish_other|done].
      intros x Hx _. rewrite publish_link, decide_False; [done|]. intros Hin. by apply (Hnew x).
    + exists (block_ids h i). split; [|split; [apply block_ids_nodup|done]]. apply Permutation_app_head, Permutation_app_comm.
    + apply Hyes. intros x Hx. by rewrite publish_link, decide_True.
  - eexists 0, w, l, O. split; [reflexivity|]. split; [done|]. split; [done|]. split; [apply guar_refl|].
    split; [apply moves_refl|]. by apply Hno.
Qed.

(** ** The functions *)
Lemma chain_rely O c m m' head last : (forall x, x ∈ c -> x ∈ O) -> rely O m m' -> chain m head c last -> chain m' head c last.
Proof. intros Hc Hr. apply free_chain_frame. intros x Hx. by apply (rl_own _ _ _ Hr), Hc. Qed.

Lemma wp_push_free (Q : unit -> mem -> list Z -> Prop) node head c m O O' :
  O ≡ₚ (c ++ [node]) ++ O' -> node ∉ c -> node <> NNULL -> chain m head c node ->
  (forall m', Q tt m' O') -> wp (push_free fuel node head) Q m O.
Proof.
  intros HO Hnc Hne Hch HQ. unfold push_free. generalize fuel as n. intros n. revert m Hch.
  assert (Hin : forall x, x ∈ c ++ [node] -> x ∈ O) by (intros x Hx; rewrite HO; apply elem_of_app; by left).
  assert (Hcin : forall x, x ∈ c -> x ∈ O) by (intros x Hx; apply Hin, elem_of_app; by left).
  assert (Hnode : node ∈ O) by (apply Hin, elem_of_app; right; by left).
  induction n as [|n IH]; intros m Hch; [done|]. cbn [while].
  apply wp_load_free. intros m1 n0 Hr1 Hseen _. apply wp_store_lo; [done|]. intros m2 v Hr2 Hv.
  set (m3 := <[AX node := pack (lo32 (lo32 n0)) (hi32 v)]> m2).
  assert (Hc3 : chain m3 head c node).
  { apply free_chain_insert; [by intros x Hx [= ->]|]. apply (chain_rely O c m1); [done|done|]. by apply (chain_rely O c m). }
  assert (Hs3 : seen m3 n0).
  { pose proof (seen_rely _ _ _ _ Hr2 Hseen) as [? ?]. split; [done|]. unfold m3. by rewrite cur_of_ne. }
  assert (Hl : lo32 (lo32 n0) = lo32 n0) by (apply Z.mod_small, lo32_range).
  apply (wp_cas_push _ n0 head (c ++ [node]) _ m3 O O'); [done|done|by destruct c| | |].
  - eapply free_chain_app; [exact Hc3|]. cbn. split; [done|]. split; [done|]. eexists. split; [apply lookup_insert_eq|].
    rewrite lo32_pack by (apply lo32_range). done.
  - intros m'. apply HQ.
  - intros m4 Hr4. apply IH. by apply (chain_rely O c m3).
Qed.

Lemma wp_call {A} k f d (Q : A -> mem -> list Z -> Prop) m O : (forall m' r, rely O m m' -> wp (k r) Q m' O) -> wp (Vis (Call f d) k) Q m O.
Proof. intros H. apply wp_read. intros w l Hr Hi Hm. eexists _, _. split; [reflexivity|]. split; [done|]. by apply H. Qed.

Lemma wp_load_curr {A} k (Q : A -> mem -> list Z -> Prop) m O :
  (forall m' c, rely O m m' -> 0 <= c -> wp (k c) Q m' O) -> wp (Vis (Load ACurr) k) Q m O.
Proof.
  intros H. apply wp_read. intros w l Hr Hi Hm. destruct (mi_curr _ _ Hi) as (c & Hc & H0). exists c, w. cbn. unfold word.
  rewrite Hc. split; [done|]. split; [done|]. by apply H.
Qed.

Lemma wp_find_block n i (Q : option Z -> mem -> list Z -> Prop) m O : 0 <= i -> i + Z.of_nat n <= maxb ->
  (forall j m', 0 <= j < maxb -> (forall x, x ∈ block_ids h j -> m' !! AX x = Some 0) -> Q (Some j) m' (block_ids h j ++ O)) ->
  (forall m', Q None m' O) -> wp (find_block h n i) Q m O.
Proof.
  intros H0 Hn Hyes Hno. revert i m H0 Hn. induction n as [|n IH]; intros i m H0 Hn; [apply Hno|]. cbn [find_block].
  apply wp_publish; [lia| |].
  - intros m' Hz. apply wp_add; try done.
    + intros m2 l Hi. destruct (mi_curr _ _ Hi) as (c & -> & _). eauto.
    + intros m2 r Hr. apply Hyes; [lia|]. intros x Hx. rewrite (rl_own _ _ _ Hr); [by apply Hz|]. apply elem_of_app. by left.
  - intros m' Hr. apply IH; lia.
Qed.

(** The links a new block gets. *)
Definition linked (head : Z) (n : nat) (m : mem) : Prop :=
  forall k, (k < n)%nat -> exists v, m !! AX (head + Z.of_nat k) = Some v /\ lo32 v = head + Z.of_nat k + 1.

Lemma linked_rely head n O m m' : (forall k, (k < n)%nat -> head + Z.of_nat k ∈ O) -> rely O m m' -> linked head n m -> linked head n m'.
Proof. intros HO Hr Hl k Hk. rewrite (rl_own _ _ _ Hr) by by apply HO. by apply Hl. Qed.

Lemma wp_init head n j (Q : unit -> mem -> list Z -> Prop) m O : 0 <= head -> head + Z.of_nat (j + n) < NNULL ->
  (forall k, (k < j + n)%nat -> head + Z.of_nat k ∈ O) -> linked head j m ->
  (forall m', linked head (j + n) m' -> Q tt m' O) ->
  wp (prog_iter (fun k => store_lo (AX (head + Z.of_nat k)) (head + Z.of_nat k + 1)) (seq j n)) Q m O.
Proof.
  intros H0 Hs. revert j m Hs. induction n as [|n IH]; intros j m Hs HO Hl HQ.
  - rewrite Nat.add_0_r in *. by apply HQ.
  - cbn [seq prog_iter]. apply wp_store_lo; [apply HO; lia|]. intros m1 v Hr Hv.
    apply IH; [lia|intros k Hk; apply HO; lia| |by rewrite <- Nat.add_succ_comm in HQ].
    intros k Hk. destruct (decide (k = j)) as [->|Hne].
    + eexists. split; [apply lookup_insert_eq|]. rewrite lo32_pack by apply lo32_range. apply Z.mod_small. unfold NNULL in Hs. lia.
    + rewrite lookup_insert_ne by (intros [=]; lia). rewrite (rl_own _ _ _ Hr) by (apply HO; lia). apply Hl. lia.
Qed.

Lemma linked_chain head n j m : head + Z.of_nat (j + n) < NNULL -> linked head (j + n) m ->
  chain m (head + Z.of_nat j) ((fun k => head + Z.of_nat k) <$> seq j n) (head + Z.of_nat (j + n)).
Proof.
  revert j. induction n as [|n IH]; intros j Hs Hl; cbn [seq fmap list_fmap chain]; [by rewrite Nat.add_0_r|].
  split; [done|]. split; [lia|]. destruct (Hl j) as (v & Hv & Hlo); [lia|]. exists v. split; [done|]. rewrite Hlo.
  replace (head + Z.of_nat j + 1) with (head + Z.of_nat (S j)) by lia. rewrite <- Nat.add_succ_comm in *. by apply IH.
Qed.

Lemma block_ids_split i : block_ids h i = ((fun k => i * mask1 h + Z.of_nat k) <$> seq 0 (Z.to_nat (mp_mask mp))) ++ [i * mask1 h + mp_mask mp].
Proof using Hpool.
  unfold block_ids. pose proof (po_mask _ Hpool). replace (Z.to_nat (mask1 h)) with (Z.to_nat (mp_mask mp) + 1)%nat by (unfold mask1; lia).
  rewrite seq_app, fmap_app. cbn. do 2 f_equal. lia.
Qed.

Lemma wp_new_mem_block (Q : bool -> mem -> list Z -> Prop) m O :
  (forall b m', Q b m' O) -> wp (new_mem_block h fuel) Q m O.
Proof using Hpool.
  intros HQ. unfold new_mem_block. apply wp_call. intros m1 p Hr1. case_decide; [apply HQ|].
  apply wp_load_curr. intros m2 c Hr2 Hc. apply wp_bind. pose proof (po_mask _ Hpool) as Hmask. pose proof (po_small _ Hpool) as Hsmall.
  destruct (decide (c <= maxb)) as [Hle|Hgt].
  2: { replace (Z.to_nat (maxb - c)) with 0%nat by lia. apply HQ. }
  apply wp_find_block; [done|lia| |intros m'; apply HQ]. intros i m3 Hi Hz.
  assert (Hb : i * mask1 h + mask1 h < NNULL) by (unfold mask1; nia).
  assert (Hh0 : 0 <= i * mask1 h) by (unfold mask1; nia).
  replace (u32 (i * (mp_mask mp + 1))) with (i * mask1 h) by (unfold mask1 in *; rewrite u32_small; [done|unfold NNULL in Hb; nia]).
  set (head := i * mask1 h) in *.
  set (ids := (fun k => head + Z.of_nat k) <$> seq 0 (Z.to_nat (mp_mask mp))).
  set (O1 := block_ids h i ++ O).
  assert (Hown : forall k, (k < Z.to_nat (mp_mask mp))%nat -> head + Z.of_nat k ∈ O1).
  { intros k Hk. apply elem_of_app. left. apply elem_of_block_ids. unfold mask1 in *. lia. }
  assert (Hlast : head + mp_mask mp ∈ O1) by (apply elem_of_app; left; apply elem_of_block_ids; unfold mask1 in *; lia).
  apply wp_bind. apply wp_init; [done|unfold mask1 in *; lia|done|by intros k Hk; lia|].
  intros m4 Hl4. cbn [Nat.add] in Hl4. apply wp_store_lo; [done|]. intros m5 v Hr5 Hv5.
  apply wp_store_hi; [done|]. intros m6 v6 Hr6 Hv6. apply wp_bind.
  assert (Hne : forall k, (k < Z.to_nat (mp_mask mp))%nat -> AX (head + mp_mask mp) <> AX (head + Z.of_nat k)) by (intros k Hk [=]; lia).
  apply (wp_push_free _ _ _ ids _ _ O).
  - unfold O1. by rewrite (block_ids_split i).
  - unfold ids. intros (k & Hk & Hks%elem_of_seq)%list_elem_of_fmap. lia.
  - unfold mask1 in *. lia.
  - replace head with (head + Z.of_nat 0) at 2 by lia. replace (head + mp_mask mp) with (head + Z.of_nat (0 + Z.to_nat (mp_mask mp))) at 2 by lia.
    apply linked_chain; [unfold mask1 in *; lia|]. intros k Hk. cbn in Hk. rewrite lookup_insert_ne by by apply Hne.
    rewrite (rl_own _ _ _ Hr6) by by apply Hown. rewrite lookup_insert_ne by by apply Hne.
    rewrite (rl_own _ _ _ Hr5) by by apply Hown. by apply Hl4.
  - intros m7. apply HQ.
Qed.

Lemma wp_new_node (Q : Z -> mem -> list Z -> Prop) m O :
  (forall m', Q NNULL m' O) -> (forall r m', r <> NNULL -> Q r m' (r :: O)) -> wp (new_node h fuel) Q m O.
Proof using Hpool.
  intros Hno Hyes. unfold new_node. generalize fuel at 2 as n. intros n. revert m. induction n as [|n IH]; intros m; [done|].
  cbn [new_node_loop]. apply wp_load_lo_free. intros m1 f Hr1. apply wp_bind.
  assert (Hmore : forall m, wp (n0 ← load AFree;
        if decide (lo32 n0 = NNULL) then new_node_loop h fuel n
        else next ← load_lo (AX (lo32 n0)); ok ← cas AFree n0 (pack next (u32 (hi32 n0 + 1)));
          if (ok : bool) then mret (lo32 n0) else new_node_loop h fuel n) Q m O).
  { intros m2. apply wp_load_free. intros m3 n0 Hr3 Hseen Hmap. case_decide as Hd; [apply IH|].
    apply wp_load_link; [by apply Hmap|]. intros m4 v Hr4 Hv. apply wp_cas_pop; [by eapply seen_rely|done| | |].
    - intros v' Hv' _. congruence.
    - intros m5. by apply Hyes.
    - intros m5 Hr5. apply IH. }
  assert (Hblock : forall b m, wp (if (b : bool) then n0 ← load AFree;
        if decide (lo32 n0 = NNULL) then new_node_loop h fuel n
        else next ← load_lo (AX (lo32 n0)); ok ← cas AFree n0 (pack next (u32 (hi32 n0 + 1)));
          if (ok : bool) then mret (lo32 n0) else new_node_loop h fuel n
      else (_ ← add (AStat ADD_NOMEM) 1; mret NNULL)) Q m O).
  { intros [] m2; [apply Hmore|]. apply wp_add; try done; [intros m3 l Hi; apply (mi_stat _ _ Hi)|]. intros m3 r Hr. apply Hno. }
  case_decide; [by apply (Hblock true)|]. apply wp_new_mem_block. intros b m'. apply Hblock.
Qed.

Lemma wp_free_node mi (Q : unit -> mem -> list Z -> Prop) m O O' : mi <> NNULL -> O ≡ₚ mi :: O' ->
  (forall m', Q tt m' O') -> wp (free_node fuel mi) Q m O.
Proof.
  intros Hne HO HQ. unfold free_node. apply wp_store_hi; [rewrite HO; by left|]. intros m1 v Hr Hv.
  apply (wp_push_free _ _ _ [] _ _ O'); [done|by intros ?%elem_of_nil|done|done|done].
Qed.
End freelist.

(** ** Threads

    A client holds nodes it has got from [new_node]; it may write their words as it likes,
    give one back with [free_node], or ask for another. *)
Inductive client :=
  | Idle (own : list Z)
  | Allocating (own : list Z) (p : hprog Z)
  | Freeing (own : list Z) (p : hprog unit).

Definition held (t : client) : list Z :=
  match t with Idle own | Allocating own _ | Freeing own _ => own end.

Section clients.
Context (h : htable) (fuel : nat) (clock : nat -> Z) (answer : list (hook * Z) -> hook -> Z -> Z).
#[local] Abbreviation handle := (handle clock answer).

Inductive client_step : list client * hworld -> list client * hworld -> Prop :=
  | StepAlloc ts w i own : ts !! i = Some (Idle own) ->
      client_step (ts, w) (<[i := Allocating own (new_node h fuel)]> ts, w)
  | StepFree ts w i l1 mi l2 : ts !! i = Some (Idle (l1 ++ mi :: l2)) ->
      client_step (ts, w) (<[i := Freeing (l1 ++ l2) (free_node fuel mi)]> ts, w)
  | StepUse ts w i own mi a v : ts !! i = Some (Idle own) -> mi ∈ own -> a ∈ [AX mi; AY mi; AExp mi; AData mi] ->
      client_step (ts, w) (ts, put w a v)
  | StepAllocating ts w i own e k r w' : ts !! i = Some (Allocating own (Vis e k)) -> handle e w = Ok (r, w') ->
      client_step (ts, w) (<[i := Allocating own (k r)]> ts, w')
  | StepFreeing ts w i own e k r w' : ts !! i = Some (Freeing own (Vis e k)) -> handle e w = Ok (r, w') ->
      client_step (ts, w) (<[i := Freeing own (k r)]> ts, w')
  | StepGot ts w i own r : ts !! i = Some (Allocating own (Ret r)) ->
      client_step (ts, w) (<[i := Idle (if decide (r = NNULL) then own else r :: own)]> ts, w)
  | StepFreed ts w i own : ts !! i = Some (Freeing own (Ret tt)) ->
      client_step (ts, w) (<[i := Idle own]> ts, w).

(** The next access of a thread is a fault. *)
Definition faulty (s : list client * hworld) : Prop :=
  exists i own e f, handle e s.2 = Fault f /\
    ((exists k, s.1 !! i = Some (Allocating own (Vis e k))) \/ (exists k, s.1 !! i = Some (Freeing own (Vis e k)))).

Context (Hpool : pool_ok (h_mp h)).
#[local] Abbreviation wp := (wp h clock answer).
#[local] Abbreviation mem_inv := (mem_inv h).

Definition client_ok (m : mem) (t : client) (O : list Z) : Prop :=
  exists p, O = held t ++ p /\
  match t with
  | Idle _ => p = []
  | Allocating _ q => wp q (fun r _ O => O = if decide (r = NNULL) then [] else [r]) m p
  | Freeing _ q => wp q (fun _ _ O => O = []) m p
  end.

Record clients_inv (n : Z) (ts : list client) (w : hworld) : Prop := {
  ci_inv : exists l Os, mem_inv (w_mem w) l /\ Forall2 (client_ok (w_mem w)) ts Os /\
    NoDup (l ++ mjoin Os) /\ Forall (mapped (w_mem w)) (mjoin Os);
  ci_hi : hi32 (cur_of (w_mem w)) <= n
}.

Lemma guar_rely O P m m' l l' : guar O m m' -> mem_inv m l -> mem_inv m' l' -> NoDup (l ++ O) ->
  (forall x, x ∈ P -> mapped m x /\ x ∉ O) -> rely P m m'.
Proof.
  intros [Hg Hc Hm] Hi Hi' Hn HP. split.
  - intros x Hx. apply Hg; by apply HP.
  - destruct Hc as [->| ->]; lia.
  - intros He. destruct Hc as [->|Hc]; [|lia]. split; [done|].
    destruct (cur_lookup h _ _ Hi) as (_ & _ & Hch). destruct l as [|x l]; cbn in Hch.
    + rewrite Hch. assert (Hno : forall m l, mem_inv m l -> m !! AX NNULL = None).
      { intros m0 l0 H0. destruct (m0 !! AX NNULL) eqn:E; [|done]. exfalso. pose proof (mi_small h Hpool _ _ NNULL H0 (ex_intro _ _ E)). lia. }
      by rewrite (Hno _ _ Hi), (Hno _ _ Hi').
    + destruct Hch as (-> & _ & v & Hv & _). apply Hg; [by eexists|]. intros Hx. apply NoDup_app in Hn as (_ & Hd & _). apply (Hd x); [by left|done].
  - done.
Qed.

Lemma client_ok_rely m m' t O : (forall p, O = held t ++ p -> rely p m m') -> client_ok m t O -> client_ok m' t O.
Proof.
  intros Hr (p & -> & Ht). exists p. split; [done|]. specialize (Hr p eq_refl).
  destruct t; [done|by eapply wp_rely|by eapply wp_rely].
Qed.

Lemma mapped_mono m m' (l : list Z) : (forall x, mapped m x -> mapped m' x) -> Forall (mapped m) l -> Forall (mapped m') l.
Proof. intros Hm Hl. eapply Forall_impl; [exact Hl|exact Hm]. Qed.

(** One thread has made a step. *)
Lemma client_change n ts (w : hworld) i t O t' (w' : hworld) l Os l' O' :
  mem_inv (w_mem w) l -> Forall2 (client_ok (w_mem w)) ts Os -> NoDup (l ++ mjoin Os) -> Forall (mapped (w_mem w)) (mjoin Os) ->
  hi32 (cur_of (w_mem w)) <= n -> ts !! i = Some t -> Os !! i = Some O ->
  mem_inv (w_mem w') l' -> guar O (w_mem w) (w_mem w') -> moves (w_mem w) l O l' O' -> Forall (mapped (w_mem w')) O' ->
  client_ok (w_mem w') t' O' -> clients_inv (n + 1) (<[i := t']> ts) w'.
Proof.
  intros Hi Hts Hnd Hm Hn Ht HO Hi' Hg (N & Hperm & HN & Hnew) Hmp' Hok.
  destruct (join_insert Os i O O' HO) as (R & HR & HR' & Hoth).
  assert (Hnd1 : NoDup (l ++ O ++ R)) by (by rewrite <- HR).
  assert (Hall : forall x, x ∈ O ++ R -> mapped (w_mem w) x).
  { intros x Hx. rewrite <- HR in Hx. by eapply Forall_forall in Hm. }
  assert (Hlm : forall x, x ∈ l -> mapped (w_mem w) x) by apply (mi_mapped _ _ _ Hi).
  assert (HlO : NoDup (l ++ O)) by (rewrite app_assoc in Hnd1; by apply NoDup_app in Hnd1 as (? & _)).
  assert (Hout : forall x, x ∈ R -> mapped (w_mem w) x /\ x ∉ O).
  { intros x Hx. split; [apply Hall, elem_of_app; by right|]. intros HxO. apply NoDup_app in Hnd1 as (_ & _ & Hnd2).
    apply NoDup_app in Hnd2 as (_ & Hd & _). by apply (Hd x). }
  assert (Htotal : l' ++ O' ++ R ≡ₚ (l ++ O ++ R) ++ N).
  { transitivity ((l' ++ O') ++ R); [solve_Permutation|]. rewrite Hperm. solve_Permutation. }
  split; [|destruct (gu_cur _ _ _ Hg) as [->| ->]; lia].
  exists l', (<[i := O']> Os). split; [done|]. split; [|rewrite HR'; split].
  - apply Forall2_same_length_lookup. split; [rewrite !length_insert; by eapply Forall2_length|].
    intros j tj Oj Htj HOj. destruct (decide (i = j)) as [<-|Hne].
    + rewrite list_lookup_insert_eq in Htj by (by eapply lookup_lt_Some). injection Htj as <-.
      rewrite list_lookup_insert_eq in HOj by (by eapply lookup_lt_Some). by injection HOj as <-.
    + rewrite list_lookup_insert_ne in Htj by done. rewrite list_lookup_insert_ne in HOj by done. apply (client_ok_rely (w_mem w)).
      * intros q ->. eapply guar_rely; [exact Hg|exact Hi|exact Hi'|exact HlO|]. intros x Hx. apply Hout.
        eapply Hoth; [done|exact HOj|]. apply elem_of_app. by right.
      * by eapply (Forall2_lookup_lr _ _ _ _ _ _ Hts).
  - rewrite Htotal. apply NoDup_app. split; [done|]. split; [|done]. intros x Hx HxN. apply (Hnew x HxN).
    apply elem_of_app in Hx as [Hx|Hx]; [by apply Hlm|by apply Hall].
  - apply Forall_app. split; [done|]. apply Forall_forall. intros x Hx. apply (gu_mapped _ _ _ Hg), Hall, elem_of_app. by right.
Qed.

Lemma guar_weaken p O m m' : (forall x, x ∈ p -> x ∈ O) -> guar p m m' -> guar O m m'.
Proof. intros HO [Hg Hc Hm]. split; [|done|done]. intros x Hx Hn. apply Hg; auto. Qed.

Lemma moves_own own p l l' p' m : moves m l p l' p' -> moves m l (own ++ p) l' (own ++ p').
Proof.
  intros (N & Hperm & HN & Hnew). exists N. split; [|done].
  transitivity (own ++ l' ++ p'); [solve_Permutation|]. rewrite Hperm. solve_Permutation.
Qed.

Lemma moves_perm m l O O' : O ≡ₚ O' -> moves m l O l O'.
Proof.
  intros HO. exists []. split; [rewrite app_nil_r; by rewrite HO|]. split; [constructor|]. by intros x ?%elem_of_nil.
Qed.

(** A thread runs one access of [p], which [wp] allows. *)
Lemma client_access {A} n ts (w : hworld) i t own p l Os e k (Q : A -> mem -> list Z -> Prop) :
  mem_inv (w_mem w) l -> Forall2 (client_ok (w_mem w)) ts Os -> NoDup (l ++ mjoin Os) -> Forall (mapped (w_mem w)) (mjoin Os) ->
  hi32 (cur_of (w_mem w)) <= n -> n + 1 < 2 ^ 32 -> ts !! i = Some t -> Os !! i = Some (own ++ p) -> wp (Vis e k) Q (w_mem w) p ->
  exists r w' p', handle e w = Ok (r, w') /\ wp (k r) Q (w_mem w') p' /\
    forall t', client_ok (w_mem w') t' (own ++ p') -> clients_inv (n + 1) (<[i := t']> ts) w'.
Proof.
  intros Hi Hts Hnd Hm Hn Hn1 Ht HO Hwp.
  destruct (join_insert Os i (own ++ p) [] HO) as (R & HR & _).
  assert (Hnd1 : NoDup (l ++ p)).
  { rewrite HR in Hnd. apply (sublist_NoDup _ (l ++ (own ++ p) ++ R)); [done|]. apply sublist_app; [done|].
    rewrite <- app_assoc. apply sublist_inserts_l. by apply sublist_inserts_r. }
  assert (Hmo : Forall (mapped (w_mem w)) (own ++ p)) by (rewrite HR in Hm; by apply Forall_app in Hm as [? _]).
  apply Forall_app in Hmo as [Hmo Hmp].
  destruct (Hwp w l (rely_refl _ _) Hi Hnd1 Hmp ltac:(lia)) as (r & w' & l' & p' & Hh & Hi' & Hmp' & Hg & Hmv & Hk).
  exists r, w', p'. split; [done|]. split; [done|]. intros t' Hok.
  assert (Hg' : guar (own ++ p) (w_mem w) (w_mem w')) by (eapply guar_weaken; [|exact Hg]; intros x Hx; apply elem_of_app; by right).
  eapply (client_change n ts w i t (own ++ p) t' w' l Os l' (own ++ p')); try done; [by apply moves_own|]. apply Forall_app. split; [|done].
  eapply mapped_mono; [apply (gu_mapped _ _ _ Hg)|done].
Qed.

Lemma clients_inv_client n ts w i t : clients_inv n ts w -> ts !! i = Some t ->
  exists l Os p, mem_inv (w_mem w) l /\ Forall2 (client_ok (w_mem w)) ts Os /\ NoDup (l ++ mjoin Os) /\
    Forall (mapped (w_mem w)) (mjoin Os) /\ hi32 (cur_of (w_mem w)) <= n /\ Os !! i = Some (held t ++ p) /\
    match t with
    | Idle _ => p = []
    | Allocating _ q => wp q (fun r _ O => O = if decide (r = NNULL) then [] else [r]) (w_mem w) p
    | Freeing _ q => wp q (fun _ _ O => O = []) (w_mem w) p
    end.
Proof.
  intros [(l & Os & Hi & Hts & Hnd & Hm) Hn] Ht. destruct (Forall2_lookup_l _ _ _ _ _ Hts Ht) as (O & HO & p & -> & Hp).
  by exists l, Os, p.
Qed.

Lemma put_own l O m mi a v : mem_inv m l -> NoDup (l ++ O) -> Forall (mapped m) O -> mi ∈ O -> a ∈ [AX mi; AY mi; AExp mi; AData mi] ->
  mem_inv (<[a := v]> m) l /\ guar O m (<[a := v]> m).
Proof.
  intros Hi Hnd Hm Hmi Ha.
  assert (Hoth : a <> AX mi -> mem_inv (<[a := v]> m) l /\ guar O m (<[a := v]> m)).
  { intros Hne. assert (Hx : forall x, a <> AX x) by (intros x ->; rewrite !elem_of_cons, elem_of_nil in Ha; naive_solver).
    assert (Hf : a <> AFree) by (intros ->; rewrite !elem_of_cons, elem_of_nil in Ha; naive_solver).
    assert (Hb : forall i, a <> ABlk i) by (intros i ->; rewrite !elem_of_cons, elem_of_nil in Ha; naive_solver).
    assert (Hc : a <> ACurr) by (intros ->; rewrite !elem_of_cons, elem_of_nil in Ha; naive_solver).
    split; [by apply mem_inv_other|].
    split; [intros x _ _; by apply lookup_insert_ne|left; by apply cur_of_ne|]. intros x. unfold mapped. by rewrite lookup_insert_ne. }
  destruct (decide (a = AX mi)) as [->|Hne]; [|by apply Hoth]. split.
  - apply mem_inv_own; [done|by eapply own_not_free|by eapply Forall_forall in Hm].
  - by apply guar_own.
Qed.

Lemma client_step_inv n s s' : client_step s s' -> n + 1 < 2 ^ 32 -> clients_inv n s.1 s.2 -> clients_inv (n + 1) s'.1 s'.2.
Proof.
  intros Hstep Hn1 Hinv.
  destruct Hstep as [ts w i own Ht|ts w i l1 mi l2 Ht|ts w i own mi a v Ht Hmi Ha|ts w i own e k r w' Ht Hh|ts w i own e k r w' Ht Hh
    |ts w i own r Ht|ts w i own Ht]; cbn [fst snd] in *;
    destruct (clients_inv_client _ _ _ _ _ Hinv Ht) as (l & Os & p & Hi & Hts & Hnd & Hm & Hn & HO & Hp); cbn [held] in HO.
  - subst p. eapply (client_change n ts w i _ _ _ w l Os l (own ++ [])); try done; [apply guar_refl|by apply moves_perm| |].
    + destruct (join_insert Os i _ [] HO) as (R & HR & _). rewrite HR in Hm. by apply Forall_app in Hm as [? _].
    + exists []. split; [done|]. apply wp_new_node; [done| |].
      * intros m'. by rewrite decide_True.
      * intros r m' Hr. by rewrite decide_False.
  - subst p. rewrite app_nil_r in HO. assert (Hmo : Forall (mapped (w_mem w)) (l1 ++ mi :: l2)).
    { destruct (join_insert Os i _ [] HO) as (R & HR & _). rewrite HR in Hm. by apply Forall_app in Hm as [? _]. }
    assert (Hperm : l1 ++ mi :: l2 ≡ₚ (l1 ++ l2) ++ [mi]) by solve_Permutation.
    eapply (client_change n ts w i _ _ _ w l Os l ((l1 ++ l2) ++ [mi])); try done; [apply guar_refl|by apply moves_perm|by rewrite <- Hperm|].
    exists [mi]. split; [done|]. eapply wp_free_node; [done| |done|done].
    assert (mapped (w_mem w) mi) as Hmi by (eapply Forall_forall in Hmo; [exact Hmo|set_solver]).
    pose proof (mi_small h Hpool _ _ mi Hi Hmi). lia.
  - subst p. rewrite app_nil_r in HO. assert (Hmo : Forall (mapped (w_mem w)) own /\ NoDup (l ++ own)).
    { destruct (join_insert Os i _ [] HO) as (R & HR & _). rewrite HR in Hm, Hnd. split; [by apply Forall_app in Hm as [? _]|].
      rewrite app_assoc in Hnd. by apply NoDup_app in Hnd as (? & _). }
    destruct Hmo as [Hmo Hnd1]. destruct (put_own l own (w_mem w) mi a v Hi Hnd1 Hmo Hmi Ha) as [Hi' Hg].
    rewrite <- (list_insert_id ts i (Idle own) Ht).
    eapply (client_change n ts w i _ own _ (put w a v) l Os l own); try done; [by apply moves_perm| |].
    + eapply mapped_mono; [apply (gu_mapped _ _ _ Hg)|done].
    + exists []. by rewrite app_nil_r.
  - destruct (client_access n ts w i _ own p l Os e k _ Hi Hts Hnd Hm Hn Hn1 Ht HO Hp) as (r' & w1 & p' & Hh' & Hk & Hinv').
    rewrite Hh in Hh'. injection Hh' as <- <-. apply Hinv'. by exists p'.
  - destruct (client_access n ts w i _ own p l Os e k _ Hi Hts Hnd Hm Hn Hn1 Ht HO Hp) as (r' & w1 & p' & Hh' & Hk & Hinv').
    rewrite Hh in Hh'. injection Hh' as <- <-. apply Hinv'. by exists p'.
  - cbn in Hp. subst p. assert (Hmo : Forall (mapped (w_mem w)) (own ++ if decide (r = NNULL) then [] else [r])).
    { destruct (join_insert Os i _ [] HO) as (R & HR & _). rewrite HR in Hm. by apply Forall_app in Hm as [? _]. }
    assert (Hperm : own ++ (if decide (r = NNULL) then [] else [r]) ≡ₚ (if decide (r = NNULL) then own else r :: own) ++ []).
    { rewrite app_nil_r. case_decide; [by rewrite app_nil_r|solve_Permutation]. }
    eapply (client_change n ts w i _ _ _ w l Os l ((if decide (r = NNULL) then own else r :: own) ++ [])); try done; [apply guar_refl|by apply moves_perm|by rewrite <- Hperm|]. by exists [].
  - cbn in Hp. subst p. eapply (client_change n ts w i _ _ _ w l Os l (own ++ [])); try done; [apply guar_refl|by apply moves_perm| |by exists []].
    destruct (join_insert Os i _ [] HO) as (R & HR & _). rewrite HR in Hm. by apply Forall_app in Hm as [? _].
Qed.

Lemma clients_not_faulty n ts w : n + 1 < 2 ^ 32 -> clients_inv n ts w -> ~ faulty (ts, w).
Proof.
  intros Hn1 Hinv (i & own & e & f & Hf & Ht). cbn [fst snd] in *.
  destruct Ht as [[k Ht]|[k Ht]]; destruct (clients_inv_client _ _ _ _ _ Hinv Ht) as (l & Os & p & Hi & Hts & Hnd & Hm & Hn & HO & Hp);
    destruct (client_access n ts w i _ own p l Os e k _ Hi Hts Hnd Hm Hn Hn1 Ht HO Hp) as (r & w1 & p' & Hh & _); congruence.
Qed.

Lemma clients_held n ts w : clients_inv n ts w -> NoDup (mjoin (held <$> ts)) /\ Forall (mapped (w_mem w)) (mjoin (held <$> ts)).
Proof.
  intros [(l & Os & Hi & Hts & Hnd & Hm) _]. apply NoDup_app in Hnd as (_ & _ & Hnd).
  assert (Hsub : sublist (mjoin (held <$> ts)) (mjoin Os)).
  { clear -Hts. induction Hts as [|t O ts Os (p & -> & _) _ IH]; [done|]. cbn. apply sublist_app; [by apply sublist_inserts_r|done]. }
  split; [by eapply sublist_NoDup|]. apply Forall_forall. intros x Hx. eapply Forall_forall in Hm; [exact Hm|].
  by eapply sublist_subseteq.
Qed.

(** The steps of the clients as a function, for evaluation. *)
Inductive client_op := OpAlloc (i : nat) | OpFree (i k : nat) | OpUse (i k : nat) (v : Z) | OpStep (i : nat).

Definition client_exec (o : client_op) (s : list client * hworld) : option (list client * hworld) :=
  let '(ts, w) := s in
  match o with
  | OpAlloc i => match ts !! i with Some (Idle own) => Some (<[i := Allocating own (new_node h fuel)]> ts, w) | _ => None end
  | OpFree i k =>
      match ts !! i with
      | Some (Idle own) => mi ← own !! k; Some (<[i := Freeing (take k own ++ drop (S k) own) (free_node fuel mi)]> ts, w)
      | _ => None
      end
  | OpUse i k v => match ts !! i with Some (Idle own) => mi ← own !! k; Some (ts, put w (AX mi) v) | _ => None end
  | OpStep i =>
      match ts !! i with
      | Some (Allocating own (Vis e k)) => match handle e w with Ok (r, w') => Some (<[i := Allocating own (k r)]> ts, w') | _ => None end
      | Some (Freeing own (Vis e k)) => match handle e w with Ok (r, w') => Some (<[i := Freeing own (k r)]> ts, w') | _ => None end
      | Some (Allocating own (Ret r)) => Some (<[i := Idle (if decide (r = NNULL) then own else r :: own)]> ts, w)
      | Some (Freeing own (Ret tt)) => Some (<[i := Idle own]> ts, w)
      | _ => None
      end
  end.

Fixpoint client_run (ops : list client_op) (s : list client * hworld) : option (list client * hworld) :=
  match ops with [] => Some s | o :: ops => s ← client_exec o s; client_run ops s end.

Lemma client_exec_step o s s' : client_exec o s = Some s' -> client_step s s'.
Proof.
  destruct s as [ts w]. destruct o as [i|i k|i k v|i]; cbn [client_exec]; destruct (ts !! i) as [[own|own [r|e k'|]|own [[]|e k'|]]|] eqn:Ht; try done.
  - intros [= <-]. by constructor.
  - intros (mi & Hmi & [= <-])%bind_Some. pose proof (take_drop_middle _ _ _ Hmi) as Hown. constructor. by rewrite Hown.
  - intros (mi & Hmi & [= <-])%bind_Some. econstructor; [done|by eapply list_elem_of_lookup_2|by left].
  - intros [= <-]. by constructor.
  - destruct (handle e w) as [[r w']|] eqn:E; [|done]. intros [= <-]. by econstructor.
  - intros [= <-]. by constructor.
  - destruct (handle e w) as [[r w']|] eqn:E; [|done]. intros [= <-]. by econstructor.
Qed.

Lemma client_run_steps ops s s' : client_run ops s = Some s' -> nsteps client_step (length ops) s s'.
Proof.
  revert s. induction ops as [|o ops IH]; intros s; cbn; [intros [= ->]; constructor|].
  intros (s1 & H1%client_exec_step & H2)%bind_Some. econstructor; [done|by apply IH].
Qed.
End clients.

(** ** A new table *)
Definition new_word (a : addr) : Z := match a with ASeat _ _ => NNULL | AFree => pack NNULL 0 | _ => 0 end.

Lemma hash_words_val h a v : (a, v) ∈ hash_words h -> v = new_word a /\ (forall x, a <> AX x /\ a <> AY x /\ a <> AExp x /\ a <> AData x).
Proof.
  unfold hash_words. rewrite !elem_of_app. intros H.
  assert (Hm : forall {A} (f : A -> addr * Z) l, (a, v) ∈ f <$> l -> exists x, (a, v) = f x) by (intros A f l (x & ? & _)%list_elem_of_fmap; eauto).
  destruct H as [H|[H|[H|[H|[H|[H|H]]]]]].
  - apply Hm in H as [x [= -> ->]]. done.
  - apply Hm in H as [x [= -> ->]]. done.
  - apply Hm in H as [x [= -> ->]]. done.
  - apply list_elem_of_bind in H as (t & Ht & _). apply elem_of_cons in Ht as [[= -> ->]|Ht]; [done|]. apply Hm in Ht as [c [= -> ->]]. done.
  - apply Hm in H as [x [= -> ->]]. done.
  - apply Hm in H as [x [= -> ->]]. done.
  - apply elem_of_cons in H as [[= -> ->]|H]; [done|]. apply list_elem_of_singleton in H as [= -> ->]. done.
Qed.

Lemma hash_words_lookup h a v : (a, v) ∈ hash_words h -> (list_to_map (hash_words h) : gmap addr Z) !! a = Some v.
Proof.
  intros Hin. apply elem_of_list_to_map_1'; [|done]. intros v' Hin'.
  apply hash_words_val in Hin as [-> _]. by apply hash_words_val in Hin' as [-> _].
Qed.

Lemma hash_words_node h x : (list_to_map (hash_words h) : gmap addr Z) !! AX x = None.
Proof.
  apply not_elem_of_list_to_map_1. intros ([a v] & Ha & Hin)%list_elem_of_fmap. cbn in Ha. subst a.
  apply hash_words_val in Hin as [_ Hn]. by destruct (Hn x) as [? _].
Qed.

Lemma hash_words_blk h i : 0 <= i < mp_max_blocks (h_mp h) -> (ABlk i, 0) ∈ hash_words h.
Proof.
  intros Hi. unfold hash_words. rewrite !elem_of_app. do 5 right. left. apply list_elem_of_fmap. exists (Z.to_nat i).
  split; [f_equal; f_equal; lia|]. apply elem_of_seq. lia.
Qed.

Lemma mem_inv_new h : mem_inv h (list_to_map (hash_words h)) [].
Proof.
  assert (Hend : forall a v, (a, v) ∈ [(ACurr, 0); (AFree, pack NNULL 0)] -> (a, v) ∈ hash_words h).
  { intros a v H. unfold hash_words. rewrite !elem_of_app. by do 6 right. }
  split.
  - exists (pack NNULL 0). split; [|by split].
    apply hash_words_lookup, Hend. right. by left.
  - intros i Hi. rewrite (hash_words_lookup h _ 0); [eauto|by apply hash_words_blk].
  - intros i x _ _. apply hash_words_node.
  - intros x [v Hv]. by rewrite hash_words_node in Hv.
  - by intros x ?%elem_of_nil.
  - exists 0. split; [|done]. apply hash_words_lookup, Hend. by left.
  - rewrite (hash_words_lookup h _ 0); [eauto|]. unfold hash_words. rewrite !elem_of_app. do 4 right. left.
    apply list_elem_of_fmap. exists ADD_NOMEM. split; [done|]. set_solver.
Qed.

Lemma hash_words_cur h : cur_of (list_to_map (hash_words h)) = pack NNULL 0.
Proof.
  unfold cur_of. rewrite (hash_words_lookup h _ (pack NNULL 0)); [done|].
  unfold hash_words. rewrite !elem_of_app. do 6 right. right. by left.
Qed.

Lemma ceil_log2_ok fuel p n : 0 <= p -> n <= 2 ^ (p + Z.of_nat fuel) -> exists q, ceil_log2 (S fuel) p n = Ok q /\ p <= q <= p + Z.of_nat fuel /\ n <= 2 ^ q.
Proof.
  revert p. induction fuel as [|fuel IH]; intros p Hp Hn; cbn [ceil_log2].
  - rewrite decide_False by (rewrite Z.add_0_r in Hn; lia). exists p. rewrite Z.add_0_r in Hn. split; [done|lia].
  - case_decide as Hd; [|exists p; split; [done|lia]].
    destruct (IH (p + 1)) as (q & Hq & Hr & Hle); [lia|by replace (p + 1 + Z.of_nat fuel) with (p + Z.of_nat (S fuel)) by lia|].
    exists q. split; [exact Hq|lia].
Qed.

(** The shape of a pool for hash nodes. *)
Lemma create_mem_pool_node n : 2 <= n <= 2 ^ 31 -> exists mp q, create_mem_pool n NODE_SIZE = Ok (Some mp) /\ 1 <= q <= 31 /\ n <= 2 ^ q /\
  mp = Pool (2 ^ Z.max 7 (q - 9) - 1) (Z.max 7 (q - 9)) 512 (2 ^ Z.max 7 (q - 9)) 32 (2 ^ (Z.max 7 (q - 9) + 5)).
Proof.
  intros Hn. unfold create_mem_pool, shift_loop. rewrite (decide_False (P := 2 ^ 31 < n)) by lia.
  destruct (ceil_log2_ok 31 0 n) as (q & Hq & Hr & Hle); [lia|change (2 ^ (0 + Z.of_nat 31)) with (2 ^ 31); lia|].
  assert (Hq' : ceil_log2 33 0 n = Ok q).
  { clear -Hq. revert Hq. generalize 0. generalize 31%nat. intros fuel. induction fuel as [|fuel IH]; intros p; cbn [ceil_log2].
    - case_decide; [done|]. by intros [= ->].
    - case_decide; [apply IH|done]. }
  rewrite Hq'. cbn [mbind result_bind]. assert (Hq1 : 1 <= q).
  { destruct (decide (q = 0)) as [->|]; [change (2 ^ 0) with 1 in Hle; lia|lia]. }
  rewrite (decide_False (P := q = 0 \/ 32 < q)) by lia. rewrite (decide_False (P := 2 ^ 31 < NODE_SIZE)) by (unfold NODE_SIZE; lia).
  change (ceil_log2 33 0 NODE_SIZE) with (Ok 5). cbn [mbind result_bind]. rewrite decide_False by (unfold NODE_SIZE; lia).
  eexists _, q. split; [reflexivity|]. split; [lia|]. split; [done|]. unfold PW2_MAX_BLK_PTR, PW2_MIN_BLK_SIZ.
  case_decide as Hd.
  - replace (Z.max 7 (q - 9)) with 7 by lia. done.
  - replace (Z.max 7 (q - 9)) with (q + 5 - 9 - 5) by lia. change (2 ^ 9) with 512. change (2 ^ 5) with 32.
    by replace (q + 5 - 9 - 5 + 5) with (q + 5 - 9) by lia.
Qed.

Lemma create_pool_ok n reset_ttl nb0 nb1 h w : atomic_hash_create n reset_ttl nb0 nb1 = Ok (Some (h, w)) ->
  w = World (list_to_map (hash_words h)) 0 [] /\ pool_ok (h_mp h).
Proof.
  unfold atomic_hash_create. case_decide as Hd; [done|]. unfold MAXTAB in Hd. intros Hc.
  destruct (decide (n <= 2 ^ 31)) as [Hle|Hgt].
  - destruct (create_mem_pool_node n ltac:(lia)) as (mp & q & Hmp & Hq & _ & Hsh). rewrite Hmp in Hc. cbn in Hc.
    injection Hc as <- <-. split; [done|]. cbn [h_mp]. rewrite Hsh. split; cbn.
    + assert (0 < 2 ^ Z.max 7 (q - 9)) by (apply Z.pow_pos_nonneg; lia). lia.
    + done.
    + assert (2 ^ Z.max 7 (q - 9) <= 2 ^ 22) by (apply Z.pow_le_mono_r; lia). change (2 ^ 22) with 4194304 in *. unfold NNULL. lia.
  - exfalso. unfold create_mem_pool, shift_loop in Hc. rewrite (decide_True (P := 2 ^ 31 < n)) in Hc by lia. done.
Qed.

(** C18: Any number of threads that take nodes from a new table, write to them and give them back,
    in any interleaving of single accesses with [malloc] failing at any time: no access is
    outside the table, and no node is ever held by two threads, or twice by one, as long as
    fewer than 2^32 - 1 steps have been made (the list's reference number is 32 bits). *)
Theorem freelist_concurrent_safe max_nodes reset_ttl nb0 nb1 h w fuel clock answer threads n s
    (Hcreate : atomic_hash_create max_nodes reset_ttl nb0 nb1 = Ok (Some (h, w)))
    (Hn : Z.of_nat n < 2 ^ 32 - 1)
    (Hsteps : nsteps (client_step h fuel clock answer) n (replicate threads (Idle []), w) s) :
  ~ faulty clock answer s /\ NoDup (mjoin (held <$> s.1)) /\
  Forall (fun mi => 0 <= mi < mp_max_blocks (h_mp h) * (mp_mask (h_mp h) + 1)) (mjoin (held <$> s.1)).
Proof.
  destruct (create_pool_ok _ _ _ _ _ _ Hcreate) as [-> Hpool].
  assert (Hinv : clients_inv h clock answer (Z.of_nat n) s.1 s.2).
  { clear Hcreate. remember (replicate threads (Idle []), World (list_to_map (hash_words h)) 0 []) as s0 eqn:Hs0.
    assert (H0 : clients_inv h clock answer 0 s0.1 s0.2).
    { subst s0. split; [|by cbn [snd w_mem]; rewrite hash_words_cur]. exists [], (replicate threads []). split; [apply mem_inv_new|].
      assert (Hj : mjoin (replicate threads ([] : list Z)) = []) by (clear; induction threads as [|k IH]; [done|exact IH]).
      cbn [fst snd app]. rewrite Hj. split; [|split; constructor].
      apply Forall2_replicate. by exists []. }
    clear Hs0. replace (Z.of_nat n) with (0 + Z.of_nat n) by lia. assert (Hb : 0 + Z.of_nat n + 1 < 2 ^ 32) by lia. clear Hn.
    revert H0 Hb. generalize 0. induction Hsteps as [x|k x y z Hstep Hsteps IH]; intros b H0 Hb.
    - by rewrite Z.add_0_r.
    - replace (b + Z.of_nat (S k)) with (b + 1 + Z.of_nat k) by lia. apply IH; [|lia].
      eapply client_step_inv; [done|exact Hstep|lia|done]. }
  destruct (clients_held _ _ _ _ _ _ Hinv) as [Hnd Hm]. split; [|split; [done|]].
  - destruct s as [ts w']. eapply clients_not_faulty; [done| |exact Hinv]. lia.
  - destruct Hinv as [(l & Os & Hi & _) _]. eapply Forall_impl; [exact Hm|]. intros x Hx. apply (mi_range _ _ _ Hi x Hx).
Qed.

(** The table of the witnesses: 64 buckets in each array. *)
Definition sample_hash : htable := Hash 64 64 (Pool 127 7 512 128 32 4096) 0 true.
Definition sample_world : hworld := World (list_to_map (hash_words sample_hash)) 0 [].
Definition sample_clock (_ : nat) : Z := 1000.
Definition sample_answer (_ : list (hook * Z)) (f : hook) (_ : Z) : Z :=
  match f with
  | CALLOC => 1 | ON_DUP => PLEASE_SET_TTL_TO_DEFAULT | ON_GET | ON_ADD => PLEASE_DO_NOT_CHANGE_TTL | _ => PLEASE_REMOVE_HASH_NODE
  end.

Lemma sample_create : atomic_hash_create 4 0 64 64 = Ok (Some (sample_hash, sample_world)).
Proof.
  unfold atomic_hash_create. rewrite decide_False by (unfold MAXTAB, NNULL; lia).
  assert (Hmp : create_mem_pool 4 NODE_SIZE = Ok (Some (h_mp sample_hash))) by (vm_compute; reflexivity).
  rewrite Hmp. reflexivity.
Qed.

(** Both threads find the list empty and make a block each, and both take a node. *)
Definition sample_ops : list client_op := [OpAlloc 0; OpAlloc 1; OpStep 1] ++ repeat (OpStep 0) 141 ++ repeat (OpStep 1) 140.
Definition sample_start : list client * hworld := (replicate 2 (Idle []), sample_world).

Lemma freelist_concurrent_safe_witness :
  exists s, client_run sample_hash 4 sample_clock sample_answer sample_ops sample_start = Some s /\
    held <$> s.1 = [[0]; [128]] /\ ~ faulty sample_clock sample_answer s /\ NoDup (mjoin (held <$> s.1)) /\
    Forall (fun mi => 0 <= mi < 512 * 128) (mjoin (held <$> s.1)).
Proof.
  assert (Hrun : option_map (fun s : list client * hworld => held <$> s.1)
    (client_run sample_hash 4 sample_clock sample_answer sample_ops sample_start) = Some [[0]; [128]]) by (vm_compute; reflexivity).
  destruct (client_run sample_hash 4 sample_clock sample_answer sample_ops sample_start) as [s|] eqn:E; [|discriminate Hrun].
  injection Hrun as Hheld. exists s. split; [done|]. split; [exact Hheld|].
  apply (freelist_concurrent_safe 4 0 64 64 sample_hash sample_world 4%nat sample_clock sample_answer 2%nat 284%nat).
  - apply sample_create.
  - reflexivity.
  - apply client_run_steps in E. exact E.
Defined.
