(* ===== verification/AtomicTable.v ===== *)
(** * The atomic hash: one thread, the state

    What the words of the table mean when no thread is inside an operation: which entry each
    seat holds, which nodes are free; and what each kind of write does to that. *)
From S2P Require Import Prelude CLib Conc AtomicHash FreeList.

#[local] Open Scope Z_scope.

Record entry := Entry { e_node : Z; e_key : Z * Z; e_data : Z; e_exp : Z }.
Abbreviation seat := (Z * Z)%type.
Abbreviation seats := (gmap (Z * Z) entry) (only parsing).

(** A key that the operations can find: neither word is 0. *)
Definition key_ok (k : Z * Z) : Prop := 0 < k.1 < 2 ^ 64 /\ 0 < k.2 < 2 ^ 64.

Definition nodes (D : seats) : list Z := (fun p => e_node p.2) <$> map_to_list D.
Definition zseq (n : Z) : list Z := Z.of_nat <$> seq 0 (Z.to_nat n).
Definition occ (D : seats) (l : list seat) : Z := Z.of_nat (length (filter (fun s => is_Some (D !! s)) l)).

Lemma elem_of_zseq n x : x ∈ zseq n <-> 0 <= x < n.
Proof.
  unfold zseq. rewrite list_elem_of_fmap. split.
  - intros (k & -> & Hk%elem_of_seq). lia.
  - intros Hx. exists (Z.to_nat x). split; [lia|]. apply elem_of_seq. lia.
Qed.

Lemma zseq_nodup n : NoDup (zseq n).
Proof. apply NoDup_fmap_2; [intros a b; lia|apply NoDup_seq]. Qed.

Lemma length_zseq n : 0 <= n -> Z.of_nat (length (zseq n)) = n.
Proof. intros. unfold zseq. rewrite length_fmap, length_seq. lia. Qed.

Lemma nodes_insert D s e : D !! s = None -> nodes (<[s := e]> D) ≡ₚ e_node e :: nodes D.
Proof. intros Hs. unfold nodes. by rewrite map_to_list_insert. Qed.

Lemma nodes_delete D s e : D !! s = Some e -> e_node e :: nodes (delete s D) ≡ₚ nodes D.
Proof. intros Hs. unfold nodes. rewrite <- (map_to_list_delete D s e Hs). done. Qed.

Lemma nodes_update D s e e' : D !! s = Some e -> e_node e' = e_node e -> nodes (<[s := e']> D) ≡ₚ nodes D.
Proof.
  intros Hs He. rewrite <- insert_delete_eq, nodes_insert by apply lookup_delete_eq. rewrite He. by apply nodes_delete.
Qed.

Lemma elem_of_nodes D x : x ∈ nodes D <-> exists s e, D !! s = Some e /\ e_node e = x.
Proof.
  unfold nodes. rewrite list_elem_of_fmap. split.
  - intros ([s e] & -> & Hs%elem_of_map_to_list). eauto.
  - intros (s & e & Hs & <-). exists (s, e). split; [done|]. by apply elem_of_map_to_list.
Qed.

Lemma length_nodes D : length (nodes D) = size D.
Proof. unfold nodes. by rewrite length_fmap, length_map_to_list. Qed.

(** Counting occupied seats. *)
Lemma occ_cons D s l : occ D (s :: l) = (if decide (is_Some (D !! s)) then 1 else 0) + occ D l.
Proof. unfold occ. rewrite filter_cons. case_decide; cbn; lia. Qed.

Lemma occ_ext D D' l : (forall s, s ∈ l -> is_Some (D !! s) <-> is_Some (D' !! s)) -> occ D l = occ D' l.
Proof.
  induction l as [|s l IH]; intros H; [done|]. rewrite !occ_cons, IH by (intros x Hx; apply H; by right).
  pose proof (H s ltac:(by left)) as Hs. do 2 case_decide; try done; tauto.
Qed.

Lemma occ_delete D l s : NoDup l -> is_Some (D !! s) -> occ (delete s D) l = occ D l - (if decide (s ∈ l) then 1 else 0).
Proof.
  intros Hn Hs. induction Hn as [|x l Hx Hn IH]; [rewrite decide_False by apply not_elem_of_nil; done|].
  rewrite !occ_cons. destruct (decide (s = x)) as [->|Hne].
  - rewrite lookup_delete_eq, (decide_False (P := is_Some None)) by by intros [? ?]. rewrite (decide_True (P := is_Some _)) by done.
    rewrite (decide_True (P := x ∈ _)) by by left. rewrite IH, decide_False by done. lia.
  - rewrite lookup_delete_ne by done. rewrite IH. rewrite (decide_ext (s ∈ x :: l) (s ∈ l)); [lia|]. rewrite elem_of_cons. naive_solver.
Qed.

Lemma occ_insert D l s e : NoDup l -> D !! s = None -> occ (<[s := e]> D) l = occ D l + (if decide (s ∈ l) then 1 else 0).
Proof.
  intros Hn Hs. replace (occ D l) with (occ (delete s (<[s := e]> D)) l).
  - rewrite occ_delete; [lia|done|]. rewrite lookup_insert_eq. eauto.
  - by rewrite delete_insert_id.
Qed.

Lemma occ_none D l : occ D l = 0 -> forall s, s ∈ l -> D !! s = None.
Proof.
  induction l as [|x l IH]; intros H s Hs; [by apply not_elem_of_nil in Hs|]. rewrite occ_cons in H.
  assert (0 <= occ D l) by (unfold occ; lia). case_decide as Hd; [lia|].
  apply elem_of_cons in Hs as [->|Hs]; [by apply eq_None_not_Some|]. apply IH; [lia|done].
Qed.

Lemma occ_bound D l : 0 <= occ D l <= Z.of_nat (length l).
Proof. unfold occ. pose proof (length_filter (fun s => is_Some (D !! s)) l). lia. Qed.

Lemma occ_full D l : occ D l = Z.of_nat (length l) -> forall s, s ∈ l -> is_Some (D !! s).
Proof.
  induction l as [|x l IH]; intros H s Hs; [by apply not_elem_of_nil in Hs|]. rewrite occ_cons in H.
  pose proof (occ_bound D l). cbn [length] in H. case_decide as Hd; [|lia].
  apply elem_of_cons in Hs as [->|Hs]; [done|]. apply IH; [lia|done].
Qed.

Lemma occ_all D l : (forall s, s ∈ l -> is_Some (D !! s)) -> occ D l = Z.of_nat (length l).
Proof.
  induction l as [|x l IH]; intros H; [done|]. rewrite occ_cons, decide_True by (apply H; by left).
  rewrite IH by (intros s Hs; apply H; by right). cbn [length]. lia.
Qed.

Definition node_addrs (x : Z) : list addr := [AX x; AY x; AExp x; AData x].

Section table.
Context (h : htable) (Hpool : pool_ok (h_mp h)).
#[local] Abbreviation maxb := (mp_max_blocks (h_mp h)).

Definition seat_ok (s : seat) : Prop :=
  (s.1 = 0 /\ 0 <= s.2 < h_nb0 h) \/ (s.1 = 1 /\ 0 <= s.2 < h_nb1 h) \/ s ∈ coll_seats.

(** The seats hold the entries [D], the free nodes are [l], a caller has taken [O] over, and
    [nb] blocks have been made.  [H]: the node that is held, whose first word says nothing. *)
Record table (H : option Z) (m : mem) (D : seats) (l O : list Z) (nb : Z) : Prop := {
  tb_seat t j : seat_ok (t, j) -> m !! ASeat t j = Some (from_option e_node NNULL (D !! (t, j)));
  tb_entry s e : D !! s = Some e -> seat_ok s /\ key_ok (e_key e) /\ (s ∈ coll_seats \/ s ∈ collect_hash_pos h (e_key e));
  tb_x s e : D !! s = Some e -> H <> Some (e_node e) -> m !! AX (e_node e) = Some (e_key e).1;
  tb_words s e : D !! s = Some e ->
    m !! AY (e_node e) = Some (e_key e).2 /\ m !! AExp (e_node e) = Some (e_exp e) /\ m !! AData (e_node e) = Some (e_data e);
  tb_uniq s s' e e' : D !! s = Some e -> D !! s' = Some e' -> e_key e = e_key e' -> s = s';
  tb_nodes : l ++ O ++ nodes D ≡ₚ zseq (nb * mask1 h);
  tb_mapped x a : 0 <= x < nb * mask1 h -> a ∈ node_addrs x -> is_Some (m !! a);
  tb_free : exists cur, m !! AFree = Some cur /\ 0 <= cur < 2 ^ 64 /\ chain m (lo32 cur) l NNULL;
  tb_curr : m !! ACurr = Some nb /\ 0 <= nb <= maxb;
  tb_blk i : 0 <= i < maxb -> m !! ABlk i = Some (if decide (i < nb) then 1 else 0);
  tb_ncur : m !! ANcur NMHT = Some (occ D coll_seats);
  tb_ncurs t : 0 <= t <= 2 -> is_Some (m !! ANcur t);
  tb_ctr t c : 0 <= t <= 2 -> is_Some (m !! ACtr t c);
  tb_stat s : is_Some (m !! AStat s)
}.

Lemma coll_seats_elem s : s ∈ coll_seats <-> s.1 = 2 /\ 0 <= s.2 < 64.
Proof.
  unfold coll_seats. rewrite list_elem_of_fmap. destruct s as [t j]. cbn [fst snd]. split.
  - intros (k & [= -> ->] & Hk%elem_of_seq). unfold NMHT, MINTAB in *. lia.
  - intros [-> Hj]. exists (Z.to_nat j). split; [f_equal; unfold NMHT; lia|]. apply elem_of_seq. unfold MINTAB. lia.
Qed.

Lemma coll_seats_nodup : NoDup coll_seats.
Proof. apply NoDup_fmap_2; [intros a b [=]; lia|apply NoDup_seq]. Qed.

Lemma seat_ok_range s : seat_ok s -> 0 <= s.1 <= 2.
Proof. intros [[-> _]|[[-> _]|Hs%coll_seats_elem]]; lia. Qed.

Section with_table.
Context {H : option Z} {m : mem} {D : seats} {l O : list Z} {nb : Z} (T : table H m D l O nb).

Lemma tb_nodup : NoDup (l ++ O ++ nodes D).
Proof using T. rewrite (tb_nodes _ _ _ _ _ _ T). apply zseq_nodup. Qed.

Lemma tb_id x : x ∈ l ++ O ++ nodes D <-> 0 <= x < nb * mask1 h.
Proof using T. rewrite (tb_nodes _ _ _ _ _ _ T). apply elem_of_zseq. Qed.

Lemma tb_small x : x ∈ l ++ O ++ nodes D -> 0 <= x < NNULL.
Proof using T Hpool.
  intros Hx%tb_id. pose proof (po_small _ Hpool). pose proof (mask1_pos h Hpool).
  destruct (tb_curr _ _ _ _ _ _ T) as [_ Hb]. unfold mask1 in *. nia.
Qed.

Lemma tb_node s e : D !! s = Some e -> e_node e ∈ nodes D /\ e_node e ∉ l /\ e_node e ∉ O.
Proof using T.
  intros Hs. assert (Hin : e_node e ∈ nodes D) by (apply elem_of_nodes; eauto). split; [done|].
  pose proof tb_nodup as (_ & Hd & (_ & Hd2 & _)%NoDup_app)%NoDup_app. split.
  - intros Hl. apply (Hd _ Hl). apply elem_of_app. by right.
  - intros HO. by apply (Hd2 _ HO).
Qed.

Lemma tb_node_small s e : D !! s = Some e -> 0 <= e_node e < NNULL.
Proof using T Hpool. intros Hs. apply tb_small. destruct (tb_node s e Hs) as [Hin _]. rewrite !elem_of_app. auto. Qed.

Lemma tb_inj s s' e e' : D !! s = Some e -> D !! s' = Some e' -> e_node e = e_node e' -> s = s' /\ e = e'.
Proof using T.
  intros Hs Hs' He. destruct (decide (s = s')) as [->|Hne]; [split; [done|congruence]|]. exfalso.
  pose proof tb_nodup as (_ & _ & (_ & _ & Hn)%NoDup_app)%NoDup_app.
  rewrite <- (nodes_delete D s e Hs) in Hn. apply NoDup_cons in Hn as [Hn _]. apply Hn, elem_of_nodes.
  exists s', e'. by rewrite lookup_delete_ne.
Qed.

(** What the table depends on. *)
Definition core (a : addr) : Prop :=
  match a with
  | ACtr _ _ | AStat _ => False
  | ANcur t => t = NMHT
  | AX x => x ∈ l \/ (x ∈ nodes D /\ H <> Some x)
  | AY x | AExp x | AData x => x ∈ nodes D
  | _ => True
  end.

Lemma table_frame m' : (forall a, core a -> m' !! a = m !! a) -> (forall a, is_Some (m !! a) -> is_Some (m' !! a)) ->
  table H m' D l O nb.
Proof using T.
  intros Hc Hm. destruct T as [Hseat Hent Hx Hw Hu Hno Hma (cur & Hf & Hr & Hch) [Hcu Hb] Hbl Hn Hns Hct Hst].
  split; try done.
  - intros t j Hs. rewrite Hc by done. by apply Hseat.
  - intros s e Hs Hne. rewrite Hc; [by eapply Hx|]. right. split; [by eapply tb_node|done].
  - intros s e Hs. destruct (tb_node s e Hs) as [Hin _]. rewrite !Hc by done. by eapply Hw.
  - intros x a Hx' Ha. by eapply Hm, Hma.
  - exists cur. rewrite Hc by done. split; [done|]. split; [done|]. apply (free_chain_frame m); [|done]. intros x Hx'. apply Hc. by left.
  - by rewrite Hc.
  - intros i Hi. rewrite Hc by done. by apply Hbl.
  - by rewrite Hc.
  - intros t Ht. by apply Hm, Hns.
  - intros t c Ht. by apply Hm, Hct.
  - intros s. by apply Hm, Hst.
Qed.

Lemma table_put a v : ~ core a -> table H (<[a := v]> m) D l O nb.
Proof using T.
  intros Ha. apply table_frame.
  - intros b Hb. apply lookup_insert_ne. by intros ->.
  - intros b Hb. destruct (decide (a = b)) as [->|]; [rewrite lookup_insert_eq; eauto|by rewrite lookup_insert_ne].
Qed.

Lemma table_own x a v : x ∈ O -> a ∈ node_addrs x -> table H (<[a := v]> m) D l O nb.
Proof using T.
  intros Hx Ha. apply table_put. pose proof tb_nodup as (_ & Hd & (_ & Hd2 & _)%NoDup_app)%NoDup_app.
  assert (Hl : x ∉ l) by (intros Hl; apply (Hd _ Hl), elem_of_app; by left). assert (Hn : x ∉ nodes D) by (intros Hn; by apply (Hd2 _ Hx)).
  unfold node_addrs in Ha. rewrite !elem_of_cons, elem_of_nil in Ha. destruct Ha as [->|[->|[->|[->|[]]]]]; cbn; tauto.
Qed.

(** Holding a node, writing its first word, and letting it go. *)
Lemma table_held x : H = None -> table (Some x) m D l O nb.
Proof using T. intros ->. destruct T. by split; eauto. Qed.

Lemma table_let_go s e : H = Some (e_node e) -> D !! s = Some e -> m !! AX (e_node e) = Some (e_key e).1 -> table None m D l O nb.
Proof using T.
  intros HH Hs Hx. pose proof tb_inj as Hinj. destruct T as [Hseat Hent Hx' Hw Hu Hno Hma Hf Hcu Hbl Hn Hns Hct Hst]. split; try done.
  intros s' e' Hs' _. destruct (decide (e_node e' = e_node e)) as [He|He].
  - destruct (Hinj _ _ _ _ Hs' Hs He) as [-> ->]. done.
  - eapply Hx'; [done|congruence].
Qed.
End with_table.

(** Writes of one word leave the others. *)
#[local] Ltac other := rewrite ?lookup_insert_ne by (try done; intros [=]; subst; congruence || done).

Lemma is_Some_insert (m : mem) a v b : is_Some (m !! b) -> is_Some (<[a := v]> m !! b).
Proof. intros Hb. destruct (decide (a = b)) as [->|]; [rewrite lookup_insert_eq; eauto|by rewrite lookup_insert_ne]. Qed.

Definition with_exp (e : entry) (v : Z) : entry := Entry (e_node e) (e_key e) (e_data e) v.

(** A new expiry time. *)
Lemma table_exp H m D l O nb s e v : table H m D l O nb -> D !! s = Some e ->
  table H (<[AExp (e_node e) := v]> m) (<[s := with_exp e v]> D) l O nb.
Proof.
  intros T Hs. pose proof (tb_inj T) as Hinj. pose proof (nodes_update D s e (with_exp e v) Hs eq_refl) as Hnod.
  destruct T as [Hseat Hent Hx Hw Hu Hno Hma (cur & Hf & Hr & Hch) Hcu Hbl Hn Hns Hct Hst].
  assert (Hlook : forall s' e', <[s := with_exp e v]> D !! s' = Some e' ->
    (s' = s /\ e' = with_exp e v) \/ (s' <> s /\ D !! s' = Some e' /\ e_node e' <> e_node e)).
  { intros s' e' Hs'. destruct (decide (s = s')) as [<-|Hne]; [rewrite lookup_insert_eq in Hs'; left; split; [done|congruence]|].
    rewrite lookup_insert_ne in Hs' by done. right. split; [done|]. split; [done|]. intros He. by destruct (Hinj _ _ _ _ Hs' Hs He). }
  split.
  - intros t j Ht. other. rewrite Hseat by done. destruct (decide (s = (t, j))) as [->|]; [by rewrite lookup_insert_eq, Hs|by rewrite lookup_insert_ne].
  - intros s' e' [[-> ->]|(_ & Hs' & _)]%Hlook; [exact (Hent s e Hs)|by apply Hent].
  - intros s' e' [[-> ->]|(_ & Hs' & _)]%Hlook Hne; other; [exact (Hx s e Hs Hne)|by eapply Hx].
  - intros s' e' [[-> ->]|(_ & Hs' & Hne)]%Hlook; cbn [with_exp e_node e_key e_exp e_data].
    + rewrite lookup_insert_eq. other. destruct (Hw _ _ Hs) as (? & ? & ?). done.
    + rewrite !lookup_insert_ne by congruence. by eapply Hw.
  - intros s1 s2 e1 e2 [[-> ->]|(_ & H1 & _)]%Hlook [[-> ->]|(_ & H2 & _)]%Hlook Hk; cbn in Hk; try done; by eapply Hu.
  - by rewrite Hnod.
  - intros x a Hx' Ha. by eapply is_Some_insert, Hma.
  - exists cur. other. split; [done|]. split; [done|]. by apply free_chain_insert.
  - by other.
  - intros i Hi. other. by apply Hbl.
  - other. rewrite Hn. f_equal. apply occ_ext. intros x _. destruct (decide (s = x)) as [->|]; [rewrite lookup_insert_eq, Hs; split; eauto|by rewrite lookup_insert_ne].
  - intros t Ht. by apply is_Some_insert, Hns.
  - intros t c Ht. by apply is_Some_insert, Hct.
  - intros st. by apply is_Some_insert.
Qed.

(** A held node is taken out of its seat; it is the caller's. *)
Lemma table_unseat m D l O nb t j e n : table (Some (e_node e)) m D l O nb -> D !! (t, j) = Some e -> m !! ANcur t = Some n ->
  table None (<[ANcur t := u64 (n + -1)]> (<[ASeat t j := NNULL]> m)) (delete (t, j) D) l (e_node e :: O) nb.
Proof.
  intros T Hs Hnc. pose proof (tb_inj T) as Hinj. pose proof (nodes_delete D (t, j) e Hs) as Hnod.
  destruct T as [Hseat Hent Hx Hw Hu Hno Hma (cur & Hf & Hr & Hch) Hcu Hbl Hn Hns Hct Hst].
  assert (Hlook : forall s' e', delete (t, j) D !! s' = Some e' -> D !! s' = Some e' /\ e_node e' <> e_node e).
  { intros s' e' [Hne Hs']%lookup_delete_Some. split; [done|]. intros He. by destruct (Hinj _ _ _ _ Hs' Hs He). }
  split.
  - intros t' j' Ht. rewrite lookup_insert_ne by done. destruct (decide ((t, j) = (t', j'))) as [[= <- <-]|Hne].
    + by rewrite lookup_insert_eq, lookup_delete_eq.
    + rewrite lookup_insert_ne by congruence. rewrite lookup_delete_ne by done. by apply Hseat.
  - intros s' e' [Hs' _]%Hlook. by apply Hent.
  - intros s' e' [Hs' Hne]%Hlook _. other. eapply Hx; [done|congruence].
  - intros s' e' [Hs' Hne]%Hlook. other. by eapply Hw.
  - intros s1 s2 e1 e2 [H1 _]%Hlook [H2 _]%Hlook. by apply Hu.
  - rewrite <- Hno, <- Hnod. cbn. solve_Permutation.
  - intros x a Hx' Ha. by eapply is_Some_insert, is_Some_insert, Hma.
  - exists cur. other. split; [done|]. split; [done|]. apply free_chain_insert; [done|]. by apply free_chain_insert.
  - by other.
  - intros i Hi. other. by apply Hbl.
  - rewrite (occ_delete _ _ _ coll_seats_nodup) by eauto. destruct (decide (t = NMHT)) as [->|Hne].
    + rewrite lookup_insert_eq. rewrite Hn in Hnc. injection Hnc as <-. pose proof (occ_bound D coll_seats) as Hb.
      destruct (Hent _ _ Hs) as ([[? _]|[[? _]|Hin]] & _); [done|done|]. rewrite decide_True by done.
      destruct (decide (occ D coll_seats = 0)) as [H0|H0]; [by rewrite (occ_none _ _ H0 _ Hin) in Hs|].
      f_equal. apply u64_small. change (Z.of_nat (length coll_seats)) with 64 in Hb. lia.
    + rewrite decide_False by (intros [Ht _]%coll_seats_elem; done). rewrite lookup_insert_ne by congruence. other. rewrite Hn. f_equal. lia.
  - intros t' Ht. by apply is_Some_insert, is_Some_insert, Hns.
  - intros t' c Ht. by apply is_Some_insert, is_Some_insert, Hct.
  - intros st. by apply is_Some_insert, is_Some_insert.
Qed.

(** An own node is put into an empty seat; it is held. *)
Lemma table_seat m D l O nb t j e n : table None m D l (e_node e :: O) nb -> D !! (t, j) = None -> m !! ANcur t = Some n ->
  seat_ok (t, j) -> key_ok (e_key e) -> (t, j) ∈ coll_seats \/ (t, j) ∈ collect_hash_pos h (e_key e) ->
  (forall s' e', D !! s' = Some e' -> e_key e' <> e_key e) ->
  m !! AY (e_node e) = Some (e_key e).2 -> m !! AExp (e_node e) = Some (e_exp e) -> m !! AData (e_node e) = Some (e_data e) ->
  table (Some (e_node e)) (<[ANcur t := u64 (n + 1)]> (<[ASeat t j := e_node e]> m)) (<[(t, j) := e]> D) l O nb.
Proof.
  intros T Hs Hnc Hok Hkey Hpos Hfresh Hy He Hd. pose proof (nodes_insert D (t, j) e Hs) as Hnod.
  assert (Hnode : forall s' e', D !! s' = Some e' -> e_node e' <> e_node e).
  { intros s' e' Hs' Heq. destruct (tb_node T s' e' Hs') as (_ & _ & Hn). rewrite Heq in Hn. apply Hn. by left. }
  destruct T as [Hseat Hent Hx Hw Hu Hno Hma (cur & Hf & Hr & Hch) Hcu Hbl Hn Hns Hct Hst].
  assert (Hlook : forall s' e', <[(t, j) := e]> D !! s' = Some e' -> (s' = (t, j) /\ e' = e) \/ (s' <> (t, j) /\ D !! s' = Some e')).
  { intros s' e' [[<- <-]|[Hne Hs']]%lookup_insert_Some; [by left|right; split; [congruence|done]]. }
  split.
  - intros t' j' Ht. rewrite lookup_insert_ne by done. destruct (decide ((t, j) = (t', j'))) as [[= <- <-]|Hne].
    + by rewrite !lookup_insert_eq.
    + rewrite lookup_insert_ne by congruence. rewrite (lookup_insert_ne D) by done. by apply Hseat.
  - intros s' e' [[-> ->]|[_ Hs']]%Hlook; [done|by apply Hent].
  - intros s' e' [[-> ->]|[_ Hs']]%Hlook Hne; [done|]. other. by eapply Hx.
  - intros s' e' [[-> ->]|[_ Hs']]%Hlook; other; [done|by eapply Hw].
  - intros s1 s2 e1 e2 [[-> ->]|[_ H1]]%Hlook [[-> ->]|[_ H2]]%Hlook Hk; [done| | |by eapply Hu]; exfalso; [by apply (Hfresh _ _ H2)|by apply (Hfresh _ _ H1)].
  - rewrite Hnod, <- Hno. cbn. solve_Permutation.
  - intros x a Hx' Ha. by eapply is_Some_insert, is_Some_insert, Hma.
  - exists cur. other. split; [done|]. split; [done|]. apply free_chain_insert; [done|]. by apply free_chain_insert.
  - by other.
  - intros i Hi. other. by apply Hbl.
  - rewrite (occ_insert _ _ _ _ coll_seats_nodup) by done. destruct (decide (t = NMHT)) as [->|Hne].
    + rewrite lookup_insert_eq. rewrite Hn in Hnc. injection Hnc as <-. pose proof (occ_bound D coll_seats) as Hb.
      destruct Hok as [[? _]|[[? _]|Hin]]; [done|done|]. rewrite decide_True by done.
      f_equal. apply u64_small. change (Z.of_nat (length coll_seats)) with 64 in Hb. lia.
    + rewrite decide_False by (intros [Ht _]%coll_seats_elem; done). rewrite lookup_insert_ne by congruence. other. rewrite Hn. f_equal. lia.
  - intros t' Ht. by apply is_Some_insert, is_Some_insert, Hns.
  - intros t' c Ht. by apply is_Some_insert, is_Some_insert, Hct.
  - intros st. by apply is_Some_insert, is_Some_insert.
Qed.

(** The free list. *)
Lemma table_list H m D l O l' O' nb cur' : table H m D l O nb -> l ++ O ≡ₚ l' ++ O' -> 0 <= cur' < 2 ^ 64 ->
  chain m (lo32 cur') l' NNULL -> table H (<[AFree := cur']> m) D l' O' nb.
Proof.
  intros [Hseat Hent Hx Hw Hu Hno Hma _ Hcu Hbl Hn Hns Hct Hst] Hp Hr Hch. split; try done.
  - intros t j Ht. other. by apply Hseat.
  - intros s e Hs Hne. other. by eapply Hx.
  - intros s e Hs. other. by eapply Hw.
  - rewrite <- Hno, !app_assoc. by rewrite Hp.
  - intros x a Hx' Ha. by eapply is_Some_insert, Hma.
  - exists cur'. rewrite lookup_insert_eq. split; [done|]. split; [done|]. by apply free_chain_insert.
  - by other.
  - intros i Hi. other. by apply Hbl.
  - by other.
  - intros t' Ht. by apply is_Some_insert, Hns.
  - intros t' c Ht. by apply is_Some_insert, Hct.
  - intros st. by apply is_Some_insert.
Qed.

Lemma table_push H m D l O c head nb cur r : table H m D l (c ++ O) nb -> m !! AFree = Some cur -> c <> [] -> 0 <= r < 2 ^ 32 ->
  chain m head c (lo32 cur) -> table H (<[AFree := pack head r]> m) D (c ++ l) O nb.
Proof.
  intros T Hf Hne Hr Hc. assert (Hh : 0 <= head < NNULL).
  { destruct c as [|x c]; [done|]. destruct Hc as (-> & _). apply (tb_small T). rewrite !elem_of_app. right. left. left. by left. }
  unfold NNULL in Hh. apply (table_list _ _ _ l (c ++ O)); [done|rewrite !app_assoc; by rewrite (Permutation_app_comm l)|apply pack_range; [lia|done]|].
  rewrite lo32_pack by lia. destruct (tb_free _ _ _ _ _ _ T) as (cur' & Hf' & _ & Hch). rewrite Hf in Hf'. injection Hf' as <-. by eapply free_chain_app.
Qed.

Lemma table_pop H m D x l O nb v r : table H m D (x :: l) O nb -> m !! AX x = Some v -> 0 <= r < 2 ^ 32 ->
  table H (<[AFree := pack (lo32 v) r]> m) D l (x :: O) nb.
Proof.
  intros T Hx Hr. pose proof (lo32_range v) as Hlo.
  apply (table_list _ _ _ (x :: l) O); [done|solve_Permutation|by apply pack_range|].
  rewrite lo32_pack by done. destruct (tb_free _ _ _ _ _ _ T) as (cur & _ & _ & Hch). cbn in Hch.
  destruct Hch as (_ & _ & v' & Hv' & Hch). congruence.
Qed.

(** A new block: its nodes are the caller's. *)
Lemma zseq_block nb : 0 <= nb -> zseq ((nb + 1) * mask1 h) = zseq (nb * mask1 h) ++ block_ids h nb.
Proof using Hpool.
  intros Hb. pose proof (mask1_pos h Hpool). unfold zseq, block_ids.
  replace (Z.to_nat ((nb + 1) * mask1 h)) with (Z.to_nat (nb * mask1 h) + Z.to_nat (mask1 h))%nat by nia.
  rewrite seq_app, fmap_app. f_equal. cbn [Nat.add]. rewrite <- (Nat.add_0_r (Z.to_nat (nb * mask1 h))), <- fmap_add_seq, <- list_fmap_compose.
  apply list_fmap_ext. intros i x _. cbn. nia.
Qed.

Lemma table_block H m D l O nb : table H m D l O nb -> nb < maxb ->
  table H (<[ACurr := u64 (nb + 1)]> (publish_map h nb m)) D l (block_ids h nb ++ O) (nb + 1).
Proof.
  intros T Hlt. assert (Hids : forall x, x ∈ l ++ O ++ nodes D -> x ∉ block_ids h nb).
  { intros x Hx%(tb_id T) Hin%(elem_of_block_ids h Hpool). lia. }
  assert (Hold : forall x a, x ∈ l ++ O ++ nodes D -> a ∈ node_addrs x -> publish_map h nb m !! a = m !! a).
  { intros x a Hx Ha. unfold node_addrs in Ha. rewrite !elem_of_cons, elem_of_nil in Ha. rewrite publish_lookup.
    rewrite (decide_False (P := a ∈ _)).
    - rewrite decide_False; [done|]. naive_solver.
    - intros (y & Hy & Hay)%elem_of_block_words. apply (Hids x Hx). assert (x = y) as -> by naive_solver. done. }
  assert (Hoth : forall a, (forall x, a ∉ node_addrs x) -> a <> ABlk nb -> publish_map h nb m !! a = m !! a).
  { intros a Ha Hne. apply publish_other; [|done]. intros x. specialize (Ha x). unfold node_addrs in Ha. rewrite !not_elem_of_cons in Ha. tauto. }
  assert (Hnode : forall s e, D !! s = Some e -> e_node e ∈ l ++ O ++ nodes D).
  { intros s e Hs. rewrite !elem_of_app. destruct (tb_node T s e Hs) as [? _]. auto. }
  assert (Hnn : forall a, (match a with AX _ | AY _ | AExp _ | AData _ => False | _ => True end) -> forall x, a ∉ node_addrs x).
  { intros a Ha x Hin. unfold node_addrs in Hin. rewrite !elem_of_cons, elem_of_nil in Hin. destruct Hin as [->|[->|[->|[->|[]]]]]; done. }
  pose proof (po_small _ Hpool) as Hsm. pose proof (mask1_pos h Hpool) as Hm1.
  destruct T as [Hseat Hent Hx Hw Hu Hno Hma (cur & Hf & Hr & Hch) [Hcu Hb] Hbl Hn Hns Hct Hst].
  assert (Hsome : forall a, is_Some (m !! a) -> is_Some (<[ACurr := u64 (nb + 1)]> (publish_map h nb m) !! a)).
  { intros a Ha. apply is_Some_insert. rewrite publish_lookup. repeat case_decide; eauto. }
  split; try done.
  - intros t j Ht. other. rewrite Hoth; [by apply Hseat|by apply Hnn|done].
  - intros s e Hs Hne. other. rewrite (Hold (e_node e)); [by eapply Hx|by eapply Hnode|by left].
  - intros s e Hs. other. rewrite !(Hold (e_node e)); try (by eapply Hnode); [by eapply Hw|by do 3 right; left|by do 2 right; left|by right; left].
  - rewrite zseq_block by lia. rewrite <- Hno. solve_Permutation.
  - intros x a Hx' Ha. destruct (decide (x < nb * mask1 h)) as [Hl|Hge]; [apply Hsome, (Hma x); [lia|done]|].
    apply is_Some_insert. rewrite publish_lookup, decide_True; [eauto|]. apply elem_of_block_words. exists x.
    split; [apply elem_of_block_ids; [done|nia]|]. unfold node_addrs in Ha. rewrite !elem_of_cons, elem_of_nil in Ha. tauto.
  - exists cur. other. rewrite Hoth; [|by apply Hnn|done]. split; [done|]. split; [done|]. apply free_chain_insert; [done|]. apply (free_chain_frame m); [|done].
    intros x Hin. apply (Hold x); [apply elem_of_app; by left|by left].
  - rewrite lookup_insert_eq. split; [f_equal; apply u64_small; unfold NNULL, mask1 in *; nia|lia].
  - intros i Hi. other. destruct (decide (i = nb)) as [->|Hne].
    + rewrite publish_lookup, decide_False by (intros (y & _ & Hay)%elem_of_block_words; naive_solver). rewrite !decide_True by (done || lia). done.
    + rewrite Hoth; [|by apply Hnn|congruence]. rewrite Hbl by done. f_equal. by do 2 case_decide; lia || done.
  - other. rewrite Hoth; [done|by apply Hnn|done].
  - intros t' Ht. by apply Hsome, Hns.
  - intros t' c Ht. by apply Hsome, Hct.
  - intros st. by apply Hsome.
Qed.
End table.
