(* ===== verification/AtomicOps.v ===== *)
(** * The atomic hash: one thread, the functions

    A small program logic for one thread alone, and what the functions that get, free, hold,
    seat and remove nodes do to the state of the table. *)
From S2P Require Import Prelude CLib Conc AtomicHash FreeList AtomicTable.

#[local] Open Scope Z_scope.

Abbreviation log := (list (hook * Z)) (only parsing).

Section ops.
Context (h : htable) (Hpool : pool_ok (h_mp h)) (fuel : nat) (Hfuel : (0 < fuel)%nat).
Context (clock : nat -> Z) (answer : log -> hook -> Z -> Z).
#[local] Abbreviation maxb := (mp_max_blocks (h_mp h)).
#[local] Abbreviation table := (table h).

(** [p] run from memory [m], at the reading [c] of the clock, after the calls [lg], ends
    without a fault in [Q]. *)
Definition swp {A} (p : hprog A) (Q : A -> mem -> nat -> log -> Prop) (m : mem) (c : nat) (lg : log) : Prop :=
  match run clock answer p (World m c lg) with Ok (a, World m' c' lg') => Q a m' c' lg' | Fault _ => False end.

Lemma swp_ret {A} (a : A) (Q : A -> mem -> nat -> log -> Prop) m c lg : Q a m c lg -> swp (Ret a) Q m c lg.
Proof. done. Qed.

Lemma swp_bind {A B} (p : hprog A) (f : A -> hprog B) Q m c lg : swp p (fun a => swp (f a) Q) m c lg -> swp (p ≫= f) Q m c lg.
Proof. unfold swp. rewrite run_bind. destruct (run clock answer p _) as [[a [m' c' lg']]|]; done. Qed.

Lemma swp_mono {A} (p : hprog A) (Q Q' : A -> mem -> nat -> log -> Prop) m c lg :
  (forall a m c lg, Q a m c lg -> Q' a m c lg) -> swp p Q m c lg -> swp p Q' m c lg.
Proof. intros HQ. unfold swp. destruct (run clock answer p _) as [[a [m' c' lg']]|]; [apply HQ|done]. Qed.

Section access.
Context {A : Type} (k : Z -> hprog A) (Q : A -> mem -> nat -> log -> Prop) (m : mem) (c : nat) (lg : log).

Lemma swp_load a v : m !! a = Some v -> swp (k v) Q m c lg -> swp (Vis (Load a) k) Q m c lg.
Proof using. intros Ha. unfold swp. cbn [run handle]. unfold word. cbn [w_mem]. by rewrite Ha. Qed.

Lemma swp_load_lo a v : m !! a = Some v -> swp (k (lo32 v)) Q m c lg -> swp (Vis (LoadLo a) k) Q m c lg.
Proof using. intros Ha. unfold swp. cbn [run handle]. unfold word. cbn [w_mem]. by rewrite Ha. Qed.

Lemma swp_store a v : is_Some (m !! a) -> swp (k 0) Q (<[a := v]> m) c lg -> swp (Vis (Store a v) k) Q m c lg.
Proof using. intros [x Ha]. unfold swp. cbn [run handle]. unfold word. cbn [w_mem]. by rewrite Ha. Qed.

Lemma swp_store_lo a x v : m !! a = Some x -> swp (k 0) Q (<[a := pack (lo32 v) (hi32 x)]> m) c lg -> swp (Vis (StoreLo a v) k) Q m c lg.
Proof using. intros Ha. unfold swp. cbn [run handle]. unfold word. cbn [w_mem]. by rewrite Ha. Qed.

Lemma swp_store_hi a x v : m !! a = Some x -> swp (k 0) Q (<[a := pack (lo32 x) (lo32 v)]> m) c lg -> swp (Vis (StoreHi a v) k) Q m c lg.
Proof using. intros Ha. unfold swp. cbn [run handle]. unfold word. cbn [w_mem]. by rewrite Ha. Qed.

Lemma swp_cas a v new : m !! a = Some v -> swp (k 1) Q (<[a := new]> m) c lg -> swp (Vis (Cas a v new) k) Q m c lg.
Proof using. intros Ha. unfold swp. cbn [run handle]. unfold word. cbn [w_mem]. rewrite Ha. cbn. by rewrite decide_True. Qed.

Lemma swp_cas_no a v old new : m !! a = Some v -> v <> old -> swp (k 0) Q m c lg -> swp (Vis (Cas a old new) k) Q m c lg.
Proof using. intros Ha Hne. unfold swp. cbn [run handle]. unfold word. cbn [w_mem]. rewrite Ha. cbn. by rewrite decide_False. Qed.

Lemma swp_add a v d : m !! a = Some v -> swp (k v) Q (<[a := u64 (v + d)]> m) c lg -> swp (Vis (Add a d) k) Q m c lg.
Proof using. intros Ha. unfold swp. cbn [run handle]. unfold word. cbn [w_mem]. by rewrite Ha. Qed.

Lemma swp_publish i : m !! ABlk i = Some 0 -> swp (k 1) Q (publish_map h i m) c lg -> swp (Vis (Publish (ABlk i) (block_words h i)) k) Q m c lg.
Proof using. intros Ha. unfold swp. cbn [run handle]. unfold word. cbn [w_mem]. by rewrite Ha. Qed.

Lemma swp_now : swp (k (clock c)) Q m (S c) lg -> swp (Vis Now k) Q m c lg.
Proof using. done. Qed.

Lemma swp_call f d : swp (k (answer lg f d)) Q m c ((f, d) :: lg) -> swp (Vis (Call f d) k) Q m c lg.
Proof using. done. Qed.
End access.

(** ** The free list *)
Lemma swp_push_free (Q : unit -> mem -> nat -> log -> Prop) H m D l O c nb node head n lg :
  table H m D l ((c ++ [node]) ++ O) nb -> node ∉ c -> chain m head c node ->
  (forall m', table H m' D ((c ++ [node]) ++ l) O nb -> Q tt m' n lg) -> swp (push_free fuel node head) Q m n lg.
Proof using Hpool Hfuel.
  intros T Hnc Hch HQ. unfold push_free. destruct fuel as [|f]; [lia|]. cbn [while].
  destruct (tb_free _ _ _ _ _ _ _ T) as (cur & Hf & Hr & _).
  assert (HinO : node ∈ (c ++ [node]) ++ O) by (rewrite !elem_of_app; left; right; by left).
  assert (Hid : node ∈ l ++ ((c ++ [node]) ++ O) ++ nodes D) by (rewrite !elem_of_app in *; tauto).
  destruct (tb_mapped _ _ _ _ _ _ _ T node (AX node)) as [v Hv]; [by apply (tb_id h T)|by left|].
  apply (swp_load _ _ _ _ _ _ cur); [done|]. apply (swp_store_lo _ _ _ _ _ _ v); [done|].
  set (m1 := <[AX node := pack (lo32 (lo32 cur)) (hi32 v)]> m). assert (Hf1 : m1 !! AFree = Some cur) by (unfold m1; by rewrite lookup_insert_ne).
  apply swp_cas; [done|]. apply HQ. apply (table_push h Hpool _ _ _ _ _ _ _ _ cur); [|done|by destruct c|apply Z.mod_pos_bound; lia|].
  - apply (table_own h T node); [done|by left].
  - eapply free_chain_app; [apply free_chain_insert; [|exact Hch]; by intros x Hx [= ->]|]. cbn. split; [done|].
    split; [pose proof (tb_small h Hpool T node Hid); lia|]. eexists. split; [apply lookup_insert_eq|].
    rewrite lo32_pack by apply lo32_range. apply Z.mod_small, lo32_range.
Qed.

Lemma swp_free_node (Q : unit -> mem -> nat -> log -> Prop) H m D l O nb x n lg : table H m D l (x :: O) nb ->
  (forall m', table H m' D (x :: l) O nb -> Q tt m' n lg) -> swp (free_node fuel x) Q m n lg.
Proof using Hpool Hfuel.
  intros T HQ. unfold free_node. assert (Hid : x ∈ l ++ (x :: O) ++ nodes D) by (rewrite !elem_of_app; right; left; by left).
  destruct (tb_mapped _ _ _ _ _ _ _ T x (AX x)) as [v Hv]; [by apply (tb_id h T)|by left|].
  apply (swp_store_hi _ _ _ _ _ _ v); [done|]. apply (swp_push_free Q H _ D l O [] nb x x).
  - by apply (table_own h T x); left.
  - by apply not_elem_of_nil.
  - done.
  - apply HQ.
Qed.

Lemma swp_memset_node (Q : unit -> mem -> nat -> log -> Prop) H m D l O nb x n lg : table H m D l (x :: O) nb ->
  (forall m', table H m' D l (x :: O) nb -> Q tt m' n lg) -> swp (memset_node x) Q m n lg.
Proof using.
  intros T HQ. unfold memset_node.
  assert (Hst : forall m a, table H m D l (x :: O) nb -> a ∈ node_addrs x -> is_Some (m !! a) /\ table H (<[a := 0]> m) D l (x :: O) nb).
  { intros m1 a T1 Ha. split; [|by apply (table_own h T1 x); [left|]]. eapply (tb_mapped _ _ _ _ _ _ _ T1 x); [|done].
    apply (tb_id h T1). rewrite !elem_of_app. right. left. by left. }
  destruct (Hst _ (AX x) T) as [H1 T1]; [by left|]. apply swp_store; [done|].
  destruct (Hst _ (AY x) T1) as [H2 T2]; [by right; left|]. apply swp_store; [done|].
  destruct (Hst _ (AExp x) T2) as [H3 T3]; [by do 2 right; left|]. apply swp_store; [done|].
  destruct (Hst _ (AData x) T3) as [H4 T4]; [by do 3 right; left|]. apply swp_store; [done|]. by apply HQ.
Qed.

(** Linking the nodes of a new block. *)
Lemma swp_init (Q : unit -> mem -> nat -> log -> Prop) H m D l O nb head n j c lg :
  table H m D l O nb -> 0 <= head -> head + Z.of_nat (j + n) < NNULL -> (forall k, (k < j + n)%nat -> head + Z.of_nat k ∈ O) ->
  linked head j m -> (forall m', table H m' D l O nb -> linked head (j + n) m' -> Q tt m' c lg) ->
  swp (prog_iter (fun k => store_lo (AX (head + Z.of_nat k)) (head + Z.of_nat k + 1)) (seq j n)) Q m c lg.
Proof.
  intros T H0 Hs. revert j m T Hs. induction n as [|n IH]; intros j m T Hs HO Hl HQ.
  - rewrite Nat.add_0_r in *. by apply HQ.
  - cbn [seq prog_iter]. assert (Hj : head + Z.of_nat j ∈ O) by (apply HO; lia).
    destruct (tb_mapped _ _ _ _ _ _ _ T (head + Z.of_nat j) (AX (head + Z.of_nat j))) as [v Hv];
      [apply (tb_id h T); rewrite !elem_of_app; auto|by left|].
    apply (swp_store_lo _ _ _ _ _ _ v); [done|].
    apply IH; [by apply (table_own h T (head + Z.of_nat j)); [|left]|lia|intros k Hk; apply HO; lia| |by rewrite <- Nat.add_succ_comm in HQ].
    intros k Hk. destruct (decide (k = j)) as [->|Hne].
    + eexists. split; [apply lookup_insert_eq|]. rewrite lo32_pack by apply lo32_range. apply Z.mod_small. unfold NNULL in Hs. lia.
    + rewrite lookup_insert_ne by (intros [=]; lia). apply Hl. lia.
Qed.

(** The call of [calloc] that asks for a block. *)
Definition calloc_call : hook * Z := (CALLOC, mp_blk_node_num (h_mp h) * mp_node_size (h_mp h)).
Definition no_block (lg : log) (nb : Z) : Prop := answer lg CALLOC calloc_call.2 = 0 \/ nb = maxb.

Lemma swp_new_mem_block (Q : bool -> mem -> nat -> log -> Prop) H m D l O nb c lg : table H m D l O nb ->
  (no_block lg nb -> Q false m c (calloc_call :: lg)) ->
  (forall m', table H m' D (block_ids h nb ++ l) O (nb + 1) -> Q true m' c (calloc_call :: lg)) ->
  swp (new_mem_block h fuel) Q m c lg.
Proof using Hpool Hfuel.
  intros T Hno Hyes. unfold new_mem_block. apply swp_call. destruct (decide (answer lg CALLOC _ = 0)) as [H0|H0].
  { apply swp_ret, Hno. by left. }
  destruct (tb_curr _ _ _ _ _ _ _ T) as [Hcur Hb]. apply (swp_load _ _ _ _ _ _ nb); [done|].
  apply swp_bind. destruct (decide (nb = maxb)) as [Hm|Hm].
  { replace (Z.to_nat (maxb - nb)) with 0%nat by lia. apply swp_ret, Hno. by right. }
  replace (Z.to_nat (maxb - nb)) with (S (Z.to_nat (maxb - nb - 1))) by lia. cbn [find_block].
  pose proof (tb_blk _ _ _ _ _ _ _ T nb ltac:(lia)) as Hblk. rewrite decide_False in Hblk by lia. apply swp_publish; [done|].
  apply (swp_add _ _ _ _ _ _ nb); [by rewrite publish_other|]. apply swp_ret. cbv zeta.
  pose proof (table_block h Hpool _ _ _ _ _ _ T ltac:(lia)) as T1. set (m1 := <[ACurr := u64 (nb + 1)]> (publish_map h nb m)) in *.
  pose proof (po_mask _ Hpool) as Hmask. pose proof (po_small _ Hpool) as Hsmall.
  assert (Hbd : nb * mask1 h + mask1 h < NNULL) by (unfold mask1; nia). assert (Hh0 : 0 <= nb * mask1 h) by (unfold mask1; nia).
  replace (u32 (nb * (mp_mask (h_mp h) + 1))) with (nb * mask1 h) by (unfold mask1 in *; rewrite u32_small; [done|unfold NNULL in Hbd; nia]).
  set (head := nb * mask1 h) in *. set (O1 := block_ids h nb ++ O) in *.
  assert (Hown : forall k, (k <= Z.to_nat (mp_mask (h_mp h)))%nat -> head + Z.of_nat k ∈ O1).
  { intros k Hk. apply elem_of_app. left. apply elem_of_block_ids; [done|]. unfold mask1 in *. lia. }
  assert (Hlast : head + mp_mask (h_mp h) ∈ O1) by (replace (mp_mask (h_mp h)) with (Z.of_nat (Z.to_nat (mp_mask (h_mp h)))) by lia; by apply Hown).
  apply swp_bind. apply (swp_init _ H _ D l O1 (nb + 1)); [done|done|unfold mask1 in *; lia|intros k Hk; apply Hown; lia|by intros k Hk; lia|].
  cbn [Nat.add]. intros m2 T2 Hl2.
  assert (Hst : forall m1, table H m1 D l O1 (nb + 1) -> exists v, m1 !! AX (head + mp_mask (h_mp h)) = Some v).
  { intros m3 T3. apply (tb_mapped _ _ _ _ _ _ _ T3 (head + mp_mask (h_mp h))); [|by left]. apply (tb_id h T3). rewrite !elem_of_app. auto. }
  destruct (Hst _ T2) as [v Hv]. apply (swp_store_lo _ _ _ _ _ _ v); [done|].
  pose proof (table_own h T2 _ (AX (head + mp_mask (h_mp h))) (pack (lo32 NNULL) (hi32 v)) Hlast ltac:(by left)) as T3.
  destruct (Hst _ T3) as [v3 Hv3]. apply (swp_store_hi _ _ _ _ _ _ v3); [done|].
  pose proof (table_own h T3 _ (AX (head + mp_mask (h_mp h))) (pack (lo32 v3) (lo32 0)) Hlast ltac:(by left)) as T4.
  unfold O1 in T4. rewrite (block_ids_split h Hpool nb) in T4. fold head in T4.
  apply swp_bind. apply (swp_push_free _ _ _ _ _ _ _ _ _ _ _ _ T4).
  - intros (k & Hk & Hks%elem_of_seq)%list_elem_of_fmap. lia.
  - replace head with (head + Z.of_nat 0) at 3 by lia.
    replace (head + mp_mask (h_mp h)) with (head + Z.of_nat (0 + Z.to_nat (mp_mask (h_mp h)))) at 3 by lia.
    apply linked_chain; [unfold mask1 in *; lia|]. intros k Hk. cbn in Hk. rewrite !lookup_insert_ne by (intros [=]; lia). by apply Hl2.
  - intros m5 T5. apply swp_ret, Hyes. unfold head in T5. by rewrite <- (block_ids_split h Hpool nb) in T5.
Qed.

Definition calloc_calls (L : log) : Prop := L = [] \/ L = [calloc_call].

Lemma swp_new_node (Q : Z -> mem -> nat -> log -> Prop) H m D l O nb c lg : table H m D l O nb ->
  (l = [] -> no_block lg nb -> forall m', table H m' D [] O nb -> Q NNULL m' c (calloc_call :: lg)) ->
  (forall x m' l' nb' L, calloc_calls L -> table H m' D l' (x :: O) nb' -> x <> NNULL -> Q x m' c (L ++ lg)) ->
  swp (new_node h fuel) Q m c lg.
Proof using Hpool Hfuel.
  intros T Hno Hyes. unfold new_node.
  replace (new_node_loop h fuel fuel) with (new_node_loop h fuel (S (pred fuel))) by (f_equal; lia).
  generalize (pred fuel) as f. intros f. cbn [new_node_loop].
  assert (Hpop : forall m x l nb (k : bool -> hprog Z) L, table H m D (x :: l) O nb -> calloc_calls L -> swp
    (n0 ← load AFree;
     if decide (lo32 n0 = NNULL) then new_node_loop h fuel f
     else next ← load_lo (AX (lo32 n0)); ok ← cas AFree n0 (pack next (u32 (hi32 n0 + 1)));
          if (ok : bool) then mret (lo32 n0) else new_node_loop h fuel f) Q m c (L ++ lg)).
  { clear m l nb T Hno. intros m x l nb _ L T HL. destruct (tb_free _ _ _ _ _ _ _ T) as (cur & Hfr & Hr & Hch). cbn in Hch.
    destruct Hch as (Hlo & Hx & v & Hv & Hch). apply (swp_load _ _ _ _ _ _ cur); [done|]. rewrite Hlo.
    rewrite (decide_False (P := x = NNULL)) by done. apply (swp_load_lo _ _ _ _ _ _ v); [done|]. apply swp_cas; [done|].
    apply swp_ret. apply (Hyes x _ l nb); [done| |done]. apply (table_pop h H m D x); [done|done|]. apply Z.mod_pos_bound. lia. }
  destruct (tb_free _ _ _ _ _ _ _ T) as (cur & Hfr & Hr & Hch). apply (swp_load_lo _ _ _ _ _ _ cur); [done|].
  destruct l as [|x l].
  - cbn in Hch. rewrite decide_False by (rewrite Hch; auto). apply swp_bind. eapply swp_new_mem_block; [exact T| |].
    + intros Hnb. destruct (tb_stat _ _ _ _ _ _ _ T ADD_NOMEM) as [s Hs]. apply (swp_add _ _ _ _ _ _ s); [done|].
      apply swp_ret, Hno; [done|done|]. apply (table_put h T). by intros [].
    + intros m' T'. destruct (block_ids h nb) as [|x l'] eqn:Hids.
      { exfalso. pose proof (mask1_pos h Hpool). assert (Hin : nb * mask1 h ∈ block_ids h nb) by (apply elem_of_block_ids; [done|lia]). rewrite Hids in Hin. by apply elem_of_nil in Hin. }
      apply (Hpop m' x (l' ++ []) (nb + 1) (fun _ => mret 0) [calloc_call]); [exact T'|by right].
  - destruct Hch as (Hlo & Hx & _). rewrite decide_True by (rewrite Hlo; done).
    apply (Hpop m x l nb (fun _ => mret 0) []); [done|by left].
Qed.

(** ** Holding *)
Lemma swp_hold (Q : bool -> mem -> nat -> log -> Prop) m D l O nb s e c lg : table None m D l O nb -> D !! s = Some e ->
  (table (Some (e_node e)) (<[AX (e_node e) := 0]> m) D l O nb -> Q true (<[AX (e_node e) := 0]> m) c lg) ->
  swp (hold_bucket fuel (e_node e) (e_key e)) Q m c lg.
Proof.
  intros T Hs HQ. unfold hold_bucket. apply swp_bind. destruct fuel as [|f]; [lia|]. cbn [hold_loop].
  destruct (tb_entry _ _ _ _ _ _ _ T _ _ Hs) as (_ & Hk & _). destruct (tb_words _ _ _ _ _ _ _ T _ _ Hs) as (Hy & _ & _).
  apply (swp_cas _ _ _ _ _ (AX (e_node e)) (e_key e).1); [by apply (tb_x _ _ _ _ _ _ _ T _ _ Hs)|]. apply swp_ret.
  assert (Hy' : <[AX (e_node e) := 0]> m !! AY (e_node e) = Some (e_key e).2) by by rewrite lookup_insert_ne.
  apply (swp_load _ _ _ _ _ _ (e_key e).2); [done|]. apply swp_bind. rewrite decide_False by (intros Hne; by apply Hne).
  apply (swp_load _ _ _ _ _ _ (e_key e).2); [done|]. apply swp_ret. rewrite bool_decide_false by (destruct Hk; lia). apply swp_ret, HQ.
  apply (table_put h (table_held h T (e_node e) eq_refl)). cbn. intros [Hl|[_ Hn]]; [|done]. by destruct (tb_node h T s e Hs) as (_ & ? & _).
Qed.

Lemma swp_hold_other (Q : bool -> mem -> nat -> log -> Prop) m D l O nb s e v c lg : table None m D l O nb -> D !! s = Some e ->
  (e_key e).1 <> v.1 -> Q false m c lg -> swp (hold_bucket fuel (e_node e) v) Q m c lg.
Proof.
  intros T Hs Hne HQ. unfold hold_bucket. apply swp_bind. destruct fuel as [|f]; [lia|]. cbn [hold_loop].
  assert (Hx : m !! AX (e_node e) = Some (e_key e).1) by (by apply (tb_x _ _ _ _ _ _ _ T _ _ Hs)).
  apply (swp_cas_no _ _ _ _ _ _ (e_key e).1); [done|done|]. apply (swp_load _ _ _ _ _ _ (e_key e).1); [done|].
  rewrite decide_True by done. by apply swp_ret.
Qed.

Lemma swp_unhold (Q : unit -> mem -> nat -> log -> Prop) m D l O nb s e c lg : table (Some (e_node e)) m D l O nb -> D !! s = Some e ->
  m !! AX (e_node e) = Some 0 -> (forall m', table None m' D l O nb -> Q tt m' c lg) ->
  swp (unhold_bucket fuel (e_node e) (e_key e).1) Q m c lg.
Proof.
  intros T Hs Hx HQ. unfold unhold_bucket. destruct fuel as [|f]; [lia|]. cbn [while].
  destruct (tb_entry _ _ _ _ _ _ _ T _ _ Hs) as (_ & Hk & _). destruct (tb_words _ _ _ _ _ _ _ T _ _ Hs) as (Hy & _ & _).
  apply (swp_load _ _ _ _ _ _ (e_key e).2); [done|]. apply swp_bind. rewrite decide_False by (destruct Hk; lia).
  apply swp_cas; [done|]. apply swp_ret. apply swp_ret, HQ.
  assert (T' : table (Some (e_node e)) (<[AX (e_node e) := (e_key e).1]> m) D l O nb).
  { apply (table_put h T). cbn. intros [Hl|[_ Hn]]; [|done]. by destruct (tb_node h T s e Hs) as (_ & ? & _). }
  apply (table_let_go h T' s e); [done|done|apply lookup_insert_eq].
Qed.

(** ** Expiry times *)
Definition live (tnow : Z) (exp : Z) : Prop := exp = 0 \/ tnow < exp.

(** The expiry time after a hook has answered [r], at the reading [t] of the clock. *)
Definition ttl_after (r t exp : Z) : Z :=
  let r := if decide (r = PLEASE_SET_TTL_TO_DEFAULT) then i32 (h_reset_expire h) else r in
  if decide (0 < exp /\ 0 < r) then u64 (r + t) else exp.

Lemma with_exp_id e : with_exp e (e_exp e) = e.
Proof. by destruct e. Qed.

Lemma swp_change_ttl (Q : unit -> mem -> nat -> log -> Prop) H m D l O nb s e r c lg : table H m D l O nb -> D !! s = Some e ->
  (forall m' c', table H m' (<[s := with_exp e (ttl_after r (clock c) (e_exp e))]> D) l O nb -> m' !! AX (e_node e) = m !! AX (e_node e) -> Q tt m' c' lg) ->
  swp (change_ttl h (e_node e) r) Q m c lg.
Proof.
  intros T Hs HQ. unfold change_ttl. destruct (tb_words _ _ _ _ _ _ _ T _ _ Hs) as (_ & He & _).
  apply (swp_load _ _ _ _ _ _ (e_exp e)); [done|]. unfold ttl_after in HQ.
  destruct (decide (0 < e_exp e /\ 0 < if decide (r = PLEASE_SET_TTL_TO_DEFAULT) then i32 (h_reset_expire h) else r)) as [Hd|Hd].
  - apply swp_now, swp_store; [eauto|]. apply swp_ret, HQ; [by apply table_exp|by rewrite lookup_insert_ne].
  - apply swp_ret, HQ; [|done]. by rewrite with_exp_id, insert_id.
Qed.

(** ** Removing *)
Lemma ncur_some H m D l O nb s e : table H m D l O nb -> D !! s = Some e -> exists n, m !! ANcur s.1 = Some n.
Proof. intros T Hs. destruct (tb_entry _ _ _ _ _ _ _ T _ _ Hs) as (Hok & _). apply (tb_ncurs _ _ _ _ _ _ _ T). by eapply seat_ok_range. Qed.

Lemma seat_word H m D l O nb t j e : table H m D l O nb -> D !! (t, j) = Some e -> m !! ASeat t j = Some (e_node e).
Proof. intros T Hs. destruct (tb_entry _ _ _ _ _ _ _ T _ _ Hs) as (Hok & _). rewrite (tb_seat _ _ _ _ _ _ _ T) by done. by rewrite Hs. Qed.

Lemma swp_unseat (Q : unit -> mem -> nat -> log -> Prop) m D l O nb t j e c lg : table (Some (e_node e)) m D l O nb -> D !! (t, j) = Some e ->
  (forall m', table None m' (delete (t, j) D) l (e_node e :: O) nb -> Q tt m' c lg) -> swp (unseat t j (e_node e)) Q m c lg.
Proof.
  intros T Hs HQ. unfold unseat. destruct (ncur_some _ _ _ _ _ _ _ _ T Hs) as [n Hn].
  apply swp_cas; [by eapply seat_word|]. apply swp_bind. cbn [fst] in Hn. apply (swp_add _ _ _ _ _ _ n); [by rewrite lookup_insert_ne|].
  apply swp_ret. eapply swp_memset_node; [|exact HQ]. by apply table_unseat.
Qed.

(** The nodes the caller of [valid_ttl] has taken over. *)
Definition own (ni : Z) : list Z := if decide (ni = NNULL) then [] else [ni].
Definition ttl_calls (e : entry) : log := if h_on_ttl h then [(ON_TTL, e_data e)] else [].

Lemma swp_valid_ttl (Q : bool * Z -> mem -> nat -> log -> Prop) m D l nb t j e tnow keep ni c lg :
  table None m D l (own ni) nb -> D !! (t, j) = Some e -> (live tnow (e_exp e) -> Q (true, ni) m c lg) ->
  (~ live tnow (e_exp e) -> forall m' l' ni', (keep = false -> ni' = ni) -> (keep = true -> ni' <> NNULL) -> table None m' (delete (t, j) D) l' (own ni') nb -> Q (false, ni') m' c (ttl_calls e ++ lg)) ->
  swp (valid_ttl h fuel tnow t j (e_node e) keep ni) Q m c lg.
Proof.
  intros T Hs Hlive Hdead. unfold valid_ttl. destruct (tb_words _ _ _ _ _ _ _ T _ _ Hs) as (Hy & He & Hd).
  destruct (tb_entry _ _ _ _ _ _ _ T _ _ Hs) as (_ & Hk & _). pose proof (tb_x _ _ _ _ _ _ _ T _ _ Hs ltac:(done)) as Hx.
  apply (swp_load _ _ _ _ _ _ (e_exp e)); [done|]. destruct (decide (e_exp e = 0 \/ tnow < e_exp e)) as [Hv|Hv]; [by apply swp_ret, Hlive|].
  apply (swp_load _ _ _ _ _ _ (e_key e).1); [done|]. apply (swp_load _ _ _ _ _ _ (e_key e).2); [done|].
  rewrite decide_False by (destruct Hk; lia). apply swp_bind. rewrite <- surjective_pairing. apply (swp_hold _ _ _ _ _ _ _ _ _ _ T Hs). intros T1.
  set (m1 := <[AX (e_node e) := 0]> m) in *. destruct (tb_words _ _ _ _ _ _ _ T1 _ _ Hs) as (_ & He1 & _).
  apply (swp_load _ _ _ _ _ _ (e_exp e)); [done|]. apply swp_bind. rewrite decide_False by tauto.
  apply (swp_load _ _ _ _ _ _ (e_exp e)); [done|]. apply swp_ret. rewrite bool_decide_false by tauto.
  destruct (ncur_some _ _ _ _ _ _ _ _ T1 Hs) as [n Hn]. cbn [fst] in Hn. pose proof (seat_word _ _ _ _ _ _ _ _ _ T1 Hs) as Hseat.
  apply (swp_load _ _ _ _ _ _ (e_node e)); [done|]. apply swp_bind. rewrite decide_False by (intros Hne; by apply Hne).
  apply swp_cas; [done|]. apply swp_ret. apply (swp_add _ _ _ _ _ _ n); [by rewrite lookup_insert_ne|].
  pose proof (table_unseat _ _ _ _ _ _ _ _ _ _ T1 Hs Hn) as T2. set (m2 := <[ANcur t := _]> _) in *.
  assert (Hd2 : m2 !! AData (e_node e) = Some (e_data e)) by (unfold m2, m1; by rewrite !lookup_insert_ne).
  apply (swp_load _ _ _ _ _ _ (e_data e)); [done|]. apply swp_bind. apply (swp_memset_node _ _ _ _ _ _ _ _ _ _ T2). intros m3 T3.
  destruct (tb_stat _ _ _ _ _ _ _ T3 EXPIRES) as [x Hx3]. apply (swp_add _ _ _ _ _ _ x); [done|].
  assert (T4 : table None (<[AStat EXPIRES := u64 (x + 1)]> m3) (delete (t, j) D) l (e_node e :: own ni) nb) by (apply (table_put h T3); by intros []).
  pose proof (tb_node_small h Hpool T _ _ Hs) as Hsmall. pose proof (Hdead Hv) as Hend. clear Hdead Hlive.
  assert (Hlog : forall m' ni' l', (keep = false -> ni' = ni) -> (keep = true -> ni' <> NNULL) -> table None m' (delete (t, j) D) l' (own ni') nb ->
    swp (_ ← (if h_on_ttl h then (_ ← call ON_TTL (e_data e); mret tt) else mret tt); mret (false, ni')) Q m' c lg).
  { intros m' ni' l' Hk' Hk2 T'. pose proof (Hend m' l' ni' Hk' Hk2 T') as HQ. unfold ttl_calls in HQ. apply swp_bind.
    destruct (h_on_ttl h); [apply swp_call|]; by apply swp_ret, swp_ret. }
  apply swp_bind. destruct (decide (keep = true /\ ni = NNULL)) as [[-> ->]|Hkeep].
  - apply swp_ret, (Hlog _ _ l); [done|lia|]. unfold own in *. rewrite decide_True in T4 by done. by rewrite decide_False by lia.
  - apply swp_bind. apply (swp_free_node _ _ _ _ _ _ _ _ _ _ T4). intros m5 T5. apply swp_ret, (Hlog _ _ (e_node e :: l)); [done|naive_solver|done].
Qed.

(** ** Actions *)
(** The entries after a hook has answered [r] about the entry [e] in [s]. *)
Definition after_hook (r : Z) (t : Z) (D : seats) (s : seat) (e : entry) : seats :=
  if decide (r = PLEASE_REMOVE_HASH_NODE) then delete s D else <[s := with_exp e (ttl_after r t (e_exp e))]> D.

Lemma swp_add_ctr {A} (k : Z -> hprog A) (Q : A -> mem -> nat -> log -> Prop) H m D l O nb t x c lg : table H m D l O nb -> 0 <= t <= 2 ->
  (forall m', table H m' D l O nb -> (forall y, m' !! AX y = m !! AX y) -> swp (k (default 0 (m !! ACtr t x))) Q m' c lg) ->
  swp (Vis (Add (ACtr t x) 1) k) Q m c lg.
Proof.
  intros T Ht HQ. destruct (tb_ctr _ _ _ _ _ _ _ T t x Ht) as [v Hv]. rewrite Hv in HQ. apply (swp_add _ _ _ _ _ _ v); [done|].
  apply HQ; [apply (table_put h T); by intros []|intros y; by rewrite lookup_insert_ne].
Qed.

Lemma swp_try_hit (Q : bool -> mem -> nat -> log -> Prop) m D l O nb t j e hk ct cbf c lg : table None m D l O nb -> D !! (t, j) = Some e ->
  (forall m' l' c', table None m' (after_hook (answer lg (the_hook cbf hk) (e_data e)) (clock c) D (t, j) e) l' O nb ->
    Q true m' c' ((the_hook cbf hk, e_data e) :: lg)) ->
  swp (try_hit h fuel hk ct (e_key e) t j (e_node e) cbf) Q m c lg.
Proof.
  intros T Hs HQ. unfold try_hit. destruct (tb_words _ _ _ _ _ _ _ T _ _ Hs) as (_ & _ & Hd).
  destruct (tb_entry _ _ _ _ _ _ _ T _ _ Hs) as (Hok%seat_ok_range & _). cbn [fst] in Hok.
  apply swp_bind. apply (swp_hold _ _ _ _ _ _ _ _ _ _ T Hs). intros T1.
  apply (swp_load _ _ _ _ _ _ (e_node e)); [by eapply seat_word|]. rewrite decide_False by (intros Hne; by apply Hne).
  apply (swp_load _ _ _ _ _ _ (e_data e)); [by rewrite lookup_insert_ne|]. apply swp_call. unfold after_hook in HQ.
  destruct (decide (answer lg (the_hook cbf hk) (e_data e) = PLEASE_REMOVE_HASH_NODE)).
  - apply swp_bind. apply (swp_unseat _ _ _ _ _ _ _ _ _ _ _ T1 Hs). intros m2 T2.
    apply (swp_add_ctr _ _ _ _ _ _ _ _ _ _ _ _ T2 Hok). intros m3 T3 _.
    apply swp_bind. apply (swp_free_node _ _ _ _ _ _ _ _ _ _ T3). intros m4 T4. by apply swp_ret, (HQ _ (e_node e :: l)).
  - apply swp_bind. apply (swp_change_ttl _ _ _ _ _ _ _ _ _ _ _ _ T1 Hs). intros m2 c2 T2 Hx2.
    apply swp_bind. set (e' := with_exp e _) in *. change (e_key e) with (e_key e'). change (e_node e) with (e_node e') in T2 |- *.
    apply (swp_unhold _ _ _ _ _ _ (t, j) e' _ _ T2); [apply lookup_insert_eq|cbn [e' with_exp e_node]; rewrite Hx2; apply lookup_insert_eq|].
    intros m3 T3. apply (swp_add_ctr _ _ _ _ _ _ _ _ _ _ _ _ T3 Hok). intros m4 T4 _. by apply swp_ret, (HQ _ l).
Qed.

Lemma swp_try_hit_other (Q : bool -> mem -> nat -> log -> Prop) m D l O nb t j e hk ct v cbf c lg : table None m D l O nb -> D !! (t, j) = Some e ->
  (e_key e).1 <> v.1 -> Q false m c lg -> swp (try_hit h fuel hk ct v t j (e_node e) cbf) Q m c lg.
Proof. intros T Hs Hne HQ. unfold try_hit. apply swp_bind. apply (swp_hold_other _ _ _ _ _ _ _ _ _ _ _ T Hs Hne). by apply swp_ret. Qed.

Lemma swp_try_del (Q : bool -> mem -> nat -> log -> Prop) m D l O nb t j e cbf c lg : table None m D l O nb -> D !! (t, j) = Some e ->
  (forall m' l', table None m' (delete (t, j) D) l' O nb -> Q true m' c ((the_hook cbf ON_DEL, e_data e) :: lg)) ->
  swp (try_del fuel (e_key e) t j (e_node e) cbf) Q m c lg.
Proof.
  intros T Hs HQ. unfold try_del. destruct (tb_words _ _ _ _ _ _ _ T _ _ Hs) as (_ & _ & Hd).
  destruct (tb_entry _ _ _ _ _ _ _ T _ _ Hs) as (Hok%seat_ok_range & _). cbn [fst] in Hok.
  apply swp_bind. apply (swp_hold _ _ _ _ _ _ _ _ _ _ T Hs). intros T1. set (m1 := <[AX (e_node e) := 0]> m) in *.
  destruct (ncur_some _ _ _ _ _ _ _ _ T1 Hs) as [n Hn]. cbn [fst] in Hn. pose proof (seat_word _ _ _ _ _ _ _ _ _ T1 Hs) as Hseat.
  apply (swp_load _ _ _ _ _ _ (e_node e)); [done|]. apply swp_bind. rewrite decide_False by (intros Hne; by apply Hne).
  apply swp_cas; [done|]. apply swp_ret. apply (swp_add _ _ _ _ _ _ n); [by rewrite lookup_insert_ne|].
  pose proof (table_unseat _ _ _ _ _ _ _ _ _ _ T1 Hs Hn) as T2. set (m2 := <[ANcur t := _]> _) in *.
  apply (swp_load _ _ _ _ _ _ (e_data e)); [unfold m2, m1; by rewrite !lookup_insert_ne|].
  apply swp_bind. apply (swp_memset_node _ _ _ _ _ _ _ _ _ _ T2). intros m3 T3.
  apply (swp_add_ctr _ _ _ _ _ _ _ _ _ _ _ _ T3 Hok). intros m4 T4 _.
  apply swp_bind. apply (swp_free_node _ _ _ _ _ _ _ _ _ _ T4). intros m5 T5. apply swp_call. by apply swp_ret, (HQ _ (e_node e :: l)).
Qed.

Lemma swp_try_del_other (Q : bool -> mem -> nat -> log -> Prop) m D l O nb t j e v cbf c lg : table None m D l O nb -> D !! (t, j) = Some e ->
  (e_key e).1 <> v.1 -> Q false m c lg -> swp (try_del fuel v t j (e_node e) cbf) Q m c lg.
Proof. intros T Hs Hne HQ. unfold try_del. apply swp_bind. apply (swp_hold_other _ _ _ _ _ _ _ _ _ _ _ T Hs Hne). by apply swp_ret. Qed.

(** One entry of a scan: expired, another's, or the one looked for. *)
Lemma swp_visit (Q : bool * Z -> mem -> nat -> log -> Prop) m D l nb t j e tnow v keep ni action c lg :
  table None m D l (own ni) nb -> D !! (t, j) = Some e ->
  (forall Q', (e_key e).1 <> v.1 -> Q' false m c lg -> swp action Q' m c lg) ->
  (~ live tnow (e_exp e) -> forall m' l' ni', (keep = false -> ni' = ni) -> (keep = true -> ni' <> NNULL) -> table None m' (delete (t, j) D) l' (own ni') nb -> Q (false, ni') m' c (ttl_calls e ++ lg)) ->
  (live tnow (e_exp e) -> e_key e <> v -> Q (false, ni) m c lg) ->
  (live tnow (e_exp e) -> e_key e = v -> swp action (fun hit => Q (hit, ni)) m c lg) ->
  swp (visit h fuel tnow v t j (e_node e) keep ni action) Q m c lg.
Proof.
  intros T Hs Hact Hdead Hother Hhit. unfold visit. apply swp_bind. apply (swp_valid_ttl _ _ _ _ _ _ _ _ _ _ _ _ _ T Hs).
  - intros Hl. cbn [fst snd]. destruct (tb_words _ _ _ _ _ _ _ T _ _ Hs) as (Hy & _ & _).
    pose proof (tb_x _ _ _ _ _ _ _ T _ _ Hs ltac:(done)) as Hx.
    apply (swp_load _ _ _ _ _ _ (e_key e).1); [done|]. apply (swp_load _ _ _ _ _ _ (e_key e).2); [done|].
    destruct (decide ((e_key e).2 = v.2)) as [H2|H2]; [|apply swp_ret, Hother; [done|congruence]]. apply swp_bind.
    destruct (decide ((e_key e).1 = v.1)) as [H1|H1].
    + eapply swp_mono; [|apply Hhit; [done|]]; [|destruct (e_key e), v; cbn in *; congruence]. intros a m' c' lg' HQ. by apply swp_ret.
    + apply Hact; [done|]. apply swp_ret, Hother; [done|congruence].
  - intros Hl m' l' ni' Hk Hk2 T'. cbn [fst snd]. apply swp_ret. by eapply Hdead.
Qed.

(** The caller's node, filled in, takes an empty seat. *)
Lemma swp_try_add (Q : bool -> mem -> nat -> log -> Prop) m D l nb t j e c lg : table None m D l [e_node e] nb -> D !! (t, j) = None ->
  seat_ok h (t, j) -> key_ok (e_key e) -> (t, j) ∈ coll_seats \/ (t, j) ∈ collect_hash_pos h (e_key e) ->
  (forall s' e', D !! s' = Some e' -> e_key e' <> e_key e) ->
  m !! AX (e_node e) = Some (e_key e).1 -> m !! AY (e_node e) = Some (e_key e).2 -> m !! AExp (e_node e) = Some (e_exp e) -> m !! AData (e_node e) = Some (e_data e) ->
  (forall m' l' c', table None m' (after_hook (answer lg ON_ADD (e_data e)) (clock c) (<[(t, j) := e]> D) (t, j) e) l' [] nb ->
    Q true m' c' ((ON_ADD, e_data e) :: lg)) ->
  swp (try_add h fuel (e_node e) t j) Q m c lg.
Proof.
  intros T Hs Hok Hkey Hpos Hfresh Hx Hy He Hd HQ. unfold try_add. pose proof (seat_ok_range h _ Hok) as Ht. cbn [fst] in Ht.
  apply (swp_load _ _ _ _ _ _ (e_key e).1); [done|]. apply swp_store; [eauto|].
  assert (T1 : table None (<[AX (e_node e) := 0]> m) D l [e_node e] nb) by (apply (table_own h T (e_node e)); left).
  set (m1 := <[AX (e_node e) := 0]> m) in *. pose proof (tb_seat _ _ _ _ _ _ _ T1 t j Hok) as Hseat. rewrite Hs in Hseat. cbn in Hseat.
  destruct (tb_ncurs _ _ _ _ _ _ _ T1 t Ht) as [n Hn].
  apply swp_cas; [done|]. apply (swp_add _ _ _ _ _ _ n); [by rewrite lookup_insert_ne|].
  assert (T2 : table (Some (e_node e)) (<[ANcur t := u64 (n + 1)]> (<[ASeat t j := e_node e]> m1)) (<[(t, j) := e]> D) l [] nb).
  { apply table_seat; try done; unfold m1; by rewrite lookup_insert_ne. }
  set (m2 := <[ANcur t := _]> _) in *. apply (swp_load _ _ _ _ _ _ (e_data e)); [unfold m2, m1; by rewrite !lookup_insert_ne|]. apply swp_call.
  pose proof (lookup_insert_eq D (t, j) e) as Hs2. unfold after_hook in HQ.
  destruct (decide (answer lg ON_ADD (e_data e) = PLEASE_REMOVE_HASH_NODE)).
  - apply swp_bind. apply (swp_unseat _ _ _ _ _ _ _ _ _ _ _ T2 Hs2). intros m3 T3. apply swp_bind.
    apply (swp_free_node _ _ _ _ _ _ _ _ _ _ T3). intros m4 T4. by apply swp_ret, (HQ _ (e_node e :: l)).
  - apply swp_bind. apply (swp_change_ttl _ _ _ _ _ _ _ _ _ _ _ _ T2 Hs2). intros m3 c3 T3 Hx3.
    assert (Hm3 : m3 !! AX (e_node e) = Some 0) by (rewrite Hx3; unfold m2, m1; rewrite !lookup_insert_ne by done; apply lookup_insert_eq).
    apply swp_store; [eauto|]. set (e' := with_exp e _) in *. pose proof (lookup_insert_eq (<[(t, j) := e]> D) (t, j) e') as Hs3.
    assert (T4 : table (Some (e_node e)) (<[AX (e_node e) := (e_key e).1]> m3) (<[(t, j) := e']> (<[(t, j) := e]> D)) l [] nb).
    { apply (table_put h T3). cbn. intros [Hl|[_ Hne]]; [|done]. by destruct (tb_node h T3 (t, j) e' Hs3) as (_ & ? & _). }
    assert (T5 : table None (<[AX (e_node e) := (e_key e).1]> m3) (<[(t, j) := e']> (<[(t, j) := e]> D)) l [] nb).
    { apply (table_let_go h T4 (t, j) e'); [done|done|apply lookup_insert_eq]. }
    apply (swp_add_ctr _ _ _ _ _ _ _ _ _ _ _ _ T5 Ht). intros m6 T6 _. by apply swp_ret, (HQ _ l).
Qed.
End ops.
