(* ===== verification/AtomicScan.v ===== *)
(** * The atomic hash: one thread, the scans

    The loops of [atomic_hash_get], [atomic_hash_add] and [atomic_hash_del] over the seats a
    key may have: what they find, and the expired entries they remove on the way. *)
From S2P Require Import Prelude CLib Conc AtomicHash FreeList AtomicTable AtomicOps.

#[local] Open Scope Z_scope.

(** The expired entries in the seats [l]. *)
Definition stale (tnow : Z) (D : seats) (s : seat) : Prop := from_option (fun e => ~ live tnow (e_exp e)) False (D !! s).
#[export] Instance stale_dec tnow D s : Decision (stale tnow D s).
Proof. unfold stale, live. destruct (D !! s); cbn; apply _. Defined.
Lemma stale_none tnow D s : D !! s = None -> ~ stale tnow D s.
Proof. unfold stale. intros ->. cbn. tauto. Qed.
Lemma stale_some tnow D s e : D !! s = Some e -> stale tnow D s <-> ~ live tnow (e_exp e).
Proof. unfold stale. intros ->. cbn. tauto. Qed.

Definition spent (tnow : Z) (D : seats) (l : list seat) : Z := Z.of_nat (length (filter (stale tnow D) l)).

Lemma spent_cons tnow D s l : spent tnow D (s :: l) = (if decide (stale tnow D s) then 1 else 0) + spent tnow D l.
Proof. unfold spent. rewrite filter_cons. case_decide; cbn; lia. Qed.

Lemma spent_ext tnow D D' l : (forall s, s ∈ l -> D !! s = D' !! s) -> spent tnow D l = spent tnow D' l.
Proof.
  induction l as [|s l IH]; intros Hl; [done|]. rewrite !spent_cons, IH by (intros; apply Hl; by right). f_equal.
  apply decide_ext. unfold stale. by rewrite Hl by by left.
Qed.

Lemma spent_nonneg tnow D l : 0 <= spent tnow D l.
Proof. unfold spent. lia. Qed.

Lemma spent_some tnow D l : 0 < spent tnow D l -> exists s, s ∈ l /\ stale tnow D s.
Proof.
  induction l as [|s l IH]; [done|]. rewrite spent_cons. case_decide; [exists s; by split; [left|]|]. rewrite Z.add_0_l.
  intros (s' & Hs' & Hst)%IH. exists s'. by split; [right|].
Qed.

Lemma occ_eq D D' l : (forall s, s ∈ l -> D !! s = D' !! s) -> occ D l = occ D' l.
Proof. intros Hl. apply occ_ext. intros s Hs. by rewrite Hl. Qed.

(** [atomic_hash_get] gives up in the collision array before the entry of the key [v]: it has
    counted the entries it passed, and the count it compares with has gone down by the expired ones
    among them. *)
Definition missed (tnow : Z) (v : Z * Z) (D : seats) : Prop :=
  exists pre s post e, coll_seats = pre ++ s :: post /\ D !! s = Some e /\ e_key e = v /\
    occ D coll_seats <= occ D pre + spent tnow D pre.

Lemma seats_occ_app D l1 l2 : occ D (l1 ++ l2) = occ D l1 + occ D l2.
Proof. unfold occ. rewrite filter_app, length_app. lia. Qed.

(** That takes an expired entry in front of it. *)
Lemma missed_stale tnow v D : missed tnow v D -> exists s, s ∈ coll_seats /\ stale tnow D s.
Proof.
  intros (pre & s & post & e & Hc & Hs & _ & Hle). rewrite Hc, seats_occ_app, occ_cons, decide_True in Hle by (by eexists).
  pose proof (occ_bound D post). destruct (spent_some tnow D pre) as (s' & Hs' & Hst); [lia|].
  exists s'. split; [|done]. rewrite Hc, elem_of_app. by left.
Qed.

Lemma split_unique {A} (l p1 q1 p2 q2 : list A) s : NoDup l -> l = p1 ++ s :: q1 -> l = p2 ++ s :: q2 -> p1 = p2.
Proof.
  intros Hnd H1 H2. assert (Hl : length p1 = length p2).
  { apply (NoDup_lookup l _ _ s Hnd); [rewrite H1|rewrite H2]; by rewrite lookup_app_r, Nat.sub_diag by lia. }
  rewrite H1 in H2. by apply app_inj_1 in H2 as [? _].
Qed.

Section scan.
Context (h : htable) (Hpool : pool_ok (h_mp h)) (fuel : nat) (Hfuel : (0 < fuel)%nat).
Context (clock : nat -> Z) (answer : log -> hook -> Z -> Z).
#[local] Abbreviation table := (table h).
#[local] Abbreviation swp := (swp clock answer).
#[local] Abbreviation ttl_calls := (ttl_calls h).
#[local] Abbreviation after_hook := (after_hook h).

(** From the entries [D], some that have expired by [tnow] were removed, with the calls [L]
    of the hook for expired data. *)
Inductive prune (tnow : Z) (D : seats) : log -> seats -> Prop :=
  | prune_refl : prune tnow D [] D
  | prune_step L D' s e : prune tnow D L D' -> D' !! s = Some e -> ~ live tnow (e_exp e) -> prune tnow D (ttl_calls e ++ L) (delete s D').

Section prune.
Context (tnow : Z).

Lemma prune_trans D L D1 L1 D2 : prune tnow D L D1 -> prune tnow D1 L1 D2 -> prune tnow D (L1 ++ L) D2.
Proof using. intros H1 H2. induction H2 as [|L1 D2 s e H2 IH Hs Hl]; [done|]. rewrite <- app_assoc. by apply prune_step. Qed.

Lemma prune_first D s e L D1 : D !! s = Some e -> ~ live tnow (e_exp e) -> prune tnow (delete s D) L D1 -> prune tnow D (L ++ ttl_calls e) D1.
Proof using. intros Hs Hl Hp. eapply prune_trans; [|exact Hp]. rewrite <- (app_nil_r (ttl_calls e)). by apply prune_step; [constructor| |]. Qed.

Lemma prune_old D L D1 s e : prune tnow D L D1 -> D1 !! s = Some e -> D !! s = Some e.
Proof using. intros Hp. induction Hp as [|L D1 s' e' Hp IH Hs Hl]; [done|]. intros [_ H]%lookup_delete_Some. auto. Qed.

Lemma prune_live D L D1 s e : prune tnow D L D1 -> D !! s = Some e -> live tnow (e_exp e) -> D1 !! s = Some e.
Proof using.
  intros Hp Hs Hl. induction Hp as [|L D1 s' e' Hp IH Hs' Hl']; [done|]. rewrite lookup_delete_ne; [done|].
  intros ->. rewrite IH in Hs'. by injection Hs' as ->.
Qed.

Lemma prune_changed D s L D1 : is_Some (D !! s) -> prune tnow (delete s D) L D1 -> D1 <> D.
Proof using.
  intros [e Hs] Hp ->. pose proof (prune_old _ _ _ _ _ Hp Hs) as H. by rewrite lookup_delete_eq in H.
Qed.
End prune.

Context (tnow : Z) (v : Z * Z) (cbf : bool) (Hv : key_ok v).

(** No entry of [D] in the seats has the key. *)
Definition absent (D : seats) (l : list seat) : Prop := forall s e, s ∈ l -> D !! s = Some e -> e_key e <> v.

(** The seat is empty, or holds the node of an entry. *)
Lemma swp_load_seat {A} (k : Z -> hprog A) (Q : A -> mem -> nat -> log -> Prop) m D l O nb t j c lg : table None m D l O nb -> seat_ok h (t, j) ->
  (D !! (t, j) = None -> swp (k NNULL) Q m c lg) ->
  (forall e, D !! (t, j) = Some e -> e_node e <> NNULL -> swp (k (e_node e)) Q m c lg) -> swp (Vis (Load (ASeat t j)) k) Q m c lg.
Proof.
  intros T Hok Hno Hyes. pose proof (tb_seat _ _ _ _ _ _ _ T t j Hok) as Hs. destruct (D !! (t, j)) as [e|] eqn:E; cbn in Hs.
  - apply (swp_load _ _ _ _ _ _ _ _ (e_node e)); [done|]. apply Hyes; [done|]. pose proof (tb_node_small h Hpool T _ _ E). lia.
  - apply (swp_load _ _ _ _ _ _ _ _ NNULL); [done|]. by apply Hno.
Qed.

Lemma absent_cons D1 s ss : absent D1 ss -> (forall e, D1 !! s = Some e -> e_key e <> v) -> absent D1 (s :: ss).
Proof using. intros Ha Hs x e [->|Hx]%elem_of_cons Hx'; [by apply Hs|by eapply Ha]. Qed.

(** ** atomic_hash_get *)
Lemma swp_get_find (Q : bool -> mem -> nat -> log -> Prop) ss m D l nb c lg : table None m D l [] nb -> Forall (seat_ok h) ss ->
  (forall L D1 s e m' l' c', prune tnow D L D1 -> s ∈ ss -> D1 !! s = Some e -> e_key e = v -> live tnow (e_exp e) ->
     table None m' (after_hook (answer (L ++ lg) (the_hook cbf ON_GET) (e_data e)) (clock c) D1 s e) l' [] nb ->
     Q true m' c' ((the_hook cbf ON_GET, e_data e) :: L ++ lg)) ->
  (forall L D1 m' l', prune tnow D L D1 -> (forall s, s ∉ ss -> D1 !! s = D !! s) -> table None m' D1 l' [] nb -> absent D1 ss -> Q false m' c (L ++ lg)) ->
  swp (get_find h fuel tnow v cbf ss) Q m c lg.
Proof using Hpool Hfuel.
  intros T Hok. revert m D l lg T. induction Hok as [|[t j] ss Hs Hok IH]; intros m D l lg T Hhit Hmiss; cbn [get_find].
  { apply swp_ret, (Hmiss [] D m l); [constructor|done|done|]. by intros s e ?%elem_of_nil. }
  apply (swp_load_seat _ _ _ _ _ _ _ _ _ _ _ T Hs).
  - intros Hn. rewrite decide_True by done. apply (IH m D l); [done| |].
    { intros L D1 s e m' l' c' Hp Hin. apply Hhit; [done|by right]. }
    intros L D1 m' l' Hp Ho T' Ha. apply (Hmiss L D1 m' l'); [done| |done|].
    { intros s [_ Hs']%not_elem_of_cons. by apply Ho. }
    apply absent_cons; [done|]. intros e He. by rewrite (prune_old _ _ _ _ _ _ Hp He) in Hn.
  - intros e He Hne. rewrite decide_False by done. apply swp_bind.
    eapply (swp_visit h Hpool fuel Hfuel _ _ _ m D l nb t j e tnow v false NNULL); [exact T|done| | | |].
    + intros Q' Hx HQ. by eapply swp_try_hit_other.
    + intros Hl m' l' ni' Hni _ T'. rewrite (Hni eq_refl) in T'. cbn [fst snd].
      apply (IH m' (delete (t, j) D) l'); [exact T'| |].
      * intros L D1 s e' m2 l2 c2 Hp Hin Hs' Hk Hl' T2. rewrite app_assoc in *. eapply Hhit; [by eapply prune_first|by right|done|done|done|exact T2].
      * intros L D1 m2 l2 Hp Ho T2 Ha. rewrite app_assoc. eapply Hmiss; [by eapply prune_first| |done|].
        { intros s [Hst Hs']%not_elem_of_cons. rewrite Ho by done. by rewrite lookup_delete_ne. }
        apply absent_cons; [done|]. intros e' He'. pose proof (prune_old _ _ _ _ _ _ Hp He') as H. by rewrite lookup_delete_eq in H.
    + intros Hl Hk. cbn [fst snd]. apply (IH m D l); [done| |].
      { intros L D1 s e' m' l' c' Hp Hin. apply Hhit; [done|by right]. }
      intros L D1 m' l' Hp Ho T' Ha. apply (Hmiss L D1 m' l'); [done| |done|].
      { intros s [_ Hs']%not_elem_of_cons. by apply Ho. }
      apply absent_cons; [done|]. intros e' He'. pose proof (prune_old _ _ _ _ _ _ Hp He'). congruence.
    + intros Hl Hk. replace (try_get h fuel v) with (try_get h fuel (e_key e)) by congruence. eapply swp_try_hit; [done|done|exact T|done|]. intros m' l' c' T'. cbn [fst]. apply swp_ret.
      apply (Hhit [] D (t, j) e m' l' c'); [constructor|by left|done|done|done|done].
Qed.

(** The collision array is read until as many entries have been passed as it holds at the moment. *)
Lemma swp_get_find_coll (Q : bool -> mem -> nat -> log -> Prop) ss m D l nb i c lg : table None m D l [] nb -> Forall (seat_ok h) ss ->
  NoDup ss -> ss ⊆ coll_seats ->
  (forall L D1 pre s post e m' l' c', prune tnow D L D1 -> ss = pre ++ s :: post -> i + occ D pre + spent tnow D pre < occ D coll_seats ->
     D1 !! s = Some e -> e_key e = v -> live tnow (e_exp e) ->
     table None m' (after_hook (answer (L ++ lg) (the_hook cbf ON_GET) (e_data e)) (clock c) D1 s e) l' [] nb ->
     Q true m' c' ((the_hook cbf ON_GET, e_data e) :: L ++ lg)) ->
  (forall L D1 m' l', prune tnow D L D1 -> table None m' D1 l' [] nb ->
     (forall pre s post e, ss = pre ++ s :: post -> D !! s = Some e -> e_key e = v -> live tnow (e_exp e) ->
        occ D coll_seats <= i + occ D pre + spent tnow D pre) -> Q false m' c (L ++ lg)) ->
  swp (get_find_coll h fuel tnow v cbf ss i) Q m c lg.
Proof using Hpool Hfuel.
  clear Hv. intros T Hok. revert m D l lg i T. induction Hok as [|[t j] ss Hs Hok IH]; intros m D l lg i T Hnd Hsub Hhit Hmiss; cbn [get_find_coll].
  { apply swp_ret, (Hmiss [] D m l); [constructor|done|]. by intros []. }
  apply NoDup_cons in Hnd as [Hnin Hnd]. assert (Hsub' : ss ⊆ coll_seats) by set_solver.
  apply (swp_load _ _ _ _ _ _ _ _ (occ D coll_seats)); [by apply (tb_ncur _ _ _ _ _ _ _ T)|].
  destruct (decide (i < occ D coll_seats)) as [Hi|Hi].
  2: { apply swp_ret, (Hmiss [] D m l); [constructor|done|]. intros pre s post e _ _ _ _.
       pose proof (occ_bound D pre). pose proof (spent_nonneg tnow D pre). lia. }
  apply (swp_load_seat _ _ _ _ _ _ _ _ _ _ _ T Hs).
  - intros Hn. rewrite decide_True by done.
    assert (Hpre : forall pre, occ D ((t, j) :: pre) = occ D pre /\ spent tnow D ((t, j) :: pre) = spent tnow D pre).
    { intros pre. rewrite occ_cons, spent_cons, (decide_False (P := is_Some _)) by (rewrite Hn; by intros [? ?]).
      rewrite decide_False by (by apply stale_none). lia. }
    apply (IH m D l); [done|done|done| |].
    { intros L D1 pre s post e m' l' c' Hp -> Hlt. apply (Hhit L D1 ((t, j) :: pre) s post); [done|done|]. destruct (Hpre pre). lia. }
    intros L D1 m' l' Hp T' Ha. apply (Hmiss L D1 m' l'); [done|done|]. intros [|s0 pre] s post e [= <- Heq] He; [congruence|].
    intros Hk Hl. destruct (Hpre pre). specialize (Ha pre s post e Heq He Hk Hl). lia.
  - intros e He Hne. rewrite decide_False by done. apply swp_bind.
    assert (Hocc : forall pre, occ D ((t, j) :: pre) = 1 + occ D pre).
    { intros pre. rewrite occ_cons, decide_True by (rewrite He; by eexists). done. }
    assert (Hst : forall pre, spent tnow D ((t, j) :: pre) = (if decide (live tnow (e_exp e)) then 0 else 1) + spent tnow D pre).
    { intros pre. rewrite spent_cons. f_equal. pose proof (stale_some tnow D _ e He). do 2 case_decide; tauto. }
    eapply (swp_visit h Hpool fuel Hfuel _ _ _ m D l nb t j e tnow v false NNULL); [exact T|done| | | |].
    + intros Q' Hx HQ. by eapply swp_try_hit_other.
    + intros Hl m' l' ni' Hni _ T'. rewrite (Hni eq_refl) in T'. cbn [fst snd].
      assert (Hsame : forall pre s post, ss = pre ++ s :: post ->
        occ (delete (t, j) D) pre = occ D pre /\ spent tnow (delete (t, j) D) pre = spent tnow D pre).
      { intros pre s post Heq. split; [apply occ_eq|apply spent_ext]; intros x Hx; (rewrite lookup_delete_ne; [done|]);
          intros <-; apply Hnin; rewrite Heq, elem_of_app; by left. }
      assert (Hcount : occ (delete (t, j) D) coll_seats = occ D coll_seats - 1).
      { rewrite occ_delete by (apply coll_seats_nodup || (rewrite He; by eexists)). rewrite decide_True; [done|]. apply Hsub. by left. }
      apply (IH m' (delete (t, j) D) l'); [exact T'|done|done| |].
      * intros L D1 pre s post e' m2 l2 c2 Hp Heq Hlt Hs' Hk Hl' T2. destruct (Hsame pre s post Heq) as [H1 H2].
        rewrite app_assoc in *. eapply (Hhit _ _ ((t, j) :: pre) s post); [by eapply prune_first|by rewrite Heq| |done|done|done|exact T2].
        rewrite Hocc, Hst, decide_False by done. lia.
      * intros L D1 m2 l2 Hp T2 Ha. rewrite app_assoc. eapply Hmiss; [by eapply prune_first|done|].
        intros [|s0 pre] s post e' [= <- Heq] He' Hk Hl'; [congruence|]. destruct (Hsame pre s post Heq) as [H1 H2].
        assert (Hne2 : (t, j) <> s) by (intros <-; apply Hnin; rewrite Heq, elem_of_app; right; by left).
        specialize (Ha pre s post e' Heq). rewrite lookup_delete_ne in Ha by done. specialize (Ha He' Hk Hl').
        rewrite Hocc, Hst, decide_False by done. lia.
    + intros Hl Hk. cbn [fst snd]. apply (IH m D l); [done|done|done| |].
      * intros L D1 pre s post e' m' l' c' Hp -> Hlt. apply (Hhit L D1 ((t, j) :: pre) s post); [done|done|].
        rewrite Hocc, Hst, decide_True by done. lia.
      * intros L D1 m' l' Hp T' Ha. apply (Hmiss L D1 m' l'); [done|done|]. intros [|s0 pre] s post e' [= <- Heq] He' Hk' Hl'; [congruence|].
        specialize (Ha pre s post e' Heq He' Hk' Hl'). rewrite Hocc, Hst, decide_True by done. lia.
    + intros Hl Hk. replace (try_get h fuel v) with (try_get h fuel (e_key e)) by congruence. eapply swp_try_hit; [done|done|exact T|done|].
      intros m' l' c' T'. cbn [fst]. apply swp_ret. apply (Hhit [] D [] (t, j) ss e m' l' c'); [constructor|done| |done|done|done|done].
      change (occ D []) with 0. change (spent tnow D []) with 0. lia.
Qed.

(** ** atomic_hash_add *)
(** What a scan that found nothing leaves: the caller has a node exactly when it had one or an
    expired entry was removed. *)
Definition kept (D : seats) (ni : Z) (L : log) (D1 : seats) (ni1 : Z) : Prop := ni1 = NNULL -> ni = NNULL /\ L = [] /\ D1 = D.

Lemma kept_refl D ni : kept D ni [] D ni.
Proof. done. Qed.

Lemma swp_add_find (Q : bool * Z -> mem -> nat -> log -> Prop) ss m D l nb ni c lg : table None m D l (own ni) nb -> Forall (seat_ok h) ss ->
  (forall L D1 s e m' l' c' ni1, prune tnow D L D1 -> D1 !! s = Some e -> e_key e = v -> live tnow (e_exp e) ->
     table None m' (after_hook (answer (L ++ lg) (the_hook cbf ON_DUP) (e_data e)) (clock c) D1 s e) l' (own ni1) nb ->
     Q (true, ni1) m' c' ((the_hook cbf ON_DUP, e_data e) :: L ++ lg)) ->
  (forall L D1 m' l' ni1, prune tnow D L D1 -> table None m' D1 l' (own ni1) nb -> kept D ni L D1 ni1 -> absent D1 ss -> Q (false, ni1) m' c (L ++ lg)) ->
  swp (add_find h fuel tnow v cbf ss ni) Q m c lg.
Proof using Hpool Hfuel.
  intros T Hok. revert m D l lg ni T. induction Hok as [|[t j] ss Hs Hok IH]; intros m D l lg ni T Hhit Hmiss; cbn [add_find].
  { apply swp_ret, (Hmiss [] D m l ni); [constructor|done|done|]. by intros s e ?%elem_of_nil. }
  apply (swp_load_seat _ _ _ _ _ _ _ _ _ _ _ T Hs).
  - intros Hn. rewrite decide_True by done. apply (IH m D l); [done|exact Hhit|].
    intros L D1 m' l' ni1 Hp T' Hk Ha. apply (Hmiss L D1 m' l' ni1); [done|done|done|]. apply absent_cons; [done|].
    intros e He. by rewrite (prune_old _ _ _ _ _ _ Hp He) in Hn.
  - intros e He Hne. rewrite decide_False by done. apply swp_bind.
    eapply (swp_visit h Hpool fuel Hfuel _ _ _ m D l nb t j e tnow v true ni); [exact T|done| | | |].
    + intros Q' Hx HQ. by eapply swp_try_hit_other.
    + intros Hl m' l' ni' _ Hni T'. cbn [fst snd]. specialize (Hni eq_refl). apply (IH m' (delete (t, j) D) l'); [exact T'| |].
      * intros L D1 s e' m2 l2 c2 ni1 Hp Hs' Hk Hl' T2. rewrite app_assoc in *. eapply Hhit; [by eapply prune_first|done|done|done|exact T2].
      * intros L D1 m2 l2 ni1 Hp T2 Hk Ha. rewrite app_assoc. eapply Hmiss; [by eapply prune_first|done| |].
        -- intros Hn1. destruct (Hk Hn1) as (Hn2 & _). by destruct Hni.
        -- apply absent_cons; [done|]. intros e' He'. pose proof (prune_old _ _ _ _ _ _ Hp He') as H. by rewrite lookup_delete_eq in H.
    + intros Hl Hk. cbn [fst snd]. apply (IH m D l); [done|exact Hhit|]. intros L D1 m' l' ni1 Hp T' Hkp Ha. apply (Hmiss L D1 m' l' ni1); [done|done|done|].
      apply absent_cons; [done|]. intros e' He'. pose proof (prune_old _ _ _ _ _ _ Hp He'). congruence.
    + intros Hl Hk. replace (try_dup h fuel v) with (try_dup h fuel (e_key e)) by congruence. eapply swp_try_hit; [done|done|exact T|done|].
      intros m' l' c' T'. cbn [fst]. apply swp_ret. apply (Hhit [] D (t, j) e m' l' c' ni); [constructor|done|done|done|done].
Qed.

(** Here the count is taken before, so that all entries are looked at. *)
Lemma swp_add_find_coll (Q : bool * Z -> mem -> nat -> log -> Prop) ss m D l nb i ni c lg : table None m D l (own ni) nb -> Forall (seat_ok h) ss ->
  NoDup ss -> i = occ D ss ->
  (forall L D1 s e m' l' c' ni1, prune tnow D L D1 -> D1 !! s = Some e -> e_key e = v -> live tnow (e_exp e) ->
     table None m' (after_hook (answer (L ++ lg) (the_hook cbf ON_DUP) (e_data e)) (clock c) D1 s e) l' (own ni1) nb ->
     Q (true, ni1) m' c' ((the_hook cbf ON_DUP, e_data e) :: L ++ lg)) ->
  (forall L D1 m' l' ni1, prune tnow D L D1 -> table None m' D1 l' (own ni1) nb -> kept D ni L D1 ni1 -> absent D1 ss -> Q (false, ni1) m' c (L ++ lg)) ->
  swp (add_find_coll h fuel tnow v cbf ss i ni) Q m c lg.
Proof using Hpool Hfuel.
  intros T Hok. revert m D l lg i ni T. induction Hok as [|[t j] ss Hs Hok IH]; intros m D l lg i ni T Hnd Hi Hhit Hmiss; cbn [add_find_coll].
  { apply swp_ret, (Hmiss [] D m l ni); [constructor|done|done|]. by intros s e ?%elem_of_nil. }
  apply NoDup_cons in Hnd as [Hnin Hnd]. destruct (decide (0 < i)) as [Hi0|Hi0].
  2: { apply swp_ret, (Hmiss [] D m l ni); [constructor|done|done|]. intros s e Hin He.
       pose proof (occ_bound D ((t, j) :: ss)). by rewrite (occ_none D ((t, j) :: ss) ltac:(lia) s Hin) in He. }
  rewrite occ_cons in Hi. apply (swp_load_seat _ _ _ _ _ _ _ _ _ _ _ T Hs).
  - intros Hn. rewrite decide_True by done. rewrite decide_False in Hi by (rewrite Hn; by intros [? ?]).
    apply (IH m D l); [done|done|lia|exact Hhit|].
    intros L D1 m' l' ni1 Hp T' Hk Ha. apply (Hmiss L D1 m' l' ni1); [done|done|done|]. apply absent_cons; [done|].
    intros e He. by rewrite (prune_old _ _ _ _ _ _ Hp He) in Hn.
  - intros e He Hne. rewrite (decide_False (P := e_node e = NNULL)) by done. rewrite decide_True in Hi by (rewrite He; eauto). apply swp_bind.
    eapply (swp_visit h Hpool fuel Hfuel _ _ _ m D l nb t j e tnow v true ni); [exact T|done| | | |].
    + intros Q' Hx HQ. by eapply swp_try_hit_other.
    + intros Hl m' l' ni' _ Hni T'. cbn [fst snd]. specialize (Hni eq_refl). apply (IH m' (delete (t, j) D) l'); [exact T'|done| | |].
      * rewrite occ_delete, decide_False by (done || (rewrite He; eauto)). lia.
      * intros L D1 s e' m2 l2 c2 ni1 Hp Hs' Hk Hl' T2. rewrite app_assoc in *. eapply Hhit; [by eapply prune_first|done|done|done|exact T2].
      * intros L D1 m2 l2 ni1 Hp T2 Hk Ha. rewrite app_assoc. eapply Hmiss; [by eapply prune_first|done| |].
        -- intros Hn1. destruct (Hk Hn1) as (Hn2 & _). by destruct Hni.
        -- apply absent_cons; [done|]. intros e' He'. pose proof (prune_old _ _ _ _ _ _ Hp He') as H. by rewrite lookup_delete_eq in H.
    + intros Hl Hk. cbn [fst snd]. apply (IH m D l); [done|done|lia|exact Hhit|]. intros L D1 m' l' ni1 Hp T' Hkp Ha. apply (Hmiss L D1 m' l' ni1); [done|done|done|].
      apply absent_cons; [done|]. intros e' He'. pose proof (prune_old _ _ _ _ _ _ Hp He'). congruence.
    + intros Hl Hk. replace (try_dup h fuel v) with (try_dup h fuel (e_key e)) by congruence. eapply swp_try_hit; [done|done|exact T|done|].
      intros m' l' c' T'. cbn [fst]. apply swp_ret. apply (Hhit [] D (t, j) e m' l' c' ni); [constructor|done|done|done|done].
Qed.

Lemma swp_add_seat (Q : bool -> mem -> nat -> log -> Prop) ss m D l nb e c lg : table None m D l [e_node e] nb -> Forall (seat_ok h) ss ->
  (forall s, s ∈ ss -> s ∈ coll_seats \/ s ∈ collect_hash_pos h (e_key e)) -> key_ok (e_key e) ->
  (forall s' e', D !! s' = Some e' -> e_key e' <> e_key e) ->
  m !! AX (e_node e) = Some (e_key e).1 -> m !! AY (e_node e) = Some (e_key e).2 -> m !! AExp (e_node e) = Some (e_exp e) -> m !! AData (e_node e) = Some (e_data e) ->
  (forall s m' l' c', s ∈ ss -> D !! s = None -> table None m' (after_hook (answer lg ON_ADD (e_data e)) (clock c) (<[s := e]> D) s e) l' [] nb ->
    Q true m' c' ((ON_ADD, e_data e) :: lg)) ->
  ((forall s, s ∈ ss -> is_Some (D !! s)) -> Q false m c lg) ->
  swp (add_seat h fuel (e_node e) ss) Q m c lg.
Proof using Hpool Hfuel.
  intros T Hok Hpos Hkey Hfresh Hx Hy He Hd Hyes Hno. induction Hok as [|[t j] ss Hs Hok IH]; cbn [add_seat].
  { apply swp_ret, Hno. by intros s ?%elem_of_nil. }
  apply (swp_load_seat _ _ _ _ _ _ _ _ _ _ _ T Hs).
  - intros Hn. rewrite decide_True by done. apply swp_bind. eapply swp_try_add; try done; [apply Hpos; by left|].
    intros m' l' c' T'. apply swp_ret. eapply Hyes; [|exact Hn|exact T']. by left.
  - intros e' He' Hne. rewrite decide_False by done. apply IH.
    + intros s Hin. apply Hpos. by right.
    + intros s m' l' c' Hin. apply Hyes. by right.
    + intros Hall. apply Hno. intros s [->|Hin]%elem_of_cons; [by eexists|by apply Hall].
Qed.

(** ** atomic_hash_del *)
Lemma swp_del_find_none (Q : Z -> mem -> nat -> log -> Prop) ss m D l nb i c lg : table None m D l [] nb -> Forall (seat_ok h) ss ->
  (forall s e, D !! s = Some e -> e_key e <> v) ->
  (forall L D1 m' l', prune tnow D L D1 -> table None m' D1 l' [] nb -> Q i m' c (L ++ lg)) ->
  swp (del_find h fuel tnow v cbf ss i) Q m c lg.
Proof using Hpool Hfuel.
  intros T Hok. revert m D l lg T. induction Hok as [|[t j] ss Hs Hok IH]; intros m D l lg T Ha HQ; cbn [del_find].
  { apply swp_ret, (HQ [] D m l); [constructor|done]. }
  apply (swp_load_seat _ _ _ _ _ _ _ _ _ _ _ T Hs).
  - intros Hn. rewrite decide_True by done. by apply (IH m D l).
  - intros e He Hne. rewrite decide_False by done. apply swp_bind.
    eapply (swp_visit h Hpool fuel Hfuel _ _ _ m D l nb t j e tnow v false NNULL); [exact T|done| | | |].
    + intros Q' Hx HQ'. by eapply swp_try_del_other.
    + intros Hl m' l' ni' Hni _ T'. rewrite (Hni eq_refl) in T'. cbn [fst snd]. apply (IH m' (delete (t, j) D) l'); [exact T'| |].
      * intros s e' [_ Hs']%lookup_delete_Some. by apply (Ha s).
      * intros L D1 m2 l2 Hp T2. rewrite app_assoc. eapply HQ; [by eapply prune_first|exact T2].
    + intros Hl Hk. cbn [fst snd]. by apply (IH m D l).
    + intros Hl Hk. by destruct (Ha _ _ He).
Qed.

Lemma swp_del_find (Q : Z -> mem -> nat -> log -> Prop) ss m D l nb i c lg : table None m D l [] nb -> Forall (seat_ok h) ss ->
  (forall L D1 s e L2 D2 m' l', prune tnow D L D1 -> D1 !! s = Some e -> e_key e = v -> live tnow (e_exp e) ->
     prune tnow (delete s D1) L2 D2 -> table None m' D2 l' [] nb -> Q (i + 1) m' c (L2 ++ (the_hook cbf ON_DEL, e_data e) :: L ++ lg)) ->
  (forall L D1 m' l', prune tnow D L D1 -> table None m' D1 l' [] nb -> absent D1 ss -> Q i m' c (L ++ lg)) ->
  swp (del_find h fuel tnow v cbf ss i) Q m c lg.
Proof using Hpool Hfuel.
  intros T Hok. revert m D l lg T. induction Hok as [|[t j] ss Hs Hok IH]; intros m D l lg T Hhit Hmiss; cbn [del_find].
  { apply swp_ret, (Hmiss [] D m l); [constructor|done|]. by intros s e ?%elem_of_nil. }
  apply (swp_load_seat _ _ _ _ _ _ _ _ _ _ _ T Hs).
  - intros Hn. rewrite decide_True by done. apply (IH m D l); [done|exact Hhit|].
    intros L D1 m' l' Hp T' Ha. apply (Hmiss L D1 m' l'); [done|done|]. apply absent_cons; [done|].
    intros e He. by rewrite (prune_old _ _ _ _ _ _ Hp He) in Hn.
  - intros e He Hne. rewrite decide_False by done. apply swp_bind.
    eapply (swp_visit h Hpool fuel Hfuel _ _ _ m D l nb t j e tnow v false NNULL); [exact T|done| | | |].
    + intros Q' Hx HQ. by eapply swp_try_del_other.
    + intros Hl m' l' ni' Hni _ T'. rewrite (Hni eq_refl) in T'. cbn [fst snd].
      apply (IH m' (delete (t, j) D) l'); [exact T'| |].
      * intros L D1 s e' L2 D2 m2 l2 Hp Hs' Hk Hl' Hp2 T2. rewrite (app_assoc L). eapply Hhit; [by eapply prune_first|done|done|done|exact Hp2|exact T2].
      * intros L D1 m2 l2 Hp T2 Ha. rewrite app_assoc. eapply Hmiss; [by eapply prune_first|done|]. apply absent_cons; [done|].
        intros e' He'. pose proof (prune_old _ _ _ _ _ _ Hp He') as H. by rewrite lookup_delete_eq in H.
    + intros Hl Hk. cbn [fst snd]. apply (IH m D l); [done|exact Hhit|]. intros L D1 m' l' Hp T' Ha. apply (Hmiss L D1 m' l'); [done|done|].
      apply absent_cons; [done|]. intros e' He'. pose proof (prune_old _ _ _ _ _ _ Hp He'). congruence.
    + intros Hl Hk. replace (try_del fuel v) with (try_del fuel (e_key e)) by congruence. eapply swp_try_del; [done|done|exact T|done|].
      intros m' l' T'. cbn [fst snd]. apply (swp_del_find_none _ _ _ _ _ _ _ _ _ T' Hok).
      * intros s e' [Hne' Hs']%lookup_delete_Some Hk'. apply Hne'. apply (tb_uniq _ _ _ _ _ _ _ T _ _ e e'); congruence.
      * intros L D1 m2 l2 Hp T2. apply (Hhit [] D (t, j) e L D1 m2 l2); [constructor|done|done|done|done|exact T2].
Qed.
End scan.
