(* ===== verification/AtomicHashOk.v ===== *)
(** * The atomic hash: one thread, the contract

    Alone, [atomic_hash_add] and [atomic_hash_del] are the operations of a finite map from keys to
    data with an expiry time: each may remove expired entries, whose data it hands to the hook for
    expired data, and does to its key what the result says.  [atomic_hash_get] is the lookup but
    where it stops before the entry ([missed] of AtomicScan.v), which is said exactly. *)
From S2P Require Import Prelude CLib Conc AtomicHash FreeList AtomicTable AtomicOps AtomicScan.

#[local] Open Scope Z_scope.

(** ** Contents *)
Abbreviation kmap := (gmap (Z * Z) (Z * Z)) (only parsing).
Definition key_entry (e : entry) : (Z * Z) * (Z * Z) := (e_key e, (e_data e, e_exp e)).
Definition contents (D : seats) : kmap := list_to_map ((fun p => key_entry p.2) <$> map_to_list D).

Definition unique_keys (D : seats) : Prop := forall s s' e e', D !! s = Some e -> D !! s' = Some e' -> e_key e = e_key e' -> s = s'.

Lemma contents_keys D : unique_keys D -> NoDup ((fun p => key_entry p.2) <$> map_to_list D).*1.
Proof.
  intros Hu. rewrite <- list_fmap_compose. apply NoDup_fmap_2_strong; [|apply NoDup_map_to_list].
  intros [s e] [s' e'] Hs%elem_of_map_to_list Hs'%elem_of_map_to_list Hk. cbn in Hk. assert (s = s') as -> by (by eapply Hu). congruence.
Qed.

Lemma contents_lookup D k p : unique_keys D -> contents D !! k = Some p <-> exists s e, D !! s = Some e /\ e_key e = k /\ p = (e_data e, e_exp e).
Proof.
  intros Hu. unfold contents. rewrite <- elem_of_list_to_map by by apply contents_keys. rewrite list_elem_of_fmap. split.
  - intros ([s e] & Hp & Hs%elem_of_map_to_list). injection Hp as -> ->. exists s, e. done.
  - intros (s & e & Hs & <- & ->). exists (s, e). split; [done|]. by apply elem_of_map_to_list.
Qed.

Lemma contents_none D k : unique_keys D -> contents D !! k = None <-> forall s e, D !! s = Some e -> e_key e <> k.
Proof.
  intros Hu. rewrite eq_None_not_Some. split.
  - intros Hn s e Hs <-. apply Hn. exists (e_data e, e_exp e). apply contents_lookup; eauto.
  - intros Hn [p (s & e & Hs & Hk & _)%contents_lookup]; [|done]. by apply (Hn s e).
Qed.

Lemma size_contents D : unique_keys D -> size (contents D) = size D.
Proof. intros Hu. unfold contents. rewrite map_size_list_to_map by by apply contents_keys. by rewrite length_fmap, length_map_to_list. Qed.

Lemma unique_delete D s : unique_keys D -> unique_keys (delete s D).
Proof. intros Hu s1 s2 e1 e2 [_ H1]%lookup_delete_Some [_ H2]%lookup_delete_Some. by apply Hu. Qed.

Lemma contents_ext D M : unique_keys D -> (forall k p, M !! k = Some p <-> exists s e, D !! s = Some e /\ e_key e = k /\ p = (e_data e, e_exp e)) -> contents D = M.
Proof. intros Hu HM. apply map_eq. intros k. apply option_eq. intros p. by rewrite HM, contents_lookup. Qed.

Lemma contents_delete D s e : unique_keys D -> D !! s = Some e -> contents (delete s D) = delete (e_key e) (contents D).
Proof.
  intros Hu Hs. apply contents_ext; [by apply unique_delete|]. intros k p. rewrite lookup_delete_Some, contents_lookup by done. split.
  - intros (Hk & s' & e' & Hs' & He & Hp). exists s', e'. split; [|done]. apply lookup_delete_Some. split; [|done].
    intros ->. rewrite Hs in Hs'. injection Hs' as ->. done.
  - intros (s' & e' & [Hne Hs']%lookup_delete_Some & He & Hp). split; [|eauto]. intros Hk. apply Hne. by apply (Hu _ _ e e'); try congruence.
Qed.

Lemma contents_insert D s e : unique_keys (<[s := e]> D) -> unique_keys D -> (forall e0, D !! s = Some e0 -> e_key e0 = e_key e) ->
  contents (<[s := e]> D) = <[e_key e := (e_data e, e_exp e)]> (contents D).
Proof.
  intros Hu' Hu Hs. apply contents_ext; [done|]. intros k p. rewrite lookup_insert_Some, contents_lookup by done. split.
  - intros [[<- <-]|(Hk & s' & e' & Hs' & He & Hp)]; [exists s, e; by rewrite lookup_insert_eq|].
    exists s', e'. split; [|done]. rewrite lookup_insert_ne; [done|]. intros ->. apply Hk. by rewrite <- (Hs _ Hs').
  - intros (s' & e' & [[<- <-]|[Hne Hs']]%lookup_insert_Some & He & Hp); [left; split; [done|by rewrite Hp]|].
    right. split; [|by exists s', e']. intros Hk. apply Hne. apply (Hu' _ _ e e'); [apply lookup_insert_eq|by rewrite lookup_insert_ne|congruence].
Qed.

(** What the scan of the buckets leaves alone. *)
Section same.
Context (tnow : Z) (D D1 : seats) (Hsame : forall s, s ∈ coll_seats -> D1 !! s = D !! s).

Lemma same_occ l : l ⊆ coll_seats -> occ D1 l = occ D l /\ spent tnow D1 l = spent tnow D l.
Proof using Hsame. intros Hl. split; [apply occ_eq|apply spent_ext]; intros s Hs; apply Hsame; set_solver. Qed.

Lemma split_occ pre s post : coll_seats = pre ++ s :: post ->
  occ D1 coll_seats = occ D coll_seats /\ occ D1 pre = occ D pre /\ spent tnow D1 pre = spent tnow D pre.
Proof using Hsame. intros Hc. split; [by apply same_occ|]. apply same_occ. rewrite Hc. intros x. rewrite elem_of_app. by left. Qed.
End same.

(** The entry of a key is missed where its seat says so. *)
Lemma missed_at tnow v D pre s post e : unique_keys D -> coll_seats = pre ++ s :: post -> D !! s = Some e -> e_key e = v ->
  missed tnow v D <-> occ D coll_seats <= occ D pre + spent tnow D pre.
Proof.
  intros Hu Hc Hs Hk. split; [|intros Hle; by exists pre, s, post, e].
  intros (pre2 & s2 & post2 & e2 & Hc2 & Hs2 & Hk2 & Hle). assert (s2 = s) as -> by (apply (Hu _ _ e2 e); congruence).
  by rewrite (split_unique _ _ _ _ _ _ coll_seats_nodup Hc Hc2).
Qed.

Section contract.
Context (h : htable).

(** Some entries have expired by [tnow] and are gone; [L] is the calls about them. *)
Inductive expired (tnow : Z) (M : kmap) : log -> kmap -> Prop :=
  | expired_none : expired tnow M [] M
  | expired_one L M' k d x : expired tnow M L M' -> M' !! k = Some (d, x) -> ~ live tnow x ->
      expired tnow M ((if h_on_ttl h then [(ON_TTL, d)] else []) ++ L) (delete k M').

(** A hook has answered [r] about the key [k]. *)
Definition hook_effect (r t : Z) (M : kmap) (k : Z * Z) (d x : Z) : kmap :=
  if decide (r = PLEASE_REMOVE_HASH_NODE) then delete k M else <[k := (d, ttl_after h r t x)]> M.

(** The words of memory hold the entries [D] in their seats, and no thread is inside an operation. *)
Definition hash_at (w : hworld) (D : seats) : Prop :=
  pool_ok (h_mp h) /\ 0 < h_nb0 h /\ 0 < h_nb1 h /\ exists l nb, table h None (w_mem w) D l [] nb.

Lemma hash_at_unique w D : hash_at w D -> unique_keys D.
Proof. intros (_ & _ & _ & l & nb & T). exact (tb_uniq _ _ _ _ _ _ _ T). Qed.

Lemma prune_unique tnow D L D1 : prune h tnow D L D1 -> unique_keys D -> unique_keys D1.
Proof. intros Hp Hu. induction Hp as [|L D1 s e Hp IH Hs Hl]; [done|]. by apply unique_delete. Qed.

Lemma prune_expired tnow D L D1 : prune h tnow D L D1 -> unique_keys D -> expired tnow (contents D) L (contents D1).
Proof.
  intros Hp Hu. induction Hp as [|L D1 s e Hp IH Hs Hl]; [constructor|]. pose proof (prune_unique _ _ _ _ Hp Hu) as Hu1.
  rewrite (contents_delete _ _ e) by done. apply (expired_one _ _ L _ (e_key e) (e_data e) (e_exp e)); [done| |done].
  apply contents_lookup; eauto.
Qed.

Lemma contents_after r t D s e : unique_keys D -> D !! s = Some e -> contents (after_hook h r t D s e) = hook_effect r t (contents D) (e_key e) (e_data e) (e_exp e).
Proof.
  intros Hu Hs. unfold after_hook, hook_effect. case_decide; [by apply contents_delete|].
  apply (contents_insert D s (with_exp e (ttl_after h r t (e_exp e)))); [|done|].
  - intros s1 s2 e1 e2 [[<- <-]|[Hn1 H1]]%lookup_insert_Some [[<- <-]|[Hn2 H2]]%lookup_insert_Some Hk; [done| | |by apply (Hu _ _ e1 e2)].
    + by apply (Hu _ _ e e2).
    + by apply (Hu _ _ e1 e).
  - intros e0 He0. cbn. congruence.
Qed.

Lemma collect_ok v : 0 < h_nb0 h -> 0 < h_nb1 h -> Forall (seat_ok h) (collect_hash_pos h v).
Proof.
  intros H0 H1. assert (Hpos : forall nb d j, 0 < nb -> j ∈ pos_of nb d -> 0 <= j < nb).
  { intros nb d j Hnb. unfold pos_of. rewrite elem_of_app, list_elem_of_fmap, list_elem_of_bind.
    intros [(i & -> & _)|(i & Hj & _)]; [by apply Z.mod_pos_bound|]. rewrite !elem_of_cons, elem_of_nil in Hj.
    destruct Hj as [->|[->|[->|[->|[]]]]]; by apply Z.mod_pos_bound. }
  unfold collect_hash_pos. apply Forall_app. split; apply Forall_fmap, Forall_forall; intros j Hj; [left|right; left]; (split; [done|]); by eapply Hpos.
Qed.

Lemma collect_not_coll v s : s ∈ collect_hash_pos h v -> s ∉ coll_seats.
Proof.
  unfold collect_hash_pos, coll_seats. rewrite elem_of_app, !list_elem_of_fmap. unfold NMHT.
  intros [(x & -> & _)|(x & -> & _)] (y & Hy & _); discriminate Hy.
Qed.

Lemma coll_ok : Forall (seat_ok h) coll_seats.
Proof. apply Forall_forall. intros s Hs. by right; right. Qed.

Lemma occ_size D l : NoDup l -> occ D l <= Z.of_nat (size D).
Proof.
  intros Hn. unfold occ. rewrite <- (size_dom (D := gset (Z * Z)) D), <- (size_list_to_set (C := gset (Z * Z))) by by apply NoDup_filter.
  apply Nat2Z.inj_le, subseteq_size. intros s Hs%elem_of_list_to_set. apply elem_of_dom. by apply list_elem_of_filter in Hs as [? _].
Qed.

Lemma prune_subseteq tnow D L D1 : prune h tnow D L D1 -> D1 ⊆ D.
Proof. intros Hp. apply map_subseteq_spec. intros s e. by eapply prune_old. Qed.

Lemma contents_prune_eq tnow D L D1 : prune h tnow D L D1 -> unique_keys D -> contents D1 = contents D -> D1 = D.
Proof.
  intros Hp Hu Heq. apply map_subseteq_size_eq; [by eapply prune_subseteq|].
  rewrite <- !size_contents by (done || by eapply prune_unique). by rewrite Heq.
Qed.

Section calls.
Context (fuel : nat) (clock : nat -> Z) (answer : log -> hook -> Z -> Z).
#[local] Abbreviation swp := (swp clock answer).
#[local] Abbreviation run := (run clock answer).

Lemma swp_run {A} (p : hprog A) (Q : A -> mem -> nat -> log -> Prop) w : swp p Q (w_mem w) (w_clk w) (w_log w) ->
  exists a w', run p w = Ok (a, w') /\ Q a (w_mem w') (w_clk w') (w_log w').
Proof. destruct w as [m c lg]. unfold swp. cbn. destruct (run p _) as [[a [m' c' lg']]|]; [|done]. intros HQ. by exists a, (World m' c' lg'). Qed.

Lemma hash_at_intro w m D l nb : pool_ok (h_mp h) -> 0 < h_nb0 h -> 0 < h_nb1 h -> w_mem w = m -> table h None m D l [] nb -> hash_at w D.
Proof. intros Hp H0 H1 <- T. split; [done|]. split; [done|]. split; [done|]. by exists l, nb. Qed.

(** An entry with the key [v] is in one of the seats that the scans look at. *)
Lemma absent_all v D m l O nb : table h None m D l O nb -> absent v D (collect_hash_pos h v) -> absent v D coll_seats -> forall s e, D !! s = Some e -> e_key e <> v.
Proof.
  intros T H1 H2 s e Hs Hk. destruct (tb_entry _ _ _ _ _ _ _ T _ _ Hs) as (_ & _ & [Hc|Hc]); [by apply (H2 s e)|].
  rewrite Hk in Hc. by apply (H1 s e).
Qed.

Definition get_hook (cbf : bool) : hook := the_hook cbf ON_GET.

(** What [atomic_hash_get] leaves, of the entries [D] at the time [tnow] after the calls [lg0]; [t] is the next reading of the clock. *)
Definition get_post (v : Z * Z) (hk : hook) (D : seats) (nb tnow t : Z) (lg0 : log) (r : Z) (m : mem) (c : nat) (lg : log) : Prop :=
  exists L D1 D' l', table h None m D' l' [] nb /\ prune h tnow D L D1 /\
    ((r = 0 /\ ~ missed tnow v D /\ exists s e, D1 !! s = Some e /\ e_key e = v /\ live tnow (e_exp e) /\ lg = (hk, e_data e) :: L ++ lg0 /\
        D' = after_hook h (answer (L ++ lg0) hk (e_data e)) t D1 s e) \/
     (r = -1 /\ D' = D1 /\ lg = L ++ lg0 /\ forall s e, D !! s = Some e -> e_key e = v -> live tnow (e_exp e) -> missed tnow v D)).

Lemma swp_get v cbf m D l nb c lg0 : (0 < fuel)%nat -> pool_ok (h_mp h) -> 0 < h_nb0 h -> 0 < h_nb1 h -> table h None m D l [] nb ->
  swp (atomic_hash_get h fuel v cbf) (get_post v (get_hook cbf) D nb (clock c) (clock (S c)) lg0) m c lg0.
Proof.
  intros Hfuel Hpool Hb0 Hb1 T. set (tnow := clock c). pose proof (tb_uniq _ _ _ _ _ _ _ T) as Hu. fold (unique_keys D) in Hu.
  unfold atomic_hash_get. apply swp_now. fold tnow. apply swp_bind.
  apply (swp_get_find h Hpool fuel Hfuel clock answer tnow v cbf _ _ _ D l nb); [done|by apply collect_ok| |].
  - intros L D1 s e m' l' c' Hp Hin Hs Hk Hl T'. apply swp_ret. eexists L, D1, _, l'. split; [exact T'|]. split; [done|]. left.
    split; [done|]. split; [|by exists s, e]. intros (pre & s2 & post & e2 & Hc & Hs2 & Hk2 & _).
    assert (s2 = s) as ->. { apply (Hu _ _ e2 e); [done|by eapply prune_old|congruence]. }
    apply (collect_not_coll v s Hin). rewrite Hc, elem_of_app. right. by left.
  - intros L D1 m1 l1 Hp Hout T1 Ha1. apply swp_bind. pose proof (prune_unique _ _ _ _ Hp Hu) as Hu1.
    assert (Hsame : forall s, s ∈ coll_seats -> D1 !! s = D !! s).
    { intros s Hs. apply Hout. intros Hin. by apply (collect_not_coll v s Hin). }
    apply (swp_get_find_coll h Hpool fuel Hfuel clock answer tnow v cbf _ _ _ D1 l1 nb); [done|by apply coll_ok|apply coll_seats_nodup|done| |].
    + intros L2 D2 pre s post e m' l' c' Hp2 Hc Hlt Hs Hk Hl T'. apply swp_ret. rewrite app_assoc in *. eexists (L2 ++ L), D2, _, l'. split; [exact T'|].
      split; [by eapply prune_trans|]. left. split; [done|]. split; [|by exists s, e]. pose proof (prune_old _ _ _ _ _ _ _ Hp2 Hs) as Hs1.
      rewrite (missed_at tnow v D pre s post e Hu Hc) by (done || by rewrite <- Hsame by (rewrite Hc, elem_of_app; right; by left)).
      destruct (split_occ tnow D D1 Hsame pre s post Hc). lia.
    + intros L2 D2 m2 l2 Hp2 T2 Ha2. destruct (tb_stat _ _ _ _ _ _ _ T2 GET_NOHIT) as [x Hx].
      apply (swp_add _ _ _ _ _ _ _ _ x); [done|]. apply swp_ret. rewrite app_assoc. exists (L2 ++ L), D2, D2, l2.
      split; [apply (table_put h T2); by intros []|]. split; [by eapply prune_trans|]. right. split; [done|]. split; [done|]. split; [done|].
      intros s e Hs Hk Hl. pose proof (prune_live _ _ _ _ _ _ _ Hp Hs Hl) as Hs1.
      destruct (tb_entry _ _ _ _ _ _ _ T _ _ Hs) as (_ & _ & [Hin|Hin]); [|by destruct (Ha1 s e); rewrite <- ?Hk].
      destruct (list_elem_of_split _ _ Hin) as (pre & post & Hc). apply (missed_at tnow v D pre s post e Hu Hc Hs Hk).
      pose proof (Ha2 pre s post e Hc Hs1 Hk Hl). destruct (split_occ tnow D D1 Hsame pre s post Hc). lia.
Qed.

(** What a call of [atomic_hash_get] for the key [v] does to the table with the entries [D]: expired
    entries may go; then, if the key has a live entry that is not [missed], it is given to the
    hook, and else the call reports that there is none. *)
Definition get_spec (v : Z * Z) (cbf : bool) (w : hworld) (D : seats) (r : Z) (w' : hworld) (D' : seats) : Prop :=
  let tnow := clock (w_clk w) in
  exists L M1, expired tnow (contents D) L M1 /\
    ((r = 0 /\ ~ missed tnow v D /\ exists d x, contents D !! v = Some (d, x) /\ M1 !! v = Some (d, x) /\ live tnow x /\
        w_log w' = (get_hook cbf, d) :: L ++ w_log w /\
        contents D' = hook_effect (answer (L ++ w_log w) (get_hook cbf) d) (clock (S (w_clk w))) M1 v d x) \/
     (r = -1 /\ contents D' = M1 /\ w_log w' = L ++ w_log w /\
        forall d x, contents D !! v = Some (d, x) -> live tnow x -> missed tnow v D)).

Lemma atomic_hash_get_run v cbf w D : (0 < fuel)%nat -> key_ok v -> hash_at w D ->
  exists r w' D', run (atomic_hash_get h fuel v cbf) w = Ok (r, w') /\ hash_at w' D' /\ get_spec v cbf w D r w' D'.
Proof.
  intros Hfuel Hv Hat. pose proof (hash_at_unique w D Hat) as Hu. destruct Hat as (Hpool & Hb0 & Hb1 & l & nb & T). set (tnow := clock (w_clk w)).
  pose proof (swp_get v cbf (w_mem w) D l nb (w_clk w) (w_log w) Hfuel Hpool Hb0 Hb1 T) as HQ.
  destruct (swp_run _ _ _ HQ) as (r & w' & Hrun & L & D1 & D' & l' & T' & Hp & Hres). pose proof (prune_unique _ _ _ _ Hp Hu) as Hu1.
  exists r, w', D'. split; [done|]. split; [by eapply hash_at_intro|]. exists L, (contents D1). split; [by apply prune_expired|].
  destruct Hres as [(-> & Hnm & s & e & Hs & <- & Hl & Hlog & ->)|(-> & -> & Hlog & Ha)].
  - left. split; [done|]. split; [done|]. exists (e_data e), (e_exp e). split; [apply contents_lookup; [done|]; exists s, e; split; [by eapply prune_old|done]|].
    split; [apply contents_lookup; eauto|]. split; [done|]. split; [done|]. by apply contents_after.
  - right. split; [done|]. split; [done|]. split; [done|]. intros d x (s & e & Hs & Hk & [= _ ->])%contents_lookup Hl; [|done]. by apply (Ha s e).
Qed.

(** What [atomic_hash_del] leaves, of the entries [D] at the time [tnow] after the calls [lg0]. *)
Definition del_post (v : Z * Z) (hk : hook) (D : seats) (nb tnow : Z) (lg0 : log) (r : Z) (m : mem) (c : nat) (lg : log) : Prop :=
  exists D' l', table h None m D' l' [] nb /\
    ((r = 0 /\ exists L D1 s e L2, prune h tnow D L D1 /\ D1 !! s = Some e /\ e_key e = v /\ live tnow (e_exp e) /\
        prune h tnow (delete s D1) L2 D' /\ lg = L2 ++ (hk, e_data e) :: L ++ lg0) \/
     (r = -1 /\ (forall s e, D' !! s = Some e -> e_key e <> v) /\ exists L, prune h tnow D L D' /\ lg = L ++ lg0)).

Lemma swp_del v cbf m D l nb c lg0 : (0 < fuel)%nat -> pool_ok (h_mp h) -> 0 < h_nb0 h -> 0 < h_nb1 h -> table h None m D l [] nb ->
  swp (atomic_hash_del h fuel v cbf) (del_post v (the_hook cbf ON_DEL) D nb (clock c) lg0) m c lg0.
Proof.
  intros Hfuel Hpool Hb0 Hb1 T. set (tnow := clock c). set (hk := the_hook cbf ON_DEL). set (Q := del_post v hk D nb tnow lg0).
  pose proof (tb_uniq _ _ _ _ _ _ _ T) as Hu. fold (unique_keys D) in Hu.
  assert (Hhit : forall m' c' lg' D' l', table h None m' D' l' [] nb ->
    (exists L D1 s e L2, prune h tnow D L D1 /\ D1 !! s = Some e /\ e_key e = v /\ live tnow (e_exp e) /\
        prune h tnow (delete s D1) L2 D' /\ lg' = L2 ++ (hk, e_data e) :: L ++ lg0) ->
    swp (if decide (0 < 1) then mret 0 else (_ ← add (AStat DEL_NOHIT) 1; mret (-1))) Q m' c' lg').
  { intros m' c' lg' D' l' T' Hex. rewrite decide_True by lia. apply swp_ret. exists D', l'. split; [done|]. by left. }
  unfold atomic_hash_del. apply swp_now. fold tnow. apply swp_bind.
  apply (swp_del_find h Hpool fuel Hfuel clock answer tnow v cbf _ _ _ D l nb); [done|by apply collect_ok| |].
  - intros L D1 s e L2 D2 m2 l2 Hp Hs Hk Hl Hp2 T2. change (0 + 1) with 1.
    assert (Hgone : forall s' e', D2 !! s' = Some e' -> e_key e' <> v).
    { intros s' e' Hs' Hk'. pose proof (prune_old _ _ _ _ _ _ _ Hp2 Hs') as [Hne Hd]%lookup_delete_Some. apply Hne.
      apply (prune_unique _ _ _ _ Hp Hu _ _ e e'); congruence. }
    apply (swp_load _ _ _ _ _ _ _ _ (occ D2 coll_seats)); [by apply (tb_ncur _ _ _ _ _ _ _ T2)|]. apply swp_bind. destruct (decide (0 < occ D2 coll_seats)).
    + apply (swp_del_find_none h Hpool fuel Hfuel clock answer tnow v cbf _ _ _ D2 l2 nb); [done|by apply coll_ok|done|].
      intros L3 D3 m3 l3 Hp3 T3. apply (Hhit _ _ _ D3 l3 T3). exists L, D1, s, e, (L3 ++ L2). split; [done|]. split; [done|]. split; [done|].
      split; [done|]. split; [by eapply prune_trans|]. by rewrite app_assoc.
    + apply swp_ret. apply (Hhit _ _ _ D2 l2 T2). by exists L, D1, s, e, L2.
  - intros L D1 m1 l1 Hp T1 Ha1.
    assert (Hmiss : forall L2 D2 m2 l2 c2, prune h tnow D1 L2 D2 -> table h None m2 D2 l2 [] nb -> absent v D2 coll_seats ->
      swp (if decide (0 < 0) then mret 0 else (_ ← add (AStat DEL_NOHIT) 1; mret (-1))) Q m2 c2 (L2 ++ L ++ lg0)).
    { intros L2 D2 m2 l2 c2 Hp2 T2 Ha2. rewrite decide_False by lia. destruct (tb_stat _ _ _ _ _ _ _ T2 DEL_NOHIT) as [x Hx].
      apply (swp_add _ _ _ _ _ _ _ _ x); [done|]. apply swp_ret. exists D2, l2. split; [apply (table_put h T2); by intros []|]. right.
      split; [done|]. split; [|exists (L2 ++ L); split; [by eapply prune_trans|by rewrite app_assoc]].
      apply (absent_all v D2 _ _ _ _ T2); [|done]. intros s e Hin Hs. apply (Ha1 s e Hin). by eapply prune_old. }
    apply (swp_load _ _ _ _ _ _ _ _ (occ D1 coll_seats)); [by apply (tb_ncur _ _ _ _ _ _ _ T1)|]. apply swp_bind. destruct (decide (0 < occ D1 coll_seats)) as [Hd|Hd].
    + apply (swp_del_find h Hpool fuel Hfuel clock answer tnow v cbf _ _ _ D1 l1 nb); [done|by apply coll_ok| |].
      * intros L2 D2 s e L3 D3 m3 l3 Hp2 Hs Hk Hl Hp3 T3. change (0 + 1) with 1. apply (Hhit _ _ _ D3 l3 T3).
        exists (L2 ++ L), D2, s, e, L3. split; [by eapply prune_trans|]. rewrite <- app_assoc. done.
      * intros L2 D2 m2 l2 Hp2 T2 Ha2. by apply (Hmiss L2 D2 m2 l2).
    + apply swp_ret. apply (Hmiss [] D1 m1 l1); [constructor|done|]. intros s e Hin Hs.
      pose proof (occ_bound D1 coll_seats). by rewrite (occ_none D1 coll_seats ltac:(lia) s Hin) in Hs.
Qed.

(** A call of [atomic_hash_del]: the key is gone; 0 if it had a live entry, which the hook was given. *)
Definition del_spec (v : Z * Z) (cbf : bool) (w : hworld) (M : kmap) (r : Z) (w' : hworld) (M' : kmap) : Prop :=
  let tnow := clock (w_clk w) in let hk := the_hook cbf ON_DEL in
  (r = 0 /\ exists d x L M1 L2, M !! v = Some (d, x) /\ live tnow x /\ expired tnow M L M1 /\ expired tnow (delete v M1) L2 M' /\
     w_log w' = L2 ++ (hk, d) :: L ++ w_log w) \/
  (r = -1 /\ M' !! v = None /\ exists L, expired tnow M L M' /\ w_log w' = L ++ w_log w).

Lemma atomic_hash_del_run v cbf w D : (0 < fuel)%nat -> key_ok v -> hash_at w D ->
  exists r w' D', run (atomic_hash_del h fuel v cbf) w = Ok (r, w') /\ hash_at w' D' /\ del_spec v cbf w (contents D) r w' (contents D').
Proof.
  intros Hfuel Hv (Hpool & Hb0 & Hb1 & l & nb & T). set (tnow := clock (w_clk w)). set (hk := the_hook cbf ON_DEL). pose proof (tb_uniq _ _ _ _ _ _ _ T) as Hu. fold (unique_keys D) in Hu.
  pose proof (swp_del v cbf (w_mem w) D l nb (w_clk w) (w_log w) Hfuel Hpool Hb0 Hb1 T) as HQ.
  destruct (swp_run _ _ _ HQ) as (r & w' & Hrun & D' & l' & T' & Hres). pose proof (tb_uniq _ _ _ _ _ _ _ T') as Hu'. fold (unique_keys D') in Hu'.
  exists r, w', D'. split; [done|]. split; [by eapply hash_at_intro|].
  destruct Hres as [(-> & L & D1 & s & e & L2 & Hp & Hs & <- & Hl & Hp2 & Hlog)|(-> & Ha & L & Hp & Hlog)].
  - left. split; [done|]. pose proof (prune_unique _ _ _ _ Hp Hu) as Hu1. exists (e_data e), (e_exp e), L, (contents D1), L2.
    split; [apply contents_lookup; [done|]; exists s, e; split; [by eapply prune_old|done]|]. split; [done|]. split; [by apply prune_expired|].
    split; [|done]. rewrite <- (contents_delete D1 s) by done. by apply prune_expired; [|apply unique_delete].
  - right. split; [done|]. split; [by apply contents_none|]. exists L. split; [by apply prune_expired|done].
Qed.

(** What [atomic_hash_add] leaves; [d] and [x] are the data and expiry time of the new entry. *)
Definition add_post (v : Z * Z) (hk : hook) (d x : Z) (D : seats) (nb tnow t : Z) (lg0 : log) (r : Z) (m : mem) (c : nat) (lg : log) : Prop :=
  exists L D1 D' l' nb', table h None m D' l' [] nb' /\ prune h tnow D L D1 /\
    ((r = 1 /\ exists s e, D1 !! s = Some e /\ e_key e = v /\ live tnow (e_exp e) /\ lg = (hk, e_data e) :: L ++ lg0 /\
        D' = after_hook h (answer (L ++ lg0) hk (e_data e)) t D1 s e) \/
     (forall s e, D1 !! s = Some e -> e_key e <> v) /\
     ((r = 0 /\ exists s mi C, let e := Entry mi v d x in calloc_calls h C /\ D1 !! s = None /\ lg = (ON_ADD, d) :: C ++ L ++ lg0 /\
         D' = after_hook h (answer (C ++ L ++ lg0) ON_ADD d) t (<[s := e]> D1) s e) \/
      (r = -1 /\ D' = D1 /\ (forall s, s ∈ coll_seats -> is_Some (D1 !! s)) /\ exists C, calloc_calls h C /\ lg = C ++ L ++ lg0) \/
      (r = -2 /\ L = [] /\ D1 = D /\ D' = D /\ l' = [] /\ no_block h answer lg0 nb' /\ lg = calloc_call h :: lg0))).

Section add.
Context (v : Z * Z) (hk : hook) (d x : Z) (D : seats) (nb tnow t : Z) (lg0 : log).
Context (Hfuel : (0 < fuel)%nat) (Hpool : pool_ok (h_mp h)) (Hb0 : 0 < h_nb0 h) (Hb1 : 0 < h_nb1 h) (Hv : key_ok v).

(** Filling in the node. *)
Lemma swp_set_hash_node (Q : unit -> mem -> nat -> log -> Prop) m D1 l nb1 ni c lg : table h None m D1 l [ni] nb1 ->
  (forall m', table h None m' D1 l [ni] nb1 -> m' !! AX ni = Some v.1 -> m' !! AY ni = Some v.2 -> m' !! AExp ni = Some x -> m' !! AData ni = Some d -> Q tt m' c lg) ->
  swp (set_hash_node ni v d x) Q m c lg.
Proof using.
  intros T HQ. unfold set_hash_node.
  assert (Hst : forall m a z, table h None m D1 l [ni] nb1 -> a ∈ node_addrs ni -> is_Some (m !! a) /\ table h None (<[a := z]> m) D1 l [ni] nb1).
  { intros m1 a z T1 Ha. split; [|by apply (table_own h T1 ni); [left|]]. eapply (tb_mapped _ _ _ _ _ _ _ T1 ni); [|done].
    apply (tb_id h T1). rewrite !elem_of_app. right. left. by left. }
  destruct (Hst _ (AX ni) v.1 T) as [H1 T1]; [by left|]. apply swp_store; [done|].
  destruct (Hst _ (AY ni) v.2 T1) as [H2 T2]; [by right; left|]. apply swp_store; [done|].
  destruct (Hst _ (AExp ni) x T2) as [H3 T3]; [by do 2 right; left|]. apply swp_store; [done|].
  destruct (Hst _ (AData ni) d T3) as [H4 T4]; [by do 3 right; left|]. apply swp_store; [done|].
  apply HQ; [done| | | |]; rewrite ?lookup_insert_ne by done; apply lookup_insert_eq.
Qed.

(** Looking for a seat for the filled node. *)
Lemma swp_seat_it m D1 l nb1 ni c L C : table h None m D1 l [ni] nb1 -> prune h tnow D L D1 -> calloc_calls h C -> t = clock c ->
  (forall s e, D1 !! s = Some e -> e_key e <> v) ->
  swp (_ ← set_hash_node ni v d x;
       ok ← add_seat h fuel ni (collect_hash_pos h v);
       if (ok : bool) then mret 0
       else
         n ← load (ANcur NMHT);
         ok ← (if decide (n < MINTAB) then add_seat h fuel ni coll_seats else mret false);
         if (ok : bool) then mret 0
         else (_ ← memset_node ni; _ ← free_node fuel ni; _ ← add (AStat ADD_NOSIT) 1; mret (-1)))
    (add_post v hk d x D nb tnow t lg0) m c (C ++ L ++ lg0).
Proof using Hfuel Hpool Hb0 Hb1 Hv.
  intros T Hp HC -> Ha. apply swp_bind, (swp_set_hash_node _ _ _ _ _ _ _ _ T). clear m T. intros m T Hx Hy He Hd.
  set (e := Entry ni v d x). change [ni] with [e_node e] in T.
  assert (Hyes : forall s m' l' c', D1 !! s = None -> table h None m' (after_hook h (answer (C ++ L ++ lg0) ON_ADD d) (clock c) (<[s := e]> D1) s e) l' [] nb1 ->
    add_post v hk d x D nb tnow (clock c) lg0 0 m' c' ((ON_ADD, d) :: C ++ L ++ lg0)).
  { intros s m' l' c' Hs T'. eexists L, D1, _, l', nb1. split; [exact T'|]. split; [done|]. right. split; [done|]. left. split; [done|]. by exists s, ni, C. }
  apply swp_bind. apply (swp_add_seat h Hpool fuel Hfuel clock answer _ _ _ D1 l nb1 e); try done; [by apply collect_ok|by right| |].
  { intros s m' l' c' _ Hs T'. apply swp_ret. by eapply Hyes. }
  intros _. assert (Hno : (forall s, s ∈ coll_seats -> is_Some (D1 !! s)) ->
    swp (_ ← memset_node ni; _ ← free_node fuel ni; _ ← add (AStat ADD_NOSIT) 1; mret (-1)) (add_post v hk d x D nb tnow (clock c) lg0) m c (C ++ L ++ lg0)).
  { intros Hfull. apply swp_bind, (swp_memset_node h clock answer _ _ _ _ _ _ _ _ _ _ T). intros m1 T1.
    apply swp_bind, (swp_free_node h Hpool fuel Hfuel clock answer _ _ _ _ _ _ _ _ _ _ T1). intros m2 T2.
    destruct (tb_stat _ _ _ _ _ _ _ T2 ADD_NOSIT) as [y Hy2]. apply (swp_add _ _ _ _ _ _ _ _ y); [done|]. apply swp_ret.
    exists L, D1, D1, (e_node e :: l), nb1. split; [apply (table_put h T2); by intros []|]. split; [done|]. right. split; [done|]. right. left.
    split; [done|]. split; [done|]. split; [done|]. by exists C. }
  apply (swp_load _ _ _ _ _ _ _ _ (occ D1 coll_seats)); [by apply (tb_ncur _ _ _ _ _ _ _ T)|]. apply swp_bind.
  destruct (decide (occ D1 coll_seats < MINTAB)) as [Hlt|Hge].
  - apply (swp_add_seat h Hpool fuel Hfuel clock answer _ _ _ D1 l nb1 e); try done; [apply coll_ok|by left|].
    intros s m' l' c' _ Hs T'. apply swp_ret. by eapply Hyes.
  - apply swp_ret, Hno, occ_full. pose proof (occ_bound D1 coll_seats). change (Z.of_nat (length coll_seats)) with 64 in *. unfold MINTAB in Hge. lia.
Qed.
End add.

Lemma swp_add_op v cbf d init_ttl m D l nb c lg0 : (0 < fuel)%nat -> pool_ok (h_mp h) -> 0 < h_nb0 h -> 0 < h_nb1 h -> key_ok v -> table h None m D l [] nb ->
  swp (atomic_hash_add h fuel v d init_ttl cbf)
    (add_post v (the_hook cbf ON_DUP) d (if decide (0 < init_ttl) then u64 (init_ttl + clock c) else 0) D nb (clock c) (clock (S c)) lg0) m c lg0.
Proof.
  intros Hfuel Hpool Hb0 Hb1 Hv T. set (tnow := clock c). set (x := if decide (0 < init_ttl) then _ else _).
  set (Q := add_post v (the_hook cbf ON_DUP) d x D nb tnow (clock (S c)) lg0). unfold atomic_hash_add. apply swp_now. fold tnow.
  assert (Hhit : forall L D1 s e m' l' c' ni1, prune h tnow D L D1 -> D1 !! s = Some e -> e_key e = v -> live tnow (e_exp e) ->
    table h None m' (after_hook h (answer (L ++ lg0) (the_hook cbf ON_DUP) (e_data e)) (clock (S c)) D1 s e) l' (own ni1) nb ->
    swp (_ ← (if decide (ni1 <> NNULL) then free_node fuel ni1 else mret tt); mret 1) Q m' c' ((the_hook cbf ON_DUP, e_data e) :: L ++ lg0)).
  { intros L D1 s e m' l' c' ni1 Hp Hs Hk Hl T'. apply swp_bind. unfold own in T'.
    assert (Hend : forall m2 l2, table h None m2 (after_hook h (answer (L ++ lg0) (the_hook cbf ON_DUP) (e_data e)) (clock (S c)) D1 s e) l2 [] nb ->
      Q 1 m2 c' ((the_hook cbf ON_DUP, e_data e) :: L ++ lg0)).
    { intros m2 l2 T2. eexists L, D1, _, l2, nb. split; [exact T2|]. split; [done|]. left. split; [done|]. by exists s, e. }
    destruct (decide (ni1 = NNULL)) as [->|Hne].
    - rewrite decide_False by (intros Hne; by apply Hne). apply swp_ret, swp_ret. by eapply Hend.
    - rewrite decide_True by done. apply (swp_free_node h Hpool fuel Hfuel clock answer _ _ _ _ _ _ _ _ _ _ T'). intros m2 T2. apply swp_ret. by eapply Hend. }
  assert (Hmiss : forall L D1 m1 l1 ni1, prune h tnow D L D1 -> table h None m1 D1 l1 (own ni1) nb -> kept D NNULL L D1 ni1 ->
    (forall s e, D1 !! s = Some e -> e_key e <> v) ->
    swp (ni ← (if decide (ni1 = NNULL) then new_node h fuel else mret ni1);
         if decide (ni = NNULL) then mret (-2)
         else
           _ ← set_hash_node ni v d x; ok ← add_seat h fuel ni (collect_hash_pos h v);
           if (ok : bool) then mret 0
           else
             n ← load (ANcur NMHT); ok ← (if decide (n < MINTAB) then add_seat h fuel ni coll_seats else mret false);
             if (ok : bool) then mret 0 else (_ ← memset_node ni; _ ← free_node fuel ni; _ ← add (AStat ADD_NOSIT) 1; mret (-1))) Q m1 (S c) (L ++ lg0)).
  { intros L D1 m1 l1 ni1 Hp T1 Hk Ha. apply swp_bind. unfold own in T1. destruct (decide (ni1 = NNULL)) as [Hn|Hn].
    - destruct (Hk Hn) as (_ & -> & ->). apply (swp_new_node h Hpool fuel Hfuel clock answer _ _ _ _ _ _ _ _ _ T1).
      + intros -> Hnb m2 T2. rewrite decide_True by done. apply swp_ret. exists [], D, D, [], nb. split; [done|]. split; [constructor|]. right.
        split; [done|]. right. right. done.
      + intros ni m2 l2 nb2 C HC T2 Hne. rewrite decide_False by done. by apply (swp_seat_it _ _ _ _ _ _ _ _ _ Hfuel Hpool Hb0 Hb1 Hv m2 D l2 nb2 ni _ [] C).
    - apply swp_ret. rewrite decide_False by done. apply (swp_seat_it _ _ _ _ _ _ _ _ _ Hfuel Hpool Hb0 Hb1 Hv m1 D1 l1 nb ni1 _ L []); try done. by left. }
  apply swp_bind. apply (swp_add_find h Hpool fuel Hfuel clock answer tnow v cbf _ _ _ D l nb); [exact T|by apply collect_ok| |].
  - intros L D1 s e m' l' c' ni1 Hp Hs Hk Hl T'. apply swp_bind, swp_ret. by eapply Hhit.
  - intros L D1 m1 l1 ni1 Hp T1 Hk Ha1. apply swp_bind. cbn [fst snd].
    apply (swp_load _ _ _ _ _ _ _ _ (occ D1 coll_seats)); [by apply (tb_ncur _ _ _ _ _ _ _ T1)|].
    apply (swp_add_find_coll h Hpool fuel Hfuel clock answer tnow v cbf _ _ _ D1 l1 nb); [done|apply coll_ok|apply coll_seats_nodup| | |].
    + pose proof (occ_bound D1 coll_seats). change (Z.of_nat (length coll_seats)) with 64 in *. apply u32_small. lia.
    + intros L2 D2 s e m' l' c' ni2 Hp2 Hs Hk2 Hl T'. rewrite app_assoc in *. eapply Hhit; [by eapply prune_trans|done|done|done|exact T'].
    + intros L2 D2 m2 l2 ni2 Hp2 T2 Hk2 Ha2. rewrite app_assoc. cbn [fst snd]. apply (Hmiss (L2 ++ L) D2 m2 l2); [by eapply prune_trans|done| |].
      * intros Hn2. destruct (Hk2 Hn2) as (Hn1 & -> & ->). destruct (Hk Hn1) as (_ & -> & ->). done.
      * apply (absent_all v D2 _ _ _ _ T2); [|done]. intros s e Hin Hs. apply (Ha1 s e Hin). by eapply prune_old.
Qed.

(** The most entries the pool has nodes for. *)
Definition capacity : Z := mp_max_blocks (h_mp h) * mask1 h.

(** A call of [atomic_hash_add]: a live entry of the key is given to the hook (1); or the entry is
    new and given to the hook for new entries (0); or it had no seat, with the collision array
    full (-1); or no node, because [calloc] failed or the table is full (-2). *)
Definition add_spec (v : Z * Z) (d init_ttl : Z) (cbf : bool) (w : hworld) (M : kmap) (r : Z) (w' : hworld) (M' : kmap) : Prop :=
  let tnow := clock (w_clk w) in let t := clock (S (w_clk w)) in let hk := the_hook cbf ON_DUP in
  let x := if decide (0 < init_ttl) then u64 (init_ttl + tnow) else 0 in
  exists L M1, expired tnow M L M1 /\
    ((r = 1 /\ exists d1 x1, M1 !! v = Some (d1, x1) /\ live tnow x1 /\ w_log w' = (hk, d1) :: L ++ w_log w /\
        M' = hook_effect (answer (L ++ w_log w) hk d1) t M1 v d1 x1) \/
     M1 !! v = None /\
     ((r = 0 /\ exists C, calloc_calls h C /\ w_log w' = (ON_ADD, d) :: C ++ L ++ w_log w /\
         M' = hook_effect (answer (C ++ L ++ w_log w) ON_ADD d) t (<[v := (d, x)]> M1) v d x) \/
      (r = -1 /\ M' = M1 /\ 64 <= Z.of_nat (size M1) /\ exists C, calloc_calls h C /\ w_log w' = C ++ L ++ w_log w) \/
      (r = -2 /\ M' = M /\ w_log w' = calloc_call h :: w_log w /\
         (answer (w_log w) CALLOC (calloc_call h).2 = 0 \/ Z.of_nat (size M) = capacity)))).

Lemma atomic_hash_add_run v d init_ttl cbf w D : (0 < fuel)%nat -> key_ok v -> hash_at w D ->
  exists r w' D', run (atomic_hash_add h fuel v d init_ttl cbf) w = Ok (r, w') /\ hash_at w' D' /\ add_spec v d init_ttl cbf w (contents D) r w' (contents D').
Proof.
  intros Hfuel Hv (Hpool & Hb0 & Hb1 & l & nb & T). set (tnow := clock (w_clk w)). set (t := clock (S (w_clk w))). pose proof (tb_uniq _ _ _ _ _ _ _ T) as Hu. fold (unique_keys D) in Hu.
  pose proof (swp_add_op v cbf d init_ttl (w_mem w) D l nb (w_clk w) (w_log w) Hfuel Hpool Hb0 Hb1 Hv T) as HQ.
  fold tnow t in HQ. set (x := if decide (0 < init_ttl) then u64 (init_ttl + tnow) else 0) in HQ.
  destruct (swp_run _ _ _ HQ) as (r & w' & Hrun & L & D1 & D' & l' & nb' & T' & Hp & Hres). pose proof (prune_unique _ _ _ _ Hp Hu) as Hu1.
  pose proof (tb_uniq _ _ _ _ _ _ _ T') as Hu'. fold (unique_keys D') in Hu'.
  exists r, w', D'. split; [done|]. split; [by eapply hash_at_intro|]. exists L, (contents D1). split; [by apply prune_expired|].
  destruct Hres as [(-> & s & e & Hs & <- & Hl & Hlog & ->)|(Ha & Hres)]; [|right; split; [by apply contents_none|]].
  { left. split; [done|]. exists (e_data e), (e_exp e). split; [apply contents_lookup; eauto|]. split; [done|]. split; [done|]. by apply contents_after. }
  destruct Hres as [(-> & s & mi & C & HC & Hs & Hlog & ->)|[(-> & -> & Hfull & C & HC & Hlog)|(-> & -> & -> & -> & -> & Hnb & Hlog)]].
  - left. split; [done|]. exists C. split; [done|]. split; [done|]. assert (Hu2 : unique_keys (<[s := Entry mi v d x]> D1)).
    { intros s1 s2 e1 e2 [[<- <-]|[Hn1 H1]]%lookup_insert_Some [[<- <-]|[Hn2 H2]]%lookup_insert_Some Hk; [done| | |by apply (Hu1 _ _ e1 e2)]; cbn in Hk; exfalso; [by apply (Ha s2 e2)|by apply (Ha s1 e1)]. }
    rewrite contents_after by (done || apply lookup_insert_eq). f_equal. cbn [e_key e_data e_exp].
    apply (contents_insert D1 s (Entry mi v d x)); [done|done|]. intros e0 He0. congruence.
  - right. left. split; [done|]. split; [done|]. split; [|by exists C]. rewrite size_contents by done.
    pose proof (occ_size D1 coll_seats coll_seats_nodup) as Hsz. replace (occ D1 coll_seats) with 64 in Hsz; [done|].
    by rewrite (occ_all D1 coll_seats Hfull).
  - right. right. split; [done|]. split; [done|]. split; [done|]. destruct Hnb as [H0|Hm]; [by left|right].
    rewrite size_contents by done. pose proof (tb_nodes _ _ _ _ _ _ _ T') as Hperm%Permutation_length. cbn [app] in Hperm. rewrite length_nodes in Hperm.
    rewrite Hperm, length_zseq; [by rewrite Hm|]. pose proof (mask1_pos h Hpool). pose proof (tb_curr _ _ _ _ _ _ _ T') as [_ Hb]. nia.
Qed.
End calls.
End contract.
