(* ===== verification/AtomicSpec.v ===== *)
(** * The atomic hash: one thread, from creation

    [atomic_hash_create] makes an empty map with room for the nodes that were asked for, and
    sequences of calls with keys of bytes, hashed by CityHash, are operations on it. *)
From S2P Require Import Prelude CLib Bytes City Conc AtomicHash FreeList AtomicTable AtomicOps AtomicScan AtomicHashOk.

#[local] Open Scope Z_scope.

(** ** A new table *)
Lemma hash_words_seat h s : seat_ok h s -> (ASeat s.1 s.2, NNULL) ∈ hash_words h.
Proof.
  intros Hs. unfold hash_words. rewrite !elem_of_app. destruct s as [t j]. cbn [fst snd]. destruct Hs as [[Ht Hj]|[[Ht Hj]|Hs]]; cbn [fst snd] in *.
  - left. subst t. apply list_elem_of_fmap. exists (Z.to_nat j). split; [f_equal; f_equal; lia|]. apply elem_of_seq. lia.
  - right. left. subst t. apply list_elem_of_fmap. exists (Z.to_nat j). split; [f_equal; f_equal; lia|]. apply elem_of_seq. lia.
  - right. right. left. apply list_elem_of_fmap. by exists (t, j).
Qed.

Lemma table_new h : pool_ok (h_mp h) -> table h None (list_to_map (hash_words h)) ∅ [] [] 0.
Proof.
  intros Hpool. assert (Hin : forall a v, (a, v) ∈ hash_words h -> (list_to_map (hash_words h) : mem) !! a = Some v) by apply hash_words_lookup.
  assert (Hctr : forall t a v, 0 <= t <= 2 -> (a, v) ∈ (ANcur t, 0) :: ((fun c => (ACtr t c, 0)) <$> [NADD; NDUP; NGET; NDEL]) -> (a, v) ∈ hash_words h).
  { intros t a v Ht Hc. unfold hash_words. rewrite !elem_of_app. do 3 right. left. apply list_elem_of_bind. exists t. split; [exact Hc|].
    rewrite !elem_of_cons, elem_of_nil. lia. }
  split; try (intros; by rewrite lookup_empty in *).
  - intros t j Hs. rewrite lookup_empty. cbn. apply Hin. by apply (hash_words_seat h (t, j)).
  - done.
  - intros x a Hx. lia.
  - exists (pack NNULL 0). split; [|by split]. apply Hin. unfold hash_words. rewrite !elem_of_app. do 6 right. right. by left.
  - split; [|destruct Hpool; lia]. apply Hin. unfold hash_words. rewrite !elem_of_app. do 6 right. by left.
  - intros i Hi. rewrite decide_False by lia. apply Hin. by apply hash_words_blk.
  - apply Hin. apply (Hctr 2); [lia|]. by left.
  - intros t Ht. exists 0. apply Hin. apply (Hctr t); [done|]. by left.
  - intros t c Ht. exists 0. apply Hin. apply (Hctr t); [done|]. right. apply list_elem_of_fmap. exists c. split; [done|]. destruct c; set_solver.
  - intros s. exists 0. apply Hin. unfold hash_words. rewrite !elem_of_app. do 4 right. left. apply list_elem_of_fmap. exists s. split; [done|]. destruct s; set_solver.
Qed.

Lemma init_htab_pos nb : 0 < init_htab nb.
Proof. unfold init_htab. repeat case_decide; unfold MAXTAB, NNULL, MINTAB in *; lia. Qed.

Lemma hash_at_new n reset_ttl nb0 nb1 h w : atomic_hash_create n reset_ttl nb0 nb1 = Ok (Some (h, w)) -> hash_at h w ∅.
Proof.
  intros Hc. destruct (create_pool_ok _ _ _ _ _ _ Hc) as [-> Hpool]. split; [done|].
  assert (Hnb : 0 < h_nb0 h /\ 0 < h_nb1 h).
  { unfold atomic_hash_create in Hc. case_decide; [done|]. destruct (create_mem_pool n NODE_SIZE) as [[mp|]|]; [|done|done].
    injection Hc as <-. split; apply init_htab_pos. }
  destruct Hnb as [H0 H1]. split; [done|]. split; [done|]. exists [], 0. by apply table_new.
Qed.

(** ** Calls *)
Inductive hop := HGet (kwd : bytes) (cbf : bool) | HAdd (kwd : bytes) (d init_ttl : Z) (cbf : bool) | HDel (kwd : bytes) (cbf : bool).

Definition hop_key (o : hop) : bytes := match o with HGet k _ | HAdd k _ _ _ | HDel k _ => k end.

Section calls.
Context (crc32_u64 : Z -> Z -> Z) (h : htable) (fuel : nat) (clock : nat -> Z) (answer : log -> hook -> Z -> Z).
#[local] Abbreviation run := (run clock answer).

Definition hop_prog (o : hop) (v : Z * Z) : hprog Z :=
  match o with
  | HGet _ cbf => atomic_hash_get h fuel v cbf
  | HAdd _ d ttl cbf => atomic_hash_add h fuel v d ttl cbf
  | HDel _ cbf => atomic_hash_del h fuel v cbf
  end.

(** A call; [words] is what the 16 bytes at the key read as, for the callers that pass a hash. *)
Definition hop_call (o : hop) (words : Z * Z) (w : hworld) : result (Z * hworld) :=
  v ← call_key (cityhash_128 crc32_u64) (hop_key o) (Z.of_nat (length (hop_key o))) words;
  match v with None => Ok (-3, w) | Some v => run (hop_prog o v) w end.

Fixpoint hop_calls (ops : list hop) (w : hworld) : result (list Z * hworld) :=
  match ops with
  | [] => Ok ([], w)
  | o :: ops => '(r, w) ← hop_call o (0, 0) w; '(rs, w) ← hop_calls ops w; Ok (r :: rs, w)
  end.

(** What a call does to the entries; adding and deleting are operations on their [contents]. *)
Definition hop_spec (o : hop) (v : Z * Z) (w : hworld) (D : seats) (r : Z) (w' : hworld) (D' : seats) : Prop :=
  match o with
  | HGet _ cbf => get_spec h clock answer v cbf w D r w' D'
  | HAdd _ d ttl cbf => add_spec h clock answer v d ttl cbf w (contents D) r w' (contents D')
  | HDel _ cbf => del_spec h clock v cbf w (contents D) r w' (contents D')
  end.

(** The calls one after the other: keys are identified by their hash. *)
Inductive hops_spec : list hop -> hworld -> seats -> list Z -> hworld -> seats -> Prop :=
  | hops_nil w D : hops_spec [] w D [] w D
  | hops_cons o ops w D v r w1 D1 rs w' D' : cityhash_128 crc32_u64 (hop_key o) (Z.of_nat (length (hop_key o))) = Ok v ->
      hop_spec o v w D r w1 D1 -> hops_spec ops w1 D1 rs w' D' -> hops_spec (o :: ops) w D (r :: rs) w' D'.

Lemma hop_call_run o words w D : (0 < fuel)%nat -> hop_key o <> [] -> hash_at h w D ->
  exists v r w' D', cityhash_128 crc32_u64 (hop_key o) (Z.of_nat (length (hop_key o))) = Ok v /\ hop_call o words w = Ok (r, w') /\
    hash_at h w' D' /\ hop_spec o v w D r w' D'.
Proof.
  intros Hfuel Hk Hinv. destruct (cityhash_128_defined crc32_u64 (hop_key o)) as [v Hv]. pose proof (cityhash_128_words _ _ _ _ Hv) as Hok.
  unfold hop_call, call_key. rewrite decide_True by (destruct (hop_key o); [done|cbn; lia]). rewrite Hv. cbn [fmap result_fmap mbind result_bind].
  exists v. destruct o as [k cbf|k d ttl cbf|k cbf]; cbn [hop_prog hop_spec].
  - destruct (atomic_hash_get_run h fuel clock answer v cbf w D Hfuel Hok Hinv) as (r & w' & D' & Hr & Hi & Hs). by exists r, w', D'.
  - destruct (atomic_hash_add_run h fuel clock answer v d ttl cbf w D Hfuel Hok Hinv) as (r & w' & D' & Hr & Hi & Hs). by exists r, w', D'.
  - destruct (atomic_hash_del_run h fuel clock answer v cbf w D Hfuel Hok Hinv) as (r & w' & D' & Hr & Hi & Hs). by exists r, w', D'.
Qed.

Lemma hop_calls_run ops w D : (0 < fuel)%nat -> Forall (fun o => hop_key o <> []) ops -> hash_at h w D ->
  exists rs w' D', hop_calls ops w = Ok (rs, w') /\ hops_spec ops w D rs w' D' /\ hash_at h w' D'.
Proof.
  intros Hfuel Hks. revert w D. induction Hks as [|o ops Hk Hks IH]; intros w D Hinv; [exists [], w, D; split; [done|]; split; [constructor|done]|].
  destruct (hop_call_run o (0, 0) w D Hfuel Hk Hinv) as (v & r & w1 & D1 & Hv & Hc & Hi1 & Hs).
  destruct (IH w1 D1 Hi1) as (rs & w' & D' & Hcs & Hss & Hi'). exists (r :: rs), w', D'. cbn [hop_calls]. rewrite Hc. cbn [mbind result_bind]. rewrite Hcs.
  split; [done|]. split; [by econstructor|done].
Qed.
End calls.

(** C5: Any calls of [atomic_hash_get], [atomic_hash_add] and [atomic_hash_del] by one thread, from
    a new table, whatever the clock, the hooks and [calloc] answer, the keys non-empty byte
    strings that the table knows by their 128-bit hash: each ends without a fault, and does to
    the map from hashes to data and expiry time what its specification says.  All three may remove
    expired entries.  Adding finds a live entry, or inserts one, or says why not; deleting removes the
    entry.  Getting is a lookup in all cases but exactly one: the live entry of the key is in the
    collision array, and the entries in front of it plus the expired ones among these are as
    many as the array holds ([missed]); then it answers -1, and else the entry. *)
Theorem atomic_hash_refines_map crc32_u64 max_nodes reset_ttl nb0 nb1 h w fuel clock answer ops
    (Hcreate : atomic_hash_create max_nodes reset_ttl nb0 nb1 = Ok (Some (h, w)))
    (Hfuel : (0 < fuel)%nat) (Hkeys : Forall (fun o => hop_key o <> []) ops) :
  exists rs w' D', hop_calls crc32_u64 h fuel clock answer ops w = Ok (rs, w') /\
    hops_spec crc32_u64 h clock answer ops w ∅ rs w' D' /\ hash_at h w' D'.
Proof. apply hop_calls_run; [done|done|by eapply hash_at_new]. Qed.

(** Calls on a new table, with a constant clock. *)
Definition sample_calls : list hop := [HAdd [107; 49] 77 0 false; HAdd [107; 50] 78 0 false; HAdd [107; 49] 79 0 false; HGet [107; 49] false; HDel [107; 49] false; HGet [107; 49] false].

Lemma atomic_hash_refines_map_witness : exists rs w' D',
  hop_calls Z.lxor sample_hash 4 sample_clock sample_answer sample_calls sample_world = Ok (rs, w') /\
  hops_spec Z.lxor sample_hash sample_clock sample_answer sample_calls sample_world ∅ rs w' D' /\ hash_at sample_hash w' D'.
Proof.
  apply (atomic_hash_refines_map Z.lxor 4 0 64 64).
  - apply sample_create.
  - lia.
  - repeat constructor; done.
Defined.

Example sample_results : fst <$> hop_calls Z.lxor sample_hash 4 sample_clock sample_answer sample_calls sample_world = Ok [0; 0; 1; 0; 0; -1].
Proof. vm_compute. reflexivity. Qed.

(** ** The pool *)
(** A pool made for up to 2^31 nodes has room for them; the number of a node stays below the
    mark for no node, and gives a block below the bound and a place inside the block, from
    which the number can be told.  For more nodes, which [atomic_hash_create] accepts up to
    2^32 - 1, the shift that looks for the power of two is undefined. *)
Theorem create_mem_pool_bounds n (Hn : 2 <= n <= MAXTAB) :
  if decide (n <= 2 ^ 31)
  then exists mp, create_mem_pool n NODE_SIZE = Ok (Some mp) /\ n <= mp_max_blocks mp * mp_blk_node_num mp <= 2 ^ 31 /\
    forall i, 0 <= i < mp_max_blocks mp * mp_blk_node_num mp ->
      0 <= (i2p mp i).1 < mp_max_blocks mp /\ 0 <= (i2p mp i).2 < mp_blk_node_num mp /\
      i = (i2p mp i).1 * mp_blk_node_num mp + (i2p mp i).2
  else create_mem_pool n NODE_SIZE = Fault OutOfBounds.
Proof.
  unfold MAXTAB, NNULL in Hn. case_decide as Hd.
  - destruct (create_mem_pool_node n ltac:(lia)) as (mp & q & Hmp & Hq & Hnq & ->). eexists. split; [exact Hmp|]. cbn [mp_max_blocks mp_blk_node_num].
    set (k := Z.max 7 (q - 9)). assert (Hk : 7 <= k <= 22) by lia. assert (Hpow : 2 ^ q <= 512 * 2 ^ k).
    { change 512 with (2 ^ 9). rewrite <- Z.pow_add_r by lia. apply Z.pow_le_mono_r; lia. }
    assert (Hpow2 : 512 * 2 ^ k <= 2 ^ 31).
    { change 512 with (2 ^ 9). rewrite <- Z.pow_add_r by lia. apply Z.pow_le_mono_r; lia. }
    assert (0 < 2 ^ k) by (apply Z.pow_pos_nonneg; lia). split; [lia|]. intros i Hi.
    unfold i2p. cbn [mp_shift mp_mask fst snd]. rewrite Z.shiftr_div_pow2 by lia.
    replace (2 ^ k - 1) with (Z.ones k) by (rewrite Z.ones_equiv; lia). rewrite Z.land_ones by lia.
    split; [split; [apply Z.div_pos; lia|apply Z.div_lt_upper_bound; lia]|]. split; [apply Z.mod_pos_bound; lia|].
    pose proof (Z.div_mod i (2 ^ k)). lia.
  - unfold create_mem_pool, shift_loop. by rewrite (decide_True (P := 2 ^ 31 < n)) by lia.
Qed.

Lemma create_mem_pool_bounds_witness : exists mp, create_mem_pool 100000 NODE_SIZE = Ok (Some mp) /\ 100000 <= mp_max_blocks mp * mp_blk_node_num mp.
Proof.
  pose proof (create_mem_pool_bounds 100000 ltac:(unfold MAXTAB, NNULL; lia)) as Hp. rewrite decide_True in Hp by lia.
  destruct Hp as (mp & Hmp & [Hc _] & _). by exists mp.
Defined.

(** ** A live key that is not found *)
(** Keys given as hashes whose words are multiples of the sizes of both arrays: they share one
    seat in each. *)
Definition shared_key (i : Z) : Z * Z := (64 * i, 64).

(** The first two fill the seats, the third (with a time to live of 10) and the fourth go to the
    collision array. *)
Definition misses_setup : hprog (list Z) :=
  a ← atomic_hash_add sample_hash 4 (shared_key 1) 71 0 false; b ← atomic_hash_add sample_hash 4 (shared_key 2) 72 0 false;
  c ← atomic_hash_add sample_hash 4 (shared_key 3) 73 10 false; d ← atomic_hash_add sample_hash 4 (shared_key 4) 74 0 false;
  mret [a; b; c; d].
Definition misses_gets : hprog (Z * Z) :=
  a ← atomic_hash_get sample_hash 4 (shared_key 4) false; b ← atomic_hash_get sample_hash 4 (shared_key 4) false; mret (a, b).

(** The clock stands at 1000 while the four keys are added, then at 2000. *)
Definition misses_clock (n : nat) : Z := if decide (n < 4)%nat then 1000 else 2000.

Definition misses_end : option (list Z * (Z * Z)) :=
  match run misses_clock sample_answer misses_setup sample_world with
  | Ok (l, w) => match run misses_clock sample_answer misses_gets w with Ok (p, _) => Some (l, p) | Fault _ => None end
  | Fault _ => None
  end.

(** [atomic_hash_get] compares the number of nodes it has seen in the collision array with the
    number there are at the moment, which it has itself decreased when it removed an expired
    one: a key that was added and never expires is reported as absent (-1) by one call, and
    found (0) by the next. *)
Theorem atomic_hash_get_misses : exists w w1,
  run misses_clock sample_answer misses_setup sample_world = Ok ([0; 0; 0; 0], w) /\
  run misses_clock sample_answer misses_gets w = Ok ((-1, 0), w1).
Proof.
  assert (Hend : misses_end = Some ([0; 0; 0; 0], (-1, 0))) by (vm_compute; reflexivity). unfold misses_end in Hend.
  destruct (run misses_clock sample_answer misses_setup sample_world) as [[l w]|] eqn:E; [|discriminate Hend].
  destruct (run misses_clock sample_answer misses_gets w) as [[p w1]|] eqn:E1; [|discriminate Hend].
  injection Hend as -> ->. exists w, w1. split; [reflexivity|exact E1].
Qed.
