(* ===== verification/AtomicRace.v ===== *)
(** * The atomic hash: two threads on one key

    [FreeList] shows that the free list keeps its nodes apart when a thread gives back only
    nodes it holds.  [atomic_hash_del] and [atomic_hash_add] of
    src/lib/atomic_hash/src/atomic_hash.c do not keep to that when a node is given back and
    taken again between the moment another thread reads the seat and the moment it holds the
    node: an execution in which a node gets into the list twice. *)
From S2P Require Import Prelude CLib Conc AtomicHash FreeList.

#[local] Open Scope Z_scope.

(** One key, in the table with the data 77. *)
Definition race_key : Z * Z := (11, 12).
Definition race_setup : hprog Z := atomic_hash_add sample_hash 5 race_key 77 0 false.

(** The threads: one deletes the key and adds it again, the other deletes it. *)
Definition race_readd : hprog Z :=
  _ ← atomic_hash_del sample_hash 5 race_key false; atomic_hash_add sample_hash 5 race_key 78 0 false.
Definition race_del : hprog Z := atomic_hash_del sample_hash 5 race_key false.

(** The second reads the seat of the node; the first deletes the node, takes it again from the
    free list and writes the key into it; the second holds it by that key; the first puts it
    in its seat; the second removes it and gives it back; the first writes the word of the
    key it had read, which is by now the link of the free list. *)
Definition race_turns : list nat :=
  repeat 1%nat 5 ++ repeat 0%nat 96 ++ repeat 1%nat 1 ++ repeat 0%nat 8 ++ repeat 1%nat 100 ++ repeat 0%nat 100.

Definition two_nodes : hprog (Z * Z) := a ← new_node sample_hash 5; b ← new_node sample_hash 5; mret (a, b).

(** What a check of the end of the execution sees. *)
Definition race_end : option (Z * Z * (Z * Z)) :=
  match run sample_clock sample_answer race_setup sample_world with
  | Ok (_, w) =>
      match schedule sample_clock sample_answer race_turns ([race_readd; race_del], w) with
      | Ok ([Ret a; Ret b], w) =>
          match run sample_clock sample_answer two_nodes w with Ok (p, _) => Some (a, b, p) | Fault _ => None end
      | _ => None
      end
  | Fault _ => None
  end.

(** C32: Two threads that delete one key while one of them adds it again: both report success, and
    the free list then contains a cycle, so that the next two calls of [new_node] return the
    same node. *)
Theorem atomic_hash_del_race : exists w turns w1 w2,
  run sample_clock sample_answer race_setup sample_world = Ok (0, w) /\
  schedule sample_clock sample_answer turns ([race_readd; race_del], w) = Ok ([Ret 0; Ret 0], w1) /\
  run sample_clock sample_answer two_nodes w1 = Ok ((0, 0), w2).
Proof.
  assert (Hend : race_end = Some (0, 0, (0, 0))) by (vm_compute; reflexivity).
  assert (Hset : fst <$> run sample_clock sample_answer race_setup sample_world = Ok 0) by (vm_compute; reflexivity).
  unfold race_end in Hend. destruct (run sample_clock sample_answer race_setup sample_world) as [[r w]|] eqn:E; [|discriminate Hend].
  injection Hset as ->.
  destruct (schedule sample_clock sample_answer race_turns ([race_readd; race_del], w)) as [[ps w1]|] eqn:E1; [|discriminate Hend].
  destruct ps as [|[a|e k|f] [|[b|e' k'|f'] [|p ps]]]; try discriminate Hend.
  destruct (run sample_clock sample_answer two_nodes w1) as [[p w2]|] eqn:E2; [|discriminate Hend].
  injection Hend as -> -> ->. exists w, race_turns, w1, w2. split; [done|]. by split.
Qed.
