(* ===== verification/Dll.v ===== *)
(** * Doubly linked lists in a store

    Elements with a pair of link fields, by address.  A structure with several pairs of
    links is in several lists at once; [links] names one pair, and what is proved of the
    lists of one pair is about any. *)
From S2P Require Import Prelude.

Record links (E : Type) := Links {
  nxt : E -> option Z; prv : E -> option Z;
  set_nxt : option Z -> E -> E; set_prv : option Z -> E -> E;
  nxt_set_nxt o e : nxt (set_nxt o e) = o; prv_set_nxt o e : prv (set_nxt o e) = prv e;
  nxt_set_prv o e : nxt (set_prv o e) = nxt e; prv_set_prv o e : prv (set_prv o e) = o
}.
Arguments nxt {E}. Arguments prv {E}. Arguments set_nxt {E}. Arguments set_prv {E}.

(** The address a list begins with, or [q]; the one it ends with, or [p]. *)
Definition hd_or (l : list Z) (q : option Z) : option Z := match l with [] => q | x :: _ => Some x end.
Fixpoint last_or (p : option Z) (l : list Z) : option Z := match l with [] => p | x :: l => last_or (Some x) l end.

Lemma last_or_snoc p l x : last_or p (l ++ [x]) = Some x.
Proof. revert p. induction l as [|y l IH]; intros p; [done|apply IH]. Qed.

Lemma last_or_app p l l' : last_or p (l ++ l') = last_or (last_or p l) l'.
Proof. revert p. induction l as [|y l IH]; intros p; [done|apply IH]. Qed.

Lemma last_or_elem p l x : last_or p l = Some x -> p = Some x \/ x ∈ l.
Proof.
  revert p. induction l as [|y l IH]; intros p Hl; [by left|]. cbn in Hl. right.
  destruct (IH _ Hl) as [[= ->]|?]; [by left|by right].
Qed.

Lemma last_or_cons_elem p x l : exists y, last_or p (x :: l) = Some y /\ y ∈ x :: l.
Proof.
  revert p x. induction l as [|z l IH]; intros p x; [exists x; split; [done|by left]|].
  destruct (IH (Some x) z) as (y & Hy & Hin). exists y. split; [exact Hy|by right].
Qed.

Lemma last_split (l : list Z) : l = [] \/ exists l' x, l = l' ++ [x].
Proof. destruct l as [|x l _] using rev_ind; [by left|right; by exists l, x]. Qed.

Section dll.
Context {E : Type} (L : links E).
#[local] Abbreviation store := (gmap Z E) (only parsing).

(** The elements of [l] are linked to each other, the first back to [p] and the last on to [q]. *)
Fixpoint seg (m : store) (p : option Z) (l : list Z) (q : option Z) : Prop :=
  match l with
  | [] => True
  | x :: l => (exists e, m !! x = Some e /\ prv L e = p /\ nxt L e = hd_or l q) /\ seg m (Some x) l q
  end.

Lemma seg_app m p l1 l2 q : seg m p (l1 ++ l2) q <-> seg m p l1 (hd_or l2 q) /\ seg m (last_or p l1) l2 q.
Proof.
  revert p. induction l1 as [|x l1 IH]; intros p; cbn; [tauto|]. rewrite IH.
  replace (hd_or (l1 ++ l2) q) with (hd_or l1 (hd_or l2 q)) by by destruct l1. tauto.
Qed.

Lemma seg_frame m m' p l q :
  (forall x e, x ∈ l -> m !! x = Some e -> exists e', m' !! x = Some e' /\ nxt L e' = nxt L e /\ prv L e' = prv L e) ->
  seg m p l q -> seg m' p l q.
Proof.
  revert p. induction l as [|x l IH]; intros p Hf; [done|]. cbn. intros [(e & He & Hp & Hn) Hs]. split.
  - destruct (Hf x e) as (e' & He' & Hn' & Hp'); [by left|done|]. exists e'. split; [done|]. by rewrite Hn', Hp'.
  - apply IH; [|done]. intros y e' Hy. apply Hf. by right.
Qed.

Lemma seg_lookup m p l1 x l2 q : seg m p (l1 ++ x :: l2) q -> exists e, m !! x = Some e /\ prv L e = last_or p l1 /\ nxt L e = hd_or l2 q.
Proof. intros [_ [H _]]%seg_app. exact H. Qed.

Lemma seg_elem m p l q x : seg m p l q -> x ∈ l -> is_Some (m !! x).
Proof. intros Hs (l1 & l2 & ->)%list_elem_of_split. destruct (seg_lookup _ _ _ _ _ _ Hs) as (e & -> & _). eauto. Qed.

(** Writing one link. *)
Lemma alter_elem (f : E -> E) x y (m : gmap Z E) e : m !! y = Some e -> exists e', alter f x m !! y = Some e' /\ (e' = e \/ (x = y /\ e' = f e)).
Proof.
  intros He. destruct (decide (x = y)) as [->|Hne]; [|exists e; rewrite lookup_alter_ne by done; auto].
  exists (f e). rewrite lookup_alter_eq, He. auto.
Qed.

Lemma seg_alter_ne (f : E -> E) x m p l q : x ∉ l -> seg m p l q -> seg (alter f x m) p l q.
Proof.
  intros Hx. apply seg_frame. intros y e Hy He. exists e. rewrite lookup_alter_ne by (by intros ->). done.
Qed.

(** Writing a field that is not a link of this list. *)
Lemma seg_alter_other (f : E -> E) x m p l q : (forall e, nxt L (f e) = nxt L e /\ prv L (f e) = prv L e) -> seg m p l q -> seg (alter f x m) p l q.
Proof.
  intros Hf. apply seg_frame. intros y e Hy He. destruct (alter_elem f x y m e He) as (e' & He' & [->|[-> ->]]); eauto.
Qed.

Lemma seg_set_nxt m p l x q q' : x ∉ l -> seg m p (l ++ [x]) q -> seg (alter (set_nxt L q') x m) p (l ++ [x]) q'.
Proof.
  intros Hx [Hl [(e & He & Hp & Hn) _]]%seg_app. apply seg_app. split; [by apply seg_alter_ne|]. split; [|done].
  exists (set_nxt L q' e). rewrite lookup_alter_eq, He. split; [done|]. by rewrite prv_set_nxt, nxt_set_nxt.
Qed.

Lemma seg_set_prv m p p' x l q : x ∉ l -> seg m p (x :: l) q -> seg (alter (set_prv L p') x m) p' (x :: l) q.
Proof.
  intros Hx [(e & He & Hp & Hn) Hl]. split; [|by apply seg_alter_ne].
  exists (set_prv L p' e). rewrite lookup_alter_eq, He. split; [done|]. by rewrite prv_set_prv, nxt_set_prv.
Qed.

(** Writing through a pointer that may be NULL. *)
Definition at_opt (f : E -> E) (o : option Z) (m : store) : store := match o with Some x => alter f x m | None => m end.

Lemma seg_redirect_nxt m l q q' : NoDup l -> seg m None l q -> seg (at_opt (set_nxt L q') (last_or None l) m) None l q'.
Proof.
  intros Hn Hs. destruct (last_split l) as [->|(l' & x & ->)]; [done|]. rewrite last_or_snoc. cbn.
  apply NoDup_snoc in Hn as [Hx _]. by eapply seg_set_nxt.
Qed.

Lemma seg_redirect_prv m p p' l : NoDup l -> seg m p l None -> seg (at_opt (set_prv L p') (hd_or l None) m) p' l None.
Proof. intros Hn Hs. destruct l as [|x l]; [done|]. cbn. apply NoDup_cons in Hn as [Hx _]. by eapply seg_set_prv. Qed.

Lemma at_opt_ne f o m p l q : (forall x, o = Some x -> x ∉ l) -> seg m p l q -> seg (at_opt f o m) p l q.
Proof. intros Ho. destruct o as [x|]; [|done]. apply seg_alter_ne. by apply Ho. Qed.

(** ** Taking an element out *)
Definition unlink (p q : option Z) (m : store) : store := at_opt (set_prv L p) q (at_opt (set_nxt L q) p m).

Lemma seg_unlink m l1 x l2 : NoDup (l1 ++ x :: l2) -> seg m None (l1 ++ x :: l2) None ->
  seg (unlink (last_or None l1) (hd_or l2 None) m) None (l1 ++ l2) None.
Proof.
  intros Hn [H1 [_ H2]]%seg_app. apply NoDup_app in Hn as (Hn1 & Hd & [Hx Hn2]%NoDup_cons). cbn in H1. apply seg_app. unfold unlink. split.
  - apply at_opt_ne; [|by eapply seg_redirect_nxt]. intros y Hy Hin. destruct l2 as [|z l2]; [done|]. injection Hy as ->. apply (Hd y Hin). right. by left.
  - apply (seg_redirect_prv _ (Some x)); [done|]. apply at_opt_ne; [|done]. intros y Hy Hin.
    apply last_or_elem in Hy as [?|Hy]; [done|]. apply (Hd y Hy). by right.
Qed.

(** ** Putting an element in front or at the end *)
Lemma seg_cons m x l e : NoDup (x :: l) -> seg m None l None -> m !! x = Some e -> prv L e = None -> nxt L e = hd_or l None ->
  seg (at_opt (set_prv L (Some x)) (hd_or l None) m) None (x :: l) None.
Proof.
  intros [Hx Hn]%NoDup_cons Hs He Hp Hnx. split; [|by eapply seg_redirect_prv]. exists e. split; [|done].
  destruct l as [|y l]; [done|]. cbn. rewrite lookup_alter_ne; [done|]. intros ->. apply Hx. by left.
Qed.

Lemma seg_snoc m l x e : NoDup (l ++ [x]) -> seg m None l None -> m !! x = Some e -> prv L e = last_or None l -> nxt L e = None ->
  seg (at_opt (set_nxt L (Some x)) (last_or None l) m) None (l ++ [x]) None.
Proof.
  intros [Hx Hn]%NoDup_snoc Hs He Hp Hnx. apply seg_app. cbn [hd_or]. split; [by eapply seg_redirect_nxt|]. split; [|done].
  exists e. split; [|done]. destruct (last_or None l) as [y|] eqn:Hy; [|done]. cbn. rewrite lookup_alter_ne; [done|].
  intros ->. by apply last_or_elem in Hy as [?|?].
Qed.
End dll.
