(* ===== verification/Uthash.v ===== *)
(** * uthash

    The macros of src/uthash.h that the LRU caches use.  An element is in two lists: that of
    all elements in the order they were added, and the chain of its bucket.  A macro that
    assigns to its argument [head] is a function that returns the new head.  A hash handle is
    named by its element (the macros go from one to the other by a constant offset). *)
From S2P Require Import Prelude CLib Word Dll.

#[local] Open Scope Z_scope.

(** ** Data *)
Record elem := Elem {
  el_key : bytes; el_val : bytes;
  el_tbl : option Z; el_prev : option Z; el_next : option Z;
  el_hh_prev : option Z; el_hh_next : option Z; el_keylen : Z; el_hashv : Z
}.

Record bucket := Bkt { bk_head : option Z; bk_count : Z; bk_mult : Z }.

Record utable := Tbl {
  tb_buckets : list bucket; tb_num_buckets : Z; tb_log2 : Z; tb_num_items : Z; tb_tail : Z;
  tb_ideal : Z; tb_nonideal : Z; tb_ineff : Z; tb_noexpand : Z
}.

Record uheap := UHeap { uh_elems : gmap Z elem; uh_tabs : gmap Z utable }.

Definition set_tbl (t : option Z) (e : elem) : elem := Elem (el_key e) (el_val e) t (el_prev e) (el_next e) (el_hh_prev e) (el_hh_next e) (el_keylen e) (el_hashv e).
Definition set_prev (p : option Z) (e : elem) : elem := Elem (el_key e) (el_val e) (el_tbl e) p (el_next e) (el_hh_prev e) (el_hh_next e) (el_keylen e) (el_hashv e).
Definition set_next (p : option Z) (e : elem) : elem := Elem (el_key e) (el_val e) (el_tbl e) (el_prev e) p (el_hh_prev e) (el_hh_next e) (el_keylen e) (el_hashv e).
Definition set_hh_prev (p : option Z) (e : elem) : elem := Elem (el_key e) (el_val e) (el_tbl e) (el_prev e) (el_next e) p (el_hh_next e) (el_keylen e) (el_hashv e).
Definition set_hh_next (p : option Z) (e : elem) : elem := Elem (el_key e) (el_val e) (el_tbl e) (el_prev e) (el_next e) (el_hh_prev e) p (el_keylen e) (el_hashv e).
Definition set_keylen (n : Z) (e : elem) : elem := Elem (el_key e) (el_val e) (el_tbl e) (el_prev e) (el_next e) (el_hh_prev e) (el_hh_next e) n (el_hashv e).
Definition set_hashv (n : Z) (e : elem) : elem := Elem (el_key e) (el_val e) (el_tbl e) (el_prev e) (el_next e) (el_hh_prev e) (el_hh_next e) (el_keylen e) n.

Definition set_buckets (b : list bucket) (t : utable) : utable := Tbl b (tb_num_buckets t) (tb_log2 t) (tb_num_items t) (tb_tail t) (tb_ideal t) (tb_nonideal t) (tb_ineff t) (tb_noexpand t).
Definition set_items (n : Z) (t : utable) : utable := Tbl (tb_buckets t) (tb_num_buckets t) (tb_log2 t) n (tb_tail t) (tb_ideal t) (tb_nonideal t) (tb_ineff t) (tb_noexpand t).
Definition set_tail (x : Z) (t : utable) : utable := Tbl (tb_buckets t) (tb_num_buckets t) (tb_log2 t) (tb_num_items t) x (tb_ideal t) (tb_nonideal t) (tb_ineff t) (tb_noexpand t).

Definition HASH_INITIAL_NUM_BUCKETS : Z := 32.
Definition HASH_INITIAL_NUM_BUCKETS_LOG2 : Z := 5.
Definition HASH_BKT_CAPACITY_THRESH : Z := 10.
Definition BUCKET_SIZE : Z := 16.
Definition TABLE_SIZE : Z := 64.

(** ** Memory *)
Definition elem_get (p : option Z) : st uheap elem := fun s =>
  match p with
  | None => Fault NullDeref
  | Some x => match uh_elems s !! x with Some e => Ok (e, s) | None => Fault UseAfterFree end
  end.

Definition elem_upd (p : option Z) (f : elem -> elem) : st uheap unit :=
  _ ← elem_get p; modifyS (fun s => UHeap (at_opt f p (uh_elems s)) (uh_tabs s)).

Definition elem_free (p : option Z) : st uheap unit :=
  _ ← elem_get p; modifyS (fun s => UHeap (match p with Some x => delete x (uh_elems s) | None => uh_elems s end) (uh_tabs s)).

Definition tab_get (p : option Z) : st uheap utable := fun s =>
  match p with
  | None => Fault NullDeref
  | Some t => match uh_tabs s !! t with Some e => Ok (e, s) | None => Fault UseAfterFree end
  end.

Definition tab_upd (p : option Z) (f : utable -> utable) : st uheap unit :=
  _ ← tab_get p; modifyS (fun s => UHeap (uh_elems s) (match p with Some t => alter f t (uh_tabs s) | None => uh_tabs s end)).

Definition tab_free (p : option Z) : st uheap unit :=
  _ ← tab_get p; modifyS (fun s => UHeap (uh_elems s) (match p with Some t => delete t (uh_tabs s) | None => uh_tabs s end)).

Definition bkt_get (bs : list bucket) (i : Z) : result bucket := from_option_fault OutOfBounds (bs !! Z.to_nat i).
Definition bkt_put (bs : list bucket) (i : Z) (b : bucket) : list bucket := <[Z.to_nat i := b]> bs.

(** ** HASH_JEN *)
Definition HASH_JEN_MIX (s : Z * Z * Z) : Z * Z * Z :=
  let '(a, b, c) := s in
  let a := sub32 a b in let a := sub32 a c in let a := Z.lxor a (Z.shiftr c 13) in
  let b := sub32 b c in let b := sub32 b a in let b := Z.lxor b (shl32 a 8) in
  let c := sub32 c a in let c := sub32 c b in let c := Z.lxor c (Z.shiftr b 13) in
  let a := sub32 a b in let a := sub32 a c in let a := Z.lxor a (Z.shiftr c 12) in
  let b := sub32 b c in let b := sub32 b a in let b := Z.lxor b (shl32 a 16) in
  let c := sub32 c a in let c := sub32 c b in let c := Z.lxor c (Z.shiftr b 5) in
  let a := sub32 a b in let a := sub32 a c in let a := Z.lxor a (Z.shiftr c 3) in
  let b := sub32 b c in let b := sub32 b a in let b := Z.lxor b (shl32 a 10) in
  let c := sub32 c a in let c := sub32 c b in let c := Z.lxor c (Z.shiftr b 15) in
  (a, b, c).

(** A [char] is signed: converted to [unsigned] it keeps its sign. *)
Definition uchar (key : bytes) (i : nat) : Z := let c := nth i key 0 in u32 (if decide (c < 128) then c else c - 256).
Definition jb (key : bytes) (i : nat) (sh : Z) : Z := shl32 (uchar key i) sh.

Fixpoint jen_loop (fuel : nat) (key : bytes) (k i j hashv : Z) : result (bytes * Z * (Z * Z * Z)) :=
  match fuel with
  | O => Fault NoFuel
  | S fuel =>
      if decide (12 <= k) then
        let i := u32 (i + u32 (jb key 0 0 + jb key 1 8 + jb key 2 16 + jb key 3 24)) in
        let j := u32 (j + u32 (jb key 4 0 + jb key 5 8 + jb key 6 16 + jb key 7 24)) in
        let hashv := u32 (hashv + u32 (jb key 8 0 + jb key 9 8 + jb key 10 16 + jb key 11 24)) in
        let '(i, j, hashv) := HASH_JEN_MIX (i, j, hashv) in
        jen_loop fuel (drop 12 key) (k - 12) i j hashv
      else Ok (key, k, (i, j, hashv))
  end.

(** The switch, which falls through. *)
Definition jen_rest (key : bytes) (k : Z) (s : Z * Z * Z) : Z * Z * Z :=
  let '(i, j, hashv) := s in
  let at_least n v := if decide (n <= k) then v else 0 in
  (u32 (i + at_least 1 (jb key 0 0) + at_least 2 (jb key 1 8) + at_least 3 (jb key 2 16) + at_least 4 (jb key 3 24)),
   u32 (j + at_least 5 (jb key 4 0) + at_least 6 (jb key 5 8) + at_least 7 (jb key 6 16) + at_least 8 (jb key 7 24)),
   u32 (hashv + at_least 9 (jb key 8 8) + at_least 10 (jb key 9 16) + at_least 11 (jb key 10 24))).

Definition HASH_TO_BKT (hashv num_bkts : Z) : Z := Z.land hashv (u32 (num_bkts - 1)).

Definition HASH_JEN (key : bytes) (keylen num_bkts : Z) : result (Z * Z) :=
  if decide (Z.of_nat (length key) < keylen) then Fault OutOfBounds
  else
    r ← jen_loop (S (length key)) key (u32 keylen) 0x9e3779b9 0x9e3779b9 0xfeedbeef;
    let '(key, k, (i, j, hashv)) := r in
    let '(_, _, hashv) := HASH_JEN_MIX (jen_rest key k (i, j, u32 (hashv + keylen))) in
    Ok (hashv, HASH_TO_BKT hashv num_bkts).

Section macros.
Context (mem_ok : Z -> bool).

(** [uthash_malloc], which exits when there is no memory. *)
Definition uthash_malloc (n : Z) : st uheap unit := if mem_ok n then mret tt else raiseS ExitCalled.

Definition empty_bucket : bucket := Bkt None 0 0.

(** ** The table *)
Definition HASH_MAKE_TABLE (head : Z) : st uheap unit :=
  _ ← uthash_malloc TABLE_SIZE;
  s ← getS;
  let t := fresh (dom (uh_tabs s)) in
  _ ← uthash_malloc (HASH_INITIAL_NUM_BUCKETS * BUCKET_SIZE);
  _ ← modifyS (fun s => UHeap (uh_elems s) (<[t :=
        Tbl (replicate (Z.to_nat HASH_INITIAL_NUM_BUCKETS) empty_bucket) HASH_INITIAL_NUM_BUCKETS HASH_INITIAL_NUM_BUCKETS_LOG2 0 head 0 0 0 0]> (uh_tabs s)));
  elem_upd (Some head) (set_tbl (Some t)).

(** One element moves to its new bucket. *)
Definition expand_one (n ideal : Z) (thh : Z) (new : list bucket) (nonideal : Z) : st uheap (option Z * list bucket * Z) :=
  e ← elem_get (Some thh);
  let i := HASH_TO_BKT (el_hashv e) (u32 (n * 2)) in
  b ← liftS (bkt_get new i);
  let count := u32 (bk_count b + 1) in
  mult ← (if decide (ideal < count) then (if decide (ideal = 0) then raiseS DivByZero else mret (count / ideal)) else mret (bk_mult b));
  _ ← elem_upd (Some thh) (set_hh_prev None);
  _ ← elem_upd (Some thh) (set_hh_next (bk_head b));
  _ ← (match bk_head b with Some y => elem_upd (Some y) (set_hh_prev (Some thh)) | None => mret tt end);
  mret (el_hh_next e, bkt_put new i (Bkt (Some thh) count mult), if decide (ideal < count) then u32 (nonideal + 1) else nonideal).

Fixpoint expand_chain (fuel : nat) (n ideal : Z) (thh : option Z) (new : list bucket) (nonideal : Z) : st uheap (list bucket * Z) :=
  match fuel with
  | O => raiseS NoFuel
  | S fuel =>
      match thh with
      | None => mret (new, nonideal)
      | Some x => r ← expand_one n ideal x new nonideal; let '(thh, new, nonideal) := r in expand_chain fuel n ideal thh new nonideal
      end
  end.

Fixpoint expand_all (n ideal : Z) (old new : list bucket) (nonideal : Z) : st uheap (list bucket * Z) :=
  match old with
  | [] => mret (new, nonideal)
  | b :: old =>
      s ← getS;
      r ← expand_chain (S (size (uh_elems s))) n ideal (bk_head b) new nonideal;
      expand_all n ideal old r.1 r.2
  end.

Definition HASH_EXPAND_BUCKETS (t : option Z) : st uheap unit :=
  T ← tab_get t;
  let n := tb_num_buckets T in
  let m := u32 (2 * n) in
  _ ← uthash_malloc (m * BUCKET_SIZE);
  let ideal := u32 (Z.shiftr (tb_num_items T) (tb_log2 T + 1) + (if decide (Z.land (tb_num_items T) (u32 (m - 1)) = 0) then 0 else 1)) in
  r ← expand_all n ideal (tb_buckets T) (replicate (Z.to_nat m) empty_bucket) 0;
  let '(new, nonideal) := r in
  let ineff := if decide (Z.shiftr (tb_num_items T) 1 < nonideal) then u32 (tb_ineff T + 1) else 0 in
  tab_upd t (fun T => Tbl new m (tb_log2 T + 1) (tb_num_items T) (tb_tail T) ideal nonideal ineff (if decide (1 < ineff) then 1 else tb_noexpand T)).

Definition HASH_ADD_TO_BKT (t : option Z) (i : Z) (addhh : Z) : st uheap unit :=
  T ← tab_get t;
  b ← liftS (bkt_get (tb_buckets T) i);
  let count := u32 (bk_count b + 1) in
  _ ← elem_upd (Some addhh) (set_hh_next (bk_head b));
  _ ← elem_upd (Some addhh) (set_hh_prev None);
  _ ← (match bk_head b with Some y => elem_upd (Some y) (set_hh_prev (Some addhh)) | None => mret tt end);
  _ ← tab_upd t (fun T => set_buckets (bkt_put (tb_buckets T) i (Bkt (Some addhh) count (bk_mult b))) T);
  e ← elem_get (Some addhh);
  T ← tab_get (el_tbl e);
  if decide (u32 (u32 (bk_mult b + 1) * HASH_BKT_CAPACITY_THRESH) <= count /\ tb_noexpand T <> 1)
  then HASH_EXPAND_BUCKETS (el_tbl e) else mret tt.

(** ** HASH_ADD_KEYPTR: the key is that of the element *)
Definition HASH_ADD_KEYPTR (head : option Z) (keylen : Z) (add : Z) : st uheap (option Z) :=
  _ ← elem_upd (Some add) (set_next None);
  _ ← elem_upd (Some add) (set_keylen (u32 keylen));
  head ← (match head with
          | None =>
              _ ← elem_upd (Some add) (set_prev None);
              _ ← HASH_MAKE_TABLE add;
              mret add
          | Some hd =>
              h ← elem_get (Some hd);
              T ← tab_get (el_tbl h);
              _ ← elem_upd (Some (tb_tail T)) (set_next (Some add));
              _ ← elem_upd (Some add) (set_prev (Some (tb_tail T)));
              _ ← tab_upd (el_tbl h) (set_tail add);
              mret hd
          end);
  h ← elem_get (Some head);
  _ ← tab_upd (el_tbl h) (fun T => set_items (u32 (tb_num_items T + 1)) T);
  _ ← elem_upd (Some add) (set_tbl (el_tbl h));
  T ← tab_get (el_tbl h);
  a ← elem_get (Some add);
  hb ← liftS (HASH_JEN (el_key a) keylen (tb_num_buckets T));
  _ ← elem_upd (Some add) (set_hashv hb.1);
  _ ← HASH_ADD_TO_BKT (el_tbl h) hb.2 add;
  mret (Some head).

(** ** HASH_FIND *)
Fixpoint find_in_bkt (fuel : nat) (key : bytes) (keylen : Z) (out : option Z) : st uheap (option Z) :=
  match fuel with
  | O => raiseS NoFuel
  | S fuel =>
      match out with
      | None => mret None
      | Some x =>
          e ← elem_get (Some x);
          if decide (el_keylen e = keylen /\ take (Z.to_nat keylen) (el_key e) = take (Z.to_nat keylen) key) then mret (Some x)
          else find_in_bkt fuel key keylen (el_hh_next e)
      end
  end.

Definition HASH_FIND (head : option Z) (key : bytes) (keylen : Z) : st uheap (option Z) :=
  match head with
  | None => mret None
  | Some hd =>
      h ← elem_get (Some hd);
      T ← tab_get (el_tbl h);
      hb ← liftS (HASH_JEN key keylen (tb_num_buckets T));
      b ← liftS (bkt_get (tb_buckets T) hb.2);
      s ← getS;
      find_in_bkt (S (size (uh_elems s))) key keylen (bk_head b)
  end.

(** ** HASH_DELETE *)
Definition HASH_DEL_IN_BKT (t : option Z) (i : Z) (d : Z) : st uheap unit :=
  T ← tab_get t;
  b ← liftS (bkt_get (tb_buckets T) i);
  e ← elem_get (Some d);
  let h := if decide (bk_head b = Some d) then el_hh_next e else bk_head b in
  _ ← tab_upd t (fun T => set_buckets (bkt_put (tb_buckets T) i (Bkt h (u32 (bk_count b - 1)) (bk_mult b))) T);
  _ ← (match el_hh_prev e with Some y => elem_upd (Some y) (set_hh_next (el_hh_next e)) | None => mret tt end);
  (match el_hh_next e with Some y => elem_upd (Some y) (set_hh_prev (el_hh_prev e)) | None => mret tt end).

Definition HASH_DELETE (head : option Z) (d : Z) : st uheap (option Z) :=
  e ← elem_get (Some d);
  h ← elem_get head;
  if decide (el_prev e = None /\ el_next e = None) then (_ ← tab_free (el_tbl h); mret None)
  else
    T ← tab_get (el_tbl h);
    _ ← (if decide (tb_tail T = d) then
           match el_prev e with Some p => tab_upd (el_tbl h) (set_tail p) | None => raiseS NullDeref end
         else mret tt);
    head ← (match el_prev e with
            | Some p => _ ← elem_upd (Some p) (set_next (el_next e)); mret head
            | None => mret (el_next e)
            end);
    _ ← (match el_next e with Some q => elem_upd (Some q) (set_prev (el_prev e)) | None => mret tt end);
    h ← elem_get head;
    T ← tab_get (el_tbl h);
    _ ← HASH_DEL_IN_BKT (el_tbl h) (HASH_TO_BKT (el_hashv e) (tb_num_buckets T)) d;
    _ ← tab_upd (el_tbl h) (fun T => set_items (u32 (tb_num_items T - 1)) T);
    mret head.

Definition HASH_COUNT (head : option Z) : st uheap Z :=
  match head with None => mret 0 | Some hd => h ← elem_get (Some hd); T ← tab_get (el_tbl h); mret (tb_num_items T) end.
End macros.
