(* ===== verification/UthashOk.v ===== *)
(** * uthash: the table is what its chains say

    The invariant of a table (the list of all elements, the chains of the buckets), and that
    adding, finding, deleting and doubling the buckets keep it. *)
From S2P Require Import Prelude CLib Word Dll Uthash.

#[local] Open Scope Z_scope.

Definition app_links : links elem := Links elem el_next el_prev set_next set_prev (fun _ _ => eq_refl) (fun _ _ => eq_refl) (fun _ _ => eq_refl) (fun _ _ => eq_refl).
Definition hh_links : links elem := Links elem el_hh_next el_hh_prev set_hh_next set_hh_prev (fun _ _ => eq_refl) (fun _ _ => eq_refl) (fun _ _ => eq_refl) (fun _ _ => eq_refl).

(** ** Runs that end or exit *)
(** [p] ends without a fault in [Q], or calls [exit] because there is no memory. *)
Definition runs {A} (p : st uheap A) (Q : A -> uheap -> Prop) (s : uheap) : Prop :=
  match p s with Ok (a, s') => Q a s' | Fault f => f = ExitCalled end.

Lemma runs_ret {A} (a : A) (Q : A -> uheap -> Prop) s : Q a s -> runs (mret a) Q s.
Proof. done. Qed.

Lemma runs_bind {A B} (p : st uheap A) (f : A -> st uheap B) Q s : runs p (fun a => runs (f a) Q) s -> runs (p ≫= f) Q s.
Proof. unfold runs, mbind, st_bind. by destruct (p s) as [[a s']|]. Qed.

Lemma runs_bind_assoc {A B C} (p : st uheap A) (f : A -> st uheap B) (g : B -> st uheap C) Q s :
  runs ((p ≫= f) ≫= g) Q s -> runs (p ≫= (fun a => f a ≫= g)) Q s.
Proof. unfold runs, mbind, st_bind. by destruct (p s) as [[a s']|]. Qed.

Lemma runs_mono {A} (p : st uheap A) (Q Q' : A -> uheap -> Prop) s : runs p Q s -> (forall a s, Q a s -> Q' a s) -> runs p Q' s.
Proof. unfold runs. destruct (p s) as [[a s']|]; auto. Qed.

Lemma runs_elem_get Q s x e : uh_elems s !! x = Some e -> Q e s -> runs (elem_get (Some x)) Q s.
Proof. intros He HQ. unfold runs, elem_get. by rewrite He. Qed.

Lemma runs_elem_upd (Q : unit -> uheap -> Prop) m ts x f : is_Some (m !! x) -> Q tt (UHeap (alter f x m) ts) -> runs (elem_upd (Some x) f) Q (UHeap m ts).
Proof. intros [e He] HQ. unfold elem_upd, elem_get, runs, mbind, st_bind. cbn. by rewrite He. Qed.

Lemma runs_tab_get Q s t T : uh_tabs s !! t = Some T -> Q T s -> runs (tab_get (Some t)) Q s.
Proof. intros He HQ. unfold runs, tab_get. by rewrite He. Qed.

Lemma runs_tab_upd (Q : unit -> uheap -> Prop) m ts t T f : ts !! t = Some T -> Q tt (UHeap m (<[t := f T]> ts)) -> runs (tab_upd (Some t) f) Q (UHeap m ts).
Proof.
  intros He HQ. unfold tab_upd, tab_get, runs, mbind, st_bind. cbn. rewrite He. cbn.
  replace (alter f t ts) with (<[t := f T]> ts); [done|]. apply map_eq. intros x. destruct (decide (t = x)) as [->|Hne].
  - by rewrite lookup_insert_eq, lookup_alter_eq, He.
  - by rewrite lookup_insert_ne, lookup_alter_ne.
Qed.

Lemma runs_lift {A} (Q : A -> uheap -> Prop) s (r : result A) a : r = Ok a -> Q a s -> runs (liftS r) Q s.
Proof. intros -> HQ. done. Qed.

Lemma runs_gets Q s : Q s s -> runs getS Q s.
Proof. done. Qed.

Lemma runs_malloc ok (Q : unit -> uheap -> Prop) s n : (ok n = true -> Q tt s) -> runs (uthash_malloc ok n) Q s.
Proof. intros HQ. unfold uthash_malloc, runs. destruct (ok n); [by apply HQ|done]. Qed.

(** Writing through a pointer that may be NULL. *)
Lemma runs_opt_upd {E} (Q : unit -> uheap -> Prop) m ts (o : option Z) (f : E -> elem -> elem) (a : E) :
  (forall x, o = Some x -> is_Some (m !! x)) -> Q tt (UHeap (at_opt (f a) o m) ts) ->
  runs (match o with Some y => elem_upd (Some y) (f a) | None => mret tt end) Q (UHeap m ts).
Proof. intros Ho HQ. destruct o as [x|]; [|done]. apply runs_elem_upd; [by apply Ho|done]. Qed.

(** ** The hash *)
Lemma HASH_JEN_MIX_word a b c : word32 c -> word32 (HASH_JEN_MIX (a, b, c)).2.
Proof.
  intros Hc. unfold HASH_JEN_MIX. cbn [snd]. unfold sub32, shl32.
  repeat first [apply lxor_word | apply shiftr_word; [|lia] | apply u32_word].
Qed.

Lemma jen_loop_ok fuel key k i j hashv : (Z.to_nat k < fuel)%nat -> exists r, jen_loop fuel key k i j hashv = Ok r.
Proof.
  revert key k i j hashv. induction fuel as [|fuel IH]; intros key k i j hashv Hf; [lia|]. cbn [jen_loop].
  case_decide; [|by eexists]. destruct (HASH_JEN_MIX _) as [[a b] c]. apply IH. lia.
Qed.

(** The hash of a key. *)
Definition jen (key : bytes) : Z := match HASH_JEN key (Z.of_nat (length key)) 1 with Ok r => r.1 | Fault _ => 0 end.

Lemma HASH_JEN_ok key n : Z.of_nat (length key) < 2 ^ 32 -> HASH_JEN key (Z.of_nat (length key)) n = Ok (jen key, HASH_TO_BKT (jen key) n) /\ word32 (jen key).
Proof.
  intros Hk. unfold jen, HASH_JEN. rewrite !decide_False by lia. rewrite u32_small by lia.
  destruct (jen_loop_ok (S (length key)) key (Z.of_nat (length key)) 0x9e3779b9 0x9e3779b9 0xfeedbeef) as [[[key' k] [[i j] hv]] ->]; [lia|].
  cbn [mbind result_bind]. destruct (jen_rest key' k (i, j, u32 (hv + Z.of_nat (length key)))) as [[a b] c] eqn:E.
  assert (Hc : word32 c). { unfold jen_rest in E. injection E as _ _ <-. apply u32_word. }
  pose proof (HASH_JEN_MIX_word a b c Hc) as Hw. destruct (HASH_JEN_MIX (a, b, c)) as [[a' b'] c']. cbn in *. done.
Qed.

Lemma bkt_range hashv k : word32 hashv -> 0 <= k <= 31 -> 0 <= HASH_TO_BKT hashv (2 ^ k) < 2 ^ k /\ HASH_TO_BKT hashv (2 ^ k) = hashv mod 2 ^ k.
Proof.
  intros [H0 H1] Hk. unfold HASH_TO_BKT. assert (0 < 2 ^ k <= 2 ^ 31) by (split; [apply Z.pow_pos_nonneg; lia|apply Z.pow_le_mono_r; lia]).
  rewrite u32_small by lia. replace (2 ^ k - 1) with (Z.ones k) by (rewrite Z.ones_equiv; lia). rewrite Z.land_ones by lia.
  split; [apply Z.mod_pos_bound; lia|done].
Qed.

(** ** Chains *)
Definition bkt_ok (m : gmap Z elem) (b : bucket) (c : list Z) : Prop :=
  bk_head b = hd_or c None /\ bk_count b = Z.of_nat (length c) /\ seg hh_links m None c None.

(** The elements of chain [i] have hashes that belong into bucket [i] of [n]. *)
Definition hash_ok (m : gmap Z elem) (n : Z) (cs : list (list Z)) : Prop :=
  forall i c x, cs !! i = Some c -> x ∈ c -> exists e, m !! x = Some e /\ word32 (el_hashv e) /\ HASH_TO_BKT (el_hashv e) n = Z.of_nat i.

(** Only links of chains have been written. *)
Definition only_hh (m m' : gmap Z elem) : Prop :=
  forall y, exists p q, m' !! y = (fun e => set_hh_prev p (set_hh_next q e)) <$> m !! y.

Lemma only_hh_at m m' y e : only_hh m m' -> m !! y = Some e -> exists p q, m' !! y = Some (set_hh_prev p (set_hh_next q e)).
Proof. intros Ho He. destruct (Ho y) as (p & q & Hy). exists p, q. by rewrite Hy, He. Qed.

Lemma only_hh_refl m : only_hh m m.
Proof. intros y. destruct (m !! y) as [e|]; [exists (el_hh_prev e), (el_hh_next e); by destruct e|by exists None, None]. Qed.

Lemma only_hh_trans m1 m2 m3 : only_hh m1 m2 -> only_hh m2 m3 -> only_hh m1 m3.
Proof. intros H1 H2 y. destruct (H1 y) as (p & q & Hy), (H2 y) as (p' & q' & Hy'). exists p', q'. rewrite Hy', Hy. by destruct (m1 !! y). Qed.

Lemma only_hh_alter m x f : (forall e, exists p q, f e = set_hh_prev p (set_hh_next q e)) -> only_hh m (alter f x m).
Proof.
  intros Hf y. destruct (decide (x = y)) as [->|Hne]; [|rewrite lookup_alter_ne by done; apply only_hh_refl].
  rewrite lookup_alter_eq. destruct (m !! y) as [e|]; [|by exists None, None]. destruct (Hf e) as (p & q & Hpq). exists p, q. cbn. by rewrite Hpq.
Qed.

Lemma only_hh_prev m x p : only_hh m (alter (set_hh_prev p) x m).
Proof. apply only_hh_alter. intros e. exists p, (el_hh_next e). by destruct e. Qed.

Lemma only_hh_next m x p : only_hh m (alter (set_hh_next p) x m).
Proof. apply only_hh_alter. intros e. exists (el_hh_prev e), p. by destruct e. Qed.

Lemma only_hh_opt_prev m o p : only_hh m (at_opt (set_hh_prev p) o m).
Proof. destruct o; [apply only_hh_prev|apply only_hh_refl]. Qed.

Lemma only_hh_opt_next m o p : only_hh m (at_opt (set_hh_next p) o m).
Proof. destruct o; [apply only_hh_next|apply only_hh_refl]. Qed.

Lemma only_hh_app m m' l : only_hh m m' -> seg app_links m None l None -> seg app_links m' None l None.
Proof. intros Ho. apply seg_frame. intros x e _ He. destruct (only_hh_at _ _ _ _ Ho He) as (p & q & Hx). eauto. Qed.

Lemma only_hh_hash m m' n cs : only_hh m m' -> hash_ok m n cs -> hash_ok m' n cs.
Proof. intros Ho Hh i c x Hc Hx. destruct (Hh i c x Hc Hx) as (e & He & Hb). destruct (only_hh_at _ _ _ _ Ho He) as (p & q & Hx'). eauto. Qed.

Lemma join_disjoint (cs : list (list Z)) i j c c' x : NoDup (mjoin cs) -> cs !! i = Some c -> cs !! j = Some c' -> i <> j -> x ∈ c -> x ∉ c'.
Proof.
  intros Hn Hi Hj Hne Hx Hx'. destruct (join_insert cs i c c Hi) as (R & HR & _ & Hoth). rewrite HR in Hn.
  apply NoDup_app in Hn as (_ & Hd & _). by apply (Hd x Hx), (Hoth j c').
Qed.

Lemma elem_of_join (cs : list (list Z)) i c x : cs !! i = Some c -> x ∈ c -> x ∈ mjoin cs.
Proof. intros Hc Hx. apply list_elem_of_join. exists c. split; [done|]. by eapply list_elem_of_lookup_2. Qed.

Lemma join_chain_nodup (cs : list (list Z)) i c : NoDup (mjoin cs) -> cs !! i = Some c -> NoDup c.
Proof. intros Hn Hc. destruct (join_insert cs i c c Hc) as (R & HR & _). rewrite HR in Hn. by apply NoDup_app in Hn as [? _]. Qed.

(** One bucket has changed, and the store, but not at the other chains. *)
Lemma chains_update m m' bs cs i c b' c' : Forall2 (bkt_ok m) bs cs -> cs !! i = Some c ->
  (forall j d, j <> i -> cs !! j = Some d -> seg hh_links m None d None -> seg hh_links m' None d None) -> bkt_ok m' b' c' ->
  Forall2 (bkt_ok m') (<[i := b']> bs) (<[i := c']> cs).
Proof.
  intros Hf Hc Hoth Hb. apply Forall2_same_length_lookup. split; [rewrite !length_insert; by eapply Forall2_length|].
  intros j b d Hj Hd. destruct (decide (i = j)) as [<-|Hne].
  - rewrite list_lookup_insert_eq in Hd by (by eapply lookup_lt_Some). injection Hd as <-.
    rewrite list_lookup_insert_eq in Hj; [by injection Hj as <-|]. rewrite (Forall2_length _ _ _ Hf). by eapply lookup_lt_Some.
  - rewrite list_lookup_insert_ne in Hj by done. rewrite list_lookup_insert_ne in Hd by done.
    destruct (Forall2_lookup_lr _ _ _ _ _ _ Hf Hj Hd) as (H1 & H2 & H3). split; [done|]. split; [done|]. by apply (Hoth j).
Qed.

(** ** Putting an element in front of a chain *)
Definition push_hh (x : Z) (h : option Z) (m : gmap Z elem) : gmap Z elem := at_opt (set_hh_prev (Some x)) h m.

Lemma chains_push m bs cs i c b x e n cnt mult : Forall2 (bkt_ok m) bs cs -> hash_ok m n cs -> bs !! i = Some b -> cs !! i = Some c ->
  NoDup (mjoin cs) -> x ∉ mjoin cs -> m !! x = Some e -> el_hh_prev e = None -> el_hh_next e = bk_head b -> word32 (el_hashv e) ->
  HASH_TO_BKT (el_hashv e) n = Z.of_nat i -> cnt = bk_count b + 1 ->
  let m' := push_hh x (bk_head b) m in let cs' := <[i := x :: c]> cs in
  Forall2 (bkt_ok m') (<[i := Bkt (Some x) cnt mult]> bs) cs' /\ hash_ok m' n cs' /\ mjoin cs' ≡ₚ x :: mjoin cs /\ only_hh m m' /\
  (forall y, y ∉ mjoin cs -> m' !! y = m !! y).
Proof.
  intros Hf Hh Hb Hc Hn Hx He Hp Hnx Hw Hi -> m' cs'. destruct (Forall2_lookup_lr _ _ _ _ _ _ Hf Hb Hc) as (Hhd & Hcnt & Hseg).
  assert (Hho : only_hh m m') by apply only_hh_opt_prev. assert (Hxc : x ∉ c) by (intros Hin; by eapply Hx, elem_of_join).
  assert (Hhdin : forall y, bk_head b = Some y -> y ∈ c) by (intros y; rewrite Hhd; destruct c; [done|]; intros [= ->]; by left).
  split; [|split; [|split; [|split; [done|]]]].
  - apply (chains_update m _ _ _ _ c); [done|done| |].
    + intros j d Hj Hd. apply at_opt_ne. intros y Hy. by apply (join_disjoint cs i j c d y); auto.
    + split; [done|]. split; [cbn; lia|]. unfold m', push_hh. rewrite Hhd. rewrite Hhd in Hnx. apply (seg_cons hh_links m x c e); [|done..].
      apply NoDup_cons. split; [done|]. by eapply join_chain_nodup.
  - apply (only_hh_hash m); [done|]. intros j d y Hd Hy. unfold cs' in Hd. destruct (decide (i = j)) as [<-|Hne].
    + rewrite list_lookup_insert_eq in Hd by (by eapply lookup_lt_Some). injection Hd as <-. apply elem_of_cons in Hy as [->|Hy]; [eauto|by eapply Hh].
    + rewrite list_lookup_insert_ne in Hd by done. by eapply Hh.
  - destruct (join_insert cs i c (x :: c) Hc) as (R & HR & HR' & _). unfold cs'. rewrite HR', HR. done.
  - intros y Hy. unfold m', push_hh. destruct (bk_head b) as [z|] eqn:Hz; [|done]. cbn. rewrite lookup_alter_ne; [done|].
    intros ->. eapply Hy, elem_of_join; [exact Hc|]. by apply Hhdin.
Qed.

(** ** Doubling the buckets *)
(** Buckets and their chains in a store. *)
Record buckets (m : gmap Z elem) (k : Z) (bs : list bucket) (cs : list (list Z)) : Prop := {
  bu_k : 0 <= k <= 31;
  bu_len : Z.of_nat (length cs) = 2 ^ k;
  bu_ok : Forall2 (bkt_ok m) bs cs;
  bu_hash : hash_ok m (2 ^ k) cs;
  bu_nodup : NoDup (mjoin cs)
}.

(** A store holds at most as many elements as it has. *)
Lemma nodup_size (m : gmap Z elem) l : NoDup l -> (forall x, x ∈ l -> is_Some (m !! x)) -> (length l <= size m)%nat.
Proof.
  intros Hn Hl. rewrite <- (size_list_to_set (C := gset Z) l Hn), <- size_dom. apply subseteq_size. intros x Hx. apply elem_of_dom, Hl.
  by apply elem_of_list_to_set in Hx.
Qed.

(** The bucket of a hash exists. *)
Lemma bucket_of_hash m k bs cs hv : buckets m k bs cs -> word32 hv ->
  exists i b c, HASH_TO_BKT hv (2 ^ k) = Z.of_nat i /\ bkt_get bs (HASH_TO_BKT hv (2 ^ k)) = Ok b /\ bs !! i = Some b /\ cs !! i = Some c /\
    (forall b', bkt_put bs (HASH_TO_BKT hv (2 ^ k)) b' = <[i := b']> bs).
Proof.
  intros [Hk Hlen Hf _ _] Hw. destruct (bkt_range hv k Hw ltac:(lia)) as [Hr _]. set (j := HASH_TO_BKT hv (2 ^ k)) in *.
  destruct (lookup_lt_is_Some_2 cs (Z.to_nat j)) as [c Hc]; [lia|]. destruct (lookup_lt_is_Some_2 bs (Z.to_nat j)) as [b Hb].
  { rewrite (Forall2_length _ _ _ Hf). lia. }
  exists (Z.to_nat j), b, c. split; [lia|]. unfold bkt_get. rewrite Hb. done.
Qed.

(** The chain from an element on, by the links forward only. *)
Fixpoint path (m : gmap Z elem) (l : list Z) : Prop :=
  match l with
  | [] => True
  | x :: l => (exists e, m !! x = Some e /\ el_hh_next e = hd_or l None /\ word32 (el_hashv e)) /\ path m l
  end.

Lemma path_frame m m' l : (forall x, x ∈ l -> m' !! x = m !! x) -> path m l -> path m' l.
Proof.
  induction l as [|x l IH]; intros Hf; [done|]. intros [He Hl]. cbn. rewrite (Hf x) by by left. split; [done|]. apply IH; [|done]. intros y Hy. apply Hf. by right.
Qed.

Lemma seg_path m p l : seg hh_links m p l None -> (forall x, x ∈ l -> exists e, m !! x = Some e /\ word32 (el_hashv e)) -> path m l.
Proof.
  revert p. induction l as [|x l IH]; intros p; [done|]. intros [(e & He & _ & Hn) Hs] Hw. split.
  - exists e. destruct (Hw x) as (e' & He' & Hw'); [by left|]. rewrite He in He'. injection He' as <-. done.
  - apply (IH (Some x)); [done|]. intros y Hy. apply Hw. by right.
Qed.

Lemma path_elem m l x : path m l -> x ∈ l -> is_Some (m !! x).
Proof. induction l as [|y l IH]; intros Hp Hx; [by apply not_elem_of_nil in Hx|]. destruct Hp as [(e & He & _) Hp]. apply elem_of_cons in Hx as [->|Hx]; [by eexists|by apply IH]. Qed.

(** Putting an element that is in no chain in front of its chain, its links being overwritten. *)
Lemma buckets_push m k bs cs x e i b c cnt mult : buckets m k bs cs -> m !! x = Some e -> word32 (el_hashv e) -> x ∉ mjoin cs ->
  HASH_TO_BKT (el_hashv e) (2 ^ k) = Z.of_nat i -> bs !! i = Some b -> cs !! i = Some c -> cnt = bk_count b + 1 ->
  let m' := at_opt (set_hh_prev (Some x)) (bk_head b) (alter (set_hh_next (bk_head b)) x (alter (set_hh_prev None) x m)) in
  let m'' := at_opt (set_hh_prev (Some x)) (bk_head b) (alter (set_hh_prev None) x (alter (set_hh_next (bk_head b)) x m)) in
  m'' = m' /\ only_hh m m' /\ (forall y, y <> x -> y ∉ mjoin cs -> m' !! y = m !! y) /\
  exists cs', buckets m' k (<[i := Bkt (Some x) cnt mult]> bs) cs' /\ mjoin cs' ≡ₚ x :: mjoin cs.
Proof.
  intros [Hk Hlen Hf Hh Hn] He Hw Hx Hi Hb Hc Hcnt m' m''. set (m1 := alter (set_hh_next (bk_head b)) x (alter (set_hh_prev None) x m)) in *.
  assert (Hm1x : m1 !! x = Some (set_hh_next (bk_head b) (set_hh_prev None e))) by (unfold m1; by rewrite !lookup_alter_eq, He).
  assert (Hm1 : forall y, y <> x -> m1 !! y = m !! y) by (intros y Hy; unfold m1; by rewrite !lookup_alter_ne).
  assert (Ho1 : only_hh m m1) by (eapply only_hh_trans; [apply only_hh_prev|apply only_hh_next]).
  assert (Hcs : Forall2 (bkt_ok m1) bs cs).
  { apply Forall2_same_length_lookup. split; [by eapply Forall2_length|]. intros j b' c' Hb' Hc'. destruct (Forall2_lookup_lr _ _ _ _ _ _ Hf Hb' Hc') as (H1 & H2 & H3).
    split; [done|]. split; [done|]. revert H3. apply seg_frame. intros y e' Hy He'. exists e'. rewrite Hm1; [done|]. intros ->. by eapply Hx, elem_of_join. }
  destruct (chains_push m1 bs cs i c b x _ (2 ^ k) cnt mult Hcs (only_hh_hash _ _ _ _ Ho1 Hh) Hb Hc Hn Hx Hm1x) as (H1 & H2 & H3 & H4 & H5); [done..|].
  split; [|split; [by eapply only_hh_trans|split]].
  - unfold m', m''. f_equal. unfold m1. apply map_eq. intros y. destruct (decide (x = y)) as [<-|Hne]; [|by rewrite !lookup_alter_ne].
    by rewrite !lookup_alter_eq, He.
  - intros y Hy Hyc. unfold m'. change (push_hh x (bk_head b) m1 !! y = m !! y). rewrite H5 by done. by apply Hm1.
  - eexists. split; [|exact H3]. split; [done|by rewrite length_insert|done|done|]. rewrite H3. by apply NoDup_cons.
Qed.

Lemma path_words m l x e : path m l -> x ∈ l -> m !! x = Some e -> word32 (el_hashv e).
Proof.
  induction l as [|y l IH]; intros Hp Hx He; [by apply not_elem_of_nil in Hx|]. destruct Hp as [(e' & He' & _ & Hw) Hp].
  apply elem_of_cons in Hx as [->|Hx]; [|by apply IH]. rewrite He in He'. by injection He' as <-.
Qed.

Lemma double_pow k : 0 <= k <= 30 -> u32 (2 ^ k * 2) = 2 ^ (k + 1) /\ u32 (2 * 2 ^ k) = 2 ^ (k + 1).
Proof.
  intros Hk. assert (0 < 2 ^ k <= 2 ^ 30) by (split; [apply Z.pow_pos_nonneg; lia|apply Z.pow_le_mono_r; lia]).
  rewrite Z.pow_add_r by lia. change (2 ^ 1) with 2. rewrite !u32_small by lia. lia.
Qed.

Section expand.
Context (ts : gmap Z utable) (k ideal : Z) (Hk : 0 <= k <= 30) (Hideal : 0 < ideal).

(** What moving the elements of [l] to their new buckets leaves. *)
Definition moved (m : gmap Z elem) (cs : list (list Z)) (l : list Z) (new : list bucket) (m' : gmap Z elem) : Prop :=
  only_hh m m' /\ (forall y, y ∉ l ++ mjoin cs -> m' !! y = m !! y) /\ exists cs', buckets m' (k + 1) new cs' /\ mjoin cs' ≡ₚ l ++ mjoin cs.

Lemma runs_expand_one m bs cs x rest nonideal : buckets m (k + 1) bs cs -> path m (x :: rest) -> x ∉ mjoin cs ->
  Z.of_nat (length (mjoin cs)) < 2 ^ 32 - 1 ->
  runs (expand_one (2 ^ k) ideal x bs nonideal) (fun r s => r.1.1 = hd_or rest None /\ uh_tabs s = ts /\ moved m cs [x] r.1.2 (uh_elems s)) (UHeap m ts).
Proof using Hk Hideal.
  intros Hb [(e & He & Hnx & Hw) Hp] Hx Hlen. unfold expand_one. destruct (double_pow k Hk) as [Hd _].
  apply runs_bind, (runs_elem_get _ _ _ e); [done|]. rewrite Hd. destruct (bucket_of_hash _ _ _ _ _ Hb Hw) as (i & b & c & Hi & Hget & Hbi & Hci & Hput).
  apply runs_bind. eapply runs_lift; [exact Hget|].
  destruct (Forall2_lookup_lr _ _ _ _ _ _ (bu_ok _ _ _ _ Hb) Hbi Hci) as (Hhd & Hcnt & _).
  destruct (join_insert cs i c c Hci) as (R & HR & _). assert (Hcl : (length c <= length (mjoin cs))%nat) by (rewrite HR, length_app; lia).
  rewrite (u32_small (bk_count b + 1)) by lia.
  apply runs_bind. assert (Hm : forall Q : Z -> uheap -> Prop, (forall v, Q v (UHeap m ts)) -> runs (if decide (ideal < bk_count b + 1) then if decide (ideal = 0) then raiseS DivByZero else mret ((bk_count b + 1) / ideal) else mret (bk_mult b)) Q (UHeap m ts)).
  { intros Q HQ. case_decide; [|apply HQ]. case_decide; [lia|apply HQ]. }
  apply Hm. intros mult. clear Hm. apply runs_bind, runs_elem_upd; [by eexists|].
  apply runs_bind, runs_elem_upd; [rewrite lookup_alter_eq, He; by eexists|].
  destruct (buckets_push m (k + 1) bs cs x e i b c (bk_count b + 1) mult Hb He Hw Hx Hi Hbi Hci eq_refl) as (_ & Ho & Hot & cs' & Hb' & Hj).
  apply runs_bind. apply (runs_opt_upd _ _ _ _ set_hh_prev).
  { intros y Hy. assert (Hyc : y ∈ c) by (rewrite Hhd in Hy; destruct c; [done|injection Hy as ->; by left]).
    assert (y <> x) by (intros ->; by eapply Hx, elem_of_join). rewrite !lookup_alter_ne by done.
    destruct (bu_hash _ _ _ _ Hb i c y Hci Hyc) as (e' & -> & _). by eexists. }
  apply runs_ret. split; [done|]. split; [done|]. cbn [fst snd uh_elems]. rewrite Hput. split; [done|]. split.
  - intros y Hy. apply Hot; set_solver.
  - exists cs'. split; [done|]. by rewrite Hj.
Qed.

Lemma runs_expand_chain fuel m bs cs l nonideal : buckets m (k + 1) bs cs -> path m l -> NoDup (l ++ mjoin cs) ->
  Z.of_nat (length (l ++ mjoin cs)) < 2 ^ 32 -> (length l < fuel)%nat ->
  runs (expand_chain fuel (2 ^ k) ideal (hd_or l None) bs nonideal) (fun r s => uh_tabs s = ts /\ moved m cs l r.1 (uh_elems s)) (UHeap m ts).
Proof using Hk Hideal.
  revert m bs cs l nonideal. induction fuel as [|fuel IH]; intros m bs cs l nonideal Hb Hp Hn Hlen Hf; [lia|]. destruct l as [|x l]; cbn [hd_or expand_chain].
  - apply runs_ret. split; [done|]. split; [apply only_hh_refl|]. split; [done|]. by exists cs.
  - cbn [app] in Hn. apply NoDup_cons in Hn as [Hx Hn]. cbn [length app] in Hlen, Hf. rewrite length_app in Hlen.
    apply runs_bind. eapply runs_mono; [apply (runs_expand_one m bs cs x l); [done|done|set_solver|lia]|].
    intros [[y bs1] ni1] [m1 ts1]. cbn [fst snd uh_tabs uh_elems]. intros (-> & -> & Ho1 & Hf1 & cs1 & Hb1 & Hj1).
    eapply runs_mono; [apply (IH m1 bs1 cs1 l); [done| | | |lia]|].
    + apply (path_frame m); [|by destruct Hp]. intros z Hz. apply Hf1. apply NoDup_app in Hn as (_ & Hd & _). specialize (Hd z Hz). set_solver.
    + rewrite Hj1. cbn [app]. rewrite <- Permutation_middle. by apply NoDup_cons.
    + rewrite Hj1, length_app. cbn [length app]. lia.
    + intros r s (Hts & Ho2 & Hf2 & cs2 & Hb2 & Hj2). split; [done|]. split; [by eapply only_hh_trans|]. split.
      * intros z Hz. rewrite Hf2 by (rewrite Hj1; set_solver). apply Hf1. set_solver.
      * exists cs2. split; [done|]. rewrite Hj2, Hj1. cbn [app]. by rewrite <- Permutation_middle.
Qed.

Lemma runs_expand_all m old ocs bs cs nonideal : Forall2 (bkt_ok m) old ocs -> (forall x, x ∈ mjoin ocs -> exists e, m !! x = Some e /\ word32 (el_hashv e)) ->
  buckets m (k + 1) bs cs -> NoDup (mjoin ocs ++ mjoin cs) -> Z.of_nat (length (mjoin ocs ++ mjoin cs)) < 2 ^ 32 ->
  runs (expand_all (2 ^ k) ideal old bs nonideal) (fun r s => uh_tabs s = ts /\ moved m cs (mjoin ocs) r.1 (uh_elems s)) (UHeap m ts).
Proof using Hk Hideal.
  intros Ho. revert ocs m bs cs nonideal Ho. induction old as [|b old IH]; intros ocs m bs cs nonideal Ho Hw Hb Hn Hlen; inversion Ho as [|? c ? ocs' Hc Ho']; subst; cbn [expand_all].
  - apply runs_ret. split; [done|]. split; [apply only_hh_refl|]. split; [done|]. by exists cs.
  - cbn [mjoin list_join] in Hw, Hn, Hlen. destruct Hc as (Hhd & _ & Hseg). apply runs_bind, runs_gets. apply runs_bind. rewrite Hhd. cbn [uh_elems].
    rewrite <- app_assoc in Hn, Hlen. apply NoDup_app in Hn as (Hnc & Hdc & Hn). apply NoDup_app in Hn as (Hno & Hdo & Hncs). rewrite !length_app in Hlen.
    eapply runs_mono; [apply (runs_expand_chain _ m bs cs c); [done| | | |]|].
    + eapply seg_path; [exact Hseg|]. intros x Hx. apply Hw. set_solver.
    + apply NoDup_app. split; [done|]. split; [|done]. intros x Hx Hx'. apply (Hdc x Hx). set_solver.
    + rewrite length_app. lia.
    + assert (length c <= size m)%nat; [|lia]. apply nodup_size; [done|]. intros x Hx. by eapply seg_elem.
    + intros [bs1 ni1] [m1 ts1]. cbn [fst snd uh_tabs uh_elems]. intros (-> & Ho1 & Hf1 & cs1 & Hb1 & Hj1).
      assert (Hout : forall x, x ∈ mjoin ocs' -> m1 !! x = m !! x).
      { intros x Hx. apply Hf1. specialize (Hdo x Hx). intros [Hxc|]%elem_of_app; [|done]. apply (Hdc x Hxc). set_solver. }
      eapply runs_mono; [apply (IH ocs' m1 bs1 cs1)|].
      * apply Forall2_same_length_lookup. split; [by eapply Forall2_length|]. intros j b' c' Hb' Hc'.
        destruct (Forall2_lookup_lr _ _ _ _ _ _ Ho' Hb' Hc') as (H1 & H2 & H3). split; [done|]. split; [done|]. revert H3. apply seg_frame.
        intros y e' Hy He'. exists e'. rewrite Hout; [done|]. by eapply elem_of_join.
      * intros x Hx. rewrite Hout by done. apply Hw. set_solver.
      * done.
      * rewrite Hj1. apply NoDup_app. split; [done|]. split; [|apply NoDup_app; split; [done|]; split; [|done]].
        -- intros x Hx [Hxc|Hxc]%elem_of_app; [|by apply (Hdo x)]. apply (Hdc x Hxc). set_solver.
        -- intros x Hx Hx'. apply (Hdc x Hx). set_solver.
      * rewrite Hj1, !length_app. by rewrite Nat.add_assoc, (Nat.add_comm (length (mjoin ocs'))), <- Nat.add_assoc.
      * intros r s (Hts & Ho2 & Hf2 & cs2 & Hb2 & Hj2). split; [done|]. split; [by eapply only_hh_trans|]. split.
        -- intros y Hy. cbn [mjoin list_join] in Hy. rewrite Hf2 by (rewrite Hj1; set_solver). apply Hf1. set_solver.
        -- exists cs2. split; [done|]. rewrite Hj2, Hj1. cbn [mjoin list_join]. rewrite !app_assoc. apply Permutation_app_tail, Permutation_app_comm.
Qed.
End expand.

(** ** The table *)
Definition chains_ok (m : gmap Z elem) (T : utable) (l : list Z) : Prop :=
  exists k cs, 5 <= k <= 30 /\ tb_num_buckets T = 2 ^ k /\ tb_log2 T = k /\ buckets m k (tb_buckets T) cs /\ mjoin cs ≡ₚ l.

Definition keyed (t : Z) (e : elem) : Prop :=
  el_tbl e = Some t /\ el_keylen e = Z.of_nat (length (el_key e)) /\ Z.of_nat (length (el_key e)) < 2 ^ 32 /\ el_hashv e = jen (el_key e).

(** [l]: all elements, in the order they were added. *)
Record app_ok (m : gmap Z elem) (t : Z) (T : utable) (l : list Z) : Prop := {
  ap_nodup : NoDup l;
  ap_seg : seg app_links m None l None;
  ap_tail : Some (tb_tail T) = last_or None l;
  ap_items : tb_num_items T = Z.of_nat (length l);
  ap_bound : Z.of_nat (length l) < 2 ^ 32;
  ap_keyed : forall x, x ∈ l -> exists e, m !! x = Some e /\ keyed t e
}.

Lemma app_ok_hh m m' t T T' l : only_hh m m' -> tb_tail T' = tb_tail T -> tb_num_items T' = tb_num_items T -> app_ok m t T l -> app_ok m' t T' l.
Proof.
  intros Ho Ht Hi []. split; [done|by eapply only_hh_app|by rewrite Ht|by rewrite Hi|done|].
  intros x Hx. destruct (ap_keyed0 x Hx) as (e & He & Hk). destruct (only_hh_at _ _ _ _ Ho He) as (p & q & Hx'). eauto.
Qed.

Lemma mjoin_replicate_nil {A} n : mjoin (replicate n (@nil A)) = [].
Proof. induction n as [|n IH]; [done|exact IH]. Qed.

Lemma buckets_empty m k : 0 <= k <= 31 -> buckets m k (replicate (Z.to_nat (2 ^ k)) empty_bucket) (replicate (Z.to_nat (2 ^ k)) []).
Proof.
  intros Hk. assert (0 < 2 ^ k) by (apply Z.pow_pos_nonneg; lia). split; [done|rewrite length_replicate; lia| | |rewrite mjoin_replicate_nil; constructor].
  - apply Forall2_same_length_lookup. split; [by rewrite !length_replicate|]. intros i b c [-> _]%lookup_replicate [-> _]%lookup_replicate. done.
  - intros i c x [-> _]%lookup_replicate Hx. by apply not_elem_of_nil in Hx.
Qed.

Lemma ideal_pos items k : 0 < items < 2 ^ 32 -> 5 <= k <= 29 ->
  0 < u32 (Z.shiftr items (k + 1) + (if decide (Z.land items (u32 (2 ^ (k + 1) - 1)) = 0) then 0 else 1)).
Proof.
  intros Hi Hk. assert (0 < 2 ^ (k + 1) <= 2 ^ 30) by (split; [apply Z.pow_pos_nonneg; lia|apply Z.pow_le_mono_r; lia]).
  rewrite (u32_small (2 ^ (k + 1) - 1)) by lia. replace (2 ^ (k + 1) - 1) with (Z.ones (k + 1)) by (rewrite Z.ones_equiv; lia).
  rewrite Z.land_ones, Z.shiftr_div_pow2 by lia. assert (2 ^ 1 <= 2 ^ (k + 1)) by (apply Z.pow_le_mono_r; lia).
  pose proof (Z.div_mod items (2 ^ (k + 1)) ltac:(lia)) as Hdm. assert (0 <= items / 2 ^ (k + 1)) by (apply Z.div_pos; lia).
  assert (items / 2 ^ (k + 1) < 2 ^ 31) by (apply Z.div_lt_upper_bound; lia).
  rewrite u32_small by (case_decide; lia). case_decide; nia.
Qed.

Section table.
Context (mem_ok : Z -> bool) (Hmem : mem_ok (2 ^ 35) = false).

Lemma runs_HASH_EXPAND_BUCKETS m ts t T l : ts !! t = Some T -> chains_ok m T l -> l <> [] -> tb_num_items T = Z.of_nat (length l) -> Z.of_nat (length l) < 2 ^ 32 ->
  runs (HASH_EXPAND_BUCKETS mem_ok (Some t)) (fun _ s => exists T', uh_tabs s = <[t := T']> ts /\ chains_ok (uh_elems s) T' l /\
    tb_tail T' = tb_tail T /\ tb_num_items T' = tb_num_items T /\ only_hh m (uh_elems s)) (UHeap m ts).
Proof using Hmem.
  intros HT (k & cs & Hk & Hnum & Hlog & Hb & Hj) Hl Hit Hlen. unfold HASH_EXPAND_BUCKETS.
  apply runs_bind. apply (runs_tab_get _ _ _ T); [done|]. rewrite Hnum, Hlog. destruct (double_pow k) as [_ Hd]; [lia|]. rewrite Hd.
  apply runs_bind, runs_malloc. intros Hok. assert (Hk29 : k <= 29).
  { destruct (decide (k = 30)) as [->|]; [|lia]. change (2 ^ (30 + 1) * BUCKET_SIZE) with (2 ^ 35) in Hok. congruence. }
  assert (Hitems : 0 < tb_num_items T < 2 ^ 32) by (destruct l; [done|cbn [length] in *; lia]).
  pose proof (ideal_pos (tb_num_items T) k Hitems ltac:(lia)) as Hideal.
  set (ideal := u32 (Z.shiftr (tb_num_items T) (k + 1) + _)) in *. clearbody ideal.
  apply runs_bind. eapply runs_mono; [apply (runs_expand_all ts k ideal ltac:(lia) Hideal m _ cs); [apply Hb| |apply buckets_empty; lia| |]|].
  - intros x (c & Hx & Hc)%list_elem_of_join. apply list_elem_of_lookup in Hc as [i Hc]. destruct (bu_hash _ _ _ _ Hb i c x Hc Hx) as (e & He & Hw & _). eauto.
  - rewrite mjoin_replicate_nil, app_nil_r. apply Hb.
  - by rewrite mjoin_replicate_nil, app_nil_r, Hj.
  - intros [new nonideal] [m' ts']. cbn [fst snd uh_tabs uh_elems]. unfold moved. rewrite mjoin_replicate_nil. intros (-> & Ho & _ & cs' & Hb' & Hj').
    rewrite app_nil_r in Hj'. eapply runs_tab_upd; [done|]. eexists. split; [done|]. split; [|split; [done|by split]].
    exists (k + 1), cs'. split; [lia|]. split; [done|]. split; [cbn; by rewrite Hlog|]. split; [done|]. by rewrite Hj', Hj.
Qed.

Lemma runs_HASH_ADD_TO_BKT m ts t T l x e : ts !! t = Some T -> chains_ok m T l -> app_ok m t T (l ++ [x]) -> m !! x = Some e ->
  runs (HASH_ADD_TO_BKT mem_ok (Some t) (HASH_TO_BKT (el_hashv e) (tb_num_buckets T)) x) (fun _ s => exists T', uh_tabs s = <[t := T']> ts /\
    chains_ok (uh_elems s) T' (l ++ [x]) /\ app_ok (uh_elems s) t T' (l ++ [x]) /\ only_hh m (uh_elems s)) (UHeap m ts).
Proof using Hmem.
  intros HT (k & cs & Hk & Hnum & Hlog & Hb & Hj) Ha He. pose proof (ap_nodup _ _ _ _ Ha) as Hn. apply NoDup_snoc in Hn as [Hx Hn].
  pose proof (ap_bound _ _ _ _ Ha) as Hlen. rewrite length_app in Hlen. cbn [length] in Hlen.
  destruct (ap_keyed _ _ _ _ Ha x) as (e' & He' & Htb & Hkl & Hkb & Hhv); [set_solver|]. rewrite He in He'. injection He' as <-.
  assert (Hw : word32 (el_hashv e)) by (rewrite Hhv; by apply (HASH_JEN_ok _ 1)).
  unfold HASH_ADD_TO_BKT. apply runs_bind. apply (runs_tab_get _ _ _ T); [done|]. rewrite Hnum.
  destruct (bucket_of_hash _ _ _ _ _ Hb Hw) as (i & b & c & Hi & Hget & Hbi & Hci & Hput). apply runs_bind. eapply runs_lift; [exact Hget|].
  destruct (Forall2_lookup_lr _ _ _ _ _ _ (bu_ok _ _ _ _ Hb) Hbi Hci) as (Hhd & Hcnt & _).
  destruct (join_insert cs i c c Hci) as (R & HR & _). assert (Hcl : (length c <= length l)%nat) by (rewrite <- Hj, HR, length_app; lia).
  rewrite (u32_small (bk_count b + 1)) by lia.
  apply runs_bind, runs_elem_upd; [by eexists|]. apply runs_bind, runs_elem_upd; [rewrite lookup_alter_eq, He; by eexists|].
  destruct (buckets_push m k _ cs x e i b c (bk_count b + 1) (bk_mult b) Hb He Hw) as (Heq & Ho & Hot & cs' & Hb' & Hj'); [by rewrite Hj|done..|].
  apply runs_bind. apply (runs_opt_upd _ _ _ _ set_hh_prev).
  { intros y Hy. assert (Hyc : y ∈ c) by (rewrite Hhd in Hy; destruct c; [done|injection Hy as ->; by left]).
    assert (y <> x) by (intros ->; apply Hx; rewrite <- Hj; by apply (elem_of_join cs i c)). rewrite !lookup_alter_ne by done.
    destruct (bu_hash _ _ _ _ Hb i c y Hci Hyc) as (e' & -> & _). by eexists. }
  rewrite Heq. clear Heq. apply runs_bind. eapply runs_tab_upd; [done|]. set (m' := at_opt _ _ _) in *. clearbody m'. rewrite Hput.
  set (T1 := set_buckets _ T). assert (Ha1 : app_ok m' t T1 (l ++ [x])) by by apply (app_ok_hh m _ t T).
  destruct (only_hh_at _ _ _ _ Ho He) as (p & q & Hx'). apply runs_bind. eapply runs_elem_get; [exact Hx'|]. cbn [el_tbl set_hh_prev set_hh_next]. rewrite Htb.
  apply runs_bind. eapply runs_tab_get; [apply lookup_insert_eq|].
  assert (Hc1 : chains_ok m' T1 (l ++ [x])).
  { exists k, cs'. split; [done|]. split; [done|]. split; [done|]. split; [exact Hb'|]. rewrite Hj', Hj. by rewrite Permutation_app_comm. }
  case_decide as Hexp; [|apply runs_ret; by exists T1].
  eapply runs_mono; [apply (runs_HASH_EXPAND_BUCKETS m' _ t T1 (l ++ [x])); [apply lookup_insert_eq|done|by destruct l|apply Ha1|apply Ha1]|].
  intros _ s (T2 & Hts & Hc2 & Htl & Hit & Ho2). exists T2. rewrite Hts, insert_insert_eq. split; [done|]. split; [done|].
  split; [by apply (app_ok_hh m' _ t T1)|]. by eapply only_hh_trans.
Qed.

(** ** Adding an element *)
Definition data (e : elem) : bytes * bytes := (el_key e, el_val e).
Definition same_data (m m' : gmap Z elem) : Prop := forall y, data <$> m' !! y = data <$> m !! y.

(** [head] is a table whose elements are [l], in the order they were added. *)
Definition hashtab (s : uheap) (head : option Z) (l : list Z) : Prop :=
  head = hd_or l None /\ (l = [] \/ exists t T, uh_tabs s !! t = Some T /\ app_ok (uh_elems s) t T l /\ chains_ok (uh_elems s) T l).

Lemma only_hh_data m m' : only_hh m m' -> same_data m m'.
Proof. intros Ho y. destruct (Ho y) as (p & q & ->). by destruct (m !! y). Qed.

Lemma same_data_trans m1 m2 m3 : same_data m1 m2 -> same_data m2 m3 -> same_data m1 m3.
Proof. intros H1 H2 y. by rewrite H2, H1. Qed.

(** Chains only depend on the links and the hashes of their elements. *)
Lemma chains_ok_frame m m' T T' l : (forall y e, y ∈ l -> m !! y = Some e -> exists e', m' !! y = Some e' /\ el_hh_next e' = el_hh_next e /\ el_hh_prev e' = el_hh_prev e /\ el_hashv e' = el_hashv e) ->
  tb_buckets T' = tb_buckets T -> tb_num_buckets T' = tb_num_buckets T -> tb_log2 T' = tb_log2 T -> chains_ok m T l -> chains_ok m' T' l.
Proof.
  intros Hf Hbk Hnb Hlg (k & cs & Hk & Hnum & Hlog & [Hk' Hlen Hok Hh Hn] & Hj). exists k, cs. rewrite Hbk, Hnb, Hlg. split; [done|]. split; [done|]. split; [done|]. split; [|done].
  assert (Hin : forall i c y, cs !! i = Some c -> y ∈ c -> y ∈ l) by (intros i c y Hc Hy; rewrite <- Hj; by eapply elem_of_join).
  split; [done|done| | |done].
  - apply Forall2_same_length_lookup. split; [by eapply Forall2_length|]. intros i b c Hb Hc. destruct (Forall2_lookup_lr _ _ _ _ _ _ Hok Hb Hc) as (H1 & H2 & H3).
    split; [done|]. split; [done|]. revert H3. apply seg_frame. intros y e Hy He. destruct (Hf y e) as (e' & ? & ? & ? & ?); [by eapply Hin|done|]. by exists e'.
  - intros i c y Hc Hy. destruct (Hh i c y Hc Hy) as (e & He & Hw & Hb). destruct (Hf y e) as (e' & He' & _ & _ & Hhv); [by eapply Hin|done|]. exists e'. by rewrite Hhv.
Qed.

(** The element as [HASH_ADD_KEYPTR] leaves it before the buckets. *)
Definition added (t : Z) (p : option Z) (e : elem) : elem :=
  Elem (el_key e) (el_val e) (Some t) p None (el_hh_prev e) (el_hh_next e) (Z.of_nat (length (el_key e))) (jen (el_key e)).

Lemma app_ok_snoc m t T l x e tl : app_ok m t T l -> x ∉ l -> m !! x = Some e -> Z.of_nat (length (el_key e)) < 2 ^ 32 ->
  Z.of_nat (length l) + 1 < 2 ^ 32 -> Some tl = last_or None l ->
  app_ok (alter (set_next (Some x)) tl (<[x := added t (Some tl) e]> m)) t (set_items (u32 (tb_num_items T + 1)) (set_tail x T)) (l ++ [x]).
Proof.
  intros [Hn Hs Ht Hi Hb Hk] Hx He Hke Hlen Hp.
  assert (Htlx : tl <> x). { intros ->. apply Hx. destruct (last_or_elem None l x) as [?|?]; [congruence|done|done]. }
  assert (Hnn : NoDup (l ++ [x])) by by apply NoDup_snoc. split; [done| | | | |].
  - pose proof (seg_snoc app_links (<[x := added t (Some tl) e]> m) l x (added t (Some tl) e) Hnn) as Hss. rewrite <- Hp in Hss. apply Hss; [|by rewrite lookup_insert_eq|done|done].
    revert Hs. apply seg_frame. intros y ey Hy Hey. exists ey. rewrite lookup_insert_ne; [done|]. by intros ->.
  - by rewrite last_or_snoc.
  - cbn. rewrite length_app. cbn [length]. rewrite u32_small by lia. lia.
  - rewrite length_app. cbn [length]. lia.
  - intros y [Hy|Hy%list_elem_of_singleton]%elem_of_app.
    + destruct (Hk y Hy) as (ey & Hey & Hky). destruct (decide (tl = y)) as [->|Hne].
      * exists (set_next (Some x) ey). rewrite lookup_alter_eq, lookup_insert_ne by congruence. rewrite Hey. done.
      * exists ey. rewrite lookup_alter_ne by done. rewrite lookup_insert_ne by (by intros ->). done.
    + subst y. exists (added t (Some tl) e). rewrite lookup_alter_ne by done. rewrite lookup_insert_eq. done.
Qed.

Lemma same_data_added m t p x e : m !! x = Some e -> same_data m (<[x := added t p e]> m).
Proof. intros He y. destruct (decide (x = y)) as [<-|Hne]; [by rewrite lookup_insert_eq, He|by rewrite lookup_insert_ne]. Qed.

Lemma same_data_alter m f x : (forall e, data (f e) = data e) -> same_data m (alter f x m).
Proof.
  intros Hf y. destruct (decide (x = y)) as [<-|Hne]; [|by rewrite lookup_alter_ne]. rewrite lookup_alter_eq. destruct (m !! x); [|done]. cbn. by rewrite Hf.
Qed.

Lemma hd_or_app l x : l <> [] -> hd_or (l ++ [x]) None = hd_or l None.
Proof. by destruct l. Qed.

Lemma runs_HASH_MAKE_TABLE (Q : unit -> uheap -> Prop) m ts x : is_Some (m !! x) ->
  (forall t, ts !! t = None -> Q tt (UHeap (alter (set_tbl (Some t)) x m)
     (<[t := Tbl (replicate (Z.to_nat (2 ^ 5)) empty_bucket) (2 ^ 5) 5 0 x 0 0 0 0]> ts))) ->
  runs (HASH_MAKE_TABLE mem_ok x) Q (UHeap m ts).
Proof using.
  intros Hx HQ. unfold HASH_MAKE_TABLE. apply runs_bind, runs_malloc. intros _. apply runs_bind, runs_gets. apply runs_bind, runs_malloc. intros _.
  apply runs_bind. unfold runs at 1, modifyS. cbn [uh_elems uh_tabs]. apply runs_elem_upd; [done|]. apply HQ. apply not_elem_of_dom, is_fresh.
Qed.

(** The element is in the list of all elements, but for the fields written last. *)
Definition in_app (m : gmap Z elem) (l : list Z) (x : Z) (e : elem) (h : Z) (s : uheap) : Prop :=
  exists eh t T p e2, hd_or (l ++ [x]) None = Some h /\ uh_tabs s !! t = Some T /\ uh_elems s !! h = Some eh /\ el_tbl eh = Some t /\
    uh_elems s !! x = Some e2 /\ el_key e2 = el_key e /\ set_hashv (jen (el_key e)) (set_tbl (Some t) e2) = added t p e /\
    chains_ok (uh_elems s) T l /\ app_ok (<[x := added t p e]> (uh_elems s)) t (set_items (u32 (tb_num_items T + 1)) T) (l ++ [x]) /\ same_data m (uh_elems s).

Lemma in_app_new m m1 ts t x e : m1 = alter (set_tbl (Some t)) x (alter (set_prev None) x (alter (set_keylen (Z.of_nat (length (el_key e)))) x (alter (set_next None) x m))) ->
  m !! x = Some e -> Z.of_nat (length (el_key e)) < 2 ^ 32 ->
  in_app m [] x e x (UHeap m1 (<[t := Tbl (replicate (Z.to_nat (2 ^ 5)) empty_bucket) (2 ^ 5) 5 0 x 0 0 0 0]> ts)).
Proof using.
  intros Hm1 He Hke. assert (Hx : m1 !! x = Some (set_hashv (el_hashv e) (added t None e))) by (rewrite Hm1, !lookup_alter_eq, He; done).
  eexists _, t, _, None, _. split; [done|]. split; [apply lookup_insert_eq|]. split; [exact Hx|]. split; [done|]. split; [exact Hx|]. split; [done|]. split; [done|].
  split; [|split].
  - exists 5, (replicate (Z.to_nat (2 ^ 5)) []). split; [lia|]. split; [done|]. split; [done|]. split; [apply buckets_empty; lia|by rewrite mjoin_replicate_nil].
  - split; [apply NoDup_singleton| |done|done|done|].
    + split; [|done]. exists (added t None e). by rewrite lookup_insert_eq.
    + intros y Hy%list_elem_of_singleton. subst y. exists (added t None e). by rewrite lookup_insert_eq.
  - cbn [uh_elems]. rewrite Hm1. do 4 (eapply same_data_trans; [|by apply same_data_alter]). done.
Qed.

Lemma in_app_old m m1 ts t T l h x e : m1 = alter (set_prev (Some (tb_tail T))) x (alter (set_next (Some x)) (tb_tail T) (alter (set_keylen (Z.of_nat (length (el_key e)))) x (alter (set_next None) x m))) ->
  m !! x = Some e -> Z.of_nat (length (el_key e)) < 2 ^ 32 -> x ∉ l -> Z.of_nat (length l) + 1 < 2 ^ 32 ->
  app_ok m t T l -> chains_ok m T l -> hd_or l None = Some h -> in_app m l x e h (UHeap m1 (<[t := set_tail x T]> ts)).
Proof using.
  intros Hm1 He Hke Hx Hlen Ha Hc Hh. assert (Hl : l <> []) by by destruct l.
  assert (Htl : tb_tail T <> x). { intros Htl. apply Hx. destruct (last_or_elem None l x) as [?|?]; [by rewrite <- (ap_tail _ _ _ _ Ha), Htl|done|done]. }
  assert (Hm1x : m1 !! x = Some (set_tbl (el_tbl e) (set_hashv (el_hashv e) (added t (Some (tb_tail T)) e)))).
  { rewrite Hm1, lookup_alter_eq, lookup_alter_ne, !lookup_alter_eq, He by done. done. }
  assert (Hm1y : forall y ey, y <> x -> m !! y = Some ey -> m1 !! y = Some (if decide (y = tb_tail T) then set_next (Some x) ey else ey)).
  { intros y ey Hy Hey. rewrite Hm1, lookup_alter_ne by done. case_decide as Hd.
    - subst y. rewrite lookup_alter_eq, !lookup_alter_ne, Hey by done. done.
    - by rewrite !lookup_alter_ne. }
  assert (Hhl : h ∈ l) by (destruct l; [done|]; injection Hh as ->; by left). destruct (ap_keyed _ _ _ _ Ha h Hhl) as (eh & Heh & Hkh).
  eexists _, t, _, (Some (tb_tail T)), _. split; [by rewrite hd_or_app|]. split; [apply lookup_insert_eq|]. split; [apply Hm1y; [by intros ->|exact Heh]|].
  split; [case_decide; apply Hkh|]. split; [exact Hm1x|]. split; [done|]. split; [done|]. split; [|split].
  - apply (chains_ok_frame m _ T); [|done..]. intros y ey Hy Hey. eexists. split; [apply Hm1y; [by intros ->|exact Hey]|]. by case_decide.
  - cbn [uh_elems]. replace (<[x := added t (Some (tb_tail T)) e]> m1) with (alter (set_next (Some x)) (tb_tail T) (<[x := added t (Some (tb_tail T)) e]> m)).
    + by apply (app_ok_snoc m t T); rewrite ?(ap_tail _ _ _ _ Ha).
    + apply map_eq. intros y. destruct (decide (y = x)) as [->|Hyx]; [by rewrite lookup_alter_ne, !lookup_insert_eq by done|].
      rewrite (lookup_insert_ne m1), Hm1, (lookup_alter_ne _ _ x) by done.
      destruct (decide (y = tb_tail T)) as [->|Hyt]; [rewrite !lookup_alter_eq|rewrite !(lookup_alter_ne _ _ (tb_tail T)) by done]; by rewrite lookup_insert_ne, !lookup_alter_ne by done.
  - cbn [uh_elems]. rewrite Hm1. do 4 (eapply same_data_trans; [|by apply same_data_alter]). done.
Qed.

(** What remains once the element is in the list of all elements. *)
Lemma runs_add_rest m ts t T l x e p hd : ts !! t = Some T -> chains_ok m T l -> app_ok m t (set_items (u32 (tb_num_items T + 1)) T) (l ++ [x]) ->
  m !! x = Some (added t p e) -> hd_or (l ++ [x]) None = Some hd ->
  runs (HASH_ADD_TO_BKT mem_ok (Some t) (HASH_TO_BKT (jen (el_key e)) (tb_num_buckets T)) x) (fun _ s => hashtab s (Some hd) (l ++ [x]) /\ same_data m (uh_elems s))
    (UHeap m (<[t := set_items (u32 (tb_num_items T + 1)) T]> ts)).
Proof using Hmem.
  intros HT Hc Ha He Hhd. set (T1 := set_items _ T) in *. change (jen (el_key e)) with (el_hashv (added t p e)). change (tb_num_buckets T) with (tb_num_buckets T1).
  eapply runs_mono; [eapply runs_HASH_ADD_TO_BKT; [apply lookup_insert_eq| |exact Ha|exact He]|].
  - eapply chains_ok_frame; [|done..|exact Hc]. intros y ey _ Hy. by exists ey.
  - intros _ s (T2 & Hts & Hc2 & Ha2 & Ho). split; [|by apply only_hh_data]. split; [done|]. right. exists t, T2. rewrite Hts, lookup_insert_eq. done.
Qed.

Lemma runs_HASH_ADD_KEYPTR m ts head l x e : hashtab (UHeap m ts) head l -> x ∉ l -> m !! x = Some e -> Z.of_nat (length (el_key e)) < 2 ^ 32 ->
  Z.of_nat (length l) + 1 < 2 ^ 32 ->
  runs (HASH_ADD_KEYPTR mem_ok head (Z.of_nat (length (el_key e))) x) (fun h s => hashtab s h (l ++ [x]) /\ same_data m (uh_elems s)) (UHeap m ts).
Proof using Hmem.
  intros [-> Htab] Hx He Hke Hlen. unfold HASH_ADD_KEYPTR. apply runs_bind, runs_elem_upd; [by eexists|].
  apply runs_bind, runs_elem_upd; [rewrite lookup_alter_eq, He; by eexists|]. rewrite u32_small by lia.
  apply runs_bind, (runs_mono _ (in_app m l x e)).
  - destruct Htab as [->|(t & T & Ht & Ha & Hc)].
    + apply runs_bind. cbn [hd_or]. apply runs_elem_upd; [rewrite !lookup_alter_eq, He; by eexists|].
      apply runs_bind, runs_HASH_MAKE_TABLE; [rewrite !lookup_alter_eq, He; by eexists|]. intros t Ht. apply runs_ret. by apply in_app_new.
    + destruct l as [|hd l]; [discriminate (ap_tail _ _ _ _ Ha)|]. cbn [hd_or]. destruct (ap_keyed _ _ _ _ Ha hd) as (eh & Heh & Hkh); [by left|].
      assert (Hne : x <> hd) by (intros ->; apply Hx; by left). apply runs_bind. eapply runs_elem_get; [cbn [uh_elems]; rewrite !lookup_alter_ne by done; exact Heh|].
      destruct Hkh as (-> & _). apply runs_bind, (runs_tab_get _ _ _ T); [done|].
      assert (Htl : is_Some (m !! tb_tail T) /\ tb_tail T <> x).
      { destruct (last_or_cons_elem None hd l) as (y & Hy & Hin). rewrite <- (ap_tail _ _ _ _ Ha) in Hy. injection Hy as ->.
        destruct (ap_keyed _ _ _ _ Ha y Hin) as (ey & Hey & _). split; [by eexists|]. by intros ->. }
      destruct Htl as [Htls Htlx]. apply runs_bind, runs_elem_upd; [by rewrite !lookup_alter_ne|].
      apply runs_bind, runs_elem_upd; [rewrite lookup_alter_ne, !lookup_alter_eq, He by done; by eexists|].
      apply runs_bind. eapply runs_tab_upd; [done|]. apply runs_ret. by apply (in_app_old _ _ _ t T (hd :: l)).
  - intros h [m2 ts2] (eh & t & T & p & e2 & Hh & HT & Heh & Htb & He2 & Hk2 & Hadd & Hc & Ha & Hsd). cbn [uh_elems uh_tabs] in *.
    apply runs_bind, (runs_elem_get _ _ _ eh); [done|]. rewrite Htb. apply runs_bind. eapply runs_tab_upd; [done|].
    apply runs_bind, runs_elem_upd; [by eexists|]. apply runs_bind. eapply runs_tab_get; [apply lookup_insert_eq|].
    apply runs_bind. eapply runs_elem_get; [cbn [uh_elems]; by rewrite lookup_alter_eq, He2|]. cbn [el_key set_tbl]. rewrite Hk2.
    apply runs_bind. eapply runs_lift; [by apply HASH_JEN_ok|]. cbn [fst snd tb_num_buckets set_items].
    apply runs_bind, runs_elem_upd; [rewrite lookup_alter_eq, He2; by eexists|].
    replace (alter (set_hashv (jen (el_key e))) x (alter (set_tbl (Some t)) x m2)) with (<[x := added t p e]> m2).
    2: { apply map_eq. intros y. destruct (decide (x = y)) as [<-|Hne]; [|by rewrite lookup_insert_ne, !lookup_alter_ne].
         rewrite lookup_insert_eq, !lookup_alter_eq, He2. cbn. by rewrite Hadd. }
    apply runs_bind. eapply runs_mono; [eapply (runs_add_rest (<[x := added t p e]> m2)); [exact HT| |exact Ha|apply lookup_insert_eq|exact Hh]|].
    + apply (chains_ok_frame m2 _ T); [|done..]. intros y ey Hy Hey. exists ey. rewrite lookup_insert_ne; [done|]. by intros ->.
    + intros _ s [Hht Hsd']. apply runs_ret. split; [done|]. eapply same_data_trans; [exact Hsd|]. eapply same_data_trans; [|exact Hsd'].
      intros y. destruct (decide (x = y)) as [<-|Hne]; [|by rewrite lookup_insert_ne]. rewrite lookup_insert_eq, He2. cbn. f_equal.
      unfold data. rewrite Hk2. f_equal. by apply (f_equal el_val) in Hadd.
Qed.

End table.

(** ** Finding a key *)
Definition found (m : gmap Z elem) (l : list Z) (key : bytes) (r : option Z) : Prop :=
  match r with
  | Some x => x ∈ l /\ el_key <$> m !! x = Some key
  | None => forall x, x ∈ l -> el_key <$> m !! x <> Some key
  end.

Lemma find_in_bkt_ok fuel s t key c p : seg hh_links (uh_elems s) p c None -> (forall x, x ∈ c -> exists e, uh_elems s !! x = Some e /\ keyed t e) ->
  (length c < fuel)%nat -> runs (find_in_bkt fuel key (Z.of_nat (length key)) (hd_or c None)) (fun r s' => s' = s /\ found (uh_elems s) c key r) s.
Proof.
  revert p c. induction fuel as [|fuel IH]; intros p c Hs Hk Hf; [lia|]. destruct c as [|x c]; cbn [hd_or find_in_bkt].
  - apply runs_ret. split; [done|]. intros x Hx. by apply not_elem_of_nil in Hx.
  - destruct Hs as [(e & He & _ & Hn) Hs]. apply runs_bind, (runs_elem_get _ _ _ e); [done|].
    destruct (Hk x) as (e' & He' & Hke); [by left|]. rewrite He in He'. injection He' as <-. destruct Hke as (_ & Hlen & _).
    rewrite Nat2Z.id. case_decide as Hd.
    + destruct Hd as [Hl Ht]. apply runs_ret. split; [done|]. split; [by left|]. rewrite He. cbn. f_equal.
      rewrite Hlen in Hl. rewrite !take_ge in Ht by lia. done.
    + change (runs (find_in_bkt fuel key (Z.of_nat (length key)) (el_hh_next e)) (fun r s' => s' = s /\ found (uh_elems s) (x :: c) key r) s).
      change (nxt hh_links e) with (el_hh_next e) in Hn. rewrite Hn. cbn [length] in Hf.
      eapply runs_mono; [apply (IH (Some x) c); [done| |lia]|]; [intros y Hy; apply Hk; by right|].
      intros r s' [-> Hr]. split; [done|]. destruct r as [y|]; [destruct Hr; split; [by right|done]|].
      intros y [->|Hy]%elem_of_cons; [|by apply Hr]. rewrite He. cbn. intros [= <-]. apply Hd. done.
Qed.

Lemma runs_HASH_FIND s head l key : hashtab s head l -> Z.of_nat (length key) < 2 ^ 32 ->
  runs (HASH_FIND head key (Z.of_nat (length key))) (fun r s' => s' = s /\ found (uh_elems s) l key r) s.
Proof.
  intros [-> Htab] Hkey. unfold HASH_FIND. destruct l as [|hd l]; cbn [hd_or].
  { apply runs_ret. split; [done|]. intros x Hx. by apply not_elem_of_nil in Hx. }
  destruct Htab as [?|(t & T & Ht & Ha & k & cs & Hk & Hnum & _ & Hb & Hj)]; [done|].
  destruct (ap_keyed _ _ _ _ Ha hd) as (eh & Heh & Hkh & _); [by left|]. apply runs_bind, (runs_elem_get _ _ _ eh); [done|]. rewrite Hkh.
  apply runs_bind, (runs_tab_get _ _ _ T); [done|]. destruct (HASH_JEN_ok key (tb_num_buckets T) Hkey) as [Hjen Hw]. apply runs_bind. eapply runs_lift; [exact Hjen|].
  rewrite Hnum. cbn [snd]. destruct (bucket_of_hash _ _ _ _ _ Hb Hw) as (i & b & c & Hi & Hget & Hbi & Hci & _). apply runs_bind. eapply runs_lift; [exact Hget|].
  destruct (Forall2_lookup_lr _ _ _ _ _ _ (bu_ok _ _ _ _ Hb) Hbi Hci) as (-> & _ & Hs).
  assert (Hcl : forall x, x ∈ c -> x ∈ hd :: l) by (intros x Hx; rewrite <- Hj; by apply (elem_of_join cs i c)).
  apply runs_bind, runs_gets. eapply runs_mono; [apply (find_in_bkt_ok _ s t key c None); [done| |]|].
  - intros x Hx. by apply (ap_keyed _ _ _ _ Ha), Hcl.
  - apply le_n_S, nodup_size; [|intros x Hx; by eapply seg_elem]. apply (join_chain_nodup cs i); [apply Hb|done].
  - intros r s' [-> Hr]. split; [done|]. destruct r as [x|]; [destruct Hr; split; [by apply Hcl|done]|].
    intros x Hx Hkx. apply (Hr x); [|done]. destruct (ap_keyed _ _ _ _ Ha x Hx) as (e & He & _ & _ & _ & Hhv). rewrite He in Hkx. injection Hkx as Hkx.
    rewrite <- Hj in Hx. apply list_elem_of_join in Hx as (c' & Hx & Hc'). apply list_elem_of_lookup in Hc' as [j Hc'].
    destruct (bu_hash _ _ _ _ Hb j c' x Hc' Hx) as (e' & He' & _ & Hbj). rewrite He in He'. injection He' as <-. rewrite Hhv, Hkx, Hi in Hbj.
    apply Nat2Z.inj in Hbj. subst j. congruence.
Qed.

(** ** Deleting an element *)
Lemma only_hh_unlink m p q : only_hh m (unlink hh_links p q m).
Proof. eapply only_hh_trans; [apply only_hh_opt_next|apply only_hh_opt_prev]. Qed.

(** Writing through a pair of links that may be NULL, the element between them being in the store. *)
Lemma runs_unlink_hh (Q : unit -> uheap -> Prop) m ts p q : (forall y, p = Some y -> is_Some (m !! y)) -> (forall y, q = Some y -> is_Some (m !! y)) ->
  Q tt (UHeap (unlink hh_links p q m) ts) ->
  runs (_ ← (match p with Some y => elem_upd (Some y) (set_hh_next q) | None => mret tt end);
        match q with Some y => elem_upd (Some y) (set_hh_prev p) | None => mret tt end) Q (UHeap m ts).
Proof.
  intros Hp Hq HQ. apply runs_bind. apply (runs_opt_upd _ _ _ p set_hh_next); [done|]. apply (runs_opt_upd _ _ _ q set_hh_prev); [|done].
  intros y Hy. destruct (Hq y Hy) as [e He]. destruct (only_hh_at _ _ _ _ (only_hh_opt_next m p q) He) as (? & ? & ->). by eexists.
Qed.

Lemma last_or_in l y : last_or None l = Some y -> y ∈ l.
Proof. intros Hy. destruct (last_or_elem None l y Hy) as [?|?]; [done|done]. Qed.

Lemma hd_or_in l y : hd_or l None = Some y -> y ∈ l.
Proof. destruct l; [done|]. intros [= ->]. by left. Qed.

(** Taking an element out of its chain. *)
Lemma buckets_unlink m k bs cs i b x c1 c2 mult : buckets m k bs cs -> bs !! i = Some b -> cs !! i = Some (c1 ++ x :: c2) ->
  buckets (unlink hh_links (last_or None c1) (hd_or c2 None) m) k (<[i := Bkt (hd_or (c1 ++ c2) None) (bk_count b - 1) mult]> bs) (<[i := c1 ++ c2]> cs) /\
  mjoin cs ≡ₚ x :: mjoin (<[i := c1 ++ c2]> cs).
Proof.
  intros Hb Hbi Hci. destruct (join_insert cs i (c1 ++ x :: c2) (c1 ++ c2) Hci) as (R & HR & HR' & _).
  assert (Hj : mjoin cs ≡ₚ x :: mjoin (<[i := c1 ++ c2]> cs)) by (rewrite HR, HR', <- !app_assoc; cbn [app]; symmetry; apply Permutation_middle).
  destruct (Forall2_lookup_lr _ _ _ _ _ _ (bu_ok _ _ _ _ Hb) Hbi Hci) as (Hhd & Hcnt & Hs). rewrite length_app in Hcnt. cbn [length] in Hcnt.
  pose proof (join_chain_nodup cs i _ (bu_nodup _ _ _ _ Hb) Hci) as Hnc. split; [|done]. split; [apply Hb|rewrite length_insert; apply Hb| | |].
  - eapply chains_update; [apply Hb|exact Hci| |].
    + intros j d Hj' Hd Hsd. assert (Hdis : forall y, y ∈ c1 ++ x :: c2 -> y ∉ d) by (intros y Hy; apply (join_disjoint cs i j _ d y (bu_nodup _ _ _ _ Hb) Hci Hd); [congruence|done]).
      unfold unlink. apply at_opt_ne; [|apply at_opt_ne; [|done]]; intros y Hy; apply Hdis; [apply hd_or_in in Hy|apply last_or_in in Hy]; set_solver.
    + split; [done|]. split; [cbn; rewrite length_app; lia|]. by apply (seg_unlink hh_links m c1 x c2).
  - apply (only_hh_hash m); [apply only_hh_unlink|]. intros j d y Hd Hy. destruct (decide (i = j)) as [<-|Hne].
    + rewrite list_lookup_insert_eq in Hd by (by eapply lookup_lt_Some). injection Hd as <-. apply (bu_hash _ _ _ _ Hb i _ y Hci). set_solver.
    + rewrite list_lookup_insert_ne in Hd by done. by apply (bu_hash _ _ _ _ Hb j d y).
  - pose proof (bu_nodup _ _ _ _ Hb) as Hn. rewrite Hj in Hn. by apply NoDup_cons in Hn as [_ Hn].
Qed.

Lemma runs_HASH_DEL_IN_BKT m ts t T l l' x e : ts !! t = Some T -> chains_ok m T l -> l ≡ₚ x :: l' -> m !! x = Some e -> Z.of_nat (length l) < 2 ^ 32 ->
  runs (HASH_DEL_IN_BKT (Some t) (HASH_TO_BKT (el_hashv e) (tb_num_buckets T)) x) (fun _ s => exists T', uh_tabs s = <[t := T']> ts /\
    chains_ok (uh_elems s) T' l' /\ tb_tail T' = tb_tail T /\ tb_num_items T' = tb_num_items T /\ only_hh m (uh_elems s)) (UHeap m ts).
Proof.
  intros HT (k & cs & Hk & Hnum & Hlog & Hb & Hj) Hl He Hlen. assert (Hx : x ∈ mjoin cs) by (rewrite Hj, Hl; by left).
  apply list_elem_of_join in Hx as (c & Hxc & Hc). apply list_elem_of_lookup in Hc as [i Hci].
  destruct (bu_hash _ _ _ _ Hb i c x Hci Hxc) as (e' & He' & Hw & Hi). rewrite He in He'. injection He' as <-.
  unfold HASH_DEL_IN_BKT. apply runs_bind, (runs_tab_get _ _ _ T); [done|]. rewrite Hnum.
  destruct (bucket_of_hash _ _ _ _ _ Hb Hw) as (i' & b & c' & Hi' & Hget & Hbi & Hci' & Hput). assert (i' = i) as -> by lia. rewrite Hci in Hci'. injection Hci' as <-.
  apply runs_bind. eapply runs_lift; [exact Hget|]. apply runs_bind, (runs_elem_get _ _ _ e); [done|].
  destruct (Forall2_lookup_lr _ _ _ _ _ _ (bu_ok _ _ _ _ Hb) Hbi Hci) as (Hhd & Hcnt & Hs).
  pose proof (join_chain_nodup cs i c (bu_nodup _ _ _ _ Hb) Hci) as Hnc.
  destruct (join_insert cs i c c Hci) as (R0 & HR0 & _). assert (Hcl : (length c <= length l)%nat) by (rewrite <- Hj, HR0, length_app; lia). clear R0 HR0.
  apply list_elem_of_split in Hxc as (c1 & c2 & ->). destruct (seg_lookup _ _ _ _ _ _ _ Hs) as (e' & He' & Hp & Hn). rewrite He in He'. injection He' as <-.
  change (prv hh_links e) with (el_hh_prev e) in Hp. change (nxt hh_links e) with (el_hh_next e) in Hn. rewrite Hp, Hn.
  assert (Hcin : forall y, y ∈ c1 ++ x :: c2 -> is_Some (m !! y)) by (intros y Hy; by eapply seg_elem).
  assert (Hhead : (if decide (bk_head b = Some x) then hd_or c2 None else bk_head b) = hd_or (c1 ++ c2) None).
  { rewrite Hhd. destruct c1 as [|y c1]; cbn [hd_or app]; [by rewrite decide_True|]. rewrite decide_False; [done|].
    intros [= ->]. cbn [app] in Hnc. apply NoDup_cons in Hnc as [Hnc _]. apply Hnc. set_solver. }
  rewrite Hhead. rewrite length_app in Hcnt, Hcl. cbn [length] in Hcnt, Hcl. rewrite u32_small by lia.
  apply runs_bind. eapply runs_tab_upd; [done|]. rewrite Hput.
  destruct (buckets_unlink m k _ cs i b x c1 c2 (bk_mult b) Hb Hbi Hci) as [Hb' Hj'].
  apply runs_unlink_hh; [intros y Hy%last_or_in; apply Hcin; set_solver|intros y Hy%hd_or_in; apply Hcin; set_solver|].
  eexists. split; [done|]. split; [|split; [done|split; [done|apply only_hh_unlink]]]. cbn [uh_elems].
  exists k, (<[i := c1 ++ c2]> cs). split; [done|]. split; [done|]. split; [done|]. split; [exact Hb'|].
  apply (Permutation_cons_inv (a := x)). by rewrite <- Hl, <- Hj.
Qed.

(** Writing the links of the list of all elements leaves the rest of the elements. *)
Lemma unlink_app_at m p q y e : m !! y = Some e -> exists n r, unlink app_links p q m !! y = Some (set_prev n (set_next r e)).
Proof.
  intros He. unfold unlink. assert (H1 : exists r, at_opt (set_nxt app_links q) p m !! y = Some (set_next r e)).
  { destruct p as [p|]; [|exists (el_next e); cbn; rewrite He; by destruct e].
    destruct (alter_elem (set_next q) p y m e He) as (e' & He' & [->|[_ ->]]); [exists (el_next e); cbn; rewrite He'; by destruct e|by exists q]. }
  destruct H1 as [r Hr]. destruct q as [q|]; [|exists (el_prev e), r; transitivity (Some (set_next r e)); [exact Hr|by destruct e]].
  destruct (alter_elem (set_prev p) q y _ _ Hr) as (e' & He' & [->|[_ ->]]); [exists (el_prev e), r; transitivity (Some (set_next r e)); [exact He'|by destruct e]|by exists p, r].
Qed.

Lemma same_data_unlink m p q : same_data m (unlink app_links p q m).
Proof.
  unfold unlink. intros y. destruct p as [p|], q as [q|]; cbn [at_opt]; repeat (rewrite same_data_alter by done); done.
Qed.

Lemma app_ok_unlink m t T T' l1 x l2 : app_ok m t T (l1 ++ x :: l2) -> Some (tb_tail T') = last_or None (l1 ++ l2) -> tb_num_items T' = tb_num_items T - 1 ->
  app_ok (unlink app_links (last_or None l1) (hd_or l2 None) m) t T' (l1 ++ l2).
Proof.
  intros [Hn Hs Ht Hi Hb Hk] Htl Hit. rewrite length_app in Hi, Hb. cbn [length] in Hi, Hb. split; [|by eapply seg_unlink|done|rewrite length_app; lia|rewrite length_app; lia|].
  - rewrite <- Permutation_middle in Hn. by apply NoDup_cons in Hn as [_ Hn].
  - intros y Hy. destruct (Hk y) as (e & He & Hke); [set_solver|]. destruct (unlink_app_at m (last_or None l1) (hd_or l2 None) y e He) as (n & r & ->). by eexists.
Qed.

(** The tail of the list, if it is the element that goes. *)
Lemma runs_del_tail m ts t T l1 x l2 e : ts !! t = Some T -> app_ok m t T (l1 ++ x :: l2) -> m !! x = Some e -> l1 ++ l2 <> [] -> el_prev e = last_or None l1 ->
  runs (if decide (tb_tail T = x) then match el_prev e with Some p => tab_upd (Some t) (set_tail p) | None => raiseS NullDeref end else mret tt)
    (fun _ s => uh_elems s = m /\ exists T1, uh_tabs s = <[t := T1]> ts /\ T1 = set_tail (tb_tail T1) T /\ Some (tb_tail T1) = last_or None (l1 ++ l2)) (UHeap m ts).
Proof.
  intros HT Ha He Hne Hp. pose proof (ap_tail _ _ _ _ Ha) as Ht. rewrite last_or_app in Ht. cbn [last_or] in Ht. pose proof (ap_nodup _ _ _ _ Ha) as Hn.
  destruct (last_split l2) as [->|(l & y & ->)].
  - cbn in Ht. injection Ht as Ht. rewrite decide_True by done. rewrite app_nil_r in *. destruct (last_split l1) as [->|(l & y & ->)]; [done|].
    rewrite last_or_snoc in *. rewrite Hp. eapply runs_tab_upd; [done|]. split; [done|]. exists (set_tail y T). done.
  - rewrite last_or_snoc in Ht. injection Ht as Ht. rewrite decide_False.
    + apply runs_ret. split; [done|]. exists T. rewrite insert_id by done. split; [done|]. rewrite app_assoc, last_or_snoc. split; [by destruct T|by f_equal].
    + rewrite Ht. intros ->. apply NoDup_app in Hn as (_ & _ & [Hn _]%NoDup_cons). set_solver.
Qed.

(** What remains once the element is out of the list of all elements. *)
Lemma runs_del_rest m ts t T T1 l1 x l2 e h : app_ok m t T (l1 ++ x :: l2) -> chains_ok m T (l1 ++ x :: l2) -> m !! x = Some e ->
  T1 = set_tail (tb_tail T1) T -> Some (tb_tail T1) = last_or None (l1 ++ l2) -> hd_or (l1 ++ l2) None = Some h ->
  runs (h' ← elem_get (Some h); T ← tab_get (el_tbl h'); _ ← HASH_DEL_IN_BKT (el_tbl h') (HASH_TO_BKT (el_hashv e) (tb_num_buckets T)) x;
        _ ← tab_upd (el_tbl h') (fun T => set_items (u32 (tb_num_items T - 1)) T); mret (Some h))
    (fun h s => hashtab s h (l1 ++ l2) /\ same_data m (uh_elems s)) (UHeap (unlink app_links (last_or None l1) (hd_or l2 None) m) (<[t := T1]> ts)).
Proof.
  intros Ha Hc He HT1 Htl Hh.
  set (m1 := unlink _ _ _ _). assert (Hm1 : forall y ey, m !! y = Some ey -> exists n r, m1 !! y = Some (set_prev n (set_next r ey))) by apply unlink_app_at.
  destruct (ap_keyed _ _ _ _ Ha h) as (ey & Hey & Hky); [apply hd_or_in in Hh; set_solver|].
  destruct (Hm1 _ _ Hey) as (n1 & r1 & Hh1). apply runs_bind. eapply runs_elem_get; [exact Hh1|]. cbn [el_tbl set_prev set_next]. destruct Hky as [-> _].
  apply runs_bind. eapply runs_tab_get; [apply lookup_insert_eq|]. destruct (Hm1 _ _ He) as (n2 & r2 & Hx1). apply runs_bind.
  change (el_hashv e) with (el_hashv (set_prev n2 (set_next r2 e))).
  eapply runs_mono; [apply (runs_HASH_DEL_IN_BKT m1 _ t T1 (l1 ++ x :: l2) (l1 ++ l2)); [apply lookup_insert_eq| |by rewrite Permutation_middle|exact Hx1|apply Ha]|].
  { rewrite HT1. apply (chains_ok_frame m _ T); [|done..]. intros y ez _ Hz. destruct (Hm1 _ _ Hz) as (? & ? & ->). by eexists. }
  intros _ [m2 ts2]. cbn [uh_elems uh_tabs]. intros (T2 & -> & Hc2 & Htl2 & Hit2 & Ho). apply runs_bind. eapply runs_tab_upd; [apply lookup_insert_eq|]. apply runs_ret.
  split; [|eapply same_data_trans; [apply same_data_unlink|by apply only_hh_data]]. split; [by rewrite Hh|]. right. eexists t, _. split; [apply lookup_insert_eq|]. cbn [uh_elems].
  split; [|by apply (chains_ok_frame m2 _ T2); [intros y ez _ Hz; exists ez|..]].
  apply (app_ok_hh m1 _ t (set_items (tb_num_items T - 1) T1)); [done|done| |].
  - cbn. rewrite Hit2, HT1. cbn. rewrite (ap_items _ _ _ _ Ha). pose proof (ap_bound _ _ _ _ Ha). rewrite length_app in *. cbn [length] in *. rewrite u32_small; lia.
  - by apply (app_ok_unlink m t T _ l1 x l2).
Qed.

Lemma runs_HASH_DELETE m ts head l1 x l2 : hashtab (UHeap m ts) head (l1 ++ x :: l2) ->
  runs (HASH_DELETE head x) (fun h s => hashtab s h (l1 ++ l2) /\ same_data m (uh_elems s)) (UHeap m ts).
Proof.
  intros [-> [Hl|(t & T & Ht & Ha & Hc)]]; [by destruct l1|]. destruct (seg_lookup _ _ _ _ _ _ _ (ap_seg _ _ _ _ Ha)) as (e & He & Hp & Hn).
  change (prv app_links e) with (el_prev e) in Hp. change (nxt app_links e) with (el_next e) in Hn. cbn [uh_elems uh_tabs] in *.
  assert (Hin : forall y, y ∈ l1 ++ x :: l2 -> exists ey, m !! y = Some ey /\ keyed t ey) by apply Ha.
  unfold HASH_DELETE. apply runs_bind, (runs_elem_get _ _ _ e); [done|].
  assert (Hhd : exists hd eh, hd_or (l1 ++ x :: l2) None = Some hd /\ m !! hd = Some eh /\ el_tbl eh = Some t).
  { destruct (hd_or (l1 ++ x :: l2) None) as [hd|] eqn:Hd; [|by destruct l1]. destruct (Hin hd) as (eh & Heh & Hk & _); [by apply hd_or_in|]. by exists hd, eh. }
  destruct Hhd as (hd & eh & Hhd & Heh & Htb). rewrite Hhd. apply runs_bind, (runs_elem_get _ _ _ eh); [done|]. rewrite Htb. case_decide as Hsole.
  { rewrite Hp, Hn in Hsole. destruct Hsole as [H1 H2]. assert (l2 = []) as -> by by destruct l2.
    assert (l1 = []) as -> by (destruct (last_split l1) as [->|(l & y & ->)]; [done|by rewrite last_or_snoc in H1]).
    unfold tab_free, runs, mbind, st_bind, tab_get, mret, st_ret. cbn. rewrite Ht. cbn. split; [|done]. split; [done|by left]. }
  assert (Hne : l1 ++ l2 <> []). { intros [-> ->]%app_eq_nil. apply Hsole. by rewrite Hp, Hn. }
  apply runs_bind, (runs_tab_get _ _ _ T); [done|]. apply runs_bind. eapply runs_mono; [by eapply runs_del_tail|].
  intros _ [m0 ts0]. cbn [uh_elems uh_tabs]. intros (-> & T1 & -> & HT1 & Htl). apply runs_bind.
  apply (runs_mono _ (fun h s => h = hd_or (l1 ++ l2) None /\ s = UHeap (at_opt (set_next (el_next e)) (el_prev e) m) (<[t := T1]> ts))).
  { destruct (el_prev e) as [p|] eqn:Hep.
    - apply runs_bind, runs_elem_upd; [destruct (Hin p) as (ep & Hep' & _); [symmetry in Hp; apply last_or_in in Hp; set_solver|by eexists]|].
      apply runs_ret. split; [|done]. destruct l1; [done|]. by rewrite <- Hhd.
    - apply runs_ret. split; [|done]. destruct (last_split l1) as [->|(l & y & ->)]; [done|by rewrite last_or_snoc in Hp]. }
  intros h s [-> ->]. apply runs_bind. apply (runs_opt_upd _ _ _ _ set_prev).
  { intros y Hy. rewrite Hn in Hy. destruct (Hin y) as (ey & Hey & _); [apply hd_or_in in Hy; set_solver|].
    destruct (el_prev e) as [p|]; [|by eexists]. destruct (alter_elem (set_next (el_next e)) p y m ey Hey) as (? & ? & _). by eexists. }
  rewrite Hp, Hn. set (m1 := at_opt _ _ _). change m1 with (unlink app_links (last_or None l1) (hd_or l2 None) m) in *. clear m1.
  destruct (hd_or (l1 ++ l2) None) as [h|] eqn:Hh; [|by destruct (l1 ++ l2)]. by apply (runs_del_rest m ts t T T1 l1 x l2 e).
Qed.

Lemma runs_HASH_COUNT s head l : hashtab s head l -> runs (HASH_COUNT head) (fun n s' => n = Z.of_nat (length l) /\ s' = s) s.
Proof.
  intros [-> [->|(t & T & Ht & Ha & _)]]; [done|]. unfold HASH_COUNT. destruct l as [|hd l]; [done|]. cbn [hd_or].
  destruct (ap_keyed _ _ _ _ Ha hd) as (eh & Heh & Hkh & _); [by left|]. apply runs_bind, (runs_elem_get _ _ _ eh); [done|]. rewrite Hkh.
  apply runs_bind, (runs_tab_get _ _ _ T); [done|]. apply runs_ret. split; [apply Ha|done].
Qed.

Lemma runs_elem_free (Q : unit -> uheap -> Prop) m ts x : is_Some (m !! x) -> Q tt (UHeap (delete x m) ts) -> runs (elem_free (Some x)) Q (UHeap m ts).
Proof. intros [e He] HQ. unfold elem_free, runs, mbind, st_bind, elem_get. cbn. by rewrite He. Qed.

(** Only the elements of the table matter. *)
Lemma hashtab_frame m m' ts head l : (forall y, y ∈ l -> m' !! y = m !! y) -> hashtab (UHeap m ts) head l -> hashtab (UHeap m' ts) head l.
Proof.
  intros Hf [Hh [Hl|(t & T & Ht & [] & Hc)]]; split; [done|by left|done|right]. exists t, T. split; [done|]. cbn [uh_elems] in *.
  split; [split; try done|].
  - revert ap_seg0. apply seg_frame. intros y e Hy He. exists e. by rewrite Hf.
  - intros y Hy. destruct (ap_keyed0 y Hy) as (e & He & Hk). exists e. by rewrite Hf.
  - apply (chains_ok_frame m _ T); [|done..]. intros y e Hy He. exists e. by rewrite Hf.
Qed.

Lemma hashtab_nodup s head l : hashtab s head l -> NoDup l.
Proof. intros [_ [->|(t & T & _ & Ha & _)]]; [constructor|apply Ha]. Qed.
