(* ===== verification/Lru.v ===== *)
(** * The LRU caches

    src/modules/http/old_parser/lru.c (one cache in a static variable) and src/lru-cache.c (the
    cache is an argument).  An entry is an element of a uthash table; the strings it owns are
    its fields, so that freeing it frees them.  [strdup] and [malloc] succeed; the tables are
    allocated through [uthash_malloc], which may exit. *)
From S2P Require Import Prelude CLib Word Dll Uthash UthashOk.

#[local] Open Scope Z_scope.

(** The limits of the two caches; the functions below take the limit as an argument. *)
Definition MAX_CACHE_SIZE : Z := 10000000.
Definition LRU_CACHE_MAX_SIZE : Z := 100000.

Section lru.
Context (mem_ok : Z -> bool) (max : Z).

(** A new entry.  Its handle is not initialised; every field of it is written before it is read. *)
Definition new_entry (key value : bytes) : st uheap Z :=
  s ← getS;
  let x := fresh (dom (uh_elems s)) in
  _ ← putS (UHeap (<[x := Elem key value None None None None None 0 0]> (uh_elems s)) (uh_tabs s));
  mret x.

(** The first turn of the loop over the table, which ends in [break]: the head goes. *)
Definition prune (cache : option Z) : st uheap (option Z) :=
  match cache with
  | None => mret None
  | Some entry =>
      _ ← elem_get (Some entry);
      cache ← HASH_DELETE cache entry;
      _ ← elem_free (Some entry);
      mret cache
  end.

(** ** lru.c: the static variable [cache] is an argument and a result *)
Definition lru_find_in_cache (cache : option Z) (key : bytes) : st uheap (option bytes * option Z) :=
  entry ← HASH_FIND cache key (Z.of_nat (length key));
  match entry with
  | Some x =>
      cache ← HASH_DELETE cache x;
      e ← elem_get (Some x);
      cache ← HASH_ADD_KEYPTR mem_ok cache (Z.of_nat (length (el_key e))) x;
      e ← elem_get (Some x);
      mret (Some (el_val e), cache)
  | None => mret (None, cache)
  end.

Definition lru_add_to_cache (cache : option Z) (key value : bytes) : st uheap (option Z) :=
  x ← new_entry key value;
  cache ← HASH_ADD_KEYPTR mem_ok cache (Z.of_nat (length key)) x;
  n ← HASH_COUNT cache;
  if decide (max <= n) then prune cache else mret cache.

(** ** lru-cache.c: what the functions assign to [cache] is lost when they return *)
Definition lru_cache_add (cache : option Z) (key value : bytes) (vlen : Z) : st uheap unit :=
  _ ← (if decide (Z.of_nat (length value) < vlen) then raiseS OutOfBounds else mret tt);
  x ← new_entry key (take (Z.to_nat vlen) value);
  cache ← HASH_ADD_KEYPTR mem_ok cache (Z.of_nat (length key)) x;
  n ← HASH_COUNT cache;
  if decide (max <= n) then (_ ← prune cache; mret tt) else mret tt.

Definition lru_cache_find (cache : option Z) (key : bytes) : st uheap (option bytes) :=
  entry ← HASH_FIND cache key (Z.of_nat (length key));
  match entry with
  | Some x =>
      e ← elem_get (Some x);
      cache ← HASH_DELETE cache x;
      _ ← HASH_ADD_KEYPTR mem_ok cache (Z.of_nat (length key)) x;
      mret (Some (el_val e))
  | None => mret None
  end.

(** ** Calls of lru.c *)
Inductive lru_call :=
  | LFind (key : bytes)
  | LAdd (key value : bytes).

Definition lru_run (c : lru_call) (cache : option Z) : st uheap (option bytes * option Z) :=
  match c with
  | LFind key => lru_find_in_cache cache key
  | LAdd key value => cache ← lru_add_to_cache cache key value; mret (None, cache)
  end.

Fixpoint lru_runs (cs : list lru_call) (cache : option Z) : st uheap (list (option bytes) * option Z) :=
  match cs with
  | [] => mret ([], cache)
  | c :: cs => r ← lru_run c cache; rs ← lru_runs cs r.2; mret (r.1 :: rs.1, rs.2)
  end.
End lru.

(** ** The specification: pairs of key and value, the least recently used first *)
Section spec.
Context (max : Z).

Definition lru_spec (c : lru_call) (L : list (bytes * bytes)) (r : option bytes) (L' : list (bytes * bytes)) : Prop :=
  match c with
  | LFind key =>
      (r = None /\ L' = L /\ key ∉ L.*1) \/
      (exists L1 v L2, L = L1 ++ (key, v) :: L2 /\ r = Some v /\ L' = L1 ++ L2 ++ [(key, v)])
  | LAdd key value =>
      r = None /\ L' = if decide (max <= Z.of_nat (length L) + 1) then tail (L ++ [(key, value)]) else L ++ [(key, value)]
  end.

Fixpoint lru_specs (cs : list lru_call) (L : list (bytes * bytes)) (rs : list (option bytes)) (L' : list (bytes * bytes)) : Prop :=
  match cs, rs with
  | [], [] => L' = L
  | c :: cs, r :: rs => exists L1, lru_spec c L r L1 /\ lru_specs cs L1 rs L'
  | _, _ => False
  end.

Definition call_key (c : lru_call) : bytes := match c with LFind k => k | LAdd k _ => k end.

(** The cache holds [L] and there is nothing else on the heap. *)
Definition lru_rep (s : uheap) (cache : option Z) (L : list (bytes * bytes)) : Prop :=
  exists l, hashtab s cache l /\ (forall x, is_Some (uh_elems s !! x) <-> x ∈ l) /\ Forall2 (fun x p => data <$> uh_elems s !! x = Some p) l L /\
    Z.of_nat (length L) < max.
End spec.

Lemma Forall2_data m m' l L : same_data m m' -> Forall2 (fun x p => data <$> m !! x = Some p) l L -> Forall2 (fun x p => data <$> m' !! x = Some p) l L.
Proof. intros Hs HF. eapply Forall2_impl; [exact HF|]. intros x p Hp. by rewrite Hs. Qed.

Lemma same_data_dom m m' x : same_data m m' -> is_Some (m' !! x) <-> is_Some (m !! x).
Proof. intros Hs. by rewrite <- (fmap_is_Some data), Hs, fmap_is_Some. Qed.

Lemma data_keys (m : gmap Z elem) l L key : Forall2 (fun x p => data <$> m !! x = Some p) l L -> (forall x, x ∈ l -> el_key <$> m !! x <> Some key) -> key ∉ L.*1.
Proof.
  intros Hf Hk ([key' v] & Heq & Hin)%list_elem_of_fmap. cbn in Heq. subst key'. apply list_elem_of_lookup in Hin as [i Hi].
  destruct (Forall2_lookup_r _ _ _ _ _ Hf Hi) as (y & Hy & Hd). apply (Hk y); [by eapply list_elem_of_lookup_2|].
  destruct (m !! y) as [e|]; [|done]. cbn in *. unfold data in Hd. congruence.
Qed.

Section ok.
Context (mem_ok : Z -> bool) (max : Z) (Hmem : mem_ok (2 ^ 35) = false) (Hmax32 : max < 2 ^ 32).

Lemma runs_lru_find s cache L key : lru_rep max s cache L -> Z.of_nat (length key) < 2 ^ 32 ->
  runs (lru_find_in_cache mem_ok cache key) (fun r s' => exists L', lru_spec max (LFind key) L r.1 L' /\ lru_rep max s' r.2 L') s.
Proof using Hmem Hmax32.
  intros (l & Ht & Hd & HL & Hmax) Hk. unfold lru_find_in_cache. apply runs_bind. eapply runs_mono; [by apply (runs_HASH_FIND s cache l)|].
  intros [x|] s' [-> Hf]; [|apply runs_ret; exists L; split; [left|by exists l]; split; [done|split; [done|by eapply data_keys]]].
  destruct Hf as [Hx Hkx]. pose proof (hashtab_nodup _ _ _ Ht) as Hn. apply list_elem_of_split in Hx as (l1 & l2 & ->).
  apply Forall2_app_inv_l in HL as (L1 & L2' & HL1 & HL2 & ->). apply Forall2_cons_inv_l in HL2 as ([key' v] & L2 & Hp & HL2 & ->).
  destruct s as [m ts]. cbn [uh_elems] in *. destruct (m !! x) as [e|] eqn:He; [|done]. cbn in Hkx, Hp. unfold data in Hp. injection Hp as <- <-. injection Hkx as <-.
  apply runs_bind. eapply runs_mono; [by apply (runs_HASH_DELETE m ts cache l1 x l2)|]. intros c1 [m1 ts1] [Ht1 Hs1]. cbn [uh_elems] in *.
  pose proof (Hs1 x) as Hx1. rewrite He in Hx1. destruct (m1 !! x) as [e1|] eqn:He1; [|done]. cbn in Hx1. injection Hx1 as Hke Hve.
  apply runs_bind, (runs_elem_get _ _ _ e1); [done|]. apply runs_bind. rewrite <- Hke in Hk. rewrite <- Permutation_middle in Hn. apply NoDup_cons in Hn as [Hxn _].
  rewrite length_app in Hmax. cbn [length] in Hmax.
  eapply runs_mono; [eapply (runs_HASH_ADD_KEYPTR mem_ok Hmem m1 ts1 c1 (l1 ++ l2) x e1)|]; [done|done|done|done| |].
  { rewrite length_app, (Forall2_length _ _ _ HL1), (Forall2_length _ _ _ HL2). lia. }
  intros c2 [m2 ts2] [Ht2 Hs2]. cbn [uh_elems] in *. pose proof (same_data_trans _ _ _ Hs1 Hs2) as Hs. pose proof (Hs x) as Hx2. rewrite He in Hx2.
  destruct (m2 !! x) as [e2|] eqn:He2; [|done]. cbn in Hx2. injection Hx2 as Hke2 Hve2. apply runs_bind, (runs_elem_get _ _ _ e2); [done|]. apply runs_ret.
  exists (L1 ++ L2 ++ [(el_key e, el_val e)]). split; [right; exists L1, (el_val e), L2; by rewrite Hve2|].
  exists ((l1 ++ l2) ++ [x]). split; [done|]. cbn [uh_elems]. split; [|split].
  - intros y. rewrite (same_data_dom m m2) by done. rewrite Hd. set_solver.
  - rewrite app_assoc. apply (Forall2_data m); [done|]. repeat apply Forall2_app; [done|done|]. constructor; [by rewrite He|constructor].
  - rewrite !length_app. cbn [length]. lia.
Qed.

Lemma runs_new_entry (Q : Z -> uheap -> Prop) m ts key value :
  (forall x, m !! x = None -> Q x (UHeap (<[x := Elem key value None None None None None 0 0]> m) ts)) -> runs (new_entry key value) Q (UHeap m ts).
Proof using. intros HQ. unfold new_entry. apply runs_bind, runs_gets. apply (HQ (fresh (dom m))). apply not_elem_of_dom, is_fresh. Qed.

(** Adding a new entry, before pruning. *)
Lemma runs_lru_enter m ts cache l key value : hashtab (UHeap m ts) cache l -> (forall x, x ∈ l -> is_Some (m !! x)) ->
  Z.of_nat (length key) < 2 ^ 32 -> Z.of_nat (length l) + 1 < 2 ^ 32 ->
  runs (x ← new_entry key value; HASH_ADD_KEYPTR mem_ok cache (Z.of_nat (length key)) x)
    (fun c s => exists x, hashtab s c (l ++ [x]) /\ m !! x = None /\ same_data (<[x := Elem key value None None None None None 0 0]> m) (uh_elems s)) (UHeap m ts).
Proof using Hmem Hmax32.
  intros Ht Hd Hk Hlen. apply runs_bind, runs_new_entry. intros x Hx. set (e := Elem key value _ _ _ _ _ _ _).
  assert (Hxl : x ∉ l) by (intros Hin%Hd; rewrite Hx in Hin; by destruct Hin).
  eapply runs_mono; [apply (runs_HASH_ADD_KEYPTR mem_ok Hmem (<[x := e]> m) ts cache l x e); try done|].
  - apply (hashtab_frame m); [|done]. intros y Hy. rewrite lookup_insert_ne; [done|]. by intros ->.
  - apply lookup_insert_eq.
  - intros c s [Ht' Hs]. by exists x.
Qed.

(** Pruning removes the oldest entry and frees it. *)
Lemma runs_prune m ts x l : hashtab (UHeap m ts) (Some x) (x :: l) -> 
  runs (prune (Some x)) (fun c s => hashtab s c l /\ exists m', same_data m m' /\ uh_elems s = delete x m') (UHeap m ts).
Proof using.
  intros Ht. pose proof (hashtab_nodup _ _ _ Ht) as Hn. apply NoDup_cons in Hn as [Hx _].
  assert (He : is_Some (m !! x)). { destruct Ht as [_ [?|(t & T & _ & Ha & _)]]; [done|]. by eapply (seg_elem app_links _ _ _ _ x), elem_of_cons, or_introl; [apply Ha|]. }
  destruct He as [e He]. unfold prune. apply runs_bind, (runs_elem_get _ _ _ e); [done|].
  apply runs_bind. eapply runs_mono; [by apply (runs_HASH_DELETE m ts (Some x) [] x l)|]. intros c [m1 ts1] [Ht1 Hs]. cbn [uh_elems] in *.
  apply runs_bind, runs_elem_free; [apply (same_data_dom m); [done|by eexists]|]. apply runs_ret. split; [|by exists m1].
  apply (hashtab_frame m1); [|done]. intros y Hy. rewrite lookup_delete_ne; [done|]. by intros ->.
Qed.

Lemma runs_lru_add s cache L key value : lru_rep max s cache L -> Z.of_nat (length key) < 2 ^ 32 ->
  runs (lru_add_to_cache mem_ok max cache key value) (fun c s' => exists L', lru_spec max (LAdd key value) L None L' /\ lru_rep max s' c L') s.
Proof using Hmem Hmax32.
  intros (l & Ht & Hd & HL & Hmax) Hk. destruct s as [m ts]. cbn [uh_elems] in *. pose proof (Forall2_length _ _ _ HL) as Hlen.
  unfold lru_add_to_cache. apply (runs_bind_assoc _ (fun x => HASH_ADD_KEYPTR mem_ok cache (Z.of_nat (length key)) x)), runs_bind. eapply runs_mono; [apply (runs_lru_enter m ts cache l); [done|by intros y ?%Hd|done|lia]|].
  intros c [m1 ts1] (x & Ht1 & Hx & Hs). cbn [uh_elems] in *. set (e := Elem key value _ _ _ _ _ _ _) in *.
  assert (Hxl : x ∉ l) by (intros Hin%Hd; rewrite Hx in Hin; by destruct Hin).
  assert (Hd1 : forall y, is_Some (m1 !! y) <-> y ∈ l ++ [x]).
  { intros y. rewrite (same_data_dom _ _ _ Hs). destruct (decide (x = y)) as [<-|Hne]; [rewrite lookup_insert_eq; set_solver|].
    rewrite lookup_insert_ne by done. rewrite Hd. set_solver. }
  assert (HL1 : Forall2 (fun x p => data <$> m1 !! x = Some p) (l ++ [x]) (L ++ [(key, value)])).
  { apply (Forall2_data _ _ _ _ Hs), Forall2_app; [|by constructor; [rewrite lookup_insert_eq|]].
    apply Forall2_same_length_lookup. split; [done|]. intros i y p Hy Hp. rewrite lookup_insert_ne; [by apply (Forall2_lookup_lr _ _ _ _ _ _ HL Hy Hp)|].
    intros ->. apply Hxl. by eapply list_elem_of_lookup_2. }
  apply runs_bind. eapply runs_mono; [by apply (runs_HASH_COUNT _ c (l ++ [x]))|]. intros n s' [-> ->].
  rewrite length_app, Hlen. cbn [length lru_spec]. rewrite Nat2Z.inj_add. change (Z.of_nat 1) with 1. case_decide as Hn.
  - destruct (l ++ [x]) as [|hd l1] eqn:El; [by destruct l|]. assert (Hc : c = Some hd) by apply Ht1. subst c.
    destruct (L ++ [(key, value)]) as [|p L1] eqn:EL; [by inversion HL1|]. apply Forall2_cons_1 in HL1 as [_ HL1].
    eapply runs_mono; [by apply (runs_prune m1 ts1 hd l1)|]. intros c [m2 ts2] (Ht2 & m1' & Hs1 & Hm2). cbn [uh_elems] in *. subst m2.
    pose proof (hashtab_nodup _ _ _ Ht1) as [Hhd _]%NoDup_cons.
    exists L1. split; [done|]. exists l1. split; [done|]. cbn [uh_elems]. split; [|split].
    + intros y. destruct (decide (hd = y)) as [<-|Hne]; [rewrite lookup_delete_eq; split; [by intros [? ?]|done]|].
      rewrite lookup_delete_ne by done. rewrite (same_data_dom _ _ _ Hs1), Hd1. set_solver.
    + apply (Forall2_data _ _ _ _ Hs1) in HL1. apply Forall2_same_length_lookup. split; [by eapply Forall2_length|]. intros i y q Hy Hq.
      rewrite lookup_delete_ne; [by apply (Forall2_lookup_lr _ _ _ _ _ _ HL1 Hy Hq)|]. intros ->. apply Hhd. by eapply list_elem_of_lookup_2.
    + apply (f_equal length) in EL. rewrite length_app in EL. cbn [length] in EL. lia.
  - apply runs_ret. exists (L ++ [(key, value)]). split; [done|]. exists (l ++ [x]). split; [done|]. split; [done|]. split; [done|].
    rewrite length_app. cbn [length]. lia.
Qed.

Lemma runs_lru_runs cs s cache L : lru_rep max s cache L -> Forall (fun c => Z.of_nat (length (call_key c)) < 2 ^ 32) cs ->
  runs (lru_runs mem_ok max cs cache) (fun r s' => exists L', lru_specs max cs L r.1 L' /\ lru_rep max s' r.2 L') s.
Proof using Hmem Hmax32.
  revert s cache L. induction cs as [|c cs IH]; intros s cache L HL Hk; cbn [lru_runs]; [apply runs_ret; by exists L|].
  apply Forall_cons in Hk as [Hc Hk]. apply runs_bind. apply (runs_mono _ (fun r s' => exists L', lru_spec max c L r.1 L' /\ lru_rep max s' r.2 L')).
  - destruct c as [key|key value]; cbn [lru_run]; [by apply runs_lru_find|]. apply runs_bind. eapply runs_mono; [by apply runs_lru_add|].
    intros c s' (L' & ? & ?). apply runs_ret. by exists L'.
  - intros [r c1] s1 (L1 & Hr & HL1). apply runs_bind. eapply runs_mono; [by apply (IH s1 c1 L1)|]. intros [rs c2] s2 (L2 & Hrs & HL2). apply runs_ret.
    exists L2. split; [by exists L1|done].
Qed.

(** Adding through a copy of the pointer, up to the limit. *)
Lemma runs_lru_cache_add m ts x l key value vlen : hashtab (UHeap m ts) (Some x) (x :: l) -> (forall y, y ∈ x :: l -> is_Some (m !! y)) ->
  max = Z.of_nat (length (x :: l)) + 1 -> Z.of_nat (length key) < 2 ^ 32 -> 0 <= vlen <= Z.of_nat (length value) ->
  runs (lru_cache_add mem_ok max (Some x) key value vlen) (fun _ s => uh_elems s !! x = None) (UHeap m ts).
Proof using Hmem Hmax32.
  intros Ht Hd Hmax Hk Hv. unfold lru_cache_add. rewrite decide_False by lia. apply runs_bind, runs_ret.
  apply (runs_bind_assoc _ (fun y => HASH_ADD_KEYPTR mem_ok (Some x) (Z.of_nat (length key)) y)), runs_bind.
  eapply runs_mono; [apply (runs_lru_enter m ts (Some x) (x :: l)); [done..|lia]|]. intros c [m1 ts1] (y & Ht1 & Hy & Hs).
  apply runs_bind. eapply runs_mono; [by apply (runs_HASH_COUNT _ c ((x :: l) ++ [y]))|]. intros n s' [-> ->]. rewrite length_app, decide_True by (cbn [length] in *; lia).
  assert (Hc : c = Some x) by apply Ht1. subst c. apply runs_bind. eapply runs_mono; [by apply (runs_prune m1 ts1 x (l ++ [y]))|].
  intros c s (_ & m' & _ & Hm). apply runs_ret. by rewrite Hm, lookup_delete_eq.
Qed.

(** Adding through a pointer that is NULL. *)
Lemma runs_lru_cache_lost s key value vlen : 1 < max -> Z.of_nat (length key) < 2 ^ 32 -> 0 <= vlen <= Z.of_nat (length value) ->
  runs (lru_cache_add mem_ok max None key value vlen) (fun _ _ => True) s.
Proof using Hmem Hmax32.
  intros Hmax Hk Hv. destruct s as [m ts]. unfold lru_cache_add. rewrite decide_False by lia. apply runs_bind, runs_ret.
  apply (runs_bind_assoc _ (fun y => HASH_ADD_KEYPTR mem_ok None (Z.of_nat (length key)) y)), runs_bind.
  eapply runs_mono; [apply (runs_lru_enter m ts None []); [split; [done|by left]|by intros y ?%not_elem_of_nil|done|cbn; lia]|].
  intros c s (y & Ht & _). apply runs_bind. eapply runs_mono; [by apply (runs_HASH_COUNT _ c [y])|]. intros n s' [-> ->].
  rewrite decide_False by (cbn; lia). by apply runs_ret.
Qed.
End ok.

Lemma lru_empty max : 0 < max -> lru_rep max (UHeap ∅ ∅) None [].
Proof.
  intros Hm. exists []. split; [split; [done|by left]|]. split; [|by split; [constructor|]].
  intros x. cbn. rewrite lookup_empty. split; [by intros [? ?]|by intros ?%not_elem_of_nil].
Qed.

(** C9: Any calls of [lru_find_in_cache] and [lru_add_to_cache], starting from the empty cache, act on
    a list of pairs ordered by last use: a hit returns the value of a pair with the key and
    makes it the most recent, a miss changes nothing, an addition makes a new pair (even when there
    is one with this key) and, at the limit, frees the least recently used.  At the end the
    heap holds the entries of that list and nothing else: the table neither leaks nor uses a
    freed entry.  The only other outcome is the [exit] of [uthash_malloc]. *)
Theorem lru_refines_recency mem_ok max cs : mem_ok (2 ^ 35) = false -> 0 < max < 2 ^ 32 ->
  Forall (fun c => Z.of_nat (length (call_key c)) < 2 ^ 32) cs ->
  match lru_runs mem_ok max cs None (UHeap ∅ ∅) with
  | Ok (r, s) => exists L, lru_specs max cs [] r.1 L /\ lru_rep max s r.2 L
  | Fault f => f = ExitCalled
  end.
Proof. intros Hmem Hmax Hk. apply runs_lru_runs; [done|lia|apply lru_empty; lia|done]. Qed.

Definition sample_calls : list lru_call :=
  [LAdd [97] [1]; LAdd [98] [2]; LFind [97]; LAdd [99] [3]; LFind [98]; LFind [97]; LFind [99]].
Definition sample_mem (n : Z) : bool := bool_decide (n < 2 ^ 35).

(** With a limit of three: adding the third key frees the second. *)
Definition sample_results : option (list (option bytes)) :=
  match lru_runs sample_mem 3 sample_calls None (UHeap ∅ ∅) with Ok (r, _) => Some r.1 | Fault _ => None end.

Lemma lru_refines_recency_witness :
  sample_results = Some [None; None; Some [1]; None; None; Some [1]; Some [3]] /\
  match lru_runs sample_mem 3 sample_calls None (UHeap ∅ ∅) with
  | Ok (r, s) => exists L, lru_specs 3 sample_calls [] r.1 L /\ lru_rep 3 s r.2 L
  | Fault f => f = ExitCalled
  end.
Proof.
  split; [vm_compute; reflexivity|]. apply (lru_refines_recency sample_mem 3 sample_calls); [by apply bool_decide_eq_false_2|lia|].
  repeat constructor.
Defined.

(** [lru_cache_add] and [lru_cache_find] of lru-cache.c take the cache by value: the first entry
    added is lost (a search with the caller's pointer, which is still NULL, finds nothing), and the
    addition that reaches the limit frees the entry the caller's pointer points at, so that every
    later search reads freed memory. *)
Theorem lru_cache_by_value mem_ok max : mem_ok (2 ^ 35) = false -> 1 < max < 2 ^ 32 ->
  (forall s key value vlen key', Z.of_nat (length key) < 2 ^ 32 -> 0 <= vlen <= Z.of_nat (length value) ->
     runs (lru_cache_add mem_ok max None key value vlen) (fun _ s' => lru_cache_find mem_ok None key' s' = Ok (None, s')) s) /\
  (forall s x l key value vlen key', hashtab s (Some x) (x :: l) -> (forall y, y ∈ x :: l -> is_Some (uh_elems s !! y)) ->
     max = Z.of_nat (length (x :: l)) + 1 -> Z.of_nat (length key) < 2 ^ 32 -> 0 <= vlen <= Z.of_nat (length value) ->
     runs (lru_cache_add mem_ok max (Some x) key value vlen) (fun _ s' => lru_cache_find mem_ok (Some x) key' s' = Fault UseAfterFree) s).
Proof.
  intros Hmem Hmax. split.
  - intros s key value vlen key' Hk Hv. eapply runs_mono; [apply (runs_lru_cache_lost mem_ok max Hmem); [lia|lia|done|done]|]. done.
  - intros [m ts] x l key value vlen key' Ht Hd Hl Hk Hv. eapply runs_mono; [by apply (runs_lru_cache_add mem_ok max Hmem ltac:(lia) m ts x l)|].
    intros a s Hs. unfold lru_cache_find, HASH_FIND, elem_get, mbind, st_bind. by rewrite Hs.
Qed.

(** A caller that holds the head of a table with one entry, and a limit of two. *)
Definition sample_by_value : st uheap (option bytes) :=
  x ← new_entry [97] [1]; cache ← HASH_ADD_KEYPTR sample_mem None 1 x;
  _ ← lru_cache_add sample_mem 2 cache [98] [2] 1; lru_cache_find sample_mem cache [98].

Lemma lru_cache_by_value_witness :
  sample_by_value (UHeap ∅ ∅) = Fault UseAfterFree /\
  (forall s key value vlen key', Z.of_nat (length key) < 2 ^ 32 -> 0 <= vlen <= Z.of_nat (length value) ->
     runs (lru_cache_add sample_mem 2 None key value vlen) (fun _ s' => lru_cache_find sample_mem None key' s' = Ok (None, s')) s).
Proof. split; [vm_compute; reflexivity|]. exact (proj1 (lru_cache_by_value sample_mem 2 eq_refl ltac:(lia))). Defined.
