(* ===== verification/Lookupa.v ===== *)
(** * The hash functions of the perfect hash generator

    src/lib/perfect/lookupa.c: [lookup], a 32-bit hash, and [checksum], a 256-bit one.  Both mix
    their state reversibly, as the comments claim: the inverses are given here.  A key is a
    buffer of bytes with a length; a length beyond the buffer is a fault. *)
From S2P Require Import Prelude CLib Word Bytes.

#[local] Open Scope Z_scope.

Definition UB4BITS : Z := 32.
Definition CHECKSTATE : nat := 8.
(** The golden ratio; an arbitrary value. *)
Definition GOLDEN : Z := 0x9e3779b9.

(** ** lookup *)
Definition mix (s : Z * Z * Z) : Z * Z * Z :=
  let '(a, b, c) := s in
  let a := sub32 a b in let a := sub32 a c in let a := Z.lxor a (Z.shiftr c 13) in
  let b := sub32 b c in let b := sub32 b a in let b := Z.lxor b (shl32 a 8) in
  let c := sub32 c a in let c := sub32 c b in let c := Z.lxor c (Z.shiftr b 13) in
  let a := sub32 a b in let a := sub32 a c in let a := Z.lxor a (Z.shiftr c 12) in
  let b := sub32 b c in let b := sub32 b a in let b := Z.lxor b (shl32 a 16) in
  let c := sub32 c a in let c := sub32 c b in let c := Z.lxor c (Z.shiftr b 5) in
  let a := sub32 a b in let a := sub32 a c in let a := Z.lxor a (Z.shiftr c 3) in
  let b := sub32 b c in let b := sub32 b a in let b := Z.lxor b (shl32 a 10) in
  let c := sub32 c a in let c := sub32 c b in let c := Z.lxor c (Z.shiftr b 15) in
  (a, b, c).

(** [(ub4)k[i] << s] *)
Definition kb (k : bytes) (i : nat) (s : Z) : Z := shl32 (nth i k 0) s.
(** [k[i] + (k[i+1]<<8) + (k[i+2]<<16) + (k[i+3]<<24)] *)
Definition kword (k : bytes) (i : nat) : Z := u32 (kb k i 0 + kb k (i + 1) 8 + kb k (i + 2) 16 + kb k (i + 3) 24).
(** The bytes of a word of which only those below [len] are there, as the switch adds them. *)
Definition kpart (k : bytes) (len : Z) (i : nat) (sh : list Z) : Z :=
  u32 (foldr Z.add 0 (imap (fun j s => if decide (Z.of_nat (i + j) < len) then kb k (i + j) s else 0) sh)).

Fixpoint lookup_loop (fuel : nat) (k : bytes) (len : Z) (s : Z * Z * Z) : result (bytes * Z * (Z * Z * Z)) :=
  match fuel with
  | O => Fault NoFuel
  | S fuel =>
      if decide (12 <= len) then
        let '(a, b, c) := s in
        lookup_loop fuel (drop 12 k) (len - 12) (mix (add32 a (kword k 0), add32 b (kword k 4), add32 c (kword k 8)))
      else Ok (k, len, s)
  end.

Definition lookup (k : bytes) (length level : Z) : result Z :=
  if decide (Z.of_nat (List.length k) < length) then Fault OutOfBounds
  else
    r ← lookup_loop (S (List.length k)) k length (GOLDEN, GOLDEN, level);
    let '(k, len, (a, b, c)) := r in
    let c := add32 c length in
    let '(_, _, c) := mix (add32 a (kpart k len 0 [0; 8; 16; 24]), add32 b (kpart k len 4 [0; 8; 16; 24]), add32 c (kpart k len 8 [8; 16; 24])) in
    Ok c.

(** ** checksum *)
Record cstate := CS { cs_a : Z; cs_b : Z; cs_c : Z; cs_d : Z; cs_e : Z; cs_f : Z; cs_g : Z; cs_h : Z }.

Definition mixc (s : cstate) : cstate :=
  let '(CS a b c d e f g h) := s in
  let a := Z.lxor a (shl32 b 11) in let d := add32 d a in let b := add32 b c in
  let b := Z.lxor b (Z.shiftr c 2) in let e := add32 e b in let c := add32 c d in
  let c := Z.lxor c (shl32 d 8) in let f := add32 f c in let d := add32 d e in
  let d := Z.lxor d (Z.shiftr e 16) in let g := add32 g d in let e := add32 e f in
  let e := Z.lxor e (shl32 f 10) in let h := add32 h e in let f := add32 f g in
  let f := Z.lxor f (Z.shiftr g 4) in let a := add32 a f in let g := add32 g h in
  let g := Z.lxor g (shl32 h 8) in let b := add32 b g in let h := add32 h a in
  let h := Z.lxor h (Z.shiftr a 9) in let c := add32 c h in let a := add32 a b in
  CS a b c d e f g h.

Definition cs_add (s : cstate) (w : nat -> Z) : cstate :=
  CS (add32 (cs_a s) (w 0%nat)) (add32 (cs_b s) (w 4%nat)) (add32 (cs_c s) (w 8%nat)) (add32 (cs_d s) (w 12%nat))
     (add32 (cs_e s) (w 16%nat)) (add32 (cs_f s) (w 20%nat)) (add32 (cs_g s) (w 24%nat)) (add32 (cs_h s) (w 28%nat)).

Fixpoint checksum_loop (fuel : nat) (k : bytes) (len : Z) (s : cstate) : result (bytes * Z * cstate) :=
  match fuel with
  | O => Fault NoFuel
  | S fuel =>
      if decide (32 <= len) then checksum_loop fuel (drop 32 k) (len - 32) (Nat.iter 4 mixc (cs_add s (kword k)))
      else Ok (k, len, s)
  end.

(** The last bytes: [h] is given the length first, so its first byte is for the length. *)
Definition cs_rest (k : bytes) (len length : Z) (s : cstate) : cstate :=
  let s := CS (cs_a s) (cs_b s) (cs_c s) (cs_d s) (cs_e s) (cs_f s) (cs_g s) (add32 (cs_h s) length) in
  cs_add s (fun i => if decide (i = 28%nat) then kpart k len i [8; 16; 24] else kpart k len i [0; 8; 16; 24]).

Definition checksum (k : bytes) (len : Z) (state : cstate) : result cstate :=
  if decide (Z.of_nat (List.length k) < len) then Fault OutOfBounds
  else
    r ← checksum_loop (S (List.length k)) k len state;
    let '(k, rest, s) := r in
    Ok (Nat.iter 4 mixc (cs_rest k rest len s)).

(** ** The inverses *)
Definition unmix (s : Z * Z * Z) : Z * Z * Z :=
  let '(a, b, c) := s in
  let c := Z.lxor c (Z.shiftr b 15) in let c := add32 c b in let c := add32 c a in
  let b := Z.lxor b (shl32 a 10) in let b := add32 b a in let b := add32 b c in
  let a := Z.lxor a (Z.shiftr c 3) in let a := add32 a c in let a := add32 a b in
  let c := Z.lxor c (Z.shiftr b 5) in let c := add32 c b in let c := add32 c a in
  let b := Z.lxor b (shl32 a 16) in let b := add32 b a in let b := add32 b c in
  let a := Z.lxor a (Z.shiftr c 12) in let a := add32 a c in let a := add32 a b in
  let c := Z.lxor c (Z.shiftr b 13) in let c := add32 c b in let c := add32 c a in
  let b := Z.lxor b (shl32 a 8) in let b := add32 b a in let b := add32 b c in
  let a := Z.lxor a (Z.shiftr c 13) in let a := add32 a c in let a := add32 a b in
  (a, b, c).

Definition unmixc (s : cstate) : cstate :=
  let '(CS a b c d e f g h) := s in
  let a := sub32 a b in let c := sub32 c h in let h := Z.lxor h (Z.shiftr a 9) in
  let h := sub32 h a in let b := sub32 b g in let g := Z.lxor g (shl32 h 8) in
  let g := sub32 g h in let a := sub32 a f in let f := Z.lxor f (Z.shiftr g 4) in
  let f := sub32 f g in let h := sub32 h e in let e := Z.lxor e (shl32 f 10) in
  let e := sub32 e f in let g := sub32 g d in let d := Z.lxor d (Z.shiftr e 16) in
  let d := sub32 d e in let f := sub32 f c in let c := Z.lxor c (shl32 d 8) in
  let c := sub32 c d in let e := sub32 e b in let b := Z.lxor b (Z.shiftr c 2) in
  let b := sub32 b c in let d := sub32 d a in let a := Z.lxor a (shl32 b 11) in
  CS a b c d e f g h.

Definition word_state (s : cstate) : Prop :=
  word32 (cs_a s) /\ word32 (cs_b s) /\ word32 (cs_c s) /\ word32 (cs_d s) /\ word32 (cs_e s) /\ word32 (cs_f s) /\ word32 (cs_g s) /\ word32 (cs_h s).

Lemma lxor_lxor x w : Z.lxor (Z.lxor x w) w = x.
Proof. by rewrite Z.lxor_assoc, Z.lxor_nilpotent, Z.lxor_0_r. Qed.

Lemma add_sub32 x y : word32 x -> add32 (sub32 x y) y = x.
Proof. intros Hx. unfold add32, sub32, u32. rewrite Z.add_mod_idemp_l by lia. rewrite Z.sub_add. by apply Z.mod_small. Qed.

Lemma sub_add32 x y : word32 x -> sub32 (add32 x y) y = x.
Proof. intros Hx. unfold add32, sub32, u32. rewrite Zminus_mod_idemp_l. rewrite Z.add_simpl_r. by apply Z.mod_small. Qed.

Lemma sub_word x y : word32 (sub32 x y).
Proof. apply u32_word. Qed.

Lemma add_word x y : word32 (add32 x y).
Proof. apply u32_word. Qed.

Lemma shl_word x k : word32 (shl32 x k).
Proof. apply u32_word. Qed.

Ltac words := repeat first [assumption | apply sub_word | apply add_word | apply shl_word | apply u32_word | apply lxor_word | apply shiftr_word; [|lia]].

(** A straight-line program is undone step by step: [name_let] names the value of the first
    assignment of the program, [undo_let] computes that of its inverse. *)
Ltac name_let F :=
  lazymatch goal with |- F (let x := ?e in @?f x) = ?r =>
    let y := fresh x in let H := fresh "E" y in
    remember e as y eqn:H; assert (word32 y) by (rewrite H; words); change (F (f y) = r); cbv beta end.
Ltac undo_let :=
  lazymatch goal with |- (let x := ?op ?y ?z in @?f x) = ?r =>
    match goal with H : y = _ |- _ => rewrite H end end;
  lazymatch goal with |- (let x := ?e in @?f x) = ?r =>
    first [rewrite lxor_lxor | rewrite sub_add32 by words | rewrite add_sub32 by words] end;
  lazymatch goal with |- (let x := ?e in @?f x) = ?r => change (f e = r); cbv beta end.

Lemma mix_unmix a b c : word32 a -> word32 b -> word32 c -> unmix (mix (a, b, c)) = (a, b, c).
Proof. intros Ha Hb Hc. cbv beta iota delta [mix]. do 27 name_let unmix. cbv beta iota delta [unmix]. do 27 undo_let. reflexivity. Qed.

Lemma unmix_mix a b c : word32 a -> word32 b -> word32 c -> mix (unmix (a, b, c)) = (a, b, c).
Proof. intros Ha Hb Hc. cbv beta iota delta [unmix]. do 27 name_let mix. cbv beta iota delta [mix]. do 27 undo_let. reflexivity. Qed.

Lemma mixc_unmixc s : word_state s -> unmixc (mixc s) = s.
Proof.
  destruct s as [a b c d e f g h]. intros (Ha & Hb & Hc & Hd & He & Hf & Hg & Hh). cbn [cs_a cs_b cs_c cs_d cs_e cs_f cs_g cs_h] in *.
  cbv beta iota delta [mixc]. do 24 name_let unmixc. cbv beta iota delta [unmixc]. do 24 undo_let. reflexivity.
Qed.

Lemma unmixc_mixc s : word_state s -> mixc (unmixc s) = s.
Proof.
  destruct s as [a b c d e f g h]. intros (Ha & Hb & Hc & Hd & He & Hf & Hg & Hh). cbn [cs_a cs_b cs_c cs_d cs_e cs_f cs_g cs_h] in *.
  cbv beta iota delta [unmixc]. do 24 name_let mixc. cbv beta iota delta [mixc]. do 24 undo_let. reflexivity.
Qed.

(** What is mixed are words again. *)
Ltac enter_let := lazymatch goal with |- ?P (let x := ?e in @?f x) =>
  let y := fresh x in let H := fresh "E" y in remember e as y eqn:H; assert (word32 y) by (rewrite H; words); clear H; change (P (f y)); cbv beta end.

Lemma mixc_word s : word_state s -> word_state (mixc s).
Proof.
  destruct s as [a b c d e f g h]. intros (Ha & Hb & Hc & Hd & He & Hf & Hg & Hh). cbn [cs_a cs_b cs_c cs_d cs_e cs_f cs_g cs_h] in *.
  cbv beta iota delta [mixc]. do 24 enter_let. done.
Qed.

Lemma mixc_inj s s' : word_state s -> word_state s' -> mixc s = mixc s' -> s = s'.
Proof. intros Hs Hs' Heq. by rewrite <- (mixc_unmixc s), <- (mixc_unmixc s'), Heq. Qed.

(** ** Every key has a hash *)
Lemma lookup_loop_ok fuel k len s : 0 <= len <= Z.of_nat (List.length k) -> (List.length k < fuel)%nat ->
  exists r, lookup_loop fuel k len s = Ok r.
Proof.
  revert k len s. induction fuel as [|fuel IH]; intros k len s Hlen Hf; [lia|]. cbn [lookup_loop]. case_decide; [|by eauto].
  destruct s as [[a b] c]. apply IH; rewrite length_drop; lia.
Qed.

Lemma mix_word s : word32 (mix s).2.
Proof. destruct s as [[a b] c]. unfold mix. cbn [snd]. apply lxor_word; [words|]. apply shiftr_word; [|lia]. words. Qed.

Lemma lookup_total k len level : 0 <= len <= Z.of_nat (List.length k) -> exists h, lookup k len level = Ok h /\ word32 h.
Proof.
  intros Hlen. unfold lookup. rewrite decide_False by lia. destruct (lookup_loop_ok (S (List.length k)) k len (GOLDEN, GOLDEN, level)) as [[[k' l] [[a b] c]] ->]; [lia..|].
  cbn [mbind result_bind]. match goal with |- context [mix ?s] => pose proof (mix_word s) as Hw; destruct (mix s) as [[x y] z] end. by exists z.
Qed.

Lemma checksum_loop_ok fuel k len s : 0 <= len <= Z.of_nat (List.length k) -> (List.length k < fuel)%nat -> word_state s ->
  exists k' len' s', checksum_loop fuel k len s = Ok (k', len', s') /\ word_state s'.
Proof.
  revert k len s. induction fuel as [|fuel IH]; intros k len s Hlen Hf Hs; [lia|]. cbn [checksum_loop]. case_decide; [|by eauto].
  apply IH; [rewrite length_drop; lia..|]. repeat apply mixc_word. repeat split; apply u32_word.
Qed.

Lemma checksum_total k len s : 0 <= len <= Z.of_nat (List.length k) -> word_state s -> exists s', checksum k len s = Ok s' /\ word_state s'.
Proof.
  intros Hlen Hs. unfold checksum. rewrite decide_False by lia. destruct (checksum_loop_ok (S (List.length k)) k len s) as (k' & l & s' & -> & Hs'); [lia..|done|].
  eexists. split; [done|]. repeat apply mixc_word. repeat split; apply u32_word.
Qed.

(** ** Packing bytes into words *)
Definition eff (k : bytes) (len : Z) (i : nat) : Z := if decide (Z.of_nat i < len) then nth i k 0 else 0.

Lemma nth_byte k i : Forall is_byte k -> is_byte (nth i k 0).
Proof. intros Hk. destruct (nth_in_or_default i k 0) as [Hin| ->]; [|by unfold is_byte]. by apply (proj1 (List.Forall_forall _ _) Hk). Qed.

Lemma eff_byte k len i : Forall is_byte k -> is_byte (eff k len i).
Proof. intros Hk. unfold eff. case_decide; [by apply nth_byte|by unfold is_byte]. Qed.

Lemma kb_byte k i s : Forall is_byte k -> 0 <= s <= 24 -> kb k i s = nth i k 0 * 2 ^ s.
Proof.
  intros Hk Hs. unfold kb, shl32. rewrite Z.shiftl_mul_pow2 by lia. apply u32_small. pose proof (nth_byte k i Hk) as [? ?].
  assert (0 < 2 ^ s <= 2 ^ 24) by (split; [apply Z.pow_pos_nonneg; lia|apply Z.pow_le_mono_r; lia]). nia.
Qed.

Lemma kb_eff k len i s : Forall is_byte k -> 0 <= s <= 24 -> (if decide (Z.of_nat i < len) then kb k i s else 0) = eff k len i * 2 ^ s.
Proof. intros Hk Hs. unfold eff. case_decide; [by apply kb_byte|lia]. Qed.

Lemma kpart4 k len i : Forall is_byte k -> kpart k len i [0; 8; 16; 24] = eff k len i + eff k len (i + 1) * 2 ^ 8 + eff k len (i + 2) * 2 ^ 16 + eff k len (i + 3) * 2 ^ 24.
Proof.
  intros Hk. unfold kpart. cbn [imap foldr compose]. rewrite !kb_eff by (done || lia). rewrite Nat.add_0_r.
  pose proof (eff_byte k len i Hk). pose proof (eff_byte k len (i + 1) Hk). pose proof (eff_byte k len (i + 2) Hk). pose proof (eff_byte k len (i + 3) Hk).
  unfold is_byte in *. rewrite u32_small; lia.
Qed.

Lemma kpart3 k len i : Forall is_byte k -> kpart k len i [8; 16; 24] = eff k len i * 2 ^ 8 + eff k len (i + 1) * 2 ^ 16 + eff k len (i + 2) * 2 ^ 24.
Proof.
  intros Hk. unfold kpart. cbn [imap foldr compose]. rewrite !kb_eff by (done || lia). rewrite Nat.add_0_r.
  pose proof (eff_byte k len i Hk). pose proof (eff_byte k len (i + 1) Hk). pose proof (eff_byte k len (i + 2) Hk).
  unfold is_byte in *. rewrite u32_small; lia.
Qed.

Lemma add32_inj x y z : word32 y -> word32 z -> add32 x y = add32 x z -> y = z.
Proof. intros Hy Hz Heq. rewrite <- (sub_add32 y x), <- (sub_add32 z x) by done. f_equal. unfold add32 in *. by rewrite (Z.add_comm y), (Z.add_comm z). Qed.

Lemma kpart_word k len i sh : word32 (kpart k len i sh).
Proof. apply u32_word. Qed.

(** Equal words have equal bytes. *)
Ltac bytes_of Hk Hk' len i :=
  pose proof (eff_byte _ len i Hk); pose proof (eff_byte _ len i Hk'); pose proof (eff_byte _ len (i + 1) Hk); pose proof (eff_byte _ len (i + 1) Hk');
  pose proof (eff_byte _ len (i + 2) Hk); pose proof (eff_byte _ len (i + 2) Hk'); pose proof (eff_byte _ len (i + 3) Hk); pose proof (eff_byte _ len (i + 3) Hk').

Lemma kpart4_inj k k' len i : Forall is_byte k -> Forall is_byte k' -> kpart k len i [0; 8; 16; 24] = kpart k' len i [0; 8; 16; 24] ->
  forall j, (i <= j < i + 4)%nat -> eff k len j = eff k' len j.
Proof.
  intros Hk Hk'. rewrite !kpart4 by done. bytes_of Hk Hk' len i. unfold is_byte in *. intros Heq j Hj.
  assert (j = i \/ j = i + 1 \/ j = i + 2 \/ j = i + 3)%nat as [-> | [-> | [-> | ->]]] by lia; lia.
Qed.

Lemma kpart3_inj k k' len i : Forall is_byte k -> Forall is_byte k' -> kpart k len i [8; 16; 24] = kpart k' len i [8; 16; 24] ->
  forall j, (i <= j < i + 3)%nat -> eff k len j = eff k' len j.
Proof.
  intros Hk Hk'. rewrite !kpart3 by done. bytes_of Hk Hk' len i. unfold is_byte in *. intros Heq j Hj.
  assert (j = i \/ j = i + 1 \/ j = i + 2)%nat as [-> | [-> | ->]] by lia; lia.
Qed.

Lemma cs_rest_inj k k' len n s : Forall is_byte k -> Forall is_byte k' -> cs_rest k len n s = cs_rest k' len n s ->
  forall j, (j < 31)%nat -> eff k len j = eff k' len j.
Proof.
  intros Hk Hk' Heq. unfold cs_rest, cs_add in Heq. cbn [cs_a cs_b cs_c cs_d cs_e cs_f cs_g cs_h] in Heq.
  repeat first [rewrite decide_True in Heq by done | rewrite decide_False in Heq by done].
  injection Heq as Ha Hb Hc Hd He Hf Hg Hh.
  repeat match goal with H : add32 _ (kpart _ _ _ _) = add32 _ _ |- _ => apply add32_inj in H; [|apply kpart_word..] end.
  intros j Hj. assert (exists q, (q < 8)%nat /\ (4 * q <= j < 4 * q + 4)%nat) as (q & Hq & Hjq) by (exists (j / 4)%nat; pose proof (Nat.div_mod_eq j 4); pose proof (Nat.mod_upper_bound j 4); split; [apply Nat.Div0.div_lt_upper_bound|]; lia).
  assert (q = 0 \/ q = 1 \/ q = 2 \/ q = 3 \/ q = 4 \/ q = 5 \/ q = 6 \/ q = 7)%nat as Hcase by lia.
  destruct Hcase as [-> | [-> | [-> | [-> | [-> | [-> | [-> | ->]]]]]]].
  8: by eapply (kpart3_inj k k' len 28); try done; lia.
  all: match goal with |- _ => cbn in Hjq end.
  - by eapply (kpart4_inj k k' len 0); try done; lia.
  - by eapply (kpart4_inj k k' len 4); try done; lia.
  - by eapply (kpart4_inj k k' len 8); try done; lia.
  - by eapply (kpart4_inj k k' len 12); try done; lia.
  - by eapply (kpart4_inj k k' len 16); try done; lia.
  - by eapply (kpart4_inj k k' len 20); try done; lia.
  - by eapply (kpart4_inj k k' len 24); try done; lia.
Qed.

Lemma eff_eq (k k' : bytes) len : Z.of_nat (List.length k) = len -> Z.of_nat (List.length k') = len -> (forall j, (j < List.length k)%nat -> eff k len j = eff k' len j) -> k = k'.
Proof.
  intros Hk Hk' Heff. apply (List.nth_ext _ _ 0 0); [lia|]. intros j Hj. specialize (Heff j Hj). unfold eff in Heff. by rewrite !decide_True in Heff by lia.
Qed.

Lemma cs_rest_word k len n s : word_state (cs_rest k len n s).
Proof. repeat split; apply u32_word. Qed.

Lemma iter_mixc_word n s : word_state s -> word_state (Nat.iter n mixc s).
Proof. intros Hs. induction n as [|n IH]; [done|]. rewrite Nat.iter_succ. by apply mixc_word. Qed.

Lemma iter_mixc_inj n s s' : word_state s -> word_state s' -> Nat.iter n mixc s = Nat.iter n mixc s' -> s = s'.
Proof.
  intros Hs Hs'. induction n as [|n IH]; [done|]. rewrite !Nat.iter_succ. intros Heq%mixc_inj; [by apply IH|by apply iter_mixc_word..].
Qed.

Lemma checksum_short k len s : len <= 31 -> len <= Z.of_nat (List.length k) -> checksum k len s = Ok (Nat.iter 4 mixc (cs_rest k len len s)).
Proof. intros Hlen Hk. unfold checksum. rewrite decide_False by lia. cbn [checksum_loop]. by rewrite decide_False by lia. Qed.

Lemma Ok_eq {A} (x y : A) : Ok x = Ok y -> x = y.
Proof. by intros [= ->]. Qed.

(** C23: The mixing of both hash functions is reversible, as the comments say: [unmix] and [unmixc]
    take it back and are taken back by it, on all states of 32-bit words.  So no two keys of one
    length up to 31 have the same checksum. *)
Theorem lookupa_reversible :
  (forall a b c, word32 a -> word32 b -> word32 c -> unmix (mix (a, b, c)) = (a, b, c) /\ mix (unmix (a, b, c)) = (a, b, c)) /\
  (forall s, word_state s -> unmixc (mixc s) = s /\ mixc (unmixc s) = s) /\
  (forall k k' s, Forall is_byte k -> Forall is_byte k' -> (List.length k <= 31)%nat -> List.length k' = List.length k ->
    checksum k (Z.of_nat (List.length k)) s = checksum k' (Z.of_nat (List.length k)) s -> k = k').
Proof.
  split; [intros a b c Ha Hb Hc; split; [by apply mix_unmix|by apply unmix_mix]|].
  split; [intros s Hs; split; [by apply mixc_unmixc|by apply unmixc_mixc]|].
  intros k k' s Hk Hk' Hlen Hsame. rewrite !checksum_short by lia. intros Heq%Ok_eq.
  apply iter_mixc_inj in Heq; [|apply cs_rest_word..].
  apply (eff_eq k k' (Z.of_nat (List.length k))); [done|lia|]. intros j Hj. eapply cs_rest_inj; [done..|lia].
Qed.

Theorem lookupa_reversible_witness : unmix (mix (1, 2, 3)) = (1, 2, 3) /\
  checksum [97; 98] (Z.of_nat (List.length [97; 98])) (CS 1 1 1 1 1 1 1 1) <> checksum [97; 99] (Z.of_nat (List.length [97; 98])) (CS 1 1 1 1 1 1 1 1).
Proof.
  destruct lookupa_reversible as (Hmix & _ & Hsum). split.
  - assert (Hw : word32 1 /\ word32 2 /\ word32 3) by done. destruct Hw as (H1 & H2 & H3). exact (proj1 (Hmix 1 2 3 H1 H2 H3)).
  - assert (Hb : forall x, is_byte x -> Forall is_byte [97; x]) by (intros x Hx; repeat constructor; done || apply Hx).
    assert (H1 : is_byte 98) by by unfold is_byte. assert (H2 : is_byte 99) by by unfold is_byte. assert (Hl : (List.length [97; 98] <= 31)%nat) by (cbn; lia).
    intros Heq. enough ([97; 98] = [97; 99]) by discriminate. exact (Hsum [97; 98] [97; 99] (CS 1 1 1 1 1 1 1 1) (Hb 98 H1) (Hb 99 H2) Hl eq_refl Heq).
Defined.
