(* ===== verification/Perfect.v ===== *)
(** * The perfect hash: building the table

    src/lib/perfect/perfect.c, from the pairs (a,b) of the keys on: the table [tab] is filled so
    that a ^ scramble[tab[b]] is different for all keys.  A key is named by its place in the
    list of keys, an entry of [tabb] by its index; the chain of the keys with one b (linked
    through [nextb_k]) is a list in the entry.  The working memory is the state [pst]. *)
From S2P Require Import Prelude CLib Word.

#[local] Open Scope Z_scope.

(** ** Data (perfect.h) *)
Inductive hmode := NORMAL_HM | INLINE_HM | HEX_HM | DECIMAL_HM | AB_HM | ABDEC_HM.
Inductive htype := STRING_HT | INT_HT | AB_HT.
Inductive hperfect := NORMAL_HP | MINIMAL_HP.
Inductive hspeed := FAST_HS | SLOW_HS.
Record hashform := Form { f_mode : hmode; f_hashtype : htype; f_perfect : hperfect; f_speed : hspeed }.

Record key := Key { name_k : bytes; len_k : Z; hash_k : Z; a_k : Z; b_k : Z }.
Record bstuff := Bst { val_b : Z; list_b : list nat; listlen_b : Z; water_b : Z }.
Record qstuff := Qst { b_q : option Z; parent_q : Z; newval_q : Z; oldval_q : Z }.
Record pst := Pst { tabb : list bstuff; tabh : list (option nat); tabq : list qstuff }.

Definition USE_SCRAMBLE : Z := 4096.
Definition SCRAMBLE_LEN : Z := Z.shiftl 1 16.
Definition UB1MAXVAL : Z := 255.

#[export] Instance hperfect_eq_dec : EqDecision hperfect.
Proof. solve_decision. Defined.
#[export] Instance hspeed_eq_dec : EqDecision hspeed.
Proof. solve_decision. Defined.
#[export] Instance htype_eq_dec : EqDecision htype.
Proof. solve_decision. Defined.

Definition set_val (v : Z) (b : bstuff) : bstuff := Bst v (list_b b) (listlen_b b) (water_b b).
Definition set_water (w : Z) (b : bstuff) : bstuff := Bst (val_b b) (list_b b) (listlen_b b) w.

(** ** Arrays *)
Definition arr {A} (l : list A) (i : Z) : result A :=
  if decide (0 <= i) then from_option_fault OutOfBounds (l !! Z.to_nat i) else Fault OutOfBounds.
Definition arr_put {A} (l : list A) (i : Z) (x : A) : result (list A) :=
  if decide (0 <= i < Z.of_nat (length l)) then Ok (<[Z.to_nat i := x]> l) else Fault OutOfBounds.

Definition hget (i : Z) : st pst (option nat) := s ← getS; liftS (arr (tabh s) i).
Definition hput (i : Z) (x : option nat) : st pst unit := s ← getS; t ← liftS (arr_put (tabh s) i x); putS (Pst (tabb s) t (tabq s)).
Definition bget (i : Z) : st pst bstuff := s ← getS; liftS (arr (tabb s) i).
Definition bput (i : Z) (x : bstuff) : st pst unit := s ← getS; t ← liftS (arr_put (tabb s) i x); putS (Pst t (tabh s) (tabq s)).
Definition qget (i : Z) : st pst qstuff := s ← getS; liftS (arr (tabq s) i).
Definition qput (i : Z) (x : qstuff) : st pst unit := s ← getS; t ← liftS (arr_put (tabq s) i x); putS (Pst (tabb s) (tabh s) t).

(** ** The permutation *)
(** The shift by 32 is undefined. *)
Fixpoint mylog2_loop (fuel : nat) (i val : Z) : result Z :=
  match fuel with
  | O => Fault Undefined
  | S fuel => if decide (Z.shiftl 1 i < val) then mylog2_loop fuel (i + 1) val else Ok i
  end.
Definition mylog2 (val : Z) : result Z := mylog2_loop 32 0 val.

Definition permute_round (nbits x : Z) : Z :=
  let mask := Z.shiftl 1 nbits - 1 in
  let x := Z.land (u32 (x + u32 (Z.shiftl x (1 + nbits / 2)))) mask in
  let x := Z.lxor x (Z.shiftr x (1 + nbits / 3)) in
  let x := Z.land (u32 (x + u32 (Z.shiftl x (1 + nbits / 4)))) mask in
  Z.lxor x (Z.shiftr x (1 + nbits / 5)).
Definition permute (x nbits : Z) : Z := Nat.iter 20 (permute_round nbits) x.

Definition scrambleinit (smax : Z) : result (list Z) :=
  n ← mylog2 smax; Ok ((fun i => permute i n) <$> seqZ 0 SCRAMBLE_LEN).

Section keys.
Context (keys : list key).

Definition kget (k : nat) : result key := from_option_fault OutOfBounds (keys !! k).

(** ** Filling [tabb] *)
Definition checkdup (form : hashform) (key1 key2 : key) : result unit :=
  match f_hashtype form with
  | STRING_HT =>
      if decide (len_k key1 = len_k key2 /\ take (Z.to_nat (len_k key1)) (name_k key1) = take (Z.to_nat (len_k key1)) (name_k key2))
      then Fault ExitCalled else Ok tt
  | INT_HT => if decide (hash_k key1 = hash_k key2) then Fault ExitCalled else Ok tt
  | AB_HT => Fault ExitCalled
  end.

(** The keys with this b: is one's a that of [mykey]?  [None]: return FALSE at once. *)
Fixpoint collide (form : hashform) (complete : bool) (mykey : key) (others : list nat) (nocollision : bool) : result (option bool) :=
  match others with
  | [] => Ok (Some nocollision)
  | o :: others =>
      otherkey ← kget o;
      if decide (a_k mykey = a_k otherkey) then
        _ ← checkdup form mykey otherkey;
        if complete then collide form complete mykey others false else Ok None
      else collide form complete mykey others nocollision
  end.

Fixpoint inittab_loop (form : hashform) (complete : bool) (ks : list nat) (nocollision : bool) (t : list bstuff) : result (bool * list bstuff) :=
  match ks with
  | [] => Ok (nocollision, t)
  | k :: ks =>
      mykey ← kget k;
      b ← arr t (b_k mykey);
      r ← collide form complete mykey (list_b b) nocollision;
      match r with
      | None => Ok (false, t)
      | Some nocollision =>
          t ← arr_put t (b_k mykey) (Bst (val_b b) (k :: list_b b) (u32 (listlen_b b + 1)) (water_b b));
          inittab_loop form complete ks nocollision t
      end
  end.

Definition inittab (blen : Z) (form : hashform) (complete : bool) : result (bool * list bstuff) :=
  inittab_loop form complete (seq 0 (length keys)) true (replicate (Z.to_nat blen) (Bst 0 [] 0 0)).

(** ** Applying an augmenting path *)
Section mapping.
Context (scramble : list Z).

Definition hash_with (k : nat) (stabb : Z) : result Z := y ← kget k; Ok (Z.lxor (a_k y) stabb).

Fixpoint erase (ks : list nat) (stabb : Z) : st pst unit :=
  match ks with
  | [] => mret tt
  | k :: ks =>
      hash ← liftS (hash_with k stabb);
      e ← hget hash;
      _ ← (if decide (e = Some k) then hput hash None else mret tt);
      erase ks stabb
  end.

(** [root]: [parent == 0]; the result is false when another key has the hash. *)
Fixpoint place (rollback root : bool) (ks : list nat) (stabb : Z) : st pst bool :=
  match ks with
  | [] => mret true
  | k :: ks =>
      hash ← liftS (hash_with k stabb);
      if rollback then
        (if root then place rollback root ks stabb else (_ ← hput hash (Some k); place rollback root ks stabb))
      else
        e ← hget hash;
        match e with
        | Some _ => mret false
        | None => _ ← hput hash (Some k); place rollback root ks stabb
        end
  end.

(** The parent of the entry [c] of the queue takes the value [c] says. *)
Definition move (rollback : bool) (c : qstuff) : st pst bool :=
  p ← qget (parent_q c);
  match b_q p with
  | None => raiseS NullDeref
  | Some pb =>
      b ← bget pb;
      stabb ← liftS (arr scramble (val_b b));
      _ ← erase (list_b b) stabb;
      let v := if rollback then oldval_q c else newval_q c in
      _ ← bput pb (set_val v b);
      stabb ← liftS (arr scramble v);
      place rollback (bool_decide (parent_q c = 0)) (list_b b) stabb
  end.

Fixpoint apply_walk (fuel : nat) (rollback : bool) (child : Z) : st pst bool :=
  match fuel with
  | O => raiseS NoFuel
  | S fuel =>
      if decide (child = 0) then mret true
      else
        c ← qget child;
        ok ← move rollback c;
        if (ok : bool) then apply_walk fuel rollback (parent_q c) else mret false
  end.

Definition apply (tail : Z) : st pst bool :=
  ok ← apply_walk (Z.to_nat tail) false (tail - 1);
  if (ok : bool) then mret true else (_ ← apply_walk (Z.to_nat tail) true (tail - 1); mret false).

(** ** Finding an augmenting path *)
Section search.
Context (limit highhash highwater : Z) (trans : bool).

(** The keys of one b hashed with the value [i]: [None] if a hash is out of range, hits two
    entries or one that has been explored; else the entry they hit, if any. *)
Fixpoint probe (ks : list nat) (i : Z) (childb : option Z) : st pst (option (option Z)) :=
  match ks with
  | [] => mret (Some childb)
  | k :: ks =>
      stabb ← liftS (arr scramble i);
      hash ← liftS (hash_with k stabb);
      if decide (highhash <= hash) then mret None
      else
        e ← hget hash;
        match e with
        | None => probe ks i childb
        | Some ck =>
            childkey ← liftS (kget ck);
            let hitb := b_k childkey in
            match childb with
            | Some c => if decide (c <> hitb) then mret None else probe ks i childb
            | None =>
                b ← bget hitb;
                if decide (water_b b = highwater) then mret None else probe ks i (Some hitb)
            end
        end
  end.

(** The values from [i] on for the entry [myb] at place [q] of the queue; returns whether the
    item has been mapped, and the tail. *)
Fixpoint try_values (n : nat) (i q myb tail : Z) : st pst (bool * Z) :=
  match n with
  | O => mret (false, tail)
  | S n =>
      b ← bget myb;
      r ← probe (list_b b) i None;
      match r with
      | None => try_values n (i + 1) q myb tail
      | Some childb =>
          _ ← (match childb with
               | Some c => cb ← bget c; bput c (set_water highwater cb)
               | None => mret tt
               end);
          b ← bget myb;
          _ ← qput tail (Qst childb q (i mod 2 ^ 16) (val_b b));
          match childb with
          | Some _ => try_values n (i + 1) q myb (tail + 1)
          | None =>
              ok ← apply (tail + 1);
              if (ok : bool) then mret (true, tail + 1) else try_values n (i + 1) q myb tail
          end
      end
  end.

Fixpoint spread (fuel : nat) (q tail : Z) : st pst bool :=
  match fuel with
  | O => raiseS NoFuel
  | S fuel =>
      if decide (tail <= q) then mret false
      else if decide (trans = false /\ q = 1) then mret false
      else
        e ← qget q;
        match b_q e with
        | None => raiseS NullDeref
        | Some myb =>
            r ← try_values (Z.to_nat limit) 0 q myb tail;
            if (r.1 : bool) then mret true else spread fuel (q + 1) r.2
        end
  end.
End search.

Definition augment (blen smax nkeys : Z) (form : hashform) (item highwater : Z) : st pst bool :=
  let limit := if decide (blen < USE_SCRAMBLE) then smax else UB1MAXVAL + 1 in
  let highhash := if decide (f_perfect form = MINIMAL_HP) then nkeys else smax in
  let trans := bool_decide (f_speed form = SLOW_HS \/ f_perfect form = MINIMAL_HP) in
  root ← qget 0;
  _ ← qput 0 (Qst (Some item) (parent_q root) (newval_q root) (oldval_q root));
  spread limit highhash highwater trans (S (Z.to_nat blen + 1)) 0 1.

(** ** Mapping all entries, those with most keys first *)
Definition maxkeys (t : list bstuff) : Z := foldl (fun m b => if decide (m < listlen_b b) then listlen_b b else m) 0 t.

Fixpoint map_row (n : nat) (blen smax nkeys : Z) (form : hashform) (j i : Z) : st pst bool :=
  match n with
  | O => mret true
  | S n =>
      b ← bget i;
      ok ← (if decide (listlen_b b = j) then augment blen smax nkeys form i (i + 1) else mret true);
      if (ok : bool) then map_row n blen smax nkeys form j (i + 1) else mret false
  end.

Fixpoint map_rows (j : nat) (blen smax nkeys : Z) (form : hashform) : st pst bool :=
  match j with
  | O => mret true
  | S j' =>
      ok ← map_row (Z.to_nat blen) blen smax nkeys form (Z.of_nat j) 0;
      if (ok : bool) then map_rows j' blen smax nkeys form else mret false
  end.

(** [memset] to 0 of the first [n] entries. *)
Definition clear {A} (x : A) (n : Z) (l : list A) : result (list A) :=
  if decide (Z.of_nat (length l) < n) then Fault OutOfBounds else Ok (replicate (Z.to_nat n) x ++ drop (Z.to_nat n) l).

Definition perfect (blen smax nkeys : Z) (form : hashform) : st pst bool :=
  s ← getS;
  h ← liftS (clear None (if decide (f_perfect form = MINIMAL_HP) then nkeys else smax) (tabh s));
  q ← liftS (clear (Qst None 0 0 0) (blen + 1) (tabq s));
  _ ← putS (Pst (tabb s) h q);
  map_rows (Z.to_nat (maxkeys (tabb s))) blen smax nkeys form.
End mapping.
End keys.
