(* ===== verification/PerfectOk.v ===== *)
(** * The perfect hash: the table is right

    What [apply], [augment] and [perfect] of src/lib/perfect/perfect.c do: they run without a
    fault, a failed [apply] leaves everything as it was, and when [perfect] succeeds no two
    keys have the same hash. *)
From S2P Require Import Prelude CLib Word Perfect.

#[local] Open Scope Z_scope.

(** ** Runs without a fault *)
Definition safe {S A} (p : st S A) (Q : A -> S -> Prop) (s : S) : Prop :=
  match p s with Ok (a, s') => Q a s' | Fault _ => False end.

Section safe.
Context {S : Type}.

Lemma safe_ret {A} (a : A) (Q : A -> S -> Prop) s : Q a s -> safe (mret a) Q s.
Proof. done. Qed.

Lemma safe_bind {A B} (p : st S A) (f : A -> st S B) Q s : safe p (fun a => safe (f a) Q) s -> safe (p ≫= f) Q s.
Proof. unfold safe, mbind, st_bind. by destruct (p s) as [[a s']|]. Qed.

Lemma safe_mono {A} (p : st S A) (Q Q' : A -> S -> Prop) s : safe p Q s -> (forall a s, Q a s -> Q' a s) -> safe p Q' s.
Proof. unfold safe. destruct (p s) as [[a s']|]; auto. Qed.

Lemma safe_lift {A} (r : result A) a (Q : A -> S -> Prop) s : r = Ok a -> Q a s -> safe (liftS r) Q s.
Proof. by intros ->. Qed.

Lemma safe_get (Q : S -> S -> Prop) s : Q s s -> safe getS Q s.
Proof. done. Qed.
End safe.

(** ** Arrays *)
Lemma arr_Ok {A} (l : list A) i x : 0 <= i -> l !! Z.to_nat i = Some x -> arr l i = Ok x.
Proof. intros Hi Hx. unfold arr. rewrite decide_True by done. by rewrite Hx. Qed.

Lemma arr_put_Ok {A} (l : list A) i x : 0 <= i < Z.of_nat (length l) -> arr_put l i x = Ok (<[Z.to_nat i := x]> l).
Proof. intros Hi. unfold arr_put. by rewrite decide_True. Qed.

Lemma safe_hget Q s h e : 0 <= h -> tabh s !! Z.to_nat h = Some e -> Q e s -> safe (hget h) Q s.
Proof. intros Hh He HQ. apply safe_bind, safe_get. eapply safe_lift; [by apply arr_Ok|done]. Qed.

Lemma safe_bget Q s b e : 0 <= b -> tabb s !! Z.to_nat b = Some e -> Q e s -> safe (bget b) Q s.
Proof. intros Hh He HQ. apply safe_bind, safe_get. eapply safe_lift; [by apply arr_Ok|done]. Qed.

Lemma safe_qget Q s q e : 0 <= q -> tabq s !! Z.to_nat q = Some e -> Q e s -> safe (qget q) Q s.
Proof. intros Hh He HQ. apply safe_bind, safe_get. eapply safe_lift; [by apply arr_Ok|done]. Qed.

Lemma safe_hput (Q : unit -> pst -> Prop) s h e : 0 <= h < Z.of_nat (length (tabh s)) -> Q tt (Pst (tabb s) (<[Z.to_nat h := e]> (tabh s)) (tabq s)) -> safe (hput h e) Q s.
Proof. intros Hh HQ. apply safe_bind, safe_get, safe_bind. eapply safe_lift; [by apply arr_put_Ok|]. done. Qed.

Lemma safe_bput (Q : unit -> pst -> Prop) s b e : 0 <= b < Z.of_nat (length (tabb s)) -> Q tt (Pst (<[Z.to_nat b := e]> (tabb s)) (tabh s) (tabq s)) -> safe (bput b e) Q s.
Proof. intros Hh HQ. apply safe_bind, safe_get, safe_bind. eapply safe_lift; [by apply arr_put_Ok|]. done. Qed.

Lemma safe_qput (Q : unit -> pst -> Prop) s q e : 0 <= q < Z.of_nat (length (tabq s)) -> Q tt (Pst (tabb s) (tabh s) (<[Z.to_nat q := e]> (tabq s))) -> safe (qput q e) Q s.
Proof. intros Hh HQ. apply safe_bind, safe_get, safe_bind. eapply safe_lift; [by apply arr_put_Ok|]. done. Qed.

(** The values that [augment] tries are below this. *)
Definition val_limit (blen smax : Z) : Z := if decide (blen < USE_SCRAMBLE) then smax else UB1MAXVAL + 1.

Section table.
Context (keys : list key) (scramble : list Z) (chains : list (list nat)) (N : nat) (vmax : Z).

(** The hash of key [k] when its b has the value [v]. *)
Definition sc (v : Z) : Z := nth (Z.to_nat v) scramble 0.
Definition hashv (k : nat) (v : Z) : Z := match keys !! k with Some y => Z.lxor (a_k y) (sc v) | None => 0 end.
Definition bof (k : nat) : nat := match keys !! k with Some y => Z.to_nat (b_k y) | None => 0 end.

(** The chains hold the keys by b, and no two keys of one b have the same a. *)
Record chains_wf : Prop := {
  cw_scramble : Forall (fun z => 0 <= z) scramble;
  cw_key : forall b c k, chains !! b = Some c -> k ∈ c -> exists y, keys !! k = Some y /\ 0 <= a_k y /\ b_k y = Z.of_nat b;
  cw_nodup : forall b c, chains !! b = Some c -> NoDup c;
  cw_a : forall b c k k', chains !! b = Some c -> k ∈ c -> k' ∈ c -> (a_k <$> keys !! k) = (a_k <$> keys !! k') -> k = k'
}.
Context (Hwf : chains_wf).

Lemma chain_bof b c k : chains !! b = Some c -> k ∈ c -> bof k = b.
Proof using Hwf. intros Hb Hk. destruct (cw_key Hwf b c k Hb Hk) as (y & Hy & _ & Hby). unfold bof. rewrite Hy, Hby. apply Nat2Z.id. Qed.

Lemma sc_nonneg v : 0 <= sc v.
Proof using Hwf.
  unfold sc. destruct (nth_in_or_default (Z.to_nat v) scramble 0) as [Hin| ->]; [|done].
  apply (proj1 (Forall_forall _ _) (cw_scramble Hwf)). by apply list_elem_of_In.
Qed.

Lemma hashv_nonneg b c k v : chains !! b = Some c -> k ∈ c -> 0 <= hashv k v.
Proof using Hwf.
  intros Hb Hk. destruct (cw_key Hwf b c k Hb Hk) as (y & Hy & Ha & _). unfold hashv. rewrite Hy. apply Z.lxor_nonneg. pose proof (sc_nonneg v). lia.
Qed.

Lemma hashv_inj b c k k' v : chains !! b = Some c -> k ∈ c -> k' ∈ c -> hashv k v = hashv k' v -> k = k'.
Proof using Hwf.
  intros Hb Hk Hk' Heq. apply (cw_a Hwf b c k k' Hb Hk Hk').
  destruct (cw_key Hwf b c k Hb Hk) as (y & Hy & _), (cw_key Hwf b c k' Hb Hk') as (y' & Hy' & _). unfold hashv in Heq. rewrite Hy, Hy' in *. cbn. f_equal.
  apply (f_equal (fun z => Z.lxor z (sc v))) in Heq. by rewrite !Z.lxor_assoc, !Z.lxor_nilpotent, !Z.lxor_0_r in Heq.
Qed.

Lemma hash_with_Ok b c k v : chains !! b = Some c -> k ∈ c -> hash_with keys k (sc v) = Ok (hashv k v).
Proof using Hwf. intros Hb Hk. destruct (cw_key Hwf b c k Hb Hk) as (y & Hy & _). unfold hash_with, kget, hashv. by rewrite Hy. Qed.

(** A value that keeps the keys of [b] in the table; values stay below [vmax]. *)
Definition fits (b : nat) (v : Z) : Prop :=
  0 <= v < Z.min vmax (Z.of_nat (length scramble)) /\ forall c k, chains !! b = Some c -> k ∈ c -> hashv k v < Z.of_nat N.

Lemma arr_sc v : 0 <= v < Z.of_nat (length scramble) -> arr scramble v = Ok (sc v).
Proof using.
  intros Hv. apply arr_Ok; [lia|]. unfold sc. rewrite nth_lookup. destruct (lookup_lt_is_Some_2 scramble (Z.to_nat v)) as [z ->]; [lia|done].
Qed.

Lemma arr_scramble b v : fits b v -> arr scramble v = Ok (sc v).
Proof using. intros [Hv _]. apply arr_sc. lia. Qed.

(** [k] is at place [h]. *)
Definition at_place (t : list (option nat)) (h : nat) (k : nat) : Prop := t !! h = Some (Some k).

Lemma at_place_insert t h e h' k : (h < length t)%nat -> at_place (<[h := e]> t) h' k <-> (h = h' /\ e = Some k) \/ (h <> h' /\ at_place t h' k).
Proof using.
  intros Hh. unfold at_place. destruct (decide (h = h')) as [<-|Hne]; [rewrite list_lookup_insert_eq by done|rewrite list_lookup_insert_ne by done]; split; try tauto.
  - intros [= ->]. by left.
  - intros [[_ ->]|[? _]]; done.
Qed.

Lemma cons_sub (k : nat) ks c : k :: ks ⊆ c -> k ∈ c /\ ks ⊆ c.
Proof using. intros H. split; [apply H; by left|]. intros y Hy. apply H. by right. Qed.

(** ** Erasing and placing the keys of one b *)
Section chain.
Context (b : nat) (c : list nat) (v : Z) (Hb : chains !! b = Some c) (Hv : fits b v).

Lemma fits_range k : k ∈ c -> 0 <= hashv k v < Z.of_nat N.
Proof using Hwf Hb Hv. intros Hk. split; [by eapply hashv_nonneg|by eapply Hv]. Qed.

Lemma tabh_at s h : length (tabh s) = N -> 0 <= h < Z.of_nat N -> exists e, tabh s !! Z.to_nat h = Some e.
Proof using. intros Hl Hh. apply lookup_lt_is_Some_2. lia. Qed.

Lemma safe_erase s ks : ks ⊆ c -> length (tabh s) = N ->
  safe (erase keys ks (sc v)) (fun _ s' => tabb s' = tabb s /\ tabq s' = tabq s /\ length (tabh s') = N /\
    forall h k, at_place (tabh s') h k <-> at_place (tabh s) h k /\ ~ (k ∈ ks /\ Z.of_nat h = hashv k v)) s.
Proof using Hwf Hb Hv.
  revert s. induction ks as [|k ks IH]; intros s Hks Hl; cbn [erase].
  - apply safe_ret. split; [done|]. split; [done|]. split; [done|]. intros h k. split; [intros H; split; [done|]; intros [?%not_elem_of_nil _]; done|tauto].
  - destruct (cons_sub _ _ _ Hks) as [Hk Hks']. pose proof (fits_range k Hk) as Hr. apply safe_bind. eapply safe_lift; [by eapply hash_with_Ok|].
    destruct (tabh_at s (hashv k v) Hl Hr) as [e He]. apply safe_bind. eapply safe_hget; [lia|done|]. apply safe_bind.
    apply (safe_mono _ (fun _ s' => tabb s' = tabb s /\ tabq s' = tabq s /\ length (tabh s') = N /\
      forall h k', at_place (tabh s') h k' <-> at_place (tabh s) h k' /\ ~ (k' = k /\ Z.of_nat h = hashv k v))).
    + case_decide as Hd.
      * subst e. apply safe_hput; [lia|]. cbn [tabb tabh tabq]. split; [done|]. split; [done|]. split; [by rewrite length_insert|]. intros h k'.
        rewrite at_place_insert by lia. split; [intros [[_ ?]|[Hne Hat]]; [done|]; split; [done|]; intros [_ Hh]; lia|].
        intros [Hat Hn]. right. split; [|done]. intros <-. apply Hn. split; [|lia]. unfold at_place in Hat. congruence.
      * apply safe_ret. split; [done|]. split; [done|]. split; [done|]. intros h k'. split; [intros Hat; split; [done|]; intros [-> Hh]|tauto].
        apply Hd. unfold at_place in Hat. rewrite <- Hh, Nat2Z.id in He. congruence.
    + intros _ s1 (Hb1 & Hq1 & Hl1 & Hat1). eapply safe_mono; [by apply IH|]. intros _ s2 (Hb2 & Hq2 & Hl2 & Hat2).
      split; [congruence|]. split; [congruence|]. split; [done|]. intros h k'. rewrite Hat2, Hat1. rewrite elem_of_cons. split; [intros [[? Hn] Hn']; split; [done|]|].
      * intros [[->|Hin] Hh]; [by apply Hn|by apply Hn'].
      * intros [Hat Hn]. split; [split; [done|]|]; intros [? Hh]; apply Hn; [subst k'|]; auto.
Qed.

(** Without rolling back: up to the first key whose place is taken. *)
Lemma safe_place s root ks : ks ⊆ c -> length (tabh s) = N ->
  safe (place keys false root ks (sc v)) (fun r s' => tabb s' = tabb s /\ tabq s' = tabq s /\ length (tabh s') = N /\
    exists ks', ks' ⊆ ks /\ (r = true -> ks' = ks) /\ forall h k, at_place (tabh s') h k <-> at_place (tabh s) h k \/ (k ∈ ks' /\ Z.of_nat h = hashv k v)) s.
Proof using Hwf Hb Hv.
  revert s. induction ks as [|k ks IH]; intros s Hks Hl; cbn [place].
  - apply safe_ret. split; [done|]. split; [done|]. split; [done|]. exists []. split; [by intros ? ?%not_elem_of_nil|]. split; [done|]. intros h k. split; [by left|intros [?|[?%not_elem_of_nil _]]; done].
  - destruct (cons_sub _ _ _ Hks) as [Hk Hks']. pose proof (fits_range k Hk) as Hr. apply safe_bind. eapply safe_lift; [by eapply hash_with_Ok|].
    destruct (tabh_at s (hashv k v) Hl Hr) as [e He]. apply safe_bind. eapply safe_hget; [lia|done|]. destruct e as [k0|].
    + apply safe_ret. split; [done|]. split; [done|]. split; [done|]. exists []. split; [by intros ? ?%not_elem_of_nil|]. split; [done|]. intros h k'. split; [by left|intros [?|[?%not_elem_of_nil _]]; done].
    + apply safe_bind, safe_hput; [lia|]. set (s1 := Pst _ _ _). eapply safe_mono; [apply (IH s1); [done|unfold s1; cbn; by rewrite length_insert]|].
      intros r s2 (Hb2 & Hq2 & Hl2 & ks' & Hks1 & Hr2 & Hat2). split; [done|]. split; [done|]. split; [done|]. exists (k :: ks'). split; [intros y [->|Hy]%elem_of_cons; [by left|right; by apply Hks1]|]. split; [intros Ht; by rewrite (Hr2 Ht)|].
      intros h k'. rewrite Hat2. unfold s1. cbn [tabh]. rewrite at_place_insert by lia. rewrite elem_of_cons. split.
      * intros [[[<- [= ->]]|[_ ?]]|[? ?]]; [right; split; [by left|lia]|by left|right; auto].
      * intros [Hat|[[->|?] ?]]; [|left; left; split; [lia|done]|by right]. left. right. split; [|done]. intros <-. unfold at_place in Hat. congruence.
Qed.

(** Rolling back: every key goes to its place, whatever is there. *)
Lemma safe_unplace s ks : NoDup ks -> ks ⊆ c -> length (tabh s) = N ->
  safe (place keys true false ks (sc v)) (fun r s' => r = true /\ tabb s' = tabb s /\ tabq s' = tabq s /\ length (tabh s') = N /\
    forall h k, at_place (tabh s') h k <-> (k ∈ ks /\ Z.of_nat h = hashv k v) \/ (at_place (tabh s) h k /\ forall k', k' ∈ ks -> Z.of_nat h <> hashv k' v)) s.
Proof using Hwf Hb Hv.
  revert s. induction ks as [|k ks IH]; intros s Hn Hks Hl; cbn [place].
  - apply safe_ret. split; [done|]. split; [done|]. split; [done|]. split; [done|]. intros h k. split; [intros H; right; split; [done|]; intros ? ?%not_elem_of_nil; done|intros [[?%not_elem_of_nil _]|[? _]]; done].
  - destruct (cons_sub _ _ _ Hks) as [Hk Hks']. pose proof (fits_range k Hk) as Hr. apply NoDup_cons in Hn as [Hkn Hn]. apply safe_bind. eapply safe_lift; [by eapply hash_with_Ok|].
    apply safe_bind, safe_hput; [lia|]. set (s1 := Pst _ _ _). eapply safe_mono; [apply (IH s1); [done|done|unfold s1; cbn; by rewrite length_insert]|].
    intros r s2 (-> & Hb2 & Hq2 & Hl2 & Hat2). split; [done|]. split; [done|]. split; [done|]. split; [done|]. intros h k'. rewrite Hat2. unfold s1. cbn [tabh].
    rewrite at_place_insert by lia. rewrite elem_of_cons. split.
    + intros [[? ?]|[[[<- [= ->]]|[Hne Hat]] Hall]]; [left; auto|left; split; [by left|lia]|].
      right. split; [done|]. intros k0 [->|Hk0]%elem_of_cons; [lia|by apply Hall].
    + intros [[[->|?] Hh]|[Hat Hall]]; [|by left|].
      * right. split; [left; split; [lia|done]|]. intros k0 Hk0 Heq. apply Hkn. replace k with k0; [done|]. eapply (hashv_inj b c); [done|by apply Hks'|done|]; rewrite <- Heq; exact Hh.
      * right. split; [right; split; [|done]|]; [intros <-; apply (Hall k); [by left|lia]|]. intros k0 Hk0. apply Hall. by right.
Qed.
End chain.

(** ** Moving one entry *)
(** The node of the queue that [c] names as its parent stands for the entry [b]. *)
Definition parent_is (s : pst) (c : qstuff) (b : nat) (e : bstuff) (l : list nat) : Prop :=
  0 <= parent_q c /\ (exists p, tabq s !! Z.to_nat (parent_q c) = Some p /\ b_q p = Some (Z.of_nat b)) /\ tabb s !! b = Some e /\ list_b e = l /\ chains !! b = Some l.

Lemma safe_move_head (Q : bool -> pst -> Prop) s (rollback : bool) c b e l v : parent_is s c b e l -> fits b (val_b e) -> fits b v -> length (tabh s) = N ->
  v = (if rollback then oldval_q c else newval_q c) ->
  (forall s1, tabb s1 = <[b := set_val v e]> (tabb s) -> tabq s1 = tabq s -> length (tabh s1) = N ->
     (forall h k, at_place (tabh s1) h k <-> at_place (tabh s) h k /\ ~ (k ∈ l /\ Z.of_nat h = hashv k (val_b e))) ->
     safe (place keys rollback (bool_decide (parent_q c = 0)) l (sc v)) Q s1) ->
  safe (move keys scramble rollback c) Q s.
Proof using Hwf.
  intros (Hp0 & (p & Hp & Hbq) & He & Hl & Hc) Hfe Hfv HlN -> HQ. unfold move. apply safe_bind. eapply safe_qget; [done|exact Hp|]. rewrite Hbq.
  apply safe_bind. eapply safe_bget; [lia|by rewrite Nat2Z.id|]. apply safe_bind. eapply safe_lift; [by eapply arr_scramble|]. apply safe_bind. rewrite Hl.
  eapply safe_mono; [by apply (safe_erase b l (val_b e) Hc Hfe s l)|]. intros _ s1 (Hb1 & Hq1 & Hl1 & Hat1). apply safe_bind, safe_bput.
  { rewrite Hb1. apply lookup_lt_Some in He. lia. }
  apply safe_bind. eapply safe_lift; [by eapply arr_scramble|]. apply HQ; cbn [tabb tabq tabh]; [by rewrite Hb1, Nat2Z.id|done|done|done].
Qed.

Lemma safe_move s c b e l : parent_is s c b e l -> fits b (val_b e) -> fits b (newval_q c) -> length (tabh s) = N ->
  safe (move keys scramble false c) (fun r s' => tabb s' = <[b := set_val (newval_q c) e]> (tabb s) /\ tabq s' = tabq s /\ length (tabh s') = N /\
    exists l', l' ⊆ l /\ (r = true -> l' = l) /\
    forall h k, at_place (tabh s') h k <-> (at_place (tabh s) h k /\ ~ (k ∈ l /\ Z.of_nat h = hashv k (val_b e))) \/ (k ∈ l' /\ Z.of_nat h = hashv k (newval_q c))) s.
Proof using Hwf.
  intros Hp Hfe Hfv HlN. eapply safe_move_head; [done|done|exact Hfv|done|done|]. intros s1 Hb1 Hq1 Hl1 Hat1. destruct Hp as (_ & _ & _ & _ & Hc).
  eapply safe_mono; [by apply (safe_place b l (newval_q c) Hc Hfv s1 _ l)|]. intros r s2 (Hb2 & Hq2 & Hl2 & l' & Hl' & Hr & Hat2).
  split; [congruence|]. split; [congruence|]. split; [done|]. exists l'. split; [done|]. split; [done|]. intros h k. by rewrite Hat2, Hat1.
Qed.

Lemma safe_unmove s c b e l : parent_is s c b e l -> fits b (val_b e) -> fits b (oldval_q c) -> length (tabh s) = N -> NoDup l ->
  safe (move keys scramble true c) (fun r s' => r = true /\ tabb s' = <[b := set_val (oldval_q c) e]> (tabb s) /\ tabq s' = tabq s /\ length (tabh s') = N /\
    forall h k, at_place (tabh s') h k <-> (parent_q c <> 0 /\ k ∈ l /\ Z.of_nat h = hashv k (oldval_q c)) \/
      (at_place (tabh s) h k /\ ~ (k ∈ l /\ Z.of_nat h = hashv k (val_b e)) /\ (parent_q c = 0 \/ forall k', k' ∈ l -> Z.of_nat h <> hashv k' (oldval_q c)))) s.
Proof using Hwf.
  intros Hp Hfe Hfv HlN Hn. eapply safe_move_head; [done|done|exact Hfv|done|done|]. intros s1 Hb1 Hq1 Hl1 Hat1. destruct Hp as (_ & _ & _ & _ & Hc).
  case_bool_decide as Hroot.
  - assert (Hnil : forall ks, (forall k, k ∈ ks -> k ∈ l) -> safe (place keys true true ks (sc (oldval_q c))) (fun r s' => r = true /\ s' = s1) s1).
    { induction ks as [|k ks IH]; intros Hks; [done|]. cbn [place]. apply safe_bind. eapply safe_lift; [eapply hash_with_Ok; [exact Hc|apply Hks; by left]|].
      apply IH. intros y Hy. apply Hks. by right. }
    eapply safe_mono; [by apply Hnil|]. intros r s2 [-> ->]. split; [done|]. split; [done|]. split; [done|]. split; [done|]. intros h k. rewrite Hat1. tauto.
  - eapply safe_mono; [by apply (safe_unplace b l (oldval_q c) Hc Hfv s1 l)|]. intros r s2 (-> & Hb2 & Hq2 & Hl2 & Hat2).
    split; [done|]. split; [congruence|]. split; [congruence|]. split; [done|]. intros h k. rewrite Hat2, Hat1. tauto.
Qed.

(** ** What the table says *)
(** The fields that [apply] does not write. *)
Definition static (t : list bstuff) : list (list nat) * list Z * list Z := (list_b <$> t, listlen_b <$> t, water_b <$> t).

Lemma static_set_val t b e v : t !! b = Some e -> static (<[b := set_val v e]> t) = static t.
Proof using.
  intros He. unfold static. rewrite !list_fmap_insert. cbn [list_b listlen_b water_b set_val].
  by rewrite !list_insert_id by (by rewrite list_lookup_fmap, He).
Qed.

(** Key [k] is in the chain of its b, whose entry in [t] is [e]. *)
Definition in_chain (t : list bstuff) (k : nat) (e : bstuff) : Prop :=
  exists c, chains !! bof k = Some c /\ k ∈ c /\ t !! bof k = Some e.

(** The table of hashes holds the keys of the entries in [M], each at its place. *)
Record good (M : nat -> Prop) (s : pst) : Prop := {
  go_static : (static (tabb s)).1.1 = chains;
  go_len : length (tabh s) = N;
  go_fits : forall b e, tabb s !! b = Some e -> fits b (val_b e);
  go_at : forall h k, at_place (tabh s) h k -> M (bof k) /\ exists e, in_chain (tabb s) k e /\ Z.of_nat h = hashv k (val_b e);
  go_keys : forall k e, M (bof k) -> in_chain (tabb s) k e -> at_place (tabh s) (Z.to_nat (hashv k (val_b e))) k
}.

Lemma in_chain_insert t b e0 k e l v : t !! b = Some e0 -> chains !! b = Some l ->
  in_chain (<[b := set_val v e0]> t) k e <-> (bof k = b /\ k ∈ l /\ e = set_val v e0) \/ (bof k <> b /\ in_chain t k e).
Proof using.
  intros He0 Hl. assert (Hlt : (b < length t)%nat) by (by eapply lookup_lt_Some). unfold in_chain. destruct (decide (bof k = b)) as [Hk|Hk].
  - rewrite Hk, list_lookup_insert_eq by done. split; [intros (c & Hc & Hkc & [= <-]); left; split; [done|]; split; [congruence|done]|].
    intros [(_ & Hkl & ->)|[? _]]; [by exists l|done].
  - rewrite list_lookup_insert_ne by done. split; [intros H; right; by split|]. intros [[? _]|[_ ?]]; done.
Qed.

(** A successful move adds the entry. *)
Lemma good_move M s s' c b e l : good M s -> parent_is s c b e l -> fits b (newval_q c) ->
  tabb s' = <[b := set_val (newval_q c) e]> (tabb s) -> length (tabh s') = N ->
  (forall h k, at_place (tabh s') h k <-> (at_place (tabh s) h k /\ ~ (k ∈ l /\ Z.of_nat h = hashv k (val_b e))) \/ (k ∈ l /\ Z.of_nat h = hashv k (newval_q c))) ->
  good (fun b' => M b' \/ b' = b) s'.
Proof using Hwf.
  intros [Hst Hlen Hfit Hat Hkeys] (_ & _ & He & Hle & Hl) Hfv Hb' Hlen' Hat'. assert (Hbl : (b < length (tabb s))%nat) by (by eapply lookup_lt_Some).
  split; [by rewrite Hb', static_set_val|done| | |].
  - intros b' e'. rewrite Hb'. destruct (decide (b = b')) as [<-|Hne]; [|rewrite list_lookup_insert_ne by done; apply Hfit].
    rewrite list_lookup_insert_eq by done. by intros [= <-].
  - intros h k [[Hk Hn]|[Hk Hh]]%Hat'.
    + destruct (Hat h k Hk) as (HM & ek & (c' & Hc' & Hkc & Hek) & Hh). split; [by left|]. exists ek. split; [|done]. rewrite Hb', in_chain_insert by done. right.
      split; [|by exists c']. intros Hbk. apply Hn. rewrite Hbk in *. split; [congruence|]. congruence.
    + pose proof (chain_bof b l k Hl Hk) as Hbk. split; [by right|]. exists (set_val (newval_q c) e). split; [|done]. rewrite Hb', in_chain_insert by done. by left.
  - intros k e' HM Hic. rewrite Hb', in_chain_insert in Hic by done. apply Hat'. destruct Hic as [(Hbk & Hk & ->)|[Hbk Hic]].
    + right. split; [done|]. cbn [val_b set_val]. rewrite Z2Nat.id; [done|by eapply hashv_nonneg].
    + left. destruct HM as [HM|?]; [|done]. split; [by apply Hkeys|]. intros [Hk _]. apply Hbk. by eapply chain_bof.
Qed.

Lemma good_ext M M' s : (forall b, M b <-> M' b) -> good M s -> good M' s.
Proof using.
  intros HM [Hst Hlen Hfit Hat Hkeys]. split; [done|done|done| |].
  - intros h k Hk. destruct (Hat h k Hk) as [? ?]. split; [by apply HM|done].
  - intros k e ?%HM. by apply Hkeys.
Qed.

(** In a good table, a hash belongs to one key. *)
Lemma good_inj M s k k' e e' : good M s -> M (bof k) -> M (bof k') -> in_chain (tabb s) k e -> in_chain (tabb s) k' e' ->
  hashv k (val_b e) = hashv k' (val_b e') -> k = k'.
Proof using.
  intros Hg HM HM' Hk Hk' Heq. pose proof (go_keys _ _ Hg k e HM Hk) as H1. pose proof (go_keys _ _ Hg k' e' HM' Hk') as H2.
  rewrite Heq in H1. unfold at_place in *. congruence.
Qed.

(** ** Moving along a path and back *)
Section path.
Context (M : nat -> Prop) (b0 : nat) (V : nat -> Z) (st0 : list (list nat) * list Z * list Z).
Context (Hb0 : ~ M b0) (Hst0 : st0.1.1 = chains) (HVfit : forall b, (b < length chains)%nat -> fits b (V b)).
Context (Hinj : forall k k' c c', M (bof k) -> M (bof k') -> chains !! bof k = Some c -> k ∈ c -> chains !! bof k' = Some c' -> k' ∈ c' ->
  hashv k (V (bof k)) = hashv k' (V (bof k')) -> k = k').

(** The entries in [D] may have any value, and their keys be missing; all others are as [V] says. *)
Record mid (D : list nat) (s : pst) : Prop := {
  mi_static : static (tabb s) = st0;
  mi_len : length (tabh s) = N;
  mi_fits : forall b e, tabb s !! b = Some e -> fits b (val_b e);
  mi_val : forall b e, tabb s !! b = Some e -> b ∉ D -> val_b e = V b;
  mi_at : forall h k, at_place (tabh s) h k -> (M (bof k) \/ (bof k = b0 /\ b0 ∈ D)) /\ exists e, in_chain (tabb s) k e /\ Z.of_nat h = hashv k (val_b e);
  mi_keys : forall k e, M (bof k) -> bof k ∉ D -> in_chain (tabb s) k e -> at_place (tabh s) (Z.to_nat (hashv k (V (bof k)))) k
}.

Lemma mid_ext D D' s : (forall b, b ∈ D <-> b ∈ D') -> mid D s -> mid D' s.
Proof using.
  intros HD [Hst Hlen Hfit Hval Hat Hkeys]. split; [done|done|done| | |].
  - intros b e He Hn. apply (Hval b e He). by rewrite HD.
  - intros h k Hk. rewrite <- HD. by apply Hat.
  - intros k e HM Hn. apply Hkeys; [done|]. by rewrite HD.
Qed.

Lemma mid_good s : mid [] s -> good M s.
Proof using Hst0.
  intros [Hst Hlen Hfit Hval Hat Hkeys]. split; [by rewrite Hst|done|done| |].
  - intros h k Hk. destruct (Hat h k Hk) as [[HM|[_ ?%not_elem_of_nil]] He]; done.
  - intros k e HM Hk. pose proof Hk as (c & Hc & Hkc & He). rewrite (Hval _ _ He) by apply not_elem_of_nil. apply (Hkeys k e); [done|apply not_elem_of_nil|done].
Qed.

Lemma good_mid s : good M s -> static (tabb s) = st0 -> (forall b e, tabb s !! b = Some e -> val_b e = V b) -> mid [] s.
Proof using.
  intros Hg Hst HV. split; [done|apply Hg|apply Hg|auto| |].
  - intros h k Hk. destruct (go_at _ _ Hg h k Hk) as [? ?]. auto.
  - intros k e HM _ Hk. pose proof Hk as (c & Hc & Hkc & He). rewrite <- (HV _ _ He). by eapply go_keys.
Qed.

Lemma mid_move D s s' b e l l' v : mid D s -> b ∉ D -> M b \/ b = b0 -> tabb s !! b = Some e -> chains !! b = Some l -> fits b v -> l' ⊆ l ->
  tabb s' = <[b := set_val v e]> (tabb s) -> length (tabh s') = N ->
  (forall h k, at_place (tabh s') h k <-> (at_place (tabh s) h k /\ ~ (k ∈ l /\ Z.of_nat h = hashv k (val_b e))) \/ (k ∈ l' /\ Z.of_nat h = hashv k v)) ->
  mid (b :: D) s'.
Proof using Hwf.
  intros [Hst Hlen Hfit Hval Hat Hkeys] HbD HM He Hl Hfv Hl' Hb' Hlen' Hat'. assert (Hbl : (b < length (tabb s))%nat) by (by eapply lookup_lt_Some).
  split; [by rewrite Hb', static_set_val|done| | | |].
  - intros b' e'. rewrite Hb'. destruct (decide (b = b')) as [<-|Hne]; [|rewrite list_lookup_insert_ne by done; apply Hfit].
    rewrite list_lookup_insert_eq by done. by intros [= <-].
  - intros b' e'. rewrite Hb', not_elem_of_cons. intros Hb1 [Hne Hn]. rewrite list_lookup_insert_ne in Hb1 by done. by apply Hval.
  - intros h k [[Hk Hn]|[Hk Hh]]%Hat'.
    + destruct (Hat h k Hk) as (HMk & ek & (c' & Hc' & Hkc & Hek) & Hh). split; [destruct HMk as [?|[? ?]]; [by left|right; split; [done|by right]]|].
      exists ek. split; [|done]. rewrite Hb', in_chain_insert by done. right. split; [|by exists c']. intros Hbk. apply Hn. rewrite Hbk in *. split; [congruence|]. congruence.
    + assert (Hkl : k ∈ l) by by apply Hl'. pose proof (chain_bof b l k Hl Hkl) as Hbk. rewrite Hbk.
      split; [destruct HM as [?|?]; [by left|right; split; [done|]; subst b; by left]|]. exists (set_val v e). split; [|done]. rewrite Hb', in_chain_insert by done. by left.
  - intros k e' HMk Hn Hic. apply not_elem_of_cons in Hn as [Hne Hn]. rewrite Hb', in_chain_insert in Hic by done. destruct Hic as [(? & _)|[_ Hic]]; [done|].
    apply Hat'. left. split; [by apply (Hkeys k e')|]. intros [Hk _]. apply Hne. by eapply chain_bof.
Qed.

Lemma mid_unmove D s s' (root : Prop) b e l : mid D s -> M b \/ b = b0 -> (root <-> b = b0) -> tabb s !! b = Some e -> chains !! b = Some l ->
  tabb s' = <[b := set_val (V b) e]> (tabb s) -> length (tabh s') = N ->
  (forall h k, at_place (tabh s') h k <-> (~ root /\ k ∈ l /\ Z.of_nat h = hashv k (V b)) \/
      (at_place (tabh s) h k /\ ~ (k ∈ l /\ Z.of_nat h = hashv k (val_b e)) /\ (root \/ forall k', k' ∈ l -> Z.of_nat h <> hashv k' (V b)))) ->
  mid (list_difference D [b]) s'.
Proof using Hwf Hb0 HVfit Hinj.
  intros [Hst Hlen Hfit Hval Hat Hkeys] HM Hroot He Hl Hb' Hlen' Hat'. assert (Hbl : (b < length (tabb s))%nat) by (by eapply lookup_lt_Some).
  assert (HD : forall b', b' ∉ list_difference D [b] -> b' = b \/ b' ∉ D).
  { intros b' Hn. destruct (decide (b' = b)) as [?|Hne]; [by left|]. right. intros Hin. apply Hn, list_elem_of_difference. split; [done|]. by intros ?%list_elem_of_singleton. }
  split; [by rewrite Hb', static_set_val|done| | | |].
  - intros b' e'. rewrite Hb'. destruct (decide (b = b')) as [<-|Hne]; [|rewrite list_lookup_insert_ne by done; apply Hfit].
    rewrite list_lookup_insert_eq by done. intros [= <-]. apply HVfit. by eapply lookup_lt_Some.
  - intros b' e'. rewrite Hb'. destruct (decide (b = b')) as [<-|Hne]; [rewrite list_lookup_insert_eq by done; by intros [= <-]|].
    rewrite list_lookup_insert_ne by done. intros Hb1 [?|Hn]%HD; [done|by apply Hval].
  - intros h k [(Hnr & Hk & Hh)|(Hk & Hn & Hr)]%Hat'.
    + pose proof (chain_bof b l k Hl Hk) as Hbk. rewrite Hbk. split; [left; destruct HM as [?|?]; [done|tauto]|]. exists (set_val (V b) e). split; [|done].
      rewrite Hb', in_chain_insert by done. by left.
    + destruct (Hat h k Hk) as (HMk & ek & (c' & Hc' & Hkc & Hek) & Hh). assert (Hbk : bof k <> b).
      { intros Hbk. apply Hn. rewrite Hbk in *. split; [congruence|]. congruence. }
      split; [destruct HMk as [?|[Hk0 ?]]; [by left|right; split; [done|]; apply list_elem_of_difference; split; [done|]; intros ?%list_elem_of_singleton; congruence]|].
      exists ek. split; [|done]. rewrite Hb', in_chain_insert by done. right. split; [done|by exists c'].
  - intros k e' HMk Hn Hic. rewrite Hb', in_chain_insert in Hic by done. apply Hat'. destruct Hic as [(Hbk & Hk & ->)|[Hbk Hic]].
    + left. rewrite Hbk in *. split; [intros ->%Hroot; done|]. split; [done|]. rewrite Z2Nat.id; [done|by eapply hashv_nonneg].
    + right. destruct (HD _ Hn) as [?|Hn']; [done|]. split; [by apply (Hkeys k e')|]. split; [intros [Hk _]; apply Hbk; by eapply chain_bof|].
      destruct (decide (b = b0)) as [->|Hne]; [left; by apply Hroot|]. right. intros k' Hk' Heq. destruct HM as [HM|?]; [|done]. destruct Hic as (c1 & Hc1 & Hk1 & _).
      rewrite Z2Nat.id in Heq by (by eapply hashv_nonneg). apply Hbk. pose proof (chain_bof b l k' Hl Hk') as Hbk'.
      rewrite <- Hbk'. f_equal. eapply Hinj; [done|by rewrite Hbk'|done|done|rewrite Hbk'; done|done|by rewrite Hbk'].
Qed.

(** The way from place [ci] of the queue to its root: the entries that [apply] moves. *)
Inductive route (q : list qstuff) : Z -> list nat -> Prop :=
  | route_root : route q 0 []
  | route_step ci c p b l : 0 < ci -> q !! Z.to_nat ci = Some c -> 0 <= parent_q c < ci -> q !! Z.to_nat (parent_q c) = Some p -> b_q p = Some (Z.of_nat b) ->
      (b < length chains)%nat -> M b \/ b = b0 -> (parent_q c = 0 <-> b = b0) -> oldval_q c = V b -> fits b (newval_q c) ->
      route q (parent_q c) l -> route q ci (b :: l).

Lemma route_pos q ci l : route q ci l -> 0 <= ci.
Proof using. destruct 1; lia. Qed.

Lemma route_last q ci l : route q ci l -> 0 < ci -> b0 ∈ l.
Proof using.
  induction 1 as [|ci c p b l Hci Hc Hp Hq Hb Hlt HM Hroot Ho Hf Hr IH]; [lia|]. intros _. apply elem_of_cons.
  destruct (decide (parent_q c = 0)) as [H0|H0]; [left; symmetry; by apply Hroot|right; apply IH; lia].
Qed.

Lemma route_in q ci l b : route q ci l -> b ∈ l -> M b \/ b = b0.
Proof using. induction 1; [by intros ?%not_elem_of_nil|]. by intros [->|?]%elem_of_cons; auto. Qed.

Lemma parent_lookup t b : static t = st0 -> (b < length chains)%nat -> exists e l, t !! b = Some e /\ list_b e = l /\ chains !! b = Some l.
Proof using Hst0.
  intros Hst Hb. destruct (lookup_lt_is_Some_2 chains b Hb) as [l Hl]. assert (Hc : list_b <$> t = chains) by (rewrite <- Hst0, <- Hst; done).
  rewrite <- Hc, list_lookup_fmap in Hl. destruct (t !! b) as [e|] eqn:He; [|done]. injection Hl as Hl. exists e, l. split; [done|]. split; [done|].
  rewrite <- Hc, list_lookup_fmap, He. cbn. by rewrite Hl.
Qed.

Lemma safe_forward fuel ci l s D M' : route (tabq s) ci l -> NoDup l -> (forall b, b ∈ l -> b ∉ D) -> mid D s -> good M' s -> (Z.to_nat ci < fuel)%nat ->
  safe (apply_walk keys scramble fuel false ci) (fun r s' => tabq s' = tabq s /\ if r : bool then static (tabb s') = st0 /\ good (fun b => M' b \/ b ∈ l) s'
    else exists D', mid D' s' /\ forall b, b ∈ D' -> b ∈ D \/ b ∈ l) s.
Proof using Hwf Hst0 HVfit Hb0 Hinj.
  revert ci l s D M'. induction fuel as [|fuel IH]; intros ci l s D M' Hr Hnl HlD Hmid Hgood Hf; [lia|]. cbn [apply_walk].
  destruct Hr as [|ci c p b l Hci Hc Hp Hq Hb Hlt HM Hroot Hold Hfit Hr].
  - rewrite decide_True by done. apply safe_ret. split; [done|]. split; [apply Hmid|]. eapply good_ext; [|done]. intros b. rewrite elem_of_nil. tauto.
  - rewrite decide_False by lia. apply safe_bind. eapply safe_qget; [lia|done|]. apply safe_bind.
    destruct (parent_lookup (tabb s) b) as (e & lb & He & Hle & Hlb); [apply Hmid|done|].
    assert (Hpar : parent_is s c b e lb) by (split; [lia|]; split; [by exists p|done]). apply NoDup_cons in Hnl as [Hbl Hnl].
    eapply safe_mono; [apply (safe_move s c b e lb Hpar); [by eapply mi_fits|done|apply Hmid]|].
    intros r s1 (Hb1 & Hq1 & Hl1 & l' & Hl' & Hrl & Hat1).
    assert (Hmid1 : mid (b :: D) s1) by (eapply mid_move; [exact Hmid|apply HlD; by left|done|exact He|exact Hlb|exact Hfit|exact Hl'|done|done|exact Hat1]).
    destruct r.
    + rewrite (Hrl eq_refl) in Hat1. rewrite <- Hq1 in Hr. eapply safe_mono; [eapply (IH _ l s1 (b :: D) _ Hr Hnl)|].
      * intros y Hy. apply not_elem_of_cons. split; [by intros ->|apply HlD; by right].
      * done.
      * by eapply good_move.
      * lia.
      * intros r s2 [Hq2 Hs2]. split; [congruence|]. destruct r.
        -- destruct Hs2 as [? Hg]. split; [done|]. eapply good_ext; [|exact Hg]. intros y. rewrite elem_of_cons. tauto.
        -- destruct Hs2 as (D' & ? & HD'). exists D'. split; [done|]. intros y Hy. destruct (HD' y Hy) as [[->|?]%elem_of_cons|?]; [right; by left|by left|right; by right].
    + apply safe_ret. split; [done|]. exists (b :: D). split; [done|]. intros y [->|?]%elem_of_cons; [right; by left|by left].
Qed.

Lemma safe_backward fuel ci l s D : route (tabq s) ci l -> mid D s -> (Z.to_nat ci < fuel)%nat ->
  safe (apply_walk keys scramble fuel true ci) (fun r s' => r = true /\ tabq s' = tabq s /\ mid (list_difference D l) s') s.
Proof using Hwf Hst0 HVfit Hb0 Hinj.
  revert ci l s D. induction fuel as [|fuel IH]; intros ci l s D Hr Hmid Hf; [lia|]. cbn [apply_walk].
  destruct Hr as [|ci c p b l Hci Hc Hp Hq Hb Hlt HM Hroot Hold Hfit Hr].
  - rewrite decide_True by done. apply safe_ret. split; [done|]. split; [done|]. eapply mid_ext; [|exact Hmid]. intros b. rewrite list_elem_of_difference, elem_of_nil. tauto.
  - rewrite decide_False by lia. apply safe_bind. eapply safe_qget; [lia|done|]. apply safe_bind.
    destruct (parent_lookup (tabb s) b) as (e & lb & He & Hle & Hlb); [apply Hmid|done|].
    assert (Hpar : parent_is s c b e lb) by (split; [lia|]; split; [by exists p|done]).
    eapply safe_mono; [apply (safe_unmove s c b e lb Hpar); [by eapply mi_fits|rewrite Hold; by apply HVfit|apply Hmid|by eapply cw_nodup]|].
    intros r s1 (-> & Hb1 & Hq1 & Hl1 & Hat1). rewrite Hold in Hb1, Hat1.
    assert (Hmid1 : mid (list_difference D [b]) s1) by (eapply (mid_unmove D s s1 (parent_q c = 0)); done).
    rewrite <- Hq1 in Hr. eapply safe_mono; [apply (IH _ l s1 _ Hr Hmid1); lia|]. intros r s2 (-> & Hq2 & Hmid2). split; [done|]. split; [congruence|].
    eapply mid_ext; [|exact Hmid2]. intros y. rewrite !list_elem_of_difference, !elem_of_cons, elem_of_nil. tauto.
Qed.

(** Applying a path: the item is mapped, or everything is as before. *)
Lemma safe_apply s tail l : route (tabq s) (tail - 1) l -> 1 < tail -> NoDup l -> mid [] s ->
  safe (apply keys scramble tail) (fun r s' => tabq s' = tabq s /\ if r : bool then static (tabb s') = st0 /\ good (fun b => M b \/ b = b0) s' else mid [] s') s.
Proof using Hwf Hst0 HVfit Hb0 Hinj.
  intros Hr Ht Hn Hmid. unfold apply. apply safe_bind.
  eapply safe_mono; [apply (safe_forward _ _ l s [] M Hr Hn); [intros; apply not_elem_of_nil|done|by apply mid_good|lia]|].
  intros r s1 [Hq1 Hs1]. destruct r.
  - apply safe_ret. split; [done|]. destruct Hs1 as [? Hg]. split; [done|]. eapply good_ext; [|exact Hg]. intros b. split; [intros [?|Hb]; [by left|by eapply route_in]|].
    intros [?| ->]; [by left|]. right. eapply route_last; [done|lia].
  - destruct Hs1 as (D' & Hmid' & HD'). rewrite <- Hq1 in Hr. apply safe_bind. eapply safe_mono; [apply (safe_backward _ _ l s1 D' Hr Hmid'); lia|].
    intros r s2 (-> & Hq2 & Hmid2). apply safe_ret. split; [congruence|]. eapply mid_ext; [|exact Hmid2]. intros b. rewrite list_elem_of_difference, elem_of_nil.
    split; [|done]. intros [Hb Hbl]. destruct (HD' b Hb) as [?%not_elem_of_nil|?]; done.
Qed.
End path.

Lemma good_static_same (M' : nat -> Prop) s s' : (forall b, (fun e => (val_b e, list_b e)) <$> tabb s' !! b = (fun e => (val_b e, list_b e)) <$> tabb s !! b) -> tabh s' = tabh s -> good M' s -> good M' s'.
Proof using.
  intros Ht Hh [Hst Hlen Hfit Hat Hkeys].
  assert (Hto : forall b e, tabb s' !! b = Some e -> exists e0, tabb s !! b = Some e0 /\ val_b e = val_b e0 /\ list_b e = list_b e0).
  { intros b e He. specialize (Ht b). rewrite He in Ht. destruct (tabb s !! b) as [e0|]; [|done]. injection Ht as ? ?. by exists e0. }
  split; [|by rewrite Hh| | |].
  - rewrite <- Hst. apply list_eq. intros b. unfold static. cbn [fst]. rewrite !list_lookup_fmap. specialize (Ht b).
    destruct (tabb s' !! b), (tabb s !! b); try done. cbn in *. congruence.
  - intros b e He. destruct (Hto b e He) as (e0 & He0 & -> & _). by apply Hfit.
  - intros h k Hk. rewrite Hh in Hk. destruct (Hat h k Hk) as (HM & e & (c & Hc & Hkc & He) & Hv). split; [done|]. specialize (Ht (bof k)). rewrite He in Ht.
    destruct (tabb s' !! bof k) as [e'|] eqn:He'; [|done]. injection Ht as Hv' _. exists e'. split; [by exists c|]. by rewrite Hv'.
  - intros k e HM (c & Hc & Hkc & He). destruct (Hto _ _ He) as (e0 & He0 & -> & _). rewrite Hh. apply Hkeys; [done|]. by exists c.
Qed.

(** ** The tree in the queue *)
Section tree.
Context (M : nat -> Prop) (b0 : nat) (V : nat -> Z) (highwater : Z).
Context (Hb0 : ~ M b0) (Hb0lt : (b0 < length chains)%nat) (HMlt : forall b, M b -> (b < length chains)%nat).

Definition node (q : list qstuff) (c : Z) (b : nat) : Prop := exists n, q !! Z.to_nat c = Some n /\ b_q n = Some (Z.of_nat b).

(** [n] at place [ci] says how an earlier node may give up its values. *)
Definition edge (q : list qstuff) (ci : Z) (n : qstuff) : Prop :=
  0 <= parent_q n < ci /\ exists b, node q (parent_q n) b /\ oldval_q n = V b /\ fits b (newval_q n).

Record tree (t : list bstuff) (q : list qstuff) (tail : Z) : Prop := {
  tr_tail : 1 <= tail;
  tr_root : node q 0 b0;
  tr_node : forall c, 1 <= c < tail -> exists n b e, q !! Z.to_nat c = Some n /\ b_q n = Some (Z.of_nat b) /\ M b /\ t !! b = Some e /\ water_b e = highwater /\ edge q c n;
  tr_inj : forall c c' b, 0 <= c < tail -> 0 <= c' < tail -> node q c b -> node q c' b -> c = c'
}.

Lemma tree_cases t q tail c : tree t q tail -> 0 <= c < tail -> exists b, node q c b /\ (b < length chains)%nat /\ (M b \/ b = b0) /\ (c = 0 <-> b = b0).
Proof using Hb0 Hb0lt HMlt.
  intros Ht Hc. destruct (decide (c = 0)) as [->|Hne]; [exists b0; split; [apply Ht|]; split; [done|]; split; [by right|done]|].
  destruct (tr_node _ _ _ Ht c) as (n & b & e & Hn & Hb & HM & _); [lia|]. exists b. split; [by exists n|]. split; [auto|]. split; [by left|]. split; [done|]. by intros ->.
Qed.

Lemma node_fun q c b b' : node q c b -> node q c b' -> b = b'.
Proof using. intros (n & Hn & Hb) (n' & Hn' & Hb'). rewrite Hn in Hn'. injection Hn' as <-. rewrite Hb in Hb'. injection Hb' as Hb'. by apply Nat2Z.inj. Qed.

(** The tree holds each entry at most once, so that it fits into the queue. *)
Lemma tree_bound t q tail : tree t q tail -> tail <= Z.of_nat (length chains).
Proof using Hb0 Hb0lt HMlt.
  intros Ht. pose proof (tr_tail _ _ _ Ht). set (f := fun c : nat => match q !! c with Some n => match b_q n with Some b => Z.to_nat b | None => O end | None => O end).
  assert (Hf : forall c b, node q c b -> f (Z.to_nat c) = b) by (intros c b (n & Hn & Hb); unfold f; rewrite Hn, Hb; lia).
  assert (Hsub : f <$> seq 0 (Z.to_nat tail) ⊆+ seq 0 (length chains)).
  { apply NoDup_submseteq.
    - apply NoDup_fmap_2_strong; [|apply NoDup_seq]. intros c c' Hc%elem_of_seq Hc'%elem_of_seq Heq.
      destruct (tree_cases t q tail (Z.of_nat c) Ht) as (b & Hb & _); [lia|]. destruct (tree_cases t q tail (Z.of_nat c') Ht) as (b' & Hb' & _); [lia|].
      pose proof (Hf _ _ Hb) as H1. pose proof (Hf _ _ Hb') as H2. rewrite Nat2Z.id in H1, H2. rewrite H1, H2 in Heq. subst b'.
      apply Nat2Z.inj. apply (tr_inj _ _ _ Ht _ _ b); [lia|lia|done|done].
    - intros b (c & -> & Hc%elem_of_seq)%list_elem_of_fmap. destruct (tree_cases t q tail (Z.of_nat c) Ht) as (b & Hb & Hlt & _); [lia|].
      pose proof (Hf _ _ Hb) as H1. rewrite Nat2Z.id in H1. rewrite H1. apply elem_of_seq. lia. }
  apply submseteq_length in Hsub. rewrite length_fmap, !length_seq in Hsub. lia.
Qed.

(** From any place there is a way to the root, through each entry once. *)
Lemma tree_route_step t q tail ci n l : tree t q tail -> 0 < ci -> q !! Z.to_nat ci = Some n -> edge q ci n -> parent_q n < tail ->
  route M b0 V q (parent_q n) l -> NoDup l -> (forall b, b ∈ l -> exists c, 0 <= c < parent_q n /\ node q c b) ->
  exists b, route M b0 V q ci (b :: l) /\ NoDup (b :: l) /\ forall b', b' ∈ b :: l -> exists c, 0 <= c < ci /\ node q c b'.
Proof using Hb0 Hb0lt HMlt.
  intros Ht Hci Hn (Hp & b & Hb & Ho & Hf) Hpt Hr Hnl Hl. destruct (tree_cases t q tail (parent_q n) Ht) as (b' & Hb' & Hlt & HM & Hroot); [lia|].
  pose proof (node_fun _ _ _ _ Hb Hb') as <-. destruct Hb as (p & Hp' & Hbq). exists b. split; [|split].
  - by eapply route_step.
  - apply NoDup_cons. split; [|done]. intros Hin. destruct (Hl b Hin) as (c & Hc & Hcb). assert (c = parent_q n); [|lia]. eapply (tr_inj _ _ _ Ht); [lia|lia|done|done].
  - intros y [->|Hy]%elem_of_cons; [exists (parent_q n); split; [lia|done]|]. destruct (Hl y Hy) as (c & Hc & Hcb). exists c. split; [lia|done].
Qed.

Lemma tree_route t q tail ci : tree t q tail -> 0 <= ci < tail -> exists l, route M b0 V q ci l /\ NoDup l /\ forall b, b ∈ l -> exists c, 0 <= c < ci /\ node q c b.
Proof using Hb0 Hb0lt HMlt.
  intros Ht Hci. assert (Hind : forall m, (m <= Z.to_nat ci)%nat -> exists l, route M b0 V q (Z.of_nat m) l /\ NoDup l /\ forall b, b ∈ l -> exists c, 0 <= c < Z.of_nat m /\ node q c b).
  { induction m as [m IH] using lt_wf_ind. intros Hm. destruct m as [|m].
    - exists []. split; [constructor|]. split; [constructor|]. by intros b ?%not_elem_of_nil.
    - destruct (tr_node _ _ _ Ht (Z.of_nat (S m))) as (n & b & e & Hn & _ & _ & _ & _ & Hedge); [lia|]. pose proof Hedge as (Hp & _).
      destruct (IH (Z.to_nat (parent_q n))) as (l & Hr & Hnl & Hl); [lia|lia|]. rewrite Z2Nat.id in Hr, Hl by lia.
      destruct (tree_route_step t q tail (Z.of_nat (S m)) n l Ht ltac:(lia) Hn Hedge ltac:(lia) Hr Hnl Hl) as (b' & ? & ? & ?). by exists (b' :: l). }
  destruct (Hind (Z.to_nat ci)) as (l & Hl); [lia|]. rewrite Z2Nat.id in Hl by lia. by exists l.
Qed.

(** ** Trying a value *)
Context (blen limit : Z) (trans : bool) (lens : list Z).
Context (Hlimit : 0 <= limit <= Z.min vmax (Z.of_nat (length scramble))) (Hscr : Z.of_nat (length scramble) <= 2 ^ 16) (Hblen : blen = Z.of_nat (length chains)).

(** The state of the search. *)
Record searching (s : pst) (tail : Z) : Prop := {
  se_good : good M s;
  se_val : forall b e, tabb s !! b = Some e -> val_b e = V b;
  se_lens : listlen_b <$> tabb s = lens;
  se_q : Z.of_nat (length (tabq s)) = blen + 1;
  se_tree : tree (tabb s) (tabq s) tail
}.

Lemma searching_entry s tail b : searching s tail -> (b < length chains)%nat -> exists e l, tabb s !! b = Some e /\ list_b e = l /\ chains !! b = Some l.
Proof using. intros Hs Hb. eapply parent_lookup; [|reflexivity|exact Hb]. apply Hs. Qed.

Definition unexplored (s : pst) (c : Z) : Prop := exists b e, c = Z.of_nat b /\ M b /\ tabb s !! b = Some e /\ water_b e <> highwater.

Lemma safe_probe s tail b l ks i childb : searching s tail -> chains !! b = Some l -> ks ⊆ l -> 0 <= i < Z.of_nat (length scramble) ->
  safe (probe keys scramble (Z.of_nat N) highwater ks i childb) (fun r s' => s' = s /\ forall cb, r = Some cb ->
    (forall k, k ∈ ks -> hashv k i < Z.of_nat N) /\ (cb = childb \/ childb = None /\ exists c, cb = Some c /\ unexplored s c)) s.
Proof using Hwf Hb0 Hb0lt HMlt Hlimit Hscr Hblen.
  intros Hs Hl Hks Hi. revert childb Hks. induction ks as [|k ks IH]; intros childb Hks; cbn [probe].
  - apply safe_ret. split; [done|]. intros cb [= <-]. split; [by intros k ?%not_elem_of_nil|by left].
  - destruct (cons_sub _ _ _ Hks) as [Hk Hks']. apply safe_bind. eapply safe_lift; [by apply arr_sc|].
    apply safe_bind. eapply safe_lift; [by eapply hash_with_Ok|]. case_decide as Hh; [by apply safe_ret|].
    pose proof (hashv_nonneg b l k i Hl Hk) as H0. destruct (tabh_at s (hashv k i)) as [e He]; [apply Hs|lia|].
    apply safe_bind. eapply safe_hget; [done|done|]. destruct e as [ck|].
    + destruct (go_at _ _ (se_good _ _ Hs) _ _ He) as (HMck & eb & (cl & Hcl & Hck & Heb) & _).
      destruct (cw_key Hwf _ _ _ Hcl Hck) as (y & Hy & _ & Hby). apply safe_bind. eapply safe_lift; [unfold kget; by rewrite Hy|]. rewrite Hby. destruct childb as [c|].
      * case_decide as Hc; [by apply safe_ret|]. subst c. eapply safe_mono; [by apply (IH (Some (Z.of_nat (bof ck))))|].
        intros r s' [-> Hr]. split; [done|]. intros cb Hcb. destruct (Hr cb Hcb) as [Hin [->|[? _]]]; [|done]. split; [|by left].
        intros k' [->|Hk']%elem_of_cons; [lia|by apply Hin].
      * apply safe_bind. eapply safe_bget; [lia|by rewrite Nat2Z.id|]. case_decide as Hw; [by apply safe_ret|].
        eapply safe_mono; [by apply (IH (Some (Z.of_nat (bof ck))))|]. intros r s' [-> Hr]. split; [done|]. intros cb Hcb. destruct (Hr cb Hcb) as [Hin [->|[? _]]]; [|done].
        split; [intros k' [->|Hk']%elem_of_cons; [lia|by apply Hin]|]. right. split; [done|]. eexists. split; [done|]. by exists (bof ck), eb.
    + eapply safe_mono; [by apply IH|]. intros r s' [-> Hr]. split; [done|]. intros cb Hcb. destruct (Hr cb Hcb) as [Hin Hcase]. split; [|done].
      intros k' [->|Hk']%elem_of_cons; [lia|by apply Hin].
Qed.

(** ** Adding a child to the tree *)
(** Marking an entry as explored. *)
Definition mark (t : list bstuff) (b : nat) (e : bstuff) : list bstuff := <[b := set_water highwater e]> t.

Lemma mark_same t b e b' : t !! b = Some e -> (fun e => (val_b e, list_b e)) <$> mark t b e !! b' = (fun e => (val_b e, list_b e)) <$> t !! b'.
Proof using Hwf Hb0 Hb0lt HMlt Hlimit Hscr Hblen.
  intros He. unfold mark. destruct (decide (b = b')) as [<-|Hne]; [|by rewrite list_lookup_insert_ne].
  rewrite list_lookup_insert_eq by (by eapply lookup_lt_Some). by rewrite He.
Qed.

Lemma mark_lens t b e : t !! b = Some e -> listlen_b <$> mark t b e = listlen_b <$> t.
Proof using Hwf Hb0 Hb0lt HMlt Hlimit Hscr Hblen. intros He. unfold mark. rewrite list_fmap_insert. cbn. by rewrite list_insert_id by (by rewrite list_lookup_fmap, He). Qed.

(** The new node at the tail. *)
Lemma node_insert_ne q n tail c b : 0 <= c < tail -> node (<[Z.to_nat tail := n]> q) c b <-> node q c b.
Proof using Hwf Hb0 Hb0lt HMlt Hlimit Hscr Hblen. intros Hc. unfold node. rewrite list_lookup_insert_ne by (intros ?%Z2Nat.inj; lia). done. Qed.

Lemma edge_insert q n tail ci n' : ci <= tail -> edge q ci n' -> edge (<[Z.to_nat tail := n]> q) ci n'.
Proof using Hwf Hb0 Hb0lt HMlt Hlimit Hscr Hblen. intros Hci (Hp & b & Hb & Ho & Hf). split; [done|]. exists b. split; [|done]. apply node_insert_ne; [lia|done]. Qed.

Lemma tree_add t q tail n b e : tree t q tail -> (Z.to_nat tail < length q)%nat -> t !! b = Some e -> M b -> water_b e <> highwater -> b_q n = Some (Z.of_nat b) ->
  edge q tail n -> tree (mark t b e) (<[Z.to_nat tail := n]> q) (tail + 1).
Proof using Hwf Hb0 Hb0lt HMlt Hlimit Hscr Hblen.
  intros Ht Hlen He HM Hw Hb Hedge. pose proof (tr_tail _ _ _ Ht) as Htail. assert (Hlt : (b < length t)%nat) by (by eapply lookup_lt_Some).
  assert (Hnew : forall c, 0 <= c < tail + 1 -> node (<[Z.to_nat tail := n]> q) c b -> c = tail).
  { intros c Hc Hcb. destruct (decide (c = tail)) as [->|Hne]; [done|]. apply node_insert_ne in Hcb; [|lia]. exfalso.
    destruct (decide (c = 0)) as [->|Hc0]; [pose proof (node_fun _ _ _ _ Hcb (tr_root _ _ _ Ht)); congruence|].
    destruct (tr_node _ _ _ Ht c) as (n' & b' & e' & Hn' & Hb' & _ & He' & Hw' & _); [lia|]. assert (b' = b) as -> by (eapply node_fun; [by exists n'|exact Hcb]). congruence. }
  assert (Htb : node (<[Z.to_nat tail := n]> q) tail b) by (exists n; by rewrite list_lookup_insert_eq).
  split; [lia|apply node_insert_ne; [lia|apply Ht]| |].
  - intros c Hc. destruct (decide (c = tail)) as [->|Hne].
    + exists n, b, (set_water highwater e). rewrite list_lookup_insert_eq by done. split; [done|]. split; [done|]. split; [done|]. unfold mark. rewrite list_lookup_insert_eq by done.
      split; [done|]. split; [done|]. by apply edge_insert.
    + destruct (tr_node _ _ _ Ht c) as (n' & b' & e' & Hn' & Hb' & HM' & He' & Hw' & Hedge'); [lia|]. exists n', b'. assert (Hbb : b <> b') by (intros ->; congruence).
      exists e'. rewrite list_lookup_insert_ne by (intros ?%Z2Nat.inj; lia). split; [done|]. split; [done|]. split; [done|]. unfold mark. rewrite list_lookup_insert_ne by done.
      split; [done|]. split; [done|]. apply edge_insert; [lia|done].
  - intros c c' y Hc Hc' Hy Hy'. destruct (decide (c = tail)) as [->|Hne].
    + rewrite (node_fun _ _ _ _ Hy Htb) in Hy'. symmetry. by apply Hnew.
    + destruct (decide (c' = tail)) as [->|Hne']; [rewrite (node_fun _ _ _ _ Hy' Htb) in Hy; by apply Hnew|].
      apply node_insert_ne in Hy; [|lia]. apply node_insert_ne in Hy'; [|lia]. apply (tr_inj _ _ _ Ht _ _ y); [lia|lia|done|done].
Qed.

Lemma tree_same t q t' q' tail : tree t q tail -> (forall b e, t !! b = Some e -> exists e', t' !! b = Some e' /\ water_b e' = water_b e) ->
  (forall c, 0 <= c < tail -> q' !! Z.to_nat c = q !! Z.to_nat c) -> tree t' q' tail.
Proof using Hwf Hb0 Hb0lt HMlt Hlimit Hscr Hblen.
  intros Ht Hw Hq. assert (Hn : forall c b, 0 <= c < tail -> node q' c b <-> node q c b) by (intros c b Hc; unfold node; by rewrite Hq).
  pose proof (tr_tail _ _ _ Ht). split; [done|apply Hn; [lia|apply Ht]| |].
  - intros c Hc. destruct (tr_node _ _ _ Ht c Hc) as (n & b & e & Hn' & Hb & HM & He & Hwe & Hp & b' & Hb' & Ho & Hf). destruct (Hw b e He) as (e' & He' & Hwe').
    exists n, b, e'. rewrite Hq by lia. split; [done|]. split; [done|]. split; [done|]. split; [done|]. split; [congruence|]. split; [done|]. exists b'.
    split; [apply Hn; [lia|done]|done].
  - intros c c' b Hc Hc' Hb Hb'. apply Hn in Hb; [|lia]. apply Hn in Hb'; [|lia]. by apply (tr_inj _ _ _ Ht c c' b).
Qed.

Lemma static_water t t' b e : static t' = static t -> t !! b = Some e -> exists e', t' !! b = Some e' /\ water_b e' = water_b e.
Proof using Hwf Hb0 Hb0lt HMlt Hlimit Hscr Hblen.
  intros Hs He. apply (f_equal snd) in Hs. cbn in Hs. assert (Hl : (water_b <$> t') !! b = Some (water_b e)) by by rewrite Hs, list_lookup_fmap, He.
  rewrite list_lookup_fmap in Hl. destruct (t' !! b) as [e'|]; [|done]. injection Hl as Hl. by exists e'.
Qed.

Definition mapped (s : pst) : Prop :=
  good (fun b => M b \/ b = b0) s /\ listlen_b <$> tabb s = lens /\ Z.of_nat (length (tabq s)) = blen + 1.

(** The new node has no child: the path to it is applied. *)
Lemma safe_apply_node s tail n : searching s tail -> edge (tabq s) tail n ->
  let q1 := <[Z.to_nat tail := n]> (tabq s) in
  safe (apply keys scramble (tail + 1)) (fun r s' => if r : bool then mapped s' else
    searching s' tail /\ tabq s' = q1) (Pst (tabb s) (tabh s) q1).
Proof using Hwf Hb0 Hb0lt HMlt Hlimit Hscr Hblen.
  intros Hs Hedge q1. pose proof (se_tree _ _ Hs) as Ht. pose proof (tr_tail _ _ _ Ht) as Htail. pose proof (tree_bound _ _ _ Ht) as Hbound. pose proof (se_q _ _ Hs) as Hlq.
  assert (Ht1 : tree (tabb s) q1 tail).
  { eapply tree_same; [exact Ht|by eauto|]. intros c Hc. unfold q1. rewrite list_lookup_insert_ne; [done|]. intros ?%Z2Nat.inj; lia. }
  assert (Hedge1 : edge q1 tail n) by (apply edge_insert; [lia|done]).
  assert (Hp : 0 <= parent_q n < tail) by apply Hedge1. destruct (tree_route _ _ _ (parent_q n) Ht1 Hp) as (l & Hr & Hnl & Hl).
  destruct (tree_route_step _ _ _ tail n l Ht1 ltac:(lia)) as (b & Hr' & Hnl' & _); [unfold q1; rewrite list_lookup_insert_eq; [done|lia]|done|lia|done|done|done|].
  set (s1 := Pst (tabb s) (tabh s) q1). assert (Hg1 : good M s1) by (apply (good_static_same M s); [done|done|apply Hs]).
  assert (Hent : forall y, (y < length chains)%nat -> exists e l, tabb s !! y = Some e /\ list_b e = l /\ chains !! y = Some l) by (intros y Hy; by eapply searching_entry).
  eapply safe_mono; [apply (safe_apply M b0 V (static (tabb s)) Hb0) with (l := b :: l)|].
  - apply (go_static _ _ (se_good _ _ Hs)).
  - intros y Hy. destruct (Hent y Hy) as (e & _ & He & _). rewrite <- (se_val _ _ Hs y e He). by apply (go_fits _ _ (se_good _ _ Hs)).
  - intros k k' c c' HM HM' Hc Hk Hc' Hk' Heq. destruct (Hent _ (HMlt _ HM)) as (e & _ & He & _), (Hent _ (HMlt _ HM')) as (e' & _ & He' & _).
    apply (good_inj M s k k' e e'); [apply Hs|done|done|by exists c|by exists c'|]. by rewrite (se_val _ _ Hs _ _ He), (se_val _ _ Hs _ _ He').
  - cbn [tabq]. replace (tail + 1 - 1) with tail by lia. exact Hr'.
  - lia.
  - done.
  - apply good_mid; [done|done|apply Hs].
  - intros r s2 [Hq2 Hs2]. cbn [tabq s1] in Hq2. destruct r.
    + destruct Hs2 as [Hst Hg]. split; [done|]. split; [|rewrite Hq2; unfold q1; by rewrite length_insert]. rewrite <- (se_lens _ _ Hs). by apply (f_equal (fun x => x.1.2)) in Hst.
    + split; [|done]. split; [eapply mid_good; [|exact Hs2]; apply (go_static _ _ (se_good _ _ Hs))| | | |].
      * intros y e He. by apply (mi_val _ _ _ _ _ _ Hs2 y e He), not_elem_of_nil.
      * rewrite <- (se_lens _ _ Hs). pose proof (mi_static _ _ _ _ _ _ Hs2) as Hst. by apply (f_equal (fun x => x.1.2)) in Hst.
      * rewrite Hq2. unfold q1. by rewrite length_insert.
      * rewrite Hq2. eapply tree_same; [exact Ht1| |done]. intros y e He. eapply static_water; [apply (mi_static _ _ _ _ _ _ Hs2)|done].
Qed.

(** A child is added and marked. *)
Lemma searching_add s tail n b e : searching s tail -> tabb s !! b = Some e -> M b -> water_b e <> highwater -> b_q n = Some (Z.of_nat b) -> edge (tabq s) tail n ->
  searching (Pst (mark (tabb s) b e) (tabh s) (<[Z.to_nat tail := n]> (tabq s))) (tail + 1).
Proof using Hwf Hb0 Hb0lt HMlt Hlimit Hscr Hblen.
  intros Hs He HM Hw Hb Hedge. pose proof (se_tree _ _ Hs) as Ht. pose proof (tr_tail _ _ _ Ht). pose proof (tree_bound _ _ _ Ht). pose proof (se_q _ _ Hs) as Hlq. split.
  - apply (good_static_same M s); [|done|apply Hs]. intros y. by apply mark_same.
  - intros y ey Hy. cbn [tabb] in Hy. pose proof (mark_same (tabb s) b e y He) as Hm. rewrite Hy in Hm. destruct (tabb s !! y) as [e0|] eqn:He0; [|done].
    injection Hm as Hv _. rewrite Hv. by apply (se_val _ _ Hs).
  - cbn [tabb]. rewrite mark_lens by done. apply Hs.
  - cbn [tabq]. by rewrite length_insert.
  - cbn [tabb tabq]. apply tree_add; try done. lia.
Qed.

Lemma safe_try_values n i q b tail s : searching s tail -> 0 <= q < tail -> node (tabq s) q b -> 0 <= i -> i + Z.of_nat n <= limit ->
  safe (try_values keys scramble (Z.of_nat N) highwater n i q (Z.of_nat b) tail) (fun r s' => if r.1 : bool then mapped s' else searching s' r.2 /\ tail <= r.2) s.
Proof using Hwf Hb0 Hb0lt HMlt Hlimit Hscr Hblen.
  revert i tail s. induction n as [|n IH]; intros i tail s Hs Hq Hnode Hi Hn; cbn [try_values]; [by apply safe_ret|].
  pose proof (se_tree _ _ Hs) as Ht. pose proof (tr_tail _ _ _ Ht) as Htail. pose proof (tree_bound _ _ _ Ht) as Hbound. pose proof (se_q _ _ Hs) as Hlq.
  destruct (tree_cases _ _ _ q Ht Hq) as (b' & Hb' & Hblt & _). rewrite <- (node_fun _ _ _ _ Hnode Hb') in Hblt. clear b' Hb'.
  destruct (searching_entry s tail b Hs Hblt) as (e & l & He & Hle & Hl).
  apply safe_bind. eapply safe_bget; [lia|by rewrite Nat2Z.id|]. apply safe_bind. rewrite Hle.
  eapply safe_mono; [by apply (safe_probe s tail b l l i None Hs Hl); [|lia]|]. intros r s1 [-> Hr]. destruct r as [childb|]; [|apply IH; [done..|lia|lia]].
  destruct (Hr childb eq_refl) as [Hrange Hchild]. assert (Hfit : fits b (i mod 2 ^ 16)).
  { rewrite Z.mod_small by lia. split; [lia|]. intros c k Hc Hk. rewrite Hl in Hc. injection Hc as <-. by apply Hrange. }
  assert (Hval : forall t ey, (t = tabb s \/ exists c ec, t = mark (tabb s) c ec /\ tabb s !! c = Some ec) -> t !! b = Some ey -> val_b ey = V b).
  { intros t ey [->|(c & ec & -> & Hec)] Hy; [by apply (se_val _ _ Hs)|]. pose proof (mark_same _ _ _ b Hec) as Hm. rewrite Hy, He in Hm. injection Hm as Hv _. rewrite Hv.
    by apply (se_val _ _ Hs). }
  destruct Hchild as [->|(_ & c & -> & (bc & ec & -> & HMc & Hec & Hwc))].
  - apply safe_bind, safe_ret. apply safe_bind. eapply safe_bget; [lia|by rewrite Nat2Z.id|]. apply safe_bind, safe_qput; [lia|]. set (nd := Qst _ _ _ _).
    assert (Hedge : edge (tabq s) tail nd) by (split; [cbn; lia|]; exists b; split; [done|]; split; [by apply (Hval (tabb s)); [left|]|done]).
    apply safe_bind. eapply safe_mono; [by apply (safe_apply_node s tail nd Hs Hedge)|]. intros ok s2 Hs2. destruct ok; [by apply safe_ret|].
    destruct Hs2 as [Hs2 Hq2]. apply IH; [done|lia| |lia|lia]. rewrite Hq2. apply node_insert_ne; [lia|done].
  - apply safe_bind, safe_bind. eapply safe_bget; [lia|by rewrite Nat2Z.id|]. apply safe_bput; [apply lookup_lt_Some in Hec; lia|]. rewrite Nat2Z.id. fold (mark (tabb s) bc ec).
    apply safe_bind. assert (He' : exists e', mark (tabb s) bc ec !! b = Some e').
    { apply lookup_lt_is_Some_2. unfold mark. rewrite length_insert. by eapply lookup_lt_Some. }
    destruct He' as [e' He']. eapply safe_bget; [lia|cbn [tabb]; rewrite Nat2Z.id; exact He'|]. apply safe_bind, safe_qput; [cbn [tabq]; lia|]. set (nd := Qst _ _ _ _).
    assert (Hedge : edge (tabq s) tail nd) by (split; [cbn; lia|]; exists b; split; [done|]; split; [by apply (Hval (mark (tabb s) bc ec)); [right; eauto|]|done]).
    eapply safe_mono; [apply (IH (i + 1) (tail + 1)); [exact (searching_add s tail nd bc ec Hs Hec HMc Hwc eq_refl Hedge)|lia| |lia|lia]|].
    + cbn [tabq]. apply node_insert_ne; [lia|done].
    + intros [[] tl] s2; cbn [fst snd]; [done|]. intros [? ?]. split; [done|lia].
Qed.

Lemma safe_spread fuel q tail s : searching s tail -> 0 <= q -> (Z.to_nat (blen - q) < fuel)%nat ->
  safe (spread keys scramble limit (Z.of_nat N) highwater trans fuel q tail) (fun r s' => if r : bool then mapped s' else exists tail', searching s' tail') s.
Proof using Hwf Hb0 Hb0lt HMlt Hlimit Hscr Hblen.
  revert q tail s. induction fuel as [|fuel IH]; intros q tail s Hs Hq Hf; [lia|]. cbn [spread].
  case_decide as Hqt; [apply safe_ret; by exists tail|]. case_decide as Htr; [apply safe_ret; by exists tail|].
  pose proof (se_tree _ _ Hs) as Ht. pose proof (tree_bound _ _ _ Ht) as Hbound. destruct (tree_cases _ _ _ q Ht) as (b & (nd & Hnd & Hbq) & _); [lia|].
  apply safe_bind. eapply safe_qget; [done|exact Hnd|]. rewrite Hbq. apply safe_bind.
  eapply safe_mono; [apply (safe_try_values (Z.to_nat limit) 0 q b tail s Hs); [lia|by exists nd|lia|lia]|].
  intros [[] tail'] s' Hs'; cbn [fst snd] in *; [by apply safe_ret|]. destruct Hs' as [Hs' Htt]. apply IH; [done|lia|lia].
Qed.
End tree.

(** ** Mapping one entry *)
(** The working state between two entries: [M] are the entries that have been mapped. *)
Record ready (blen : Z) (lens : list Z) (M : nat -> Prop) (s : pst) : Prop := {
  re_good : good M s;
  re_lens : listlen_b <$> tabb s = lens;
  re_q : Z.of_nat (length (tabq s)) = blen + 1
}.

Lemma safe_augment blen smax nkeys form lens M b hw s : ready blen lens M s -> blen = Z.of_nat (length chains) -> (b < length chains)%nat -> ~ M b -> (forall y, M y -> (y < length chains)%nat) ->
  Z.of_nat (length scramble) = 2 ^ 16 -> 0 <= smax -> (blen < USE_SCRAMBLE -> smax <= 2 ^ 16) -> Z.of_nat N = (if decide (f_perfect form = MINIMAL_HP) then nkeys else smax) -> val_limit blen smax <= vmax ->
  safe (augment keys scramble blen smax nkeys form (Z.of_nat b) hw) (fun r s' => if r : bool then ready blen lens (fun y => M y \/ y = b) s' else ready blen lens M s') s.
Proof using Hwf.
  intros [Hg Hlens Hq] Hbl Hb HMb HMlt Hscr Hs0 Hsm HN Hvm. unfold augment. rewrite <- HN. fold (val_limit blen smax). set (limit := val_limit blen smax) in *.
  assert (Hlim : 0 <= limit <= Z.min vmax (Z.of_nat (length scramble))) by (rewrite Hscr; unfold limit, val_limit in *; destruct (decide (blen < USE_SCRAMBLE)); [specialize (Hsm ltac:(done)); lia|unfold UB1MAXVAL in *; lia]).
  destruct (lookup_lt_is_Some_2 (tabq s) 0) as [root Hroot]; [lia|]. apply safe_bind. eapply safe_qget; [lia|exact Hroot|]. apply safe_bind, safe_qput; [lia|].
  set (nd := Qst _ _ _ _). set (s1 := Pst _ _ _). set (V := fun y => default 0 (val_b <$> tabb s !! y)).
  assert (Hs1 : searching M b V hw blen lens s1 1).
  { split; [by apply (good_static_same M s)| |exact Hlens|unfold s1; cbn; by rewrite length_insert|].
    - intros y e He. unfold V. cbn in He. by rewrite He.
    - split; [lia|exists nd; split; [cbn; rewrite list_lookup_insert_eq; [done|lia]|done]|lia|]. intros c c' y Hc Hc'. lia. }
  eapply safe_mono; [apply (safe_spread M b V hw HMb Hb HMlt blen limit _ lens Hlim ltac:(lia) Hbl (S (Z.to_nat blen + 1)) 0 1 s1 Hs1); lia|].
  intros r s2 Hs2. destruct r; [destruct Hs2 as (? & ? & ?); by split|]. destruct Hs2 as [tail' [? _ ? ? _]]. by split.
Qed.
End table.

(** ** All entries *)
Lemma ready_ext keys scramble chains N vmax blen lens M M' s : (forall b, M b <-> M' b) -> ready keys scramble chains N vmax blen lens M s -> ready keys scramble chains N vmax blen lens M' s.
Proof. intros HM []. split; [by eapply good_ext|done|done]. Qed.

(** The entries with more than [j] keys, and those before [i] with [j]. *)
Definition row (lens : list Z) (j : Z) (i : nat) (b : nat) : Prop := exists n, lens !! b = Some n /\ (j < n \/ n = j /\ (b < i)%nat).

Section rows.
Context (keys : list key) (scramble : list Z) (chains : list (list nat)) (N : nat) (blen smax nkeys : Z) (form : hashform) (lens : list Z).
Context (Hwf : chains_wf keys scramble chains) (Hbl : blen = Z.of_nat (length chains)) (Hscr : Z.of_nat (length scramble) = 2 ^ 16) (Hs0 : 0 <= smax).
Context (Hsm : blen < USE_SCRAMBLE -> smax <= 2 ^ 16) (HN : Z.of_nat N = if decide (f_perfect form = MINIMAL_HP) then nkeys else smax).
Context (Hlens : length lens = length chains).

Lemma row_lt j i b : row lens j i b -> (b < length chains)%nat.
Proof using Hlens. intros (n & Hn & _). rewrite <- Hlens. by eapply lookup_lt_Some. Qed.

Lemma safe_map_row n j i s : (i + n = length chains)%nat -> ready keys scramble chains N (val_limit blen smax) blen lens (row lens j i) s ->
  safe (map_row keys scramble n blen smax nkeys form j (Z.of_nat i)) (fun r s' => if r : bool then ready keys scramble chains N (val_limit blen smax) blen lens (row lens j (length chains)) s'
    else exists M, ready keys scramble chains N (val_limit blen smax) blen lens M s') s.
Proof using Hwf Hbl Hscr Hs0 Hsm HN Hlens.
  revert i s. induction n as [|n IH]; intros i s Hi Hr; cbn [map_row]; [apply safe_ret; by replace (length chains) with i by lia|].
  destruct (lookup_lt_is_Some_2 lens i) as [z Hz]; [lia|]. assert (Hb : exists b, tabb s !! i = Some b /\ listlen_b b = z).
  { pose proof Hz as Hz'. rewrite <- (re_lens _ _ _ _ _ _ _ _ _ Hr), list_lookup_fmap in Hz'. destruct (tabb s !! i) as [b|]; [|done]. injection Hz' as Hz'. by exists b. }
  destruct Hb as (b & Hb & Hlb). apply safe_bind. eapply safe_bget; [lia|by rewrite Nat2Z.id|]. rewrite Hlb. apply safe_bind.
  assert (Hnext : forall M s', (forall y, M y <-> row lens j (S i) y) -> ready keys scramble chains N (val_limit blen smax) blen lens M s' ->
    safe (map_row keys scramble n blen smax nkeys form j (Z.of_nat i + 1)) (fun r s' => if r : bool then ready keys scramble chains N (val_limit blen smax) blen lens (row lens j (length chains)) s'
      else exists M, ready keys scramble chains N (val_limit blen smax) blen lens M s') s').
  { intros M s' HM Hr'. replace (Z.of_nat i + 1) with (Z.of_nat (S i)) by lia. apply IH; [lia|]. by eapply ready_ext. }
  destruct (decide (z = j)) as [Hj|Hj].
  - eapply safe_mono; [apply (safe_augment keys scramble chains N (val_limit blen smax) Hwf blen smax nkeys form lens (row lens j i) i); [exact Hr|done|lia| |apply row_lt|done..]|].
    + intros (m & Hm & Hc). rewrite Hz in Hm. injection Hm as <-. lia.
    + intros r s' Hs'. destruct r; [|apply safe_ret; by eexists]. eapply Hnext; [|exact Hs']. intros y. split.
      * intros [(m & Hm & Hc)| ->]; [exists m; split; [done|]; destruct Hc as [?|[? ?]]; [by left|right; split; [done|lia]]|exists j; split; [by rewrite Hz, Hj|]; right; split; [done|lia]].
      * intros (m & Hm & Hc). destruct (decide (y = i)) as [?|Hne]; [by right|left]. exists m. split; [done|]. destruct Hc as [?|[? ?]]; [by left|right; split; [done|lia]].
  - apply safe_ret. eapply Hnext; [|exact Hr]. intros y. split; intros (m & Hm & Hc); exists m; (split; [done|]); (destruct Hc as [?|[? ?]]; [by left|right; split; [done|]]); [lia|].
    destruct (decide (y = i)) as [->|Hne]; [|lia]. rewrite Hz in Hm. congruence.
Qed.

Lemma safe_map_rows j s : ready keys scramble chains N (val_limit blen smax) blen lens (row lens (Z.of_nat j) 0) s ->
  safe (map_rows keys scramble j blen smax nkeys form) (fun r s' => if r : bool then ready keys scramble chains N (val_limit blen smax) blen lens (row lens 0 0) s'
    else exists M, ready keys scramble chains N (val_limit blen smax) blen lens M s') s.
Proof using Hwf Hbl Hscr Hs0 Hsm HN Hlens.
  revert s. induction j as [|j IH]; intros s Hr; cbn [map_rows]; [by apply safe_ret|]. apply safe_bind.
  eapply safe_mono; [apply (safe_map_row (Z.to_nat blen) (Z.of_nat (S j)) 0 s); [lia|done]|].
  intros r s' Hs'. destruct r; [|by apply safe_ret]. apply IH. eapply ready_ext; [|exact Hs']. intros b. split.
  - intros (m & Hm & Hc). exists m. split; [done|]. left. destruct Hc as [?|[? ?]]; lia.
  - intros (m & Hm & Hc). exists m. split; [done|]. apply lookup_lt_Some in Hm. destruct (decide (m = Z.of_nat (S j))); [right; split; [done|lia]|left; lia].
Qed.
End rows.

(** ** The chains that [inittab] makes *)
Section inittab.
Context (keys : list key) (blen : Z) (form : hashform).

(** The keys below [n] are in the chains. *)
Record tabled (n : nat) (t : list bstuff) : Prop := {
  ta_len : length t = Z.to_nat blen;
  ta_entry : forall b e, t !! b = Some e -> val_b e = 0 /\ NoDup (list_b e) /\ listlen_b e = Z.of_nat (length (list_b e));
  ta_in : forall b e k, t !! b = Some e -> k ∈ list_b e -> (k < n)%nat /\ exists y, keys !! k = Some y /\ b_k y = Z.of_nat b;
  ta_all : forall k y, (k < n)%nat -> keys !! k = Some y -> 0 <= b_k y /\ exists e, t !! Z.to_nat (b_k y) = Some e /\ k ∈ list_b e;
  ta_a : forall b e k k', t !! b = Some e -> k ∈ list_b e -> k' ∈ list_b e -> a_k <$> keys !! k = a_k <$> keys !! k' -> k = k'
}.

Lemma collide_ok mykey others nc r : collide keys form false mykey others nc = Ok (Some r) ->
  r = nc /\ forall o y, o ∈ others -> keys !! o = Some y -> a_k mykey <> a_k y.
Proof using.
  induction others as [|o others IH]; cbn [collide]; [intros [= ->]; split; [done|]; by intros o y ?%not_elem_of_nil|].
  unfold kget. destruct (keys !! o) as [y|] eqn:Ho; [|done]. cbn [from_option_fault mbind result_bind]. case_decide as Ha.
  - destruct (checkdup form mykey y); [|done]. discriminate.
  - intros H. destruct (IH H) as [-> Hr]. split; [done|]. intros o' y' [->|Hin]%elem_of_cons Hy'; [congruence|by eapply Hr].
Qed.

Lemma arr_inv {A} (l : list A) i x : arr l i = Ok x -> 0 <= i /\ l !! Z.to_nat i = Some x.
Proof using. unfold arr. case_decide as H0; [|done]. intros Hx%from_option_fault_Ok. done. Qed.

Lemma tabled_step n t mykey b : tabled n t -> keys !! n = Some mykey -> arr t (b_k mykey) = Ok b -> Z.of_nat (length keys) < 2 ^ 32 ->
  (forall o y, o ∈ list_b b -> keys !! o = Some y -> a_k mykey <> a_k y) ->
  tabled (S n) (<[Z.to_nat (b_k mykey) := Bst (val_b b) (n :: list_b b) (u32 (listlen_b b + 1)) (water_b b)]> t).
Proof using.
  intros [Hlen Hentry Hin Hall Ha] Hk [Hb0 Hb]%arr_inv Hsmall Hdist. set (i := Z.to_nat (b_k mykey)) in *. assert (Hi : (i < length t)%nat) by (by eapply lookup_lt_Some).
  destruct (Hentry i b Hb) as (Hv & Hnd & Hl). assert (Hnb : n ∉ list_b b) by (intros Hn; destruct (Hin _ _ _ Hb Hn); lia).
  assert (Hcount : (length (list_b b) <= n)%nat).
  { rewrite <- (length_seq n 0). apply submseteq_length, NoDup_submseteq; [done|]. intros k Hkb. apply elem_of_seq. destruct (Hin _ _ _ Hb Hkb). lia. }
  assert (Hnk : (n < length keys)%nat) by (by eapply lookup_lt_Some).
  assert (Hat : forall j e, <[i := Bst (val_b b) (n :: list_b b) (u32 (listlen_b b + 1)) (water_b b)]> t !! j = Some e ->
    (j = i /\ e = Bst (val_b b) (n :: list_b b) (u32 (listlen_b b + 1)) (water_b b)) \/ (j <> i /\ t !! j = Some e)).
  { intros j e He. destruct (decide (i = j)) as [<-|Hne]; [left|right; by rewrite list_lookup_insert_ne in He].
    rewrite list_lookup_insert_eq in He by done. by injection He as <-. }
  split; [by rewrite length_insert| | | |].
  - intros j e [[-> ->]|[? He]]%Hat; [|by eapply Hentry]. cbn. split; [done|]. split; [by apply NoDup_cons|]. rewrite Hl, u32_small by lia. lia.
  - intros j e k [[-> ->]|[? He]]%Hat Hkj; [|destruct (Hin _ _ _ He Hkj); split; [lia|done]]. cbn in Hkj. apply elem_of_cons in Hkj as [->|Hkj].
    + split; [lia|]. exists mykey. split; [done|]. unfold i. lia.
    + destruct (Hin _ _ _ Hb Hkj). split; [lia|done].
  - intros k y Hkn Hy. destruct (decide (k = n)) as [->|Hne].
    + rewrite Hk in Hy. injection Hy as <-. split; [done|]. eexists. split; [by apply list_lookup_insert_eq|]. by left.
    + destruct (Hall k y) as (H0 & e & He & Hke); [lia|done|]. split; [done|]. destruct (decide (i = Z.to_nat (b_k y))) as [Hij|Hij]; [|exists e; by rewrite list_lookup_insert_ne].
      rewrite <- Hij in *. eexists. split; [by apply list_lookup_insert_eq|]. rewrite Hb in He. injection He as <-. by right.
  - intros j e k k' [[-> ->]|[? He]]%Hat; [|by eapply Ha]. cbn. intros Hk1 Hk2 Heq. apply elem_of_cons in Hk1 as [->|Hk1], Hk2 as [->|Hk2]; [done| | |by eapply (Ha i b)].
    + destruct (Hin _ _ _ Hb Hk2) as (_ & y & Hy & _). rewrite Hk, Hy in Heq. cbn in Heq. injection Heq as Heq. by destruct (Hdist _ _ Hk2 Hy).
    + destruct (Hin _ _ _ Hb Hk1) as (_ & y & Hy & _). rewrite Hk, Hy in Heq. cbn in Heq. injection Heq as Heq. by destruct (Hdist _ _ Hk1 Hy).
Qed.

Lemma inittab_loop_ok m n t t' : (n + m = length keys)%nat -> Z.of_nat (length keys) < 2 ^ 32 -> tabled n t ->
  inittab_loop keys form false (seq n m) true t = Ok (true, t') -> tabled (length keys) t'.
Proof using.
  revert n t. induction m as [|m IH]; intros n t Hnm Hsmall Ht; cbn [seq inittab_loop]; [intros [= <-]; by replace (length keys) with n by lia|].
  unfold kget. destruct (lookup_lt_is_Some_2 keys n) as [y Hy]; [lia|]. rewrite Hy. cbn [from_option_fault]. intros H. cbn [mbind result_bind] in H.
  apply result_bind_Ok in H as (b & Hb & H). apply result_bind_Ok in H as (r & Hr & H). destruct r as [nc|]; [|done]. destruct (collide_ok _ _ _ _ Hr) as [-> Hdist].
  apply result_bind_Ok in H as (t1 & Ht1 & H). unfold arr_put in Ht1. case_decide; [|done]. injection Ht1 as <-. eapply (IH (S n)); [lia|done| |exact H]. by apply tabled_step.
Qed.

Lemma inittab_tabled t : Z.of_nat (length keys) < 2 ^ 32 -> inittab keys blen form false = Ok (true, t) -> tabled (length keys) t.
Proof using.
  intros Hsmall H. eapply (inittab_loop_ok (length keys) 0); [done|done| |exact H].
  split; [by rewrite length_replicate| | | |]; [|..|by intros; lia|].
  - intros b e [-> _]%lookup_replicate. split; [done|]. split; [constructor|done].
  - intros b e k [-> _]%lookup_replicate ?%not_elem_of_nil. done.
  - intros b e k k' [-> _]%lookup_replicate ?%not_elem_of_nil. done.
Qed.
End inittab.

(** ** The whole table *)
Lemma maxkeys_le (t : list bstuff) b e : t !! b = Some e -> listlen_b e <= maxkeys t.
Proof.
  unfold maxkeys. assert (Hm : forall l m, m <= foldl (fun m b => if decide (m < listlen_b b) then listlen_b b else m) m l).
  { induction l as [|x l IH]; intros m; cbn; [lia|]. case_decide; [|apply IH]. specialize (IH (listlen_b x)). lia. }
  generalize 0. revert b. induction t as [|x t IH]; intros b m Hb; [done|]. destruct b as [|b]; cbn in *; [|by eapply IH].
  injection Hb as ->. case_decide; [apply Hm|]. specialize (Hm t m). lia.
Qed.

Lemma tabled_wf keys scramble blen t : Forall (fun z => 0 <= z) scramble -> Forall (fun y => 0 <= a_k y) keys -> tabled keys blen (length keys) t ->
  chains_wf keys scramble (list_b <$> t).
Proof.
  intros Hs Ha [Hlen Hentry Hin Hall Hdist].
  assert (Hc : forall b c, (list_b <$> t) !! b = Some c -> exists e, t !! b = Some e /\ c = list_b e).
  { intros b c Hb. rewrite list_lookup_fmap in Hb. destruct (t !! b) as [e|]; [|done]. injection Hb as <-. by exists e. }
  split; [done| | |].
  - intros b c k (e & He & ->)%Hc Hk. destruct (Hin _ _ _ He Hk) as (_ & y & Hy & Hb). exists y. split; [done|]. split; [|done].
    apply (proj1 (Forall_forall _ _) Ha). by eapply list_elem_of_lookup_2.
  - intros b c (e & He & ->)%Hc. by apply (Hentry b e).
  - intros b c k k' (e & He & ->)%Hc. by eapply Hdist.
Qed.

(** The hash that the generated function computes. *)
Definition final_hash (scramble : list Z) (t : list bstuff) (y : key) : result Z :=
  e ← arr t (b_k y); s ← arr scramble (val_b e); Ok (Z.lxor (a_k y) s).

(** No two keys have one hash, and all hashes are below [n]. *)
Definition perfect_for (keys : list key) (n : Z) (h : key -> result Z) : Prop :=
  (forall y, y ∈ keys -> exists v, h y = Ok v /\ 0 <= v < n) /\
  (forall k k' y y', keys !! k = Some y -> keys !! k' = Some y' -> h y = h y' -> k = k').

Lemma ready_perfect keys scramble blen t N vmax lens s : tabled keys blen (length keys) t -> chains_wf keys scramble (list_b <$> t) ->
  lens = listlen_b <$> t -> ready keys scramble (list_b <$> t) N vmax blen lens (row lens 0 0) s -> perfect_for keys (Z.of_nat N) (final_hash scramble (tabb s)).
Proof.
  intros Ht Hwf -> [Hg Hl Hq]. pose proof (go_static _ _ _ _ _ _ _ Hg) as Hst. cbn [static fst] in Hst.
  assert (Hkey : forall k y, keys !! k = Some y -> exists e, row (listlen_b <$> t) 0 0 (bof keys k) /\ in_chain keys (list_b <$> t) (tabb s) k e /\
    final_hash scramble (tabb s) y = Ok (hashv keys scramble k (val_b e)) /\ 0 <= hashv keys scramble k (val_b e) < Z.of_nat N).
  { intros k y Hy. destruct (ta_all _ _ _ _ Ht k y) as (Hb0 & e0 & He0 & Hk0); [by eapply lookup_lt_Some|done|]. set (b := Z.to_nat (b_k y)) in *.
    assert (Hbof : bof keys k = b) by (unfold bof; by rewrite Hy). assert (Hc0 : (list_b <$> t) !! b = Some (list_b e0)) by by rewrite list_lookup_fmap, He0.
    assert (He : exists e, tabb s !! b = Some e).
    { apply lookup_lt_is_Some_2. rewrite <- (length_fmap list_b), Hst, length_fmap. by eapply lookup_lt_Some. }
    destruct He as [e He]. pose proof (go_fits _ _ _ _ _ _ _ Hg b e He) as Hfit. exists e. split; [|split; [|split]].
    - rewrite Hbof. exists (listlen_b e0). rewrite list_lookup_fmap, He0. split; [done|]. left. destruct (ta_entry _ _ _ _ Ht b e0 He0) as (_ & _ & ->).
      destruct (list_b e0); [by apply not_elem_of_nil in Hk0|cbn; lia].
    - exists (list_b e0). by rewrite Hbof.
    - unfold final_hash. rewrite (arr_Ok _ _ e) by (try done; lia). cbn [mbind result_bind]. erewrite arr_scramble by done. cbn [mbind result_bind]. unfold hashv. by rewrite Hy.
    - split; [by eapply hashv_nonneg|by eapply Hfit]. }
  split.
  - intros y [k Hk]%list_elem_of_lookup. destruct (Hkey k y Hk) as (e & _ & _ & Hh & Hr). by eexists.
  - intros k k' y y' Hk Hk' Heq. destruct (Hkey k y Hk) as (e & Hrow & Hin & Hh & _), (Hkey k' y' Hk') as (e' & Hrow' & Hin' & Hh' & _).
    eapply (good_inj keys scramble (list_b <$> t) N vmax _ s k k' e e'); [exact Hg|done..|]. congruence.
Qed.

(** The tables that [perfect] works on: the chains and the counts are those of [t], the sizes
    what was allocated, and every value keeps the keys in range. *)
Record tables (keys : list key) (scramble : list Z) (blen smax nkeys : Z) (form : hashform) (t : list bstuff) (s : pst) : Prop := {
  tb_chains : list_b <$> tabb s = list_b <$> t;
  tb_lens : listlen_b <$> tabb s = listlen_b <$> t;
  tb_tabh : Z.of_nat (length (tabh s)) = if decide (f_perfect form = MINIMAL_HP) then nkeys else smax;
  tb_tabq : Z.of_nat (length (tabq s)) = blen + 1;
  tb_fits : forall b e, tabb s !! b = Some e -> fits keys scramble (list_b <$> t) (length (tabh s)) (val_limit blen smax) b (val_b e)
}.

Section perfect.
Context (keys : list key) (scramble : list Z) (blen smax nkeys : Z) (form : hashform).
Context (Hscr : Z.of_nat (length scramble) = SCRAMBLE_LEN) (Hpos : Forall (fun z => 0 <= z) scramble) (Hkeys : Forall (fun y => 0 <= a_k y) keys).
Context (Hsmax : 0 <= smax) (Hsmall : blen < USE_SCRAMBLE -> smax <= SCRAMBLE_LEN) (Hblen : 0 <= blen).

Lemma safe_perfect t s : tabled keys blen (length keys) t -> tables keys scramble blen smax nkeys form t s ->
  safe (perfect keys scramble blen smax nkeys form) (fun r s' => tables keys scramble blen smax nkeys form t s' /\
    (r = true -> perfect_for keys (Z.of_nat (length (tabh s))) (final_hash scramble (tabb s')))) s.
Proof using Hscr Hpos Hkeys Hsmax Hsmall Hblen.
  intros Ht [Hch Hln HN Hq Hfit]. pose proof (tabled_wf keys scramble blen t Hpos Hkeys Ht) as Hwf. set (N := length (tabh s)) in *.
  assert (Hlt : length (list_b <$> t) = Z.to_nat blen) by (rewrite length_fmap; apply Ht).
  unfold perfect. apply safe_bind, safe_get. rewrite <- HN. apply safe_bind. eapply safe_lift.
  { unfold clear. rewrite decide_False by lia. reflexivity. }
  apply safe_bind. eapply safe_lift; [unfold clear; rewrite decide_False by lia; reflexivity|]. apply safe_bind.
  set (s1 := Pst _ _ _). apply (safe_mono _ (fun _ s' => s' = s1)); [done|]. intros _ s0 ->.
  assert (Hr : ready keys scramble (list_b <$> t) N (val_limit blen smax) blen (listlen_b <$> t) (row (listlen_b <$> t) (Z.of_nat (Z.to_nat (maxkeys (tabb s)))) 0) s1).
  { split; [|exact Hln|cbn; rewrite length_app, length_replicate, length_drop; lia].
    assert (Hnone : forall h k, ~ at_place (tabh s1) h k).
    { intros h k Hk. unfold at_place in Hk. cbn in Hk. rewrite drop_ge in Hk by (unfold N; lia). rewrite app_nil_r in Hk. by apply lookup_replicate in Hk as [? _]. }
    assert (Hrow : forall b, ~ row (listlen_b <$> t) (Z.of_nat (Z.to_nat (maxkeys (tabb s)))) 0 b).
    { intros b (n & Hn & Hc). rewrite <- Hln, list_lookup_fmap in Hn. destruct (tabb s !! b) as [e|] eqn:He; [|done]. injection Hn as <-. pose proof (maxkeys_le _ _ _ He). lia. }
    split; [exact Hch|cbn; rewrite length_app, length_replicate, length_drop; unfold N; lia|exact Hfit| |].
    - intros h k Hk. by destruct (Hnone h k).
    - intros k e Hk. by destruct (Hrow (bof keys k)). }
  eapply safe_mono; [apply (safe_map_rows keys scramble (list_b <$> t) N blen smax nkeys form (listlen_b <$> t) Hwf); [lia|exact Hscr|done|exact Hsmall|exact HN|by rewrite !length_fmap|exact Hr]|].
  assert (Hback : forall M s', ready keys scramble (list_b <$> t) N (val_limit blen smax) blen (listlen_b <$> t) M s' -> tables keys scramble blen smax nkeys form t s').
  { intros M s' [Hg Hl' Hq']. pose proof (go_len _ _ _ _ _ _ _ Hg) as Hlen'. split; [apply Hg|done|by rewrite Hlen'|done|rewrite Hlen'; apply Hg]. }
  intros r s2 Hs2. destruct r; [|destruct Hs2 as [M Hs2]; split; [by eapply Hback|done]]. split; [by eapply Hback|]. intros _. eapply (ready_perfect keys scramble blen t); [done|done|reflexivity|exact Hs2].
Qed.
End perfect.
