(* ===== verification/PerfectSpec.v ===== *)
(** * The perfect hash: what is built is a perfect hash

    The scramble values come from a permutation, and [perfect] of perfect.c, run on the table
    that [inittab] has filled, never leaves its arrays, always ends, and when it succeeds the
    hash a ^ scramble[tab[b]] of every key is in range and different from those of the others. *)
From S2P Require Import Prelude CLib Word Perfect PerfectOk.

#[local] Open Scope Z_scope.

(** ** The permutation *)
Lemma mask_mod x n : 0 <= n -> Z.land x (Z.shiftl 1 n - 1) = x mod 2 ^ n.
Proof. intros Hn. rewrite Z.shiftl_1_l. replace (2 ^ n - 1) with (Z.ones n) by (rewrite Z.ones_equiv; lia). by apply Z.land_ones. Qed.

Lemma u32_mod_pow z n : 0 <= n <= 32 -> u32 z mod 2 ^ n = z mod 2 ^ n.
Proof.
  intros Hn. unfold u32. replace (2 ^ 32) with (2 ^ n * 2 ^ (32 - n)) by (rewrite <- Z.pow_add_r by lia; f_equal; lia).
  assert (0 < 2 ^ n) by (apply Z.pow_pos_nonneg; lia). rewrite Z.rem_mul_r by (try apply Z.pow_nonzero; lia || (apply Z.pow_pos_nonneg; lia)).
  rewrite (Z.mul_comm (2 ^ n)), Z_mod_plus_full. by rewrite Z.mod_mod by lia.
Qed.

(** The two halves of a round: shift and add under the mask, then shift and exclusive or. *)
Definition half (n c d x : Z) : Z := let x := Z.land (u32 (x + u32 (Z.shiftl x c))) (Z.shiftl 1 n - 1) in Z.lxor x (Z.shiftr x d).

Lemma permute_round_halves n x : permute_round n x = half n (1 + n / 4) (1 + n / 5) (half n (1 + n / 2) (1 + n / 3) x).
Proof. done. Qed.

Section half.
Context (n c d : Z) (Hn : 0 <= n <= 32) (Hc : 0 < c) (Hd : 0 < d).

Lemma half_mod x : half n c d x = Z.lxor ((x + Z.shiftl x c) mod 2 ^ n) (Z.shiftr ((x + Z.shiftl x c) mod 2 ^ n) d).
Proof using Hn.
  unfold half. rewrite mask_mod by lia. rewrite u32_mod_pow by lia.
  rewrite (Z.add_mod x (u32 _)), u32_mod_pow, <- Z.add_mod by (try apply Z.pow_nonzero; lia). done.
Qed.

Lemma half_bound x : 0 <= half n c d x < 2 ^ n.
Proof using Hn Hd.
  rewrite half_mod. assert (Hm : 0 <= (x + Z.shiftl x c) mod 2 ^ n < 2 ^ n) by (apply Z.mod_pos_bound, Z.pow_pos_nonneg; lia).
  apply lxor_bound; [lia|done|]. apply shiftr_bound; lia.
Qed.

Lemma half_inj x y : 0 <= x < 2 ^ n -> 0 <= y < 2 ^ n -> half n c d x = half n c d y -> x = y.
Proof using Hn Hc Hd.
  intros Hx Hy. rewrite !half_mod. assert (0 < 2 ^ n) by (apply Z.pow_pos_nonneg; lia).
  intros Heq%lxor_shiftr_inj; [|apply Z.mod_pos_bound; lia..|done]. by apply add_shiftl_inj in Heq; try lia.
Qed.
End half.

Lemma permute_round_bound n x : 0 <= n <= 32 -> 0 <= permute_round n x < 2 ^ n.
Proof. intros Hn. rewrite permute_round_halves. apply half_bound; [done|]. pose proof (Z.div_pos n 5). lia. Qed.

Lemma permute_round_inj n x y : 0 <= n <= 32 -> 0 <= x < 2 ^ n -> 0 <= y < 2 ^ n -> permute_round n x = permute_round n y -> x = y.
Proof.
  intros Hn Hx Hy. rewrite !permute_round_halves. pose proof (Z.div_pos n 2). pose proof (Z.div_pos n 3). pose proof (Z.div_pos n 4). pose proof (Z.div_pos n 5).
  intros Heq%half_inj; [|try lia; apply half_bound; lia..]. apply half_inj in Heq; lia.
Qed.

Lemma permute_bound n x : 0 <= n <= 32 -> 0 <= permute x n < 2 ^ n.
Proof. intros Hn. unfold permute. cbn [Nat.iter]. by apply permute_round_bound. Qed.

Lemma u32_0 : u32 0 = 0.
Proof. done. Qed.

Lemma permute_0 n : 0 <= n -> permute 0 n = 0.
Proof.
  intros Hn. assert (Hr : permute_round n 0 = 0). { unfold permute_round. by rewrite ?Z.shiftl_0_l, ?Z.land_0_l, ?Z.shiftr_0_l, ?Z.add_0_l, ?u32_0, ?Z.land_0_l, ?Z.shiftr_0_l, ?Z.lxor_0_l, ?Z.shiftl_0_l, ?Z.add_0_l, ?u32_0, ?Z.land_0_l, ?Z.shiftr_0_l. }
  unfold permute. generalize 20%nat. induction n0 as [|k IH]; [done|]. rewrite Nat.iter_succ. by rewrite IH.
Qed.

Lemma permute_inj n x y : 0 <= n <= 32 -> 0 <= x < 2 ^ n -> 0 <= y < 2 ^ n -> permute x n = permute y n -> x = y.
Proof.
  intros Hn Hx Hy. unfold permute. generalize 20%nat. induction n0 as [|k IH]; [done|]. rewrite !Nat.iter_succ. intros Heq%permute_round_inj; [by apply IH|lia|..].
  all: destruct k; [done|]; rewrite Nat.iter_succ; apply permute_round_bound; lia.
Qed.

(** C20: [permute(x, nbits)] is, as its comment says, a permutation of the numbers below 2 ^ nbits
    that leaves 0 in its place; 32 bits are left out, where the shift for the mask is undefined. *)
Theorem permute_permutation n : 0 <= n < 32 ->
  (forall x, 0 <= permute x n < 2 ^ n) /\ (forall x y, 0 <= x < 2 ^ n -> 0 <= y < 2 ^ n -> permute x n = permute y n -> x = y) /\ permute 0 n = 0.
Proof. intros Hn. split; [intros x; apply permute_bound; lia|]. split; [intros x y; apply permute_inj; lia|apply permute_0; lia]. Qed.

Theorem permute_permutation_witness : permute 5 10 <> permute 6 10 /\ 0 <= permute 1000 10 < 2 ^ 10.
Proof.
  destruct (permute_permutation 10) as (Hb & Hi & _); [lia|]. split; [|apply Hb]. intros Heq%Hi; lia.
Defined.

(** ** The logarithm *)
Lemma mylog2_loop_ok fuel i val : 0 <= i -> val <= 2 ^ (i + Z.of_nat fuel - 1) -> (i = 0 \/ 2 ^ (i - 1) < val) -> (0 < fuel)%nat ->
  exists n, mylog2_loop fuel i val = Ok n /\ i <= n < i + Z.of_nat fuel /\ val <= 2 ^ n /\ (n = 0 \/ 2 ^ (n - 1) < val).
Proof.
  revert i. induction fuel as [|fuel IH]; intros i Hi Hval Hlow Hf; [lia|]. cbn [mylog2_loop]. rewrite Z.shiftl_1_l. case_decide as Hd; [|by exists i; split; [|split; [lia|split; [lia|]]]].
  destruct fuel as [|fuel]; [replace (i + Z.of_nat 1 - 1) with i in Hval by lia; lia|].
  destruct (IH (i + 1)) as (n & Hn & Hr & Hv & Hl); [lia|replace (i + 1 + Z.of_nat (S fuel) - 1) with (i + Z.of_nat (S (S fuel)) - 1) by lia; done| |lia|].
  - right. by replace (i + 1 - 1) with i by lia.
  - exists n. split; [done|]. split; [lia|done].
Qed.

(** The least power of two that is not below [val]. *)
Lemma mylog2_ok val : val <= 2 ^ 31 -> exists n, mylog2 val = Ok n /\ 0 <= n < 32 /\ val <= 2 ^ n /\ (n = 0 \/ 2 ^ (n - 1) < val).
Proof. intros Hv. apply (mylog2_loop_ok 32 0); [done|done|by left|lia]. Qed.

Lemma mylog2_pow2 k : 0 <= k < 32 -> mylog2 (2 ^ k) = Ok k.
Proof.
  intros Hk. destruct (mylog2_ok (2 ^ k)) as (n & -> & Hn & Hle & Hlow); [apply Z.pow_le_mono_r; lia|]. f_equal.
  apply Z.pow_le_mono_r_iff in Hle; [|lia..]. destruct Hlow as [->|Hlow]; [lia|]. apply Z.pow_lt_mono_r_iff in Hlow; lia.
Qed.

(** ** The scramble values *)
Record scrambled (smax : Z) (scramble : list Z) : Prop := {
  sc_len : Z.of_nat (length scramble) = SCRAMBLE_LEN;
  sc_0 : scramble !! 0%nat = Some 0;
  sc_range : forall i v, scramble !! i = Some v -> 0 <= v < smax;
  sc_distinct : forall i j v, Z.of_nat i < smax -> Z.of_nat j < smax -> scramble !! i = Some v -> scramble !! j = Some v -> i = j
}.

Lemma map_seqZ_lt {A} (f : Z -> A) n i : Z.of_nat i < n -> (f <$> seqZ 0 n) !! i = Some (f (Z.of_nat i)).
Proof. intros Hi. rewrite list_lookup_fmap, lookup_seqZ_lt by done. done. Qed.

Lemma map_seqZ_at {A} (f : Z -> A) n i v : (f <$> seqZ 0 n) !! i = Some v -> v = f (Z.of_nat i).
Proof.
  rewrite list_lookup_fmap. destruct (seqZ 0 n !! i) as [z|] eqn:Hz; [|done]. apply lookup_seqZ in Hz as [-> _]. intros Hv. by apply (inj Some) in Hv as <-.
Qed.

Lemma scrambleinit_ok k : 0 <= k < 32 -> exists scramble, scrambleinit (2 ^ k) = Ok scramble /\ scrambled (2 ^ k) scramble.
Proof.
  intros Hk. unfold scrambleinit. rewrite mylog2_pow2 by done. cbn [mbind result_bind]. eexists. split; [done|].
  split.
  - rewrite length_fmap, length_seqZ. apply Z2Nat.id. by apply Z.shiftl_nonneg.
  - rewrite (map_seqZ_lt (fun i => permute i k) SCRAMBLE_LEN 0) by reflexivity. f_equal. apply permute_0. lia.
  - intros i v ->%(map_seqZ_at (fun i => permute i k)). apply permute_bound. lia.
  - intros i j v Hi' Hj' Hv1%(map_seqZ_at (fun i => permute i k)) Hv2%(map_seqZ_at (fun i => permute i k)). subst v. apply permute_inj in Hv2; lia.
Qed.

(** ** Building the table *)
Lemma scramble_nonneg smax scramble : scrambled smax scramble -> Forall (fun z => 0 <= z) scramble.
Proof. intros [_ _ Hr _]. apply Forall_lookup. intros i v Hv. apply Hr in Hv. lia. Qed.

Lemma val_limit_pos blen smax : 0 < smax -> 0 < val_limit blen smax.
Proof. intros Hs. unfold val_limit. case_decide; [done|unfold UB1MAXVAL; lia]. Qed.

(** After [inittab] the values are 0, so that a key hashes to its a. *)
Lemma tables_init keys scramble smax blen nkeys form t h q : 0 < smax -> scrambled smax scramble -> tabled keys blen (length keys) t ->
  Forall (fun y => 0 <= a_k y < Z.of_nat (length h)) keys ->
  Z.of_nat (length h) = (if decide (f_perfect form = MINIMAL_HP) then nkeys else smax) -> Z.of_nat (length q) = blen + 1 ->
  tables keys scramble blen smax nkeys form t (Pst t h q).
Proof.
  intros Hpos Hs Ht Ha Hh Hq. split; [done..|]. intros b e He. cbn in He |- *. destruct (ta_entry _ _ _ _ Ht b e He) as (-> & _ & _).
  split; [rewrite (sc_len _ _ Hs); split; [lia|]; apply Z.min_glb_lt; [by apply val_limit_pos|done]|]. intros c k Hc Hk. rewrite list_lookup_fmap, He in Hc. injection Hc as <-.
  destruct (ta_in _ _ _ _ Ht b e k He Hk) as (_ & y & Hy & _). unfold hashv, sc. rewrite Hy. rewrite nth_lookup. change (Z.to_nat 0) with 0%nat.
  rewrite (sc_0 _ _ Hs). cbn. rewrite Z.lxor_0_r. apply (proj1 (Forall_lookup _ _) Ha k y Hy).
Qed.

(** C10: From keys with different (a,b) and their a below the range of the hash, [perfect] reads and
    writes only inside its arrays and returns; if it reports success, the hashes
    a ^ scramble[tab[b]] of the keys are in the range ([nkeys] for a minimal hash) and no two of
    them are equal. *)
Theorem perfect_correct keys k blen nkeys form scramble t h q :
  0 <= k < 32 -> scrambleinit (2 ^ k) = Ok scramble -> Z.of_nat (length keys) < 2 ^ 32 -> 0 <= blen -> (blen < USE_SCRAMBLE -> k <= 16) ->
  Z.of_nat (length h) = (if decide (f_perfect form = MINIMAL_HP) then nkeys else 2 ^ k) -> Z.of_nat (length q) = blen + 1 ->
  Forall (fun y => 0 <= a_k y < Z.of_nat (length h)) keys -> inittab keys blen form false = Ok (true, t) ->
  exists r s', perfect keys scramble blen (2 ^ k) nkeys form (Pst t h q) = Ok (r, s') /\
    (r = true -> perfect_for keys (Z.of_nat (length h)) (final_hash scramble (tabb s'))).
Proof.
  intros Hk Hsc Hlen Hblen Hsmall Hh Hq Ha Ht%inittab_tabled; [|done]. destruct (scrambleinit_ok k Hk) as (scr & Hscr & Hs).
  rewrite Hsc in Hscr. injection Hscr as <-. assert (0 < 2 ^ k) by (apply Z.pow_pos_nonneg; lia).
  pose proof (safe_perfect keys scramble blen (2 ^ k) nkeys form (sc_len _ _ Hs) (scramble_nonneg _ _ Hs)) as Hsafe.
  specialize (Hsafe ltac:(eapply Forall_impl; [exact Ha|cbn; lia]) ltac:(lia)).
  assert (Hsm : blen < USE_SCRAMBLE -> 2 ^ k <= SCRAMBLE_LEN) by (intros ?%Hsmall; apply (Z.pow_le_mono_r 2 k 16); lia).
  specialize (Hsafe Hsm Hblen t (Pst t h q) Ht (tables_init _ _ (2 ^ k) _ _ _ _ _ _ ltac:(done) Hs Ht Ha Hh Hq)).
  unfold safe in Hsafe. destruct (perfect _ _ _ _ _ _ _) as [[r s']|]; [|done]. exists r, s'. split; [done|]. intros Hr.
  destruct Hsafe as [_ Hp]. by apply Hp.
Qed.

(** Four keys in two groups, hashed to 0..3. *)
Definition sample_keys : list key := [Key [] 0 0 0 0; Key [] 0 0 1 0; Key [] 0 0 0 1; Key [] 0 0 2 1].
Definition sample_form : hashform := Form NORMAL_HM STRING_HT MINIMAL_HP SLOW_HS.
Definition sample_tab : list bstuff := [Bst 0 [1%nat; 0%nat] 2 0; Bst 0 [3%nat; 2%nat] 2 0].

Theorem perfect_correct_witness : exists scramble r s', perfect sample_keys scramble 2 (2 ^ 2) 4 sample_form (Pst sample_tab (replicate 4 None) (replicate 3 (Qst None 0 0 0))) = Ok (r, s') /\
  (r = true -> perfect_for sample_keys 4 (final_hash scramble (tabb s'))).
Proof.
  destruct (scrambleinit_ok 2) as (scramble & Hsc & _); [lia|]. exists scramble.
  apply (perfect_correct sample_keys 2 2 4 sample_form scramble sample_tab (replicate 4 None) (replicate 3 (Qst None 0 0 0))); try done.
  repeat (constructor; [cbn; lia|]). constructor.
Defined.
