(* ===== verification/Gencode.v ===== *)
(** * The code the generator writes

    src/lib/perfect/perfect.h, [struct gencode]: the lines of C that perfect.c and perfhex.c
    print are kept here as abstract syntax, and [run_lines] gives what the printed function
    returns: arithmetic on 32-bit words, a shift by 32 or more and a variable without a value
    being undefined.  The tables [tab] and [scramble] of phash.c are arguments. *)
From S2P Require Import Prelude CLib Word Bytes Lookupa Perfect.

#[local] Open Scope Z_scope.

(** ** Syntax *)
Inductive var := Vval | Va | Vb | Vnewval | Vrsl.
Inductive binop := Oadd | Osub | Oxor | Oand | Oshl | Oshr.
Inductive exp :=
  | Var (v : var)
  | Num (n : Z)
  | Bin (o : binop) (x y : exp)
  | Neg (x : exp)
  | Tab (i : exp)
  | Scramble (i : exp)
  | State (i : nat).
(** [Set_ v e]: [v = e] with or without the declaration of [v]; [Decl]: declarations only;
    [DeclLookup x]: [ub4 rsl, val = lookup(key, len, x)]; [InitState x] and [Checksum]: the
    lines that fill [state] and call [checksum(key, len, state)]. *)
Inductive line :=
  | Blank
  | Decl
  | Set_ (v : var) (e : exp)
  | DeclLookup (initlev : Z)
  | InitState (initlev : Z)
  | Checksum.

#[export] Instance var_eq_dec : EqDecision var.
Proof. solve_decision. Defined.

Declare Scope code_scope.
Delimit Scope code_scope with code.
Notation "x + y" := (Bin Oadd x y) : code_scope.
Notation "x - y" := (Bin Osub x y) : code_scope.
Notation "x ^ y" := (Bin Oxor x y) : code_scope.
Notation "x 'band' y" := (Bin Oand x y) (at level 45, left associativity) : code_scope.
Notation "x 'shl' y" := (Bin Oshl x y) (at level 45, left associativity) : code_scope.
Notation "x 'shr' y" := (Bin Oshr x y) (at level 45, left associativity) : code_scope.

(** ** Meaning *)
(** The shifts of C on [ub4]. *)
Definition lsh (x n : Z) : result Z := if decide (0 <= n < 32) then Ok (shl32 x n) else Fault Undefined.
Definition rsh (x n : Z) : result Z := if decide (0 <= n < 32) then Ok (Z.shiftr x n) else Fault Undefined.

Definition bin (o : binop) (x y : Z) : result Z :=
  match o with
  | Oadd => Ok (add32 x y)
  | Osub => Ok (sub32 x y)
  | Oxor => Ok (Z.lxor x y)
  | Oand => Ok (Z.land x y)
  | Oshl => lsh x y
  | Oshr => rsh x y
  end.

(** The variables of the function: its [val], a and b, the state of the checksum. *)
Record env := Env { e_vars : list (var * Z); e_state : option (list Z) }.
Fixpoint var_get (l : list (var * Z)) (v : var) : result Z :=
  match l with
  | [] => Fault Undefined
  | (w, x) :: l => if decide (w = v) then Ok x else var_get l v
  end.

Section run.
(** The arrays of phash.c, and the key and its length for a function of strings. *)
Context (tab scr : list Z) (skey : bytes) (slen : Z).

Fixpoint run_exp (s : env) (e : exp) : result Z :=
  match e with
  | Var v => var_get (e_vars s) v
  | Num n => Ok n
  | Bin o x y => x ← run_exp s x; y ← run_exp s y; bin o x y
  | Neg x => x ← run_exp s x; Ok (sub32 0 x)
  | Tab i => i ← run_exp s i; arr tab i
  | Scramble i => i ← run_exp s i; arr scr i
  | State i => l ← from_option_fault Undefined (e_state s); from_option_fault OutOfBounds (l !! i)
  end.

Definition cs_of (l : list Z) : option cstate :=
  match l with [a; b; c; d; e; f; g; h] => Some (CS a b c d e f g h) | _ => None end.
Definition of_cs (s : cstate) : list Z := [cs_a s; cs_b s; cs_c s; cs_d s; cs_e s; cs_f s; cs_g s; cs_h s].

Definition run_line (s : env) (l : line) : result env :=
  match l with
  | Blank | Decl => Ok s
  | Set_ v e => x ← run_exp s e; Ok (Env ((v, x) :: e_vars s) (e_state s))
  | DeclLookup initlev => h ← lookup skey slen initlev; Ok (Env ((Vval, h) :: e_vars s) (e_state s))
  | InitState initlev => Ok (Env (e_vars s) (Some (replicate CHECKSTATE initlev)))
  | Checksum =>
      c ← from_option_fault Undefined (e_state s ≫= cs_of);
      c ← checksum skey slen c;
      Ok (Env (e_vars s) (Some (of_cs c)))
  end.

Fixpoint run_code (s : env) (ls : list line) : result env :=
  match ls with
  | [] => Ok s
  | l :: ls => s ← run_line s l; run_code s ls
  end.

(** The body of phash: the lines, then [return rsl]. *)
Definition run_lines (s : env) (ls : list line) : result Z := s ← run_code s ls; var_get (e_vars s) Vrsl.
End run.

(** ** The record *)
(** [l], [m], [n] and [o] of the state machine are set to 0 and never read. *)
Record gencode := Gen {
  g_line : list line; g_used : nat;
  g_lowbit : Z; g_highbit : Z; g_diffbits : Z;
  g_i : Z; g_j : Z; g_k : Z
}.
Definition set_lines (used : nat) (ls : list line) (g : gencode) : gencode :=
  Gen (ls ++ drop (length ls) (g_line g)) used (g_lowbit g) (g_highbit g) (g_diffbits g) (g_i g) (g_j g) (g_k g).
Definition put_line (n : nat) (l : line) (g : gencode) : gencode :=
  Gen (<[n := l]> (g_line g)) (g_used g) (g_lowbit g) (g_highbit g) (g_diffbits g) (g_i g) (g_j g) (g_k g).
Definition set_ijk (i j k : Z) (g : gencode) : gencode :=
  Gen (g_line g) (g_used g) (g_lowbit g) (g_highbit g) (g_diffbits g) i j k.
(** The ten lines that [driver] provides. *)
Definition no_code : gencode := Gen (replicate 10 Blank) 0 0 0 0 0 0 0.
(** The code in use. *)
Definition code (g : gencode) : list line := take (g_used g) (g_line g).

(** ** Lemmas *)
Lemma rsh_Ok v n : 0 <= n < 32 -> rsh v n = Ok (Z.shiftr v n).
Proof. intros Hn. unfold rsh. by rewrite decide_True. Qed.

Lemma bind_Ok {A B} (a : A) (f : A -> result B) : (Ok a ≫= f) = f a.
Proof. done. Qed.

Lemma code_set_lines ls g : code (set_lines (length ls) ls g) = ls.
Proof. unfold code, set_lines. cbn. by rewrite take_app_length. Qed.
