(* ===== verification/PerfHex.v ===== *)
(** * The perfect hash of integer keys

    src/lib/perfect/perfhex.c: up to four keys get a hash of a few instructions without a table,
    five to eight may be lucky, and [hexn] tries one way after the other to split a key into
    (a,b).  The functions take the hash values of the keys; the code they print is that of
    Gencode.  A loop [for (i = lo; i <= hi; ++i)] with an early return is [for_loop]. *)
From S2P Require Import Prelude CLib Word Bytes Lookupa Perfect Gencode.

#[local] Open Scope Z_scope.

#[local] Notation V := (Var Vval).
#[local] Notation "# n" := (Num n) (at level 0, n at level 0).

(** ** Loops *)
Fixpoint for_from {A} (fuel : nat) (cond : Z -> bool) (i : Z) (body : Z -> result (option A)) : result (option A) :=
  match fuel with
  | O => Fault NoFuel
  | S fuel =>
      if cond i then
        r ← body i;
        match r with Some x => Ok (Some x) | None => for_from fuel cond (u32 (i + 1)) body end
      else Ok None
  end.
(** The bodies shift by the counter, so that no loop gets past 32. *)
Definition for_loop {A} (lo : Z) (cond : Z -> bool) (body : Z -> result (option A)) : result (option A) := for_from 64 cond lo body.
Definition upto (hi : Z) (i : Z) : bool := bool_decide (i <= hi).
Definition below (hi : Z) (i : Z) : bool := bool_decide (i < hi).

(** Try [x]; if it gives nothing, go on with [y]. *)
Definition orelse {A} (x y : result (option A)) : result (option A) := r ← x; match r with Some a => Ok (Some a) | None => y end.
Notation "x 'or_else' y" := (orelse x y) (at level 60, right associativity).

(** ** One, two and three keys *)
Definition hexone (g : gencode) : gencode := set_lines 1 [Set_ Vrsl (#0)] g.

Definition hextwo (a b : Z) (g : gencode) : result gencode :=
  if decide (a = b) then Fault ExitCalled
  else if decide (Z.land a 1 <> Z.land b 1) then Ok (set_lines 1 [Set_ Vrsl (V band #1)%code] g)
  else
    r ← for_loop 0 (below UB4BITS) (fun i =>
          bi ← lsh 1 i; if decide (Z.land a bi <> Z.land b bi) then Ok (Some i) else Ok None);
    Ok (set_lines 1 [Set_ Vrsl ((V shl #(default UB4BITS r)) band #1)%code] g).

Definition find_adder (a b c : Z) : Z := Z.lxor (Z.lxor (Z.lxor a b) c) 3.

(** The three keys hashed by [f]: if the hashes are different, the code, with the value that
    moves the hole to 3 when a minimal hash needs it. *)
Definition try3 (form : hashform) (a b c : Z) (f : Z -> result Z) (e : exp) : result (option (list line)) :=
  x ← f a; y ← f b; z ← f c;
  if decide (x <> y /\ x <> z /\ y <> z) then
    if decide (f_perfect form = NORMAL_HP \/ (x <> 3 /\ y <> 3 /\ z <> 3)) then Ok (Some [Set_ Vrsl e])
    else Ok (Some [Set_ Vrsl (e ^ #(find_adder x y z))%code])
  else Ok None.

Definition hexthree (form : hashform) (a b c : Z) (g : gencode) : result gencode :=
  let hi := g_highbit g in
  let try := try3 form a b c in
  if decide (a = b \/ a = c \/ b = c) then Fault ExitCalled
  else
    r ← try (fun v => Ok (Z.land v 3)) (V band #3)%code
        or_else try (fun v => rsh v (UB4BITS - 2)) (V shr #(UB4BITS - 2))%code
        or_else for_loop 0 (below hi) (fun i =>
          try (fun v => w ← rsh v i; Ok (Z.land w 3)) ((V shr #i) band #3)%code)
        or_else for_loop 0 (upto hi) (fun i =>
          try (fun v => w ← rsh v i; Ok (Z.land (add32 v w) 3)) ((V + (V shr #i)) band #3)%code)
        or_else for_loop (g_lowbit g) (upto hi) (fun i =>
          for_loop i (upto hi) (fun j =>
            try (fun v => w ← rsh v i; w' ← rsh v j; Ok (Z.land (Z.lxor w w') 3)) (((V shr #i) ^ (V shr #j)) band #3)%code));
    match r with
    | Some ls => Ok (set_lines 1 ls g)
    | None => Fault ExitCalled
    end.

(** ** Four keys *)
Definition testfour (a b c d : Z) : bool :=
  bool_decide (Z.lxor (Z.lxor (Z.lxor (Z.shiftl 1 a) (Z.shiftl 1 b)) (Z.shiftl 1 c)) (Z.shiftl 1 d) = 0xf).

(** The four keys, each hashed by its own function. *)
Definition test4 (ks : Z * Z * Z * Z) (f : Z -> result Z) : result bool :=
  let '(a, b, c, d) := ks in w ← f a; x ← f b; y ← f c; z ← f d; Ok (testfour w x y z).
Definition try4 (ks : Z * Z * Z * Z) (f : Z -> result Z) (ls : list line) : result (option (list line)) :=
  t ← test4 ks f; Ok (if (t : bool) then Some ls else None).
Definition when4 (c : bool) (r : result (option (list line))) : result (option (list line)) := if c then r else Ok None.
Definition rsl (e : exp) : list line := [Set_ Vrsl e].

(** [((v>>i) op m)] for the masks below. *)
Definition sm (v i m : Z) : result Z := w ← rsh v i; Ok (Z.land w m).

Section hexfour.
Context (ks : Z * Z * Z * Z) (g : gencode).
Let a : Z := ks.1.1.1.
Let b : Z := ks.1.1.2.
Let c : Z := ks.1.2.
Let d : Z := ks.2.
Let try := try4 ks.
Let diff := g_diffbits g.
Let lo := g_lowbit g.
Let hi := g_highbit g.
(** [(diffbits >> i) & m] *)
Let dbits (i m : Z) : Z := Z.land (Z.shiftr diff i) m.

(** One and two instructions. *)
Definition four_shift : result (option (list line)) :=
  when4 (bool_decide (Z.land diff 3 = 3)) (try (fun v => Ok (Z.land v 3)) (rsl (V band #3)%code))
  or_else when4 (bool_decide (dbits (UB4BITS - 2) 3 = 3)) (try (fun v => rsh v (UB4BITS - 2)) (rsl (V shr #(UB4BITS - 2))%code))
  or_else for_loop lo (below hi) (fun i => _ ← rsh diff i;
    when4 (bool_decide (dbits i 3 = 3)) (try (fun v => sm v i 3) (rsl ((V shr #i) band #3)%code))).

(** Three instructions. *)
Definition four_linear : result (option (list line)) :=
  when4 (bool_decide (Z.land diff 3 <> 0)) (for_loop lo (upto hi) (fun i => _ ← rsh diff i;
    when4 (bool_decide (dbits i 3 <> 0))
      (try (fun v => w ← rsh v i; Ok (Z.land (add32 v w) 3)) (rsl ((V + (V shr #i)) band #3)%code)
       or_else try (fun v => w ← rsh v i; Ok (Z.land (sub32 v w) 3)) (rsl ((V - (V shr #i)) band #3)%code)
       or_else try (fun v => w ← rsh v i; Ok (Z.land (Z.lxor v w) 3)) (rsl ((V ^ (V shr #i)) band #3)%code)))).

(** Four instructions: two masks. *)
Definition mask2 (i m1 m2 : Z) : result (option (list line)) :=
  try (fun v => w ← sm v i m2; Ok (Z.lxor (Z.land v m1) w)) (rsl ((V band #m1) ^ ((V shr #i) band #m2))%code).
Definition four_masks : result (option (list line)) :=
  when4 (bool_decide (Z.land diff 3 <> 0)) (for_loop lo (upto hi) (fun i => _ ← rsh diff i;
    when4 (bool_decide (dbits i 1 <> 0 /\ Z.land diff 2 <> 0)) (mask2 i 3 1 or_else mask2 i 2 1)
    or_else when4 (bool_decide (dbits i 2 <> 0 /\ Z.land diff 1 <> 0)) (mask2 i 3 2 or_else mask2 i 1 2))).

(** Four instructions, two shifts: the values tested combine [v >> i] of each key with
    [a >> j] of the first key. *)
Definition four_quadratic : result (option (list line)) :=
  let pair op o i j := try (fun v => w ← rsh v i; aj ← rsh a j; Ok (Z.land (op w aj) 3)) (rsl (Bin o (V shr #i) (V shr #j) band #3)%code) in
  for_loop lo (upto hi) (fun i => _ ← rsh diff i;
    when4 (bool_decide (dbits i 1 = 1)) (for_loop lo (upto hi) (fun j => _ ← rsh diff j;
      when4 (bool_decide (dbits j 3 <> 0)) (pair add32 Oadd i j or_else pair sub32 Osub i j or_else pair Z.lxor Oxor i j)))).

(** Five instructions. *)
Definition mask4 (j m1 i m2 : Z) : result (option (list line)) :=
  try (fun v => w ← sm v j m1; w' ← sm v i m2; Ok (Z.lxor w w')) (rsl (((V shr #j) band #m1) ^ ((V shr #i) band #m2))%code).
Definition four_five_j (i j : Z) : result (option (list line)) :=
  _ ← rsh diff j;
  when4 (bool_decide (dbits j 3 <> 0)) (mask4 j 3 i 1 or_else mask4 j 2 i 1)
  or_else
    (if decide (i = 0) then
       try (fun v => w ← rsh v j; Ok (Z.land (Z.lxor w (shl32 v 1)) 3)) (rsl (((V shr #j) ^ (V shl #1)) band #3)%code)
     else
       try (fun v => w ← sm v j 3; w' ← sm v (i - 1) 2; Ok (Z.lxor w w'))
         (if decide (i = 1) then rsl (((V shr #j) band #3) ^ (V band #2))%code
          else rsl (((V shr #j) band #3) ^ ((V shr #(i - 1)) band #2))%code))
  or_else mask4 j 1 i 2.
Definition four_five : result (option (list line)) :=
  for_loop lo (upto hi) (fun i => _ ← rsh diff i;
    when4 (bool_decide (dbits i 1 <> 0)) (for_loop lo (upto hi) (fun j => four_five_j i j))).

(** *** The big guns *)
(** Bit [i] of [v]; [for (i = lowbit; i < UB4BITS; ++i) if (p i) break;] *)
Definition bit1 (v i : Z) : result Z := sm v i 1.
Definition find_bit (p : Z -> result bool) : result Z :=
  r ← for_loop lo (below UB4BITS) (fun i => t ← p i; Ok (if (t : bool) then Some i else None));
  Ok (default UB4BITS r).
Definition bit2 (i j v : Z) : result Z := x ← bit1 v i; y ← bit1 v j; Ok (Z.lxor x (Z.shiftl y 1)).
Definition bit3 (i j k v : Z) : result Z := x ← bit2 i j v; y ← bit1 v k; Ok (Z.lxor x (Z.shiftl y 2)).
(** How many of the keys have the bit. *)
Definition count_bit (i : Z) : result Z := x ← bit1 a i; y ← bit1 b i; z ← bit1 c i; w ← bit1 d i; Ok (x + y + z + w).

Definition guns_ijk : result (Z * Z * Z) :=
  i ← find_bit (fun i => y ← bit1 c i; z ← bit1 d i; Ok (bool_decide (y <> z)));
  j ← find_bit (fun j => x ← bit2 i j b; y ← bit2 i j c; z ← bit2 i j d; Ok (bool_decide (x <> y /\ x <> z /\ y <> z)));
  k ← find_bit (fun k => w ← bit3 i j k a; x ← bit3 i j k b; y ← bit3 i j k c; z ← bit3 i j k d;
        Ok (bool_decide (w <> x /\ w <> y /\ w <> z /\ x <> y /\ x <> z /\ y <> z)));
  if decide (i = UB4BITS \/ j = UB4BITS \/ k = UB4BITS) then Fault ExitCalled else Ok (i, j, k).

Definition guns_mno (ijk : Z * Z * Z) : result (Z * Z * Z) :=
  let '(i, j, k) := ijk in
  ci ← count_bit i; cj ← count_bit j;
  let '(m, n, o) := if decide (ci <> 2) then (j, k, i) else if decide (cj <> 2) then (i, k, j) else (i, j, k) in
  Ok (if decide (n < m) then (n, m, o) else (m, n, o)).

(** Bit [o] times 1. *)
Definition guns_one (m n o : Z) : result (option (nat * list line)) :=
  t ← test4 ks (fun v => x ← rsh v m; y ← rsh v o; z ← sm v (n - 1) 2; Ok (Z.lxor (Z.land (Z.lxor x y) 1) z));
  if (t : bool) then
    let '(m, o) := if decide (o < m) then (o, m) else (m, o) in
    Ok (Some (1%nat, if decide (m = 0) then rsl (((V ^ (V shr #o)) band #1) ^ ((V shr #(n - 1)) band #2))%code
                     else rsl ((((V shr #m) ^ (V shr #o)) band #1) ^ ((V shr #(n - 1)) band #2))%code))
  else Ok None.

(** Bit [o] times 2. *)
Definition guns_two (m n o : Z) : result (option (nat * list line)) :=
  t ← test4 ks (fun v => x ← bit1 v m; y ← rsh v n; z ← rsh v o; Ok (Z.lxor x (Z.shiftl (Z.land (Z.lxor y z) 1) 1)));
  if (t : bool) then
    let '(n, o) := if decide (m = o - 1) then (o, n) else (n, o) in
    Ok (Some (1%nat,
      if decide (m = 0) then rsl ((V band #1) ^ (((V shr #(u32 (n - 1))) ^ (V shr #(u32 (o - 1)))) band #2))%code
      else if decide (o = 0) then rsl (((V shr #(m - 1)) band #2) ^ (((V shr #n) ^ V) band #1))%code
      else rsl (((V shr #m) band #1) ^ (((V shr #(u32 (n - 1))) ^ (V shr #(u32 (o - 1)))) band #2))%code))
  else Ok None.

(** Bit [o] times 3. *)
Definition guns_three_code (m n o : Z) : nat * list line :=
  let B := Var Vb in let W := Var Vnewval in
  let b0 := Set_ Vb ((V shr #o) band #1)%code in
  if decide (m = o - 1 /\ m = 0) then (2%nat, [b0; Set_ Vrsl (((V band #3) ^ ((V shr #(n - 1)) band #2)) ^ B)%code])
  else if decide (m = o - 1) then (2%nat, [b0; Set_ Vrsl ((((V shr #m) band #3) ^ ((V shr #(n - 1)) band #2)) ^ B)%code])
  else if decide (m = n - 1 /\ m = 0) then (2%nat, [b0; Set_ Vrsl (((V band #3) ^ B) ^ (B shl #1))%code])
  else if decide (m = n - 1) then (2%nat, [b0; Set_ Vrsl ((((V shr #m) band #3) ^ B) ^ (B shl #1))%code])
  else if decide (o = n - 1 /\ m = 0) then (2%nat, [b0; Set_ Vrsl (((V band #1) ^ ((V shr #o) band #3)) ^ (B shl #1))%code])
  else if decide (o = n - 1) then (2%nat, [b0; Set_ Vrsl ((((V shr #m) band #1) ^ ((V shr #o) band #3)) ^ (B shl #1))%code])
  else if decide (m <> o - 1 /\ m <> n - 1 /\ o <> m - 1 /\ o <> n - 1) then
    (3%nat, [Set_ Vnewval (V band #(Z.lxor (Z.lxor (Z.shiftl 1 m) (Z.shiftl 1 n)) (Z.shiftl 1 o)))%code;
             Set_ Vb (if decide (o = 0) then Neg W else Neg (W shr #o)%code);
             Set_ Vrsl (if decide (m = 0) then (((W ^ (W shr #(n - 1))) ^ B) band #3)%code
                        else ((((W shr #m) ^ (W shr #(n - 1))) ^ B) band #3)%code)])
  else if decide (o = m - 1) then
    (2%nat, [Set_ Vb (if decide (o = 0) then ((V shl #1) band #2)%code else if decide (o = 1) then (V band #2)%code else ((V shr #(o - 1)) band #2)%code);
             Set_ Vrsl (if decide (o = 0) then (((V band #3) ^ ((V shr #n) band #1)) ^ B)%code
                        else ((((V shr #o) band #3) ^ ((V shr #n) band #1)) ^ B)%code)])
  else (2%nat, [b0; Set_ Vrsl (((((V shr #m) band #1) ^ ((V shr #(n - 1)) band #2)) ^ B) ^ (B shl #1))%code]).
Definition guns_three (m n o : Z) : result (option (nat * list line)) :=
  t ← test4 ks (fun v => x ← bit1 v m; y ← sm v (n - 1) 2; z ← bit1 v o; Ok (Z.lxor (Z.lxor (Z.lxor x y) z) (Z.shiftl z 1)));
  Ok (if (t : bool) then Some (guns_three_code m n o) else None).

(** Bit [o] times 0. *)
Definition guns_zero (m n : Z) : result (option (nat * list line)) :=
  t ← test4 ks (fun v => x ← bit1 v m; y ← sm v (n - 1) 2; Ok (Z.lxor x y));
  Ok (if (t : bool) then Some (1%nat, rsl (((V shr #m) band #1) ^ ((V shr #(n - 1)) band #2))%code) else None).

Definition big_guns : result gencode :=
  ijk ← guns_ijk;
  mno ← guns_mno ijk;
  let '(m, n, o) := mno in
  r ← guns_one m n o or_else guns_two m n o or_else guns_three m n o or_else guns_zero m n;
  match r with
  | Some (used, ls) => Ok (set_lines used ls g)
  | None => Fault ExitCalled
  end.

Definition hexfour : result gencode :=
  if decide (a = b \/ a = c \/ a = d \/ b = c \/ b = d \/ c = d) then Fault ExitCalled
  else
    r ← four_shift or_else four_linear or_else four_masks or_else four_quadratic or_else four_five;
    match r with
    | Some ls => Ok (set_lines 1 ls g)
    | None => big_guns
    end.
End hexfour.

(** ** Five to eight keys *)
Definition set_a (y : key) (a : Z) : key := Key (name_k y) (len_k y) (hash_k y) a (b_k y).
Definition set_ab (y : key) (a b : Z) : key := Key (name_k y) (len_k y) (hash_k y) a b.

(** The [mask] is a byte. *)
Fixpoint testeight (ks : list key) (mask : Z) : bool :=
  match ks with
  | [] => true
  | y :: ks =>
      if decide (Z.land mask (Z.shiftl 1 (a_k y)) <> 0) then false
      else testeight ks (Z.lor mask (Z.shiftl 1 (a_k y)) mod 256)
  end.

Section hexeight.
Context (nkeys : Z) (form : hashform).
Definition badmask : Z :=
  if decide (f_perfect form = MINIMAL_HP) then foldl (fun m i => Z.lor m (Z.shiftl 1 i)) 0 (seqZ nkeys (8 - nkeys)) else 0.

(** The keys hashed by [f] into their a, and whether that is a perfect hash.  The keys are the
    state: an attempt that fails leaves its values in them. *)
Definition try8 (f : Z -> result Z) (e : exp) : st (list key) (option exp) :=
  ks ← getS;
  ks ← liftS (mapM (fun y => a ← f (hash_k y); Ok (set_a y (Z.land a 7))) ks);
  _ ← putS ks;
  mret (if testeight ks badmask then Some (e band #7)%code else None).

Fixpoint for8 (fuel : nat) (cond : Z -> bool) (i : Z) (body : Z -> st (list key) (option exp)) : st (list key) (option exp) :=
  match fuel with
  | O => raiseS NoFuel
  | S fuel =>
      if cond i then
        r ← body i;
        match r with Some x => mret (Some x) | None => for8 fuel cond (u32 (i + 1)) body end
      else mret None
  end.
Definition orelse8 (x y : st (list key) (option exp)) : st (list key) (option exp) := r ← x; match r with Some e => mret (Some e) | None => y end.
Notation "x 'or_else8' y" := (orelse8 x y) (at level 60, right associativity).

Definition pair8 (op : Z -> Z -> Z) (o : binop) (i j : Z) : st (list key) (option exp) :=
  try8 (fun v => w ← rsh v i; w' ← rsh v j; Ok (op w w')) (if decide (i = 0) then Bin o V (V shr #j)%code else Bin o (V shr #i)%code (V shr #j)%code).
Definition three8 (i j k : Z) : st (list key) (option exp) :=
  try8 (fun v => w ← rsh v i; w' ← rsh v j; w'' ← rsh v k; Ok (add32 (add32 w w') w'')) (((V shr #i) + (V shr #j)) + (V shr #k))%code.

Definition hexeight (g : gencode) : st (list key) (option gencode) :=
  let lo := g_lowbit g in let hi := g_highbit g in
  r ← try8 (fun v => Ok v) V
      or_else8 for8 64 (upto (u32 (hi - 2))) lo (fun i => try8 (fun v => rsh v i) (V shr #i)%code)
      or_else8 for8 64 (upto hi) lo (fun i => for8 64 (upto hi) (i + 1) (fun j =>
        pair8 add32 Oadd i j or_else8 pair8 Z.lxor Oxor i j or_else8 pair8 sub32 Osub i j))
      or_else8 for8 64 (upto hi) lo (fun i => for8 64 (upto hi) (i + 1) (fun j => for8 64 (upto hi) (j + 1) (fun k => three8 i j k)));
  mret ((fun e => set_lines 1 [Set_ Vrsl e] g) <$> r).
End hexeight.

(** ** Any number of keys *)
Section hexn.
Context (keys : list key) (salt alen blen : Z).

(** The (a,b) of every key, computed from its hash. *)
Definition split_keys (fa fb : Z -> result Z) : result (list key) :=
  mapM (fun y => a ← fa (hash_k y); b ← fb (hash_k y); Ok (set_ab y a b)) keys.

(** [while (++j < highbit) if (((diffbits >> j) & (blen-1)) > 2) break;] *)
Fixpoint next_j (fuel : nat) (g : gencode) (j : Z) : result Z :=
  match fuel with
  | O => Fault NoFuel
  | S fuel =>
      let j := j + 1 in
      if decide (j < g_highbit g) then
        w ← rsh (g_diffbits g) j;
        if decide (2 < Z.land w (u32 (blen - 1))) then Ok j else next_j fuel g j
      else Ok j
  end.
(** [while (++k < highbit) if ((((diffbits << (UB4BITS-k-1)) >> alog) & (alen-1)) > 0) break;] *)
Fixpoint next_k (fuel : nat) (alog : Z) (g : gencode) (k : Z) : result Z :=
  match fuel with
  | O => Fault NoFuel
  | S fuel =>
      let k := k + 1 in
      if decide (k < g_highbit g) then
        w ← lsh (g_diffbits g) (UB4BITS - k - 1); w ← rsh w alog;
        if decide (0 < Z.land w (u32 (alen - 1))) then Ok k else next_k fuel alog g k
      else Ok k
  end.

(** The mix of state 7. *)
Definition mix7 (g : gencode) (addk h : Z) : Z :=
  let bits := u32 (g_highbit g + 1 - g_lowbit g) in
  let v := add32 h addk in
  let v := if decide (16 < bits) then Z.lxor v (Z.shiftr v 16) else v in
  let v := if decide (8 < bits) then add32 v (shl32 v 8) else v in
  Z.lxor v (Z.shiftr v 4).

Definition masked (sh m : Z) : exp := if decide (sh = 0) then (V band #m)%code else ((V shr #sh) band #m)%code.
Definition shifted (l r : Z) : exp := if decide (l = 0) then (V shr #r)%code else ((V shl #l) shr #r)%code.

Definition state1 (alog : Z) (g : gencode) : result (list key * gencode) :=
  let hi := g_highbit g in let lo := g_lowbit g in let m := u32 (blen - 1) in
  ks ← split_keys (fun v => w ← lsh v (UB4BITS - (hi + 1)); rsh w (UB4BITS - alog)) (fun v => sm v lo m);
  Ok (ks, set_ijk 2 (g_j g) (g_k g) (put_line 6 (Set_ Va (shifted (UB4BITS - (hi + 1)) (UB4BITS - alog))) (put_line 5 (Set_ Vb (masked lo m)) g))).

Definition state2 (blog : Z) (g : gencode) : result (list key * gencode) :=
  let hi := g_highbit g in let lo := g_lowbit g in let m := u32 (alen - 1) in
  ks ← split_keys (fun v => sm v lo m) (fun v => w ← lsh v (UB4BITS - (hi + 1)); rsh w (UB4BITS - blog));
  Ok (ks, set_ijk 3 (g_j g) (g_k g) (put_line 6 (Set_ Va (masked lo m)) (put_line 5 (Set_ Vb (shifted (UB4BITS - (hi + 1)) (UB4BITS - blog))) g))).

Definition state4 (alog blog : Z) (g : gencode) : result (list key * gencode) :=
  let j := g_j g in let k := g_k g in let m := u32 (blen - 1) in
  ks ← split_keys (fun v => w ← lsh v (UB4BITS - k - 1); rsh w (UB4BITS - alog)) (fun v => sm v j m);
  let lb := if decide (j = 0) then (V band #m)%code else if decide (blog + j = UB4BITS) then (V shr #j)%code else ((V shr #j) band #m)%code in
  let g := put_line 6 (Set_ Va (shifted (UB4BITS - k - 1) (UB4BITS - alog))) (put_line 5 (Set_ Vb lb) g) in
  j ← next_j 64 g j;
  Ok (ks, set_ijk 4 j k g).

Definition state7 (alog : Z) (g : gencode) : result (list key * gencode) :=
  let j := g_j g in let k := g_k g in let m := u32 (blen - 1) in
  let addk := u32 (GOLDEN * salt) in
  let bits := u32 (g_highbit g + 1 - g_lowbit g) in
  ks ← split_keys (fun v => let v := mix7 g addk v in if decide (k = 0) then rsh v (UB4BITS - alog) else w ← lsh v k; rsh (add32 v w) (UB4BITS - alog))
                  (fun v => sm (mix7 g addk v) j m);
  let g := put_line 1 (Set_ Vval (V + #addk)%code) g in
  let g := if decide (16 < bits) then put_line 2 (Set_ Vval (V ^ (V shr #16))%code) g else g in
  let g := if decide (8 < bits) then put_line 3 (Set_ Vval (V + (V shl #8))%code) g else g in
  let g := put_line 4 (Set_ Vval (V ^ (V shr #4))%code) g in
  let g := put_line 5 (Set_ Vb (masked j m)) g in
  let g := put_line 6 (Set_ Va (if decide (k = 0) then (V shr #(UB4BITS - alog))%code else ((V + (V shl #k)) shr #(UB4BITS - alog))%code)) g in
  Ok (ks, set_ijk 7 (j + 1) k g).

(** The machine: a state that finds nothing to try passes on to the next. *)
Fixpoint hexn_run (fuel : nat) (alog blog : Z) (g : gencode) : result (list key * gencode) :=
  match fuel with
  | O => Fault NoFuel
  | S fuel =>
      let run := hexn_run fuel alog blog in
      match g_i g with
      | 1 => state1 alog g
      | 2 => state2 blog g
      | 3 => run (set_ijk 4 (g_lowbit g) (g_lowbit g) g)
      | 4 => if decide (g_j g < g_highbit g) then state4 alog blog g else run (set_ijk 5 (g_j g) (g_k g) g)
      | 5 =>
          k ← next_k 64 alog g (g_k g);
          if decide (k < g_highbit g) then run (set_ijk 4 (g_lowbit g) k g) else run (set_ijk 6 (g_j g) k g)
      | 6 => run (set_ijk 7 0 0 g)
      | 7 => if decide (g_j g <= UB4BITS - blog) then state7 alog g else run (set_ijk 8 (g_j g) (g_k g) g)
      | 8 =>
          let k := g_k g + 1 in
          if decide (k <= UB4BITS - alog) then run (set_ijk 7 0 k g) else run (set_ijk 9 (g_j g) k g)
      | 9 => run (set_ijk 6 (g_j g) (g_k g) g)
      | _ => Fault NoFuel
      end
  end.

Definition hexn (g : gencode) : result (list key * gencode) :=
  alog ← mylog2 alen; blog ← mylog2 blen; hexn_run 128 alog blog g.
End hexn.

(** ** The bits that differ *)
Definition diffbits (keys : list key) : Z :=
  match keys with [] => 0 | f :: _ => foldl (fun d y => Z.lor d (Z.lxor (hash_k f) (hash_k y))) 0 keys end.
Definition lowest (d : Z) : Z := default UB4BITS (list_find (fun i => Z.testbit d i = true) (seqZ 0 UB4BITS) ≫= fun p => Some p.2).
(** The loop ends at 0 without looking at that bit. *)
Definition highest (d : Z) : Z := default 0 (list_find (fun i => Z.testbit d i = true) (reverse (seqZ 1 (UB4BITS - 1))) ≫= fun p => Some p.2).
Definition setlow (keys : list key) (g : gencode) : gencode :=
  let d := diffbits keys in
  Gen (g_line g) (g_used g) (lowest d) (highest d) d (g_i g) (g_j g) (g_k g).

(** ** inithex *)
(** The first call of [hexn] for a set of keys. *)
Definition hexn_begin (blen : Z) (g : gencode) : gencode :=
  let last := if decide (blen < USE_SCRAMBLE) then (Var Va ^ Tab (Var Vb))%code else (Var Va ^ Scramble (Tab (Var Vb)))%code in
  set_ijk 1 0 0 (set_lines 8 [Decl; Blank; Blank; Blank; Blank; Blank; Blank; Set_ Vrsl last] g).

(** Whether the hash is finished, the keys with their (a,b), the code. *)
Definition inithex (keys : list key) (nkeys alen blen smax salt : Z) (form : hashform) (g : gencode) : result (bool * list key * gencode) :=
  let g := setlow keys g in
  match nkeys, keys with
  | 1, y :: ks => Ok (true, set_ab y 0 0 :: ks, hexone g)
  | 2, y :: z :: _ => g ← hextwo (hash_k y) (hash_k z) g; Ok (true, keys, g)
  | 3, y :: z :: w :: _ => g ← hexthree form (hash_k y) (hash_k z) (hash_k w) g; Ok (true, keys, g)
  | 4, y :: z :: w :: x :: _ => g ← hexfour (hash_k y, hash_k z, hash_k w, hash_k x) g; Ok (true, keys, g)
  | _, _ =>
      r ← (if decide (5 <= nkeys <= 8 /\ salt = 1) then hexeight nkeys form g keys else Ok (None, keys));
      match r with
      | (Some g, keys) => Ok (true, keys, g)
      | (None, keys) =>
          let g := if decide (salt = 1) then hexn_begin blen g else g in
          r ← hexn keys salt alen blen g;
          Ok (false, r.1, r.2)
      end
  end.
