(* ===== verification/Findhash.v ===== *)
(** * The perfect hash: finding one and writing it

    The rest of src/lib/perfect/perfect.c: the initial hash of the keys, the search for sizes and
    a salt that give a perfect hash, and what is written to phash.h and phash.c.  Memory that is
    allocated holds zeros here; all of it is written before it is read.  The keys are in the
    order of the list, the last key read first. *)
From S2P Require Import Prelude CLib Word Bytes Lookupa Perfect Gencode PerfHex.

#[local] Open Scope Z_scope.

Definition RETRY_INITKEY : Z := 2048.
Definition RETRY_PERFECT : Z := 1.
Definition RETRY_HEX : Z := 200.
Definition UB2MAXVAL : Z := 0xffff.

#[local] Notation V := (Var Vval).
#[local] Notation "# n" := (Num n) (at level 0, n at level 0).

(** [hash >> n] where the guard before it makes [n] less than 32. *)
Definition initlev_of (salt : Z) : Z := u32 (salt * GOLDEN).

(** [for (i=0; i<CHECKSTATE; ++i) state[i] = initlev;] *)
Definition cs_fill (initlev : Z) : cstate := CS initlev initlev initlev initlev initlev initlev initlev initlev.

(** ** Normal mode: [lookup], or [checksum] when one word is not enough *)
Definition initnorm (keys : list key) (alen blen smax salt : Z) (g : gencode) : result (list key * gencode) :=
  loga ← mylog2 alen;
  logb ← mylog2 blen;
  let initlev := initlev_of salt in
  if decide (UB4BITS < loga + logb) then
    ks ← mapM (fun y =>
      s ← checksum (name_k y) (len_k y) (cs_fill initlev);
      Ok (set_ab y (Z.land (cs_a s) (u32 (alen - 1))) (Z.land (cs_b s) (u32 (blen - 1))))) keys;
    Ok (ks, set_lines 4 [Decl; InitState initlev; Checksum;
      Set_ Vrsl ((State 0 band #(u32 (alen - 1))) ^ Scramble (Tab (State 1 band #(u32 (blen - 1)))))%code] g)
  else
    ks ← mapM (fun y =>
      hash ← lookup (name_k y) (len_k y) initlev;
      a ← (if decide (0 < loga) then rsh hash (UB4BITS - loga) else Ok 0);
      Ok (set_ab y a (if decide (1 < blen) then Z.land hash (u32 (blen - 1)) else 0))) keys;
    let m := u32 (blen - 1) in
    let last :=
      if decide (smax <= 1) then #0
      else if decide (loga = 0) then Tab (V band #m)%code
      else if decide (blen < USE_SCRAMBLE) then ((V shr #(UB4BITS - loga)) ^ Tab (V band #m))%code
      else ((V shr #(UB4BITS - loga)) ^ Scramble (Tab (V band #m)))%code in
    Ok (ks, set_lines 2 [DeclLookup initlev; Set_ Vrsl last] g).

(** ** Inline mode *)
(** The loop the user of the hash runs over the key, starting from PHASHSALT. *)
Definition inline_step (hash c : Z) : Z := add32 (Z.lxor c hash) (add32 (shl32 hash (UB4BITS - 6)) (Z.shiftr hash 6)).
Definition inline_hash (y : key) (initval : Z) : result Z :=
  if decide (Z.of_nat (length (name_k y)) < len_k y) then Fault OutOfBounds
  else Ok (foldl inline_step initval (take (Z.to_nat (len_k y)) (name_k y))).

Definition initinl (keys : list key) (alen blen smax salt : Z) (g : gencode) : result (list key * gencode) :=
  let amask := u32 (alen - 1) in
  blog ← mylog2 blen;
  ks ← mapM (fun y =>
    hash ← inline_hash y (initlev_of salt);
    b ← (if decide (1 < blen) then rsh hash (UB4BITS - blog) else Ok 0);
    Ok (Key (name_k y) (len_k y) hash (if decide (1 < alen) then Z.land hash amask else 0) b)) keys;
  let e :=
    if decide (smax <= 1) then #0
    else if decide (blen < USE_SCRAMBLE) then ((V band #amask) ^ Tab (V shr #(UB4BITS - blog)))%code
    else ((V band #amask) ^ Scramble (Tab (V shr #(UB4BITS - blog))))%code in
  Ok (ks, set_lines 1 [Set_ Vrsl e] g).

(** ** The initial hash *)
Inductive initrsl := NoDistinct | Distinct (t : list bstuff) | Finished.

Definition initkey (keys : list key) (nkeys alen blen smax salt : Z) (form : hashform) (g : gencode) : result (initrsl * list key * gencode) :=
  r ← match f_mode form with
      | NORMAL_HM => r ← initnorm keys alen blen smax salt g; Ok (false, r.1, r.2)
      | INLINE_HM => r ← initinl keys alen blen smax salt g; Ok (false, r.1, r.2)
      | HEX_HM | DECIMAL_HM => inithex keys nkeys alen blen smax salt form g
      | AB_HM | ABDEC_HM => Fault ExitCalled
      end;
  let '(finished, keys, g) := r in
  if (finished : bool) then Ok (Finished, keys, g)
  else if decide (nkeys <= 1) then Ok (Finished, keys, set_lines 1 [Set_ Vrsl (#0)] g)
  else
    r ← inittab keys blen form false;
    Ok (if (r.1 : bool) then Distinct r.2 else NoDistinct, keys, g).

(** Every pair of keys with one b. *)
Fixpoint dup_pairs (keys : list key) (form : hashform) (ks : list nat) : result unit :=
  match ks with
  | [] => Ok tt
  | k :: ks =>
      key1 ← kget keys k;
      _ ← mapM (fun k2 => key2 ← kget keys k2; checkdup form key1 key2) ks;
      dup_pairs keys form ks
  end.
Definition duplicates (keys : list key) (blen : Z) (form : hashform) : result unit :=
  r ← inittab keys blen form true;
  _ ← mapM (fun e => dup_pairs keys form (list_b e)) r.2;
  Ok tt.

(** ** The first sizes *)
(** The comparisons with multiples of [smax] by 0.8, 0.56, 0.74, 0.6, 0.52, 5.0/8.0 and 3.0/4.0
    are in exact fractions: [smax] is a power of two, so that the products of doubles are off by
    much less than the distance of an integer from the exact product. *)
Definition le_frac (nkeys num den smax : Z) : bool := bool_decide (den * nkeys <= num * smax).

(** [blen0] is what [*blen] holds before the call, which reads it when the keys are integers. *)
Definition initalen (blen0 smax nkeys : Z) (form : hashform) : result (Z * Z * Z) :=
  let fast := bool_decide (f_speed form = FAST_HS) in
  let int := bool_decide (f_hashtype form = INT_HT) in
  if decide (f_perfect form = NORMAL_HP) then
    let smax := if decide (fast = true /\ le_frac nkeys 4 5 smax = false) then u32 (smax * 2) else smax in
    alen ← (if decide (int = true /\ 131072 < smax) then l ← mylog2 blen0; lsh 1 (UB4BITS - l) else Ok smax);
    let blen :=
      if decide (int = true /\ smax < 32) then smax
      else if decide (smax / 4 <= 2 ^ 14) then
        (if le_frac nkeys 14 25 smax then smax / 32 else if le_frac nkeys 37 50 smax then smax / 16 else smax / 8)
      else (if le_frac nkeys 3 5 smax then smax / 16 else if le_frac nkeys 4 5 smax then smax / 8 else smax / 4) in
    let blen := if decide (fast = true /\ blen < smax / 8) then smax / 8 else blen in
    Ok (if decide (alen < 1) then 1 else alen, if decide (blen < 1) then 1 else blen, smax)
  else
    l ← mylog2 smax;
    Ok (if decide (l <= 8) then (smax / 2, smax / 2, smax)
        else if decide (l <= 17) then
          if fast then (smax / 2, smax / 4, smax)
          else if decide (smax / 4 < USE_SCRAMBLE) then
            (if le_frac nkeys 13 25 smax then (smax / 8, smax / 8, smax) else (smax / 4, smax / 4, smax))
          else (if le_frac nkeys 5 8 smax then smax / 8 else if le_frac nkeys 3 4 smax then smax / 4 else smax / 2, smax / 4, smax)
        else if decide (l = 18) then
          if fast then (smax / 2, smax / 2, smax)
          else (smax / 8, if le_frac nkeys 5 8 smax then smax / 4 else smax / 2, smax)
        else if decide (l <= 20) then
          (if le_frac nkeys 5 8 smax then smax / 8 else smax / 2, if le_frac nkeys 5 8 smax then smax / 4 else smax / 2, smax)
        else (smax / 2, smax / 2, smax)).

(** ** The search *)
Record search := Search {
  s_alen : Z; s_blen : Z; s_keys : list key; s_gen : gencode;
  s_tabh : list (option nat); s_tabq : list qstuff;
  s_initkey : Z; s_perfect : Z; s_salt : Z
}.
(** What [findhash] hands to the writers. *)
Record found := Found { fd_tab : list bstuff; fd_alen : Z; fd_blen : Z; fd_salt : Z; fd_smax : Z; fd_scramble : list Z; fd_gen : gencode; fd_keys : list key }.

Definition new_tabq (blen : Z) : list qstuff := replicate (Z.to_nat (blen + 1)) (Qst None 0 0 0).
Definition new_tabh (nkeys smax : Z) (form : hashform) : list (option nat) := replicate (Z.to_nat (if decide (f_perfect form = MINIMAL_HP) then nkeys else smax)) None.

Section find.
Context (nkeys smax : Z) (form : hashform) (scramble : list Z).
Definition maxalen : Z := if decide (f_perfect form = MINIMAL_HP) then smax / 2 else smax.

(** [initkey] has failed: after RETRY_INITKEY times more bits are tried. *)
Definition retry_initkey (s : search) (keys : list key) (g : gencode) : result search :=
  let bad := s_initkey s + 1 in
  let salt := u32 (s_salt s + 1) in
  if decide (RETRY_INITKEY <= bad) then
    if decide (s_alen s < maxalen) then Ok (Search (u32 (s_alen s * 2)) (s_blen s) keys g (s_tabh s) (s_tabq s) 0 0 salt)
    else if decide (s_blen s < smax) then
      let blen := u32 (s_blen s * 2) in Ok (Search (s_alen s) blen keys g (s_tabh s) (new_tabq blen) 0 0 salt)
    else _ ← duplicates keys (s_blen s) form; Fault ExitCalled
  else Ok (Search (s_alen s) (s_blen s) keys g (s_tabh s) (s_tabq s) bad (s_perfect s) salt).

(** [perfect] has failed with the tables [p]. *)
Definition retry_perfect (s : search) (keys : list key) (g : gencode) (p : pst) : result search :=
  let bad := s_perfect s + 1 in
  if decide ((f_hashtype form <> INT_HT /\ RETRY_PERFECT <= bad) \/ (f_hashtype form = INT_HT /\ RETRY_HEX <= bad)) then
    if decide (s_blen s < smax) then
      let blen := u32 (s_blen s * 2) in Ok (Search (s_alen s) blen keys g (tabh p) (new_tabq blen) (s_initkey s) 0 (s_salt s))
    else Fault ExitCalled
  else Ok (Search (s_alen s) (s_blen s) keys g (tabh p) (tabq p) (s_initkey s) bad (u32 (s_salt s + 1))).

Definition find_step (s : search) : result (search + found) :=
  r ← initkey (s_keys s) nkeys (s_alen s) (s_blen s) smax (s_salt s) form (s_gen s);
  let '(rsl, keys, g) := r in
  match rsl with
  | Finished => Ok (inr (Found [] (s_alen s) 0 1 smax scramble g keys))
  | NoDistinct => inl <$> retry_initkey s keys g
  | Distinct t =>
      r ← perfect keys scramble (s_blen s) smax nkeys form (Pst t (s_tabh s) (s_tabq s));
      if (r.1 : bool) then Ok (inr (Found (tabb r.2) (s_alen s) (s_blen s) (s_salt s) smax scramble g keys))
      else inl <$> retry_perfect s keys g r.2
  end.

Fixpoint find_loop (fuel : nat) (s : search) : result found :=
  match fuel with
  | O => Fault NoFuel
  | S fuel => r ← find_step s; match r with inl s => find_loop fuel s | inr f => Ok f end
  end.
End find.

Definition find_fuel : nat := 2300 * 70.

(** [blen0]: what the variable [blen] of the caller holds. *)
Definition findhash_search (blen0 : Z) (keys : list key) (nkeys : Z) (form : hashform) : result found :=
  l ← mylog2 nkeys;
  smax ← lsh 1 l;
  r ← initalen blen0 smax nkeys form;
  let '(alen, blen, smax) := r in
  scramble ← scrambleinit smax;
  find_loop nkeys smax form scramble find_fuel
    (Search alen blen keys no_code (new_tabh nkeys smax form) (new_tabq blen) 0 0 1).

(** ** Keys that are (a,b) already *)
(** [while len <= x, len *= 2]; if [x] has its highest bit the loop of the code never ends
    (the length becomes 0), and so does this one end without fuel. *)
Fixpoint cover (fuel : nat) (len x : Z) : result Z :=
  match fuel with
  | O => Fault NoFuel
  | S fuel => if decide (len <= x) then cover fuel (u32 (len * 2)) x else Ok len
  end.
Fixpoint cover_keys (ks : list key) (alen blen : Z) : result (Z * Z) :=
  match ks with
  | [] => Ok (alen, blen)
  | y :: ks => alen ← cover 40 alen (a_k y); blen ← cover 40 blen (b_k y); cover_keys ks alen blen
  end.

Definition hash_ab (keys : list key) (nkeys : Z) (form : hashform) (g : gencode) : result found :=
  l ← mylog2 nkeys;
  smax ← lsh 1 l;
  scramble ← scrambleinit smax;
  r ← cover_keys keys 1 1;
  let '(alen, blen) := r in
  if decide (u32 (2 * smax) < alen) then Fault ExitCalled
  else
    r ← inittab keys blen form false;
    r ← perfect keys scramble blen smax nkeys form (Pst r.2 (new_tabh nkeys smax form) (new_tabq blen));
    r ← (if (r.1 : bool) then Ok (r.2, smax, scramble)
         else if decide (f_perfect form = MINIMAL_HP) then Fault ExitCalled
         else
           let smax := u32 (smax * 2) in
           scramble ← scrambleinit smax;
           r ← perfect keys scramble blen smax nkeys form (Pst (tabb r.2) (new_tabh nkeys smax form) (tabq r.2));
           if (r.1 : bool) then Ok (r.2, smax, scramble) else Fault ExitCalled);
    let '(p, smax, scramble) := r in
    let used_tab := existsb (fun e => bool_decide (val_b e <> 0)) (tabb p) in
    let e := if used_tab then (if decide (blen < USE_SCRAMBLE) then Var Va ^ Tab (Var Vb) else Var Va ^ Scramble (Tab (Var Vb)))%code else Var Va in
    Ok (Found (tabb p) alen blen 1 smax scramble (set_lines 1 [Set_ Vrsl e] g) keys).

Definition findhash (blen0 : Z) (keys : list key) (nkeys : Z) (form : hashform) : result found :=
  if decide (f_hashtype form = AB_HT) then hash_ab keys nkeys form no_code else findhash_search blen0 keys nkeys form.

(** ** phash.c *)
(** The width in bits of the elements of the two arrays. *)
Definition tab_bits (smax blen : Z) : Z := if decide (smax <= UB1MAXVAL + 1 \/ USE_SCRAMBLE <= blen) then 8 else 16.
Definition scramble_bits (smax : Z) : Z := if decide (UB2MAXVAL + 1 < smax) then 32 else 16.

(** The indexes a loop that prints [n] elements a line goes through. *)
Definition by_lines (n blen : Z) : list Z := seqZ 0 ((blen + n - 1) / n * n).

(** An initializer is cut to the type of the element. *)
Definition tab_entry (f : found) (scrambled : bool) (i : Z) : result Z :=
  e ← arr (fd_tab f) i;
  v ← (if scrambled then arr (fd_scramble f) (val_b e) else Ok (val_b e));
  Ok (v mod 2 ^ tab_bits (fd_smax f) (fd_blen f)).

Definition make_c_tab (f : found) : result (list Z) :=
  let blen := fd_blen f in
  if decide (blen < 16) then mapM (tab_entry f true) (seqZ 0 blen)
  else if decide (blen <= 1024) then mapM (tab_entry f true) (by_lines 16 blen)
  else if decide (blen < USE_SCRAMBLE) then mapM (tab_entry f true) (by_lines 8 blen)
  else mapM (tab_entry f false) (by_lines 16 blen).

Definition make_c_scramble (f : found) : result (list Z) :=
  if decide (USE_SCRAMBLE <= fd_blen f) then
    mapM (fun i => v ← arr (fd_scramble f) i; Ok (v mod 2 ^ scramble_bits (fd_smax f))) (seqZ 0 (UB1MAXVAL + 1))
  else Ok [].

Record phash_c := PhashC { pc_tab : list Z; pc_scramble : list Z; pc_code : list line; pc_salt : Z }.

(** What is written: the arrays, the body of [phash], and PHASHSALT of phash.h. *)
Definition make_c (f : found) : result phash_c :=
  t ← make_c_tab f; s ← make_c_scramble f; Ok (PhashC t s (code (fd_gen f)) (initlev_of (fd_salt f))).

(** ** phash *)
(** The written function applied to a key: in inline mode the caller hashes the key first, from
    PHASHSALT. *)
Definition phash (form : hashform) (c : phash_c) (y : key) : result Z :=
  let run vars := run_lines (pc_tab c) (pc_scramble c) (name_k y) (len_k y) (Env vars None) (pc_code c) in
  match f_mode form with
  | NORMAL_HM => run []
  | INLINE_HM => v ← inline_hash y (pc_salt c); run [(Vval, v)]
  | HEX_HM | DECIMAL_HM => run [(Vval, hash_k y)]
  | AB_HM | ABDEC_HM => run [(Va, a_k y); (Vb, b_k y)]
  end.
