(* ===== verification/PerfMain.v ===== *)
(** * The perfect hash: reading the keys, phash.h, and the program

    The rest of src/lib/perfect/perfect.c.  The options are an argument string, standard input is
    a list of bytes.  A freshly allocated key holds what the allocator left in it: [junk].  A text
    buffer is the text that was read with its terminator; what follows it in memory is not
    modelled, and reading it is [OutOfBounds].  [scanf] is that of the C standard, on a 64-bit
    [unsigned long]. *)
From S2P Require Import Prelude CLib Word Bytes Lookupa Perfect Gencode PerfHex Findhash.

#[local] Open Scope Z_scope.

Definition MAXKEYLEN : Z := 30.

(** ** The standard library *)
(** [fgets(s, n + 1, stdin)]: the bytes read and the rest; none at the end of the input. *)
Fixpoint fgets (n : nat) (s : bytes) : bytes * bytes :=
  match n, s with
  | O, _ | _, [] => ([], s)
  | S n, c :: s => if decide (c = 10) then ([c], s) else let '(l, r) := fgets n s in (c :: l, r)
  end.
(** The string in a buffer, up to its terminator. *)
Fixpoint c_string (s : bytes) : bytes :=
  match s with
  | [] => []
  | c :: s => if decide (c = 0) then [] else c :: c_string s
  end.

Definition is_space (c : Z) : bool := bool_decide (9 <= c <= 13 \/ c = 32).
Fixpoint skip_space (s : bytes) : bytes := match s with c :: r => if is_space c then skip_space r else s | [] => [] end.
Definition digit_value (base c : Z) : option Z :=
  let v := if decide (48 <= c <= 57) then c - 48 else if decide (65 <= c <= 70) then c - 55 else if decide (97 <= c <= 102) then c - 87 else base in
  if decide (v < base) then Some v else None.
(** The value of the digits and what follows them. *)
Fixpoint scan_digits (base v : Z) (s : bytes) : Z * bytes :=
  match s with
  | c :: r => match digit_value base c with Some x => scan_digits base (v * base + x) r | None => (v, s) end
  | [] => (v, [])
  end.
Definition UB8MAXVAL : Z := 0xffffffffffffffff.
(** [%u] and [%x]: [None] if there is no number. *)
Definition scan_uint (base : Z) (s : bytes) : option (Z * bytes) :=
  let s := skip_space s in
  let '(neg, s) := match s with 43 :: r => (false, r) | 45 :: r => (true, r) | _ => (false, s) end in
  let s := if decide (base = 16) then match s with 48 :: 88 :: r | 48 :: 120 :: r => r | _ => s end else s in
  match s with
  | c :: _ =>
      if decide (is_Some (digit_value base c)) then
        let '(v, r) := scan_digits base 0 s in
        let v := if decide (UB8MAXVAL < v) then UB8MAXVAL else if (neg : bool) then (- v) mod (UB8MAXVAL + 1) else v in
        Some (u32 v, r)
      else None
  | [] => None
  end.

(** ** Keys *)
(** A variable that [sscanf] does not reach keeps its value. *)
Definition scan_one (base : Z) (text : bytes) (x : Z) : Z := match scan_uint base text with Some (v, _) => v | None => x end.
Definition scan_two (base : Z) (text : bytes) (x y : Z) : Z * Z :=
  match scan_uint base text with
  | Some (v, r) => (v, scan_one base (skip_space r) y)
  | None => (x, y)
  end.

Definition new_key (junk : key) (form : hashform) (text : bytes) : key :=
  let ab base := let '(a, b) := scan_two base text (a_k junk) (b_k junk) in Key (name_k junk) (len_k junk) (hash_k junk) a b in
  let int base := Key (name_k junk) (len_k junk) (scan_one base text (hash_k junk)) (a_k junk) (b_k junk) in
  match f_mode form with
  | AB_HM => ab 16
  | ABDEC_HM => ab 10
  | HEX_HM => int 16
  | DECIMAL_HM => int 10
  | NORMAL_HM | INLINE_HM => Key (text ++ [0]) (u32 (Z.of_nat (length text) - 1)) (hash_k junk) (a_k junk) (b_k junk)
  end.

(** [if (mytext[len-1] == '\n') mytext[len-1] = '\0';] *)
Definition trim_newline (text : bytes) : result bytes :=
  match last text with
  | None => Fault OutOfBounds
  | Some c => Ok (if decide (c = 10) then take (length text - 1) text else text)
  end.

Fixpoint getkeys_loop (fuel : nat) (junk : key) (form : hashform) (stdin : bytes) (keys : list key) : result (list key) :=
  match fuel with
  | O => Fault NoFuel
  | S fuel =>
      let '(line, stdin) := fgets (Z.to_nat (MAXKEYLEN - 1)) stdin in
      if decide (line = []) then Ok keys
      else
        text ← trim_newline (c_string line);
        getkeys_loop fuel junk form stdin (new_key junk form text :: keys)
  end.
(** Every line takes a byte of the input. *)
Definition getkeys (junk : key) (form : hashform) (stdin : bytes) : result (list key) := getkeys_loop (S (length stdin)) junk form stdin [].

(** ** phash.h *)
(** The widths of the elements of the arrays that are declared, and the macros. *)
Record phash_h := PhashH { ph_tab : option Z; ph_scramble : option Z; ph_len : option Z; ph_nkeys : Z; ph_range : Z; ph_salt : Z }.

Definition make_h (blen smax nkeys salt : Z) : phash_h :=
  let small := bool_decide (smax <= UB1MAXVAL + 1 \/ USE_SCRAMBLE <= blen) in
  let '(tab, scr) :=
    if decide (0 < blen) then
      if (small : bool) then (Some 8, None)
      else (Some 16, if decide (USE_SCRAMBLE <= blen) then Some (if decide (smax <= UB2MAXVAL + 1) then 16 else 32) else None)
    else (None, None) in
  PhashH tab scr (if decide (0 < blen) then Some blen else None) nkeys smax (u32 (salt * GOLDEN)).

Definition driver (junk : key) (blen0 : Z) (form : hashform) (stdin : bytes) : result (phash_h * phash_c) :=
  keys ← getkeys junk form stdin;
  let nkeys := Z.of_nat (length keys) in
  f ← findhash blen0 keys nkeys form;
  c ← make_c f;
  Ok (make_h (fd_blen f) (fd_smax f) nkeys (fd_salt f), c).

(** ** The options *)
Record options := Opt { o_mode : bool; o_minimal : bool; o_speed : bool; o_form : hashform }.
Definition default_form : hashform := Form NORMAL_HM STRING_HT MINIMAL_HP SLOW_HS.

(** What a letter asks for. *)
Inductive choice := Mode (m : hmode) (t : htype) | Minimal (p : hperfect) | Speed (s : hspeed).
Definition to_lower (c : Z) : Z := if decide (65 <= c <= 90) then c + 32 else c.
Definition letter (c : Z) : option choice :=
  match to_lower c with
  | 110 => Some (Mode NORMAL_HM STRING_HT)
  | 105 => Some (Mode INLINE_HM STRING_HT)
  | 104 => Some (Mode HEX_HM INT_HT)
  | 100 => Some (Mode DECIMAL_HM INT_HT)
  | 97 => Some (Mode AB_HM AB_HT)
  | 98 => Some (Mode ABDEC_HM AB_HT)
  | 109 => Some (Minimal MINIMAL_HP)
  | 112 => Some (Minimal NORMAL_HP)
  | 102 => Some (Speed FAST_HS)
  | 115 => Some (Speed SLOW_HS)
  | _ => None
  end.
(** [usage_error] exits. *)
Definition option_step (o : options) (c : Z) : result options :=
  let f := o_form o in
  match letter c with
  | Some (Mode m t) => if o_mode o then Fault ExitCalled else Ok (Opt true (o_minimal o) (o_speed o) (Form m t (f_perfect f) (f_speed f)))
  | Some (Minimal p) => if o_minimal o then Fault ExitCalled else Ok (Opt (o_mode o) true (o_speed o) (Form (f_mode f) (f_hashtype f) p (f_speed f)))
  | Some (Speed s) => if o_speed o then Fault ExitCalled else Ok (Opt (o_mode o) (o_minimal o) true (Form (f_mode f) (f_hashtype f) (f_perfect f) s))
  | None => Fault ExitCalled
  end.
Fixpoint option_steps (o : options) (s : bytes) : result options :=
  match s with [] => Ok o | c :: s => o ← option_step o c; option_steps o s end.

(** The arguments after the name of the program. *)
Definition parse_args (args : list bytes) : result hashform :=
  match args with
  | [] => Ok default_form
  | [45 :: s] => o ← option_steps (Opt false false false default_form) s; Ok (o_form o)
  | _ => Fault ExitCalled
  end.

Definition perfect_main (junk : key) (blen0 : Z) (args : list bytes) (stdin : bytes) : result (phash_h * phash_c) :=
  form ← parse_args args; driver junk blen0 form stdin.
