(* ===== verification/PerfHexOk.v ===== *)
(** * The perfect hash of integer keys: what the searches find

    A search that tries one expression after the other finds only what it may find, and nothing
    only when every try failed.  For three keys there is always something to find. *)
From S2P Require Import Prelude CLib Word Bytes Lookupa Perfect PerfectOk PerfectSpec Gencode PerfHex.

#[local] Open Scope Z_scope.

(** ** Searches *)
(** [r] ends, and what it finds is in [P]. *)
Definition finds {A} (r : result (option A)) (P : A -> Prop) : Prop := exists o, r = Ok o /\ forall x, o = Some x -> P x.

Lemma finds_none {A} (P : A -> Prop) : finds (Ok None) P.
Proof. by exists None. Qed.

Lemma finds_some {A} (x : A) (P : A -> Prop) : P x -> finds (Ok (Some x)) P.
Proof. intros Hx. exists (Some x). split; [done|]. by intros y [= ->]. Qed.

Lemma finds_orelse {A} (x y : result (option A)) P : finds x P -> finds y P -> finds (orelse x y) P.
Proof. intros ([a|] & -> & Ha) Hy; [|done]. exists (Some a). by split. Qed.

Lemma orelse_none {A} (x y : result (option A)) P : finds x P -> orelse x y = Ok None -> x = Ok None /\ y = Ok None.
Proof. intros ([a|] & -> & _); [done|]. by intros Hy. Qed.

Lemma for_from_finds {A} fuel (cond : Z -> bool) lo hi (body : Z -> result (option A)) P : (forall i, cond i = bool_decide (i < hi)) -> 0 <= lo -> hi <= 33 ->
  (forall i, lo <= i < hi -> finds (body i) P) -> hi - lo < Z.of_nat fuel -> (0 < fuel)%nat ->
  finds (for_from fuel cond lo body) P /\ (for_from fuel cond lo body = Ok None -> forall i, lo <= i < hi -> body i = Ok None).
Proof.
  intros Hc. revert lo. induction fuel as [|fuel IH]; intros lo Hlo Hhi Hb Hf H0; [lia|].
  cbn [for_from]. rewrite Hc. case_bool_decide as Hd; [|split; [apply finds_none|lia]]. destruct (Hb lo) as ([x|] & Hx & HP); [lia| |].
  - rewrite Hx. split; [apply finds_some; by apply HP|done].
  - rewrite Hx. cbn [mbind result_bind]. rewrite u32_small by lia. destruct (IH (lo + 1)) as [IH1 IH2]; [lia|lia|intros i Hi; apply Hb; lia|lia|lia|].
    split; [done|]. intros Hn i Hi. destruct (decide (i = lo)) as [->|]; [done|]. apply IH2; [done|lia].
Qed.

Lemma for_below_finds {A} lo hi (body : Z -> result (option A)) P : 0 <= lo -> hi <= 33 -> (forall i, lo <= i < hi -> finds (body i) P) ->
  finds (for_loop lo (below hi) body) P /\ (for_loop lo (below hi) body = Ok None -> forall i, lo <= i < hi -> body i = Ok None).
Proof. intros Hlo Hhi Hb. apply (for_from_finds 64 (below hi) lo hi); [done..|lia|lia]. Qed.

Lemma for_upto_finds {A} lo hi (body : Z -> result (option A)) P : 0 <= lo -> hi <= 32 -> (forall i, lo <= i <= hi -> finds (body i) P) ->
  finds (for_loop lo (upto hi) body) P /\ (for_loop lo (upto hi) body = Ok None -> forall i, lo <= i <= hi -> body i = Ok None).
Proof.
  intros Hlo Hhi Hb. destruct (for_from_finds 64 (upto hi) lo (hi + 1) body P) as [Hf Hn]; [|done|lia|intros i Hi; apply Hb; lia|lia|lia|].
  - intros i. unfold upto. apply bool_decide_ext. lia.
  - split; [done|]. intros H i Hi. apply Hn; [done|lia].
Qed.

(** ** The bits that differ *)
Lemma land_1_bit w : Z.land w 1 = Z.b2z (Z.testbit w 0).
Proof. change 1 with (Z.ones 1). rewrite Z.land_ones by lia. change (2 ^ 1) with 2. by rewrite Z.bit0_mod. Qed.

Lemma land_3_bits w : Z.land w 3 = Z.b2z (Z.testbit w 0) + 2 * Z.b2z (Z.testbit w 1).
Proof.
  change 3 with (Z.ones 2). rewrite Z.land_ones by lia. change (2 ^ 2) with (2 * 2). rewrite Z.rem_mul_r by lia. rewrite Z.bit0_mod, Z.testbit_eqb by lia. change (2 ^ 1) with 2.
  pose proof (Z.mod_pos_bound (w / 2) 2). destruct (Z.eqb_spec ((w / 2) mod 2) 1); cbn; lia.
Qed.

Lemma word_high_bits w p : word32 w -> 32 <= p -> Z.testbit w p = false.
Proof. intros [H0 Hw] Hp. destruct (decide (w = 0)) as [->|]; [apply Z.testbit_0_l|]. apply Z.bits_above_log2; [done|]. apply Z.log2_lt_pow2; [lia|]. eapply Z.lt_le_trans; [done|]. apply Z.pow_le_mono_r; lia. Qed.

(** Different words differ in a bit. *)
Lemma word_diff v w : word32 v -> word32 w -> v <> w -> exists p, 0 <= p < 32 /\ Z.testbit v p <> Z.testbit w p.
Proof.
  intros Hv Hw Hne. destruct (decide (Exists (fun p => Z.testbit v p <> Z.testbit w p) (seqZ 0 32))) as [Hex|Hno].
  - apply Exists_exists in Hex as (p & Hp%elem_of_seqZ & Hd). exists p. split; [lia|done].
  - exfalso. apply Hne, Z.bits_inj'. intros p Hp. destruct (decide (p < 32)) as [Hp32|]; [|by rewrite !word_high_bits by (done || lia)].
    destruct (decide (Z.testbit v p = Z.testbit w p)) as [|Hd]; [done|]. exfalso. apply Hno, Exists_exists. exists p. split; [apply elem_of_seqZ; lia|done].
Qed.

Lemma lowest_le d p : 0 <= p < 32 -> Z.testbit d p = true -> 0 <= lowest d <= p.
Proof.
  intros Hp Hb. unfold lowest. destruct (list_find _ (seqZ 0 UB4BITS)) as [[i q]|] eqn:Hf; cbn.
  - apply list_find_Some in Hf as (Hq & _ & Hmin). apply lookup_seqZ in Hq as [-> Hi]. split; [lia|]. destruct (decide (p < 0 + Z.of_nat i)) as [Hlt|]; [|lia].
    exfalso. apply (Hmin (Z.to_nat p) p); [apply lookup_seqZ; unfold UB4BITS; lia|lia|done].
  - apply list_find_None in Hf. exfalso. apply (proj1 (Forall_forall _ _) Hf p); [apply elem_of_seqZ; unfold UB4BITS; lia|done].
Qed.

Lemma highest_ge d p : 0 <= p < 32 -> Z.testbit d p = true -> p <= highest d < 32.
Proof.
  intros Hp Hb. unfold highest. change (UB4BITS - 1) with 31. destruct (list_find _ _) as [[i q]|] eqn:Hf; cbn.
  - apply list_find_Some in Hf as (Hq & _ & Hmin). pose proof (lookup_lt_Some _ _ _ Hq) as Hi. rewrite length_reverse, length_seqZ in Hi. rewrite reverse_lookup, length_seqZ in Hq by (rewrite length_seqZ; lia).
    apply lookup_seqZ in Hq as [-> Hi']. split; [|lia]. destruct (decide (1 + Z.of_nat (Z.to_nat 31 - S i) < p)) as [Hlt|]; [|lia].
    exfalso. apply (Hmin (Z.to_nat (31 - p)) p); [rewrite reverse_lookup, length_seqZ by (rewrite length_seqZ; lia); apply lookup_seqZ; lia|lia|done].
  - apply list_find_None in Hf. split; [|lia]. destruct (decide (p = 0)) as [->|]; [done|]. exfalso. apply (proj1 (Forall_forall _ _) Hf p); [apply elem_of_reverse, elem_of_seqZ; lia|done].
Qed.

Lemma foldl_lor_bit f (l : list key) d p : 0 <= p -> Z.testbit (foldl (fun d y => Z.lor d (Z.lxor f (hash_k y))) d l) p = Z.testbit d p || existsb (fun y => xorb (Z.testbit f p) (Z.testbit (hash_k y) p)) l.
Proof.
  intros Hp. revert d. induction l as [|y l IH]; intros d; cbn; [by rewrite orb_false_r|]. by rewrite IH, Z.lor_spec, Z.lxor_spec, orb_assoc.
Qed.

(** A bit in which two keys differ is one of [diffbits]. *)
Lemma diffbits_bit ks y z p : y ∈ ks -> z ∈ ks -> 0 <= p -> Z.testbit (hash_k y) p <> Z.testbit (hash_k z) p -> Z.testbit (diffbits ks) p = true.
Proof.
  intros Hy Hz Hp Hd. unfold diffbits. destruct ks as [|f l]; [by apply not_elem_of_nil in Hy|]. rewrite foldl_lor_bit by done. rewrite Z.testbit_0_l. cbn [orb].
  apply existsb_exists. destruct (decide (Z.testbit (hash_k f) p = Z.testbit (hash_k y) p)) as [Heq|Hne].
  - exists z. split; [by apply list_elem_of_In|]. rewrite Heq. by destruct (Z.testbit (hash_k y) p), (Z.testbit (hash_k z) p).
  - exists y. split; [by apply list_elem_of_In|]. by destruct (Z.testbit (hash_k f) p), (Z.testbit (hash_k y) p).
Qed.

(** ** What the code computes from [val] *)
Definition run_val (ls : list line) (v : Z) : result Z := run_lines [] [] [] 0 (Env [(Vval, v)] None) ls.
Definition exp_val (e : exp) (v : Z) : result Z := run_exp [] [] (Env [(Vval, v)] None) e.

Lemma run_val_set e v : run_val [Set_ Vrsl e] v = exp_val e v.
Proof. unfold run_val, run_lines. cbn [run_code run_line]. unfold exp_val. by destruct (run_exp _ _ _ e). Qed.

(** ** Three keys *)
Section three.
Context (form : hashform) (a b c : Z) (Ha : word32 a) (Hb : word32 b) (Hc : word32 c).

(** The three values are different and below 4, or 3. *)
Definition distinct3 (x y z : Z) : Prop := x <> y /\ x <> z /\ y <> z.
Definition good3 (ls : list line) : Prop := (exists e, ls = [Set_ Vrsl e]) /\ exists x y z, run_val ls a = Ok x /\ run_val ls b = Ok y /\ run_val ls c = Ok z /\ distinct3 x y z /\
  let n := if decide (f_perfect form = MINIMAL_HP) then 3 else 4 in 0 <= x < n /\ 0 <= y < n /\ 0 <= z < n.

Lemma small4 x : 0 <= x < 4 -> x = 0 \/ x = 1 \/ x = 2 \/ x = 3.
Proof. lia. Qed.

(** [find_adder] moves the hole to 3. *)
Lemma find_adder_ok x y z : 0 <= x < 4 -> 0 <= y < 4 -> 0 <= z < 4 -> distinct3 x y z ->
  let t := find_adder x y z in distinct3 (Z.lxor x t) (Z.lxor y t) (Z.lxor z t) /\ 0 <= Z.lxor x t < 3 /\ 0 <= Z.lxor y t < 3 /\ 0 <= Z.lxor z t < 3.
Proof.
  intros Hx%small4 Hy%small4 Hz%small4 (Hxy & Hxz & Hyz). unfold distinct3.
  destruct Hx as [-> | [-> | [-> | ->]]], Hy as [-> | [-> | [-> | ->]]], Hz as [-> | [-> | [-> | ->]]]; try done; vm_compute; repeat split; congruence.
Qed.

(** [f] is what [e] computes, and is below 4. *)
Definition computes (f : Z -> result Z) (e : exp) : Prop := forall v, word32 v -> exists w, f v = Ok w /\ exp_val e v = Ok w /\ 0 <= w < 4.

Lemma try3_finds f e : computes f e -> finds (try3 form a b c f e) good3 /\
  (try3 form a b c f e = Ok None -> ~ exists x y z, f a = Ok x /\ f b = Ok y /\ f c = Ok z /\ distinct3 x y z).
Proof using Ha Hb Hc.
  intros Hf. destruct (Hf a Ha) as (x & Hx & Hex & Hx4), (Hf b Hb) as (y & Hy & Hey & Hy4), (Hf c Hc) as (z & Hz & Hez & Hz4).
  unfold try3. rewrite Hx, Hy, Hz. cbn [mbind result_bind]. destruct (decide (x <> y /\ x <> z /\ y <> z)) as [Hd|Hd].
  - split; [|by case_decide]. destruct (decide (f_perfect form = NORMAL_HP \/ _)) as [Hok|Hno]; apply finds_some.
    + split; [by eexists|]. exists x, y, z. rewrite !run_val_set. split; [done|]. split; [done|]. split; [done|]. split; [done|].
      destruct (decide (f_perfect form = MINIMAL_HP)) as [Hm|_]; [|done]. destruct Hok as [?|?]; [congruence|lia].
    + destruct (find_adder_ok x y z Hx4 Hy4 Hz4 Hd) as (Hd' & Hr). set (t := find_adder x y z) in *.
      assert (Hrun : forall v w, exp_val e v = Ok w -> run_val [Set_ Vrsl (e ^ Num t)%code] v = Ok (Z.lxor w t)).
      { intros v w Hv. rewrite run_val_set. unfold exp_val in *. cbn [run_exp]. by rewrite Hv. }
      split; [by eexists|]. exists (Z.lxor x t), (Z.lxor y t), (Z.lxor z t). rewrite !(Hrun _ x), !(Hrun _ y), !(Hrun _ z) by done. split; [done|]. split; [done|]. split; [done|]. split; [done|].
      destruct (decide (f_perfect form = MINIMAL_HP)); lia.
  - split; [apply finds_none|]. intros _ (x' & y' & z' & Hx' & Hy' & Hz' & Hd'). injection Hx' as <-. injection Hy' as <-. injection Hz' as <-. by apply Hd.
Qed.

Lemma computes_and f e (h : Z -> Z) : (forall v, word32 v -> f v = Ok (Z.land (h v) 3)) -> (forall v, word32 v -> exp_val e v = Ok (h v)) -> computes f (e band Num 3)%code.
Proof.
  intros Hf He v Hv. exists (Z.land (h v) 3). split; [by apply Hf|]. split; [unfold exp_val in *; cbn [run_exp]; by rewrite He|].
  change 3 with (Z.ones 2). rewrite Z.land_ones by lia. apply Z.mod_pos_bound. lia.
Qed.

Lemma exp_shr v i : 0 <= i < 32 -> exp_val (Var Vval shr Num i)%code v = Ok (Z.shiftr v i).
Proof. intros Hi. unfold exp_val. cbn. rewrite decide_True by done. cbn. by apply rsh_Ok. Qed.

(** *** The bits of three keys *)
Definition cols (p : Z) : bool * bool * bool := (Z.testbit a p, Z.testbit b p, Z.testbit c p).
Definition apart (s t : bool * bool * bool) : bool :=
  let '(x, y, z) := s in let '(x', y', z') := t in
  (xorb x y || xorb x' y') && (xorb x z || xorb x' z') && (xorb y z || xorb y' z').
Definition constant (s : bool * bool * bool) : bool := let '(x, y, z) := s in negb (xorb x y) && negb (xorb x z).
Definition cxor (s t : bool * bool * bool) : bool * bool * bool := let '(x, y, z) := s in let '(x', y', z') := t in (xorb x x', xorb y y', xorb z z').

(** A bit between two that tell the keys apart is the same in all keys, or with one of the two
    it tells them apart as well. *)
Lemma apart_between s r t : apart s t = true -> constant r = true \/ apart s r = true \/ apart r t = true.
Proof. destruct s as [[[] []] []], r as [[[] []] []], t as [[[] []] []]; cbn; auto. Qed.

Lemma apart_constant s r r' t : apart s t = true -> constant r = true -> constant r' = true -> apart (cxor s r) (cxor r' t) = true.
Proof. destruct s as [[[] []] []], r as [[[] []] []], t as [[[] []] []], r' as [[[] []] []]; cbn; congruence. Qed.

Lemma land_3_eq w w' : Z.land w 3 = Z.land w' 3 <-> Z.testbit w 0 = Z.testbit w' 0 /\ Z.testbit w 1 = Z.testbit w' 1.
Proof. rewrite !land_3_bits. destruct (Z.testbit w 0), (Z.testbit w' 0), (Z.testbit w 1), (Z.testbit w' 1); cbn; split; try lia; try (by intros [? ?]); done. Qed.

(** Hashing by [f], which is the two lowest bits of [h], tells the keys apart when those bits do. *)
Lemma apart_distinct f h : (forall v, word32 v -> f v = Ok (Z.land (h v) 3)) ->
  apart (Z.testbit (h a) 0, Z.testbit (h b) 0, Z.testbit (h c) 0) (Z.testbit (h a) 1, Z.testbit (h b) 1, Z.testbit (h c) 1) = true ->
  exists x y z, f a = Ok x /\ f b = Ok y /\ f c = Ok z /\ distinct3 x y z.
Proof using Ha Hb Hc.
  intros Hf Hap. exists (Z.land (h a) 3), (Z.land (h b) 3), (Z.land (h c) 3). rewrite !Hf by done. split; [done|]. split; [done|]. split; [done|].
  unfold distinct3. rewrite !land_3_eq. destruct (Z.testbit (h a) 0), (Z.testbit (h b) 0), (Z.testbit (h c) 0), (Z.testbit (h a) 1), (Z.testbit (h b) 1), (Z.testbit (h c) 1); cbn in Hap; try done;
    repeat split; by intros [? ?].
Qed.

(** Two bits that tell the keys apart: either adjacent ones, or the bits next to them are
    the same in all keys. *)
Lemma closest n p q : (Z.to_nat (q - p) <= n)%nat -> 0 <= p < q -> apart (cols p) (cols q) = true ->
  exists i j, p <= i /\ i <= j < q /\ (j = i /\ apart (cols i) (cols (i + 1)) = true \/ apart (cxor (cols i) (cols j)) (cxor (cols (i + 1)) (cols (j + 1))) = true).
Proof using.
  revert p q. induction n as [|n IH]; intros p q Hn Hpq Hap; [lia|]. destruct (decide (q = p + 1)) as [->|Hne]; [exists p, p; split; [lia|]; split; [lia|]; by left|].
  assert (Hsub : forall p' q', p <= p' -> p' < q' <= q -> q' - p' < q - p -> apart (cols p') (cols q') = true ->
    exists i j, p <= i /\ i <= j < q /\ (j = i /\ apart (cols i) (cols (i + 1)) = true \/ apart (cxor (cols i) (cols j)) (cxor (cols (i + 1)) (cols (j + 1))) = true)).
  { intros p' q' Hp Hq Hlt Hap'. destruct (IH p' q') as (i & j & Hi & Hj & Hc'); [lia|lia|done|]. exists i, j. split; [lia|]. split; [lia|done]. }
  destruct (apart_between _ (cols (p + 1)) _ Hap) as [Hc1|[H1|H1]]; [|apply (Hsub p (p + 1)); [lia|lia|lia|done]|apply (Hsub (p + 1) q); [lia|lia|lia|done]].
  destruct (apart_between _ (cols (q - 1)) _ Hap) as [Hc2|[H2|H2]]; [|apply (Hsub p (q - 1)); [lia|lia|lia|done]|apply (Hsub (q - 1) q); [lia|lia|lia|done]].
  exists p, (q - 1). split; [lia|]. split; [lia|]. right. replace (q - 1 + 1) with q by lia. by apply apart_constant.
Qed.

(** The first two different keys differ in a bit; the third is like one of them there, and
    differs from it in another bit. *)
Lemma apart_exists : a <> b -> a <> c -> b <> c -> exists p q, 0 <= p < 32 /\ 0 <= q < 32 /\ p <> q /\ apart (cols p) (cols q) = true.
Proof using Ha Hb Hc.
  intros Hab Hac Hbc. destruct (word_diff a b Ha Hb Hab) as (p & Hp & Hpd). unfold cols. destruct (decide (Z.testbit c p = Z.testbit a p)) as [Hca|Hca].
  - destruct (word_diff a c Ha Hc Hac) as (q & Hq & Hqd). exists p, q. split; [done|]. split; [done|]. split; [by intros ->|].
    destruct (Z.testbit a p), (Z.testbit b p), (Z.testbit c p), (Z.testbit a q), (Z.testbit b q), (Z.testbit c q); done.
  - destruct (word_diff b c Hb Hc Hbc) as (q & Hq & Hqd). exists p, q. split; [done|]. split; [done|].
    split; [intros ->; destruct (Z.testbit a q), (Z.testbit b q), (Z.testbit c q); done|].
    destruct (Z.testbit a p), (Z.testbit b p), (Z.testbit c p), (Z.testbit a q), (Z.testbit b q), (Z.testbit c q); done.
Qed.

Lemma apart_sym s t : apart s t = apart t s.
Proof using. destruct s as [[[] []] []], t as [[[] []] []]; done. Qed.

(** A bit of a pair that tells all keys apart is not the same in all of them. *)
Lemma apart_differs p q : apart (cols p) (cols q) = true -> Z.testbit a p <> Z.testbit b p \/ Z.testbit a p <> Z.testbit c p.
Proof using.
  unfold cols. destruct (Z.testbit a p), (Z.testbit b p), (Z.testbit c p), (Z.testbit a q), (Z.testbit b q), (Z.testbit c q); cbn; intros H; (done || by left) || by right.
Qed.

Lemma hexthree_finds g : a <> b -> a <> c -> b <> c -> 0 <= g_lowbit g -> g_highbit g < 32 ->
  (forall p, 0 <= p < 32 -> Z.testbit a p <> Z.testbit b p \/ Z.testbit a p <> Z.testbit c p -> g_lowbit g <= p <= g_highbit g) ->
  exists g', hexthree form a b c g = Ok g' /\ good3 (code g').
Proof using Ha Hb Hc.
  intros Hab Hac Hbc Hlo Hhi Hbits. unfold hexthree. rewrite decide_False by (intros [?|[?|?]]; done). set (try := try3 form a b c).
  set (s1 := try (fun v => Ok (Z.land v 3)) _). set (s2 := try (fun v => rsh v _) _). set (s3 := for_loop 0 (below _) _). set (s4 := for_loop 0 (upto _) _). set (s5 := for_loop _ (upto _) _).
  assert (H1 : finds s1 good3) by (by apply try3_finds, (computes_and _ _ (fun v => v))).
  assert (H2 : finds s2 good3).
  { apply try3_finds. intros v Hv. exists (Z.shiftr v 30). split; [by apply rsh_Ok|]. split; [by apply exp_shr|]. exact (shiftr_top v 2 Hv ltac:(lia)). }
  assert (F3 : forall i, 0 <= i < 32 -> forall v, word32 v -> (w ← rsh v i; Ok (Z.land w 3)) = Ok (Z.land (Z.shiftr v i) 3)) by (intros i Hi v Hv; by rewrite rsh_Ok).
  destruct (for_below_finds 0 (g_highbit g) (fun i => try (fun v => w ← rsh v i; Ok (Z.land w 3)) ((Var Vval shr Num i) band Num 3)%code) good3) as [H3 N3].
  { lia. } { lia. } { intros i Hi. apply try3_finds. apply (computes_and _ _ (fun v => Z.shiftr v i)); [apply F3; lia|]. intros v Hv. apply exp_shr. lia. } fold s3 in H3, N3.
  assert (H4 : finds s4 good3).
  { apply for_upto_finds; [lia|lia|]. intros i Hi. apply try3_finds. apply (computes_and _ _ (fun v => add32 v (Z.shiftr v i))); intros v Hv; [by rewrite rsh_Ok by lia|].
    unfold exp_val. cbn [run_exp]. pose proof (exp_shr v i ltac:(lia)) as He. unfold exp_val in He. cbn [run_exp] in He. rewrite He. done. }
  assert (F5 : forall i j, 0 <= i < 32 -> 0 <= j < 32 -> forall v, word32 v -> (w ← rsh v i; w' ← rsh v j; Ok (Z.land (Z.lxor w w') 3)) = Ok (Z.land (Z.lxor (Z.shiftr v i) (Z.shiftr v j)) 3))
    by (intros i j Hi Hj v Hv; by rewrite !rsh_Ok).
  assert (T5 : forall i j, 0 <= i < 32 -> 0 <= j < 32 ->
    finds (try (fun v => w ← rsh v i; w' ← rsh v j; Ok (Z.land (Z.lxor w w') 3)) (((Var Vval shr Num i) ^ (Var Vval shr Num j)) band Num 3)%code) good3).
  { intros i j Hi Hj. apply try3_finds, (computes_and _ _ (fun v => Z.lxor (Z.shiftr v i) (Z.shiftr v j))); [by apply F5|]. intros v Hv.
    pose proof (exp_shr v i Hi) as Hei. pose proof (exp_shr v j Hj) as Hej. unfold exp_val in *. cbn [run_exp] in *. rewrite Hei, Hej. done. }
  destruct (for_upto_finds (g_lowbit g) (g_highbit g) (fun i => for_loop i (upto (g_highbit g)) (fun j =>
    try (fun v => w ← rsh v i; w' ← rsh v j; Ok (Z.land (Z.lxor w w') 3)) (((Var Vval shr Num i) ^ (Var Vval shr Num j)) band Num 3)%code)) good3) as [H5 N5].
  { done. } { lia. } { intros i Hi. apply for_upto_finds; [lia|lia|]. intros j Hj. apply T5; lia. } fold s5 in H5, N5.
  assert (Hall : finds (s1 or_else s2 or_else s3 or_else s4 or_else s5) good3) by (repeat apply finds_orelse; done).
  destruct Hall as ([ls|] & Hr & Hgood).
  - rewrite Hr. cbn [mbind result_bind]. eexists. split; [done|]. pose proof (Hgood ls eq_refl) as Hg. replace (code (set_lines 1 ls g)) with ls; [done|]. destruct Hg as [[e ->] _]. symmetry. apply (code_set_lines [_]).
  - exfalso. apply (orelse_none _ _ good3 H1) in Hr as [_ Hr]. apply (orelse_none _ _ good3 H2) in Hr as [_ Hr]. apply (orelse_none _ _ good3 H3) in Hr as [Hr3 Hr].
    apply (orelse_none _ _ good3 H4) in Hr as [_ Hr5]. specialize (N3 Hr3). specialize (N5 Hr5).
    destruct (apart_exists Hab Hac Hbc) as (p & q & Hp & Hq & Hpq & Hap).
    assert (Hord : exists p q, g_lowbit g <= p /\ p < q <= g_highbit g /\ apart (cols p) (cols q) = true).
    { pose proof (Hbits p Hp (apart_differs p q Hap)) as Hbp. pose proof Hap as Hap'. rewrite apart_sym in Hap'. pose proof (Hbits q Hq (apart_differs q p Hap')) as Hbq.
      destruct (decide (p < q)); [exists p, q|exists q, p]; (split; [lia|]); (split; [lia|done]). }
    clear p q Hp Hq Hpq Hap. destruct Hord as (p & q & Hp & Hq & Hap). destruct (closest (Z.to_nat (q - p)) p q) as (i & j & Hi & Hj & Hc'); [lia|lia|done|].
    destruct Hc' as [[-> Hadj]|Hxor].
    + specialize (N3 i ltac:(lia)).
      assert (Hcomp : computes (fun v => w ← rsh v i; Ok (Z.land w 3)) ((Var Vval shr Num i) band Num 3)%code)
        by (apply (computes_and _ _ (fun v => Z.shiftr v i)); [apply F3; lia|intros v Hv; apply exp_shr; lia]).
      apply (proj2 (try3_finds _ _ Hcomp) N3), (apart_distinct (fun v => w ← rsh v i; Ok (Z.land w 3)) (fun v => Z.shiftr v i)); [apply F3; lia|]. rewrite !Z.shiftr_spec by lia. by replace (1 + i) with (i + 1) by lia.
    + specialize (N5 i ltac:(lia)). cbv beta in N5. apply (for_upto_finds i (g_highbit g) _ good3) with (i := j) in N5; [|lia|lia|intros j' Hj'; apply T5; lia|lia].
      assert (Hcomp : computes (fun v => w ← rsh v i; w' ← rsh v j; Ok (Z.land (Z.lxor w w') 3)) (((Var Vval shr Num i) ^ (Var Vval shr Num j)) band Num 3)%code).
      { apply (computes_and _ _ (fun v => Z.lxor (Z.shiftr v i) (Z.shiftr v j))); [apply F5; lia|]. intros v Hv.
        pose proof (exp_shr v i ltac:(lia)) as Hei. pose proof (exp_shr v j ltac:(lia)) as Hej. unfold exp_val in *. cbn [run_exp] in *. rewrite Hei, Hej. done. }
      apply (proj2 (try3_finds _ _ Hcomp) N5), (apart_distinct (fun v => w ← rsh v i; w' ← rsh v j; Ok (Z.land (Z.lxor w w') 3)) (fun v => Z.lxor (Z.shiftr v i) (Z.shiftr v j))); [apply F5; lia|]. rewrite !Z.lxor_spec, !Z.shiftr_spec by lia.
      replace (1 + i) with (i + 1) by lia. by replace (1 + j) with (j + 1) by lia.
Qed.
End three.
