(* ===== verification/PerfHexFour.v ===== *)
(** * The perfect hash of four integer keys

    [hexfour] tries many expressions, each checked on the keys before it is written, and in the
    end three bits that tell the keys apart, combined in four ways one of which works for any
    four keys.  What is written for a try computes what was tested, or the same with its two bits
    exchanged. *)
From S2P Require Import Prelude CLib Word Bytes Lookupa Perfect PerfectOk PerfectSpec Gencode PerfHex PerfHexOk.

#[local] Open Scope Z_scope.

(** ** The value of an expression *)
Definition get (l : list (var * Z)) (x : var) : Z := match var_get l x with Ok z => z | Fault _ => 0 end.
Fixpoint ev (l : list (var * Z)) (e : exp) : Z :=
  match e with
  | Var x => get l x
  | Num n => n
  | Bin Oadd x y => add32 (ev l x) (ev l y)
  | Bin Osub x y => sub32 (ev l x) (ev l y)
  | Bin Oxor x y => Z.lxor (ev l x) (ev l y)
  | Bin Oand x y => Z.land (ev l x) (ev l y)
  | Bin Oshl x y => shl32 (ev l x) (ev l y)
  | Bin Oshr x y => Z.shiftr (ev l x) (ev l y)
  | Neg x => sub32 0 (ev l x)
  | Tab _ | Scramble _ | State _ => 0
  end.
(** It has one: the variables are set, the shifts are in range, no array is used. *)
Fixpoint okx (l : list (var * Z)) (e : exp) : Prop :=
  match e with
  | Var x => var_get l x = Ok (get l x)
  | Num _ => True
  | Bin Oshl x y | Bin Oshr x y => okx l x /\ okx l y /\ 0 <= ev l y < 32
  | Bin _ x y => okx l x /\ okx l y
  | Neg x => okx l x
  | Tab _ | Scramble _ | State _ => False
  end.

Lemma run_ev l e : okx l e -> run_exp [] [] (Env l None) e = Ok (ev l e).
Proof.
  induction e as [x|n|o x IHx y IHy|x IHx| | |]; try done.
  - destruct o; cbn [okx run_exp ev]; intros H; rewrite IHx, IHy by tauto; rewrite !bind_Ok; cbn [bin]; try done; (unfold lsh, rsh; rewrite decide_True by tauto; done).
  - cbn [okx run_exp ev]. intros H. rewrite IHx by done. done.
Qed.

Lemma run_one e v : okx [(Vval, v)] e -> run_val [Set_ Vrsl e] v = Ok (ev [(Vval, v)] e).
Proof. intros H. rewrite run_val_set. by apply run_ev. Qed.

Lemma run_two x e e' v : okx [(Vval, v)] e -> okx [(x, ev [(Vval, v)] e); (Vval, v)] e' ->
  run_val [Set_ x e; Set_ Vrsl e'] v = Ok (ev [(x, ev [(Vval, v)] e); (Vval, v)] e').
Proof. intros H H'. unfold run_val, run_lines. cbn [run_code run_line]. rewrite run_ev by done. rewrite !bind_Ok. cbn [e_vars e_state]. by rewrite run_ev. Qed.

Lemma run_three x y e e' e'' v : okx [(Vval, v)] e -> okx [(x, ev [(Vval, v)] e); (Vval, v)] e' ->
  let w := ev [(x, ev [(Vval, v)] e); (Vval, v)] e' in okx [(y, w); (x, ev [(Vval, v)] e); (Vval, v)] e'' ->
  run_val [Set_ x e; Set_ y e'; Set_ Vrsl e''] v = Ok (ev [(y, w); (x, ev [(Vval, v)] e); (Vval, v)] e'').
Proof. intros H H' w H''. unfold run_val, run_lines. cbn [run_code run_line]. rewrite run_ev by done. rewrite !bind_Ok. cbn [e_vars e_state]. rewrite run_ev by done. rewrite !bind_Ok. cbn [e_vars e_state]. by rewrite run_ev. Qed.

(** ** Two bits *)
Definition pair2 (p : bool * bool) : Z := Z.b2z p.1 + 2 * Z.b2z p.2.

Lemma small_bits w p : 0 <= w < 4 -> 2 <= p -> Z.testbit w p = false.
Proof. intros Hw Hp. destruct (decide (w = 0)) as [->|]; [apply Z.testbit_0_l|]. apply Z.bits_above_log2; [lia|]. apply Z.log2_lt_pow2; [lia|]. assert (2 ^ 2 <= 2 ^ p) by (apply Z.pow_le_mono_r; lia). lia. Qed.

Lemma pair2_range p : 0 <= pair2 p < 4.
Proof. unfold pair2. destruct p as [[] []]; cbn; lia. Qed.

Lemma pair2_bits w b0 b1 : Z.testbit w 0 = b0 -> Z.testbit w 1 = b1 -> (forall p, 2 <= p -> Z.testbit w p = false) -> w = pair2 (b0, b1).
Proof.
  intros <- <- Hw. apply Z.bits_inj'. intros p Hp. destruct (decide (p = 0)) as [->|]; [|destruct (decide (p = 1)) as [->|]].
  - unfold pair2. cbn [fst snd]. by destruct (Z.testbit w 0), (Z.testbit w 1).
  - unfold pair2. cbn [fst snd]. by destruct (Z.testbit w 0), (Z.testbit w 1).
  - rewrite Hw, small_bits by (apply pair2_range || lia). done.
Qed.

(** The four pairs are different. *)
Definition ne2 (p q : bool * bool) : bool := xorb p.1 q.1 || xorb p.2 q.2.
Definition diff4 (p q r s : bool * bool) : bool := ne2 p q && ne2 p r && ne2 p s && ne2 q r && ne2 q s && ne2 r s.

Lemma testfour_pair2 p q r s : testfour (pair2 p) (pair2 q) (pair2 r) (pair2 s) = diff4 p q r s.
Proof. destruct p as [[] []], q as [[] []], r as [[] []], s as [[] []]; vm_compute; reflexivity. Qed.

Lemma diff4_swap p q r s : diff4 (p.2, p.1) (q.2, q.1) (r.2, r.1) (s.2, s.1) = diff4 p q r s.
Proof. by destruct p as [[] []], q as [[] []], r as [[] []], s as [[] []]. Qed.

Lemma land_small x m : 0 <= m < 4 -> 0 <= Z.land x m < 4.
Proof. intros Hm. rewrite (pair2_bits (Z.land x m) _ _ eq_refl eq_refl); [apply pair2_range|]. intros p Hp. by rewrite Z.land_spec, (small_bits m), andb_false_r. Qed.

Lemma lxor_small x y : 0 <= x < 4 -> 0 <= y < 4 -> 0 <= Z.lxor x y < 4.
Proof. intros Hx Hy. rewrite (pair2_bits (Z.lxor x y) _ _ eq_refl eq_refl); [apply pair2_range|]. intros p Hp. by rewrite Z.lxor_spec, !small_bits. Qed.

(** ** Tries *)
Lemma finds_when4 c r P : finds r P -> finds (when4 c r) P.
Proof. intros Hr. destruct c; [done|apply finds_none]. Qed.

(** An assignment: it does not use the key. *)
Definition is_set (l : line) : bool := match l with Set_ _ _ => true | _ => false end.

(** [f] ends with a value below 4, which is what the line [ls] computes. *)
Definition tries (f : Z -> result Z) (ls : list line) : Prop := (length ls = 1%nat /\ forallb is_set ls = true) /\ forall v, word32 v -> exists w, f v = Ok w /\ run_val ls v = Ok w /\ 0 <= w < 4.

Ltac solve_okx := cbn [okx ev]; repeat match goal with |- _ /\ _ => split end; first [exact I | reflexivity | lia].
Ltac solve_small := repeat first [apply lxor_small | apply land_small]; lia.
(** A try whose test and code are the same expression. *)
Ltac solve_tries := split; [split; reflexivity|]; intros v Hv; unfold sm; rewrite ?rsh_Ok, ?bind_Ok by lia; rewrite ?bind_Ok; eexists; split; [reflexivity|]; split; [unfold rsl; rewrite run_one by solve_okx; reflexivity|solve_small].

Section four.
Context (a b c d : Z) (Ha : word32 a) (Hb : word32 b) (Hc : word32 c) (Hd : word32 d).
Let ks : Z * Z * Z * Z := (a, b, c, d).

Definition good4 (ls : list line) : Prop := forallb is_set ls = true /\ exists w x y z, run_val ls a = Ok w /\ run_val ls b = Ok x /\ run_val ls c = Ok y /\ run_val ls d = Ok z /\
  0 <= w < 4 /\ 0 <= x < 4 /\ 0 <= y < 4 /\ 0 <= z < 4 /\ testfour w x y z = true.

Definition good1 (ls : list line) : Prop := length ls = 1%nat /\ good4 ls.

Lemma try4_finds f ls : tries f ls -> finds (try4 ks f ls) good1 /\ (try4 ks f ls = Ok None -> test4 ks f = Ok false).
Proof using Ha Hb Hc Hd.
  intros [[Hl Hset] Hf]. destruct (Hf a Ha) as (w & Hw & Hrw & Hw4), (Hf b Hb) as (x & Hx & Hrx & Hx4), (Hf c Hc) as (y & Hy & Hry & Hy4), (Hf d Hd) as (z & Hz & Hrz & Hz4).
  unfold try4, test4, ks. rewrite Hw, Hx, Hy, Hz, !bind_Ok. destruct (testfour w x y z) eqn:Ht; [|by split; [apply finds_none|]].
  split; [|done]. apply finds_some. split; [done|]. split; [done|]. exists w, x, y, z. by do 8 (split; [done|]).
Qed.

Context (g : gencode) (Hlo : 0 <= g_lowbit g) (Hhi : g_highbit g < 32).

Lemma rsh_in {A} i (r : result A) : 0 <= i < 32 -> (_ ← rsh (g_diffbits g) i; r) = r.
Proof. intros Hi. by rewrite rsh_Ok. Qed.

(** The searches before the big guns end, and find what they have tested. *)
Lemma four_shift_finds : finds (four_shift ks g) good1 /\ (four_shift ks g = Ok None -> forall i, g_lowbit g <= i < g_highbit g ->
  Z.land (Z.shiftr (g_diffbits g) i) 3 = 3 -> test4 ks (fun v => sm v i 3) = Ok false).
Proof using Ha Hb Hc Hd Hlo Hhi.
  unfold four_shift. assert (H1 : tries (fun v => Ok (Z.land v 3)) (rsl (Var Vval band Num 3)%code)) by solve_tries.
  assert (H2 : tries (fun v => rsh v (UB4BITS - 2)) (rsl (Var Vval shr Num (UB4BITS - 2))%code)).
  { split; [split; reflexivity|]. intros v Hv. change (UB4BITS - 2) with 30. rewrite rsh_Ok by lia. eexists. split; [reflexivity|]. split; [unfold rsl; rewrite run_one by solve_okx; reflexivity|]. exact (shiftr_top v 2 Hv ltac:(lia)). }
  assert (H3 : forall i, 0 <= i < 32 -> tries (fun v => sm v i 3) (rsl ((Var Vval shr Num i) band Num 3)%code)) by (intros i Hi; solve_tries).
  destruct (for_below_finds (g_lowbit g) (g_highbit g) (fun i => _ ← rsh (g_diffbits g) i;
    when4 (bool_decide (Z.land (Z.shiftr (g_diffbits g) i) 3 = 3)) (try4 ks (fun v => sm v i 3) (rsl ((Var Vval shr Num i) band Num 3)%code))) good1) as [F3 N3]; [done|lia| |].
  { intros i Hi. rewrite rsh_in by lia. apply finds_when4, try4_finds, H3. lia. }
  assert (F1 := proj1 (try4_finds _ _ H1)). assert (F2 := proj1 (try4_finds _ _ H2)).
  apply (finds_when4 (bool_decide (Z.land (g_diffbits g) 3 = 3))) in F1. apply (finds_when4 (bool_decide (Z.land (Z.shiftr (g_diffbits g) (UB4BITS - 2)) 3 = 3))) in F2.
  split; [by repeat apply finds_orelse|]. intros Hn i Hi Hd3. apply (orelse_none _ _ good1 F1) in Hn as [_ Hn]. apply (orelse_none _ _ good1 F2) in Hn as [_ Hn].
  specialize (N3 Hn i Hi). cbv beta in N3. rewrite rsh_in, bool_decide_eq_true_2 in N3 by (done || lia). by apply (try4_finds _ _ (H3 i ltac:(lia))).
Qed.

Lemma four_linear_finds : finds (four_linear ks g) good1.
Proof using Ha Hb Hc Hd Hlo Hhi.
  apply finds_when4. apply for_upto_finds; [done|lia|]. intros i Hi. rewrite rsh_in by lia. apply finds_when4. repeat apply finds_orelse; apply try4_finds; solve_tries.
Qed.

Lemma four_masks_finds : finds (four_masks ks g) good1.
Proof using Ha Hb Hc Hd Hlo Hhi.
  apply finds_when4. apply for_upto_finds; [done|lia|]. intros i Hi. rewrite rsh_in by lia. apply finds_orelse; apply finds_when4, finds_orelse; apply try4_finds; solve_tries.
Qed.

Lemma four_five_finds : finds (four_five ks g) good1 /\ (four_five ks g = Ok None -> forall i j, g_lowbit g <= i <= g_highbit g -> g_lowbit g <= j <= g_highbit g ->
  Z.land (Z.shiftr (g_diffbits g) i) 1 <> 0 -> Z.land (Z.shiftr (g_diffbits g) j) 3 <> 0 -> test4 ks (fun v => w ← sm v j 2; w' ← sm v i 1; Ok (Z.lxor w w')) = Ok false).
Proof using Ha Hb Hc Hd Hlo Hhi.
  assert (M : forall i j m1 m2, 0 <= i < 32 -> 0 <= j < 32 -> 0 <= m1 < 4 -> 0 <= m2 < 4 -> tries (fun v => w ← sm v j m1; w' ← sm v i m2; Ok (Z.lxor w w')) (rsl (((Var Vval shr Num j) band Num m1) ^ ((Var Vval shr Num i) band Num m2))%code))
    by (intros i j m1 m2 Hi Hj Hm1 Hm2; solve_tries).
  assert (F : forall i j, 0 <= i < 32 -> 0 <= j < 32 -> finds (four_five_j ks g i j) good1).
  { intros i j Hi Hj. unfold four_five_j. rewrite rsh_in by done. repeat apply finds_orelse.
    - apply finds_when4, finds_orelse; apply try4_finds, M; lia.
    - destruct (decide (i = 0)) as [->|Hi0]; apply try4_finds; [solve_tries|]. destruct (decide (i = 1)) as [->|]; [|apply M; lia]. split; [split; reflexivity|]. intros v Hv. destruct (proj2 (M 0 j 3 2 ltac:(lia) Hj ltac:(lia) ltac:(lia)) v Hv) as (w & Hw & Hrw & Hw4).
      exists w. split; [exact Hw|]. split; [|done]. rewrite <- Hrw. unfold rsl. rewrite !run_one by solve_okx. reflexivity.
    - apply try4_finds, M; lia. }
  destruct (for_upto_finds (g_lowbit g) (g_highbit g) (fun i => _ ← rsh (g_diffbits g) i;
    when4 (bool_decide (Z.land (Z.shiftr (g_diffbits g) i) 1 <> 0)) (for_loop (g_lowbit g) (upto (g_highbit g)) (fun j => four_five_j ks g i j))) good1) as [FI NI]; [done|lia| |].
  { intros i Hi. rewrite rsh_in by lia. apply finds_when4, for_upto_finds; [done|lia|]. intros j Hj. apply F; lia. }
  split; [exact FI|]. intros Hn i j Hi Hj Hdi Hdj. specialize (NI Hn i Hi). cbv beta in NI. rewrite rsh_in, bool_decide_eq_true_2 in NI by (done || lia). cbn [when4] in NI.
  apply (for_upto_finds (g_lowbit g) (g_highbit g) _ good1) with (i := j) in NI; [|done|lia|intros j' Hj'; apply F; lia|done]. unfold four_five_j in NI. rewrite rsh_in in NI by lia.
  apply (orelse_none _ _ good1) in NI as [NI _]; [|apply finds_when4, finds_orelse; apply try4_finds, M; lia]. rewrite bool_decide_eq_true_2 in NI by done. cbn [when4] in NI.
  apply (orelse_none _ _ good1) in NI as [_ NI]; [|apply try4_finds, M; lia]. by apply (try4_finds _ _ (M i j 2 1 ltac:(lia) ltac:(lia) ltac:(lia) ltac:(lia))).
Qed.
End four.

(** ** Two bits of a word *)
Notation bit v p := (Z.testbit v p).

Lemma and1 v m : 0 <= m -> Z.land (Z.shiftr v m) 1 = pair2 (bit v m, false).
Proof.
  intros Hm. apply pair2_bits; [..|intros p Hp; by rewrite Z.land_spec, (small_bits 1), andb_false_r by lia]; rewrite Z.land_spec, Z.shiftr_spec by lia.
  - change (bit 1 0) with true. rewrite andb_true_r. apply (f_equal (fun p => Z.testbit v p)). lia.
  - change (bit 1 1) with false. by rewrite andb_false_r.
Qed.
Lemma and2 v n : 1 <= n -> Z.land (Z.shiftr v (n - 1)) 2 = pair2 (false, bit v n).
Proof.
  intros Hm. apply pair2_bits; [..|intros p Hp; by rewrite Z.land_spec, (small_bits 2), andb_false_r by lia]; rewrite Z.land_spec, Z.shiftr_spec by lia.
  - change (bit 2 0) with false. by rewrite andb_false_r.
  - change (bit 2 1) with true. rewrite andb_true_r. apply (f_equal (fun p => Z.testbit v p)). lia.
Qed.
Lemma and3 v m : 0 <= m -> Z.land (Z.shiftr v m) 3 = pair2 (bit v m, bit v (m + 1)).
Proof.
  intros Hm. apply pair2_bits; [..|intros p Hp; by rewrite Z.land_spec, (small_bits 3), andb_false_r by lia]; rewrite Z.land_spec, Z.shiftr_spec by lia.
  - change (bit 3 0) with true. rewrite andb_true_r. apply (f_equal (fun p => Z.testbit v p)). lia.
  - change (bit 3 1) with true. rewrite andb_true_r. apply (f_equal (fun p => Z.testbit v p)). lia.
Qed.
Lemma and1_0 v : Z.land v 1 = pair2 (bit v 0, false).
Proof. rewrite <- (and1 v 0) by lia. by rewrite Z.shiftr_0_r. Qed.
Lemma and2_0 v : Z.land v 2 = pair2 (false, bit v 1).
Proof. rewrite <- (and2 v 1) by lia. by rewrite Z.shiftr_0_r. Qed.
Lemma and3_0 v : Z.land v 3 = pair2 (bit v 0, bit v 1).
Proof. pose proof (and3 v 0 ltac:(lia)) as H. by rewrite Z.shiftr_0_r in H. Qed.

Lemma lxor_pair2 p q : Z.lxor (pair2 p) (pair2 q) = pair2 (xorb p.1 q.1, xorb p.2 q.2).
Proof. by destruct p as [[] []], q as [[] []]. Qed.
Lemma land1_pair2 p : Z.land (pair2 p) 1 = pair2 (p.1, false).
Proof. by destruct p as [[] []]. Qed.
Lemma shl_pair2 b : shl32 (pair2 (b, false)) 1 = pair2 (false, b).
Proof. by destruct b. Qed.
Lemma shiftl_pair2 b : Z.shiftl (pair2 (b, false)) 1 = pair2 (false, b).
Proof. by destruct b. Qed.
Lemma land_lxor_distr x y m : Z.land (Z.lxor x y) m = Z.lxor (Z.land x m) (Z.land y m).
Proof. apply Z.bits_inj'. intros p Hp. rewrite !Z.land_spec, !Z.lxor_spec, !Z.land_spec. by destruct (bit x p), (bit y p), (bit m p). Qed.
(** [(val << 1) & 2] *)
Lemma shl1_and2 v : Z.land (shl32 v 1) 2 = pair2 (false, bit v 0).
Proof.
  rewrite and2_0. apply (f_equal (fun b => pair2 (false, b))). unfold shl32, u32. rewrite Z.mod_pow2_bits_low, Z.shiftl_spec by lia. done.
Qed.

Lemma land3_neg b w : Z.land w 3 = pair2 (b, false) -> Z.land (sub32 0 w) 3 = pair2 (b, b).
Proof.
  intros Hw. change 3 with (Z.ones 2) in *. rewrite Z.land_ones in * by lia. change (2 ^ 2) with 4 in *. unfold sub32, u32. rewrite <- Znumtheory.Zmod_div_mod by (done || (exists (2 ^ 30); done)).
  rewrite Z.sub_0_l. destruct b; unfold pair2 in *; cbn in *; [rewrite Z.mod_opp_l_nz; lia|rewrite Z.mod_opp_l_z; lia].
Qed.

Lemma pair2_inj p q : pair2 p = pair2 q -> p = q.
Proof. destruct p as [[] []], q as [[] []]; vm_compute; congruence. Qed.

(** If [F] is a function of [G], keys that differ by [F] differ by [G]. *)
Lemma diff4_mono {A} (F G : A -> bool * bool) a b c d : (forall v w, G v = G w -> F v = F w) -> diff4 (F a) (F b) (F c) (F d) = true -> diff4 (G a) (G b) (G c) (G d) = true.
Proof.
  intros Hfg. assert (Hne : forall v w, ne2 (F v) (F w) = true -> ne2 (G v) (G w) = true).
  { intros v w. destruct (decide (G v = G w)) as [->%Hfg|Hn]; [by destruct (F w) as [[] []]|]. intros _. destruct (G v) as [[] []], (G w) as [[] []]; done. }
  unfold diff4. rewrite !andb_true_iff. intros H. repeat split; apply Hne; apply H.
Qed.

Lemma u32_mod4 x : u32 x mod 4 = x mod 4.
Proof. unfold u32. symmetry. apply Znumtheory.Zmod_div_mod; [done|done|by exists (2 ^ 30)]. Qed.

(** ** The code of the big guns *)
Lemma get_val v : get [(Vval, v)] Vval = v.
Proof. reflexivity. Qed.
Lemma get_b w v : get [(Vb, w); (Vval, v)] Vb = w.
Proof. reflexivity. Qed.
Lemma get_b_val w v : get [(Vb, w); (Vval, v)] Vval = v.
Proof. reflexivity. Qed.
Lemma get_new u v : get [(Vnewval, u); (Vval, v)] Vnewval = u.
Proof. reflexivity. Qed.
Lemma get_b3 w u v : get [(Vb, w); (Vnewval, u); (Vval, v)] Vb = w.
Proof. reflexivity. Qed.
Lemma get_new3 w u v : get [(Vb, w); (Vnewval, u); (Vval, v)] Vnewval = u.
Proof. reflexivity. Qed.

(** [ls] computes the two bits, or exchanges them. *)
Definition codes (F : Z -> bool * bool) (ls : list line) : Prop :=
  (forall v, word32 v -> run_val ls v = Ok (pair2 (F v))) \/ (forall v, word32 v -> run_val ls v = Ok (pair2 ((F v).2, (F v).1))).

Ltac solve_pairs := rewrite ?get_val, ?get_b, ?get_b_val, ?get_new, ?get_b3, ?get_new3; rewrite ?land_lxor_distr, ?shl1_and2;
  rewrite ?and1, ?and2, ?and3, ?and1_0, ?and2_0, ?and3_0 by lia; rewrite ?shl_pair2; rewrite ?lxor_pair2; cbn [fst snd].

Ltac solve_bools := by repeat match goal with |- context [Z.testbit ?v ?p] => destruct (Z.testbit v p) end.

Section guns.
Context (m n o : Z) (Hm : 0 <= m) (Hmn : m < n) (Hn : n < 32) (Ho : 0 <= o < 32) (Hom : o <> m) (Hon : o <> n).

Definition F1 (v : Z) : bool * bool := (xorb (bit v m) (bit v o), bit v n).
Definition F2 (v : Z) : bool * bool := (bit v m, xorb (bit v n) (bit v o)).
Definition F3 (v : Z) : bool * bool := (xorb (bit v m) (bit v o), xorb (bit v n) (bit v o)).
Definition F0 (v : Z) : bool * bool := (bit v m, bit v n).

Lemma code_one : codes F1 (let '(m, o) := if decide (o < m) then (o, m) else (m, o) in
  if decide (m = 0) then rsl (((Var Vval ^ (Var Vval shr Num o)) band Num 1) ^ ((Var Vval shr Num (n - 1)) band Num 2))%code
  else rsl ((((Var Vval shr Num m) ^ (Var Vval shr Num o)) band Num 1) ^ ((Var Vval shr Num (n - 1)) band Num 2))%code).
Proof using Hm Hmn Hn Ho Hom Hon.
  unfold codes, F1. left. intros v Hv. destruct (decide (o < m)) as [Hlt|Hge]; cbv beta iota zeta; (destruct (decide (_ = 0)) as [->|]); unfold rsl; rewrite run_one by solve_okx; cbn [ev]; solve_pairs; solve_bools.
Qed.

Lemma code_two : codes F2 (let '(n, o) := if decide (m = o - 1) then (o, n) else (n, o) in
  if decide (m = 0) then rsl ((Var Vval band Num 1) ^ (((Var Vval shr Num (u32 (n - 1))) ^ (Var Vval shr Num (u32 (o - 1)))) band Num 2))%code
  else if decide (o = 0) then rsl (((Var Vval shr Num (m - 1)) band Num 2) ^ (((Var Vval shr Num n) ^ Var Vval) band Num 1))%code
  else rsl (((Var Vval shr Num m) band Num 1) ^ (((Var Vval shr Num (u32 (n - 1))) ^ (Var Vval shr Num (u32 (o - 1)))) band Num 2))%code).
Proof using Hm Hmn Hn Ho Hom Hon.
  unfold codes, F2. destruct (decide (m = o - 1)) as [Hmo|Hmo]; cbv beta iota zeta.
  - left. intros v Hv. rewrite (decide_False (P := n = 0)) by lia. rewrite !u32_small by lia. destruct (decide (m = 0)) as [->|]; unfold rsl; rewrite run_one by solve_okx; cbn [ev]; solve_pairs; solve_bools.
  - destruct (decide (m = 0)) as [->|]; [|destruct (decide (o = 0)) as [->|]].
    + left. intros v Hv. rewrite !u32_small by lia. unfold rsl; rewrite run_one by solve_okx; cbn [ev]; solve_pairs; solve_bools.
    + right. intros v Hv. unfold rsl; rewrite run_one by solve_okx; cbn [ev]; solve_pairs; solve_bools.
    + left. intros v Hv. rewrite !u32_small by lia. unfold rsl; rewrite run_one by solve_okx; cbn [ev]; solve_pairs; solve_bools.
Qed.

Lemma code_zero : codes F0 (rsl (((Var Vval shr Num m) band Num 1) ^ ((Var Vval shr Num (n - 1)) band Num 2))%code).
Proof using Hm Hmn Hn Ho Hom Hon. unfold codes, F0. left. intros v Hv. unfold rsl; rewrite run_one by solve_okx; cbn [ev]; solve_pairs; solve_bools. Qed.

(** The bits of [newval]. *)
Let mask : Z := Z.lxor (Z.lxor (Z.shiftl 1 m) (Z.shiftl 1 n)) (Z.shiftl 1 o).
Lemma mask_bit p : 0 <= p -> bit mask p = bool_decide (p = m \/ p = n \/ p = o).
Proof using Hm Hmn Hn Ho Hom Hon.
  intros Hp. unfold mask. rewrite !Z.lxor_spec, !Z.shiftl_1_l, !Z.pow2_bits_eqb by lia.
  destruct (Z.eqb_spec m p), (Z.eqb_spec n p), (Z.eqb_spec o p); cbn; symmetry; try lia; first [apply bool_decide_eq_true_2; lia | apply bool_decide_eq_false_2; lia].
Qed.

Lemma newval_bit v p : 0 <= p -> bit (Z.land v mask) p = if decide (p = m \/ p = n \/ p = o) then bit v p else false.
Proof using Hm Hmn Hn Ho Hom Hon.
  intros Hp. rewrite Z.land_spec, mask_bit by done. destruct (decide (p = m \/ p = n \/ p = o)); [by rewrite bool_decide_eq_true_2, andb_true_r|by rewrite bool_decide_eq_false_2, andb_false_r].
Qed.

(** The three bits are apart: shifted next to each other they do not touch. *)
Lemma newval_code v : word32 v -> m <> o - 1 /\ m <> n - 1 /\ o <> m - 1 /\ o <> n - 1 ->
  run_val [Set_ Vnewval (Var Vval band Num mask)%code; Set_ Vb (if decide (o = 0) then Neg (Var Vnewval) else Neg (Var Vnewval shr Num o)%code);
    Set_ Vrsl (if decide (m = 0) then (((Var Vnewval ^ (Var Vnewval shr Num (n - 1))) ^ Var Vb) band Num 3)%code
               else ((((Var Vnewval shr Num m) ^ (Var Vnewval shr Num (n - 1))) ^ Var Vb) band Num 3)%code)] v = Ok (pair2 (F3 v)).
Proof using Hm Hmn Hn Ho Hom Hon.
  intros Hv Hfar. set (w := Z.land v mask). set (B := sub32 0 (Z.shiftr w o)).
  assert (Hbm : Z.land (Z.shiftr w m) 3 = pair2 (bit v m, false)).
  { rewrite and3 by lia. unfold w. rewrite !newval_bit by lia. rewrite (decide_True (P := m = m \/ _)) by lia. by rewrite (decide_False (P := m + 1 = m \/ _)) by lia. }
  assert (Hbn : Z.land (Z.shiftr w (n - 1)) 3 = pair2 (false, bit v n)).
  { rewrite and3 by lia. unfold w. rewrite !newval_bit by lia. replace (n - 1 + 1) with n by lia. rewrite (decide_False (P := n - 1 = m \/ _)) by lia. by rewrite (decide_True (P := n = m \/ _)) by lia. }
  assert (Hbo : Z.land B 3 = pair2 (bit v o, bit v o)).
  { apply land3_neg. rewrite and3 by lia. unfold w. rewrite !newval_bit by lia. rewrite (decide_True (P := o = m \/ _)) by lia. by rewrite (decide_False (P := o + 1 = m \/ _)) by lia. }
  assert (Hall : Z.land (Z.lxor (Z.lxor (Z.shiftr w m) (Z.shiftr w (n - 1))) B) 3 = pair2 (F3 v)).
  { rewrite !land_lxor_distr, Hbm, Hbn, Hbo, !lxor_pair2. unfold F3. cbn [fst snd]. solve_bools. }
  destruct (decide (o = 0)) as [Ho0|Ho0], (decide (m = 0)) as [Hm0|Hm0]; try lia.
  - rewrite run_three by solve_okx. cbn [ev]. rewrite !get_new3, get_b3, !get_new, get_val. fold w. unfold B in Hall. rewrite Ho0, Z.shiftr_0_r in Hall. by rewrite Hall.
  - rewrite run_three by solve_okx. cbn [ev]. rewrite !get_new3, get_b3, !get_new, get_val. fold w. fold B. rewrite Hm0, Z.shiftr_0_r in Hall. by rewrite Hall.
  - rewrite run_three by solve_okx. cbn [ev]. rewrite !get_new3, get_b3, !get_new, get_val. fold w. fold B. by rewrite Hall.
Qed.

Lemma code_three : codes F3 (guns_three_code m n o).2 /\ length (guns_three_code m n o).2 = (guns_three_code m n o).1 /\ forallb is_set (guns_three_code m n o).2 = true.
Proof using Hm Hmn Hn Ho Hom Hon.
  unfold guns_three_code, codes, F3.
  destruct (decide (m = o - 1 /\ m = 0)) as [[Hmo ->]|N1]; [|destruct (decide (m = o - 1)) as [Hmo|N2]; [|destruct (decide (m = n - 1 /\ m = 0)) as [[Hmn' ->]|N3]; [|destruct (decide (m = n - 1)) as [Hmn'|N4]; [|destruct (decide (o = n - 1 /\ m = 0)) as [[Hon' ->]|N5]; [|destruct (decide (o = n - 1)) as [Hon'|N6]; [|destruct (decide (m <> o - 1 /\ m <> n - 1 /\ o <> m - 1 /\ o <> n - 1)) as [Hfar|N7]; [|destruct (decide (o = m - 1)) as [Hom'|N8]]]]]]]].
  - split; [|done]. left. intros v Hv. cbn [snd]. rewrite run_two by solve_okx. cbn [ev]. solve_pairs. replace 1 with o by lia. solve_bools.
  - split; [|done]. left. intros v Hv. cbn [snd]. rewrite run_two by solve_okx. cbn [ev]. solve_pairs. replace (m + 1) with o by lia. solve_bools.
  - split; [|done]. left. intros v Hv. cbn [snd]. rewrite run_two by solve_okx. cbn [ev]. solve_pairs. replace 1 with n by lia. solve_bools.
  - split; [|done]. left. intros v Hv. cbn [snd]. rewrite run_two by solve_okx. cbn [ev]. solve_pairs. replace (m + 1) with n by lia. solve_bools.
  - split; [|done]. left. intros v Hv. cbn [snd]. rewrite run_two by solve_okx. cbn [ev]. solve_pairs. replace (o + 1) with n by lia. solve_bools.
  - split; [|done]. left. intros v Hv. cbn [snd]. rewrite run_two by solve_okx. cbn [ev]. solve_pairs. replace (o + 1) with n by lia. solve_bools.
  - split; [|done]. left. intros v Hv. cbn [snd]. fold mask. by apply newval_code.
  - split; [|done]. right. intros v Hv. cbn [snd]. destruct (decide (o = 0)) as [->|Ho0]; [|destruct (decide (o = 1)) as [->|Ho1]].
    + rewrite run_two by solve_okx. cbn [ev]. solve_pairs. replace 1 with m by lia. solve_bools.
    + rewrite run_two by solve_okx. cbn [ev]. solve_pairs. replace (1 + 1) with m by lia. solve_bools.
    + rewrite run_two by solve_okx. cbn [ev]. solve_pairs. replace (o + 1) with m by lia. solve_bools.
  - split; [|done]. left. intros v Hv. cbn [snd]. rewrite run_two by solve_okx. cbn [ev]. solve_pairs. solve_bools.
Qed.
End guns.

(** ** One of the four combinations works *)
Definition tri : Type := bool * bool * bool.
Definition ne3 (p q : tri) : bool := let '(x, y, z) := p in let '(x', y', z') := q in xorb x x' || xorb y y' || xorb z z'.
(** The four combinations of the bits m, n and o of a key. *)
Definition T1 (p : tri) : bool * bool := let '(m, n, o) := p in (xorb m o, n).
Definition T2 (p : tri) : bool * bool := let '(m, n, o) := p in (m, xorb n o).
Definition T3 (p : tri) : bool * bool := let '(m, n, o) := p in (xorb m o, xorb n o).
Definition T0 (p : tri) : bool * bool := let '(m, n, o) := p in (m, n).
Definition some_works (p q r s : tri) : bool :=
  diff4 (T1 p) (T1 q) (T1 r) (T1 s) || diff4 (T2 p) (T2 q) (T2 r) (T2 s) || diff4 (T3 p) (T3 q) (T3 r) (T3 s) || diff4 (T0 p) (T0 q) (T0 r) (T0 s).

(** How [guns_mno] orders the bits i, j and k, which are the components of a [tri]. *)
Inductive role := Ri | Rj | Rk.
Definition pick (r : role) (p : tri) : bool := let '(i, j, k) := p in match r with Ri => i | Rj => j | Rk => k end.
Definition view (x y z : role) (p : tri) : tri := (pick x p, pick y p, pick z p).
Definition two_of (r : role) (p q s t : tri) : bool := bool_decide (Z.b2z (pick r p) + Z.b2z (pick r q) + Z.b2z (pick r s) + Z.b2z (pick r t) = 2).
Definition roles (p q r s : tri) : role * role * role :=
  if negb (two_of Ri p q r s) then (Rj, Rk, Ri) else if negb (two_of Rj p q r s) then (Ri, Rk, Rj) else (Ri, Rj, Rk).

Definition all_tri : list tri := (x ← [false; true]; y ← [false; true]; z ← [false; true]; [(x, y, z)]).
Lemma all_tri_in p : p ∈ all_tri.
Proof. destruct p as [[[] []] []]; vm_compute; repeat first [by left | right]. Qed.

(** What the searches for i, j and k establish: i tells c from d, i and j tell b, c and d apart,
    the three tell all keys apart. *)
Definition separated (p q r s : tri) : bool :=
  xorb (pick Ri r) (pick Ri s) && ne2 (T0 q) (T0 r) && ne2 (T0 q) (T0 s) && ne2 (T0 r) (T0 s) && ne3 p q && ne3 p r && ne3 p s && ne3 q r && ne3 q s && ne3 r s.
Definition works (p q r s : tri) : bool :=
  let '(m, n, o) := roles p q r s in
  some_works (view m n o p) (view m n o q) (view m n o r) (view m n o s) && some_works (view n m o p) (view n m o q) (view n m o r) (view n m o s).

Lemma separated_works p q r s : separated p q r s = true -> works p q r s = true.
Proof.
  intros Hs. assert (Hall : forallb (fun p => forallb (fun q => forallb (fun r => forallb (fun s => implb (separated p q r s) (works p q r s)) all_tri) all_tri) all_tri) all_tri = true) by (vm_compute; reflexivity).
  assert (Hin : forall p, In p all_tri) by (intros x; apply list_elem_of_In, all_tri_in).
  rewrite forallb_forall in Hall. specialize (Hall p (Hin p)). cbv beta in Hall. rewrite forallb_forall in Hall. specialize (Hall q (Hin q)). cbv beta in Hall.
  rewrite forallb_forall in Hall. specialize (Hall r (Hin r)). cbv beta in Hall. rewrite forallb_forall in Hall. specialize (Hall s (Hin s)). cbv beta in Hall. by rewrite Hs in Hall.
Qed.

(** ** Finding the bits *)
Lemma bit1_pair v i : 0 <= i < 32 -> bit1 v i = Ok (Z.b2z (bit v i)).
Proof. intros Hi. unfold bit1, sm. rewrite rsh_Ok, bind_Ok by done. rewrite and1 by lia. f_equal. unfold pair2. cbn [fst snd]. cbn [Z.b2z]. lia. Qed.

Lemma bit2_pair i j v : 0 <= i < 32 -> 0 <= j < 32 -> bit2 i j v = Ok (pair2 (bit v i, bit v j)).
Proof. intros Hi Hj. unfold bit2. rewrite !bit1_pair, !bind_Ok by done. by destruct (bit v i), (bit v j). Qed.

Definition tri_val (p : tri) : Z := let '(x, y, z) := p in Z.b2z x + 2 * Z.b2z y + 4 * Z.b2z z.
Lemma bit3_tri i j k v : 0 <= i < 32 -> 0 <= j < 32 -> 0 <= k < 32 -> bit3 i j k v = Ok (tri_val (bit v i, bit v j, bit v k)).
Proof. intros Hi Hj Hk. unfold bit3. rewrite bit2_pair, bit1_pair, !bind_Ok by done. by destruct (bit v i), (bit v j), (bit v k). Qed.

Lemma pair2_ne p q : pair2 p <> pair2 q <-> ne2 p q = true.
Proof. destruct p as [[] []], q as [[] []]; vm_compute; split; congruence. Qed.
Lemma tri_ne p q : tri_val p <> tri_val q <-> ne3 p q = true.
Proof. destruct p as [[[] []] []], q as [[[] []] []]; vm_compute; split; congruence. Qed.
Lemma b2z_ne x y : Z.b2z x <> Z.b2z y <-> xorb x y = true.
Proof. destruct x, y; cbn; split; congruence || lia. Qed.

Lemma ne2_pair x y x' y' : ~ (x = x' /\ y = y') -> ne2 (x, y) (x', y') = true.
Proof. intros Hn. destruct x, y, x', y'; try done; exfalso; by apply Hn. Qed.
Lemma ne3_ik x y x' y' : ne3 (x, y, x) (x', y', x') = true -> ne2 (x, y) (x', y') = true.
Proof. by destruct x, y, x', y'. Qed.
Lemma ne3_jk x y x' y' : ne3 (x, y, y) (x', y', y') = true -> ne2 (x, y) (x', y') = true.
Proof. by destruct x, y, x', y'. Qed.

Lemma ne3_12 x y z x' y' z' : ne2 (x, y) (x', y') = true -> ne3 (x, y, z) (x', y', z') = true.
Proof. by destruct x, y, x', y'. Qed.
Lemma ne3_3 x y z x' y' z' : z <> z' -> ne3 (x, y, z) (x', y', z') = true.
Proof. by destruct x, y, z, x', y', z'. Qed.
Lemma ne3_sym p q : ne3 p q = ne3 q p.
Proof. by destruct p as [[[] []] []], q as [[[] []] []]. Qed.

Lemma find_bit_ok g p pb : 0 <= g_lowbit g -> (forall i, g_lowbit g <= i < 32 -> p i = Ok (pb i)) -> (exists i, g_lowbit g <= i < 32 /\ pb i = true) ->
  exists i, find_bit g p = Ok i /\ g_lowbit g <= i < 32 /\ pb i = true.
Proof.
  intros Hlo Hp (i0 & Hi0 & Hpb0). unfold find_bit.
  destruct (for_below_finds (g_lowbit g) UB4BITS (fun i => t ← p i; Ok (if (t : bool) then Some i else None)) (fun i => g_lowbit g <= i < 32 /\ pb i = true)) as [(o & Ho & Hx) Hn]; [done|done| |].
  { unfold UB4BITS. intros i Hi. rewrite Hp, bind_Ok by done. destruct (pb i) eqn:Hpb; [by apply finds_some|apply finds_none]. }
  rewrite Ho, bind_Ok. destruct o as [i|]; [by exists i; split; [|apply Hx]|]. exfalso. specialize (Hn Ho i0 Hi0). cbv beta in Hn. rewrite Hp, bind_Ok, Hpb0 in Hn by done. discriminate Hn.
Qed.

Section find4.
Context (a b c d : Z) (Ha : word32 a) (Hb : word32 b) (Hc : word32 c) (Hd : word32 d).
Let ks : Z * Z * Z * Z := (a, b, c, d).
Context (g : gencode) (Hlo : 0 <= g_lowbit g) (Hhi : g_highbit g < 32).
(** A bit in which two of the keys differ is marked in [diffbits], within the bounds. *)
Definition marked (p : Z) : Prop := Z.testbit (g_diffbits g) p = true /\ g_lowbit g <= p <= g_highbit g.
Context (Hmark : forall p, 0 <= p < 32 -> Z.testbit a p <> Z.testbit b p \/ Z.testbit a p <> Z.testbit c p \/ Z.testbit a p <> Z.testbit d p -> marked p).

(** The bits p and q of the keys are all different. *)
Definition told (p q : Z) : bool := diff4 (bit a p, bit a q) (bit b p, bit b q) (bit c p, bit c q) (bit d p, bit d q).

Lemma differ_marked v w p : v ∈ [a; b; c; d] -> w ∈ [a; b; c; d] -> 0 <= p < 32 -> bit v p <> bit w p -> marked p.
Proof using Hmark.
  intros Hv Hw Hp Hne. apply Hmark; [done|]. destruct (decide (bit a p = bit b p)) as [E1|]; [|by left]. destruct (decide (bit a p = bit c p)) as [E2|]; [|by right; left]. right. right. intros E3.
  assert (Hall : forall u, u ∈ [a; b; c; d] -> bit u p = bit a p) by (intros u; rewrite !elem_of_cons, elem_of_nil; intros [-> | [-> | [-> | [-> | []]]]]; congruence).
  apply Hne. by rewrite (Hall v Hv), (Hall w Hw).
Qed.

Lemma told_marked p q : 0 <= p < 32 -> 0 <= q < 32 -> told p q = true -> marked p /\ marked q.
Proof using Hmark.
  intros Hp Hq Ht. split; apply Hmark; try done; unfold told in Ht; destruct (bit a p), (bit b p), (bit c p), (bit d p), (bit a q), (bit b q), (bit c q), (bit d q); cbn in Ht; try discriminate Ht; auto.
Qed.

Lemma guns_ijk_ok : NoDup [a; b; c; d] -> (forall p q, 0 <= p < 32 -> 0 <= q < 32 -> p <> q -> told p q = false) ->
  exists i j k, guns_ijk ks g = Ok (i, j, k) /\ 0 <= i < 32 /\ 0 <= j < 32 /\ 0 <= k < 32 /\ i <> j /\ i <> k /\ j <> k /\
    let t v := (bit v i, bit v j, bit v k) in separated (t a) (t b) (t c) (t d) = true.
Proof using Ha Hb Hc Hd Hlo Hhi Hmark.
  intros Hnd Hno. apply NoDup_cons in Hnd as [Hna Hnd]. apply NoDup_cons in Hnd as [Hnb Hnd]. apply NoDup_cons in Hnd as [Hnc _].
  assert (Hdiff : forall v w, v ∈ [a; b; c; d] -> w ∈ [a; b; c; d] -> word32 v -> word32 w -> v <> w -> exists p, g_lowbit g <= p < 32 /\ bit v p <> bit w p).
  { intros v w Hv Hw Hv32 Hw32 Hne. destruct (word_diff v w Hv32 Hw32 Hne) as (p & Hp & Hpd). exists p. split; [|done]. destruct (differ_marked v w p Hv Hw Hp Hpd) as [_ Hr]. lia. }
  assert (Ia : a ∈ [a; b; c; d]) by (by left). assert (Ib : b ∈ [a; b; c; d]) by (by right; left). assert (Ic : c ∈ [a; b; c; d]) by (by right; right; left). assert (Id : d ∈ [a; b; c; d]) by (by right; right; right; left).
  unfold guns_ijk, ks. cbn [fst snd].
  destruct (find_bit_ok g (fun i => y ← bit1 c i; z ← bit1 d i; Ok (bool_decide (y <> z))) (fun i => bool_decide (Z.b2z (bit c i) <> Z.b2z (bit d i))) Hlo) as (i & Hi & Hir & Hib).
  { intros i Hi. by rewrite !bit1_pair by lia. }
  { destruct (Hdiff c d Ic Id Hc Hd) as (p & Hp & Hpd); [intros ->; apply Hnc; by left|]. exists p. split; [done|]. apply bool_decide_eq_true_2, b2z_ne. by destruct (bit c p), (bit d p). }
  apply bool_decide_eq_true_1, b2z_ne in Hib. rewrite Hi, bind_Ok.
  destruct (find_bit_ok g (fun j => x ← bit2 i j b; y ← bit2 i j c; z ← bit2 i j d; Ok (bool_decide (x <> y /\ x <> z /\ y <> z)))
    (fun j => bool_decide (pair2 (bit b i, bit b j) <> pair2 (bit c i, bit c j) /\ pair2 (bit b i, bit b j) <> pair2 (bit d i, bit d j) /\ pair2 (bit c i, bit c j) <> pair2 (bit d i, bit d j))) Hlo) as (j & Hj & Hjr & Hjb).
  { intros j Hj. by rewrite !bit2_pair by lia. }
  { assert (Hex : exists p, g_lowbit g <= p < 32 /\ (bit b i = bit c i /\ bit b p <> bit c p \/ bit b i = bit d i /\ bit b p <> bit d p)).
    { destruct (decide (bit b i = bit c i)) as [E|E].
      - destruct (Hdiff b c Ib Ic Hb Hc) as (p & Hp & Hpd); [intros ->; apply Hnb; by left|]. exists p. split; [done|]. by left.
      - destruct (Hdiff b d Ib Id Hb Hd) as (p & Hp & Hpd); [intros ->; apply Hnb; by right; left|]. exists p. split; [done|]. right. split; [|done]. by destruct (bit b i), (bit c i), (bit d i). }
    destruct Hex as (p & Hp & Hpd). exists p. split; [done|]. apply bool_decide_eq_true_2. rewrite !pair2_ne. unfold ne2. cbn [fst snd].
    destruct (bit b i), (bit c i), (bit d i), (bit b p), (bit c p), (bit d p); cbn in *; try done; by destruct Hpd as [[? ?]|[? ?]]. }
  apply bool_decide_eq_true_1 in Hjb. rewrite !pair2_ne in Hjb. destruct Hjb as (Hbc & Hbd & Hcd). rewrite Hj, bind_Ok.
  assert (Hij : i <> j) by (intros <-; unfold ne2 in *; cbn [fst snd] in *; destruct (bit b i), (bit c i), (bit d i); done).
  destruct (find_bit_ok g (fun k => w ← bit3 i j k a; x ← bit3 i j k b; y ← bit3 i j k c; z ← bit3 i j k d; Ok (bool_decide (w <> x /\ w <> y /\ w <> z /\ x <> y /\ x <> z /\ y <> z)))
    (fun k => let t v := tri_val (bit v i, bit v j, bit v k) in bool_decide (t a <> t b /\ t a <> t c /\ t a <> t d /\ t b <> t c /\ t b <> t d /\ t c <> t d)) Hlo) as (k & Hk & Hkr & Hkb).
  { intros k Hk. by rewrite !bit3_tri by lia. }
  { assert (Hex : exists p v, g_lowbit g <= p < 32 /\ (v = b \/ v = c \/ v = d) /\ bit a i = bit v i /\ bit a j = bit v j /\ bit a p <> bit v p).
    { pose proof (Hno i j ltac:(lia) ltac:(lia) Hij) as Ht. assert (Hm : exists v, (v = b \/ v = c \/ v = d) /\ bit a i = bit v i /\ bit a j = bit v j).
      { destruct (decide (bit a i = bit b i /\ bit a j = bit b j)) as [|N1]; [by exists b; auto|]. destruct (decide (bit a i = bit c i /\ bit a j = bit c j)) as [|N2]; [by exists c; auto|].
        destruct (decide (bit a i = bit d i /\ bit a j = bit d j)) as [|N3]; [by exists d; auto|]. exfalso. apply ne2_pair in N1, N2, N3. unfold told, diff4 in Ht. by rewrite N1, N2, N3, Hbc, Hbd, Hcd in Ht. }
      destruct Hm as (v & Hv & Ei & Ej). destruct (Hdiff a v Ia) as (p & Hp & Hpd); [destruct Hv as [-> | [-> | ->]]; done|done|destruct Hv as [-> | [-> | ->]]; done|intros Hav; apply Hna; rewrite Hav, !elem_of_cons; destruct Hv as [-> | [-> | ->]]; auto|].
      exists p, v. by do 4 (split; [done|]). }
    destruct Hex as (p & v & Hp & Hv & Ei & Ej & Ep). exists p. split; [done|]. apply bool_decide_eq_true_2. rewrite !tri_ne.
    assert (Ebc := ne3_12 _ _ (bit b p) _ _ (bit c p) Hbc). assert (Ebd := ne3_12 _ _ (bit b p) _ _ (bit d p) Hbd). assert (Ecd := ne3_12 _ _ (bit c p) _ _ (bit d p) Hcd).
    destruct Hv as [-> | [-> | ->]]; rewrite Ei, Ej; do 5 try split; try done; first [by apply ne3_3 | by apply ne3_12 | (rewrite ne3_sym; by apply ne3_12)]. }
  apply bool_decide_eq_true_1 in Hkb. rewrite !tri_ne in Hkb. destruct Hkb as (Kab & Kac & Kad & Kbc & Kbd & Kcd). rewrite Hk, bind_Ok. rewrite decide_False by (unfold UB4BITS; lia).
  exists i, j, k. split; [done|]. split; [lia|]. split; [lia|]. split; [lia|]. split; [done|].
  pose proof (Hno i j ltac:(lia) ltac:(lia) Hij) as Ht. assert (Hik : i <> k /\ j <> k).
  { split; intros <-; [apply ne3_ik in Kab, Kac, Kad|apply ne3_jk in Kab, Kac, Kad]; unfold told, diff4 in Ht; by rewrite Kab, Kac, Kad, Hbc, Hbd, Hcd in Ht. }
  split; [apply Hik|]. split; [apply Hik|]. cbv zeta. unfold separated. cbn [pick T0]. by rewrite Hib, Hbc, Hbd, Hcd, Kab, Kac, Kad, Kbc, Kbd, Kcd.
Qed.

(** *** What the searches before have excluded *)
Lemma test4_pairs f (F : Z -> bool * bool) : (forall v, word32 v -> f v = Ok (pair2 (F v))) -> test4 ks f = Ok (diff4 (F a) (F b) (F c) (F d)).
Proof using Ha Hb Hc Hd. intros Hf. unfold test4, ks. rewrite !Hf, !bind_Ok by done. by rewrite testfour_pair2. Qed.

Lemma marked_land i m : 0 <= i -> marked i -> Z.testbit m 0 = true -> Z.land (Z.shiftr (g_diffbits g) i) m <> 0.
Proof using.
  intros Hi [Hm _] Hm0 H0. apply (f_equal (fun x => Z.testbit x 0)) in H0. rewrite Z.land_spec, Z.shiftr_spec, Z.testbit_0_l, Hm0, andb_true_r in H0 by lia. replace (0 + i) with i in H0 by lia. congruence.
Qed.

(** After [four_five] no two bits tell the keys apart. *)
Lemma none_told : four_five ks g = Ok None -> forall p q, 0 <= p < 32 -> 0 <= q < 32 -> p <> q -> told p q = false.
Proof using Ha Hb Hc Hd Hlo Hhi Hmark.
  intros Hn. assert (Hlt : forall p q, 0 <= p < q -> q < 32 -> told p q = false).
  { intros p q Hpq Hq. destruct (told p q) eqn:Ht; [|done]. destruct (told_marked p q ltac:(lia) ltac:(lia) Ht) as [Mp Mq]. pose proof (proj2 Mp). pose proof (proj2 Mq).
    pose proof (proj2 (four_five_finds a b c d Ha Hb Hc Hd g Hlo Hhi) Hn p (q - 1) ltac:(lia) ltac:(lia) (marked_land p 1 ltac:(lia) Mp eq_refl)) as Htest.
    assert (Hd2 : Z.land (Z.shiftr (g_diffbits g) (q - 1)) 3 <> 0).
    { intros Hz. apply (f_equal (fun x => Z.testbit x 1)) in Hz. rewrite Z.land_spec, Z.shiftr_spec, Z.testbit_0_l in Hz by lia. replace (1 + (q - 1)) with q in Hz by lia. rewrite (proj1 Mq) in Hz. discriminate Hz. }
    specialize (Htest Hd2). rewrite (test4_pairs _ (fun v => (bit v p, bit v q))) in Htest.
    - unfold told in Ht. cbv beta in Htest. rewrite Ht in Htest. discriminate Htest.
    - intros v Hv. unfold sm. rewrite !rsh_Ok, !bind_Ok by lia. rewrite and1, and2, lxor_pair2 by lia. cbn [fst snd]. by rewrite xorb_false_r. }
  intros p q Hp Hq Hne. destruct (decide (p < q)); [apply Hlt; lia|]. rewrite <- (Hlt q p) by lia. unfold told.
  by rewrite <- (diff4_swap (bit a p, bit a q)).
Qed.

(** The quadratic search combines every key with a shift of the first: that cannot tell keys
    apart that [four_shift] has not. *)
Lemma four_quadratic_none : four_shift ks g = Ok None -> four_quadratic ks g = Ok None.
Proof using Ha Hb Hc Hd Hlo Hhi Hmark.
  intros Hn. assert (Hop : forall (op : Z -> Z -> Z) i s, 0 <= i < 32 -> (forall x y, x mod 4 = y mod 4 -> (op x s) mod 4 = (op y s) mod 4) ->
    forall f, (forall v, word32 v -> f v = Ok (Z.land (op (Z.shiftr v i) s) 3)) -> forall ls, try4 ks f ls = Ok None).
  { intros op i s Hi Hcong f Hf ls. unfold try4. rewrite (test4_pairs f (fun v => (bit (op (Z.shiftr v i) s) 0, bit (op (Z.shiftr v i) s) 1))) by (intros v Hv; rewrite Hf by done; by rewrite and3_0).
    rewrite bind_Ok. destruct (diff4 _ _ _ _) eqn:Hdf; [|done]. exfalso. assert (Ht : told i (i + 1) = true).
    { apply (diff4_mono (fun v => (bit (op (Z.shiftr v i) s) 0, bit (op (Z.shiftr v i) s) 1)) (fun v => (bit v i, bit v (i + 1))) a b c d); [|done]. intros v w Heq. cbv beta in *.
      assert (H4 : Z.shiftr v i mod 4 = Z.shiftr w i mod 4).
      { change 4 with (2 ^ 2). rewrite <- !Z.land_ones by lia. change (Z.ones 2) with 3. rewrite !and3 by lia. congruence. }
      apply Hcong in H4. change 4 with (2 ^ 2) in H4. rewrite <- !Z.land_ones in H4 by lia. change (Z.ones 2) with 3 in H4. rewrite !and3_0 in H4. by apply pair2_inj. }
    destruct (decide (i + 1 < 32)) as [Hi1|Hi1].
    - destruct (told_marked i (i + 1) Hi ltac:(lia) Ht) as [[Mi Ri] [Mj Rj]]. pose proof (proj2 (four_shift_finds a b c d Ha Hb Hc Hd g Hlo Hhi) Hn i ltac:(lia)) as Hs. rewrite (test4_pairs _ (fun v => (bit v i, bit v (i + 1)))) in Hs.
      + unfold told in Ht. rewrite Ht in Hs. specialize (Hs ltac:(rewrite and3 by lia; rewrite Mi, Mj; done)). discriminate Hs.
      + intros v Hv. unfold sm. rewrite rsh_Ok, bind_Ok by lia. by rewrite and3 by lia.
    - unfold told in Ht. rewrite !(word_high_bits _ (i + 1)) in Ht by (done || lia). by destruct (bit a i), (bit b i), (bit c i), (bit d i). }
  assert (Hadd : forall s x y, x mod 4 = y mod 4 -> add32 x s mod 4 = add32 y s mod 4) by (intros s x y Hxy; unfold add32; rewrite !u32_mod4; rewrite (Z.add_mod x), (Z.add_mod y), Hxy by lia; done).
  assert (Hsub : forall s x y, x mod 4 = y mod 4 -> sub32 x s mod 4 = sub32 y s mod 4) by (intros s x y Hxy; unfold sub32; rewrite !u32_mod4; rewrite (Zminus_mod x), (Zminus_mod y), Hxy; done).
  assert (Hxor : forall s x y, x mod 4 = y mod 4 -> Z.lxor x s mod 4 = Z.lxor y s mod 4).
  { intros s x y. change 4 with (2 ^ 2). rewrite <- !Z.land_ones by lia. rewrite !land_lxor_distr. by intros ->. }
  enough (Hf : finds (four_quadratic ks g) (fun _ => False)) by (destruct Hf as ([ls|] & Hr & Hx); [by destruct (Hx ls eq_refl)|done]).
  unfold four_quadratic. apply for_upto_finds; [done|lia|]. intros i Hi. rewrite rsh_in by lia. apply finds_when4, for_upto_finds; [done|lia|]. intros j Hj. rewrite rsh_in by lia. apply finds_when4.
  assert (Hpair : forall op : Z -> Z -> Z, (forall s x y, x mod 4 = y mod 4 -> op x s mod 4 = op y s mod 4) -> forall ls, finds (try4 ks (fun v => w ← rsh v i; aj ← rsh ks.1.1.1 j; Ok (Z.land (op w aj) 3)) ls) (fun _ => False)).
  { intros op Hc' ls. rewrite (Hop op i (Z.shiftr a j)); [apply finds_none|lia|apply Hc'|]. intros v Hv. cbn [fst snd ks]. by rewrite !rsh_Ok, !bind_Ok by lia. }
  repeat apply finds_orelse; by apply Hpair.
Qed.

Lemma orelse_found {A} (x y : result (option A)) r : x = Ok (Some r) -> orelse x y = Ok (Some r).
Proof using. by intros ->. Qed.
Lemma orelse_next {A} (x y : result (option A)) : x = Ok None -> orelse x y = y.
Proof using. by intros ->. Qed.

(** *** The big guns *)
Definition good_code (r : nat * list line) : Prop := length r.2 = r.1 /\ good4 a b c d r.2.

Lemma codes_good F ls : codes F ls -> forallb is_set ls = true -> diff4 (F a) (F b) (F c) (F d) = true -> good4 a b c d ls.
Proof using Ha Hb Hc Hd.
  intros [Hr|Hr] Hset Ht; (split; [done|]).
  - exists (pair2 (F a)), (pair2 (F b)), (pair2 (F c)), (pair2 (F d)). rewrite testfour_pair2, !Hr by done. do 8 (split; [done || apply pair2_range|]). done.
  - exists (pair2 ((F a).2, (F a).1)), (pair2 ((F b).2, (F b).1)), (pair2 ((F c).2, (F c).1)), (pair2 ((F d).2, (F d).1)). rewrite testfour_pair2, !Hr, diff4_swap by done.
    do 8 (split; [done || apply pair2_range|]). done.
Qed.

Lemma guns_case f F used ls (r : result (option (nat * list line))) : codes F ls -> length ls = used /\ forallb is_set ls = true -> (forall v, word32 v -> f v = Ok (pair2 (F v))) ->
  r = (t ← test4 ks f; Ok (if (t : bool) then Some (used, ls) else None)) -> finds r good_code /\ (r = Ok None -> diff4 (F a) (F b) (F c) (F d) = false).
Proof using Ha Hb Hc Hd.
  intros Hcodes [Hlen Hset] Hf ->. rewrite (test4_pairs _ F), bind_Ok by done. destruct (diff4 _ _ _ _) eqn:Ht; [|by split; [apply finds_none|]].
  split; [|done]. apply finds_some. split; [done|]. by apply (codes_good F).
Qed.

Lemma guns_find m n o : 0 <= m -> m < n -> n < 32 -> 0 <= o < 32 -> o <> m -> o <> n ->
  let t v := (bit v m, bit v n, bit v o) in some_works (t a) (t b) (t c) (t d) = true ->
  exists r, (guns_one ks m n o or_else guns_two ks m n o or_else guns_three ks m n o or_else guns_zero ks m n) = Ok (Some r) /\ good_code r.
Proof using Ha Hb Hc Hd.
  intros Hm Hmn Hn Ho Hom Hon t Hworks.
  destruct (guns_case (fun v => x ← rsh v m; y ← rsh v o; z ← sm v (n - 1) 2; Ok (Z.lxor (Z.land (Z.lxor x y) 1) z)) (F1 m n o) 1 _ (guns_one ks m n o) (code_one m n o Hm Hmn Hn Ho Hom Hon)) as [G1 N1]. { destruct (decide (o < m)); cbv beta iota zeta; by destruct (decide (_ = 0)). }
  { intros v Hv. unfold sm. rewrite !rsh_Ok, !bind_Ok by lia. rewrite land_lxor_distr, !and1, and2, !lxor_pair2 by lia. cbn [fst snd]. unfold F1. solve_bools. }
  { unfold guns_one. destruct (test4 _ _) as [[]|]; [|done..]. cbn [mbind result_bind]. by destruct (decide (o < m)). }
  destruct (guns_case (fun v => x ← bit1 v m; y ← rsh v n; z ← rsh v o; Ok (Z.lxor x (Z.shiftl (Z.land (Z.lxor y z) 1) 1))) (F2 m n o) 1 _ (guns_two ks m n o) (code_two m n o Hm Hmn Hn Ho Hom Hon)) as [G2 N2]. { destruct (decide (m = o - 1)); cbv beta iota zeta; (destruct (decide (m = 0)); [done|]); by destruct (decide (_ = 0)). }
  { intros v Hv. unfold bit1, sm. rewrite !rsh_Ok, !bind_Ok by lia. rewrite land_lxor_distr, !and1, !lxor_pair2 by lia. cbn [fst snd]. rewrite shiftl_pair2, lxor_pair2. cbn [fst snd]. unfold F2. solve_bools. }
  { unfold guns_two. destruct (test4 _ _) as [[]|]; [|done..]. cbn [mbind result_bind]. by destruct (decide (m = o - 1)). }
  destruct (code_three m n o Hm Hmn Hn Ho Hom Hon) as [C3 L3].
  destruct (guns_case (fun v => x ← bit1 v m; y ← sm v (n - 1) 2; z ← bit1 v o; Ok (Z.lxor (Z.lxor (Z.lxor x y) z) (Z.shiftl z 1))) (F3 m n o) (guns_three_code m n o).1 (guns_three_code m n o).2 (guns_three ks m n o) C3 L3) as [G3 N3].
  { intros v Hv. unfold bit1, sm. rewrite !rsh_Ok, !bind_Ok by lia. rewrite !and1, and2, shiftl_pair2, !lxor_pair2 by lia. cbn [fst snd]. unfold F3. solve_bools. }
  { unfold guns_three. by destruct (guns_three_code m n o). }
  destruct (guns_case (fun v => x ← bit1 v m; y ← sm v (n - 1) 2; Ok (Z.lxor x y)) (F0 m n) 1 _ (guns_zero ks m n) (code_zero m n o Hm Hmn Hn Ho Hom Hon)) as [G0 N0]. { done. }
  { intros v Hv. unfold bit1, sm. rewrite !rsh_Ok, !bind_Ok by lia. rewrite and1, and2, lxor_pair2 by lia. cbn [fst snd]. unfold F0. solve_bools. }
  { done. }
  assert (G : finds (guns_one ks m n o or_else guns_two ks m n o or_else guns_three ks m n o or_else guns_zero ks m n) good_code) by (by repeat apply finds_orelse).
  destruct G as ([r|] & Hr & Hg); [exists r; split; [exact Hr|by apply Hg]|]. exfalso.
  apply (orelse_none _ _ good_code G1) in Hr as [R1 Hr]. apply (orelse_none _ _ good_code G2) in Hr as [R2 Hr]. apply (orelse_none _ _ good_code G3) in Hr as [R3 R0].
  specialize (N1 R1). specialize (N2 R2). specialize (N3 R3). specialize (N0 R0). unfold some_works in Hworks. unfold F1, F2, F3, F0 in *. cbn [t T1 T2 T3 T0] in Hworks. by rewrite N1, N2, N3, N0 in Hworks.
Qed.

Lemma guns_mno_ok i j k : 0 <= i < 32 -> 0 <= j < 32 -> 0 <= k < 32 -> i <> j -> i <> k -> j <> k ->
  (let t v := (bit v i, bit v j, bit v k) in separated (t a) (t b) (t c) (t d) = true) ->
  exists m n o, guns_mno ks (i, j, k) = Ok (m, n, o) /\ 0 <= m /\ m < n /\ n < 32 /\ 0 <= o < 32 /\ o <> m /\ o <> n /\
    let t v := (bit v m, bit v n, bit v o) in some_works (t a) (t b) (t c) (t d) = true.
Proof using.
  intros Hi Hj Hk Hij Hik Hjk Hsep. cbv zeta in Hsep. apply separated_works in Hsep. unfold works, roles in Hsep. unfold two_of in Hsep. cbn [pick] in Hsep.
  assert (Hcount : forall p, 0 <= p < 32 -> count_bit ks p = Ok (Z.b2z (bit a p) + Z.b2z (bit b p) + Z.b2z (bit c p) + Z.b2z (bit d p))) by (intros p Hp; unfold count_bit, ks; cbn [fst snd]; by rewrite !bit1_pair by done).
  unfold guns_mno. rewrite !Hcount, !bind_Ok by done.
  assert (Hfin : forall m n o, 0 <= m < 32 -> 0 <= n < 32 -> 0 <= o < 32 -> m <> n -> o <> m -> o <> n ->
    (let t v := (bit v m, bit v n, bit v o) in some_works (t a) (t b) (t c) (t d) = true) -> (let t v := (bit v n, bit v m, bit v o) in some_works (t a) (t b) (t c) (t d) = true) ->
    exists m' n' o', Ok (if decide (n < m) then (n, m, o) else (m, n, o)) = Ok (m', n', o') /\ 0 <= m' /\ m' < n' /\ n' < 32 /\ 0 <= o' < 32 /\ o' <> m' /\ o' <> n' /\
      let t v := (bit v m', bit v n', bit v o') in some_works (t a) (t b) (t c) (t d) = true).
  { intros m n o Hm Hn Ho Hmn Hom Hon W1 W2. destruct (decide (n < m)); eexists _, _, _; (split; [reflexivity|]); (do 6 (split; [lia|])); done. }
  set (ci := Z.b2z (bit a i) + Z.b2z (bit b i) + Z.b2z (bit c i) + Z.b2z (bit d i)) in *. set (cj := Z.b2z (bit a j) + Z.b2z (bit b j) + Z.b2z (bit c j) + Z.b2z (bit d j)) in *.
  destruct (decide (ci <> 2)) as [Hci|Hci]; [rewrite bool_decide_eq_false_2 in Hsep by done|rewrite bool_decide_eq_true_2 in Hsep by lia; destruct (decide (cj <> 2)) as [Hcj|Hcj]; [rewrite bool_decide_eq_false_2 in Hsep by done|rewrite bool_decide_eq_true_2 in Hsep by lia]];
    cbn [negb view pick] in Hsep; apply andb_true_iff in Hsep as [W1 W2]; by apply Hfin.
Qed.

(** [hexfour] on four different words. *)
Lemma hexfour_finds : NoDup [a; b; c; d] -> exists g', hexfour ks g = Ok g' /\ good4 a b c d (code g').
Proof using Ha Hb Hc Hd Hlo Hhi Hmark.
  intros Hnd. pose proof Hnd as Hnd'. apply NoDup_cons in Hnd' as [Hna Hnd']. apply NoDup_cons in Hnd' as [Hnb Hnd']. apply NoDup_cons in Hnd' as [Hnc _].
  unfold hexfour, ks. cbn [fst snd]. rewrite decide_False; [fold ks|].
  2:{ rewrite elem_of_cons in Hna, Hnb, Hnc. rewrite elem_of_cons in Hna, Hnb. rewrite elem_of_cons in Hna. tauto. }
  pose proof (proj1 (four_shift_finds a b c d Ha Hb Hc Hd g Hlo Hhi)) as F1'. pose proof (four_linear_finds a b c d Ha Hb Hc Hd g Hlo Hhi) as F2'. pose proof (four_masks_finds a b c d Ha Hb Hc Hd g Hlo Hhi) as F3'.
  pose proof (proj1 (four_five_finds a b c d Ha Hb Hc Hd g Hlo Hhi)) as F5'. fold ks in F1', F2', F3', F5'.
  fold ks in F1', F2', F3', F5'. assert (Hset : forall ls, good1 a b c d ls -> good4 a b c d (code (set_lines 1 ls g))) by (intros ls [Hl Hg]; rewrite <- Hl; by rewrite code_set_lines).
  assert (Hsearch : forall r, finds r (good1 a b c d) -> (r = Ok None -> exists g', big_guns ks g = Ok g' /\ good4 a b c d (code g')) ->
    exists g', (x ← r; match x with Some ls => Ok (set_lines 1 ls g) | None => big_guns ks g end) = Ok g' /\ good4 a b c d (code g')).
  { intros r ([ls|] & -> & Hg) Hnone; rewrite bind_Ok; [eexists; split; [reflexivity|]; by apply Hset, Hg|by apply Hnone]. }
  destruct F1' as ([ls|] & H1 & Hg1); [rewrite (orelse_found _ _ _ H1); apply (Hsearch (Ok (Some ls))); [by apply finds_some, Hg1|intros H; discriminate H]|].
  rewrite (orelse_next _ _ H1). rewrite (four_quadratic_none H1).
  assert (Hq : finds (Ok None) (good1 a b c d)) by apply finds_none.
  refine (Hsearch _ (finds_orelse _ _ _ F2' (finds_orelse _ _ _ F3' (finds_orelse _ _ _ Hq F5'))) _). intros Hn. apply (orelse_none _ _ (good1 a b c d) F2') in Hn as [_ Hn]. apply (orelse_none _ _ (good1 a b c d) F3') in Hn as [_ Hn]. apply (orelse_none _ _ (good1 a b c d) Hq) in Hn as [_ Hn].
  destruct (guns_ijk_ok Hnd (none_told Hn)) as (i & j & k & Hijk & Hi & Hj & Hk & Hij & Hik & Hjk & Hsep). destruct (guns_mno_ok i j k Hi Hj Hk Hij Hik Hjk Hsep) as (m & n & o & Hmno & Hm & Hmn & Hn32 & Ho & Hom & Hon & Hw).
  destruct (guns_find m n o Hm Hmn Hn32 Ho Hom Hon Hw) as ([used ls] & Hr & Hl & Hg). unfold big_guns. rewrite Hijk, bind_Ok, Hmno, bind_Ok, Hr, bind_Ok. eexists. split; [reflexivity|]. cbn [fst snd] in *. rewrite <- Hl. by rewrite code_set_lines.
Qed.
End find4.
