(* ===== verification/FindhashOk.v ===== *)
(** * The perfect hash: the search ends and the written function is a perfect hash

    For string keys, in the modes that call [lookup] or let the caller hash: the sizes that
    [findhash] goes through, why it ends, and what the code it writes computes. *)
From S2P Require Import Prelude CLib Word Bytes Lookupa Perfect PerfectOk PerfectSpec Gencode PerfHex Findhash.

#[local] Open Scope Z_scope.

(** ** Mapping over the keys *)
Lemma mapM_Ok {A B} (f : A -> result B) (P : A -> B -> Prop) l :
  (forall x, x ∈ l -> exists y, f x = Ok y /\ P x y) -> exists l', mapM f l = Ok l' /\ Forall2 P l l'.
Proof.
  induction l as [|x l IH]; intros Hf; [by exists []|]. destruct (Hf x) as (y & Hy & HP); [by left|].
  destruct IH as (l' & Hl & HF); [intros z Hz; apply Hf; by right|]. exists (y :: l'). split; [|by constructor].
  cbn. rewrite Hy. cbn. by rewrite Hl.
Qed.

Lemma pow2_div k j : 0 <= k -> 0 <= j -> 2 ^ k / 2 ^ j = if decide (j <= k) then 2 ^ (k - j) else 0.
Proof.
  intros Hk Hj. assert (0 < 2 ^ j) by (apply Z.pow_pos_nonneg; lia). case_decide as Hd.
  - replace k with (k - j + j) at 1 by lia. rewrite Z.pow_add_r by lia. apply Z.div_mul. lia.
  - apply Z.div_small. split; [apply Z.pow_nonneg; lia|]. apply Z.pow_lt_mono_r; lia.
Qed.

Lemma pow2_half k : 0 < k -> 2 ^ k / 2 = 2 ^ (k - 1).
Proof. intros Hk. change 2 with (2 ^ 1) at 2. rewrite pow2_div, decide_True by lia. done. Qed.

(** [x / 2 ^ j], at least 1. *)
Lemma pow2_div_max k j : 0 <= k -> 0 <= j -> exists y, 0 <= y <= k /\ k - j <= y /\ (if decide (2 ^ k / 2 ^ j < 1) then 1 else 2 ^ k / 2 ^ j) = 2 ^ y.
Proof.
  intros Hk Hj. rewrite pow2_div by lia. destruct (decide (j <= k)).
  - exists (k - j). rewrite decide_False by (pose proof (Z.pow_pos_nonneg 2 (k - j)); lia). split; [lia|]. split; [lia|done].
  - exists 0. rewrite decide_True by lia. split; [lia|]. split; [lia|done].
Qed.

Lemma pow2_lt a b : 0 <= a -> 0 <= b -> 2 ^ a < 2 ^ b <-> a < b.
Proof. intros Ha Hb. symmetry. apply Z.pow_lt_mono_r_iff; lia. Qed.

Lemma pow2_le a b : 0 <= a -> 0 <= b -> 2 ^ a <= 2 ^ b <-> a <= b.
Proof. intros Ha Hb. symmetry. apply Z.pow_le_mono_r_iff; lia. Qed.

Lemma pow2_pos a : 0 <= a -> 0 < 2 ^ a.
Proof. intros Ha. apply Z.pow_pos_nonneg; lia. Qed.

(** ** The sizes *)
(** [alen], [blen] and [smax] are 2^x, 2^y and 2^k, with 2^xm the largest [alen]. *)
Record sizes (minimal : bool) (x y k : Z) : Prop := {
  sz_x : 0 <= x <= k - (if minimal then 1 else 0);
  sz_y : 0 <= y <= k;
  sz_k : 0 < k < 32;
  sz_y12 : 16 < k -> 12 <= y;
  sz_x0 : x = 0 -> k <= 1;
  sz_y0 : minimal = true -> y = 0 -> k <= 1
}.
Definition is_minimal (form : hashform) : bool := bool_decide (f_perfect form = MINIMAL_HP).

Lemma pow2_shift k j : 0 <= j <= k -> 2 ^ k / 2 ^ j = 2 ^ (k - j).
Proof. intros Hj. rewrite pow2_div, decide_True by lia. done. Qed.

Lemma u32_pow2 k : 0 <= k < 32 -> u32 (2 ^ k) = 2 ^ k.
Proof. intros Hk. apply u32_small. split; [apply Z.pow_nonneg; lia|apply Z.pow_lt_mono_r; lia]. Qed.

Lemma pow2_twice k : 0 <= k < 31 -> u32 (2 ^ k * 2) = 2 ^ (k + 1).
Proof. intros Hk. rewrite <- (u32_pow2 (k + 1)) by lia. f_equal. rewrite Z.pow_add_r by lia. done. Qed.

Lemma initalen_normal blen0 k nkeys form : f_hashtype form = STRING_HT -> f_perfect form = NORMAL_HP -> 0 < k < 31 ->
  exists y k', initalen blen0 (2 ^ k) nkeys form = Ok (2 ^ k', 2 ^ y, 2 ^ k') /\ k <= k' <= k + 1 /\ 0 <= y <= k' /\ (16 < k' -> 12 <= y).
Proof.
  intros Hst Hp Hk. unfold initalen. rewrite Hst, Hp. rewrite (bool_decide_eq_false_2 (STRING_HT = INT_HT)) by done. rewrite (decide_True (P := NORMAL_HP = NORMAL_HP)) by done.
  set (fast := bool_decide (f_speed form = FAST_HS)). set (smax := if decide (fast = true /\ le_frac nkeys 4 5 (2 ^ k) = false) then u32 (2 ^ k * 2) else 2 ^ k).
  assert (Hs : exists k', smax = 2 ^ k' /\ k <= k' <= k + 1).
  { unfold smax. case_decide; [exists (k + 1); split; [apply pow2_twice; lia|lia]|exists k; split; [done|lia]]. }
  clearbody smax. destruct Hs as (k' & -> & Hk'). rewrite (decide_False (P := false = true /\ 131072 < 2 ^ k')) by (by intros [? _]). cbn [mbind result_bind].
  assert (Hbl : forall b, (exists j, 0 <= j <= 5 /\ (16 < k' -> j <= 4) /\ b = 2 ^ k' / 2 ^ j) ->
    exists y, 0 <= y <= k' /\ (16 < k' -> 12 <= y) /\ (let b := if decide (fast = true /\ b < 2 ^ k' / 8) then 2 ^ k' / 8 else b in if decide (b < 1) then 1 else b) = 2 ^ y).
  { intros b (j & Hj & Hj4 & ->). set (c := if decide (fast = true /\ _) then _ else _).
    assert (Hc : exists j', 0 <= j' <= 5 /\ (16 < k' -> j' <= 4) /\ c = 2 ^ k' / 2 ^ j') by (unfold c; destruct (decide _); [exists 3; split; [lia|split; [lia|reflexivity]]|by exists j]).
    destruct Hc as (j' & Hj' & Hj4' & ->). destruct (pow2_div_max k' j') as (y & Hy & Hyk & Heq); [lia..|]. exists y. split; [done|]. split; [lia|exact Heq]. }
  set (b := if decide (false = true /\ 2 ^ k' < 32) then _ else _).
  assert (Hb : exists j, 0 <= j <= 5 /\ (16 < k' -> j <= 4) /\ b = 2 ^ k' / 2 ^ j).
  { unfold b. rewrite (decide_False (P := false = true /\ 2 ^ k' < 32)) by (by intros [? _]). change (2 ^ k' / 4) with (2 ^ k' / 2 ^ 2). destruct (decide (16 < k')) as [Hbig|Hbig].
    - rewrite decide_False by (rewrite pow2_shift, pow2_le by lia; lia). destruct (le_frac nkeys 3 5 (2 ^ k')); [exists 4; split; [lia|split; [lia|reflexivity]]|].
      destruct (le_frac nkeys 4 5 (2 ^ k')); [exists 3; split; [lia|split; [lia|reflexivity]]|exists 2; split; [lia|split; [lia|reflexivity]]].
    - rewrite decide_True.
      + destruct (le_frac nkeys 14 25 (2 ^ k')); [exists 5; split; [lia|split; [lia|reflexivity]]|].
        destruct (le_frac nkeys 37 50 (2 ^ k')); [exists 4; split; [lia|split; [lia|reflexivity]]|exists 3; split; [lia|split; [lia|reflexivity]]].
      + rewrite pow2_div by lia. destruct (decide (2 <= k')); [apply pow2_le; lia|done]. }
  destruct (Hbl b Hb) as (y & Hy & Hy12 & Heq). exists y, k'. split; [|split; [lia|split; [lia|done]]]. cbv zeta in Heq. rewrite Heq.
  rewrite decide_False by (pose proof (pow2_pos k'); lia). done.
Qed.

Lemma initalen_minimal blen0 k nkeys form : f_perfect form = MINIMAL_HP -> 0 < k < 31 ->
  exists x y, initalen blen0 (2 ^ k) nkeys form = Ok (2 ^ x, 2 ^ y, 2 ^ k) /\ sizes true x y k.
Proof.
  intros Hp Hk. unfold initalen. rewrite Hp. rewrite (decide_False (P := MINIMAL_HP = NORMAL_HP)) by done.
  rewrite mylog2_pow2 by lia. cbn [mbind result_bind].
  change (2 ^ k / 2) with (2 ^ k / 2 ^ 1). change (2 ^ k / 4) with (2 ^ k / 2 ^ 2). change (2 ^ k / 8) with (2 ^ k / 2 ^ 3).
  assert (Hsz : forall x y, 0 <= x <= k - 1 -> 0 <= y <= k -> (16 < k -> 12 <= y) -> (x = 0 -> k <= 1) -> (y = 0 -> k <= 1) -> 
    exists x' y', Ok (2 ^ x, 2 ^ y, 2 ^ k) = Ok (2 ^ x', 2 ^ y', 2 ^ k) /\ sizes true x' y' k).
  { intros x y Hx Hy H12 Hx0 Hy0. exists x, y. split; [done|]. split; [lia|lia|lia|done|done|by intros _]. }
  destruct (decide (k <= 8)); [rewrite !pow2_shift by lia; apply Hsz; lia|].
  rewrite !pow2_shift by lia.
  destruct (decide (k <= 17)) as [H17|H17].
  { destruct (bool_decide _); [apply Hsz; lia|]. assert (H12 : 2 ^ (k - 2) < USE_SCRAMBLE <-> k <= 13) by (change USE_SCRAMBLE with (2 ^ 12); rewrite pow2_lt by lia; lia).
    destruct (decide (2 ^ (k - 2) < USE_SCRAMBLE)) as [Hu|Hu]; repeat destruct (le_frac _ _ _ _); apply Hsz; lia. }
  destruct (decide (k = 18)); [destruct (bool_decide _); repeat destruct (le_frac _ _ _ _); apply Hsz; lia|].
  destruct (decide (k <= 20)); repeat destruct (le_frac _ _ _ _); apply Hsz; lia.
Qed.

(** ** The initial hash *)
Definition valid_key (y : key) : Prop := 0 <= len_k y <= Z.of_nat (length (name_k y)).
Definition same_key (y y' : key) : Prop := name_k y' = name_k y /\ len_k y' = len_k y.

(** The last step of the written function. *)
Definition combine (tab scr : list Z) (blen a b : Z) : result Z :=
  t ← arr tab b; if decide (blen < USE_SCRAMBLE) then Ok (Z.lxor a t) else w ← arr scr t; Ok (Z.lxor a w).

(** A key with its (a,b), and what the code does with it. *)
Definition hashed (inline : bool) (salt x y : Z) (code : list line) (k k' : key) : Prop :=
  same_key k k' /\ 0 <= a_k k' < 2 ^ x /\ 0 <= b_k k' < 2 ^ y /\
  exists vars, (if inline then exists v, inline_hash k (initlev_of salt) = Ok v /\ vars = [(Vval, v)] else vars = []) /\
    forall tab scr, run_lines tab scr (name_k k) (len_k k) (Env vars None) code = combine tab scr (2 ^ y) (a_k k') (b_k k').

Lemma pow2_mask y : 0 <= y < 32 -> u32 (2 ^ y - 1) = Z.shiftl 1 y - 1.
Proof. intros Hy. rewrite Z.shiftl_1_l. pose proof (pow2_pos y). assert (2 ^ y <= 2 ^ 31) by (apply pow2_le; lia). apply u32_small. lia. Qed.

Lemma land_mask h y : 0 <= y < 32 -> 0 <= Z.land h (u32 (2 ^ y - 1)) < 2 ^ y.
Proof. intros Hy. rewrite pow2_mask, mask_mod by lia. apply Z.mod_pos_bound, pow2_pos. lia. Qed.

(** The last line of normal mode with one word. *)
Lemma combine_zero tab scr y b : 2 ^ y < USE_SCRAMBLE -> combine tab scr (2 ^ y) 0 b = arr tab b.
Proof. intros Hy. unfold combine. destruct (arr tab b); [|done]. cbn [mbind result_bind]. rewrite decide_True by done. by rewrite Z.lxor_0_l. Qed.

Lemma run_checksum tab scr sk sl vars v s ls : checksum sk sl (cs_fill v) = Ok s ->
  run_code tab scr sk sl (Env vars None) (Decl :: InitState v :: Checksum :: ls) = run_code tab scr sk sl (Env vars (Some (of_cs s))) ls.
Proof.
  intros Hc. cbn [run_code run_line mbind result_bind e_state e_vars].
  change (from_option_fault _ (option_bind _ _ cs_of _)) with (Ok (cs_fill v)). rewrite bind_Ok, Hc. done.
Qed.

(** The value of [rsl] that the last line sets. *)
Lemma run_last tab scr sk sl s e : (run_code tab scr sk sl s [Set_ Vrsl e] ≫= fun s => var_get (e_vars s) Vrsl) = run_exp tab scr s e.
Proof. cbn [run_code run_line]. by destruct (run_exp tab scr s e). Qed.

Lemma run_lookup tab scr sk sl vars v h ls : lookup sk sl v = Ok h ->
  run_code tab scr sk sl (Env vars None) (DeclLookup v :: ls) = run_code tab scr sk sl (Env ((Vval, h) :: vars) None) ls.
Proof. intros Hh. cbn [run_code run_line]. by rewrite Hh. Qed.

Section initkey.
Context (m : bool) (x y k : Z) (Hs : sizes m x y k) (keys : list key) (Hv : Forall valid_key keys) (salt : Z) (g : gencode).

Lemma x_range : 0 <= x < 32.
Proof using Hs. destruct Hs. destruct m; lia. Qed.

Lemma y_range : 0 <= y < 32.
Proof using Hs. destruct Hs. lia. Qed.

Lemma valid_at z : z ∈ keys -> valid_key z.
Proof using Hv. intros Hz. by apply (proj1 (Forall_forall _ _) Hv). Qed.

Lemma initnorm_ok : exists ks g', initnorm keys (2 ^ x) (2 ^ y) (2 ^ k) salt g = Ok (ks, g') /\ Forall2 (hashed false salt x y (code g')) keys ks.
Proof using Hs Hv.
  pose proof x_range as Hx. pose proof y_range as Hy. unfold initnorm. rewrite !mylog2_pow2 by lia. rewrite !bind_Ok. unfold UB4BITS.
  destruct (decide (32 < x + y)) as [Hbig|Hsmall].
  - set (ls := [Decl; _; _; _]).
    destruct (mapM_Ok (fun y0 => s ← checksum (name_k y0) (len_k y0) (cs_fill (initlev_of salt));
      Ok (set_ab y0 (Z.land (cs_a s) (u32 (2 ^ x - 1))) (Z.land (cs_b s) (u32 (2 ^ y - 1))))) (hashed false salt x y ls) keys) as (ks & -> & HF).
    + intros z Hz. destruct (checksum_total (name_k z) (len_k z) (cs_fill (initlev_of salt))) as (s & Hcs & Hws);
        [by apply valid_at|repeat split; apply u32_word|]. rewrite Hcs. eexists. split; [done|]. split; [by split|]. split; [by apply land_mask|]. split; [by apply land_mask|].
      exists []. split; [done|]. intros tab scr. unfold run_lines, ls. rewrite (run_checksum _ _ _ _ _ _ s) by done. rewrite run_last. cbn [run_exp e_state e_vars mbind result_bind from_option_fault of_cs]. cbn [lookup list_lookup from_option_fault result_bind bin a_k b_k set_ab].
      assert (~ 2 ^ y < USE_SCRAMBLE) by (change USE_SCRAMBLE with (2 ^ 12); rewrite pow2_lt by lia; destruct Hs; destruct m; lia).
      unfold combine. change (of_cs s !! 0%nat) with (Some (cs_a s)). change (of_cs s !! 1%nat) with (Some (cs_b s)). cbn [from_option_fault mbind result_bind]. destruct (arr tab (Z.land (cs_b s) (u32 (2 ^ y - 1)))); cbn [mbind result_bind]; [by rewrite decide_False by done|done].
    + exists ks. eexists. split; [reflexivity|]. by rewrite (code_set_lines ls).
  - set (e := if decide (2 ^ k <= 1) then _ else _). set (ls := [DeclLookup (initlev_of salt); Set_ Vrsl e]).
    destruct (mapM_Ok (fun y0 => hash ← lookup (name_k y0) (len_k y0) (initlev_of salt);
      a ← (if decide (0 < x) then rsh hash (32 - x) else Ok 0);
      Ok (set_ab y0 a (if decide (1 < 2 ^ y) then Z.land hash (u32 (2 ^ y - 1)) else 0))) (hashed false salt x y ls) keys) as (ks & -> & HF).
    + intros z Hz. destruct (lookup_total (name_k z) (len_k z) (initlev_of salt)) as (h & Hh & Hw); [by apply valid_at|]. rewrite Hh, bind_Ok.
      assert (Hb : (if decide (1 < 2 ^ y) then Z.land h (u32 (2 ^ y - 1)) else 0) = Z.land h (u32 (2 ^ y - 1))).
      { destruct (decide (1 < 2 ^ y)) as [H1|H1]; [done|]. destruct (decide (y = 0)) as [->|Hy0]; [by rewrite Z.land_0_r|]. exfalso. apply H1, (pow2_lt 0 y); lia. }
      rewrite Hb. set (a := if decide (0 < x) then Z.shiftr h (32 - x) else 0).
      assert (Ha : (if decide (0 < x) then rsh h (32 - x) else Ok 0) = Ok a) by (unfold a; destruct (decide (0 < x)); [apply rsh_Ok; lia|done]).
      rewrite Ha, bind_Ok. eexists. split; [done|]. split; [by split|]. split; [|split; [by apply land_mask|]].
      { cbn [a_k set_ab]. unfold a. destruct (decide (0 < x)); [apply shiftr_top; [done|lia]|]. pose proof (pow2_pos x). lia. }
      exists []. split; [done|]. intros tab scr. unfold run_lines, ls. rewrite (run_lookup _ _ _ _ _ _ h) by done. rewrite run_last.
      cbn [a_k b_k set_ab]. unfold e. assert (1 < 2 ^ k) by (apply (pow2_lt 0 k); destruct Hs; lia). rewrite (decide_False (P := 2 ^ k <= 1)) by lia.
      set (bb := Z.land h (u32 (2 ^ y - 1))). assert (Hm : forall env, run_exp tab scr (Env [(Vval, h)] env) (Var Vval band Num (u32 (2 ^ y - 1)))%code = Ok bb) by done.
      destruct (decide (x = 0)) as [Hx0|Hx0].
      * unfold a. rewrite (decide_False (P := 0 < x)) by lia. rewrite combine_zero; [done|]. change USE_SCRAMBLE with (2 ^ 12). apply pow2_lt; [lia|done|]. pose proof (sz_x0 _ _ _ _ Hs Hx0). destruct Hs. lia.
      * unfold a, combine. rewrite (decide_True (P := 0 < x)) by lia. destruct (decide (2 ^ y < USE_SCRAMBLE)); cbn [run_exp e_vars var_get mbind result_bind bin].
        all: rewrite (decide_True (P := Vval = Vval)) by done; cbn [mbind result_bind]; rewrite rsh_Ok by lia; cbn [mbind result_bind]; fold bb; destruct (arr tab bb); [|done].
        -- done.
        -- done.
    + exists ks. eexists. split; [reflexivity|]. by rewrite (code_set_lines ls).
Qed.
End initkey.

Section inline.
Context (m : bool) (x y k : Z) (Hs : sizes m x y k) (keys : list key) (Hv : Forall valid_key keys) (salt : Z) (g : gencode).

Lemma inline_word z : valid_key z -> exists h, inline_hash z (initlev_of salt) = Ok h /\ word32 h.
Proof.
  intros Hz. unfold inline_hash. rewrite decide_False by (unfold valid_key in Hz; lia). eexists. split; [done|].
  assert (Hf : forall l h, word32 h -> word32 (foldl inline_step h l)) by (induction l as [|c l IH]; intros h Hh; [done|]; apply IH, u32_word).
  apply Hf, u32_word.
Qed.

(** With one b only, the code shifts by 32: no value. *)
Lemma initinl_ok : exists ks g', initinl keys (2 ^ x) (2 ^ y) (2 ^ k) salt g = Ok (ks, g') /\
  Forall2 (fun z z' => same_key z z' /\ 0 <= a_k z' < 2 ^ x /\ 0 <= b_k z' < 2 ^ y /\ (0 < y -> hashed true salt x y (code g') z z')) keys ks.
Proof using Hs Hv.
  assert (Hx : 0 <= x < 32) by (destruct Hs; destruct m; lia). assert (Hy : 0 <= y < 32) by (destruct Hs; lia). unfold initinl. rewrite mylog2_pow2 by lia. rewrite bind_Ok. unfold UB4BITS.
  set (e := if decide (2 ^ k <= 1) then _ else _). set (ls := [Set_ Vrsl e]).
  edestruct (mapM_Ok (fun y0 => hash ← inline_hash y0 (initlev_of salt); b ← (if decide (1 < 2 ^ y) then rsh hash (32 - y) else Ok 0);
    Ok (Key (name_k y0) (len_k y0) hash (if decide (1 < 2 ^ x) then Z.land hash (u32 (2 ^ x - 1)) else 0) b))
    (fun z z' => same_key z z' /\ 0 <= a_k z' < 2 ^ x /\ 0 <= b_k z' < 2 ^ y /\ (0 < y -> hashed true salt x y ls z z')) keys) as (ks & -> & HF).
  - intros z Hz. destruct (inline_word z) as (h & Hh & Hw); [by apply (proj1 (Forall_forall _ _) Hv)|]. rewrite Hh, bind_Ok.
    set (a := if decide (1 < 2 ^ x) then _ else 0). set (b := if decide (0 < y) then Z.shiftr h (32 - y) else 0).
    assert (Hb : (if decide (1 < 2 ^ y) then rsh h (32 - y) else Ok 0) = Ok b).
    { unfold b. destruct (decide (0 < y)); [rewrite decide_True by (apply (pow2_lt 0 y); lia); apply rsh_Ok; lia|]. rewrite decide_False; [done|]. replace y with 0 by lia. done. }
    assert (Ha : 0 <= a < 2 ^ x) by (unfold a; destruct (decide (1 < 2 ^ x)); [by apply land_mask|pose proof (pow2_pos x); lia]).
    assert (Hbb : 0 <= b < 2 ^ y) by (unfold b; destruct (decide (0 < y)); [apply shiftr_top; [done|lia]|pose proof (pow2_pos y); lia]).
    rewrite Hb, bind_Ok. eexists. split; [done|]. split; [by split|]. split; [done|]. split; [done|]. intros Hy0. split; [by split|]. split; [done|]. split; [done|].
    exists [(Vval, h)]. split; [by exists h|]. intros tab scr. unfold run_lines, ls. rewrite run_last. cbn [a_k b_k]. unfold e.
    assert (1 < 2 ^ k) by (apply (pow2_lt 0 k); destruct Hs; lia). rewrite (decide_False (P := 2 ^ k <= 1)) by lia.
    assert (Hva : forall env, run_exp tab scr (Env [(Vval, h)] env) (Var Vval band Num (u32 (2 ^ x - 1)))%code = Ok a).
    { intros env. unfold a. destruct (decide (1 < 2 ^ x)) as [H1|H1]; [done|]. destruct (decide (x = 0)) as [->|]; [change (Ok (Z.land h 0) = Ok 0); by rewrite Z.land_0_r|]. exfalso. apply H1, (pow2_lt 0 x); lia. }
    assert (Hvb : forall env, run_exp tab scr (Env [(Vval, h)] env) (Var Vval shr Num (32 - y))%code = Ok b).
    { intros env. unfold b. rewrite decide_True by done. cbn. rewrite decide_True by done. cbn. apply rsh_Ok. lia. }
    unfold combine. destruct (decide (2 ^ y < USE_SCRAMBLE)).
    + change (run_exp tab scr (Env [(Vval, h)] None) (Bin Oxor (Var Vval band Num (u32 (2 ^ x - 1))) (Tab (Var Vval shr Num (32 - y))))%code) with
        (v ← run_exp tab scr (Env [(Vval, h)] None) (Var Vval band Num (u32 (2 ^ x - 1)))%code; w ← (i ← run_exp tab scr (Env [(Vval, h)] None) (Var Vval shr Num (32 - y))%code; arr tab i); bin Oxor v w).
      rewrite Hva, Hvb, !bind_Ok. by destruct (arr tab b).
    + change (run_exp tab scr (Env [(Vval, h)] None) (Bin Oxor (Var Vval band Num (u32 (2 ^ x - 1))) (Scramble (Tab (Var Vval shr Num (32 - y)))))%code) with
        (v ← run_exp tab scr (Env [(Vval, h)] None) (Var Vval band Num (u32 (2 ^ x - 1)))%code; w ← (i ← (i ← run_exp tab scr (Env [(Vval, h)] None) (Var Vval shr Num (32 - y))%code; arr tab i); arr scr i); bin Oxor v w).
      rewrite Hva, Hvb, !bind_Ok. destruct (arr tab b); [|done]. rewrite !bind_Ok. by destruct (arr scr a0).
  - exists ks. eexists. split; [reflexivity|]. by rewrite (code_set_lines ls).
Qed.
End inline.

(** ** Runs that end or call exit *)
Definition exits {A} (r : result A) (P : A -> Prop) : Prop := match r with Ok a => P a | Fault f => f = ExitCalled end.

Lemma exits_bind {A B} (r : result A) (f : A -> result B) P : exits r (fun a => exits (f a) P) -> exits (r ≫= f) P.
Proof. by destruct r. Qed.

Lemma exits_mono {A} (r : result A) (P Q : A -> Prop) : exits r P -> (forall a, P a -> Q a) -> exits r Q.
Proof. destruct r; cbn; auto. Qed.

Lemma exits_Ok {A} (a : A) (P : A -> Prop) : P a -> exits (Ok a) P.
Proof. done. Qed.

Lemma exits_mapM {A B} (f : A -> result B) l : (forall x, x ∈ l -> exits (f x) (fun _ => True)) -> exits (mapM f l) (fun _ => True).
Proof.
  induction l as [|x l IH]; intros Hf; [done|]. cbn. apply (exits_bind (f x)). eapply exits_mono; [apply Hf; by left|]. intros y _.
  apply (exits_bind (mapM f l)). eapply exits_mono; [apply IH; intros z Hz; apply Hf; by right|done].
Qed.

Lemma checkdup_exits form y z : exits (checkdup form y z) (fun _ => True).
Proof. unfold checkdup. destruct (f_hashtype form); [case_decide; done|case_decide; done|done]. Qed.

Section filled.
Context (keys : list key) (blen : Z).

(** A table under construction: its chains name keys. *)
Definition filled (t : list bstuff) : Prop := Z.of_nat (length t) = blen /\ forall b e o, t !! b = Some e -> o ∈ list_b e -> (o < length keys)%nat.

Lemma kget_exits o : (o < length keys)%nat -> exists y, kget keys o = Ok y /\ keys !! o = Some y.
Proof. intros Ho. destruct (lookup_lt_is_Some_2 keys o Ho) as [y Hy]. exists y. unfold kget. by rewrite Hy. Qed.

Lemma collide_exits form complete y others nc : (forall o, o ∈ others -> (o < length keys)%nat) -> exits (collide keys form complete y others nc) (fun _ => True).
Proof.
  revert nc. induction others as [|o others IH]; intros nc Ho; [done|]. cbn [collide]. destruct (kget_exits o) as (z & -> & _); [apply Ho; by left|]. rewrite bind_Ok.
  assert (Ho' : forall o, o ∈ others -> (o < length keys)%nat) by (intros o' Hin; apply Ho; by right).
  case_decide; [|by apply IH]. apply exits_bind. eapply exits_mono; [apply checkdup_exits|]. intros _ _. destruct complete; [by apply IH|done].
Qed.

Lemma inittab_loop_exits form complete ks nc t : (forall o, o ∈ ks -> (o < length keys)%nat) -> Forall (fun y => 0 <= b_k y < blen) keys -> filled t ->
  exits (inittab_loop keys form complete ks nc t) (fun r => filled r.2).
Proof.
  intros Hks Hb. revert nc t. induction ks as [|k ks IH]; intros nc t Ht; [done|]. cbn [inittab_loop]. assert (Hk : (k < length keys)%nat) by (apply Hks; by left).
  destruct (kget_exits k Hk) as (y & -> & Hy). rewrite bind_Ok. pose proof (proj1 (Forall_lookup _ _) Hb k y Hy) as Hby. cbn in Hby. destruct Ht as [Hlen Hin].
  destruct (lookup_lt_is_Some_2 t (Z.to_nat (b_k y))) as [e He]; [lia|]. rewrite (arr_Ok _ _ e) by (try done; lia). rewrite bind_Ok. apply exits_bind.
  eapply exits_mono; [apply collide_exits; intros o Ho; by eapply Hin|]. intros [nc'|] _; [|done]. rewrite arr_put_Ok by lia. rewrite bind_Ok.
  apply IH; [intros o Ho; apply Hks; by right|]. split; [by rewrite length_insert|]. intros b e' o Hb' Ho. apply list_lookup_insert_Some in Hb' as [(<- & <- & _)|(_ & Hb')]; [|by eapply Hin].
  cbn in Ho. apply elem_of_cons in Ho as [->|Ho]; [done|by eapply Hin].
Qed.

Lemma inittab_exits form complete : 0 <= blen -> Forall (fun y => 0 <= b_k y < blen) keys -> exits (inittab keys blen form complete) (fun r => filled r.2).
Proof.
  intros H0 Hb. apply inittab_loop_exits; [intros o Ho; apply elem_of_seq in Ho; lia|done|]. split; [rewrite length_replicate; lia|].
  intros b e o [-> _]%lookup_replicate ?%not_elem_of_nil. done.
Qed.

Lemma duplicates_exits form : 0 <= blen -> Forall (fun y => 0 <= b_k y < blen) keys -> exits (duplicates keys blen form) (fun _ => True).
Proof.
  intros H0 Hb. apply exits_bind. eapply exits_mono; [by apply inittab_exits|]. intros [nc t] [_ Hin]. apply exits_bind. eapply exits_mono; [|done]. apply exits_mapM.
  intros e [b He]%list_elem_of_lookup. assert (Hc : forall o, o ∈ list_b e -> (o < length keys)%nat) by (intros o Ho; by eapply Hin).
  induction (list_b e) as [|o os IH]; [done|]. cbn [dup_pairs]. destruct (kget_exits o) as (y & -> & _); [apply Hc; by left|]. rewrite bind_Ok. apply exits_bind.
  eapply exits_mono; [|intros _ _; apply IH; intros o' Ho'; apply Hc; by right]. apply exits_mapM. intros o' Ho'. destruct (kget_exits o') as (z & -> & _); [apply Hc; by right|].
  rewrite bind_Ok. apply checkdup_exits.
Qed.
End filled.

(** ** One try *)
Definition string_mode (form : hashform) : Prop := f_hashtype form = STRING_HT /\ (f_mode form = NORMAL_HM \/ f_mode form = INLINE_HM).
#[export] Instance hmode_eq_dec : EqDecision hmode.
Proof. solve_decision. Defined.
Definition is_inline (form : hashform) : bool := bool_decide (f_mode form = INLINE_HM).

(** A key that got its (a,b); with one b the code of inline mode has no value. *)
Definition tried (inline : bool) (salt x y : Z) (code : list line) (z z' : key) : Prop :=
  same_key z z' /\ 0 <= a_k z' < 2 ^ x /\ 0 <= b_k z' < 2 ^ y /\ (inline = false \/ 0 < y -> hashed inline salt x y code z z').

Lemma same_key_trans z z' z'' : same_key z z' -> same_key z' z'' -> same_key z z''.
Proof. intros [? ?] [? ?]. split; congruence. Qed.

Lemma same_key_inline z z' v : same_key z z' -> inline_hash z' v = inline_hash z v.
Proof. intros [Hn Hl]. unfold inline_hash. by rewrite Hn, Hl. Qed.

Lemma hashed_same inline salt x y c z z' z'' : same_key z z' -> hashed inline salt x y c z' z'' -> hashed inline salt x y c z z''.
Proof.
  intros Hs (Hs' & Ha & Hb & vars & Hv & Hr). pose proof Hs as [Hn Hl]. split; [by eapply same_key_trans|]. split; [done|]. split; [done|]. exists vars. split.
  - destruct inline; [|done]. destruct Hv as (v & Hv & ->). exists v. split; [|done]. by rewrite <- (same_key_inline z z').
  - intros tab scr. by rewrite <- Hn, <- Hl.
Qed.

Lemma tried_same inline salt x y c z z' z'' : same_key z z' -> tried inline salt x y c z' z'' -> tried inline salt x y c z z''.
Proof.
  intros Hs (Hs' & Ha & Hb & Hh). split; [by eapply same_key_trans|]. split; [done|]. split; [done|]. intros Hy. eapply hashed_same; [done|by apply Hh].
Qed.

Lemma Forall2_trans {A} (P Q R : A -> A -> Prop) l l' l'' : (forall x y z, P x y -> Q y z -> R x z) -> Forall2 P l l' -> Forall2 Q l' l'' -> Forall2 R l l''.
Proof. intros HR HP. revert l''. induction HP; intros l'' HQ; inversion HQ; subst; constructor; eauto. Qed.

Section try.
Context (form : hashform) (Hmode : string_mode form) (k : Z) (keys0 : list key) (Hv0 : Forall valid_key keys0).
Context (scramble : list Z) (Hscr : scrambled (2 ^ k) scramble).
Let m := is_minimal form.
Let nkeys := Z.of_nat (length keys0).
Context (Hn : 2 <= nkeys < 2 ^ 32) (Hnk : m = true -> 2 ^ (k - 1) < nkeys).

Lemma valid_same keys : Forall2 same_key keys0 keys -> Forall valid_key keys.
Proof using Hv0.
  intros HF. apply Forall_lookup. intros i z Hz. destruct (Forall2_lookup_r _ _ _ _ _ HF Hz) as (z0 & Hz0 & [Hn0 Hl0]).
  pose proof (proj1 (Forall_lookup _ _) Hv0 i z0 Hz0) as Hz0v. unfold valid_key in *. by rewrite Hn0, Hl0.
Qed.

(** The initial hash of the keys with the sizes [x], [y]. *)
Lemma init_keys x y keys salt g : sizes m x y k -> Forall2 same_key keys0 keys ->
  exists ks g', (r ← match f_mode form with
      | NORMAL_HM => r ← initnorm keys (2 ^ x) (2 ^ y) (2 ^ k) salt g; Ok (false, r.1, r.2)
      | INLINE_HM => r ← initinl keys (2 ^ x) (2 ^ y) (2 ^ k) salt g; Ok (false, r.1, r.2)
      | HEX_HM | DECIMAL_HM => inithex keys nkeys (2 ^ x) (2 ^ y) (2 ^ k) salt form g
      | AB_HM | ABDEC_HM => Fault ExitCalled
      end; Ok r) = Ok (false, ks, g') /\ Forall2 (tried (is_inline form) salt x y (code g')) keys0 ks.
Proof using Hmode Hv0.
  intros Hs HF. pose proof (valid_same keys HF) as Hval. destruct Hmode as [_ [Hm|Hm]].
  - destruct (initnorm_ok m x y k Hs keys Hval salt g) as (ks & g' & Hi & HF'). unfold is_inline. rewrite Hm, Hi. rewrite !bind_Ok. exists ks, g'. split; [done|].
    eapply Forall2_trans; [|exact HF|exact HF']. intros z z' z'' Hz (Hz' & Ha & Hb & Hr). eapply tried_same; [done|]. by split; [|split; [|split]].
  - destruct (initinl_ok m x y k Hs keys Hval salt g) as (ks & g' & Hi & HF'). unfold is_inline. rewrite Hm, Hi. rewrite !bind_Ok. exists ks, g'. split; [done|].
    eapply Forall2_trans; [|exact HF|exact HF']. intros z z' z'' Hz (Hz' & Ha & Hb & Hr). eapply tried_same; [done|]. split; [done|]. split; [done|]. split; [done|].
    intros [?|?]; [done|by apply Hr].
Qed.

Lemma initkey_exits x y keys salt g : sizes m x y k -> Forall2 same_key keys0 keys ->
  exits (initkey keys nkeys (2 ^ x) (2 ^ y) (2 ^ k) salt form g) (fun r => let '(rsl, ks, g') := r in
    Forall2 (tried (is_inline form) salt x y (code g')) keys0 ks /\
    match rsl with Finished => False | NoDistinct => True | Distinct t => tabled ks (2 ^ y) (length ks) t end).
Proof using Hmode Hv0 Hn.
  intros Hs HF. destruct (init_keys x y keys salt g Hs HF) as (ks & g' & Hi & HF'). unfold initkey.
  assert (Hi' : forall (r : result (bool * list key * gencode)), (r ← r; Ok r) = Ok (false, ks, g') -> r = Ok (false, ks, g')) by (by intros [r|]; cbn; [intros [= ->]|]).
  rewrite (Hi' _ Hi), bind_Ok. rewrite decide_False by lia. apply exits_bind.
  assert (Hb : Forall (fun z => 0 <= b_k z < 2 ^ y) ks).
  { apply Forall_lookup. intros i z Hz. destruct (Forall2_lookup_r _ _ _ _ _ HF' Hz) as (z0 & _ & _ & _ & Hb & _). done. }
  assert (Hy : 0 <= 2 ^ y) by (apply Z.pow_nonneg; lia). pose proof (inittab_exits ks (2 ^ y) form false Hy Hb) as He.
  assert (Hlen : length ks = length keys0) by (symmetry; by eapply Forall2_length).
  destruct (inittab ks (2 ^ y) form false) as [[[] t]|f] eqn:Hi2; [| |exact He]; cbn; (split; [done|]); [|done].
  apply (inittab_tabled ks (2 ^ y) form t); [unfold nkeys in *; lia|done].
Qed.

(** ** The search *)
(** The range of the hash. *)
Definition hrange : Z := if decide (f_perfect form = MINIMAL_HP) then nkeys else 2 ^ k.

(** The state of the search, with the exponents of its sizes. *)
Record searched (x y : Z) (s : search) : Prop := {
  sd_alen : s_alen s = 2 ^ x; sd_blen : s_blen s = 2 ^ y;
  sd_sizes : sizes m x y k;
  sd_keys : Forall2 same_key keys0 (s_keys s);
  sd_tabh : Z.of_nat (length (s_tabh s)) = hrange;
  sd_tabq : Z.of_nat (length (s_tabq s)) = 2 ^ y + 1;
  sd_initkey : 0 <= s_initkey s < RETRY_INITKEY;
  sd_perfect : s_perfect s = 0
}.

(** Every try makes this less. *)
Definition to_try (x y : Z) (s : search) : Z := (k - x + (k - y)) * (RETRY_INITKEY + 1) + (RETRY_INITKEY - s_initkey s).

(** What is found: each key has its (a,b), the code computes the hash from it, and the hash is perfect. *)
Record found_ok (x y : Z) (f : found) : Prop := {
  fo_blen : fd_blen f = 2 ^ y;
  fo_smax : fd_smax f = 2 ^ k;
  fo_sizes : sizes m x y k;
  fo_scramble : fd_scramble f = scramble;
  fo_keys : Forall2 (hashed (is_inline form) (fd_salt f) x y (code (fd_gen f))) keys0 (fd_keys f);
  fo_len : Z.of_nat (length (fd_tab f)) = 2 ^ y;
  fo_val : forall b e, fd_tab f !! b = Some e -> 0 <= val_b e < Z.min (val_limit (2 ^ y) (2 ^ k)) (Z.of_nat (length scramble));
  fo_perfect : perfect_for (fd_keys f) hrange (final_hash scramble (fd_tab f))
}.

Definition step_ok (x y : Z) (s : search) (r : search + found) : Prop :=
  match r with
  | inl s' => exists x' y', searched x' y' s' /\ to_try x' y' s' < to_try x y s
  | inr f => exists x' y', found_ok x' y' f
  end.

Lemma sizes_x x y : sizes m x y k -> 2 ^ x < maxalen (2 ^ k) form -> sizes m (x + 1) y k.
Proof using Hmode Hv0 Hscr Hn Hnk.
  intros [Hx Hy Hk Hy12 Hx0 Hy0] Hlt. split; try done; try lia. unfold m, is_minimal, maxalen in *. destruct (decide (f_perfect form = MINIMAL_HP)) as [Hp|Hp].
  - rewrite bool_decide_eq_true_2 in * by done. rewrite pow2_half, pow2_lt in Hlt by lia. lia.
  - rewrite bool_decide_eq_false_2 in * by done. rewrite pow2_lt in Hlt by lia. lia.
Qed.

Lemma sizes_y x y : sizes m x y k -> 2 ^ y < 2 ^ k -> sizes m x (y + 1) k.
Proof using Hmode Hv0 Hscr Hn Hnk. intros [Hx Hy Hk Hy12 Hx0 Hy0] Hlt. rewrite pow2_lt in Hlt by lia. split; try done; lia. Qed.

Lemma new_tabq_length y : 0 <= y -> Z.of_nat (length (new_tabq (2 ^ y))) = 2 ^ y + 1.
Proof using Hmode Hv0 Hscr Hn Hnk. intros Hy. unfold new_tabq. rewrite length_replicate. pose proof (pow2_pos y). lia. Qed.

Lemma tried_keys salt x y c ks : Forall2 (tried (is_inline form) salt x y c) keys0 ks -> Forall2 same_key keys0 ks.
Proof using Hmode Hv0 Hscr Hn Hnk. intros HF. eapply Forall2_impl; [exact HF|]. by intros z z' [? _]. Qed.

Lemma retry_initkey_ok x y s ks g : searched x y s -> Forall2 same_key keys0 ks -> Forall (fun z => 0 <= b_k z < 2 ^ y) ks ->
  exits (retry_initkey (2 ^ k) form s ks g) (fun s' => exists x' y', searched x' y' s' /\ to_try x' y' s' < to_try x y s).
Proof using Hmode Hv0 Hscr Hn Hnk.
  intros [Ha Hb Hs HF Hh Hq Hi Hp] HF' Hbk. pose proof Hs as [Hx Hy Hk _ _ _]. unfold retry_initkey. rewrite Ha, Hb. unfold RETRY_INITKEY in *.
  destruct (decide (2048 <= s_initkey s + 1)).
  - destruct (decide (2 ^ x < maxalen (2 ^ k) form)) as [Hlt|_].
    + pose proof (sizes_x x y Hs Hlt) as Hs'. pose proof Hs' as [Hx' _ _ _ _ _]. exists (x + 1), y. rewrite pow2_twice by (destruct m; lia).
      split; [by split|]. unfold to_try, RETRY_INITKEY. cbn [s_initkey]. lia.
    + destruct (decide (2 ^ y < 2 ^ k)) as [Hlt|_].
      * pose proof (sizes_y x y Hs Hlt) as Hs'. pose proof Hs' as [_ Hy' _ _ _ _]. exists x, (y + 1). rewrite pow2_twice by lia.
        split; [split; try done; cbn; apply new_tabq_length; lia|]. unfold to_try, RETRY_INITKEY. cbn [s_initkey]. lia.
      * apply exits_bind. eapply exits_mono; [apply duplicates_exits; [apply Z.pow_nonneg; lia|done]|done].
  - exists x, y. split; [split; try done; cbn; unfold RETRY_INITKEY; lia|]. unfold to_try, RETRY_INITKEY. cbn [s_initkey]. lia.
Qed.

Lemma retry_perfect_ok x y s ks g p : searched x y s -> Forall2 same_key keys0 ks -> Z.of_nat (length (tabh p)) = hrange ->
  exits (retry_perfect (2 ^ k) form s ks g p) (fun s' => exists x' y', searched x' y' s' /\ to_try x' y' s' < to_try x y s).
Proof using Hmode Hv0 Hscr Hn Hnk.
  intros [Ha Hb Hs HF Hh Hq Hi Hp] HF' Hph. pose proof Hs as [Hx Hy Hk _ _ _]. unfold retry_perfect. rewrite Hb, Hp. destruct Hmode as [Hst _]. rewrite Hst.
  rewrite decide_True by (left; split; [done|unfold RETRY_PERFECT; lia]). destruct (decide (2 ^ y < 2 ^ k)) as [Hlt|_]; [|done].
  pose proof (sizes_y x y Hs Hlt) as Hs'. pose proof Hs' as [_ Hy' _ _ _ _]. exists x, (y + 1). rewrite pow2_twice by lia.
  split; [split; try done; cbn; apply new_tabq_length; lia|]. unfold to_try, RETRY_INITKEY in *. cbn [s_initkey]. lia.
Qed.

(** Two keys with one (a,b) are not in a table of distinct pairs. *)
Lemma tabled_two ks blen t z z' : tabled ks blen (length ks) t -> ks !! 0%nat = Some z -> ks !! 1%nat = Some z' -> a_k z = a_k z' -> b_k z = b_k z' -> False.
Proof using.
  intros [Hlen He Hin Hall Ha] Hz Hz' Haz Hbz. pose proof (lookup_lt_Some _ _ _ Hz) as L0. pose proof (lookup_lt_Some _ _ _ Hz') as L1.
  destruct (Hall 0%nat z L0 Hz) as (_ & e & Hte & H0), (Hall 1%nat z' L1 Hz') as (_ & e' & Hte' & H1). rewrite Hbz in Hte. rewrite Hte in Hte'. injection Hte' as <-.
  assert (0%nat = 1%nat); [|done]. eapply Ha; [exact Hte|done|done|]. rewrite Hz, Hz'. cbn. by rewrite Haz.
Qed.

Context (Hinl : is_inline form = true -> m = true).

Lemma tried_hashed x y salt c ks t : sizes m x y k -> Forall2 (tried (is_inline form) salt x y c) keys0 ks -> tabled ks (2 ^ y) (length ks) t ->
  Forall2 (hashed (is_inline form) salt x y c) keys0 ks.
Proof using Hmode Hv0 Hscr Hn Hnk Hinl.
  intros Hs HF Ht. assert (Hy : is_inline form = false \/ 0 < y).
  { destruct (is_inline form) eqn:Hin; [right|by left]. destruct (decide (0 < y)) as [|Hy]; [done|exfalso]. pose proof (Hinl eq_refl) as Hm. destruct Hs as [Hx Hyk Hk _ _ Hy0].
    specialize (Hy0 Hm ltac:(lia)). rewrite Hm in Hx. assert (x = 0) as -> by lia. assert (y = 0) as -> by lia. pose proof (Forall2_length _ _ _ HF) as Hlen.
    destruct (lookup_lt_is_Some_2 ks 0) as [z Hz]; [lia|]. destruct (lookup_lt_is_Some_2 ks 1) as [z' Hz']; [lia|].
    destruct (Forall2_lookup_r _ _ _ _ _ HF Hz) as (z0 & _ & _ & Ha & Hb & _), (Forall2_lookup_r _ _ _ _ _ HF Hz') as (z0' & _ & _ & Ha' & Hb' & _).
    eapply (tabled_two ks); [done|exact Hz|exact Hz'|lia|lia]. }
  eapply Forall2_impl; [exact HF|]. intros z z' (_ & _ & _ & Hh). by apply Hh.
Qed.

Lemma find_step_ok x y s : searched x y s -> exits (find_step nkeys (2 ^ k) form scramble s) (step_ok x y s).
Proof using Hmode Hv0 Hscr Hn Hnk Hinl.
  intros Hs. pose proof Hs as [Ha Hb Hsz HF Hh Hq Hi Hp]. unfold find_step. rewrite Ha, Hb. apply exits_bind.
  eapply exits_mono; [by apply initkey_exits|]. intros [[rsl ks] g] [HFt Hr]. pose proof (tried_keys _ _ _ _ _ HFt) as HFk.
  assert (Hab : forall i z, ks !! i = Some z -> 0 <= a_k z < 2 ^ x /\ 0 <= b_k z < 2 ^ y).
  { intros i z Hz. destruct (Forall2_lookup_r _ _ _ _ _ HFt Hz) as (z0 & _ & _ & Hza & Hzb & _). done. }
  destruct rsl as [|t|]; [| |done].
  - assert (Hbk : Forall (fun z => 0 <= b_k z < 2 ^ y) ks) by (apply Forall_lookup; intros i z Hz; by apply (Hab i z)).
    pose proof (retry_initkey_ok x y s ks g Hs HFk Hbk) as Hret. by destruct (retry_initkey _ _ _ _ _).
  - pose proof Hsz as [Hx Hy Hk _ _ _]. assert (Hxn : 2 ^ x <= hrange).
    { unfold hrange, m, is_minimal in *. destruct (decide (f_perfect form = MINIMAL_HP)) as [Hpf|Hpf].
      - rewrite bool_decide_eq_true_2 in * by done. specialize (Hnk eq_refl). assert (2 ^ x <= 2 ^ (k - 1)) by (apply pow2_le; lia). lia.
      - rewrite bool_decide_eq_false_2 in * by done. apply pow2_le; lia. }
    assert (Hkeys : Forall (fun z => 0 <= a_k z < Z.of_nat (length (s_tabh s))) ks) by (apply Forall_lookup; intros i z Hz; cbn; rewrite Hh; destruct (Hab i z Hz); lia).
    assert (Hsm : 2 ^ y < USE_SCRAMBLE -> 2 ^ k <= SCRAMBLE_LEN).
    { change USE_SCRAMBLE with (2 ^ 12). rewrite pow2_lt by lia. intros Hy12. change SCRAMBLE_LEN with (2 ^ 16). apply pow2_le; [lia..|]. destruct Hsz. lia. }
    pose proof (safe_perfect ks scramble (2 ^ y) (2 ^ k) nkeys form (sc_len _ _ Hscr) (scramble_nonneg _ _ Hscr)) as Hsafe.
    specialize (Hsafe ltac:(eapply Forall_impl; [exact Hkeys|cbn; lia]) ltac:(apply Z.pow_nonneg; lia) Hsm ltac:(apply Z.pow_nonneg; lia) t (Pst t (s_tabh s) (s_tabq s)) Hr).
    specialize (Hsafe (tables_init ks scramble (2 ^ k) (2 ^ y) nkeys form t (s_tabh s) (s_tabq s) (pow2_pos k ltac:(lia)) Hscr Hr Hkeys Hh Hq)).
    unfold safe in Hsafe. destruct (perfect _ _ _ _ _ _ _) as [[r p]|]; [|done]. rewrite bind_Ok. cbn [fst snd]. destruct Hsafe as [Htb Hpf]. destruct r.
    + exists x, y. split; try done; cbn [fd_blen fd_smax fd_gen fd_keys fd_tab fd_salt fd_scramble].
      * by eapply tried_hashed.
      * rewrite <- (length_fmap list_b), (tb_chains _ _ _ _ _ _ _ _ Htb), length_fmap. rewrite (ta_len _ _ _ _ Hr). rewrite Z2Nat.id; [done|]. apply Z.pow_nonneg. lia.
      * intros b e He. by apply (tb_fits _ _ _ _ _ _ _ _ Htb b e He).
      * unfold hrange in *. rewrite <- Hh. by apply Hpf.
    + assert (Hph : Z.of_nat (length (tabh p)) = hrange) by apply (tb_tabh _ _ _ _ _ _ _ _ Htb).
      pose proof (retry_perfect_ok x y s ks g p Hs HFk Hph) as Hret. by destruct (retry_perfect _ _ _ _ _ _).
Qed.

(** The search ends: the fuel is enough. *)
Lemma find_loop_ok fuel x y s : searched x y s -> to_try x y s < Z.of_nat fuel ->
  exits (find_loop nkeys (2 ^ k) form scramble fuel s) (fun f => exists x' y', found_ok x' y' f).
Proof using Hmode Hv0 Hscr Hn Hnk Hinl.
  revert x y s. induction fuel as [|fuel IH]; intros x y s Hs Hf.
  - exfalso. destruct Hs as [_ _ [Hx Hy Hk _ _ _] _ _ _ Hi _]. unfold to_try, RETRY_INITKEY in *. destruct m; lia.
  - cbn [find_loop]. apply exits_bind. eapply exits_mono; [by apply (find_step_ok x y s)|]. intros [s'|f] Hr; [|done]. destruct Hr as (x' & y' & Hs' & Hlt). apply (IH x' y'); [done|lia].
Qed.
End try.
