(* ===== verification/FindhashSpec.v ===== *)
(** * The perfect hash: the program as a whole

    What is written to phash.c, run on the keys that were read: for string keys it is a perfect
    hash, and the search for it ends.  The other theorems are about the hashes of few integer
    keys and about code the program gets wrong. *)
From S2P Require Import Prelude CLib Word Bytes Lookupa Perfect PerfectOk PerfectSpec Gencode PerfHex Findhash FindhashOk.

#[local] Open Scope Z_scope.

(** ** What is written *)
Lemma by_lines_pow2 j y : 0 <= j <= y -> by_lines (2 ^ j) (2 ^ y) = seqZ 0 (2 ^ y).
Proof.
  intros Hj. unfold by_lines. f_equal. pose proof (pow2_pos j). replace (2 ^ y) with (2 ^ (y - j) * 2 ^ j) by (rewrite <- Z.pow_add_r by lia; f_equal; lia).
  f_equal. symmetry. apply (Z.div_unique _ _ _ (2 ^ j - 1)); lia.
Qed.

Lemma mapM_seqZ {A} (f : Z -> result A) n l : mapM f (seqZ 0 n) = Ok l -> forall i, 0 <= i < n -> exists v, f i = Ok v /\ l !! Z.to_nat i = Some v.
Proof.
  intros Hl i Hi. assert (HF : forall ks l, mapM f ks = Ok l -> Forall2 (fun x v => f x = Ok v) ks l).
  { induction ks as [|x ks IH]; intros l' Hl'; cbn in Hl'; [injection Hl' as <-; constructor|]. destruct (f x) as [v|] eqn:Hv; [|done]. cbn in Hl'.
    destruct (mapM f ks) as [vs|] eqn:Hvs; [|done]. injection Hl' as <-. constructor; [done|by apply IH]. }
  destruct (Forall2_lookup_l _ _ _ (Z.to_nat i) i (HF _ _ Hl)) as (v & Hv & Hf); [|by exists v]. rewrite lookup_seqZ_lt; [|lia]. f_equal. lia.
Qed.

Lemma mapM_total {A} (f : Z -> result A) n : (forall i, 0 <= i < n -> exists v, f i = Ok v) -> exists l, mapM f (seqZ 0 n) = Ok l.
Proof.
  intros Hf. destruct (mapM_Ok f (fun _ _ => True) (seqZ 0 n)) as (l & Hl & _); [|by exists l]. intros i Hi%elem_of_seqZ. destruct (Hf i) as [v Hv]; [lia|]. by exists v.
Qed.

Section written.
Context (form : hashform) (k : Z) (keys0 : list key) (scramble : list Z) (Hscr : scrambled (2 ^ k) scramble) (x y : Z) (f : found).
Context (Hf : found_ok form k keys0 scramble x y f).

(** The word that the written function adds for a b. *)
Definition b_word (b : Z) : result Z := e ← arr (fd_tab f) b; arr scramble (val_b e).

Lemma b_entry b : 0 <= b < 2 ^ y -> exists e v, arr (fd_tab f) b = Ok e /\ arr scramble (val_b e) = Ok v /\ 0 <= v < 2 ^ k /\ 0 <= val_b e < val_limit (2 ^ y) (2 ^ k).
Proof using Hscr Hf.
  intros Hb. destruct (lookup_lt_is_Some_2 (fd_tab f) (Z.to_nat b)) as [e He]; [pose proof (fo_len _ _ _ _ _ _ _ Hf); lia|].
  pose proof (fo_val _ _ _ _ _ _ _ Hf _ _ He) as Hv. destruct (lookup_lt_is_Some_2 scramble (Z.to_nat (val_b e))) as [v Hsv]; [lia|].
  exists e, v. split; [by apply arr_Ok; [lia|]|]. split; [by apply arr_Ok; [lia|]|]. split; [by eapply sc_range|lia].
Qed.

Lemma tab_lines : make_c_tab f = mapM (tab_entry f (bool_decide (2 ^ y < USE_SCRAMBLE))) (seqZ 0 (2 ^ y)).
Proof using Hf.
  unfold make_c_tab. rewrite (fo_blen _ _ _ _ _ _ _ Hf). pose proof (fo_sizes _ _ _ _ _ _ _ Hf) as [_ Hy _ _ _ _]. change USE_SCRAMBLE with (2 ^ 12).
  destruct (decide (2 ^ y < 16)) as [H4|H4].
  { rewrite bool_decide_eq_true_2; [done|]. change 16 with (2 ^ 4) in H4. rewrite pow2_lt in * by lia. lia. }
  change 16 with (2 ^ 4) in H4. rewrite pow2_lt in H4 by lia. change 16 with (2 ^ 4). change 8 with (2 ^ 3). rewrite !by_lines_pow2 by lia.
  destruct (decide (2 ^ y <= 1024)) as [H10|H10].
  { rewrite bool_decide_eq_true_2; [done|]. change 1024 with (2 ^ 10) in H10. rewrite pow2_le in H10 by lia. rewrite pow2_lt by lia. lia. }
  destruct (decide (2 ^ y < 2 ^ 12)) as [H12|H12]; [by rewrite bool_decide_eq_true_2|by rewrite bool_decide_eq_false_2].
Qed.

Lemma tab_entry_ok b : 0 <= b < 2 ^ y -> exists e v, arr (fd_tab f) b = Ok e /\ arr scramble (val_b e) = Ok v /\
  tab_entry f (bool_decide (2 ^ y < USE_SCRAMBLE)) b = Ok (if decide (2 ^ y < USE_SCRAMBLE) then v else val_b e) /\ (~ 2 ^ y < USE_SCRAMBLE -> 0 <= val_b e < 256).
Proof using Hscr Hf.
  intros Hb. destruct (b_entry b Hb) as (e & v & He & Hv & Hvr & Hvl). exists e, v. split; [done|]. split; [done|]. unfold tab_entry. rewrite He, bind_Ok.
  rewrite (fo_scramble _ _ _ _ _ _ _ Hf), (fo_blen _ _ _ _ _ _ _ Hf), (fo_smax _ _ _ _ _ _ _ Hf). pose proof (fo_sizes _ _ _ _ _ _ _ Hf) as [_ Hy Hk Hy12 _ _].
  unfold tab_bits, val_limit, UB1MAXVAL in *. destruct (decide (2 ^ y < USE_SCRAMBLE)) as [Hs|Hs].
  - rewrite bool_decide_eq_true_2 by done. rewrite Hv, bind_Ok. split; [|done]. f_equal. assert (k <= 16) by (change USE_SCRAMBLE with (2 ^ 12) in Hs; rewrite pow2_lt in Hs by lia; lia).
    assert (2 ^ k <= 2 ^ 16) by (apply pow2_le; lia). destruct (decide (2 ^ k <= 255 + 1 \/ USE_SCRAMBLE <= 2 ^ y)) as [[H8|H8]|H8]; [|lia|]; apply Z.mod_small; lia.
  - rewrite bool_decide_eq_false_2 by done. rewrite bind_Ok. split; [|lia]. f_equal. rewrite decide_True by lia. apply Z.mod_small. lia.
Qed.

(** What is written computes the hash that was found. *)
Lemma make_c_ok : exists c, make_c f = Ok c /\ pc_code c = code (fd_gen f) /\ pc_salt c = initlev_of (fd_salt f) /\
  forall a b, 0 <= b < 2 ^ y -> combine (pc_tab c) (pc_scramble c) (2 ^ y) a b = (w ← b_word b; Ok (Z.lxor a w)).
Proof using Hscr Hf.
  unfold make_c. rewrite tab_lines. destruct (mapM_total (tab_entry f (bool_decide (2 ^ y < USE_SCRAMBLE))) (2 ^ y)) as [tab Htab].
  { intros i Hi. destruct (tab_entry_ok i Hi) as (e & v & _ & _ & -> & _). by eexists. }
  rewrite Htab, bind_Ok. unfold make_c_scramble. rewrite (fo_blen _ _ _ _ _ _ _ Hf), (fo_scramble _ _ _ _ _ _ _ Hf), (fo_smax _ _ _ _ _ _ _ Hf).
  pose proof (fo_sizes _ _ _ _ _ _ _ Hf) as [_ Hy Hk _ _ _].
  assert (Hat : forall b, 0 <= b < 2 ^ y -> exists e v, arr (fd_tab f) b = Ok e /\ arr scramble (val_b e) = Ok v /\ arr tab b = Ok (if decide (2 ^ y < USE_SCRAMBLE) then v else val_b e) /\ (~ 2 ^ y < USE_SCRAMBLE -> 0 <= val_b e < 256)).
  { intros b Hb. destruct (tab_entry_ok b Hb) as (e & v & He & Hv & Hte & Hr). exists e, v. split; [done|]. split; [done|]. split; [|done].
    destruct (mapM_seqZ _ _ _ Htab b Hb) as (w & Hw & Htw). rewrite Hte in Hw. injection Hw as ->. by apply arr_Ok; [lia|]. }
  destruct (decide (2 ^ y < USE_SCRAMBLE)) as [Hs|Hs].
  - rewrite decide_False by lia. rewrite bind_Ok. eexists. split; [done|]. split; [done|]. split; [done|]. intros a b Hb. cbn [pc_tab pc_scramble].
    destruct (Hat b Hb) as (e & v & He & Hv & Ht & _). unfold combine, b_word. rewrite Ht, He, !bind_Ok. rewrite decide_True by done. by rewrite Hv.
  - rewrite decide_True by lia. assert (Hsc : forall i, 0 <= i < 256 -> exists v, arr scramble i = Ok v /\ (v ← arr scramble i; Ok (v mod 2 ^ scramble_bits (2 ^ k))) = Ok v).
    { intros i Hi. destruct (lookup_lt_is_Some_2 scramble (Z.to_nat i)) as [v Hv]; [pose proof (sc_len _ _ Hscr) as Hl; change SCRAMBLE_LEN with 65536 in Hl; lia|]. exists v.
      assert (arr scramble i = Ok v) as -> by (apply arr_Ok; [lia|done]). split; [done|]. rewrite bind_Ok. f_equal. pose proof (sc_range _ _ Hscr _ _ Hv). unfold scramble_bits, UB2MAXVAL.
      destruct (decide (0xffff + 1 < 2 ^ k)); apply Z.mod_small; [|lia]. assert (2 ^ k < 2 ^ 32) by (apply pow2_lt; lia). lia. }
    destruct (mapM_total (fun i => v ← arr scramble i; Ok (v mod 2 ^ scramble_bits (2 ^ k))) (UB1MAXVAL + 1)) as [scr Hscr'].
    { intros i Hi. destruct (Hsc i) as (v & _ & ->); [unfold UB1MAXVAL in *; lia|by eexists]. }
    rewrite Hscr', bind_Ok. eexists. split; [done|]. split; [done|]. split; [done|]. intros a b Hb. cbn [pc_tab pc_scramble].
    destruct (Hat b Hb) as (e & v & He & Hv & Ht & Hr). specialize (Hr Hs). unfold combine, b_word. rewrite Ht, He, !bind_Ok. rewrite decide_False by done.
    destruct (mapM_seqZ _ _ _ Hscr' (val_b e)) as (w & Hw & Hsw); [unfold UB1MAXVAL; lia|]. destruct (Hsc (val_b e) Hr) as (w' & Hw' & Heq). cbv beta in Hw. rewrite Heq in Hw. injection Hw as ->.
    rewrite (arr_Ok _ _ w) by (done || lia). by rewrite Hw', !bind_Ok.
Qed.

Lemma phash_final c z z' : string_mode form -> pc_code c = code (fd_gen f) -> pc_salt c = initlev_of (fd_salt f) ->
  (forall a b, 0 <= b < 2 ^ y -> combine (pc_tab c) (pc_scramble c) (2 ^ y) a b = (w ← b_word b; Ok (Z.lxor a w))) ->
  hashed (is_inline form) (fd_salt f) x y (code (fd_gen f)) z z' -> phash form c z = final_hash scramble (fd_tab f) z'.
Proof using.
  intros [_ Hm] Hcode Hsalt Hcomb (_ & _ & Hb & vars & Hvars & Hrun). transitivity (combine (pc_tab c) (pc_scramble c) (2 ^ y) (a_k z') (b_k z')).
  - rewrite <- Hrun. unfold phash. rewrite Hcode. unfold is_inline in Hvars. destruct Hm as [Hm|Hm]; rewrite Hm in *.
    + by rewrite Hvars.
    + destruct Hvars as (v & Hv & ->). rewrite Hsalt, Hv. done.
  - rewrite Hcomb by done. unfold b_word, final_hash. destruct (arr (fd_tab f) (b_k z')); [|done]. done.
Qed.

Lemma written_perfect : string_mode form -> exists c, make_c f = Ok c /\ perfect_for keys0 (hrange form k keys0) (phash form c).
Proof using Hscr Hf.
  intros Hm. destruct make_c_ok as (c & Hc & Hcode & Hsalt & Hcomb). exists c. split; [done|]. destruct (fo_perfect _ _ _ _ _ _ _ Hf) as [Hr Hi].
  pose proof (fo_keys _ _ _ _ _ _ _ Hf) as HF. assert (Hph : forall z z', hashed (is_inline form) (fd_salt f) x y (code (fd_gen f)) z z' -> phash form c z = final_hash scramble (fd_tab f) z').
  { intros z z' Hz. by apply phash_final. }
  split.
  - intros z [i Hz]%list_elem_of_lookup. destruct (Forall2_lookup_l _ _ _ _ _ HF Hz) as (z' & Hz' & Hh). rewrite (Hph _ _ Hh). apply Hr. by eapply list_elem_of_lookup_2.
  - intros i j z w Hz Hw Heq. destruct (Forall2_lookup_l _ _ _ _ _ HF Hz) as (z' & Hz' & Hh), (Forall2_lookup_l _ _ _ _ _ HF Hw) as (w' & Hw' & Hh').
    rewrite (Hph _ _ Hh), (Hph _ _ Hh') in Heq. by eapply Hi.
Qed.
End written.

(** ** From the keys to the code *)
(** No key, or one: the hash is 0. *)
Lemma initnorm_total keys alen blen smax salt g la lb : Forall valid_key keys -> mylog2 alen = Ok la -> mylog2 blen = Ok lb -> 0 <= la < 32 -> la + lb <= 32 ->
  exists r, initnorm keys alen blen smax salt g = Ok r.
Proof.
  intros Hv Ha Hb Hla Hab. unfold initnorm. rewrite Ha, Hb, !bind_Ok. rewrite decide_False by (unfold UB4BITS; lia).
  match goal with |- context [mapM ?f keys] => destruct (mapM_Ok f (fun _ _ => True) keys) as (ks & -> & _) end; [|by eexists].
  intros z Hz. destruct (lookup_total (name_k z) (len_k z) (initlev_of salt)) as (h & -> & _); [by apply (proj1 (Forall_forall _ _) Hv)|]. rewrite bind_Ok.
  destruct (decide (0 < la)); [rewrite rsh_Ok by (unfold UB4BITS; lia)|]; by eexists.
Qed.

Lemma initinl_total keys alen blen smax salt g lb : Forall valid_key keys -> mylog2 blen = Ok lb -> blen <= 1 ->
  exists r, initinl keys alen blen smax salt g = Ok r.
Proof.
  intros Hv Hb Hb1. unfold initinl. rewrite Hb, bind_Ok.
  match goal with |- context [mapM ?f keys] => destruct (mapM_Ok f (fun _ _ => True) keys) as (ks & -> & _) end; [|by eexists].
  intros z Hz. unfold inline_hash. rewrite decide_False by (pose proof (proj1 (Forall_forall _ _) Hv z Hz) as Hz'; unfold valid_key in Hz'; lia). rewrite bind_Ok.
  rewrite (decide_False (P := 1 < blen)) by lia. by eexists.
Qed.

Lemma initalen_one blen0 nkeys form : f_hashtype form = STRING_HT -> 0 <= nkeys <= 1 ->
  exists alen blen smax la, initalen blen0 1 nkeys form = Ok (alen, blen, smax) /\ mylog2 alen = Ok la /\ 0 <= la < 32 /\ (blen = 0 \/ blen = 1) /\ (smax = 1 \/ smax = 2).
Proof.
  destruct form as [mode ht perf speed]. cbn [f_hashtype]. intros -> Hn.
  assert (Hone : forall alen blen smax la, initalen blen0 1 nkeys (Form mode STRING_HT perf speed) = Ok (alen, blen, smax) -> mylog2 alen = Ok la -> 0 <= la < 32 -> blen = 0 \/ blen = 1 -> smax = 1 \/ smax = 2 ->
    exists alen blen smax la, initalen blen0 1 nkeys (Form mode STRING_HT perf speed) = Ok (alen, blen, smax) /\ mylog2 alen = Ok la /\ 0 <= la < 32 /\ (blen = 0 \/ blen = 1) /\ (smax = 1 \/ smax = 2)) by (intros alen blen smax la; by exists alen, blen, smax, la).
  destruct perf; [|apply (Hone 0 0 1 0); [vm_compute; reflexivity|done|lia|lia|lia]].
  assert (nkeys = 0 \/ nkeys = 1) as [-> | ->] by lia; destruct speed.
  - apply (Hone 1 1 1 0); [vm_compute; reflexivity|done|lia|lia|lia].
  - apply (Hone 1 1 1 0); [vm_compute; reflexivity|done|lia|lia|lia].
  - apply (Hone 2 1 2 1); [vm_compute; reflexivity|done|lia|lia|lia].
  - apply (Hone 1 1 1 0); [vm_compute; reflexivity|done|lia|lia|lia].
Qed.

Lemma find_fuel_S : exists n, find_fuel = S n.
Proof. unfold find_fuel. destruct (2300 * 70)%nat as [|n] eqn:Hn; [|by exists n]. lia. Qed.

Lemma findhash_one form keys blen0 : string_mode form -> Forall valid_key keys -> (length keys <= 1)%nat ->
  exists f, findhash blen0 keys (Z.of_nat (length keys)) form = Ok f /\ fd_blen f = 0 /\ code (fd_gen f) = [Set_ Vrsl (Num 0)] /\ 0 < fd_smax f.
Proof.
  intros [Hst Hm] Hv Hlen. unfold findhash. rewrite decide_False by (by rewrite Hst). unfold findhash_search. set (nkeys := Z.of_nat (length keys)).
  assert (Hl : mylog2 nkeys = Ok 0) by (assert (nkeys = 0 \/ nkeys = 1) as [-> | ->] by (unfold nkeys; lia); done). rewrite Hl, bind_Ok. change (lsh 1 0) with (Ok 1). rewrite bind_Ok.
  destruct (initalen_one blen0 nkeys form Hst) as (alen & blen & smax & la & -> & Hla & Hla' & Hb & Hs); [unfold nkeys; lia|]. rewrite bind_Ok.
  assert (exists scr, scrambleinit smax = Ok scr) as [scr ->].
  { destruct Hs as [-> | ->]; [destruct (scrambleinit_ok 0) as (scr & Hscr & _)|destruct (scrambleinit_ok 1) as (scr & Hscr & _)]; try lia; by exists scr. }
  rewrite bind_Ok. destruct find_fuel_S as [n ->]. cbn [find_loop]. unfold find_step. cbn [s_keys s_alen s_blen s_salt s_gen].
  assert (Hi : forall g, exists ks g', initkey keys nkeys alen blen smax 1 form g = Ok (Finished, ks, set_lines 1 [Set_ Vrsl (Num 0)] g')).
  { intros g. unfold initkey. assert (Hlb : mylog2 blen = Ok 0) by (destruct Hb as [-> | ->]; done). destruct Hm as [-> | ->].
    - destruct (initnorm_total keys alen blen smax 1 g la 0) as [[ks g'] ->]; [done|done|done|done|lia|]. rewrite !bind_Ok. rewrite decide_True by (unfold nkeys; lia). by exists ks, g'.
    - destruct (initinl_total keys alen blen smax 1 g 0) as [[ks g'] ->]; [done|done|lia|]. rewrite !bind_Ok. rewrite decide_True by (unfold nkeys; lia). by exists ks, g'. }
  destruct (Hi no_code) as (ks & g' & ->). rewrite !bind_Ok. eexists. split; [done|]. split; [done|]. cbn [fd_gen fd_smax]. split; [apply (code_set_lines [_])|lia].
Qed.

Lemma initalen_string blen0 k nkeys form : f_hashtype form = STRING_HT -> 0 < k < 31 ->
  exists x y k', initalen blen0 (2 ^ k) nkeys form = Ok (2 ^ x, 2 ^ y, 2 ^ k') /\ sizes (is_minimal form) x y k' /\ (is_minimal form = true -> k' = k).
Proof.
  intros Hst Hk. unfold is_minimal. destruct (f_perfect form) eqn:Hp.
  - destruct (initalen_normal blen0 k nkeys form Hst Hp Hk) as (y & k' & Hi & Hk' & Hy & Hy12). exists k', y, k'. split; [done|]. split; [|done]. rewrite bool_decide_eq_false_2 by done.
    split; try done; lia.
  - destruct (initalen_minimal blen0 k nkeys form Hp Hk) as (x & y & Hi & Hs). exists x, y, k. split; [done|]. split; [|done]. by rewrite bool_decide_eq_true_2 by done.
Qed.

Definition phash_range (form : hashform) (keys : list key) (f : found) : Z := if decide (f_perfect form = MINIMAL_HP) then Z.of_nat (length keys) else fd_smax f.

(** The generator run on string keys (at most 2^30, each with its length inside its buffer), in
    normal mode or, for a minimal hash, inline mode: either it gives up with a message ([exit]),
    or it writes a function that maps the keys to different numbers below the number of keys
    (for a minimal hash) or below PHASHRANGE.  It never reads or writes outside its arrays and
    it always ends. *)
Theorem findhash_perfect blen0 keys form : string_mode form -> (f_mode form = INLINE_HM -> f_perfect form = MINIMAL_HP) ->
  Forall valid_key keys -> Z.of_nat (length keys) <= 2 ^ 30 ->
  findhash blen0 keys (Z.of_nat (length keys)) form = Fault ExitCalled \/
  exists f c, findhash blen0 keys (Z.of_nat (length keys)) form = Ok f /\ make_c f = Ok c /\ perfect_for keys (phash_range form keys f) (phash form c).
Proof.
  intros Hmode Hinl Hval Hlen. destruct (decide (length keys <= 1)%nat) as [H1|H1].
  { right. destruct (findhash_one form keys blen0 Hmode Hval H1) as (f & Hf & Hb & Hcode & Hsm). exists f, (PhashC [] [] [Set_ Vrsl (Num 0)] (initlev_of (fd_salt f))).
    split; [done|]. split; [unfold make_c, make_c_tab, make_c_scramble; by rewrite Hb, Hcode|].
    assert (Hph : forall z, z ∈ keys -> phash form (PhashC [] [] [Set_ Vrsl (Num 0)] (initlev_of (fd_salt f))) z = Ok 0).
    { intros z Hz. unfold phash. destruct Hmode as [_ [-> | ->]]; [done|]. cbn [pc_salt]. destruct (inline_word (fd_salt f) z) as (h & -> & _); [by apply (proj1 (Forall_forall _ _) Hval)|done]. }
    split.
    - intros z Hz. exists 0. split; [by apply Hph|]. unfold phash_range. pose proof Hz as Hz'. apply list_elem_of_lookup in Hz' as [i Hi%lookup_lt_Some]. case_decide; lia.
    - intros i j z w Hi%lookup_lt_Some Hj%lookup_lt_Some _. lia. }
  assert (Hst : f_hashtype form = STRING_HT) by apply Hmode.
  unfold findhash. rewrite decide_False by (by rewrite Hst). unfold findhash_search. set (nkeys := Z.of_nat (length keys)).
  destruct (mylog2_ok nkeys) as (k0 & Hl & Hk0 & Hle & Hlow); [unfold nkeys; lia|]. rewrite Hl, bind_Ok.
  assert (Hk : 0 < k0 < 31).
  { destruct (decide (k0 = 0)) as [->|]; [unfold nkeys in *; cbn in Hle; lia|]. destruct Hlow as [->|Hlow]; [done|]. split; [lia|].
    destruct (decide (k0 = 31)) as [->|]; [|lia]. unfold nkeys in *. cbn in Hlow. lia. }
  unfold lsh. rewrite decide_True by lia. rewrite bind_Ok. unfold shl32. rewrite Z.shiftl_1_l, u32_pow2 by lia.
assert (Hi : exists x y k, initalen blen0 (2 ^ k0) nkeys form = Ok (2 ^ x, 2 ^ y, 2 ^ k) /\ sizes (is_minimal form) x y k /\ (is_minimal form = true -> k = k0)) by (by apply initalen_string).
  destruct Hi as (x & y & k & -> & Hs & Hkm). rewrite bind_Ok. destruct (scrambleinit_ok k) as (scramble & -> & Hscr); [destruct Hs; lia|]. rewrite bind_Ok.
  assert (Hn : 2 <= nkeys < 2 ^ 32) by (unfold nkeys; lia).
  assert (Hnk : is_minimal form = true -> 2 ^ (k - 1) < nkeys) by (intros Hm; rewrite (Hkm Hm); destruct Hlow as [->|Hlow]; [lia|done]).
  assert (Hin : is_inline form = true -> is_minimal form = true).
  { unfold is_inline, is_minimal. intros Hm%bool_decide_eq_true_1. by apply bool_decide_eq_true_2, Hinl. }
  set (s0 := Search _ _ _ _ _ _ _ _ _).
  assert (Hs0 : searched form k keys x y s0).
  { pose proof Hs as [Hx Hy Hkr _ _ _]. split; try done; cbn.
    - apply Forall2_same_length_lookup_2; [done|]. intros i z z' Hz Hz'. rewrite Hz in Hz'. injection Hz' as <-. done.
    - unfold new_tabh, hrange. rewrite length_replicate. pose proof (pow2_pos k). destruct (decide (f_perfect form = MINIMAL_HP)); lia.
    - apply new_tabq_length with (form := form) (k := k) (keys0 := keys) (scramble := scramble); try done. lia. }
  pose proof (find_loop_ok form Hmode k keys Hval scramble Hscr Hn Hnk Hin find_fuel x y s0 Hs0) as Hfind.
  assert (Hfuel : to_try k x y s0 < Z.of_nat find_fuel).
  { unfold find_fuel. rewrite Nat2Z.inj_mul. unfold to_try, RETRY_INITKEY. cbn [s0 s_initkey]. destruct Hs as [Hx Hy Hkr _ _ _]. destruct (is_minimal form); lia. }
  specialize (Hfind Hfuel). destruct (find_loop _ _ _ _ _ _) as [f|e]; [|left; by rewrite Hfind]. right. destruct Hfind as (x' & y' & Hf).
  destruct (written_perfect form k keys scramble Hscr x' y' f Hf Hmode) as (c & Hc & Hp). exists f, c. split; [done|]. split; [done|].
  unfold phash_range. rewrite (fo_smax _ _ _ _ _ _ _ Hf). exact Hp.
Qed.

Definition three_keys : list key := [Key [111; 110; 101] 3 0 0 0; Key [116; 119; 111] 3 0 0 0; Key [54; 50] 2 0 0 0].
Definition is_Ok {A} (r : result A) : bool := match r with Ok _ => true | Fault _ => false end.

Theorem findhash_perfect_witness : exists f c, findhash 0 three_keys (Z.of_nat (length three_keys)) sample_form = Ok f /\ make_c f = Ok c /\
  perfect_for three_keys (phash_range sample_form three_keys f) (phash sample_form c).
Proof.
  assert (Hok : is_Ok (findhash 0 three_keys (Z.of_nat (length three_keys)) sample_form) = true) by (lazy; reflexivity).
  destruct (findhash_perfect 0 three_keys sample_form) as [Hf|Hf].
  - split; [done|by left].
  - done.
  - unfold three_keys. repeat apply Forall_cons_2; [split; cbn; lia..|apply Forall_nil_2].
  - cbn. lia.
  - rewrite Hf in Hok. discriminate Hok.
  - exact Hf.
Defined.

(** ** Inline mode with one b *)
Lemma find_loop_found n smax form scramble fuel s f : find_loop n smax form scramble fuel s = Ok f -> exists s', find_step n smax form scramble s' = Ok (inr f).
Proof.
  revert s. induction fuel as [|fuel IH]; intros s Hf; [discriminate Hf|]. cbn [find_loop] in Hf. destruct (find_step n smax form scramble s) as [[s'|f']|] eqn:Hs; [by apply (IH s')| |discriminate Hf].
  injection Hf as <-. by exists s.
Qed.

Lemma inline_one_code keys alen smax salt g ks g' : 1 < smax -> initinl keys alen 1 smax salt g = Ok (ks, g') ->
  code g' = [Set_ Vrsl ((Var Vval band Num (u32 (alen - 1))) ^ Tab (Var Vval shr Num UB4BITS))%code].
Proof.
  intros Hs Hi. unfold initinl in Hi. change (mylog2 1) with (Ok 0) in Hi. rewrite bind_Ok in Hi. destruct (mapM _ keys) as [ks'|]; [|discriminate Hi]. rewrite bind_Ok in Hi.
  rewrite (decide_False (P := smax <= 1)) in Hi by lia. rewrite (decide_True (P := 1 < USE_SCRAMBLE)) in Hi by done. injection Hi as _ <-. apply (code_set_lines [_]).
Qed.

Lemma found_one_code n smax form scramble s f : f_mode form = INLINE_HM -> 1 < smax -> find_step n smax form scramble s = Ok (inr f) -> fd_blen f = 1 ->
  exists m, code (fd_gen f) = [Set_ Vrsl ((Var Vval band Num m) ^ Tab (Var Vval shr Num UB4BITS))%code].
Proof.
  intros Hm Hsm Hf Hb. unfold find_step in Hf. destruct (initkey _ _ _ _ _ _ _ _) as [[[rsl keys] g]|] eqn:Hi; [|discriminate Hf]. rewrite bind_Ok in Hf.
  destruct rsl as [|t|]; [by destruct (retry_initkey _ _ _ _ _)| |injection Hf as <-; discriminate Hb].
  destruct (perfect _ _ _ _ _ _ _) as [[r p]|]; [|discriminate Hf]. rewrite bind_Ok in Hf. destruct r; cbn [fst snd] in Hf; [|by destruct (retry_perfect _ _ _ _ _ _)]. injection Hf as <-. cbn [fd_blen fd_gen] in *.
  exists (u32 (s_alen s - 1)). unfold initkey in Hi. rewrite Hm, Hb in Hi. destruct (initinl _ _ _ _ _ _) as [[ks g']|] eqn:Hinl; [|discriminate Hi]. rewrite !bind_Ok in Hi. cbn [fst snd] in Hi.
  destruct (decide (n <= 1)); [discriminate Hi|]. destruct (inittab _ _ _ _) as [[r t']|]; [|discriminate Hi]. rewrite bind_Ok in Hi. injection Hi as _ _ <-. by eapply inline_one_code.
Qed.

(** In inline mode, when the search ends with a table of one b, the function written has no
    value for any key: it shifts the 32-bit value by 32. *)
Theorem inline_one_b blen0 keys form f c : string_mode form -> f_mode form = INLINE_HM -> 1 < Z.of_nat (length keys) <= 2 ^ 30 ->
  findhash blen0 keys (Z.of_nat (length keys)) form = Ok f -> fd_blen f = 1 -> make_c f = Ok c -> forall y, valid_key y -> phash form c y = Fault Undefined.
Proof.
  intros [Hst _] Hm Hn Hf Hb Hc y Hy. unfold findhash in Hf. rewrite decide_False in Hf by (by rewrite Hst). unfold findhash_search in Hf. set (n := Z.of_nat (length keys)) in *.
  destruct (mylog2_ok n) as (k0 & Hl & Hk0 & Hle & Hlow); [lia|]. rewrite Hl, bind_Ok in Hf.
  assert (Hk : 0 < k0 < 31).
  { destruct (decide (k0 = 0)) as [->|]; [cbn in Hle; lia|]. destruct Hlow as [->|Hlow]; [done|]. split; [lia|]. destruct (decide (k0 = 31)) as [->|]; [|lia]. cbn in Hlow. lia. }
  unfold lsh in Hf. rewrite (decide_True (P := 0 <= k0 < 32)) in Hf by lia. rewrite bind_Ok in Hf. unfold shl32 in Hf. rewrite Z.shiftl_1_l, u32_pow2 in Hf by lia.
  destruct (initalen_string blen0 k0 n form Hst Hk) as (x & y0 & k & Hi & [_ _ Hkr _ _ _] & _). rewrite Hi, bind_Ok in Hf. destruct (scrambleinit _) as [scr|]; [|discriminate Hf]. rewrite bind_Ok in Hf.
  apply find_loop_found in Hf as [s Hs]. assert (2 ^ 0 < 2 ^ k) by (rewrite pow2_lt; lia). destruct (found_one_code _ _ _ _ _ _ Hm H Hs Hb) as [m Hcode].
  assert (Hpc : pc_code c = code (fd_gen f) /\ pc_salt c = initlev_of (fd_salt f)).
  { unfold make_c in Hc. destruct (make_c_tab f); [|discriminate Hc]. rewrite bind_Ok in Hc. destruct (make_c_scramble f); [|discriminate Hc]. rewrite bind_Ok in Hc. by injection Hc as <-. }
  destruct Hpc as [Hpc Hsalt]. unfold phash. rewrite Hm, Hpc, Hsalt, Hcode. destruct (inline_word (fd_salt f) y Hy) as (h & -> & _). done.
Qed.

(** [perfect -ip] on five words ends so. *)
Definition triples : list key := (fun c => Key [c; c; c] 3 0 0 0) <$> [97; 98; 99; 100; 101].
Definition inline_form : hashform := Form INLINE_HM STRING_HT NORMAL_HP SLOW_HS.

Definition one_b (r : result found) : bool := match r with Ok f => bool_decide (fd_blen f = 1) && is_Ok (make_c f) | Fault _ => false end.
Lemma one_b_true r : one_b r = true -> exists f c, r = Ok f /\ fd_blen f = 1 /\ make_c f = Ok c.
Proof.
  destruct r as [f|]; [|discriminate 1]. cbn. intros [Hb%bool_decide_eq_true_1 Hc]%andb_true_iff. destruct (make_c f) as [c|] eqn:Hm; [|discriminate Hc]. by exists f, c.
Qed.

Theorem inline_one_b_witness : exists f c, findhash 0 triples (Z.of_nat (length triples)) inline_form = Ok f /\ fd_blen f = 1 /\ phash inline_form c (Key [97] 1 0 0 0) = Fault Undefined.
Proof.
  assert (Hm : string_mode inline_form) by (split; [reflexivity|right; reflexivity]).
  assert (Hn : 1 < Z.of_nat (length triples) <= 2 ^ 30) by (cbn; lia). assert (Hk : valid_key (Key [97] 1 0 0 0)) by (split; cbn; lia).
  assert (Hok : one_b (findhash 0 triples (Z.of_nat (length triples)) inline_form) = true) by (lazy; reflexivity).
  destruct (one_b_true _ Hok) as (f & c & Hf & Hb & Hc). exists f, c.
  exact (conj Hf (conj Hb (inline_one_b 0 triples inline_form f c Hm eq_refl Hn Hf Hb Hc _ Hk))).
Defined.
