(* ===== verification/PerfHexSpec.v ===== *)
(** * The perfect hash of integer keys: what is written

    Two, three and four integer keys take a single run of [initkey]: no table is built, and the hash is
    one expression or a few.  For three keys it is always a perfect hash; for two it is one only when the
    keys differ in their lowest bit. *)
From S2P Require Import Prelude CLib Word Bytes Lookupa Perfect PerfectOk PerfectSpec Gencode PerfHex PerfHexOk PerfHexFour Findhash FindhashOk FindhashSpec.

#[local] Open Scope Z_scope.

(** ** Keys that need no table *)
Definition hex_mode (form : hashform) : Prop := f_hashtype form = INT_HT /\ (f_mode form = HEX_HM \/ f_mode form = DECIMAL_HM).

(** The first power of two that is at least the number of keys. *)
Definition few_log (n : Z) : Z := if decide (n = 2) then 1 else 2.

Lemma initalen_few blen0 n form : f_hashtype form = INT_HT -> n = 2 \/ n = 3 \/ n = 4 ->
  exists alen blen k, initalen blen0 (2 ^ few_log n) n form = Ok (alen, blen, 2 ^ k) /\ 1 <= k <= 3.
Proof.
  destruct form as [mode ht perf speed]. cbn [f_hashtype]. intros ->.
  assert (Hone : forall alen blen k, initalen blen0 (2 ^ few_log n) n (Form mode INT_HT perf speed) = Ok (alen, blen, 2 ^ k) -> 1 <= k <= 3 ->
    exists alen blen k, initalen blen0 (2 ^ few_log n) n (Form mode INT_HT perf speed) = Ok (alen, blen, 2 ^ k) /\ 1 <= k <= 3) by (intros alen blen k; by exists alen, blen, k).
  intros [-> | [-> | ->]]; destruct perf, speed.
  - apply (Hone 4 4 2); [vm_compute; reflexivity|lia].
  - apply (Hone 2 2 1); [vm_compute; reflexivity|lia].
  - apply (Hone 1 1 1); [vm_compute; reflexivity|lia].
  - apply (Hone 1 1 1); [vm_compute; reflexivity|lia].
  - apply (Hone 4 4 2); [vm_compute; reflexivity|lia].
  - apply (Hone 4 4 2); [vm_compute; reflexivity|lia].
  - apply (Hone 2 2 2); [vm_compute; reflexivity|lia].
  - apply (Hone 2 2 2); [vm_compute; reflexivity|lia].
  - apply (Hone 8 8 3); [vm_compute; reflexivity|lia].
  - apply (Hone 4 4 2); [vm_compute; reflexivity|lia].
  - apply (Hone 2 2 2); [vm_compute; reflexivity|lia].
  - apply (Hone 2 2 2); [vm_compute; reflexivity|lia].
Qed.

(** The code of [inithex] is what is written, without tables. *)
Lemma findhash_few blen0 keys form ks g n : hex_mode form -> Z.of_nat (length keys) = n -> n = 2 \/ n = 3 \/ n = 4 ->
  (forall alen blen smax, inithex keys n alen blen smax 1 form no_code = Ok (true, ks, g)) ->
  exists f c, findhash blen0 keys n form = Ok f /\ make_c f = Ok c /\ pc_tab c = [] /\ pc_scramble c = [] /\ pc_code c = code g.
Proof.
  intros [Hint Hmode] <- Hn Hhex. unfold findhash. rewrite decide_False by (by rewrite Hint). unfold findhash_search. set (n := Z.of_nat (length keys)) in *.
  assert (Hl : mylog2 n = Ok (few_log n) /\ 0 <= few_log n < 32) by (destruct Hn as [-> | [-> | ->]]; done). destruct Hl as [Hl Hl']. rewrite Hl, bind_Ok.
  unfold lsh. rewrite decide_True by done. rewrite bind_Ok. unfold shl32. rewrite Z.shiftl_1_l, u32_pow2 by done.
  destruct (initalen_few blen0 n form Hint Hn) as (alen & blen & k & -> & Hk). rewrite bind_Ok. destruct (scrambleinit_ok k) as (scr & -> & _); [lia|]. rewrite bind_Ok.
  destruct find_fuel_S as [fuel ->]. cbn [find_loop]. unfold find_step. cbn [s_keys s_alen s_blen s_salt s_gen].
  assert (Hi : initkey keys n alen blen (2 ^ k) 1 form no_code = Ok (Finished, ks, g)) by (unfold initkey; destruct Hmode as [-> | ->]; by rewrite Hhex, bind_Ok).
  rewrite Hi, !bind_Ok. eexists _, _. split; [reflexivity|]. by split.
Qed.

(** The function written runs the one expression on the value of the key. *)
Lemma phash_one form c y e : hex_mode form -> pc_tab c = [] -> pc_scramble c = [] -> pc_code c = [Set_ Vrsl e] -> phash form c y = run_val (pc_code c) (hash_k y).
Proof.
  intros [_ Hm] Ht Hs Hc. assert (Hr : forall sk sl, run_lines [] [] sk sl (Env [(Vval, hash_k y)] None) [Set_ Vrsl e] = exp_val e (hash_k y)).
  { intros sk sl. unfold run_lines. by rewrite run_last. }
  rewrite Hc, run_val_set. unfold phash. rewrite Ht, Hs, Hc. destruct Hm as [-> | ->]; apply Hr.
Qed.

(** ** Three keys *)
Lemma setlow_bits keys g y z p : y ∈ keys -> z ∈ keys -> 0 <= p < 32 -> Z.testbit (hash_k y) p <> Z.testbit (hash_k z) p -> g_lowbit (setlow keys g) <= p <= g_highbit (setlow keys g).
Proof.
  intros Hy Hz Hp Hd. pose proof (diffbits_bit keys y z p Hy Hz (proj1 Hp) Hd) as Hb. cbn. pose proof (lowest_le _ _ Hp Hb). pose proof (highest_ge _ _ Hp Hb). lia.
Qed.

Lemma setlow_range keys g : 0 <= g_lowbit (setlow keys g) /\ g_highbit (setlow keys g) < 32.
Proof.
  cbn. unfold lowest, highest. split.
  - destruct (list_find _ (seqZ 0 UB4BITS)) as [[i q]|] eqn:Hf; [|done]. apply list_find_Some in Hf as (Hq & _). apply lookup_seqZ in Hq as [-> _]. cbn. lia.
  - destruct (list_find _ (reverse _)) as [[i q]|] eqn:Hf; [|done]. apply list_find_Some in Hf as (Hq & _). apply list_elem_of_lookup_2, elem_of_reverse, elem_of_seqZ in Hq. unfold UB4BITS in Hq. cbn. lia.
Qed.

Lemma perfect_three a b c n h x y z : h a = Ok x -> h b = Ok y -> h c = Ok z -> distinct3 x y z -> 0 <= x < n -> 0 <= y < n -> 0 <= z < n -> perfect_for [a; b; c] n h.
Proof.
  intros Hx Hy Hz (Hxy & Hxz & Hyz) Hxn Hyn Hzn. split.
  - intros w Hw. rewrite !elem_of_cons, elem_of_nil in Hw. destruct Hw as [-> | [-> | [-> | []]]]; [by exists x|by exists y|by exists z].
  - assert (Hat : forall i w, [a; b; c] !! i = Some w -> (i = 0%nat /\ h w = Ok x) \/ (i = 1%nat /\ h w = Ok y) \/ (i = 2%nat /\ h w = Ok z)).
    { intros i w Hi. destruct i as [|[|[|i]]]; cbn in Hi; [injection Hi as <-; auto..|done]. }
    intros i j v w Hv%Hat Hw%Hat Heq. destruct Hv as [[-> Hv]|[[-> Hv]|[-> Hv]]], Hw as [[-> Hw]|[[-> Hw]|[-> Hw]]]; try done; rewrite Hv, Hw in Heq; congruence.
Qed.

(** C22: Three different integers always get a perfect hash: a single expression whose values are
    different and below 4, or below 3 when the hash is to be minimal.  This is what the comment
    of [hexthree] says can be proved: one of the forms it tries works for any three words. *)
Theorem hexthree_perfect blen0 a b c form : hex_mode form -> Forall (fun y => word32 (hash_k y)) [a; b; c] -> NoDup (hash_k <$> [a; b; c]) ->
  exists f p, findhash blen0 [a; b; c] 3 form = Ok f /\ make_c f = Ok p /\ perfect_for [a; b; c] (if decide (f_perfect form = MINIMAL_HP) then 3 else 4) (phash form p).
Proof.
  intros Hm Hw Hnd. apply Forall_cons in Hw as [Ha Hw]. apply Forall_cons in Hw as [Hb Hw]. apply Forall_cons in Hw as [Hc _].
  cbn in Hnd. apply NoDup_cons in Hnd as [Hna Hnd]. apply NoDup_cons in Hnd as [Hnb _].
  assert (Hab : hash_k a <> hash_k b) by (intros He; apply Hna; rewrite He; by left). assert (Hac : hash_k a <> hash_k c) by (intros He; apply Hna; rewrite He; by right; left).
  assert (Hbc : hash_k b <> hash_k c) by (intros He; apply Hnb; rewrite He; by left).
  set (g0 := setlow [a; b; c] no_code). destruct (setlow_range [a; b; c] no_code) as [Hlo Hhi]. fold g0 in Hlo, Hhi.
  destruct (hexthree_finds form _ _ _ Ha Hb Hc g0 Hab Hac Hbc Hlo Hhi) as (g & Hg & [e He] & x & y & z & Hx & Hy & Hz & Hd & Hr).
  { intros p Hp [Hpd|Hpd]; [apply (setlow_bits [a; b; c] no_code a b)|apply (setlow_bits [a; b; c] no_code a c)]; try done; rewrite !elem_of_cons; auto. }
  destruct (findhash_few blen0 [a; b; c] form [a; b; c] g 3 Hm) as (f & p & Hf & Hp & Ht & Hs & Hcode); [done|auto|intros ???; unfold inithex; fold g0; by rewrite Hg|].
  exists f, p. split; [exact Hf|]. split; [done|]. rewrite He in Hcode.
  destruct Hr as (Hxr & Hyr & Hzr). apply (perfect_three a b c _ _ x y z); try done; rewrite (phash_one form p _ e) by done; by rewrite Hcode, <- He.
Qed.

Definition hex_key (h : Z) : key := Key [] 0 h 0 0.
Definition hex_form (perf : hperfect) : hashform := Form HEX_HM INT_HT perf SLOW_HS.

Theorem hexthree_perfect_witness : exists f p, findhash 0 [hex_key 8; hex_key 24; hex_key 1032] 3 (hex_form MINIMAL_HP) = Ok f /\ make_c f = Ok p /\
  perfect_for [hex_key 8; hex_key 24; hex_key 1032] 3 (phash (hex_form MINIMAL_HP) p).
Proof.
  apply (hexthree_perfect 0 (hex_key 8) (hex_key 24) (hex_key 1032) (hex_form MINIMAL_HP)).
  - split; [done|by left].
  - repeat apply Forall_cons_2; [split; cbn; lia..|apply Forall_nil_2].
  - apply (bool_decide_unpack _). vm_compute. exact I.
Defined.

(** ** Two keys *)
Lemma land_pow2_bit v w i : 0 <= i < 32 -> Z.land v (shl32 1 i) <> Z.land w (shl32 1 i) -> Z.testbit v i <> Z.testbit w i.
Proof.
  intros Hi Hne Heq. apply Hne. unfold shl32. rewrite Z.shiftl_1_l, u32_pow2 by done. apply Z.bits_inj'. intros p Hp. rewrite !Z.land_spec, Z.pow2_bits_eqb by lia.
  destruct (Z.eqb_spec i p) as [<-|]; [by rewrite Heq|by rewrite !andb_false_r].
Qed.

Lemma bit_land_pow2 v w i : 0 <= i < 32 -> Z.testbit v i <> Z.testbit w i -> Z.land v (shl32 1 i) <> Z.land w (shl32 1 i).
Proof.
  intros Hi Hne Heq. apply Hne. apply (f_equal (fun u => Z.testbit u i)) in Heq. unfold shl32 in Heq. rewrite Z.shiftl_1_l, u32_pow2 in Heq by done.
  rewrite !Z.land_spec, Z.pow2_bits_true, !andb_true_r in Heq by lia. done.
Qed.

(** The code of [hextwo]: bit 0, or the value shifted left. *)
Lemma hextwo_code a b g : word32 a -> word32 b -> a <> b -> exists e g', hextwo a b g = Ok g' /\ code g' = [Set_ Vrsl e] /\
  if decide (Z.land a 1 = Z.land b 1) then exists i, 0 < i < 32 /\ e = ((Var Vval shl Num i) band Num 1)%code else e = (Var Vval band Num 1)%code.
Proof.
  intros Ha Hb Hab. unfold hextwo. rewrite decide_False by done. destruct (decide (Z.land a 1 = Z.land b 1)) as [Heq|Hne].
  - rewrite (decide_False (P := Z.land a 1 <> Z.land b 1)) by (intros H; by apply H).
    destruct (for_below_finds 0 UB4BITS (fun i => bi ← lsh 1 i; if decide (Z.land a bi <> Z.land b bi) then Ok (Some i) else Ok None) (fun i => 0 < i < 32)) as [(o & Ho & Hi) Hn]; [done|done| |].
    { unfold UB4BITS. intros i Hi. unfold lsh. rewrite decide_True by lia. rewrite bind_Ok. destruct (decide (Z.land a _ <> _)) as [Hd|]; [|apply finds_none]. apply finds_some.
      apply land_pow2_bit in Hd; [|lia]. destruct (decide (i = 0)) as [->|]; [|lia]. exfalso. apply Hd. rewrite !land_1_bit in Heq. by destruct (Z.testbit a 0), (Z.testbit b 0). }
    rewrite Ho, bind_Ok. destruct o as [i|].
    + eexists _, _. split; [reflexivity|]. split; [apply (code_set_lines [_])|]. exists i. split; [by apply Hi|done].
    + exfalso. destruct (word_diff a b Ha Hb Hab) as (p & Hp & Hd). specialize (Hn Ho p Hp). cbv beta in Hn. unfold lsh in Hn. rewrite decide_True, bind_Ok in Hn by lia.
      rewrite decide_True in Hn by (by apply bit_land_pow2). discriminate Hn.
  - rewrite (decide_True (P := Z.land a 1 <> Z.land b 1)) by done. eexists _, _. split; [reflexivity|]. split; [apply (code_set_lines [_])|done].
Qed.

Lemma shl_even v i : 0 < i < 32 -> Z.land (shl32 v i) 1 = 0.
Proof. intros Hi. rewrite land_1_bit. unfold shl32, u32. rewrite Z.mod_pow2_bits_low, Z.shiftl_spec_low by lia. done. Qed.

(** C34: The hash written for two different integers is a perfect one when their lowest bits differ.
    When they do not, it is 0 for every value: the code shifts the value left by the number of
    the bit in which the keys differ, where it means to shift it right. *)
Theorem hextwo_low_bit blen0 a b form : hex_mode form -> word32 (hash_k a) -> word32 (hash_k b) -> hash_k a <> hash_k b ->
  exists f p, findhash blen0 [a; b] 2 form = Ok f /\ make_c f = Ok p /\
    (Z.land (hash_k a) 1 <> Z.land (hash_k b) 1 -> perfect_for [a; b] 2 (phash form p)) /\
    (Z.land (hash_k a) 1 = Z.land (hash_k b) 1 -> forall y, phash form p y = Ok 0).
Proof.
  intros Hm Ha Hb Hab. destruct (hextwo_code (hash_k a) (hash_k b) (setlow [a; b] no_code) Ha Hb Hab) as (e & g & Hg & Hcode & He).
  destruct (findhash_few blen0 [a; b] form [a; b] g 2 Hm) as (f & p & Hf & Hp & Ht & Hs & Hpc); [done|auto|intros ???; unfold inithex; by rewrite Hg|].
  exists f, p. split; [exact Hf|]. split; [done|]. rewrite Hcode in Hpc. assert (Hph : forall y, phash form p y = exp_val e (hash_k y)) by (intros y; by rewrite (phash_one form p y e), Hpc, run_val_set).
  destruct (decide (Z.land (hash_k a) 1 = Z.land (hash_k b) 1)) as [Heq|Hne].
  - split; [done|]. intros _ y. destruct He as (i & Hi & ->). rewrite Hph. unfold exp_val. cbn [run_exp e_vars var_get]. rewrite (decide_True (P := Vval = Vval)) by done. rewrite bind_Ok. cbn [mbind result_bind bin]. unfold lsh. rewrite (decide_True (P := 0 <= i < 32)) by lia. rewrite !bind_Ok. f_equal. by apply shl_even.
  - split; [|done]. intros _. subst e. assert (Hv : forall y, phash form p y = Ok (Z.land (hash_k y) 1)) by (intros y; by rewrite Hph).
    assert (Hbit : forall v, 0 <= Z.land v 1 < 2) by (intros v; rewrite land_1_bit; destruct (Z.testbit v 0); cbn; lia). split.
    + intros y _. exists (Z.land (hash_k y) 1). by split.
    + intros i j y z Hi Hj. rewrite !Hv. intros [= Heq]. destruct i as [|[|i]], j as [|[|j]]; cbn in Hi, Hj; try done; injection Hi as <-; injection Hj as <-; congruence.
Qed.

(** The keys 4 and 8 collide. *)
Theorem hextwo_low_bit_witness : (exists f p, findhash 0 [hex_key 4; hex_key 8] 2 (hex_form NORMAL_HP) = Ok f /\ make_c f = Ok p /\
    (Z.land 4 1 <> Z.land 8 1 -> perfect_for [hex_key 4; hex_key 8] 2 (phash (hex_form NORMAL_HP) p)) /\
    (Z.land 4 1 = Z.land 8 1 -> forall y, phash (hex_form NORMAL_HP) p y = Ok 0)) /\ Z.land 4 1 = Z.land 8 1.
Proof.
  split; [|done]. apply (hextwo_low_bit 0 (hex_key 4) (hex_key 8) (hex_form NORMAL_HP)).
  - split; [done|by left].
  - split; cbn; lia.
  - split; cbn; lia.
  - done.
Defined.

(** ** Four keys *)
Lemma run_code_sets tab scr k k' n n' s ls : forallb is_set ls = true -> run_code tab scr k n s ls = run_code tab scr k' n' s ls.
Proof.
  revert s. induction ls as [|l ls IH]; intros s; [done|]. cbn [forallb]. intros [Hl Hls]%andb_true_iff. cbn [run_code]. destruct l; try discriminate Hl. cbn [run_line].
  destruct (run_exp tab scr s e); [|done]. rewrite !bind_Ok. by apply IH.
Qed.

Lemma phash_sets form c y : hex_mode form -> pc_tab c = [] -> pc_scramble c = [] -> forallb is_set (pc_code c) = true -> phash form c y = run_val (pc_code c) (hash_k y).
Proof.
  intros [_ Hm] Ht Hs Hc. unfold phash, run_val, run_lines. rewrite Ht, Hs. destruct Hm as [-> | ->]; by rewrite (run_code_sets [] [] (name_k y) [] (len_k y) 0).
Qed.

Lemma small4_all w : 0 <= w < 4 -> In w [0; 1; 2; 3].
Proof. intros [-> | [-> | [-> | ->]]]%small4; cbn; auto. Qed.

Lemma testfour_distinct w x y z : 0 <= w < 4 -> 0 <= x < 4 -> 0 <= y < 4 -> 0 <= z < 4 -> testfour w x y z = true -> NoDup [w; x; y; z].
Proof.
  intros Hw Hx Hy Hz Ht. set (l := [0; 1; 2; 3]).
  assert (Hall : forallb (fun w => forallb (fun x => forallb (fun y => forallb (fun z => implb (testfour w x y z) (bool_decide (NoDup [w; x; y; z]))) l) l) l) l = true) by (vm_compute; reflexivity).
  rewrite forallb_forall in Hall. specialize (Hall w (small4_all w Hw)). cbv beta in Hall. rewrite forallb_forall in Hall. specialize (Hall x (small4_all x Hx)). cbv beta in Hall.
  rewrite forallb_forall in Hall. specialize (Hall y (small4_all y Hy)). cbv beta in Hall. rewrite forallb_forall in Hall. specialize (Hall z (small4_all z Hz)). cbv beta in Hall.
  rewrite Ht in Hall. by apply bool_decide_eq_true_1 in Hall.
Qed.

(** A hash whose values on the keys are [vs]. *)
Lemma perfect_values ks n h vs : Forall2 (fun y v => h y = Ok v) ks vs -> Forall (fun v => 0 <= v < n) vs -> NoDup vs -> perfect_for ks n h.
Proof.
  intros HF Hr Hnd. split.
  - intros y [i Hi]%list_elem_of_lookup. destruct (Forall2_lookup_l _ _ _ _ _ HF Hi) as (v & Hv & Hh). exists v. split; [done|]. by apply (proj1 (Forall_lookup _ _) Hr i).
  - intros i j y z Hi Hj Heq. destruct (Forall2_lookup_l _ _ _ _ _ HF Hi) as (v & Hv & Hh), (Forall2_lookup_l _ _ _ _ _ HF Hj) as (w & Hw & Hh'). rewrite Hh, Hh' in Heq. injection Heq as ->. by eapply NoDup_lookup.
Qed.

(** C21: Four different integers always get a minimal perfect hash without a table: some expression
    works, at the latest one of the four ways to combine three bits that tell the keys apart
    ("guaranteed to work", says the comment, "proven by exhaustive search"), and the code written
    for it computes what was tested. *)
Theorem hexfour_perfect blen0 a b c d form : hex_mode form -> Forall (fun y => word32 (hash_k y)) [a; b; c; d] -> NoDup (hash_k <$> [a; b; c; d]) ->
  exists f p, findhash blen0 [a; b; c; d] 4 form = Ok f /\ make_c f = Ok p /\ perfect_for [a; b; c; d] 4 (phash form p).
Proof.
  intros Hm Hw Hnd. apply Forall_cons in Hw as [Ha Hw]. apply Forall_cons in Hw as [Hb Hw]. apply Forall_cons in Hw as [Hc Hw]. apply Forall_cons in Hw as [Hd _].
  set (ks := [a; b; c; d]) in *. set (g0 := setlow ks no_code). destruct (setlow_range ks no_code) as [Hlo Hhi]. fold g0 in Hlo, Hhi.
  destruct (hexfour_finds _ _ _ _ Ha Hb Hc Hd g0 Hlo Hhi) as (g & Hg & Hset & w & x & y & z & Hw & Hx & Hy & Hz & Hwr & Hxr & Hyr & Hzr & Ht); [|done|].
  { assert (Hin : forall y, y ∈ ks -> forall p, 0 <= p < 32 -> Z.testbit (hash_k a) p <> Z.testbit (hash_k y) p -> marked g0 p).
    { intros y Hy p Hp Hne. split; [apply (diffbits_bit ks a y); [by left|done|lia|done]|]. apply (setlow_bits ks no_code a y); [by left|done..]. }
    intros p Hp [Hne|[Hne|Hne]]; [apply (Hin b)|apply (Hin c)|apply (Hin d)]; try done; unfold ks; rewrite !elem_of_cons; auto. }
  destruct (findhash_few blen0 ks form ks g 4 Hm) as (f & p & Hf & Hp & Htab & Hscr & Hcode); [done|auto|intros ???; unfold inithex, ks; fold ks; fold g0; by rewrite Hg|].
  exists f, p. split; [exact Hf|]. split; [done|]. assert (Hph : forall y, phash form p y = run_val (code g) (hash_k y)) by (intros y'; by rewrite phash_sets, Hcode by (done || by rewrite Hcode)).
  apply (perfect_values _ _ _ [w; x; y; z]); [unfold ks; repeat (apply Forall2_cons_2; [by rewrite Hph|]); apply Forall2_nil_2|repeat apply Forall_cons_2; done || apply Forall_nil_2|by apply testfour_distinct].
Qed.

Theorem hexfour_perfect_witness : exists f p, findhash 0 (hex_key <$> [4; 8; 16; 20]) 4 (hex_form MINIMAL_HP) = Ok f /\ make_c f = Ok p /\
  perfect_for (hex_key <$> [4; 8; 16; 20]) 4 (phash (hex_form MINIMAL_HP) p).
Proof.
  apply (hexfour_perfect 0 (hex_key 4) (hex_key 8) (hex_key 16) (hex_key 20) (hex_form MINIMAL_HP)).
  - split; [done|by left].
  - repeat apply Forall_cons_2; [split; cbn; lia..|apply Forall_nil_2].
  - apply (bool_decide_unpack _). vm_compute. exact I.
Defined.
