(* ===== verification/PerfMainSpec.v ===== *)
(** * The perfect hash: the program on a text of words

    The keys the program takes from its input are the words without their last character, so that
    words that differ in that character only are duplicates to it; for all other words of up to 28
    characters what it writes is a perfect hash of these keys. *)
From S2P Require Import Prelude CLib Word Bytes Lookupa Perfect PerfectOk PerfectSpec Gencode PerfHex Findhash FindhashOk FindhashSpec PerfMain.

#[local] Open Scope Z_scope.

(** ** Reading words *)
(** A line without its newline that fits the buffer. *)
Definition word (w : bytes) : Prop := (1 <= length w <= 28)%nat /\ Forall (fun c => c <> 0 /\ c <> 10) w.
Definition text_of (words : list bytes) : bytes := concat ((fun w => w ++ [10]) <$> words).
(** The key made from a word. *)
Definition word_key (junk : key) (w : bytes) : key := Key (w ++ [0]) (Z.of_nat (length w) - 1) (hash_k junk) (a_k junk) (b_k junk).

Lemma fgets_word n w s : Forall (fun c => c <> 0 /\ c <> 10) w -> (length w < n)%nat -> fgets n (w ++ 10 :: s) = (w ++ [10], s).
Proof.
  revert n. induction w as [|c w IH]; intros n Hw Hn; destruct n as [|n]; cbn in Hn; try lia; [done|]. apply Forall_cons in Hw as [[_ Hc] Hw]. cbn [fgets app].
  rewrite (decide_False (P := c = 10)) by done. rewrite (IH n) by (done || lia). done.
Qed.

Lemma c_string_word w : Forall (fun c => c <> 0 /\ c <> 10) w -> c_string (w ++ [10]) = w ++ [10].
Proof. induction w as [|c w IH]; intros Hw; [done|]. apply Forall_cons in Hw as [[Hc _] Hw]. cbn [c_string app]. rewrite (decide_False (P := c = 0)) by done. by rewrite IH. Qed.

Lemma trim_word w : trim_newline (w ++ [10]) = Ok w.
Proof. unfold trim_newline. rewrite last_snoc. rewrite (decide_True (P := 10 = 10)) by done. rewrite length_app. cbn [length]. replace (length w + 1 - 1)%nat with (length w) by lia. by rewrite take_app_length. Qed.

Lemma new_key_word junk form w : string_mode form -> word w -> new_key junk form w = word_key junk w.
Proof. intros [_ Hm] [Hw _]. unfold new_key, word_key. destruct Hm as [-> | ->]; rewrite u32_small by lia; done. Qed.

Lemma text_of_cons w ws : text_of (w :: ws) = w ++ 10 :: text_of ws.
Proof. unfold text_of. cbn. by rewrite <- app_assoc. Qed.

Lemma getkeys_loop_words junk form words keys fuel : string_mode form -> Forall word words -> (length (text_of words) < fuel)%nat ->
  getkeys_loop fuel junk form (text_of words) keys = Ok (reverse (word_key junk <$> words) ++ keys).
Proof.
  intros Hm. revert keys fuel. induction words as [|w words IH]; intros keys fuel Hw Hf; (destruct fuel as [|fuel]; [lia|]); [done|].
  apply Forall_cons in Hw as [[Hlen Hc] Hw]. rewrite text_of_cons in *. cbn [getkeys_loop]. change (Z.to_nat (MAXKEYLEN - 1)) with 29%nat. rewrite fgets_word by (done || lia).
  rewrite decide_False by (by destruct w). rewrite c_string_word by done. rewrite trim_word, bind_Ok. rewrite new_key_word by done. rewrite length_app in Hf. cbn [length] in Hf.
  rewrite IH by (done || lia). rewrite fmap_cons, reverse_cons, <- app_assoc. done.
Qed.

Lemma getkeys_words junk form words : string_mode form -> Forall word words -> getkeys junk form (text_of words) = Ok (reverse (word_key junk <$> words)).
Proof. intros Hm Hw. unfold getkeys. rewrite getkeys_loop_words by (done || lia). by rewrite app_nil_r. Qed.

(** The last word read is the first key. *)
Definition word_keys (junk : key) (words : list bytes) : list key := reverse (word_key junk <$> words).

Lemma word_keys_valid junk words : Forall word words -> Forall valid_key (word_keys junk words).
Proof.
  intros Hw. unfold word_keys. apply Forall_reverse, Forall_fmap. eapply Forall_impl; [exact Hw|]. intros w [Hlen _]. unfold valid_key. cbn. rewrite length_app. cbn [length]. lia.
Qed.

Lemma word_keys_length junk words : length (word_keys junk words) = length words.
Proof. unfold word_keys. by rewrite length_reverse, length_fmap. Qed.

(** ** phash.h and phash.c *)
(** The arrays of phash.c that phash.h declares have the types with which they are defined. *)
Lemma make_h_tab blen smax n salt : 0 < blen -> ph_tab (make_h blen smax n salt) = Some (tab_bits smax blen) /\ ph_scramble (make_h blen smax n salt) = None.
Proof.
  intros Hb. unfold make_h, tab_bits. rewrite (decide_True (P := 0 < blen)) by done. destruct (decide (smax <= UB1MAXVAL + 1 \/ USE_SCRAMBLE <= blen)) as [Hs|Hs].
  - by rewrite bool_decide_eq_true_2.
  - rewrite bool_decide_eq_false_2 by done. rewrite (decide_False (P := USE_SCRAMBLE <= blen)) by tauto. done.
Qed.

(** ** Keys of which the program sees the same bytes *)
Definition agree (k k' : bytes) (n : Z) : Prop := forall i, Z.of_nat i < n -> nth i k 0 = nth i k' 0.

Lemma agree_drop m k k' n : agree k k' n -> agree (drop m k) (drop m k') (n - Z.of_nat m).
Proof. intros Ha i Hi. rewrite !nth_lookup, !lookup_drop, <- !nth_lookup. apply Ha. lia. Qed.

Lemma agree_kb k k' n i s : agree k k' n -> Z.of_nat i < n -> kb k i s = kb k' i s.
Proof. intros Ha Hi. unfold kb. by rewrite Ha. Qed.

Lemma agree_kword k k' n i : agree k k' n -> Z.of_nat i + 3 < n -> kword k i = kword k' i.
Proof. intros Ha Hi. unfold kword. by rewrite !(agree_kb k k' n) by (done || lia). Qed.

Lemma agree_kpart k k' n i sh : agree k k' n -> kpart k n i sh = kpart k' n i sh.
Proof.
  intros Ha. unfold kpart. do 2 f_equal. apply imap_ext. intros j s _. destruct (decide (Z.of_nat (i + j) < n)); [by eapply agree_kb|done].
Qed.

Lemma lookup_loop_agree fuel k k' n s : agree k k' n ->
  match lookup_loop fuel k n s, lookup_loop fuel k' n s with
  | Ok (k1, n1, s1), Ok (k2, n2, s2) => n1 = n2 /\ s1 = s2 /\ agree k1 k2 n1
  | Fault e, Fault e' => e = e'
  | _, _ => False
  end.
Proof.
  revert k k' n s. induction fuel as [|fuel IH]; intros k k' n s Ha; [done|]. cbn [lookup_loop]. destruct (decide (12 <= n)) as [Hn|]; [|done]. destruct s as [[a b] c].
  rewrite !(agree_kword k k' n) by (done || lia). apply IH. by apply (agree_drop 12 k k').
Qed.

Lemma lookup_agree k k' n lv : agree k k' n -> length k = length k' -> lookup k n lv = lookup k' n lv.
Proof.
  intros Ha Hl. unfold lookup. rewrite Hl. destruct (decide (Z.of_nat (length k') < n)); [done|]. pose proof (lookup_loop_agree (S (length k')) k k' n (GOLDEN, GOLDEN, lv) Ha) as Hloop.
  destruct (lookup_loop _ k n _) as [[[k1 n1] [[a b] c]]|], (lookup_loop _ k' n _) as [[[k2 n2] s2]|]; [|done|done|by rewrite Hloop]. destruct Hloop as (-> & <- & Ha'). rewrite !bind_Ok.
  by rewrite !(agree_kpart k1 k2 n2).
Qed.

Lemma checksum_loop_agree fuel k k' n s : agree k k' n ->
  match checksum_loop fuel k n s, checksum_loop fuel k' n s with
  | Ok (k1, n1, s1), Ok (k2, n2, s2) => n1 = n2 /\ s1 = s2 /\ agree k1 k2 n1
  | Fault e, Fault e' => e = e'
  | _, _ => False
  end.
Proof.
  revert k k' n s. induction fuel as [|fuel IH]; intros k k' n s Ha; [done|]. cbn [checksum_loop]. destruct (decide (32 <= n)) as [Hn|]; [|done].
  unfold cs_add. rewrite !(agree_kword k k' n) by (done || lia). apply IH. by apply (agree_drop 32 k k').
Qed.

Lemma checksum_agree k k' n s : agree k k' n -> length k = length k' -> checksum k n s = checksum k' n s.
Proof.
  intros Ha Hl. unfold checksum. rewrite Hl. destruct (decide (Z.of_nat (length k') < n)); [done|]. pose proof (checksum_loop_agree (S (length k')) k k' n s Ha) as Hloop.
  destruct (checksum_loop _ k n _) as [[[k1 n1] s1]|], (checksum_loop _ k' n _) as [[[k2 n2] s2]|]; [|done|done|by rewrite Hloop]. destruct Hloop as (-> & -> & Ha'). rewrite !bind_Ok.
  do 2 f_equal. unfold cs_rest, cs_add. cbn [cs_a cs_b cs_c cs_d cs_e cs_f cs_g cs_h]. repeat first [rewrite decide_True by done | rewrite decide_False by done]. by rewrite !(agree_kpart k1 k2 n2).
Qed.

Lemma run_code_agree tab scr k k' n s ls : agree k k' n -> length k = length k' -> run_code tab scr k n s ls = run_code tab scr k' n s ls.
Proof.
  intros Ha Hl. revert s. induction ls as [|l ls IH]; intros s; [done|]. cbn [run_code].
  assert (run_line tab scr k n s l = run_line tab scr k' n s l) as ->.
  { destruct l; cbn [run_line]; try done; [by rewrite (lookup_agree k k')|]. destruct (from_option_fault _ _) as [c|]; [|done]. rewrite !bind_Ok. by rewrite (checksum_agree k k'). }
  destruct (run_line tab scr k' n s l); [|done]. rewrite !bind_Ok. apply IH.
Qed.

(** The function written does not tell keys apart that differ behind their length only. *)
Lemma phash_agree form c y z : string_mode form -> valid_key y -> len_k y = len_k z -> length (name_k y) = length (name_k z) -> take (Z.to_nat (len_k y)) (name_k y) = take (Z.to_nat (len_k y)) (name_k z) ->
  phash form c y = phash form c z.
Proof.
  intros [_ Hm] Hv Hlen Hl Ht. assert (Ha : agree (name_k y) (name_k z) (len_k y)).
  { intros i Hi. rewrite !nth_lookup. rewrite <- (lookup_take_lt (name_k y) (Z.to_nat (len_k y)) i), <- (lookup_take_lt (name_k z) (Z.to_nat (len_k y)) i) by lia. by rewrite Ht. }
  assert (Hrun : forall tab scr s ls, run_lines tab scr (name_k y) (len_k y) s ls = run_lines tab scr (name_k z) (len_k z) s ls) by (intros tab scr s ls; unfold run_lines; by rewrite <- Hlen, (run_code_agree _ _ (name_k y) (name_k z))).
  unfold phash. destruct Hm as [-> | ->]; [apply Hrun|]. unfold inline_hash. rewrite <- Hlen, <- Hl, Ht. destruct (decide _); [done|]. rewrite !bind_Ok, Hrun. by rewrite Hlen.
Qed.

(** ** The program *)
Lemma driver_words junk blen0 form words : string_mode form -> Forall word words ->
  driver junk blen0 form (text_of words) = (f ← findhash blen0 (word_keys junk words) (Z.of_nat (length words)) form; c ← make_c f; Ok (make_h (fd_blen f) (fd_smax f) (Z.of_nat (length words)) (fd_salt f), c)).
Proof. intros Hm Hw. unfold driver. rewrite getkeys_words by done. rewrite bind_Ok. fold (word_keys junk words). by rewrite word_keys_length. Qed.

(** C11: The program run on a list of words (of 1 to 28 characters, at most 2^30 of them), in normal
    mode or in inline mode for a minimal hash: it gives up with a message, or it writes a
    phash.h and a phash.c whose function maps the keys it has read to different numbers below
    PHASHNKEYS (minimal) or PHASHRANGE; PHASHNKEYS is the number of words, and PHASHSALT the
    value the function was found for.  It always ends and never reads or writes outside an
    array. *)
Theorem perfect_words junk blen0 args form words : parse_args args = Ok form -> string_mode form -> (f_mode form = INLINE_HM -> f_perfect form = MINIMAL_HP) ->
  Forall word words -> Z.of_nat (length words) <= 2 ^ 30 ->
  perfect_main junk blen0 args (text_of words) = Fault ExitCalled \/
  exists h c, perfect_main junk blen0 args (text_of words) = Ok (h, c) /\ ph_nkeys h = Z.of_nat (length words) /\ ph_salt h = pc_salt c /\
    perfect_for (word_keys junk words) (if decide (f_perfect form = MINIMAL_HP) then ph_nkeys h else ph_range h) (phash form c).
Proof.
  intros Hargs Hm Hinl Hw Hn. unfold perfect_main. rewrite Hargs, bind_Ok, driver_words by done.
  pose proof (findhash_perfect blen0 (word_keys junk words) form Hm Hinl (word_keys_valid junk words Hw)) as Hf. rewrite word_keys_length in Hf. destruct (Hf Hn) as [He|(f & c & Hfind & Hc & Hp)].
  - left. by rewrite He.
  - right. rewrite Hfind, bind_Ok, Hc, bind_Ok. eexists _, c. split; [reflexivity|].
    assert (Hh : forall b s n x, ph_nkeys (make_h b s n x) = n /\ ph_range (make_h b s n x) = s /\ ph_salt (make_h b s n x) = initlev_of x) by (intros b s n x; unfold make_h; by destruct (if decide _ then _ else _)).
    destruct (Hh (fd_blen f) (fd_smax f) (Z.of_nat (length words)) (fd_salt f)) as (-> & -> & ->). split; [done|]. split.
    + unfold make_c in Hc. destruct (make_c_tab f); [|discriminate Hc]. rewrite bind_Ok in Hc. destruct (make_c_scramble f); [|discriminate Hc]. rewrite bind_Ok in Hc. by injection Hc as <-.
    + unfold phash_range in Hp. by rewrite word_keys_length in Hp.
Qed.

(** C33: The program drops the last character of every word: on words of which two differ in it only
    it always gives up (and reports duplicate keys), whatever the options. *)
Theorem perfect_last_char junk blen0 args form words i j w x y : parse_args args = Ok form -> string_mode form -> (f_mode form = INLINE_HM -> f_perfect form = MINIMAL_HP) ->
  Forall word words -> Z.of_nat (length words) <= 2 ^ 30 ->
  words !! i = Some (w ++ [x]) -> words !! j = Some (w ++ [y]) -> i <> j -> perfect_main junk blen0 args (text_of words) = Fault ExitCalled.
Proof.
  intros Hargs Hm Hinl Hw Hn Hi Hj Hij. unfold perfect_main. rewrite Hargs, bind_Ok, driver_words by done.
  pose proof (findhash_perfect blen0 (word_keys junk words) form Hm Hinl (word_keys_valid junk words Hw)) as Hf. rewrite word_keys_length in Hf. destruct (Hf Hn) as [He|(f & c & _ & _ & _ & Hinj)]; [by rewrite He|].
  assert (Hat : forall k v, words !! k = Some v -> word_keys junk words !! (length words - S k)%nat = Some (word_key junk v)).
  { intros k v Hk. pose proof (lookup_lt_Some _ _ _ Hk). unfold word_keys. rewrite reverse_lookup by (rewrite length_fmap; lia). rewrite length_fmap, list_lookup_fmap.
    replace (length words - S (length words - S k))%nat with k by lia. by rewrite Hk. }
  pose proof (lookup_lt_Some _ _ _ Hi). pose proof (lookup_lt_Some _ _ _ Hj). exfalso.
  enough (length words - S i = length words - S j)%nat by lia. apply (Hinj _ _ _ _ (Hat _ _ Hi) (Hat _ _ Hj)). apply phash_agree; [done| | | |]; unfold valid_key, word_key; cbn [name_k len_k]; rewrite ?length_app; cbn [length]; try lia.
  replace (Z.to_nat (Z.of_nat (length w + 1) - 1)) with (length w) by lia. rewrite <- !app_assoc. by rewrite !take_app_length.
Qed.

(** one, two, six: the program keeps on, tw and si. *)
Definition three_words : list bytes := [[111; 110; 101]; [116; 119; 111]; [115; 105; 120]].
Definition zero_key : key := Key [] 0 0 0 0.

Lemma three_words_ok : Forall word three_words.
Proof. unfold three_words. repeat apply Forall_cons_2; try apply Forall_nil_2; (split; [cbn; lia|]; repeat apply Forall_cons_2; try apply Forall_nil_2; lia). Qed.

Theorem perfect_words_witness : exists h c, perfect_main zero_key 0 [] (text_of three_words) = Ok (h, c) /\ ph_nkeys h = Z.of_nat (length three_words) /\ ph_salt h = pc_salt c /\
  perfect_for (word_keys zero_key three_words) (ph_nkeys h) (phash default_form c).
Proof.
  assert (Hok : is_Ok (perfect_main zero_key 0 [] (text_of three_words)) = true) by (lazy; reflexivity).
  assert (Hm : string_mode default_form) by (split; [reflexivity|left; reflexivity]). assert (Hn : Z.of_nat (length three_words) <= 2 ^ 30) by (cbn; lia).
  assert (Hinl : f_mode default_form = INLINE_HM -> f_perfect default_form = MINIMAL_HP) by (intros _; reflexivity).
  destruct (perfect_words zero_key 0 [] default_form three_words eq_refl Hm Hinl three_words_ok Hn) as [Hf|Hf].
  - rewrite Hf in Hok. discriminate Hok.
  - exact Hf.
Defined.

(** ab and ac. *)
Theorem perfect_last_char_witness : perfect_main zero_key 0 [] (text_of [[97; 98]; [97; 99]]) = Fault ExitCalled.
Proof.
  assert (Hm : string_mode default_form) by (split; [reflexivity|left; reflexivity]).
  assert (Hinl : f_mode default_form = INLINE_HM -> f_perfect default_form = MINIMAL_HP) by (intros _; reflexivity).
  assert (Hw : Forall word [[97; 98]; [97; 99]]) by (repeat apply Forall_cons_2; try apply Forall_nil_2; (split; [cbn; lia|]; repeat apply Forall_cons_2; try apply Forall_nil_2; lia)).
  assert (Hn : Z.of_nat (length [[97; 98]; [97; 99]]) <= 2 ^ 30) by (cbn; lia).
  exact (perfect_last_char zero_key 0 [] default_form _ 0%nat 1%nat [97] 98 99 eq_refl Hm Hinl Hw Hn eq_refl eq_refl (O_S 0)).
Defined.

(** A line of 29 characters fills the buffer, and its newline is read as a line of its own: a key
    of length 2^32 - 1. *)
Example long_line_key : getkeys zero_key default_form (replicate 29 97 ++ [10]) = Ok [Key [0] (2 ^ 32 - 1) 0 0 0; Key (replicate 29 97 ++ [0]) 28 0 0 0].
Proof. vm_compute. reflexivity. Qed.
Example long_line_reads_outside : perfect_main zero_key 0 [] (replicate 29 97 ++ [10]) = Fault OutOfBounds.
Proof. lazy. reflexivity. Qed.
